(* ===== verification/_CoqProject ===== *)
-Q . S2P
Prelude.v
KMath.v
PageAllocator.v
BuddyTiling.v
PageAllocatorRep.v
PageAllocatorSpec.v
PageAllocatorBoot.v
MmuDc.v
Mmu.v
MmuReach.v
MmuSpec.v
MmuUnmap.v
MmuCore.v
VmContainers.v
VmContainersSpec.v
Vmalloc.v
VmLists.v
VmallocSpec.v
VmallocReserved.v
VmallocBlocks.v
VmallocInv.v
VmallocOps.v
VmallocQueries.v
VmallocBoot.v
VmallocCorrect.v
EarlyKalloc.v
EarlyKallocSpec.v
EarlyKallocBoot.v
EarlyKallocCorrect.v
HeapLogic.v
Rbtree.v
RbtreeTree.v
RbtreeRep.v
RbtreeInsert.v
RbtreeErase.v
RbtreeRemove.v
RbtreeTraverse.v
RbtreeDestroy.v
RbtreeKeys.v
RbtreeCorrect.v
Uregion.v
UregionSpec.v
UregionBlocks.v
UregionCommit.v
UregionTask.v
UregionFree.v
UregionQueries.v
UregionKernel.v
UregionCorrect.v
UserMem.v
UserMemCorrect.v
UregionAccess.v
UregionCopy.v
HeapBlocks.v
CacheMalloc.v
CacheSpec.v
CacheAlloc.v
CacheFree.v
CacheCorrect.v
KmallocCorrect.v
Reserve.v
ReserveCorrect.v
RawKmalloc.v
RawKmallocSpec.v
RawKmallocDynamic.v
RawKmallocRefill.v
RawKmallocCorrect.v
Locks.v
LocksCorrect.v
Fmt.v
FmtCorrect.v
