(* ===== verification/Prelude.v ===== *)
(** * Verification of the memory management of an Armv8-A kernel

    The program is a kernel for the NXP i.MX8M Plus.  This library models the
    part of it that decides who owns which address: the early allocator, the
    buddy page allocator, the translation tables, the virtual address
    allocator, the whole-page allocator that composes them, the slab caches,
    the regions of user tasks with the red-black tree under them and their
    clients (page faults, mmap, munmap, the loader), with the
    integer and address helpers they share, and proves what each promises to
    its callers.

    ** How the parts interact

    At boot [mm_info_init] reads the board's memory table and
    [early_kalloc_init] turns it into a list of regions, out of which the
    kernel's sections and the first allocations are cut.  The page allocator
    and vmalloc then start with everything free and take over the table that
    [early_kalloc_get_memregs] hands out ([page_allocator_update_memregs],
    [vmalloc_update_memregs]).  From then on [page_malloc] hands out physical
    blocks, [vmalloc] kernel virtual ranges, and [mmu_map] connects the two.
    A task has a tree of reserved regions; a fault in one of them, or a copy
    by the kernel, commits pages of it: frames are taken, mapped into the
    task's address space and recorded in the region's tree of blocks and in
    its bitfield.

    ** Files

    - Prelude (this file): outcomes, the state-and-error monad [M] with its
      total-correctness triples [wp], machine integers, bit lemmas and their
      hint database.
    - KMath: include/lib/math.h, align.h, mem.h and the kernel offset of
      include/kernel/mm.h.
    - PageAllocator: src/kernel/mm/malloc/page_allocator/page_allocator.c; its
      statics are the record [pa_state].  BuddyTiling is the abstract
      allocator (a tiling of the pages by aligned blocks), PageAllocatorRep
      relates the arrays and intrusive lists to it, PageAllocatorSpec has the
      refinement of the operations, PageAllocatorBoot initialisation, boot
      reservations and the witnesses.
    - MmuDc, Mmu: src/arm/mmu/mmu_dc.h, mmu_types.h, mmu_tbl_ctrl.h, mmu.c;
      descriptors are 64-bit integers, tables arrays in a memory.  MmuReach
      shows that the tables form a tree and what editing it does to
      translations; MmuSpec and MmuUnmap have the theorems on mapping and
      unmapping.  The callbacks of a mapping obey the class [TableAllocator].
    - MmuCore: src/arm/mmu/mmu_core.c, the handle of a core and the system
      registers it programs.
    - VmContainers: src/kernel/mm/malloc/vmalloc/containers/ and mdt/, pages
      of list nodes with bitfields; VmContainersSpec shows that they are a
      pool of nodes over any page source of the class [PageSource].
    - Vmalloc: src/kernel/mm/malloc/vmalloc/vmalloc.c.  VmLists has linked
      lists in memory and lists of areas; VmallocSpec (free areas),
      VmallocReserved and VmallocBlocks (reserved areas, physical blocks),
      VmallocInv (the partition of the windows), VmallocOps, VmallocQueries
      and VmallocBoot lead to the theorems of VmallocCorrect.
    - EarlyKalloc: src/kernel/mm/init/mem_regions/ and mm_info.c.
      EarlyKallocSpec relates the linked nodes to a list of regions,
      EarlyKallocBoot adds initialisation and handover, EarlyKallocCorrect
      has the theorems and the board as instance.
    - HeapLogic: a separation logic for memories of cells in the proof mode of
      Iris, with weakest preconditions [hwp] for programs on the memory and
      [uwp] for programs on the memory and an allocator.
    - Rbtree: src/lib/data_structures/rbtree.c, on nodes with the packed
      parent and color word; the header of a tree may be a field of another
      node ([TreeField]).  RbtreeTree has trees and contexts with the
      red-black invariant, RbtreeRep their memory, RbtreeInsert,
      RbtreeErase, RbtreeRemove, RbtreeTraverse and RbtreeDestroy the
      operations, RbtreeKeys order and height, RbtreeCorrect the theorems.
    - Uregion: src/kernel/mm/malloc/uregion.c; kmalloc, raw_kmalloc, the MMU
      and the byte copies are the class [Kernel].  UregionSpec has the laws
      [KernelLaws] and the tree of regions, UregionBlocks the blocks of a
      region, UregionCommit bitfields and commits, UregionTask and
      UregionFree all regions of a task ([task], [task_ok]), UregionQueries
      the queries, UregionKernel an instance of the laws, UregionCorrect the
      theorems.  UregionAccess has the access checks and the copies between
      kernel and task, with the law of memcpy ([CopyLaws]), UregionCopy the
      theorems on them.
    - UserMem: src/kernel/mm/page_fault.c and elf.c and the handlers of mmap,
      munmap, read and write in src/kernel/syscall/handlers/; UserMemCorrect
      has the theorems on faults, mmap and munmap.
    - CacheMalloc: src/kernel/mm/malloc/cache_malloc/cache_malloc.c and
      src/kernel/mm/malloc/kmalloc/kmalloc.c, on a memory of 64-bit words
      (HeapBlocks) with the layouts of the nine structs; raw_kmalloc is the
      class [RawAlloc].  CacheSpec has the laws [RawLaws], caches and lists
      of them, CacheAlloc and CacheFree the operations on one class,
      CacheCorrect the heap of the nine classes, KmallocCorrect the theorems.
    - RawKmalloc: src/kernel/mm/malloc/raw_kmalloc/raw_kmalloc.c on the three
      components and the page reserve side by side ([kmem]); [kmem_env] is
      what the reserve calls there.  RawKmallocSpec has the invariant of
      the composition and the blocks at the fixed offset, RawKmallocDynamic
      the allocations out of several blocks, RawKmallocRefill the refill of
      the reserve behind an allocation, RawKmallocCorrect the theorems.
    - Reserve: src/kernel/mm/malloc/reserve_malloc/reserve_malloc.c as part of
      any larger state ([ReserveEnv]); ReserveCorrect has the laws of the
      calls it makes, the theorems, and the reserve as an instance of
      [PageSource].
    - Locks: include/lib/lock.h as machines whose steps are the atomic
      accesses of the CPUs; LocksCorrect has their invariants.
    - Fmt: src/lib/string/string.c and fmt.c on objects of characters;
      FmtCorrect has the numeral of an integer and the text of a format as
      references, and that the code writes them.

    ** What the theorems show

    - Page allocator: [page_malloc] and [page_free] refine the allocation and
      release of a block of the tiling, in every consistent state; the tiling
      stays coalesced, a release undoes an allocation exactly, exhaustion and
      misuse panic, initialisation and the boot reservations establish and
      keep the invariant.
    - MMU: after [mmu_map] exactly the range translates to its image, after
      [mmu_unmap] of a mapped range exactly that range no longer translates;
      descriptors decode to what they were built from; activation programs
      the registers from the handle and leaves them alone on every error.
    - vmalloc: free and reserved areas partition the upper half of the
      address space.  [vmalloc] and [vfree] move exactly one range between
      the two, are inverse to each other, and panic when nothing fits; the
      queries answer by the partition and the byte counters add up; the node
      containers never hand out a node twice.
    - Early allocator: initialisation equals a list program on regions,
      allocation is first fit and changes the attributes of the requested
      addresses only, and the table handed over satisfies the hypotheses of
      the two theorems about taking it over.
    - Red-black tree: insertion, removal, lookup, iteration and destruction
      refine a list of nodes, through every case of rebalancing; lookups are
      logarithmic; memory outside of the tree is untouched.
    - User regions: the bits of a region, its blocks, the frames in use and
      the pages mapped for the task agree ([coherent]).  Reserving,
      committing and freeing keep that and change one region only;
      reserving, committing and freeing a range restores everything; the
      queries answer by the regions.  A page fault commits the page it hits
      and no other; mmap finds the highest gap and munmap undoes it.  The
      kernel touches user memory only where all pages are committed with the
      rights it asks for, and copies arrive byte for byte.
    - Kernel heap: kmalloc and kfree refine a set of objects whose words
      nothing else changes; what kmalloc answers with overlaps no other
      object, and a cache without objects gives its block back; every cache
      has an object in use, and the hint of a class is an empty entry or there is none.
    - Whole pages: [raw_kmalloc] gives blocks that were free, reserves free
      addresses for them and maps exactly these to those; [raw_kfree] undoes
      it in the page allocator, in vmalloc and in the tables at once.  The
      refill behind an allocation takes a free page for each empty slot, maps
      it at its alias and changes nothing else.  The
      reserve never hands out a page twice, and refilling it ends although
      pages are taken from it meanwhile.
    - Locks: at most one CPU is inside of a spinlock, and of a recursive lock
      whose callers mask interrupts, however the CPUs interleave; with
      interrupts enabled the recursive lock lets two in.
    - Formatting: numbers are written as their numerals in every base, or
      the code panics when they do not fit; printing renders its format.
    - Where the code does not do what it means to, a theorem states what it
      does instead: buddies past the end of the memory, the order passed for
      an index, a populated table released with its parent's level, skipped
      and panicking unmaps, a lookup loop that tests the wrong variable, huge
      requests without huge alignment, a table of regions that is
      rejected when it is smaller than a page, custom codes of a comparison
      that insert, a null bitfield that is freed, a flush that never ends, a
      query that misses the last page, a second commit of committed pages, a
      mapping that is made but not returned, a mapping that cannot be used,
      data that is taken for the mark of a cache, a recursive lock that two
      CPUs enter, a format that is read past its end.

    ** Conventions

    The release configuration is modelled: [DEBUG_ASSERT] and the debug
    printers are compiled out.  [PANIC] and a failed [ASSERT] are [EPanic], an
    access outside of the modelled object [EFault].  Integers are [Z] with
    the wrap-around of their width written out.  Pointers are addresses, or
    indices into the one array they point into.  Outside of
    Locks each operation that the code runs under a lock is one step.  Code that is a parameter: the callbacks of
    a mapping; [reserve_malloc] and [raw_kfree] under vmalloc; the linker's
    section bounds, [_start], the addresses of string literals, and the
    contents of memory before it is written; kmalloc, raw_kmalloc, the MMU and
    the byte copies under the user regions, and the files of a task;
    raw_kmalloc and raw_kfree under the caches; raw_kmalloc and the tag
    updates under the reserve in Reserve, which RawKmalloc instantiates.
    Zeroing memory is a log of ranges in the state of raw_kmalloc.  The laws of the allocators
    hold for a finite budget, and concrete instances satisfy them.  The page
    source under vmalloc has a state of its own: that [raw_kfree] releases a
    container page by entering vmalloc again, and that [reserve_malloc]
    rewrites the tag of the page in vmalloc's lists, is not modelled.  The
    vector of areas that uregions_check_access collects is a list.

    ** Fuel

    Loops over linked lists get one more step than the node memory has nodes,
    loops over orders and levels one more than there are orders or levels,
    loops over a range one more than the range has pages; loops down a
    red-black tree as many steps as the memory has cells; the walk along the
    caches of a class one more than its counter says.  The flush of a
    range takes its fuel as an argument, since it may not end, and so does
    the refill of the reserve, whose rounds depend on [raw_kmalloc].  Every theorem that
    says what an operation does is a [wp], which excludes [EFuel]: the bounds
    are proved to be enough.

    ** Not modelled

    Boot code, exception entry, context switches and memory primitives
    are assembly; of the locks the memory order beyond interleaving and the
    sleep between two looks at a flag are left out; drivers talk to hardware registers; the terminals
    and measurement have no state worth modelling.  The composition of
    [raw_kmalloc] keeps the page sources of vmalloc and of the tables apart,
    each with a budget, where the code has one reserve for both: the reserve
    it refills may start with any slots empty, and is not drained meanwhile;
    ReserveCorrect proves that a refill ends when it is.  The laws of the
    kernel under the user regions ([KernelLaws]) are those that the
    components keep: blocks of powers of two of at most 256 pages, ranges of
    fewer than 512 pages for the MMU (none can hold a whole table), and a
    lower bound on the free frames.  Of the
    remaining C code the layers above come next, in this order: theorems
    about the loader; the vector, the run queues of
    the scheduler and the timer events. *)

From Stdlib Require Import ZArith Lia.
From stdpp Require Import base tactics numbers strings gmap list.

Open Scope Z_scope.

(** ** Outcomes

    A C function either returns, or reaches [PANIC] / a failed [ASSERT]
    ([EPanic]), or dereferences an address outside of the object it models
    ([EFault]).  [EFuel] marks a loop whose bound was chosen too small; the
    theorems show that it is never the answer. *)

Inductive err : Type := EPanic | EFault | EFuel.

Inductive res (A : Type) : Type :=
  | Ok (a : A)
  | Err (e : err).
Arguments Ok {A} a.
Arguments Err {A} e.

#[export] Instance err_eq_dec : EqDecision err.
Proof. solve_decision. Defined.

#[export] Instance res_eq_dec {A} `{EqDecision A} : EqDecision (res A).
Proof. solve_decision. Defined.

(** State-and-error computations: the explicit threading of the statics of a
    translation unit through its functions. *)
Definition M (S A : Type) : Type := S -> res (A * S).

Declare Scope kmonad_scope.
Delimit Scope kmonad_scope with km.

Section Monad.
Context {S : Type}.

Definition ret {A} (a : A) : M S A := fun s => Ok (a, s).

Definition bind {A B} (m : M S A) (f : A -> M S B) : M S B :=
  fun s => match m s with
           | Ok (a, s') => f a s'
           | Err e => Err e
           end.

Definition panic {A} : M S A := fun _ => Err EPanic.
Definition fault {A} : M S A := fun _ => Err EFault.
Definition nofuel {A} : M S A := fun _ => Err EFuel.

Definition gets {A} (f : S -> A) : M S A := fun s => Ok (f s, s).
Definition modify (f : S -> S) : M S unit := fun s => Ok (tt, f s).

(** [ASSERT(cond)] of include/kernel/panic.h *)
Definition ASSERT (b : bool) : M S unit := if b then ret tt else panic.

(** A dereference that must hit the modelled object. *)
Definition deref {A} (o : option A) : M S A :=
  match o with Some a => ret a | None => fault end.

End Monad.

Notation "'let*' x ':=' c 'in' k" := (bind c (fun x => k))
  (at level 10, x pattern, c at level 100, k at level 200) : kmonad_scope.
Notation "c ;; k" := (bind c (fun _ => k))
  (at level 100, k at level 200, right associativity) : kmonad_scope.

Open Scope kmonad_scope.

(** ** Total-correctness triples

    [wp m Q s]: run from [s], [m] returns (no panic, no fault, enough fuel)
    and its result and final state satisfy [Q]. *)
Definition wp {S A} (m : M S A) (Q : A -> S -> Prop) (s : S) : Prop :=
  match m s with
  | Ok (a, s') => Q a s'
  | Err _ => False
  end.

Section WP.
Context {S : Type}.
Implicit Types (s : S).

Lemma wp_ok {A} (m : M S A) Q s :
  wp m Q s <-> exists a s', m s = Ok (a, s') /\ Q a s'.
Proof.
  unfold wp. destruct (m s) as [[a s']|e]; naive_solver.
Qed.

Lemma wp_ret {A} (a : A) (Q : A -> S -> Prop) s : Q a s -> wp (ret a) Q s.
Proof. done. Qed.

Lemma wp_bind {A B} (m : M S A) (f : A -> M S B) Q s :
  wp m (fun a s' => wp (f a) Q s') s -> wp (bind m f) Q s.
Proof. unfold wp, bind. by destruct (m s) as [[a s']|e]. Qed.

Lemma wp_bind_inv {A B} (m : M S A) (f : A -> M S B) Q s :
  wp (bind m f) Q s -> wp m (fun a s' => wp (f a) Q s') s.
Proof. unfold wp, bind. by destruct (m s) as [[a s']|e]. Qed.

(** Regrouping a sequence, to use a triple about its first two steps. *)
Lemma wp_assoc {A B C} (m : M S A) (f : A -> M S B) (g : B -> M S C) Q s :
  wp (bind (bind m f) g) Q s -> wp (bind m (fun a => bind (f a) g)) Q s.
Proof. unfold wp, bind. by destruct (m s) as [[a s']|e]. Qed.

Lemma wp_mono {A} (m : M S A) (P Q : A -> S -> Prop) s :
  wp m P s -> (forall a s', P a s' -> Q a s') -> wp m Q s.
Proof. unfold wp. destruct (m s) as [[a s']|e]; eauto. Qed.

(** Continue after a computed value that a later step still uses. *)
Lemma wp_bind_ret {A B C} (m : M S A) (f : A -> M S B) (k : A -> M S C) P Q s :
  wp (bind m (fun a => bind (f a) (fun _ => ret a))) P s ->
  (forall a s', P a s' -> wp (k a) Q s') ->
  wp (bind m (fun a => bind (f a) (fun _ => k a))) Q s.
Proof.
  unfold wp, bind, ret. intros H Hk. destruct (m s) as [[a s']|e]; [|done].
  destruct (f a s') as [[b s'']|e]; [|done]. by apply Hk.
Qed.

Lemma wp_gets {A} (f : S -> A) (Q : A -> S -> Prop) s :
  Q (f s) s -> wp (gets f) Q s.
Proof. done. Qed.

Lemma wp_modify (f : S -> S) (Q : unit -> S -> Prop) s :
  Q tt (f s) -> wp (modify f) Q s.
Proof. done. Qed.

Lemma wp_ASSERT (b : bool) (Q : unit -> S -> Prop) s :
  b = true -> Q tt s -> wp (ASSERT b) Q s.
Proof. by intros ->. Qed.

Lemma wp_deref {A} (o : option A) a (Q : A -> S -> Prop) s :
  o = Some a -> Q a s -> wp (deref o) Q s.
Proof. by intros ->. Qed.

(** A failing prefix fails the whole computation. *)
Lemma bind_err {A B} (m : M S A) (f : A -> M S B) s e :
  m s = Err e -> bind m f s = Err e.
Proof. unfold bind. by intros ->. Qed.

Lemma bind_ok {A B} (m : M S A) (f : A -> M S B) s a s' :
  m s = Ok (a, s') -> bind m f s = f a s'.
Proof. unfold bind. by intros ->. Qed.

Lemma bind_inv {A B} (m : M S A) (f : A -> M S B) s r :
  bind m f s = Ok r -> exists a s', m s = Ok (a, s') /\ f a s' = Ok r.
Proof. unfold bind. destruct (m s) as [[a s']|e]; naive_solver. Qed.

End WP.

(** One step of symbolic execution of a [wp] goal. *)
Ltac wp_step :=
  lazymatch goal with
  | |- wp (bind _ _) _ _ => apply wp_bind
  | |- wp (ret _) _ _ => apply wp_ret
  | |- wp (gets _) _ _ => apply wp_gets
  | |- wp (modify _) _ _ => apply wp_modify
  | |- wp (deref _) _ _ => eapply wp_deref; [solve [eauto]|]
  | |- wp (ASSERT _) _ _ => apply wp_ASSERT; [solve [eauto]|]
  | |- wp (match ?b with true => _ | false => _ end) _ _ => destruct b eqn:?
  end; cbn beta.
Ltac wp_steps := repeat wp_step.

(** Use a proved triple for the head computation of the goal. *)
Ltac wp_use H := eapply wp_mono; [eapply H|]; cbn beta.

(** ** Machine integers *)

Definition wrap (w z : Z) : Z := z mod 2 ^ w.
Abbreviation wrap8 := (wrap 8).
Abbreviation wrap32 := (wrap 32).
Abbreviation wrap64 := (wrap 64).

(** [~x] on a [w]-bit unsigned integer *)
Definition not_w (w x : Z) : Z := Z.lxor x (Z.ones w).
Abbreviation not32 := (not_w 32).
Abbreviation not64 := (not_w 64).

Definition u_range (w z : Z) : Prop := 0 <= z < 2 ^ w.
Abbreviation is_u32 := (u_range 32).
Abbreviation is_u64 := (u_range 64).

Lemma wrap_small w z : u_range w z -> wrap w z = z.
Proof. apply Z.mod_small. Qed.

Lemma wrap_range w z : 0 <= w -> u_range w (wrap w z).
Proof. intros. apply Z.mod_pos_bound. lia. Qed.

Lemma testbit_high w z i : u_range w z -> w <= i -> Z.testbit z i = false.
Proof.
  intros [H0 H1] Hi. destruct (Z.eq_dec z 0) as [->|Hz].
  { apply Z.bits_0. }
  apply Z.bits_above_log2; [done|].
  assert (0 <= w) by (destruct (Z.lt_ge_cases w 0) as [Hw|]; [|done];
                      rewrite Z.pow_neg_r in H1 by done; lia).
  apply Z.lt_le_trans with w; [|done]. apply Z.log2_lt_pow2; lia.
Qed.

(** A value is below [2^w] as soon as its bits from [w] on are clear. *)
Lemma range_of_bits w z :
  0 <= w -> 0 <= z -> (forall i, w <= i -> Z.testbit z i = false) -> u_range w z.
Proof.
  intros Hw Hz Hb. split; [done|].
  destruct (Z.eq_dec z 0) as [->|]; [lia|].
  apply Z.log2_lt_pow2; [lia|].
  destruct (Z.lt_ge_cases (Z.log2 z) w) as [|Hge]; [done|].
  specialize (Hb _ Hge). rewrite Z.bit_log2 in Hb by lia. done.
Qed.

(** *** Bitwise reasoning

    [kbits] pushes [Z.testbit] through the bit operations; [bits_solve]
    compares two integers bit by bit. *)
Create HintDb kbits.

Lemma testbit_ones' w i : 0 <= w -> 0 <= i -> Z.testbit (Z.ones w) i = (i <? w).
Proof.
  intros. rewrite Z.testbit_ones_nonneg by lia. done.
Qed.

Lemma testbit_shiftl' a n i :
  0 <= i -> Z.testbit (Z.shiftl a n) i = Z.testbit a (i - n).
Proof. intros. by apply Z.shiftl_spec. Qed.

Lemma testbit_pow2' n i : 0 <= n -> Z.testbit (2 ^ n) i = (i =? n).
Proof.
  intros. rewrite Z.pow2_bits_eqb by lia. apply Z.eqb_sym.
Qed.

Lemma testbit_not_w w x i :
  0 <= w -> 0 <= i ->
  Z.testbit (not_w w x) i = xorb (Z.testbit x i) (i <? w).
Proof. intros. unfold not_w. by rewrite Z.lxor_spec, testbit_ones'. Qed.

Lemma testbit_mod_pow2 a n i :
  0 <= n -> Z.testbit (a mod 2 ^ n) i = (i <? n) && Z.testbit a i.
Proof.
  intros. destruct (Z.ltb_spec i n).
  - destruct (Z.lt_ge_cases i 0).
    + by rewrite !Z.testbit_neg_r.
    + by rewrite Z.mod_pow2_bits_low.
  - by rewrite Z.mod_pow2_bits_high.
Qed.

Lemma testbit_wrap w z i :
  0 <= w -> Z.testbit (wrap w z) i = (i <? w) && Z.testbit z i.
Proof. apply testbit_mod_pow2. Qed.

#[export] Hint Rewrite Z.land_spec Z.lor_spec Z.lxor_spec Z.ldiff_spec
  Z.bits_0 : kbits.
#[export] Hint Rewrite Z.shiftr_spec testbit_shiftl' testbit_ones'
  testbit_pow2' testbit_not_w testbit_mod_pow2 testbit_wrap using lia : kbits.

(** Split on the position tests produced by [kbits]. *)
Ltac bits_cases :=
  repeat match goal with
         | |- context [?a <? ?b] => destruct (Z.ltb_spec a b)
         | |- context [?a =? ?b] => destruct (Z.eqb_spec a b)
         end.

Ltac bits_solve :=
  apply Z.bits_inj'; intros ?i ?Hi;
  autorewrite with kbits; bits_cases;
  rewrite ?andb_true_r, ?andb_false_r, ?orb_false_r, ?andb_true_l, ?andb_false_l,
    ?xorb_false_r, ?xorb_true_r, ?orb_true_r, ?orb_false_l;
  try first [done | lia].

(** ["x & ~m"] clears the bits of [m]. *)
Lemma land_not_w w x m :
  0 <= w -> u_range w x -> Z.land x (not_w w m) = Z.ldiff x m.
Proof.
  intros Hw Hx. bits_solve.
  rewrite (testbit_high w x) by (done || lia). done.
Qed.

Lemma land_range w x y : 0 <= w -> u_range w x -> 0 <= y -> u_range w (Z.land x y).
Proof.
  intros Hw Hx Hy. apply range_of_bits; [done|apply Z.land_nonneg; left; apply Hx|].
  intros i Hi. rewrite Z.land_spec, (testbit_high w x) by done. done.
Qed.

Lemma ldiff_range w x y : 0 <= w -> u_range w x -> u_range w (Z.ldiff x y).
Proof.
  intros Hw Hx. apply range_of_bits; [done|apply Z.ldiff_nonneg; left; apply Hx|].
  intros i Hi. rewrite Z.ldiff_spec, (testbit_high w x) by done. done.
Qed.

Lemma lor_range w x y : 0 <= w -> u_range w x -> u_range w y -> u_range w (Z.lor x y).
Proof.
  intros Hw Hx Hy. apply range_of_bits; [done|apply Z.lor_nonneg; split; [apply Hx|apply Hy]|].
  intros i Hi. rewrite Z.lor_spec, !(testbit_high w) by done. done.
Qed.

Lemma lxor_range w x y : 0 <= w -> u_range w x -> u_range w y -> u_range w (Z.lxor x y).
Proof.
  intros Hw Hx Hy. apply range_of_bits; [done|apply Z.lxor_nonneg; split; intros; [apply Hy|apply Hx]|].
  intros i Hi. rewrite Z.lxor_spec, !(testbit_high w) by done. done.
Qed.

(** Multiples of a power of two are the numbers with clear low bits. *)
Lemma divide_pow2_bits k x :
  0 <= k -> (2 ^ k | x) <-> (forall i, 0 <= i < k -> Z.testbit x i = false).
Proof.
  intros Hk. rewrite <- Z.mod_divide by lia. split.
  - intros H i Hi. assert (Z.testbit (x mod 2 ^ k) i = false) as E by (rewrite H; apply Z.bits_0).
    rewrite testbit_mod_pow2 in E by lia.
    destruct (Z.ltb_spec i k); [done|lia].
  - intros H. bits_solve. apply H. lia.
Qed.

(** ** Arrays *)

(** An array of [n] elements with arbitrary contents. *)
Definition array {A} (n : Z) (mem : Z -> A) : gmap Z A :=
  list_to_map ((fun i => (i, mem i)) <$> seqZ 0 n).

Lemma array_lookup {A} n (mem : Z -> A) i :
  array n mem !! i = if decide (0 <= i < n) then Some (mem i) else None.
Proof.
  unfold array. case_decide as Hi.
  - apply elem_of_list_to_map_1.
    + rewrite <- list_fmap_compose. cbn. rewrite list_fmap_id. apply NoDup_seqZ.
    + apply list_elem_of_fmap. exists i. split; [done|]. by apply elem_of_seqZ.
  - apply not_elem_of_list_to_map_1. rewrite <- list_fmap_compose. cbn.
    rewrite list_fmap_id, elem_of_seqZ. done.
Qed.

(** ** Loops over a list of indices *)

(** [for] over the elements of [l] *)
Fixpoint mfor {S A} (l : list A) (body : A -> M S unit) : M S unit :=
  match l with
  | [] => ret tt
  | x :: l => body x ;; mfor l body
  end.

(** A loop preserves what each of its rounds preserves. *)
Lemma wp_mfor {S A} (l : list A) (body : A -> M S unit) (I : list A -> S -> Prop) s :
  I [] s ->
  (forall done x rest s, l = done ++ x :: rest -> I done s ->
     wp (body x) (fun _ s' => I (done ++ [x]) s') s) ->
  wp (mfor l body) (fun _ s' => I l s') s.
Proof.
  intros H0 Hstep.
  assert (forall rest done s, l = done ++ rest -> I done s ->
            wp (mfor rest body) (fun _ s' => I l s') s) as H.
  { induction rest as [|x rest IH]; intros d s' Hl Hd; cbn [mfor].
    - apply wp_ret. by rewrite app_nil_r in Hl; subst.
    - apply wp_bind. eapply wp_mono; [by eapply Hstep|]. cbn beta. intros _ s'' Hs.
      apply (IH (d ++ [x])); [|done]. by rewrite <- app_assoc. }
  by apply (H l []).
Qed.

(** Lifting a pure fallible computation. *)
Definition lift {S A} (r : res A) : M S A :=
  fun s => match r with Ok a => Ok (a, s) | Err e => Err e end.

Lemma wp_lift {S A} (r : res A) a (Q : A -> S -> Prop) s :
  r = Ok a -> Q a s -> wp (lift r) Q s.
Proof. by intros -> ?. Qed.

(** The value of a run, without its final state. *)
Definition result {S A} (m : M S A) (s : S) : res A :=
  match m s with Ok (a, _) => Ok a | Err e => Err e end.

Lemma wp_returns {S A} (m : M S A) (Q : A -> S -> Prop) (s : S) : wp m Q s -> exists a s', m s = Ok (a, s') /\ Q a s'.
Proof. unfold wp. destruct (m s) as [[a s']|e]; naive_solver. Qed.
