(* ===== verification/KMath.v ===== *)
(** * KMath: integer helpers and address arithmetic

    include/lib/math.h, include/lib/align.h, the address predicates of
    include/lib/mem.h and the kernel-offset conversions of
    include/kernel/mm.h, on [Z] with the 32/64-bit wrap-around written out.
    The theorems show that the bit tricks compute the arithmetic they stand
    for, and that the two address round trips (physical <-> kernel virtual,
    signed <-> unsigned canonical form) lose nothing. *)

From Stdlib Require Import ZArith Lia.
From stdpp Require Import base tactics numbers.
From S2P Require Import Prelude.

Open Scope Z_scope.

(** ** include/lib/math.h *)

(** [__builtin_clz] / [__builtin_clzll] on a nonzero [w]-bit argument *)
Definition builtin_clz (w x : Z) : Z := w - 1 - Z.log2 x.

Definition log2_floor_u32 (x : Z) : Z :=
  if x =? 0 then 0 else 31 - builtin_clz 32 x.

Definition log2_floor_u64 (x : Z) : Z :=
  if x =? 0 then 0 else 63 - builtin_clz 64 x.

Definition log2_ceil_u32 (x : Z) : Z :=
  if x <=? 1 then 0 else 32 - builtin_clz 32 (x - 1).

Definition log2_ceil_u64 (x : Z) : Z :=
  if x <=? 1 then 0 else 64 - builtin_clz 64 (x - 1).

Definition power_of2 (x : Z) : Z :=
  if x <? 64 then wrap64 (Z.shiftl 1 x) else 0.

Definition square (x : Z) : Z := wrap64 (x * x).

Definition kmax (a b : Z) : Z := if b <? a then a else b.

Definition kmin (a b : Z) : Z := if a <? b then a else b.

Definition div_ceil (a b : Z) : Z := wrap64 (a + b - 1) / b.

Definition is_pow2 (x : Z) : bool :=
  negb (x =? 0) && (Z.land x (wrap64 (x - 1)) =? 0).

(** The shift amounts stay below the width for [x <= 2^31] / [x <= 2^63];
    above that the C shift is undefined and no theorem speaks of it. *)
Definition next_pow2_u32 (x : Z) : Z :=
  if x <=? 1 then 1 else wrap32 (Z.shiftl 1 (32 - builtin_clz 32 (x - 1))).

Definition next_pow2_u64 (x : Z) : Z :=
  if x <=? 1 then 1 else wrap64 (Z.shiftl 1 (64 - builtin_clz 64 (x - 1))).

(** ** include/lib/align.h *)

Definition align_up (x a : Z) : Z :=
  Z.land (wrap64 (x + a - 1)) (not64 (wrap64 (a - 1))).

Definition align_down (x a : Z) : Z := Z.land x (not64 (wrap64 (a - 1))).

Definition is_aligned (x a : Z) : bool := Z.land x (wrap64 (a - 1)) =? 0.

(** ** include/kernel/mm.h: the kernel offset *)

Definition PAGE_SIZE : Z := 4096.
Definition PAGE_ALIGN : Z := PAGE_SIZE.
Definition KERNEL_ADDR_BITS : Z := 48.

Definition KERNEL_BASE : Z :=
  not64 (Z.shiftl 1 (KERNEL_ADDR_BITS - 1) - 1).

Definition kva_to_kpa (va : Z) : Z := Z.land va (not64 KERNEL_BASE).

Definition kpa_to_kva (pa : Z) : Z := Z.lor pa KERNEL_BASE.

Definition is_kva_uintptr_t (a : Z) : bool := KERNEL_BASE <=? a.

Definition as_kva (ptr : Z) : Z :=
  if is_kva_uintptr_t ptr then ptr else kpa_to_kva ptr.

Definition as_kpa (ptr : Z) : Z :=
  if is_kva_uintptr_t ptr then kva_to_kpa ptr else ptr.

Record pv_ptr : Type := { pa : Z; va : Z }.

Definition pv_ptr_new (p v : Z) : pv_ptr := {| pa := p; va := v |}.

Definition ptrs_are_kmapped (pv : pv_ptr) : bool :=
  Z.lor (pa pv) KERNEL_BASE =? va pv.

(** ** include/lib/mem.h: canonical addresses *)

Definition address_is_valid (a bits : Z) (sign_extended : bool) : res bool :=
  if negb ((0 <? bits) && (bits <=? 64)) then Err EPanic
  else if bits =? 64 then Ok true
  else
    let upper_mask := not64 (Z.shiftl 1 bits - 1) in
    if negb sign_extended then Ok (Z.land upper_mask a =? 0)
    else
      let sign_bit := Z.shiftl 1 (bits - 1) in
      Ok (if negb (Z.land a sign_bit =? 0)
          then Z.land a upper_mask =? upper_mask
          else Z.land a upper_mask =? 0).

Definition va_sign_extend (v bits : Z) : res Z :=
  if bits =? 64 then Ok v
  else if negb ((0 <? bits) && (bits <? 64)) then Err EPanic
  else match address_is_valid v bits false with
       | Ok true =>
           let sign_bit := Z.shiftl 1 (bits - 1) in
           let mask := not64 (Z.shiftl 1 bits - 1) in
           Ok (if negb (Z.land v sign_bit =? 0) then Z.lor v mask else v)
       | _ => Err EPanic
       end.

Definition va_zero_extend (v bits : Z) : res Z :=
  if bits =? 64 then Ok v
  else if negb ((0 <? bits) && (bits <? 64)) then Err EPanic
  else match address_is_valid v bits true with
       | Ok true => Ok (Z.land v (Z.shiftl 1 bits - 1))
       | _ => Err EPanic
       end.

Example KERNEL_BASE_val : KERNEL_BASE = 0xFFFF800000000000.
Proof. reflexivity. Qed.

Example align_up_ex : align_up 4097 4096 = 8192.
Proof. reflexivity. Qed.

(** ** Logarithms and powers of two *)

Lemma log2_floor_u64_eq x : 0 <= x -> log2_floor_u64 x = Z.log2 x.
Proof.
  intros. unfold log2_floor_u64, builtin_clz.
  destruct (Z.eqb_spec x 0) as [->|]; [done|lia].
Qed.

Lemma log2_floor_u32_eq x : 0 <= x -> log2_floor_u32 x = Z.log2 x.
Proof.
  intros. unfold log2_floor_u32, builtin_clz.
  destruct (Z.eqb_spec x 0) as [->|]; [done|lia].
Qed.

Lemma log2_up_pred x : 1 < x -> Z.log2_up x = Z.succ (Z.log2 (x - 1)).
Proof.
  intros. rewrite Z.log2_up_eqn by done. by rewrite <- Z.sub_1_r.
Qed.

Lemma log2_ceil_u64_eq x : 0 <= x -> log2_ceil_u64 x = Z.log2_up x.
Proof.
  intros. unfold log2_ceil_u64, builtin_clz. destruct (Z.leb_spec x 1).
  - by rewrite Z.log2_up_eqn0.
  - rewrite log2_up_pred by done. lia.
Qed.

Lemma power_of2_eq x : 0 <= x < 64 -> power_of2 x = 2 ^ x.
Proof.
  intros. unfold power_of2. destruct (Z.ltb_spec x 64); [|lia].
  rewrite Z.shiftl_1_l. apply wrap_small. split; [lia|].
  apply Z.pow_lt_mono_r; lia.
Qed.

Lemma pow2_range k w : 0 <= k < w -> u_range w (2 ^ k).
Proof. intros. split; [lia|]. apply Z.pow_lt_mono_r; lia. Qed.

Lemma ones_sub k : 0 <= k -> Z.ones k = 2 ^ k - 1.
Proof. intros. rewrite Z.ones_equiv. lia. Qed.

Lemma land_pow2_pred k : 0 <= k -> Z.land (2 ^ k) (2 ^ k - 1) = 0.
Proof.
  intros. rewrite <- ones_sub, Z.land_ones by done. apply Z.mod_same. lia.
Qed.

Lemma is_pow2_spec x :
  is_u64 x -> is_pow2 x = true <-> exists k, 0 <= k < 64 /\ x = 2 ^ k.
Proof.
  intros Hx. unfold is_pow2. rewrite andb_true_iff, negb_true_iff, Z.eqb_neq, Z.eqb_eq.
  split.
  - intros [Hne Hl]. exists (Z.log2 x).
    assert (0 < x) by (destruct Hx; lia).
    rewrite wrap_small in Hl by (unfold u_range in *; lia).
    pose proof (Z.log2_spec x) as [Hlo Hhi]; [done|].
    split; [split; [apply Z.log2_nonneg|apply Z.log2_lt_pow2; [done|apply Hx]]|].
    destruct (Z.eq_dec x (2 ^ Z.log2 x)) as [|Hd]; [done|exfalso].
    assert (0 < 2 ^ Z.log2 x) by (apply Z.pow_pos_nonneg; [lia|apply Z.log2_nonneg]).
    assert (Z.testbit (Z.land x (x - 1)) (Z.log2 x) = true) as Hb.
    { rewrite Z.land_spec, Z.bit_log2 by done.
      replace (Z.log2 x) with (Z.log2 (x - 1)); [rewrite Z.bit_log2 by lia; done|].
      apply Z.log2_unique; [apply Z.log2_nonneg|]. lia. }
    rewrite Hl, Z.bits_0 in Hb. done.
  - intros (k & Hk & ->). split; [lia|].
    pose proof (pow2_range k 64 Hk). rewrite wrap_small by (unfold u_range in *; lia).
    apply land_pow2_pred. lia.
Qed.

Lemma next_pow2_u64_eq x :
  0 <= x <= 2 ^ 63 -> next_pow2_u64 x = 2 ^ Z.log2_up x.
Proof.
  intros Hx. unfold next_pow2_u64, builtin_clz. destruct (Z.leb_spec x 1).
  - by rewrite Z.log2_up_eqn0.
  - rewrite log2_up_pred by done.
    replace (64 - (64 - 1 - Z.log2 (x - 1))) with (Z.succ (Z.log2 (x - 1))) by lia.
    rewrite Z.shiftl_1_l. apply wrap_small. apply pow2_range.
    pose proof (Z.log2_nonneg (x - 1)).
    assert (Z.log2 (x - 1) < 63) by (apply Z.log2_lt_pow2; lia). lia.
Qed.

(** [next_pow2] returns the least power of two that is not below its
    argument, for every 64-bit argument for which it is defined. *)
Theorem next_pow2_least (x : Z) (Hx : 0 <= x <= 2 ^ 63) :
  is_pow2 (next_pow2_u64 x) = true /\ x <= next_pow2_u64 x /\
  (forall k, 0 <= k -> x <= 2 ^ k -> next_pow2_u64 x <= 2 ^ k).
Proof.
  rewrite next_pow2_u64_eq by done.
  assert (Z.log2_up x < 64) as Hl.
  { apply Z.le_lt_trans with (Z.log2_up (2 ^ 63)); [apply Z.log2_up_le_mono; lia|].
    by rewrite Z.log2_up_pow2. }
  pose proof (Z.log2_up_nonneg x).
  split_and!.
  - apply is_pow2_spec; [apply pow2_range; lia|]. by exists (Z.log2_up x).
  - destruct (Z.le_gt_cases x 1); [rewrite Z.log2_up_eqn0 by done; lia|].
    apply Z.log2_up_spec; lia.
  - intros k Hk Hle. apply Z.pow_le_mono_r; [lia|].
    apply Z.log2_up_le_mono in Hle. rewrite Z.log2_up_pow2 in Hle by done. done.
Qed.

Lemma next_pow2_least_witness :
  is_pow2 (next_pow2_u64 1000) = true /\ 1000 <= next_pow2_u64 1000.
Proof.
  destruct (next_pow2_least 1000) as (H1 & H2 & _); [lia|]. done.
Defined.

(** ** Alignment *)

Lemma align_mask k : 0 <= k < 64 -> wrap64 (2 ^ k - 1) = Z.ones k.
Proof.
  intros. rewrite ones_sub by lia. apply wrap_small.
  pose proof (pow2_range k 64). unfold u_range in *. lia.
Qed.

Lemma align_down_pow2 x k :
  is_u64 x -> 0 <= k < 64 -> align_down x (2 ^ k) = x - x mod 2 ^ k.
Proof.
  intros Hx Hk. unfold align_down. rewrite align_mask by done.
  rewrite land_not_w by (done || lia).
  rewrite Z.ldiff_ones_r by lia. rewrite Z.shiftr_div_pow2, Z.shiftl_mul_pow2 by lia.
  pose proof (Z.div_mod x (2 ^ k)). lia.
Qed.

Lemma align_up_pow2 x k :
  0 <= x -> 0 <= k < 64 -> x + 2 ^ k - 1 < 2 ^ 64 ->
  align_up x (2 ^ k) = (x + 2 ^ k - 1) / 2 ^ k * 2 ^ k.
Proof.
  intros Hx Hk Hb. unfold align_up.
  assert (is_u64 (x + 2 ^ k - 1)) by (unfold u_range; lia).
  rewrite (wrap_small 64 (x + 2 ^ k - 1)) by done.
  fold (align_down (x + 2 ^ k - 1) (2 ^ k)).
  rewrite align_down_pow2 by done.
  pose proof (Z.div_mod (x + 2 ^ k - 1) (2 ^ k)). lia.
Qed.

Lemma is_aligned_pow2 x k :
  0 <= k < 64 -> is_aligned x (2 ^ k) = true <-> (2 ^ k | x).
Proof.
  intros Hk. unfold is_aligned. rewrite align_mask, Z.land_ones by lia.
  rewrite Z.eqb_eq, Z.mod_divide by lia. done.
Qed.

(** [align_up] returns the least multiple of a power-of-two alignment
    that is not below [x], and [align_down] the greatest not above it, as
    long as the addition does not wrap. *)
Theorem align_spec (x a : Z)
    (Ha : is_pow2 a = true) (Hau : is_u64 a) (Hx : 0 <= x)
    (Hb : x + a - 1 < 2 ^ 64) :
  (a | align_up x a) /\ x <= align_up x a < x + a /\
  (a | align_down x a) /\ align_down x a <= x < align_down x a + a.
Proof.
  apply is_pow2_spec in Ha as (k & Hk & ->); [|done].
  rewrite align_up_pow2, align_down_pow2 by (unfold u_range; lia).
  pose proof (Z.div_mod (x + 2 ^ k - 1) (2 ^ k)) as E.
  pose proof (Z.mod_pos_bound (x + 2 ^ k - 1) (2 ^ k)).
  pose proof (Z.mod_pos_bound x (2 ^ k)).
  split_and!; try lia.
  - apply Z.divide_factor_r.
  - exists (x / 2 ^ k). pose proof (Z.div_mod x (2 ^ k)). lia.
Qed.

Lemma align_spec_witness :
  (4096 | align_up 5000 4096) /\ 5000 <= align_up 5000 4096 < 5000 + 4096.
Proof.
  destruct (align_spec 5000 4096) as (H1 & H2 & _);
    [reflexivity|unfold u_range; lia|lia|lia|]. done.
Defined.

(** ** Kernel offset round trips *)

Lemma KERNEL_BASE_bits i :
  0 <= i -> Z.testbit KERNEL_BASE i = (47 <=? i) && (i <? 64).
Proof.
  intros. replace KERNEL_BASE with (Z.shiftl (Z.ones 17) 47) by reflexivity.
  rewrite testbit_shiftl' by done.
  destruct (Z.leb_spec 47 i).
  - rewrite testbit_ones' by lia.
    destruct (Z.ltb_spec (i - 47) 17), (Z.ltb_spec i 64); done || lia.
  - rewrite Z.testbit_neg_r by lia. done.
Qed.

Lemma kva_disjoint p : u_range 47 p -> Z.land p KERNEL_BASE = 0.
Proof.
  intros Hp. bits_solve. rewrite KERNEL_BASE_bits by done.
  destruct (Z.leb_spec 47 i); [by rewrite (testbit_high 47 p)|].
  by rewrite andb_false_r.
Qed.

Lemma kpa_to_kva_add p : u_range 47 p -> kpa_to_kva p = p + KERNEL_BASE.
Proof.
  intros Hp. unfold kpa_to_kva. pose proof (kva_disjoint p Hp).
  by rewrite Z.add_nocarry_lxor, Z.lxor_lor.
Qed.

(** A physical address below the 47-bit kernel window survives the trip
    through its kernel virtual alias, the alias is recognised as a kernel
    address, it is the offset [KERNEL_BASE] away, and the pair passes
    [ptrs_are_kmapped]. *)
Theorem kva_roundtrip (p : Z) (Hp : 0 <= p < 2 ^ 47) :
  kva_to_kpa (kpa_to_kva p) = p /\
  as_kpa (as_kva p) = p /\
  is_kva_uintptr_t (kpa_to_kva p) = true /\
  kpa_to_kva p = p + KERNEL_BASE /\
  ptrs_are_kmapped (pv_ptr_new p (kpa_to_kva p)) = true.
Proof.
  assert (kva_to_kpa (kpa_to_kva p) = p) as Hrt.
  { unfold kva_to_kpa, kpa_to_kva. bits_solve; rewrite KERNEL_BASE_bits by done.
    all: destruct (Z.leb_spec 47 i) as [Hi'|Hi'].
    all: try rewrite (testbit_high 47 p) by done.
    all: try (destruct (Z.ltb_spec i 64); try lia); cbn; by rewrite ?orb_false_r, ?andb_true_r. }
  assert (is_kva_uintptr_t (kpa_to_kva p) = true) as Hk.
  { unfold is_kva_uintptr_t. apply Z.leb_le. rewrite kpa_to_kva_add by done. lia. }
  assert (is_kva_uintptr_t p = false) as Hn.
  { unfold is_kva_uintptr_t. apply Z.leb_gt. rewrite KERNEL_BASE_val. lia. }
  split_and!; try done.
  - unfold as_kva. rewrite Hn. unfold as_kpa. rewrite Hk. done.
  - by apply kpa_to_kva_add.
  - unfold ptrs_are_kmapped, pv_ptr_new, kpa_to_kva. cbn. apply Z.eqb_refl.
Qed.

Lemma kva_roundtrip_witness : kva_to_kpa (kpa_to_kva 0x40000000) = 0x40000000.
Proof. apply (kva_roundtrip 0x40000000). lia. Defined.

(** ** Canonical forms *)

Lemma upper_mask_bits bits i :
  0 <= bits < 64 -> 0 <= i ->
  Z.testbit (not64 (Z.shiftl 1 bits - 1)) i = (bits <=? i) && (i <? 64).
Proof.
  intros. rewrite Z.shiftl_1_l, <- ones_sub, testbit_not_w, testbit_ones' by lia.
  destruct (Z.ltb_spec i bits), (Z.ltb_spec i 64), (Z.leb_spec bits i); done || lia.
Qed.

Lemma land_upper_zero bits v :
  0 <= bits < 64 -> is_u64 v ->
  Z.land (not64 (Z.shiftl 1 bits - 1)) v = 0 <-> u_range bits v.
Proof.
  intros Hb Hv. split.
  - intros H. apply range_of_bits; [lia|apply Hv|]. intros i Hi.
    destruct (Z.lt_ge_cases i 64); [|by apply (testbit_high 64)].
    assert (Z.testbit (Z.land (not64 (Z.shiftl 1 bits - 1)) v) i = false) as E
      by (rewrite H; apply Z.bits_0).
    rewrite Z.land_spec, upper_mask_bits in E by lia.
    destruct (Z.leb_spec bits i), (Z.ltb_spec i 64); done || lia.
  - intros H. apply Z.bits_inj'. intros i Hi. rewrite Z.land_spec, upper_mask_bits, Z.bits_0 by lia.
    destruct (Z.leb_spec bits i); [|done]. by rewrite (testbit_high bits v), andb_false_r.
Qed.

Lemma land_single_bit v k :
  0 <= k -> (Z.land v (Z.shiftl 1 k) =? 0) = negb (Z.testbit v k).
Proof.
  intros Hk. rewrite Z.shiftl_1_l. destruct (Z.testbit v k) eqn:E; simpl.
  - apply Z.eqb_neq. intros H.
    assert (Z.testbit (Z.land v (2 ^ k)) k = true) as E'
      by (rewrite Z.land_spec, E, testbit_pow2', Z.eqb_refl by done; done).
    rewrite H, Z.bits_0 in E'. done.
  - apply Z.eqb_eq. bits_solve. subst. by rewrite E.
Qed.

(** The value [va_sign_extend] computes, and its bits. *)
Definition sext (v bits : Z) : Z :=
  if Z.testbit v (bits - 1) then Z.lor v (not64 (Z.shiftl 1 bits - 1)) else v.

Lemma sext_bits v bits i :
  0 < bits < 64 -> u_range bits v -> 0 <= i ->
  Z.testbit (sext v bits) i =
    if i <? bits then Z.testbit v i else (i <? 64) && Z.testbit v (bits - 1).
Proof.
  intros Hb Hv Hi. unfold sext.
  destruct (Z.testbit v (bits - 1)) eqn:E; [rewrite Z.lor_spec, upper_mask_bits by lia|];
    destruct (Z.ltb_spec i bits), (Z.leb_spec bits i); try lia; cbn.
  - by rewrite orb_false_r.
  - by rewrite (testbit_high bits v), andb_true_r.
  - done.
  - by rewrite (testbit_high bits v), andb_false_r.
Qed.

Lemma sext_valid v bits :
  0 < bits < 64 -> u_range bits v -> address_is_valid (sext v bits) bits true = Ok true.
Proof.
  intros Hb Hv. unfold address_is_valid.
  destruct (Z.ltb_spec 0 bits), (Z.leb_spec bits 64), (Z.eqb_spec bits 64); try lia; simpl.
  rewrite land_single_bit, negb_involutive, sext_bits by lia || done.
  destruct (Z.ltb_spec (bits - 1) bits); [|lia].
  f_equal. destruct (Z.testbit v (bits - 1)) eqn:E; apply Z.eqb_eq; apply Z.bits_inj';
    intros i Hi; rewrite Z.land_spec, upper_mask_bits, sext_bits, ?Z.bits_0 by lia || done;
    rewrite ?E.
  all: destruct (Z.leb_spec bits i), (Z.ltb_spec i bits), (Z.ltb_spec i 64);
    rewrite ?andb_false_r; done || lia.
Qed.

Lemma sext_low v bits :
  0 < bits < 64 -> u_range bits v -> Z.land (sext v bits) (Z.shiftl 1 bits - 1) = v.
Proof.
  intros Hb Hv. rewrite Z.shiftl_1_l, <- ones_sub by lia.
  apply Z.bits_inj'. intros i Hi. rewrite Z.land_spec, sext_bits, testbit_ones' by lia || done.
  destruct (Z.ltb_spec i bits); [by rewrite andb_true_r|].
  by rewrite andb_false_r, (testbit_high bits v).
Qed.

Lemma va_sign_extend_eq v bits :
  0 < bits < 64 -> 0 <= v < 2 ^ bits -> va_sign_extend v bits = Ok (sext v bits).
Proof.
  intros Hb Hv.
  assert (is_u64 v) as Hu.
  { split; [lia|]. apply Z.lt_trans with (2 ^ bits); [lia|]. apply Z.pow_lt_mono_r; lia. }
  unfold va_sign_extend, address_is_valid.
  destruct (Z.eqb_spec bits 64), (Z.ltb_spec 0 bits), (Z.ltb_spec bits 64),
    (Z.leb_spec bits 64); try lia; simpl.
  rewrite (proj2 (land_upper_zero bits v ltac:(lia) Hu)) by (unfold u_range; lia). simpl.
  by rewrite land_single_bit, negb_involutive by lia.
Qed.

Lemma va_zero_extend_eq v bits :
  0 < bits < 64 -> 0 <= v < 2 ^ bits -> va_zero_extend (sext v bits) bits = Ok v.
Proof.
  intros Hb Hv. unfold va_zero_extend. rewrite sext_valid by done.
  destruct (Z.eqb_spec bits 64), (Z.ltb_spec 0 bits), (Z.ltb_spec bits 64); try lia; simpl.
  by rewrite sext_low.
Qed.

(** In the upper half of the 48-bit space the canonical form is a constant
    offset away. *)
Lemma sext_upper u : 2 ^ 47 <= u < 2 ^ 48 -> sext u 48 = u + (2 ^ 64 - 2 ^ 48).
Proof.
  intros Hu. unfold sext.
  assert (Z.testbit u (48 - 1) = true) as ->.
  { change (48 - 1) with 47. apply Z.testbit_true; [lia|]. replace (u / 2 ^ 47) with 1; [done|].
    apply Z.div_unique with (u - 2 ^ 47); lia. }
  change (not64 (Z.shiftl 1 48 - 1)) with (2 ^ 64 - 2 ^ 48).
  assert (Z.land u (2 ^ 64 - 2 ^ 48) = 0) as Hd.
  { change (2 ^ 64 - 2 ^ 48) with (not64 (Z.shiftl 1 48 - 1)). rewrite Z.land_comm.
    apply land_upper_zero; unfold u_range; lia. }
  by rewrite Z.add_nocarry_lxor, Z.lxor_lor.
Qed.

Lemma kpa_to_kva_sext p : 0 <= p < 2 ^ 47 -> kpa_to_kva p = sext (p + 2 ^ 47) 48.
Proof. intros Hp. rewrite sext_upper by lia. rewrite kpa_to_kva_add by done. rewrite KERNEL_BASE_val. lia. Qed.

(** On every [bits]-bit unsigned address, [va_sign_extend] succeeds and
    yields a canonical (sign-extended) address that [va_zero_extend] maps
    back to the original. *)
Theorem va_extend_roundtrip (v bits : Z)
    (Hbits : 0 < bits < 64) (Hv : 0 <= v < 2 ^ bits) :
  exists w, va_sign_extend v bits = Ok w /\
            address_is_valid w bits true = Ok true /\
            va_zero_extend w bits = Ok v.
Proof.
  exists (sext v bits). rewrite va_sign_extend_eq, va_zero_extend_eq, sext_valid by done. done.
Qed.

Lemma va_extend_roundtrip_witness :
  exists w, va_sign_extend 0x800000001000 48 = Ok w /\
            address_is_valid w 48 true = Ok true /\
            va_zero_extend w 48 = Ok 0x800000001000.
Proof. apply (va_extend_roundtrip 0x800000001000 48); lia. Defined.
