(* ===== verification/PageAllocator.v ===== *)
(** * PageAllocator: the buddy page allocator

    src/kernel/mm/malloc/page_allocator/page_allocator.c.  The four statics
    of the file ([N], [MAX_ORDER], the array [nodes] and the array
    [free_lists]) are the record [pa_state]; a [page_node*] is the index of
    the node, and every access through it is a [load]/[store] that faults
    outside of the array.  [DEBUG_ASSERT] is compiled out of the release
    build and has no counterpart here.

    The file holds the operations; BuddyTiling.v holds the theory of block
    tilings and PageAllocatorSpec.v the refinement proofs. *)

From Stdlib Require Import ZArith Lia.
From stdpp Require Import base tactics numbers gmap list.
From S2P Require Import Prelude KMath.

Open Scope Z_scope.
Open Scope kmonad_scope.

(** ** Data *)

Definition ORDER_SHIFT : Z := 0.
Definition ORDER_BITS : Z := 7.
Definition FREE_SHIFT : Z := 8.
Definition FREE_BITS : Z := 1.

Definition UNSHIFTED_MASK (bit_n : Z) : Z := Z.shiftl 1 bit_n - 1.
Definition MASK (bit_n shift : Z) : Z := Z.shiftl (UNSHIFTED_MASK bit_n) shift.

Definition NULL_IDX : Z := not32 0.
Definition IS_NULL_IDX (i : Z) : bool := i =? NULL_IDX.

(** include/kernel/mm/page_malloc.h; a [const char*] is its address *)
Record mm_page_data : Type := MkPageData {
  tag : Z;
  device_mem : bool;
  permanent : bool;
  cache_size : Z
}.

Definition mm_page_data_new (t : Z) (dev perm : bool) : mm_page_data :=
  MkPageData t dev perm 0.

Record page_node : Type := MkNode {
  next : Z;
  prev : Z;
  node_data : Z;
  page_data : mm_page_data
}.

(** src/kernel/mm/init/mem_regions/early_kalloc.h *)
Record early_memreg : Type := MkMemreg {
  mr_addr : Z;
  mr_pages : Z;
  mr_free : bool;
  mr_tag : Z;
  mr_permanent : bool;
  mr_device_memory : bool
}.

Record pa_state : Type := MkPa {
  N : Z;
  MAX_ORDER : Z;
  nodes : gmap Z page_node;
  free_lists : gmap Z Z
}.

#[export] Instance mm_page_data_eq_dec : EqDecision mm_page_data.
Proof. solve_decision. Defined.
#[export] Instance page_node_eq_dec : EqDecision page_node.
Proof. solve_decision. Defined.

(** ** Accesses *)

Definition set_nodes (f : gmap Z page_node -> gmap Z page_node) (s : pa_state) : pa_state :=
  MkPa (N s) (MAX_ORDER s) (f (nodes s)) (free_lists s).
Definition set_free_lists (f : gmap Z Z -> gmap Z Z) (s : pa_state) : pa_state :=
  MkPa (N s) (MAX_ORDER s) (nodes s) (f (free_lists s)).

(** [*get_node(i)] read *)
Definition get_node (i : Z) : M pa_state page_node :=
  let* nd := gets nodes in deref (nd !! i).

(** [*get_node(i)] written: [f] is the member assignment *)
Definition upd_node (i : Z) (f : page_node -> page_node) : M pa_state unit :=
  let* n := get_node i in modify (set_nodes <[i := f n]>).

Definition get_list (o : Z) : M pa_state Z :=
  let* fl := gets free_lists in deref (fl !! o).

Definition put_list (o v : Z) : M pa_state unit :=
  let* _ := get_list o in modify (set_free_lists <[o := v]>).

Definition with_next (v : Z) (n : page_node) : page_node :=
  MkNode v (prev n) (node_data n) (page_data n).
Definition with_prev (v : Z) (n : page_node) : page_node :=
  MkNode (next n) v (node_data n) (page_data n).
Definition with_node_data (v : Z) (n : page_node) : page_node :=
  MkNode (next n) (prev n) v (page_data n).
Definition with_page_data (p : mm_page_data) (n : page_node) : page_node :=
  MkNode (next n) (prev n) (node_data n) p.

(** ** Index and node-word arithmetic *)

Definition buddy_of (i o : Z) : Z := Z.lxor i (wrap32 (Z.shiftl 1 o)).

Definition parent_at_order (i target_o : Z) : Z :=
  Z.land i (not32 (wrap32 (wrap32 (Z.shiftl 1 target_o) - 1))).

Definition get_order (n : page_node) : Z :=
  wrap8 (Z.land (Z.shiftr (node_data n) ORDER_SHIFT) (UNSHIFTED_MASK ORDER_BITS)).

Definition set_order (o : Z) (n : page_node) : page_node :=
  let d := Z.land (node_data n) (not32 (MASK ORDER_BITS ORDER_SHIFT)) in
  with_node_data (Z.lor d (Z.shiftl o ORDER_SHIFT)) n.

Definition get_free (n : page_node) : bool :=
  negb (Z.land (Z.shiftr (node_data n) FREE_SHIFT) (UNSHIFTED_MASK FREE_BITS) =? 0).

Definition set_free (v : bool) (n : page_node) : page_node :=
  let d := Z.land (node_data n) (not32 (MASK FREE_BITS FREE_SHIFT)) in
  with_node_data (Z.lor d (Z.shiftl (Z.b2z v) FREE_SHIFT)) n.

(** ** Free lists *)

(** The walk of [is_in_order_free_list] from [j]; a list holds at most [N]
    nodes. *)
Fixpoint list_walk (fuel : nat) (i j : Z) : M pa_state bool :=
  match fuel with
  | O => nofuel
  | S fuel =>
      if i =? j then ret true
      else
        let* n := get_node j in
        if negb (IS_NULL_IDX (next n)) then list_walk fuel i (next n)
        else ret false
  end.

Definition is_in_order_free_list (i o : Z) : M pa_state bool :=
  let* j := get_list o in
  if IS_NULL_IDX j then ret false
  else
    let* n := gets N in
    list_walk (S (Z.to_nat n)) i j.

Definition is_in_free_list (i : Z) : M pa_state bool :=
  let* n := get_node i in is_in_order_free_list i (get_order n).

(** The [for] loop of [is_inner_idx], [target_o] going up to [MAX_ORDER]. *)
Fixpoint inner_loop (fuel : nat) (i target_o : Z) : M pa_state bool :=
  match fuel with
  | O => nofuel
  | S fuel =>
      let* mo := gets MAX_ORDER in
      if target_o <=? mo then
        let i := parent_at_order i target_o in
        let* b := is_in_order_free_list i target_o in
        if b then ret true else inner_loop fuel i (target_o + 1)
      else ret false
  end.

Definition is_inner_idx (i : Z) : M pa_state bool :=
  let* n := get_node i in
  let order := get_order n in
  let* mo := gets MAX_ORDER in
  inner_loop (S (Z.to_nat mo)) i (order + 1).

Definition push_to_list (i : Z) : M pa_state unit :=
  let* n := get_node i in
  let o := get_order n in
  let* head := get_list o in
  upd_node i (with_prev NULL_IDX) ;;
  upd_node i (with_next head) ;;
  (if negb (IS_NULL_IDX head) then upd_node head (with_prev i) else ret tt) ;;
  put_list o i ;;
  upd_node i (set_free true).

Definition remove_from_list (i : Z) : M pa_state unit :=
  let* n := get_node i in
  let o := get_order n in
  (if IS_NULL_IDX (prev n) then
     put_list o (next n) ;;
     (if negb (IS_NULL_IDX (next n)) then upd_node (next n) (with_prev NULL_IDX)
      else ret tt)
   else
     upd_node (prev n) (with_next (next n)) ;;
     (if negb (IS_NULL_IDX (next n)) then upd_node (next n) (with_prev (prev n))
      else ret tt)) ;;
  upd_node i (with_next NULL_IDX) ;;
  upd_node i (with_prev NULL_IDX) ;;
  upd_node i (set_free false).

(** ** Splitting and merging *)

(** [while (o-- > target_o)] *)
Fixpoint split_loop (fuel : nat) (i o target_o : Z) : M pa_state unit :=
  match fuel with
  | O => nofuel
  | S fuel =>
      if target_o <? o then
        let o := o - 1 in
        let b := buddy_of i o in
        upd_node b (set_order o) ;;
        push_to_list b ;;
        split_loop fuel i o target_o
      else ret tt
  end.

Definition split_to_order_and_pop (i target_o : Z) : M pa_state unit :=
  let* n := get_node i in
  let o := get_order n in
  ASSERT (target_o <? o) ;;
  remove_from_list i ;;
  upd_node i (set_order target_o) ;;
  split_loop (S (Z.to_nat o)) i o target_o.

Fixpoint try_merge_loop (fuel : nat) (i : Z) : M pa_state unit :=
  match fuel with
  | O => nofuel
  | S fuel =>
      let* n := get_node i in
      let o := get_order n in
      let* mo := gets MAX_ORDER in
      if o =? mo then ret tt
      else
        let b := buddy_of i o in
        let* buddy := get_node b in
        if negb (get_free buddy) || negb (get_order buddy =? o) then ret tt
        else
          remove_from_list i ;;
          remove_from_list b ;;
          let left := if i <? b then i else b in
          upd_node left (set_order (o + 1)) ;;
          push_to_list left ;;
          try_merge_loop fuel left
  end.

Definition try_merge (i : Z) : M pa_state unit :=
  let* mo := gets MAX_ORDER in try_merge_loop (S (Z.to_nat mo)) i.

(** ** page_malloc / page_free *)

(** [for (uint8_t o = order; o <= MAX_ORDER; o++)] and the [PANIC] after it *)
Fixpoint malloc_loop (fuel : nat) (order : Z) (p : mm_page_data) (o : Z) : M pa_state Z :=
  match fuel with
  | O => nofuel
  | S fuel =>
      let* mo := gets MAX_ORDER in
      if o <=? mo then
        let* i := get_list o in
        if negb (IS_NULL_IDX i) then
          split_to_order_and_pop i order ;;
          upd_node i (with_page_data p) ;;
          ret (i * PAGE_SIZE)
        else malloc_loop fuel order p (o + 1)
      else panic
  end.

Definition page_malloc (order : Z) (p : mm_page_data) : M pa_state Z :=
  let* i := get_list order in
  if IS_NULL_IDX i then
    let* mo := gets MAX_ORDER in
    malloc_loop (S (S (Z.to_nat mo))) order p order
  else
    remove_from_list i ;;
    upd_node i (with_page_data p) ;;
    ret (i * PAGE_SIZE).

Definition page_free (pa : Z) : M pa_state unit :=
  let i := wrap32 (pa / PAGE_SIZE) in
  let* n := get_node i in
  if permanent (page_data n) then panic
  else if get_free n then panic
  else
    let* inner := is_inner_idx i in
    if inner then panic
    else push_to_list i ;; try_merge i.

(** ** Page data *)

Definition page_allocator_update_tag (pa new_tag : Z) : M pa_state Z :=
  let i := wrap32 (pa / PAGE_SIZE) in
  let* inner := is_inner_idx i in
  ASSERT (negb inner) ;;
  ASSERT (negb (is_kva_uintptr_t pa)) ;;
  ASSERT (is_kva_uintptr_t new_tag) ;;
  let* n := get_node i in
  let old := tag (page_data n) in
  upd_node i (fun n => with_page_data
    (MkPageData new_tag (device_mem (page_data n)) (permanent (page_data n))
       (cache_size (page_data n))) n) ;;
  ret old.

(** [None]: the C function returns [false] and leaves [*data] alone.  The
    second test passes an order where an index is expected, as the code
    does. *)
Definition page_allocator_get_data (pa : Z) : M pa_state (option mm_page_data) :=
  let i := wrap32 (pa / PAGE_SIZE) in
  let* inner := is_inner_idx i in
  if inner then ret None
  else
    let* n := get_node i in
    let* f := is_in_free_list (get_order n) in
    if f then ret None else ret (Some (page_data n)).

Definition page_allocator_set_data (pa : Z) (data : mm_page_data) : M pa_state bool :=
  let i := wrap32 (pa / PAGE_SIZE) in
  let* inner := is_inner_idx i in
  if inner then ret false
  else
    let* n := get_node i in
    let* f := is_in_free_list (get_order n) in
    if f then ret false
    else upd_node i (with_page_data data) ;; ret true.

(** ** Boot: reservation and initialisation *)

(** the first loop of [reserve]: the free block that contains [i];
    [PANIC("double reservation")] when there is none *)
Fixpoint reserve_find (fuel : nat) (i k : Z) : M pa_state (Z * Z) :=
  match fuel with
  | O => nofuel
  | S fuel =>
      let* mo := gets MAX_ORDER in
      if k <=? mo then
        let base := parent_at_order i k in
        let* p := get_node base in
        if get_free p && (get_order p =? k) then ret (base, k)
        else reserve_find fuel i (k + 1)
      else panic
  end.

(** [while (cur_o > o)]; returns [cur] *)
Fixpoint reserve_split (fuel : nat) (i o cur cur_o : Z) : M pa_state Z :=
  match fuel with
  | O => nofuel
  | S fuel =>
      if o <? cur_o then
        let cur_o := cur_o - 1 in
        let left := cur in
        let right := wrap32 (cur + wrap32 (Z.shiftl 1 cur_o)) in
        if i <? right then
          upd_node right (set_order cur_o) ;;
          push_to_list right ;;
          reserve_split fuel i o left cur_o
        else
          upd_node left (set_order cur_o) ;;
          push_to_list left ;;
          reserve_split fuel i o right cur_o
      else ret cur
  end.

Definition reserve (i o : Z) : M pa_state unit :=
  ASSERT (Z.land i (wrap32 (wrap32 (Z.shiftl 1 o) - 1)) =? 0) ;;
  let* mo := gets MAX_ORDER in
  let* found := reserve_find (S (S (Z.to_nat mo))) i o in
  let (base, k) := found : Z * Z in
  remove_from_list base ;;
  let* cur := reserve_split (S (Z.to_nat k)) i o base k in
  upd_node cur (set_order o).

Definition page_data_zero : mm_page_data := MkPageData 0 false false 0.

Definition node_zero : page_node := MkNode NULL_IDX NULL_IDX 0 page_data_zero.

Fixpoint init_lists (fuel : nat) (i : Z) : M pa_state unit :=
  match fuel with
  | O => ret tt
  | S fuel => put_list i NULL_IDX ;; init_lists fuel (i + 1)
  end.

Fixpoint init_nodes (fuel : nat) (i : Z) : M pa_state unit :=
  match fuel with
  | O => ret tt
  | S fuel => upd_node i (fun _ => node_zero) ;; init_nodes fuel (i + 1)
  end.

(** [while (remaining)]: a block for each bit of [N], from the top *)
Fixpoint init_blocks (fuel : nat) (i remaining : Z) : M pa_state unit :=
  match fuel with
  | O => nofuel
  | S fuel =>
      if remaining =? 0 then ret tt
      else
        let o := log2_floor_u64 remaining in
        upd_node (wrap32 i) (set_order o) ;;
        push_to_list (wrap32 i) ;;
        init_blocks fuel (wrap64 (i + power_of2 o)) (wrap64 (remaining - power_of2 o))
  end.

Definition sizeof_page_node : Z := 32.
Definition alignof_page_node : Z := 8.

(** [page_count] is [mm_info_page_count()], [pv_va] the address
    [early_kalloc] returns, [fl_mem]/[nd_mem] the contents of the memory
    behind it. *)
Definition page_allocator_init (page_count pv_va : Z)
    (fl_mem : Z -> Z) (nd_mem : Z -> page_node) : M pa_state unit :=
  let max_order := log2_floor_u64 page_count in
  let free_list_bytes := align_up (8 * max_order) alignof_page_node in
  modify (fun _ => MkPa page_count max_order
                     (array page_count nd_mem)
                     (array (free_list_bytes / 4) fl_mem)) ;;
  ASSERT (pv_va mod 4 =? 0) ;;
  ASSERT (wrap64 (pv_va + free_list_bytes) mod alignof_page_node =? 0) ;;
  init_lists (Z.to_nat (max_order + 1)) 0 ;;
  init_nodes (Z.to_nat page_count) 0 ;;
  init_blocks 65 0 page_count.

(** [while ((j & ((1U << o) - 1)) != 0) o--;] *)
Fixpoint align_order (fuel : nat) (j o : Z) : M pa_state Z :=
  match fuel with
  | O => nofuel
  | S fuel =>
      if negb (Z.land j (wrap32 (wrap32 (Z.shiftl 1 o) - 1)) =? 0)
      then align_order fuel j (o - 1) else ret o
  end.

(** [while (remaining > 0)] for one region *)
Fixpoint memreg_loop (fuel : nat) (e : early_memreg) (j remaining : Z) : M pa_state unit :=
  match fuel with
  | O => nofuel
  | S fuel =>
      if 0 <? remaining then
        let o := log2_floor_u64 remaining in
        if mr_free e then ret tt
        else
          let* o := align_order 65 j o in
          reserve (wrap32 j) (wrap8 o) ;;
          upd_node (wrap32 j) (with_page_data
            (MkPageData (mr_tag e) (mr_device_memory e) (mr_permanent e) 0)) ;;
          memreg_loop fuel e (wrap64 (j + power_of2 o)) (wrap64 (remaining - power_of2 o))
      else ret tt
  end.

Fixpoint page_allocator_update_memregs (mregs : list early_memreg) : M pa_state unit :=
  match mregs with
  | [] => ret tt
  | e :: mregs =>
      memreg_loop (S (Z.to_nat (mr_pages e))) e (mr_addr e / PAGE_SIZE) (mr_pages e) ;;
      page_allocator_update_memregs mregs
  end.
