(* ===== verification/BuddyTiling.v ===== *)
(** * BuddyTiling: block tilings of the page range

    The abstract state of the page allocator: a finite map from the first
    page of a block to its order and to whether it is free.  A [tiling]
    covers the pages [0, n) by disjoint, naturally aligned blocks; it is
    [coalesced] when no two buddies are both free.  The lemmas say what
    splitting, merging and flagging a block do to the tiling, to the set of
    free pages and to the set of allocated blocks. *)

From Stdlib Require Import ZArith Lia.
From stdpp Require Import base tactics numbers gmap list.
From S2P Require Import Prelude KMath.

Open Scope Z_scope.

Abbreviation blocks := (gmap Z (Z * bool)).

Definition in_block (i o x : Z) : Prop := i <= x < i + 2 ^ o.

Record tiling (n : Z) (B : blocks) : Prop := {
  t_block i o f : B !! i = Some (o, f) ->
    0 <= o /\ 0 <= i /\ i + 2 ^ o <= n /\ (2 ^ o | i);
  t_disjoint i o f j p g : B !! i = Some (o, f) -> B !! j = Some (p, g) ->
    i <> j -> i + 2 ^ o <= j \/ j + 2 ^ p <= i;
  t_cover x : 0 <= x < n -> exists i o f, B !! i = Some (o, f) /\ in_block i o x
}.

(** Page [x] belongs to a free block. *)
Definition free_page (B : blocks) (x : Z) : Prop :=
  exists i o, B !! i = Some (o, true) /\ in_block i o x.

(** The block at [i] of order [o] is allocated. *)
Definition allocated (B : blocks) (i o : Z) : Prop := B !! i = Some (o, false).

Definition buddy (i o : Z) : Z := Z.lxor i (2 ^ o).

Definition coalesced (mo : Z) (B : blocks) : Prop :=
  forall i o, 0 <= o < mo -> B !! i = Some (o, true) -> B !! buddy i o <> Some (o, true).

(** ** Buddies *)

Lemma buddy_involutive i o : buddy (buddy i o) o = i.
Proof. unfold buddy. by rewrite Z.lxor_assoc, Z.lxor_nilpotent, Z.lxor_0_r. Qed.

Lemma buddy_low i o : 0 <= o -> (2 ^ (o + 1) | i) -> buddy i o = i + 2 ^ o.
Proof.
  intros Ho Hd. unfold buddy. symmetry. apply Z.add_nocarry_lxor.
  rewrite divide_pow2_bits in Hd by lia.
  bits_solve. subst. by rewrite Hd by lia.
Qed.

Lemma pow2_succ o : 0 <= o -> 2 ^ (o + 1) = 2 * 2 ^ o.
Proof. intros. rewrite Z.pow_add_r by lia. lia. Qed.

Lemma divide_pow2_le a b x : 0 <= a <= b -> (2 ^ b | x) -> (2 ^ a | x).
Proof.
  intros Hab. apply Z.divide_trans. exists (2 ^ (b - a)).
  rewrite <- Z.pow_add_r by lia. f_equal. lia.
Qed.

Lemma aligned_same k a b : 0 <= k -> (2 ^ k | a) -> (2 ^ k | b) -> in_block a k b -> a = b.
Proof.
  intros Hk [q ->] [r ->] [H1 H2]. assert (0 < 2 ^ k) by lia.
  apply Z.mul_le_mono_pos_r in H1; [|done].
  assert (r * 2 ^ k < (q + 1) * 2 ^ k) as H3 by lia.
  apply Z.mul_lt_mono_pos_r in H3; [|done]. f_equal. lia.
Qed.

(** An aligned block is the low or the high half of its parent. *)
Lemma buddy_cases i o :
  0 <= o -> (2 ^ o | i) ->
  ((2 ^ (o + 1) | i) /\ buddy i o = i + 2 ^ o) \/
  ((2 ^ (o + 1) | i - 2 ^ o) /\ buddy i o = i - 2 ^ o).
Proof.
  intros Ho Hd. destruct (Z.testbit i o) eqn:E.
  - right. assert (2 ^ (o + 1) | buddy i o) as Hb.
    { apply divide_pow2_bits; [lia|]. intros j Hj. unfold buddy.
      rewrite Z.lxor_spec, testbit_pow2' by lia.
      destruct (Z.eqb_spec j o) as [->|]; [by rewrite E|].
      rewrite divide_pow2_bits in Hd by lia. rewrite Hd by lia. done. }
    pose proof (buddy_low _ _ Ho Hb) as H. rewrite buddy_involutive in H.
    split; [|lia]. by replace (i - 2 ^ o) with (buddy i o) by lia.
  - left. assert (2 ^ (o + 1) | i) as Hb; [|split; [done|by apply buddy_low]].
    apply divide_pow2_bits; [lia|]. intros j Hj.
    destruct (Z.eq_dec j o) as [->|]; [done|].
    rewrite divide_pow2_bits in Hd by lia. apply Hd. lia.
Qed.

Lemma buddy_div i o : 0 <= o -> (2 ^ o | i) -> (2 ^ o | buddy i o).
Proof.
  intros Ho Hd. destruct (buddy_cases i o Ho Hd) as [[_ ->]|[_ ->]].
  - apply Z.divide_add_r; [done|apply Z.divide_refl].
  - apply Z.divide_sub_r; [done|apply Z.divide_refl].
Qed.

(** Below [2^m], the buddy of an aligned block is below [2^m] too. *)
Lemma buddy_range i o m :
  0 <= o < m -> 0 <= i < 2 ^ m -> (2 ^ o | i) -> 0 <= buddy i o /\ buddy i o + 2 ^ o <= 2 ^ m.
Proof.
  intros Ho Hi Hd.
  assert (u_range m (buddy i o)) as Hr.
  { apply lxor_range; [lia|done|]. split; [lia|]. apply Z.pow_lt_mono_r; lia. }
  split; [apply Hr|].
  destruct (buddy_div i o) as [q Hq]; [lia|done|].
  assert (2 ^ m = 2 ^ (m - o) * 2 ^ o) as E by (rewrite <- Z.pow_add_r by lia; f_equal; lia).
  destruct Hr as [_ Hr]. rewrite Hq, E in Hr |- *.
  assert (0 < 2 ^ o) by lia. apply Z.mul_lt_mono_pos_r in Hr; [|done]. nia.
Qed.

(** ** Free pages *)

Lemma free_page_insert B i o f x :
  free_page (<[i := (o, f)]> B) x <->
  (f = true /\ in_block i o x) \/ free_page (delete i B) x.
Proof.
  unfold free_page. split.
  - intros (j & p & Hj & Hx). destruct (decide (j = i)) as [->|].
    + rewrite lookup_insert_eq in Hj. simplify_eq. by left.
    + rewrite lookup_insert_ne in Hj by done. right. exists j, p.
      by rewrite lookup_delete_ne.
  - intros [[-> Hx]|(j & p & Hj & Hx)].
    + exists i, o. by rewrite lookup_insert_eq.
    + apply lookup_delete_Some in Hj as [? Hj]. exists j, p.
      by rewrite lookup_insert_ne.
Qed.

Lemma free_page_insert_new B i o f x :
  B !! i = None ->
  free_page (<[i := (o, f)]> B) x <-> (f = true /\ in_block i o x) \/ free_page B x.
Proof. intros. rewrite free_page_insert, delete_id by done. done. Qed.

Lemma free_page_delete n B i o f x :
  tiling n B -> B !! i = Some (o, f) ->
  free_page (delete i B) x <-> free_page B x /\ ~ in_block i o x.
Proof.
  intros HT Hi. unfold free_page, in_block. split.
  - intros (j & p & Hj & Hx). apply lookup_delete_Some in Hj as [Hne Hj].
    split; [by exists j, p|].
    destruct (t_disjoint _ _ HT _ _ _ _ _ _ Hi Hj Hne); lia.
  - intros [(j & p & Hj & Hx) Hnx]. exists j, p. split; [|done].
    apply lookup_delete_Some. split; [|done]. intros ->. simplify_eq. done.
Qed.

(** The page that starts an allocated block is not free. *)
Lemma allocated_not_free n B i o x :
  tiling n B -> allocated B i o -> in_block i o x -> ~ free_page B x.
Proof.
  unfold allocated, in_block. intros HT Hi Hx (j & p & Hj & Hj').
  unfold in_block in *. destruct (decide (i = j)) as [->|Hne]; [by simplify_eq|].
  destruct (t_disjoint _ _ HT _ _ _ _ _ _ Hi Hj Hne); lia.
Qed.

(** A block of a tiling that meets the block at [i] is that block. *)
Lemma tiling_same n B i o f j p g x :
  tiling n B -> B !! i = Some (o, f) -> B !! j = Some (p, g) ->
  in_block i o x -> in_block j p x -> i = j.
Proof.
  unfold in_block. intros HT Hi Hj ? ?. destruct (decide (i = j)) as [|Hne]; [done|].
  destruct (t_disjoint _ _ HT _ _ _ _ _ _ Hi Hj Hne); lia.
Qed.

(** ** Tilings under the elementary block operations *)

Lemma tiling_flag n B i o f g :
  tiling n (<[i := (o, f)]> B) -> tiling n (<[i := (o, g)]> B).
Proof.
  intros HT.
  assert (forall j p h, <[i := (o, g)]> B !! j = Some (p, h) ->
            exists h', <[i := (o, f)]> B !! j = Some (p, h')) as Hfw.
  { intros j p h. destruct (decide (j = i)) as [->|].
    - rewrite !lookup_insert_eq. intros ?; simplify_eq. eauto.
    - rewrite !lookup_insert_ne by done. eauto. }
  split.
  - intros j p h [h' Hj]%Hfw. by apply (t_block _ _ HT) in Hj.
  - intros j p h j' p' h' [? H1]%Hfw [? H2]%Hfw. by eapply (t_disjoint _ _ HT).
  - intros x Hx. destruct (t_cover _ _ HT x Hx) as (j & p & h & Hj & Hin).
    destruct (decide (j = i)) as [->|].
    + rewrite lookup_insert_eq in Hj. injection Hj as <- <-. exists i, o, g.
      by rewrite lookup_insert_eq.
    + exists j, p, h. rewrite lookup_insert_ne in * by done. done.
Qed.

Lemma tiling_set_flag n B i o f g :
  tiling n B -> B !! i = Some (o, f) -> tiling n (<[i := (o, g)]> B).
Proof.
  intros HT Hi. apply tiling_flag with f. by rewrite insert_id.
Qed.

Section Split.
Context (n : Z) (B : blocks) (i o : Z) (f : bool).
Hypothesis (Ho : 0 <= o).
Hypothesis (Hnone : B !! i = None).
Hypothesis (HT : tiling n (<[i := (o + 1, f)]> B)).

Lemma split_right_fresh j : i < j < i + 2 ^ (o + 1) -> B !! j = None.
Proof.
  intros Hj. destruct (B !! j) as [[p g]|] eqn:E; [exfalso|done].
  pose proof (t_disjoint _ _ HT i (o + 1) f j p g) as Hd.
  rewrite lookup_insert_eq, lookup_insert_ne in Hd by lia.
  destruct (t_block _ _ HT j p g) as (? & ? & ? & ?); [by rewrite lookup_insert_ne by lia|].
  destruct Hd; [done..|lia| |]; lia.
Qed.

Lemma tiling_split g h :
  tiling n (<[i := (o, g)]> (<[i + 2 ^ o := (o, h)]> B)).
Proof.
  pose proof (pow2_succ o Ho) as E.
  assert (0 < 2 ^ o) by lia.
  pose proof (t_block _ _ HT i (o + 1) f) as Hi.
  rewrite lookup_insert_eq in Hi. destruct Hi as (_ & Hi0 & Hin & Hdiv); [done|].
  assert (forall j p k, B !! j = Some (p, k) ->
            (0 <= p /\ 0 <= j /\ j + 2 ^ p <= n /\ (2 ^ p | j)) /\
            (i + 2 ^ (o + 1) <= j \/ j + 2 ^ p <= i)) as Hold.
  { intros j p k Hj. assert (i <> j) by (intros ->; simplify_eq).
    split; [eapply (t_block _ _ HT); by rewrite lookup_insert_ne|].
    eapply (t_disjoint _ _ HT); [by rewrite lookup_insert_eq|by rewrite lookup_insert_ne|done]. }
  assert (forall j p k, <[i := (o, g)]> (<[i + 2 ^ o := (o, h)]> B) !! j = Some (p, k) ->
            (j = i /\ p = o) \/ (j = i + 2 ^ o /\ p = o) \/ B !! j = Some (p, k)) as Hnew.
  { intros j p k. rewrite !lookup_insert_Some. naive_solver. }
  split.
  - intros j p k [[-> ->]|[[-> ->]|Hj]]%Hnew; [..|by apply Hold in Hj as [? ?]].
    + split_and!; try lia. apply divide_pow2_le with (o + 1); [lia|done].
    + split_and!; try lia. apply Z.divide_add_r; [|apply Z.divide_refl].
      apply divide_pow2_le with (o + 1); [lia|done].
  - intros j p k j' p' k' H1 H2 Hne. apply Hnew in H1, H2.
    destruct H1 as [[-> ->]|[[-> ->]|H1]], H2 as [[-> ->]|[[-> ->]|H2]]; try lia.
    1-4: try (apply Hold in H1 as [_ ?]); try (apply Hold in H2 as [_ ?]); lia.
    assert (i <> j) by (intros ->; simplify_eq).
    assert (i <> j') by (intros ->; simplify_eq).
    apply (t_disjoint _ _ HT j p k j' p' k'); by rewrite ?lookup_insert_ne.
  - intros x Hx. destruct (t_cover _ _ HT x Hx) as (j & p & k & Hj & Hin').
    destruct (decide (j = i)) as [->|].
    + rewrite lookup_insert_eq in Hj. injection Hj as <- <-. unfold in_block in *.
      destruct (Z.lt_ge_cases x (i + 2 ^ o)).
      * exists i, o, g. rewrite lookup_insert_eq. split; [done|lia].
      * exists (i + 2 ^ o), o, h. rewrite lookup_insert_ne, lookup_insert_eq by lia.
        split; [done|lia].
    + rewrite lookup_insert_ne in Hj by done. exists j, p, k. split; [|done].
      rewrite !lookup_insert_ne; [done| |done].
      intros <-. apply Hold in Hj as [_ ?]. lia.
Qed.

Lemma split_free_page h x :
  free_page (<[i + 2 ^ o := (o, h)]> B) x <->
  (h = true /\ in_block (i + 2 ^ o) o x) \/ free_page B x.
Proof.
  apply free_page_insert_new, split_right_fresh. rewrite pow2_succ by done. lia.
Qed.

End Split.

Section Merge.
Context (n : Z) (B : blocks) (i o : Z) (f g : bool).
Hypothesis (Ho : 0 <= o).
Hypothesis (Hdiv : (2 ^ (o + 1) | i)).
Hypothesis (Hi : B !! i = None).
Hypothesis (Hr : B !! (i + 2 ^ o) = None).
Hypothesis (HT : tiling n (<[i := (o, f)]> (<[i + 2 ^ o := (o, g)]> B))).

Lemma tiling_merge h : tiling n (<[i := (o + 1, h)]> B).
Proof.
  pose proof (pow2_succ o Ho) as E.
  assert (0 < 2 ^ o) by lia.
  set (B2 := <[i := (o, f)]> (<[i + 2 ^ o := (o, g)]> B)) in *.
  assert (B2 !! i = Some (o, f)) as Li by apply lookup_insert_eq.
  assert (B2 !! (i + 2 ^ o) = Some (o, g)) as Lr.
  { unfold B2. rewrite lookup_insert_ne by lia. apply lookup_insert_eq. }
  assert (forall j v, B !! j = Some v -> B2 !! j = Some v /\ j <> i /\ j <> i + 2 ^ o) as Lo.
  { intros j v Hj. assert (j <> i) by (intros ->; simplify_eq).
    assert (j <> i + 2 ^ o) by (intros ->; simplify_eq).
    unfold B2. rewrite !lookup_insert_ne by done. done. }
  destruct (t_block _ _ HT _ _ _ Li) as (_ & ? & _).
  destruct (t_block _ _ HT _ _ _ Lr) as (_ & _ & ? & _).
  split.
  - intros j p k. rewrite lookup_insert_Some. intros [[<- [= <- <-]]|[Hne Hj]].
    + split_and!; lia || done.
    + apply Lo in Hj as [Hj _]. by apply (t_block _ _ HT) in Hj.
  - assert (forall j p k, B !! j = Some (p, k) ->
              i + 2 ^ (o + 1) <= j \/ j + 2 ^ p <= i) as Hd.
    { intros j p k (Hj & N1 & N2)%Lo. destruct (t_block _ _ HT _ _ _ Hj) as (? & _).
      destruct (t_disjoint _ _ HT _ _ _ _ _ _ Li Hj); [done| |lia].
      destruct (t_disjoint _ _ HT _ _ _ _ _ _ Lr Hj); [done| |]; lia. }
    intros j p k j' p' k'. rewrite !lookup_insert_Some.
    intros [[<- [= <- <-]]|[Hne Hj]] [[<- [= <- <-]]|[Hne' Hj']] Hn.
    + done.
    + by apply Hd in Hj'.
    + apply Hd in Hj. lia.
    + apply Lo in Hj as [Hj _], Hj' as [Hj' _]. by eapply (t_disjoint _ _ HT).
  - intros x Hx. destruct (t_cover _ _ HT x Hx) as (j & p & k & Hj & Hin).
    unfold B2, in_block in *. rewrite !lookup_insert_Some in Hj.
    destruct Hj as [[<- [= <- <-]]|[Hne [[<- [= <- <-]]|[Hne' Hj]]]].
    + exists i, (o + 1), h. rewrite lookup_insert_eq. split; [done|lia].
    + exists i, (o + 1), h. rewrite lookup_insert_eq. split; [done|lia].
    + exists j, p, k. by rewrite lookup_insert_ne.
Qed.

End Merge.

(** ** Coalescing *)

Lemma coalesced_delete mo B i : coalesced mo B -> coalesced mo (delete i B).
Proof.
  intros HC j o Ho Hj Hb. apply lookup_delete_Some in Hj as [? Hj], Hb as [? Hb].
  by apply (HC j o).
Qed.

Lemma coalesced_alloc mo B i o :
  coalesced mo B -> coalesced mo (<[i := (o, false)]> B).
Proof.
  intros HC j p Hp Hj Hb. rewrite lookup_insert_Some in Hj, Hb.
  destruct Hj as [[_ ?]|[? Hj]], Hb as [[_ ?]|[? Hb]]; simplify_eq. by apply (HC j p).
Qed.

Lemma coalesced_free mo B i o :
  coalesced mo B -> (0 <= o < mo -> B !! buddy i o <> Some (o, true)) ->
  coalesced mo (<[i := (o, true)]> B).
Proof.
  intros HC Hb j p Hp. rewrite !lookup_insert_Some.
  intros [[<- [= <-]]|[Hne Hj]] [[Hji Hop]|[Hne' Hb']].
  - unfold buddy in Hji. apply (f_equal (Z.lxor i)) in Hji.
    rewrite Z.lxor_nilpotent, <- Z.lxor_assoc, Z.lxor_nilpotent, Z.lxor_0_l in Hji. lia.
  - by apply Hb.
  - injection Hop as <-. rewrite Hji in Hb. rewrite buddy_involutive in Hb. by apply Hb.
  - by apply (HC j p).
Qed.

(** ** Carving a block out of a hole

    [carve n mo base k i o B B']: starting from a tiling whose block of order
    [k] at [base] is a hole of [B], the block of order [o] at [i] inside it
    becomes the hole of [B'] and the rest of the old hole becomes free. *)
Record carve (n mo base k i o : Z) (B B' : blocks) : Prop := {
  c_hole : B' !! i = None;
  c_tiling : tiling n (<[i := (o, false)]> B');
  c_free x : free_page B' x <-> free_page B x \/ (in_block base k x /\ ~ in_block i o x);
  c_alloc j p : allocated B' j p <-> allocated B j p;
  c_coalesced : coalesced mo B -> coalesced mo B'
}.

Lemma carve_refl n mo i k B :
  B !! i = None -> tiling n (<[i := (k, false)]> B) -> carve n mo i k i k B B.
Proof. split; [done..| |done|done]. tauto. Qed.

Section CarveStep.
Context (n mo base k i o : Z) (B : blocks).
Hypothesis (Hk : 0 <= k).
Hypothesis (Hhole : B !! base = None).
Hypothesis (HT : tiling n (<[base := (k + 1, false)]> B)).

Lemma carve_base_aligned : (2 ^ (k + 1) | base) /\ 0 <= base /\ base + 2 ^ (k + 1) <= n.
Proof.
  pose proof (t_block _ _ HT base (k + 1) false) as H.
  rewrite lookup_insert_eq in H. destruct H as (? & ? & ? & ?); done.
Qed.

Lemma carve_right_hole : B !! (base + 2 ^ k) = None.
Proof.
  eapply split_right_fresh; [done| |]; [done|]. rewrite pow2_succ by done. lia.
Qed.

Lemma carve_left_tiling :
  tiling n (<[base := (k, false)]> (<[base + 2 ^ k := (k, true)]> B)).
Proof. by eapply tiling_split. Qed.

Lemma carve_right_tiling :
  tiling n (<[base + 2 ^ k := (k, false)]> (<[base := (k, true)]> B)).
Proof.
  rewrite insert_insert_ne by lia. by eapply tiling_split.
Qed.

(** Keep the low half, free the high one. *)
Lemma carve_left B' :
  i + 2 ^ o <= base + 2 ^ k ->
  carve n mo base k i o (<[base + 2 ^ k := (k, true)]> B) B' ->
  carve n mo base (k + 1) i o B B'.
Proof.
  intros Hin [H1 H2 H3 H4 H5]. pose proof carve_right_hole as Hr.
  destruct carve_base_aligned as (Hd & _). pose proof (pow2_succ k Hk) as Ek.
  split; [done..| | |].
  - intros x. rewrite H3, free_page_insert_new by done.
    assert (in_block base (k + 1) x <-> in_block base k x \/ in_block (base + 2 ^ k) k x)
      as -> by (unfold in_block; lia).
    assert (in_block (base + 2 ^ k) k x -> ~ in_block i o x) by (unfold in_block; lia).
    tauto.
  - intros j p. rewrite H4. unfold allocated. rewrite lookup_insert_Some.
    split; [naive_solver|]. intros Hj. right. split; [|done]. intros <-. simplify_eq.
  - intros HC. apply H5, coalesced_free; [done|]. intros _.
    rewrite <- buddy_low, buddy_involutive by done. by rewrite Hhole.
Qed.

(** Keep the high half, free the low one. *)
Lemma carve_right B' :
  base + 2 ^ k <= i ->
  carve n mo (base + 2 ^ k) k i o (<[base := (k, true)]> B) B' ->
  carve n mo base (k + 1) i o B B'.
Proof.
  intros Hin [H1 H2 H3 H4 H5]. pose proof carve_right_hole as Hr.
  destruct carve_base_aligned as (Hd & _). pose proof (pow2_succ k Hk) as Ek.
  split; [done..| | |].
  - intros x. rewrite H3, free_page_insert_new by done.
    assert (in_block base (k + 1) x <-> in_block base k x \/ in_block (base + 2 ^ k) k x)
      as -> by (unfold in_block; lia).
    assert (in_block base k x -> ~ in_block i o x) by (unfold in_block; lia).
    tauto.
  - intros j p. rewrite H4. unfold allocated. rewrite lookup_insert_Some.
    split; [naive_solver|]. intros Hj. right. split; [|done]. intros <-. simplify_eq.
  - intros HC. apply H5, coalesced_free; [done|]. intros _.
    rewrite buddy_low by done. by rewrite Hr.
Qed.

End CarveStep.

(** ** The abstract operations *)

(** Allocating the block [i] of order [o]: its pages were free and cease to
    be, every other page and allocated block is as before. *)
Record alloc_step (i o : Z) (B B' : blocks) : Prop := {
  a_was_free x : in_block i o x -> free_page B x;
  a_free x : free_page B' x <-> free_page B x /\ ~ in_block i o x;
  a_alloc j p : allocated B' j p <-> (j = i /\ p = o) \/ allocated B j p
}.

(** Freeing the block [i] of order [o]. *)
Record free_step (i o : Z) (B B' : blocks) : Prop := {
  f_free x : free_page B' x <-> free_page B x \/ in_block i o x;
  f_alloc j p : allocated B' j p <-> allocated B j p /\ j <> i
}.

(** A free block, carved, is an allocation. *)
Lemma carve_alloc n mo base k i o B B' :
  tiling n B -> B !! base = Some (k, true) ->
  base <= i -> i + 2 ^ o <= base + 2 ^ k ->
  carve n mo base k i o (delete base B) B' ->
  alloc_step i o B (<[i := (o, false)]> B').
Proof.
  intros HT Hb Hi1 Hi2 [H1 H2 H3 H4 H5].
  assert (forall x, in_block i o x -> in_block base k x) as Hsub by (unfold in_block; lia).
  assert (forall x, in_block base k x -> free_page B x) as Hwas by (intros; by exists base, k).
  split.
  - auto.
  - intros x. rewrite free_page_insert_new by done. rewrite H3, (free_page_delete n B base k true) by done.
    assert (in_block base k x \/ ~ in_block base k x) as [Hx|Hx] by (unfold in_block; lia);
      specialize (Hsub x); specialize (Hwas x); naive_solver.
  - intros j p. unfold allocated. rewrite lookup_insert_Some.
    assert (B' !! j = Some (p, false) <-> B !! j = Some (p, false)) as E.
    { rewrite (H4 j p). unfold allocated. rewrite lookup_delete_Some.
      split; [naive_solver|]. intros Hj. split; [|done]. intros ->. simplify_eq. }
    rewrite E. split; [naive_solver|]. intros [[-> ->]|Hj]; [by left|].
    right. split; [|done]. intros ->. rewrite <- E in Hj. simplify_eq.
Qed.

(** ** Free ranges of a coalesced tiling

    In a coalesced tiling an aligned range of free pages is never scattered
    over smaller blocks: it lies in one free block. *)

(** [x] lies in a free block of order at least [t]. *)
Definition inside_free (B : blocks) (x t : Z) : Prop :=
  exists h k, t <= k /\ B !! h = Some (k, true) /\ in_block h k x.

(** A larger aligned block that meets an aligned block contains it. *)
Lemma aligned_contains a k b o x :
  0 <= o <= k -> (2 ^ k | a) -> (2 ^ o | b) -> in_block a k x -> in_block b o x ->
  a <= b /\ b + 2 ^ o <= a + 2 ^ k.
Proof.
  intros Ho Ha Hb Hx Hy. apply (divide_pow2_le o k) in Ha as Ha'; [|done].
  assert (2 ^ k = 2 ^ (k - o) * 2 ^ o) as Ek by (rewrite <- Z.pow_add_r by lia; f_equal; lia).
  unfold in_block in *. assert (0 < 2 ^ o) by lia.
  destruct Ha' as [q ->], Hb as [r ->]. rewrite Ek in *.
  set (d := 2 ^ o) in *. set (e := 2 ^ (k - o)) in *. clearbody d e. clear Ek Ha.
  assert (q < r + 1) by (apply Z.mul_lt_mono_pos_r with d; [done|]; lia).
  assert (r < q + e) by (apply Z.mul_lt_mono_pos_r with d; [done|]; lia).
  nia.
Qed.

Lemma free_range_in_block n mo B o i :
  tiling n B -> coalesced mo B -> 0 <= o <= mo -> (2 ^ o | i) ->
  (forall x, in_block i o x -> free_page B x) -> inside_free B i o.
Proof.
  intros HT HC [Ho Hmo]. revert i Hmo. pattern o. apply natlike_ind; [| |done]; clear o Ho.
  { intros i _ _ Hf. destruct (Hf i) as (h & k & Hh & Hin); [unfold in_block; lia|].
    exists h, k. split; [|done]. by apply (t_block _ _ HT) in Hh as [? _]. }
  intros o Ho IH i Hmo Hd Hf. rewrite <- Z.add_1_r in *.
  pose proof (pow2_succ o Ho) as Eo. assert (0 < 2 ^ o) by lia.
  pose proof (divide_pow2_le o (o + 1) i ltac:(lia) Hd) as Hd1.
  assert ((2 ^ o | i + 2 ^ o)) as Hd2 by (apply Z.divide_add_r; [done|apply Z.divide_refl]).
  destruct (IH i) as (h1 & k1 & Hk1 & Hh1 & Hin1); [lia|done|intros x Hx; apply Hf; unfold in_block in *; lia|].
  destruct (IH (i + 2 ^ o)) as (h2 & k2 & Hk2 & Hh2 & Hin2);
    [lia|done|intros x Hx; apply Hf; unfold in_block in *; lia|].
  destruct (Z.eq_dec k1 o) as [->|]; [|exists h1, k1; split; [lia|done]].
  destruct (t_block _ _ HT _ _ _ Hh1) as (_ & _ & _ & Hhd1).
  destruct (t_block _ _ HT _ _ _ Hh2) as (_ & _ & _ & Hhd2).
  apply aligned_same in Hin1; [subst h1|done..].
  destruct (Z.eq_dec k2 o) as [->|].
  - apply aligned_same in Hin2; [subst h2|done..].
    destruct (HC i o); [lia|done|]. by rewrite buddy_low.
  - exists h2, k2. split; [lia|]. split; [done|].
    destruct (aligned_contains h2 k2 i (o + 1) (i + 2 ^ o)) as [? ?];
      unfold in_block in *; lia || done.
Qed.
