(* ===== verification/PageAllocatorRep.v ===== *)
(** * PageAllocatorRep: the arrays of the page allocator as a block map

    [rep s B] relates the arrays of the allocator to an abstract block map
    [B] of BuddyTiling.v: each free list is a doubly linked list of exactly
    the free blocks of its order, and the node of each block carries its
    order and free bit.  The list and node operations are shown to run to
    completion from a represented state and to have their intended effect on
    [B]; PageAllocatorSpec.v builds the public operations on them. *)

From Stdlib Require Import ZArith Lia.
From stdpp Require Import base tactics numbers gmap list.
From S2P Require Import Prelude KMath PageAllocator BuddyTiling.

Open Scope Z_scope.
Open Scope kmonad_scope.

Lemma NULL_IDX_val : NULL_IDX = 2 ^ 32 - 1.
Proof. reflexivity. Qed.

(** ** The node word *)

Section Word.
Implicit Types (n : page_node).

Lemma word_bits n i :
  is_u32 (node_data n) -> 32 <= i -> Z.testbit (node_data n) i = false.
Proof. apply testbit_high. Qed.

Lemma get_order_eq n : get_order n = node_data n mod 2 ^ 7.
Proof.
  unfold get_order, ORDER_SHIFT. rewrite Z.shiftr_0_r.
  change (UNSHIFTED_MASK ORDER_BITS) with (Z.ones 7).
  rewrite Z.land_ones by lia. apply wrap_small.
  pose proof (Z.mod_pos_bound (node_data n) (2 ^ 7)). unfold u_range. lia.
Qed.

Lemma get_free_eq n : get_free n = Z.testbit (node_data n) 8.
Proof.
  unfold get_free. change (UNSHIFTED_MASK FREE_BITS) with (Z.shiftl 1 0).
  rewrite land_single_bit, negb_involutive, Z.shiftr_spec by lia. done.
Qed.

Lemma order_bits o i : 0 <= o < 128 -> 7 <= i -> Z.testbit o i = false.
Proof. intros. by apply (testbit_high 7). Qed.

Lemma set_order_bits o n i :
  is_u32 (node_data n) -> 0 <= o < 128 -> 0 <= i ->
  Z.testbit (node_data (set_order o n)) i =
    if i <? 7 then Z.testbit o i else Z.testbit (node_data n) i.
Proof.
  intros Hn Ho Hi. unfold set_order, ORDER_SHIFT. simpl. rewrite Z.shiftl_0_r.
  rewrite land_not_w by (done || lia). change (MASK ORDER_BITS 0) with (Z.ones 7).
  autorewrite with kbits. destruct (Z.ltb_spec i 7).
  - by rewrite andb_false_r.
  - by rewrite (order_bits o), andb_true_r, orb_false_r.
Qed.

Lemma set_free_bits v n i :
  is_u32 (node_data n) -> 0 <= i ->
  Z.testbit (node_data (set_free v n)) i =
    if i =? 8 then v else Z.testbit (node_data n) i.
Proof.
  intros Hn Hi. unfold set_free, FREE_SHIFT. simpl.
  rewrite land_not_w by (done || lia).
  change (MASK FREE_BITS 8) with (2 ^ 8). autorewrite with kbits.
  assert (Z.testbit (Z.b2z v) (i - 8) = (i =? 8) && v) as ->.
  { destruct (Z.eqb_spec i 8) as [->|]; [by destruct v|].
    destruct (Z.lt_ge_cases (i - 8) 0); [by rewrite Z.testbit_neg_r|].
    apply (testbit_high 1); [destruct v; unfold u_range; simpl; lia|lia]. }
  destruct (Z.eqb_spec i 8); simpl; by rewrite ?andb_false_r, ?andb_true_r, ?orb_false_r.
Qed.

Lemma word_u32 n :
  0 <= node_data n -> (forall i, 32 <= i -> Z.testbit (node_data n) i = false) ->
  is_u32 (node_data n).
Proof. intros. by apply range_of_bits. Qed.

Lemma set_order_u32 o n :
  is_u32 (node_data n) -> 0 <= o < 128 -> is_u32 (node_data (set_order o n)).
Proof.
  intros Hn Ho. apply word_u32.
  - simpl. apply Z.lor_nonneg. split; [apply Z.land_nonneg; left; apply Hn|].
    apply Z.shiftl_nonneg. lia.
  - intros i Hi. rewrite set_order_bits by (done || lia).
    destruct (Z.ltb_spec i 7); [lia|]. by apply word_bits.
Qed.

Lemma set_free_u32 v n : is_u32 (node_data n) -> is_u32 (node_data (set_free v n)).
Proof.
  intros Hn. apply word_u32.
  - simpl. apply Z.lor_nonneg. split; [apply Z.land_nonneg; left; apply Hn|].
    apply Z.shiftl_nonneg. by destruct v.
  - intros i Hi. rewrite set_free_bits by (done || lia).
    destruct (Z.eqb_spec i 8); [lia|]. by apply word_bits.
Qed.

Lemma get_set_order o n :
  is_u32 (node_data n) -> 0 <= o < 128 -> get_order (set_order o n) = o.
Proof.
  intros Hn Ho. rewrite get_order_eq. apply Z.bits_inj'. intros i Hi.
  rewrite testbit_mod_pow2, set_order_bits by (done || lia).
  destruct (Z.ltb_spec i 7); [done|]. by rewrite (order_bits o).
Qed.

Lemma get_free_set_order o n :
  is_u32 (node_data n) -> 0 <= o < 128 -> get_free (set_order o n) = get_free n.
Proof. intros. by rewrite !get_free_eq, set_order_bits. Qed.

Lemma get_set_free v n : is_u32 (node_data n) -> get_free (set_free v n) = v.
Proof. intros. by rewrite get_free_eq, set_free_bits. Qed.

Lemma get_order_set_free v n :
  is_u32 (node_data n) -> get_order (set_free v n) = get_order n.
Proof.
  intros Hn. rewrite !get_order_eq. apply Z.bits_inj'. intros i Hi.
  rewrite !testbit_mod_pow2, set_free_bits by (done || lia).
  destruct (Z.ltb_spec i 7); [|done]. destruct (Z.eqb_spec i 8); [lia|done].
Qed.

End Word.

(** ** Doubly linked lists *)

Definition hd_or (nx : Z) (l : list Z) : Z := default nx (head l).
Fixpoint last_or (p : Z) (l : list Z) : Z :=
  match l with [] => p | i :: l => last_or i l end.

(** [l] is linked in [nd] between the predecessor [p] and the successor [nx]. *)
Fixpoint dll (nd : gmap Z page_node) (p : Z) (l : list Z) (nx : Z) : Prop :=
  match l with
  | [] => True
  | i :: l' => exists n, nd !! i = Some n /\ prev n = p /\ next n = hd_or nx l' /\ dll nd i l' nx
  end.

Definition links (nd : gmap Z page_node) (i : Z) : option (Z * Z) :=
  (fun n => (prev n, next n)) <$> nd !! i.

Lemma dll_cons nd p i l nx :
  dll nd p (i :: l) nx <-> links nd i = Some (p, hd_or nx l) /\ dll nd i l nx.
Proof.
  unfold links. simpl. rewrite fmap_Some. split.
  - intros (n & ? & <- & <- & ?). eauto.
  - intros [(n & ? & [= -> ->]) ?]. eauto.
Qed.

Lemma dll_app nd p l1 l2 nx :
  dll nd p (l1 ++ l2) nx <->
  dll nd p l1 (hd_or nx l2) /\ dll nd (last_or p l1) l2 nx.
Proof.
  revert p. induction l1 as [|i l1 IH]; intros p.
  - simpl. tauto.
  - rewrite <- app_comm_cons, !dll_cons, IH. cbn [last_or].
    assert (hd_or nx (l1 ++ l2) = hd_or (hd_or nx l2) l1) as -> by by destruct l1.
    naive_solver.
Qed.

Lemma dll_frame nd nd' p l nx :
  (forall j, j ∈ l -> links nd' j = links nd j) -> dll nd p l nx -> dll nd' p l nx.
Proof.
  revert p. induction l as [|i l IH]; intros p Hf; [done|].
  rewrite !dll_cons. intros [Hi Hl]. split.
  - by rewrite Hf by set_solver.
  - apply IH; [|done]. set_solver.
Qed.

(** Giving the first element a new predecessor. *)
Lemma dll_new_prev nd nd' p q l nx :
  NoDup l ->
  dll nd p l nx ->
  (forall h l', l = h :: l' -> links nd' h = (fun pn => (q, pn.2)) <$> links nd h) ->
  (forall j, j ∈ tail l -> links nd' j = links nd j) ->
  dll nd' q l nx.
Proof.
  intros Hnd Hl Hh Ht. destruct l as [|h l]; [done|].
  rewrite dll_cons in *. destruct Hl as [E Hl]. split.
  - rewrite (Hh h l), E by done. done.
  - by eapply dll_frame.
Qed.

(** Giving the last element a new successor. *)
Lemma dll_new_next nd nd' p l a nx nx' :
  dll nd p (l ++ [a]) nx ->
  links nd' a = (fun pn => (pn.1, nx')) <$> links nd a ->
  (forall j, j ∈ l -> links nd' j = links nd j) ->
  dll nd' p (l ++ [a]) nx'.
Proof.
  rewrite !dll_app, !dll_cons. intros (Hl & E & _) Ha Hf.
  split_and!; [by eapply dll_frame|by rewrite Ha, E|done].
Qed.

(** ** Representation *)

Record repf (s : pa_state) (B : blocks) (fl : Z -> list Z) : Prop := {
  r_size : 0 <= MAX_ORDER s < 32 /\ 2 ^ MAX_ORDER s <= N s < 2 ^ 32;
  r_max : N s < 2 ^ (MAX_ORDER s + 1);
  r_dom i : is_Some (nodes s !! i) <-> 0 <= i < N s;
  r_word i n : nodes s !! i = Some n -> is_u32 (node_data n);
  r_aligned i n : nodes s !! i = Some n -> (2 ^ get_order n | i);
  r_head o : 0 <= o <= MAX_ORDER s -> free_lists s !! o = Some (hd_or NULL_IDX (fl o));
  r_nodup o : 0 <= o <= MAX_ORDER s -> NoDup (fl o);
  r_dll o : 0 <= o <= MAX_ORDER s -> dll (nodes s) NULL_IDX (fl o) NULL_IDX;
  r_fl o i : 0 <= o <= MAX_ORDER s -> i ∈ fl o <-> B !! i = Some (o, true);
  r_blk i o f : B !! i = Some (o, f) ->
    0 <= o <= MAX_ORDER s /\
    exists n, nodes s !! i = Some n /\ get_order n = o /\ get_free n = f;
  r_none i n : nodes s !! i = Some n -> B !! i = None -> get_free n = false
}.

Definition rep (s : pa_state) (B : blocks) : Prop := exists fl, repf s B fl.

(** What no list operation touches. *)
Definition frame (s s' : pa_state) : Prop :=
  N s' = N s /\ MAX_ORDER s' = MAX_ORDER s /\
  forall i, page_data <$> nodes s' !! i = page_data <$> nodes s !! i.

#[export] Instance frame_refl : Reflexive frame.
Proof. by intros s. Qed.

#[export] Instance frame_trans : Transitive frame.
Proof.
  intros s1 s2 s3 (A1 & A2 & A3) (B1 & B2 & B3). split_and!; congruence.
Qed.

Section Accesses.
Implicit Types (s : pa_state).

Lemma wp_get_node i n (Q : page_node -> pa_state -> Prop) s :
  nodes s !! i = Some n -> Q n s -> wp (get_node i) Q s.
Proof. intros H HQ. unfold wp, get_node, bind, gets. by rewrite H. Qed.

Lemma wp_upd_node i n f (Q : unit -> pa_state -> Prop) s :
  nodes s !! i = Some n -> Q tt (set_nodes <[i := f n]> s) -> wp (upd_node i f) Q s.
Proof. intros H HQ. unfold upd_node. apply wp_bind. by eapply wp_get_node. Qed.

Lemma wp_get_list o v (Q : Z -> pa_state -> Prop) s :
  free_lists s !! o = Some v -> Q v s -> wp (get_list o) Q s.
Proof. intros H HQ. unfold wp, get_list, bind, gets. by rewrite H. Qed.

Lemma wp_put_list o v v' (Q : unit -> pa_state -> Prop) s :
  free_lists s !! o = Some v' -> Q tt (set_free_lists <[o := v]> s) -> wp (put_list o v) Q s.
Proof. intros H HQ. unfold put_list. apply wp_bind. by eapply wp_get_list. Qed.

End Accesses.

Lemma hd_or_null_idx l : (forall j, j ∈ l -> j <> NULL_IDX) ->
  IS_NULL_IDX (hd_or NULL_IDX l) = bool_decide (l = []).
Proof.
  intros H. unfold IS_NULL_IDX. destruct l as [|j l]; [done|].
  rewrite bool_decide_eq_false_2 by done. apply Z.eqb_neq, (H j). set_solver.
Qed.

Lemma last_or_snoc p l a : last_or p (l ++ [a]) = a.
Proof. revert p. induction l; intros p; simpl; auto. Qed.

Section Rep.
Context (s : pa_state) (B : blocks) (fl : Z -> list Z) (R : repf s B fl).

Lemma rep_idx i n : nodes s !! i = Some n -> 0 <= i < N s /\ i <> NULL_IDX.
Proof.
  intros Hi. assert (0 <= i < N s) as Hr by (apply (r_dom _ _ _ R); eauto).
  split; [done|]. destruct (r_size _ _ _ R). rewrite NULL_IDX_val. lia.
Qed.

Lemma rep_blk_idx i o f : B !! i = Some (o, f) -> i <> NULL_IDX.
Proof. intros (_ & n & Hn & _)%(r_blk _ _ _ R). by apply rep_idx in Hn as []. Qed.

Lemma rep_fl_idx o i : 0 <= o <= MAX_ORDER s -> i ∈ fl o -> i <> NULL_IDX.
Proof. intros Ho Hi. apply (r_fl _ _ _ R) in Hi; [|done]. by eapply rep_blk_idx. Qed.

Lemma rep_order_128 o : 0 <= o <= MAX_ORDER s -> 0 <= o < 128.
Proof. destruct (r_size _ _ _ R). lia. Qed.

(** Flipping the free bit of one block: the new state is represented as soon
    as the list of its order is. *)
Lemma rep_flip s' i o f l' :
  B !! i = Some (o, negb f) ->
  N s' = N s -> MAX_ORDER s' = MAX_ORDER s ->
  (forall j, j <> i -> node_data <$> nodes s' !! j = node_data <$> nodes s !! j) ->
  (exists n n', nodes s !! i = Some n /\ nodes s' !! i = Some n' /\
                node_data n' = node_data (set_free f n)) ->
  (forall j, j ∉ fl o -> j <> i -> links (nodes s') j = links (nodes s) j) ->
  free_lists s' = <[o := hd_or NULL_IDX l']> (free_lists s) ->
  NoDup l' -> dll (nodes s') NULL_IDX l' NULL_IDX ->
  (forall j, j ∈ l' <-> if f then j = i \/ j ∈ fl o else j <> i /\ j ∈ fl o) ->
  rep s' (<[i := (o, f)]> B).
Proof.
  intros Hi HN HM Hw (n & n' & Hn & Hn' & Hd) Hl Hfl Hnd Hdll Hin.
  destruct (r_blk _ _ _ R _ _ _ Hi) as (Ho & n0 & Hn0 & Hord & Hfr). simplify_eq.
  pose proof (r_word _ _ _ R _ _ Hn) as Hu.
  assert (get_order n' = get_order n) as Eo.
  { transitivity (get_order (set_free f n)); [by rewrite !get_order_eq, Hd|].
    by apply get_order_set_free. }
  assert (get_free n' = f) as Ef.
  { transitivity (get_free (set_free f n)); [by rewrite !get_free_eq, Hd|].
    by apply get_set_free. }
  assert (forall j m', j <> i -> nodes s' !! j = Some m' -> exists m,
            nodes s !! j = Some m /\ node_data m = node_data m') as Hback.
  { intros j m' Hj Hm'. specialize (Hw j Hj). rewrite Hm' in Hw. simpl in Hw.
    symmetry in Hw. apply fmap_Some in Hw as (m & ? & ?). eauto. }
  assert (forall j m, j <> i -> nodes s !! j = Some m -> exists m',
            nodes s' !! j = Some m' /\ node_data m' = node_data m) as Hfwd.
  { intros j m Hj Hm. specialize (Hw j Hj). rewrite Hm in Hw. simpl in Hw.
    apply fmap_Some in Hw as (m' & ? & ?). eauto. }
  exists (fun p => if decide (p = get_order n) then l' else fl p). split.
  - rewrite HN, HM. apply (r_size _ _ _ R).
  - rewrite HN, HM. apply (r_max _ _ _ R).
  - intros j. rewrite HN, <- (r_dom _ _ _ R j). destruct (decide (j = i)) as [->|Hj].
    + rewrite Hn, Hn'. split; eauto.
    + split; intros [m Hm]; [apply Hback in Hm as (? & ? & ?)|apply Hfwd in Hm as (? & ? & ?)];
        eauto.
  - intros j m Hm. destruct (decide (j = i)) as [->|Hj].
    + simplify_eq. rewrite Hd. by apply set_free_u32.
    + apply Hback in Hm as (m' & Hm' & <-); [|done]. by apply (r_word _ _ _ R) in Hm'.
  - intros j m Hm. destruct (decide (j = i)) as [->|Hj].
    + simplify_eq. rewrite Eo. by apply (r_aligned _ _ _ R).
    + apply Hback in Hm as (m' & Hm' & E); [|done]. rewrite get_order_eq, <- E, <- get_order_eq.
      by apply (r_aligned _ _ _ R).
  - intros p Hp. rewrite HM in Hp. rewrite Hfl. case_decide as Hpo.
    + rewrite Hpo, lookup_insert_eq. done.
    + rewrite lookup_insert_ne by done. by apply (r_head _ _ _ R).
  - intros p Hp. rewrite HM in Hp. case_decide; [done|]. by apply (r_nodup _ _ _ R).
  - intros p Hp. rewrite HM in Hp. case_decide as Hpo; [done|].
    eapply dll_frame; [|by apply (r_dll _ _ _ R)]. intros j Hj.
    apply (r_fl _ _ _ R) in Hj; [|done]. apply Hl.
    + rewrite (r_fl _ _ _ R) by done. congruence.
    + intros ->. congruence.
  - intros p j Hp. rewrite HM in Hp. case_decide as Hpo.
    + subst p. rewrite Hin. pose proof (r_fl _ _ _ R _ j Hp) as Hj'.
      destruct (decide (j = i)) as [->|Hj].
      * rewrite lookup_insert_eq. destruct f; naive_solver.
      * rewrite lookup_insert_ne by done. destruct f; naive_solver.
    + rewrite (r_fl _ _ _ R) by done. destruct (decide (j = i)) as [->|Hj].
      * rewrite lookup_insert_eq. split; intros; simplify_eq.
      * by rewrite lookup_insert_ne.
  - intros j p g. rewrite HM, lookup_insert_Some. intros [[<- [= <- <-]]|[Hj Hb]].
    + split; [done|]. eauto.
    + destruct (r_blk _ _ _ R _ _ _ Hb) as (? & m & Hm & <- & <-). split; [done|].
      destruct (Hfwd j m) as (m' & Hm' & E); [done..|]. exists m'.
      by rewrite !get_order_eq, !get_free_eq, E.
  - intros j m Hm. rewrite lookup_insert_None. intros [Hb Hj].
    destruct (Hback j m) as (m' & Hm' & E); [done..|].
    rewrite get_free_eq, <- E, <- get_free_eq. by eapply (r_none _ _ _ R).
Qed.

End Rep.

(** ** List operations *)

(** Symbolic execution of node and list accesses: each access is resolved by
    map simplification from the hypotheses in scope. *)
Ltac pa_lookup :=
  cbn [nodes free_lists set_nodes set_free_lists];
  repeat first [rewrite lookup_insert_eq | rewrite lookup_insert_ne by congruence];
  first [eassumption | reflexivity].
Ltac pa_step :=
  lazymatch goal with
  | |- wp (bind _ _) _ _ => apply wp_bind
  | |- wp (upd_node _ _) _ _ => eapply wp_upd_node; [pa_lookup|]
  | |- wp (get_node _) _ _ => eapply wp_get_node; [pa_lookup|]
  | |- wp (get_list _) _ _ => eapply wp_get_list; [pa_lookup|]
  | |- wp (put_list _ _) _ _ => eapply wp_put_list; [pa_lookup|]
  | |- wp (gets _) _ _ => apply wp_gets
  | |- wp (ret _) _ _ => apply wp_ret
  end; cbn beta zeta.
Ltac pa_steps := repeat pa_step.

Lemma frame_upd s i n f :
  nodes s !! i = Some n -> page_data (f n) = page_data n ->
  frame s (set_nodes <[i := f n]> s).
Proof.
  intros Hn Hf. split_and!; [done..|]. intros j. cbn.
  destruct (decide (j = i)) as [->|]; simplify_map_eq; [|done].
  by rewrite Hf.
Qed.

(** Pointwise facts about two nested inserts are decided by the position. *)
Ltac pa_cases :=
  repeat match goal with
         | |- context [<[?a := _]> _ !! ?b] =>
             destruct (decide (b = a)) as [->|]; simplify_map_eq
         end.

Section ListOps.
Context (s : pa_state) (B : blocks) (fl : Z -> list Z) (R : repf s B fl).

Lemma push_spec i o :
  B !! i = Some (o, false) ->
  wp (push_to_list i) (fun _ s' => rep s' (<[i := (o, true)]> B) /\ frame s s') s.
Proof.
  intros Hi. destruct (r_blk _ _ _ R _ _ _ Hi) as (Ho & n & Hn & Hord & Hfr).
  pose proof (r_head _ _ _ R o Ho) as Hh.
  assert (i ∉ fl o) as Hni by (rewrite (r_fl _ _ _ R) by done; congruence).
  pose proof (r_dll _ _ _ R o Ho) as Hd. pose proof (r_nodup _ _ _ R o Ho) as Hnd.
  unfold push_to_list. do 2 pa_step. rewrite Hord. do 6 pa_step.
  rewrite (hd_or_null_idx (fl o)) by (intros j Hj; by eapply rep_fl_idx).
  destruct (fl o) as [|h l] eqn:Efl.
  - rewrite bool_decide_eq_true_2 by done. cbn [negb]. pa_steps.
    split; [|split_and!; [done..|intros j; cbn; pa_cases; by rewrite ?Hn]].
    eapply (rep_flip _ _ _ R _ i o true [i]); cbn; rewrite ?Efl; try done.
    + intros j Hj. by simplify_map_eq.
    + exists n. eexists. split; [done|]. by simplify_map_eq.
    + intros j _ Hj. unfold links. by simplify_map_eq.
    + apply NoDup_singleton.
    + eexists. by simplify_map_eq.
    + set_solver.
  - rewrite bool_decide_eq_false_2 by done. cbn [negb].
    assert (h <> i) by set_solver.
    rewrite dll_cons in Hd. destruct Hd as [Hhl Hd].
    unfold links in Hhl. apply fmap_Some in Hhl as (nh & Hnh & [= Hp Hnx]).
    change (hd_or NULL_IDX (h :: l)) with h in *. pa_steps.
    split; [|split_and!; [done..|intros j; cbn; pa_cases; by rewrite ?Hn, ?Hnh]].
    eapply (rep_flip _ _ _ R _ i o true (i :: h :: l)); cbn; rewrite ?Efl; try done.
    + intros j Hj. pa_cases; by rewrite ?Hnh.
    + exists n. eexists. split; [done|]. by simplify_map_eq.
    + intros j Hj Hji. unfold links. assert (j <> h) by set_solver. by simplify_map_eq.
    + by constructor.
    + eexists. split; [by simplify_map_eq|]. split_and!; [done..|].
      eexists. split; [by simplify_map_eq|]. split_and!; [done..|].
      eapply dll_frame; [|done]. intros j Hj. unfold links.
      assert (j <> h) by (apply NoDup_cons in Hnd; set_solver).
      assert (j <> i) by set_solver. by simplify_map_eq.
    + set_solver.
Qed.

(** Cutting [i] out of its list, once the neighbours have been relinked. *)
Lemma unlink_dll nd' i o l1 l2 :
  0 <= o <= MAX_ORDER s -> fl o = l1 ++ i :: l2 ->
  (forall a, l1 <> [] -> last_or NULL_IDX l1 = a ->
     links nd' a = (fun pn => (pn.1, hd_or NULL_IDX l2)) <$> links (nodes s) a) ->
  (forall b l, l2 = b :: l ->
     links nd' b = (fun pn => (last_or NULL_IDX l1, pn.2)) <$> links (nodes s) b) ->
  (forall j, j <> i -> (l1 <> [] -> j <> last_or NULL_IDX l1) -> (l2 <> [] -> j <> hd_or NULL_IDX l2) ->
     links nd' j = links (nodes s) j) ->
  dll nd' NULL_IDX (l1 ++ l2) NULL_IDX /\ NoDup (l1 ++ l2) /\
  (forall j, j ∈ l1 ++ l2 <-> j <> i /\ j ∈ fl o).
Proof.
  intros Ho Hl Ha Hb Hf. pose proof (r_dll _ _ _ R o Ho) as Hd.
  pose proof (r_nodup _ _ _ R o Ho) as Hnd. rewrite Hl in *.
  rewrite dll_app, dll_cons in Hd. destruct Hd as (Hd1 & Hi & Hd2).
  apply NoDup_app in Hnd as (Hn1 & Hn12 & Hn2).
  apply NoDup_cons in Hn2 as [Hni Hn2].
  assert (NoDup (l1 ++ l2)) as Hnd by (apply NoDup_app; set_solver).
  split; [|split; [done|intros j; set_solver]].
  rewrite dll_app. split.
  - destruct l1 as [|a l1 _] using rev_ind; [done|].
    rewrite last_or_snoc in *. apply NoDup_app in Hn1 as (_ & Hn1 & _).
    eapply dll_new_next; [done|by apply Ha; [destruct l1|]|].
    intros j Hj. apply Hf; [set_solver..|]. destruct l2 as [|b l2]; [done|].
    intros _. simpl. set_solver.
  - eapply dll_new_prev; [done|done|done|].
    intros j Hj. assert (j ∈ l2) by (destruct l2; set_solver). apply Hf; [set_solver|..].
    + intros H1. destruct l1 as [|a l1 _] using rev_ind; [done|].
      rewrite last_or_snoc. set_solver.
    + destruct l2 as [|b l2]; [done|]. intros _. simpl in *.
      apply NoDup_cons in Hn2. set_solver.
Qed.

Lemma fl_node o j : 0 <= o <= MAX_ORDER s -> j ∈ fl o -> exists n, nodes s !! j = Some n.
Proof.
  intros Ho Hj%(r_fl _ _ _ R); [|done].
  destruct (r_blk _ _ _ R _ _ _ Hj) as (_ & n & Hn & _). eauto.
Qed.

(** [remove_from_list] relinks the neighbours of [i] and clears [i]; [s']
    is any state with these nodes. *)
Lemma remove_post s' i o n l1 l2 :
  B !! i = Some (o, true) -> nodes s !! i = Some n -> fl o = l1 ++ i :: l2 ->
  N s' = N s -> MAX_ORDER s' = MAX_ORDER s ->
  free_lists s' = <[o := hd_or NULL_IDX (l1 ++ l2)]> (free_lists s) ->
  nodes s' !! i = Some (set_free false (with_prev NULL_IDX (with_next NULL_IDX n))) ->
  (forall a na, l1 <> [] -> last_or NULL_IDX l1 = a -> nodes s !! a = Some na ->
     nodes s' !! a = Some (with_next (hd_or NULL_IDX l2) na)) ->
  (forall b l nb, l2 = b :: l -> nodes s !! b = Some nb ->
     nodes s' !! b = Some (with_prev (last_or NULL_IDX l1) nb)) ->
  (forall j, j <> i -> (l1 <> [] -> j <> last_or NULL_IDX l1) -> (l2 <> [] -> j <> hd_or NULL_IDX l2) ->
     nodes s' !! j = nodes s !! j) ->
  rep s' (<[i := (o, false)]> B) /\ frame s s'.
Proof.
  intros Hi Hn Hl HN HM Hfl Hi' Ha Hb Hf.
  destruct (r_blk _ _ _ R _ _ _ Hi) as (Ho & _).
  assert (l1 <> [] -> last_or NULL_IDX l1 ∈ fl o) as Hla.
  { rewrite Hl. intros Hne. destruct l1 as [|a l1 _] using rev_ind; [done|].
    rewrite last_or_snoc. set_solver. }
  assert (l2 <> [] -> hd_or NULL_IDX l2 ∈ fl o) as Hlb.
  { rewrite Hl. intros Hne. destruct l2 as [|b l2]; [done|]. simpl. set_solver. }
  assert (forall j, j <> i -> (fun m => (node_data m, page_data m)) <$> nodes s' !! j =
                              (fun m => (node_data m, page_data m)) <$> nodes s !! j) as Hsame.
  { intros j Hj. destruct (decide (l1 <> [] /\ j = last_or NULL_IDX l1)) as [[Hne ->]|H1].
    { destruct (fl_node o (last_or NULL_IDX l1)) as [na Hna]; [auto..|].
      by rewrite (Ha _ na), Hna. }
    destruct (decide (l2 <> [] /\ j = hd_or NULL_IDX l2)) as [[Hne ->]|H2].
    { destruct l2 as [|b l2]; [done|]. destruct (fl_node o b) as [nb Hnb]; [by auto..|].
      change (hd_or NULL_IDX (b :: l2)) with b. by rewrite (Hb b l2 nb), Hnb. }
    rewrite Hf; [done|done|intros ??; by apply H1|intros ??; by apply H2]. }
  split.
  - destruct (unlink_dll (nodes s') i o l1 l2) as (Hd & Hnd & Hin); [done|done| | | |].
    + intros a Hne <-. unfold links. destruct (fl_node o (last_or NULL_IDX l1)) as [na Hna]; [auto..|].
      by rewrite (Ha _ na), Hna.
    + intros b l ->. unfold links. destruct (fl_node o b) as [nb Hnb]; [by auto..|].
      by rewrite (Hb b l nb), Hnb.
    + intros j ???. unfold links. by rewrite Hf.
    + eapply (rep_flip _ _ _ R _ i o false (l1 ++ l2)); try done.
      * intros j Hj. specialize (Hsame j Hj). destruct (nodes s' !! j), (nodes s !! j); simpl in *; congruence.
      * exists n. eexists. done.
      * intros j Hj Hji. unfold links. rewrite Hf; [done|done|intros ? ->; by apply Hj, Hla|].
        intros ? ->. by apply Hj, Hlb.
  - split_and!; [done..|]. intros j. destruct (decide (j = i)) as [->|Hj].
    + by rewrite Hi', Hn.
    + specialize (Hsame j Hj). destruct (nodes s' !! j), (nodes s !! j); simpl in *; congruence.
Qed.

Lemma remove_spec i o :
  B !! i = Some (o, true) ->
  wp (remove_from_list i) (fun _ s' => rep s' (<[i := (o, false)]> B) /\ frame s s') s.
Proof.
  intros Hi. destruct (r_blk _ _ _ R _ _ _ Hi) as (Ho & n & Hn & Hord & Hfr).
  pose proof (proj2 (r_fl _ _ _ R o i Ho) Hi) as Hin.
  apply list_elem_of_split in Hin as (l1 & l2 & Hl).
  pose proof (r_dll _ _ _ R o Ho) as Hd. pose proof (r_nodup _ _ _ R o Ho) as Hnd.
  pose proof (r_head _ _ _ R o Ho) as Hh.
  assert (forall j, j ∈ fl o -> j <> NULL_IDX) as Hnn by (intros j Hj; by eapply rep_fl_idx).
  assert (forall j, j ∈ fl o -> exists n, nodes s !! j = Some n) as Hex by (intros; by eapply fl_node).
  rewrite Hl in Hd, Hnd, Hnn, Hex. rewrite dll_app, dll_cons in Hd. destruct Hd as (_ & Hlk & _).
  unfold links in Hlk. rewrite Hn in Hlk. injection Hlk as Hp Hx.
  apply NoDup_app in Hnd as (_ & Hn12 & Hn2). apply NoDup_cons in Hn2 as [Hn2 _].
  unfold remove_from_list. do 3 pa_step. rewrite Hp, Hx, Hord.
  rewrite (hd_or_null_idx l2) by set_solver.
  destruct l1 as [|a l1 _] using rev_ind.
  - change (IS_NULL_IDX (last_or NULL_IDX [])) with true. cbn iota.
    destruct l2 as [|b l2].
    + rewrite bool_decide_eq_true_2 by done. cbn [negb].
      pa_steps. eapply remove_post; try done; cbn.
      * by simplify_map_eq.
      * intros j Hj _ _. by simplify_map_eq.
    + destruct (Hex b) as [nb Hb]; [set_solver|]. assert (b <> i) by set_solver.
      rewrite bool_decide_eq_false_2 by done. change (hd_or NULL_IDX (b :: l2)) with b in *.
      cbn [negb]. pa_steps. eapply remove_post; try done; cbn.
      * by simplify_map_eq.
      * intros ? ? ? [= <- <-] ?. by simplify_map_eq.
      * intros j Hj _ Hjb. specialize (Hjb ltac:(done)). by simplify_map_eq.
  - rewrite last_or_snoc in *. destruct (Hex a) as [na Ha]; [set_solver|].
    assert (a <> i) by set_solver.
    assert (IS_NULL_IDX a = false) as -> by (apply Z.eqb_neq, Hnn; set_solver).
    assert (<[o := hd_or NULL_IDX ((l1 ++ [a]) ++ l2)]> (free_lists s) = free_lists s) as Hfl.
    { apply insert_id. rewrite Hh, Hl. by destruct l1. }
    cbn iota. destruct l2 as [|b l2].
    + rewrite bool_decide_eq_true_2 by done. cbn [negb].
      pa_steps. eapply remove_post; try done; cbn; rewrite ?last_or_snoc.
      * by simplify_map_eq.
      * intros ? ? _ <- ?. by simplify_map_eq.
      * intros j Hj Hja _. specialize (Hja ltac:(by destruct l1)). by simplify_map_eq.
    + destruct (Hex b) as [nb Hb]; [set_solver|]. assert (b <> i) by set_solver.
      assert (a <> b) by set_solver.
      rewrite bool_decide_eq_false_2 by done. change (hd_or NULL_IDX (b :: l2)) with b in *.
      cbn [negb]. pa_steps. eapply remove_post; try done; cbn; rewrite ?last_or_snoc.
      * by simplify_map_eq.
      * intros ? ? _ <- ?. by simplify_map_eq.
      * intros ? ? ? [= <- <-] ?. by simplify_map_eq.
      * intros j Hj Hja Hjb. specialize (Hja ltac:(by destruct l1)).
        specialize (Hjb ltac:(done)). by simplify_map_eq.
Qed.

End ListOps.

(** ** Node updates that leave the lists alone *)

Lemma rep_forget s B i o : rep s B -> B !! i = Some (o, false) -> rep s (delete i B).
Proof.
  intros [fl R] Hi. exists fl. split; try apply R.
  - intros p j Hp. rewrite (r_fl _ _ _ R) by done. rewrite lookup_delete_Some.
    split; [|naive_solver]. intros Hj. split; [|done]. intros ->. simplify_eq.
  - intros j p g [? Hj]%lookup_delete_Some. by apply (r_blk _ _ _ R).
  - intros j n Hn. rewrite lookup_delete_None. intros [->|Hj].
    + destruct (r_blk _ _ _ R _ _ _ Hi) as (_ & n' & ? & _ & ?). by simplify_eq.
    + by eapply (r_none _ _ _ R).
Qed.

(** Rewriting the word of a node outside of the lists. *)
Lemma rep_set_word s B i n n' o :
  rep s B -> nodes s !! i = Some n -> (forall p, B !! i <> Some (p, true)) ->
  0 <= o <= MAX_ORDER s -> (2 ^ o | i) ->
  is_u32 (node_data n') -> get_order n' = o -> get_free n' = false ->
  links (<[i := n']> (nodes s)) i = links (nodes s) i ->
  rep (set_nodes <[i := n']> s) (<[i := (o, false)]> B).
Proof.
  intros [fl R] Hn Hi Ho Hal Hu Hord Hfr Hlk. exists fl. split; cbn.
  - apply R.
  - apply R.
  - intros j. destruct (decide (j = i)) as [->|].
    + rewrite lookup_insert_eq, <- (r_dom _ _ _ R i), Hn. split; eauto.
    + rewrite lookup_insert_ne by done. apply R.
  - intros j m. rewrite lookup_insert_Some. intros [[<- <-]|[? Hm]]; [done|].
    by eapply (r_word _ _ _ R).
  - intros j m. rewrite lookup_insert_Some. intros [[<- <-]|[? Hm]]; [by rewrite Hord|].
    by apply (r_aligned _ _ _ R).
  - apply R.
  - apply R.
  - intros p Hp. eapply dll_frame; [|by apply R]. intros j Hj. unfold links in *.
    destruct (decide (j = i)) as [->|]; [done|]. by rewrite lookup_insert_ne.
  - intros p j Hp. rewrite (r_fl _ _ _ R) by done. rewrite lookup_insert_Some.
    split; [|naive_solver]. intros Hj. right. split; [|done]. intros ->. by apply Hi in Hj.
  - intros j p g. rewrite lookup_insert_Some. intros [[<- [= <- <-]]|[? Hj]].
    + split; [done|]. exists n'. by rewrite lookup_insert_eq.
    + rewrite lookup_insert_ne by done. by apply R.
  - intros j m. rewrite lookup_insert_Some, lookup_insert_None.
    intros [[<- <-]|[? Hm]] [? ?]; [done|]. by eapply (r_none _ _ _ R).
Qed.

Lemma set_order_spec s B i o :
  rep s B -> 0 <= i < N s -> (forall p, B !! i <> Some (p, true)) -> 0 <= o <= MAX_ORDER s ->
  (2 ^ o | i) ->
  wp (upd_node i (set_order o))
     (fun _ s' => rep s' (<[i := (o, false)]> B) /\ frame s s') s.
Proof.
  intros Rp Hi Hb Ho Hal. pose proof Rp as [fl R].
  apply (r_dom _ _ _ R) in Hi as [n Hn].
  pose proof (r_word _ _ _ R _ _ Hn) as Hu. pose proof (rep_order_128 _ _ _ R o Ho) as H128.
  eapply wp_upd_node; [done|]. split; [|by apply frame_upd].
  eapply rep_set_word; try done.
  - by apply set_order_u32.
  - by apply get_set_order.
  - rewrite get_free_set_order by done.
    destruct (B !! i) as [[p [|]]|] eqn:E; [by destruct (Hb p)| |by eapply (r_none _ _ _ R)].
    destruct (r_blk _ _ _ R _ _ _ E) as (_ & ? & ? & _ & ?). by simplify_eq.
  - unfold links. by rewrite lookup_insert_eq, Hn.
Qed.

(** The contents of the page data of a page, as callers see it. *)
Definition data_at (s : pa_state) (i : Z) : option mm_page_data := page_data <$> nodes s !! i.

Lemma set_data_spec s B i p :
  rep s B -> 0 <= i < N s ->
  wp (upd_node i (with_page_data p))
     (fun _ s' => rep s' B /\ N s' = N s /\ MAX_ORDER s' = MAX_ORDER s /\
        data_at s' i = Some p /\ forall j, j <> i -> data_at s' j = data_at s j) s.
Proof.
  intros [fl R] Hi. apply (r_dom _ _ _ R) in Hi as [n Hn].
  eapply wp_upd_node; [done|]. unfold data_at. cbn. rewrite lookup_insert_eq.
  split_and!; [|done..|by intros; rewrite lookup_insert_ne].
  assert (forall j, links (<[i := with_page_data p n]> (nodes s)) j = links (nodes s) j) as Hlk.
  { intros j. unfold links. destruct (decide (j = i)) as [->|].
    - by rewrite lookup_insert_eq, Hn.
    - by rewrite lookup_insert_ne. }
  exists fl. split; cbn; try apply R.
  - intros j. rewrite <- (r_dom _ _ _ R j), lookup_insert_is_Some.
    destruct (decide (j = i)) as [->|]; [rewrite Hn; naive_solver|naive_solver].
  - intros j m. rewrite lookup_insert_Some. intros [[<- <-]|[? Hm]].
    + by apply (r_word _ _ _ R _ _ Hn).
    + by eapply (r_word _ _ _ R).
  - intros j m. rewrite lookup_insert_Some. intros [[<- <-]|[? Hm]];
      [by apply (r_aligned _ _ _ R _ _ Hn)|by apply (r_aligned _ _ _ R)].
  - intros o Ho. eapply dll_frame; [|by apply R]. done.
  - intros j o f Hj. destruct (r_blk _ _ _ R _ _ _ Hj) as (? & m & Hm & ? & ?).
    split; [done|]. destruct (decide (j = i)) as [->|].
    + simplify_eq. eexists. by rewrite lookup_insert_eq.
    + exists m. by rewrite lookup_insert_ne.
  - intros j m. rewrite lookup_insert_Some. intros [[<- <-]|[? Hm]] Hj.
    + by apply (r_none _ _ _ R _ _ Hn).
    + by eapply (r_none _ _ _ R).
Qed.

(** ** Membership tests *)

Section Walk.
Context (s : pa_state) (B : blocks) (fl : Z -> list Z) (R : repf s B fl).

Lemma list_walk_spec i j l p fuel :
  dll (nodes s) p (j :: l) NULL_IDX -> (forall k, k ∈ l -> k <> NULL_IDX) ->
  (length (j :: l) <= fuel)%nat ->
  list_walk fuel i j s = Ok (bool_decide (i ∈ j :: l), s).
Proof.
  revert j l p. induction fuel as [|fuel IH]; intros j l p Hd Hl Hf; [simpl in Hf; lia|].
  cbn [list_walk]. destruct (Z.eqb_spec i j) as [->|Hij].
  { rewrite bool_decide_eq_true_2 by set_solver. done. }
  apply dll_cons in Hd as [Hj Hd]. unfold links in Hj.
  apply fmap_Some in Hj as (n & Hn & [= _ Hx]).
  unfold bind, get_node, gets. simpl. unfold bind. rewrite Hn. simpl.
  rewrite <- Hx, hd_or_null_idx by done. destruct l as [|k l].
  - rewrite bool_decide_eq_true_2 by done. simpl.
    rewrite bool_decide_eq_false_2 by set_solver. done.
  - rewrite bool_decide_eq_false_2 by done. cbn [negb].
    change (hd_or NULL_IDX (k :: l)) with k.
    rewrite (IH k l j); [|done|set_solver|simpl in *; lia].
    do 2 f_equal. apply bool_decide_ext. set_solver.
Qed.

Lemma fl_length o : 0 <= o <= MAX_ORDER s -> (length (fl o) <= Z.to_nat (N s))%nat.
Proof.
  intros Ho. rewrite <- (length_seqZ 0 (N s)). apply submseteq_length.
  apply NoDup_submseteq; [by apply R|]. intros j Hj.
  apply elem_of_seqZ. destruct (fl_node _ _ _ R o j Ho Hj) as [n Hn].
  apply (rep_idx _ _ _ R) in Hn as [? _]. lia.
Qed.

Lemma in_list_spec i o :
  0 <= o <= MAX_ORDER s ->
  is_in_order_free_list i o s = Ok (bool_decide (B !! i = Some (o, true)), s).
Proof.
  intros Ho. unfold is_in_order_free_list, get_list, bind, gets.
  rewrite (r_head _ _ _ R o Ho). unfold deref, ret at 1. cbv beta iota.
  rewrite hd_or_null_idx by (intros j Hj; by eapply rep_fl_idx).
  transitivity (Ok (bool_decide (i ∈ fl o), s)); cycle 1.
  { do 2 f_equal. apply bool_decide_ext. by apply R. }
  pose proof (fl_length o Ho) as Hlen. pose proof (r_dll _ _ _ R o Ho) as Hd.
  assert (forall k, k ∈ fl o -> k <> NULL_IDX) as Hk by (intros j Hj; by eapply rep_fl_idx).
  destruct (fl o) as [|h l].
  - rewrite bool_decide_eq_true_2 by done. by rewrite bool_decide_eq_false_2 by set_solver.
  - rewrite bool_decide_eq_false_2 by done. eapply list_walk_spec; [done|set_solver|].
    lia.
Qed.

End Walk.
