(* ===== verification/PageAllocatorSpec.v ===== *)
(** * PageAllocatorSpec: correctness of the buddy allocator

    The operations of PageAllocator.v against the abstract steps of
    BuddyTiling.v: [page_malloc] and [reserve] are [alloc_step]s,
    [page_free] is a [free_step], each preserves the tiling and leaves it
    coalesced, and each of their panics happens exactly when it should. *)

From Stdlib Require Import ZArith Lia.
From stdpp Require Import base tactics numbers gmap list.
From S2P Require Import Prelude KMath PageAllocator BuddyTiling PageAllocatorRep.

Open Scope Z_scope.
Open Scope kmonad_scope.

(** The invariant of the allocator. *)
Definition pa_inv (s : pa_state) (B : blocks) : Prop :=
  rep s B /\ tiling (N s) B /\ coalesced (MAX_ORDER s) B.

Lemma rep_size s B : rep s B -> 0 <= MAX_ORDER s < 32 /\ 2 ^ MAX_ORDER s <= N s < 2 ^ 32.
Proof. intros [fl R]. apply R. Qed.

Lemma rep_blk s B i o f :
  rep s B -> B !! i = Some (o, f) ->
  0 <= o <= MAX_ORDER s /\ 0 <= i < N s /\
  exists n, nodes s !! i = Some n /\ get_order n = o /\ get_free n = f.
Proof.
  intros [fl R] Hi. destruct (r_blk _ _ _ R _ _ _ Hi) as (? & n & Hn & ? & ?).
  split; [done|]. split; [|eauto]. by apply (rep_idx _ _ _ R) in Hn as [? _].
Qed.

Lemma rep_node s B i : rep s B -> 0 <= i < N s -> exists n, nodes s !! i = Some n.
Proof. intros [fl R] Hi. by apply (r_dom _ _ _ R) in Hi. Qed.

(** A node whose free bit is set is the head of the free block it describes. *)
Lemma rep_free_node s B i n :
  rep s B -> nodes s !! i = Some n -> get_free n = true -> B !! i = Some (get_order n, true).
Proof.
  intros [fl R] Hn Hf. destruct (B !! i) as [[o f]|] eqn:E.
  - destruct (r_blk _ _ _ R _ _ _ E) as (_ & m & Hm & Ho & Hg). simplify_eq. congruence.
  - rewrite (r_none _ _ _ R _ _ Hn E) in Hf. done.
Qed.

Lemma push_spec' s B i o :
  rep s B -> B !! i = Some (o, false) ->
  wp (push_to_list i) (fun _ s' => rep s' (<[i := (o, true)]> B) /\ frame s s') s.
Proof. intros [fl R] Hi. by eapply push_spec. Qed.

Lemma remove_spec' s B i o :
  rep s B -> B !! i = Some (o, true) ->
  wp (remove_from_list i) (fun _ s' => rep s' (<[i := (o, false)]> B) /\ frame s s') s.
Proof. intros [fl R] Hi. by eapply remove_spec. Qed.

Lemma frame_N s s' : frame s s' -> N s' = N s.
Proof. by intros (? & _). Qed.
Lemma frame_mo s s' : frame s s' -> MAX_ORDER s' = MAX_ORDER s.
Proof. by intros (_ & ? & _). Qed.
Lemma frame_data s s' i : frame s s' -> data_at s' i = data_at s i.
Proof. intros (_ & _ & H). apply H. Qed.

(** ** Index arithmetic *)

Lemma shift_pow2 o : 0 <= o < 32 -> wrap32 (Z.shiftl 1 o) = 2 ^ o.
Proof. intros. rewrite Z.shiftl_1_l. by apply wrap_small, pow2_range. Qed.

Lemma buddy_of_eq i o : 0 <= o < 32 -> buddy_of i o = buddy i o.
Proof. intros. unfold buddy_of, buddy. by rewrite shift_pow2. Qed.

Lemma low_mask o : 0 <= o < 32 -> wrap32 (wrap32 (Z.shiftl 1 o) - 1) = Z.ones o.
Proof.
  intros. rewrite shift_pow2, ones_sub by lia. apply wrap_small.
  pose proof (pow2_range o 32 ltac:(lia)). unfold u_range in *. lia.
Qed.

Lemma parent_eq i o : is_u32 i -> 0 <= o < 32 -> parent_at_order i o = i - i mod 2 ^ o.
Proof.
  intros Hi Ho. unfold parent_at_order. rewrite low_mask by done.
  rewrite land_not_w by (done || lia).
  rewrite Z.ldiff_ones_r, Z.shiftr_div_pow2, Z.shiftl_mul_pow2 by lia.
  pose proof (Z.div_mod i (2 ^ o)). lia.
Qed.

(** Growing an aligned block around [x] to the next order. *)
Lemma parent_grow x i o :
  is_u32 i -> 0 <= o < 31 -> (2 ^ o | i) -> in_block i o x ->
  (2 ^ (o + 1) | parent_at_order i (o + 1)) /\ in_block (parent_at_order i (o + 1)) (o + 1) x /\
  is_u32 (parent_at_order i (o + 1)).
Proof.
  intros Hi Ho Hd Hx. rewrite parent_eq by (done || lia). unfold in_block, u_range in *.
  assert (0 < 2 ^ (o + 1)) by lia.
  pose proof (Z.div_mod i (2 ^ (o + 1))) as E.
  pose proof (Z.mod_pos_bound i (2 ^ (o + 1))) as Hm.
  destruct (buddy_cases i o ltac:(lia) Hd) as [[Hq _]|[Hq _]].
  - pose proof (proj2 (Z.mod_divide i (2 ^ (o + 1)) ltac:(lia)) Hq).
    replace (i - _) with i by lia. split; [done|].
    rewrite pow2_succ in * by lia. lia.
  - assert (i mod 2 ^ (o + 1) = 2 ^ o) as Em.
    { destruct Hq as [q Hq]. symmetry. apply Z.mod_unique_pos with q; [|lia].
      rewrite pow2_succ by lia. lia. }
    pose proof (Z.mod_le i (2 ^ (o + 1)) ltac:(lia) ltac:(lia)) as Hle.
    rewrite Em in *. split; [done|]. clear Hq Em. rewrite pow2_succ in * by lia. lia.
Qed.

(** An aligned order-[k] block containing [x] starts at the parent of [x]. *)
Lemma block_head_parent h k x :
  is_u32 x -> 0 <= k < 32 -> (2 ^ k | h) -> in_block h k x -> parent_at_order x k = h.
Proof.
  intros Hx Hk [q ->] Hin. rewrite parent_eq by done. unfold in_block in Hin.
  assert (x mod 2 ^ k = x - q * 2 ^ k) as E; [|lia].
  symmetry. apply Z.mod_unique_pos with q; lia.
Qed.

(** A new free block of order [k] at [b]. *)
Lemma push_new_spec s B b k :
  rep s B -> B !! b = None -> (2 ^ k | b) -> 0 <= b < N s -> 0 <= k <= MAX_ORDER s ->
  wp (upd_node b (set_order k) ;; push_to_list b)
     (fun _ s' => rep s' (<[b := (k, true)]> B) /\ frame s s') s.
Proof.
  intros Rp Hb Hd Hr Hk. apply wp_bind. eapply wp_mono.
  { apply set_order_spec with (o := k); try done. by rewrite Hb. }
  intros _ s1 [R1 F1]. eapply wp_mono; [eapply push_spec'; [done|apply lookup_insert_eq]|].
  intros _ s2 [R2 F2]. rewrite insert_insert_eq in R2. split; [done|by transitivity s1].
Qed.

(** ** Splitting *)

Lemma split_loop_spec fuel s B i k t :
  B !! i = None -> rep s (<[i := (t, false)]> B) -> tiling (N s) (<[i := (k, false)]> B) ->
  0 <= t <= k -> k <= MAX_ORDER s -> (Z.to_nat (k - t) < fuel)%nat ->
  wp (split_loop fuel i k t)
     (fun _ s' => exists B', rep s' (<[i := (t, false)]> B') /\
        carve (N s) (MAX_ORDER s) i k i t B B' /\ frame s s') s.
Proof.
  revert s B k. induction fuel as [|fuel IH]; intros s B k Hi Rp HT Ht Hk Hf; [lia|].
  destruct (rep_size _ _ Rp) as [Hmo HN].
  cbn [split_loop]. destruct (Z.ltb_spec t k) as [Hlt|Hge]; cycle 1.
  { assert (k = t) as -> by lia. apply wp_ret. exists B.
    split; [done|]. split; [by apply carve_refl|done]. }
  set (k' := k - 1). assert (k = k' + 1) as Ek by lia. rewrite Ek in HT.
  assert (0 <= k') as Hk' by lia.
  destruct (carve_base_aligned _ _ _ _ HT) as (Hd & Hi0 & HiN).
  pose proof (carve_right_hole _ _ _ _ Hk' HT) as Hb.
  rewrite buddy_of_eq, buddy_low by lia || done. set (b := i + 2 ^ k') in *.
  rewrite pow2_succ in HiN by lia. assert (0 < 2 ^ k') by lia.
  assert ((2 ^ k' | b)) as Hbd.
  { apply Z.divide_add_r; [|apply Z.divide_refl]. by apply divide_pow2_le with (k' + 1); [lia|]. }
  apply wp_assoc, wp_bind. eapply wp_mono.
  { apply push_new_spec with (B := <[i := (t, false)]> B); try done; try lia.
    by rewrite lookup_insert_ne by lia. }
  intros _ s2 [R2 F]. rewrite insert_insert_ne in R2 by lia. rewrite <- (frame_N _ _ F), <- (frame_mo _ _ F) in *.
  eapply wp_mono.
  { apply IH with (B := <[b := (k', true)]> B); [|done| |lia|lia|lia].
    - rewrite lookup_insert_ne by lia. done.
    - by apply carve_left_tiling. }
  intros _ s3 (B' & R3 & C3 & F3). exists B'. split; [done|]. split.
  - rewrite Ek. apply carve_left; [lia|done|done| |done].
    assert (2 ^ t <= 2 ^ k') by (apply Z.pow_le_mono_r; lia). lia.
  - by transitivity s2.
Qed.

Lemma split_spec s B i k t :
  pa_inv s B -> B !! i = Some (k, true) -> 0 <= t < k ->
  wp (split_to_order_and_pop i t)
     (fun _ s' => exists B', pa_inv s' B' /\ alloc_step i t B B' /\ frame s s') s.
Proof.
  intros (Rp & HT & HC) Hi Ht. destruct (rep_blk _ _ _ _ _ Rp Hi) as (Hk & Hr & n & Hn & Ho & _).
  unfold split_to_order_and_pop. apply wp_bind. eapply wp_get_node; [done|]. rewrite Ho.
  apply wp_bind, wp_ASSERT; [apply Z.ltb_lt; lia|].
  apply wp_bind. eapply wp_mono; [by eapply remove_spec'|]. intros _ s1 [R1 F1].
  apply wp_bind. eapply wp_mono.
  { eapply set_order_spec with (o := t); [done|by rewrite (frame_N _ _ F1)| | |].
    - intros p. rewrite lookup_insert_eq. done.
    - rewrite (frame_mo _ _ F1). lia.
    - apply divide_pow2_le with k; [lia|]. by apply (t_block _ _ HT) in Hi as (_ & _ & _ & ?). }
  intros _ s2 [R2 F2]. pose proof (transitivity F1 F2) as F.
  assert (<[i := (t, false)]> (<[i := (k, false)]> B) = <[i := (t, false)]> (delete i B)) as E
    by (by rewrite insert_insert_eq, insert_delete_eq).
  rewrite E in R2. clear E.
  eapply wp_mono.
  { apply split_loop_spec with (B := delete i B); [apply lookup_delete_eq|done| |lia| |lia].
    - rewrite (frame_N _ _ F), insert_delete_eq. by eapply tiling_set_flag.
    - rewrite (frame_mo _ _ F). lia. }
  intros _ s3 (B' & R3 & C3 & F3). rewrite (frame_N _ _ F), (frame_mo _ _ F) in C3.
  exists (<[i := (t, false)]> B'). assert (frame s s3) as F' by by transitivity s2.
  split; [|split; [|done]].
  - split; [done|]. rewrite (frame_N _ _ F'), (frame_mo _ _ F'). split; [by apply C3|].
    apply coalesced_alloc. apply C3. by apply coalesced_delete.
  - eapply carve_alloc; [done|done|lia| |done].
    assert (2 ^ t <= 2 ^ k) by (apply Z.pow_le_mono_r; lia). lia.
Qed.

(** ** page_malloc *)

Lemma list_head s B o :
  rep s B -> 0 <= o <= MAX_ORDER s ->
  exists v, free_lists s !! o = Some v /\
    ((IS_NULL_IDX v = true /\ forall i, B !! i <> Some (o, true)) \/
     (IS_NULL_IDX v = false /\ B !! v = Some (o, true))).
Proof.
  intros [fl R] Ho. eexists. split; [by apply R|].
  rewrite hd_or_null_idx by (intros j Hj; by eapply rep_fl_idx).
  pose proof (fun i => r_fl _ _ _ R o i Ho) as Hin. destruct (fl o) as [|h l].
  - left. split; [done|]. intros i Hi. apply Hin in Hi. set_solver.
  - right. split; [done|]. apply Hin. simpl. set_solver.
Qed.

(** What a successful allocation of order [order] with page data [p] from
    [s] promises about its result [pa] and final state [s']. *)
Definition malloc_post (s : pa_state) (B : blocks) (order : Z) (p : mm_page_data)
    (pa : Z) (s' : pa_state) : Prop :=
  exists i B', pa = i * PAGE_SIZE /\ 0 <= i /\ i + 2 ^ order <= N s /\ (2 ^ order | i) /\
    pa_inv s' B' /\ alloc_step i order B B' /\
    data_at s' i = Some p /\ (forall j, j <> i -> data_at s' j = data_at s j) /\
    N s' = N s /\ MAX_ORDER s' = MAX_ORDER s.

(** The tail of [page_malloc]: the page data is stored in the carved block. *)
Lemma malloc_finish s s1 B B' i order p :
  pa_inv s1 B' -> alloc_step i order B B' -> frame s s1 ->
  wp (upd_node i (with_page_data p) ;; ret (i * PAGE_SIZE)) (malloc_post s B order p) s1.
Proof.
  intros (R1 & T1 & C1) A F.
  assert (allocated B' i order) as Hi by (apply A; by left).
  destruct (t_block _ _ T1 _ _ _ Hi) as (? & ? & ? & ?).
  destruct (rep_blk _ _ _ _ _ R1 Hi) as (_ & Hr & _).
  apply wp_bind. eapply wp_mono; [by apply set_data_spec|].
  intros _ s2 (R2 & HN & HM & Hd & Hd'). apply wp_ret.
  rewrite (frame_N _ _ F), (frame_mo _ _ F) in *. exists i, B'.
  split_and!; try done; try lia.
  - split; [done|]. rewrite HN, HM, ?(frame_N _ _ F), ?(frame_mo _ _ F). done.
  - intros j Hj. rewrite Hd', (frame_data s s1) by done. done.
Qed.

Lemma malloc_loop_spec fuel s B order p o :
  pa_inv s B -> 0 <= order < o ->
  (Z.to_nat (MAX_ORDER s + 1 - o) < fuel)%nat ->
  (exists i k, o <= k /\ B !! i = Some (k, true)) ->
  wp (malloc_loop fuel order p o) (malloc_post s B order p) s.
Proof.
  intros Hinv. pose proof Hinv as (Rp & _).
  revert o. induction fuel as [|fuel IH]; intros o Ho Hf (i & k & Hk & Hi); [lia|].
  destruct (rep_blk _ _ _ _ _ Rp Hi) as (Hkm & _).
  cbn [malloc_loop]. apply wp_bind, wp_gets.
  destruct (Z.leb_spec o (MAX_ORDER s)); [|lia].
  destruct (list_head s B o Rp ltac:(lia)) as (v & Hv & [[Hnull Hno]|[Hnn Hb]]).
  - apply wp_bind. eapply wp_get_list; [done|]. rewrite Hnull. cbn [negb].
    apply IH; [lia|lia|]. exists i, k. split; [|done].
    destruct (Z.eq_dec o k) as [->|]; [by apply Hno in Hi|lia].
  - apply wp_bind. eapply wp_get_list; [done|]. rewrite Hnn. cbn [negb].
    apply wp_bind. eapply wp_mono; [by apply split_spec with (k := o); [|done|lia]|].
    intros _ s1 (B' & Hinv' & A & F). by eapply malloc_finish.
Qed.

Lemma malloc_loop_oom fuel s B order p o :
  pa_inv s B -> 0 <= o ->
  (Z.to_nat (MAX_ORDER s + 1 - o) < fuel)%nat ->
  (forall i k, o <= k -> B !! i <> Some (k, true)) ->
  malloc_loop fuel order p o s = Err EPanic.
Proof.
  intros Hinv. pose proof Hinv as (Rp & _).
  revert o. induction fuel as [|fuel IH]; intros o Ho Hf Hno; [lia|].
  cbn [malloc_loop]. unfold bind at 1, gets.
  destruct (Z.leb_spec o (MAX_ORDER s)); [|done].
  destruct (list_head s B o Rp ltac:(lia)) as (v & Hv & [[Hnull _]|[_ Hb]]);
    [|by apply Hno in Hb; [|lia]].
  erewrite bind_ok; [|unfold get_list, bind, gets; by rewrite Hv].
  rewrite Hnull. apply IH; [lia|lia|]. intros i k Hk. apply Hno. lia.
Qed.

(** Removing the head of the requested list is the allocation of its block. *)
Lemma remove_alloc s B i o :
  pa_inv s B -> B !! i = Some (o, true) ->
  wp (remove_from_list i)
     (fun _ s' => pa_inv s' (<[i := (o, false)]> B) /\
        alloc_step i o B (<[i := (o, false)]> B) /\ frame s s') s.
Proof.
  intros (Rp & HT & HC) Hi. eapply wp_mono; [by eapply remove_spec'|].
  intros _ s1 [R1 F]. split; [|split].
  - split; [done|]. rewrite (frame_N _ _ F), (frame_mo _ _ F).
    split; [by eapply tiling_set_flag|by apply coalesced_alloc].
  - rewrite <- insert_delete_eq. eapply carve_alloc with (n := N s) (mo := 0) (k := o); [done|done|lia|lia|].
    apply carve_refl; [apply lookup_delete_eq|]. rewrite insert_delete_eq. by eapply tiling_set_flag.
  - done.
Qed.

(** An allocation served by the head of its own list. *)
Lemma page_malloc_head s B order p i :
  pa_inv s B -> free_lists s !! order = Some i -> B !! i = Some (order, true) ->
  exists s', page_malloc order p s = Ok (i * PAGE_SIZE, s') /\
    pa_inv s' (<[i := (order, false)]> B) /\ data_at s' i = Some p /\
    N s' = N s /\ MAX_ORDER s' = MAX_ORDER s.
Proof.
  intros Hinv Hl Hi. pose proof Hinv as ([fl R] & _ & _).
  assert (IS_NULL_IDX i = false) as Hnn by (apply Z.eqb_neq; by eapply rep_blk_idx).
  destruct (rep_blk s B i order true) as (_ & Hr & _); [apply Hinv|done|].
  pose proof (remove_alloc s B i order Hinv Hi) as Hrm.
  apply wp_ok in Hrm as (u & s1 & E1 & (R1 & T1 & C1) & A & F).
  pose proof (set_data_spec s1 _ i p R1) as Hs. rewrite (frame_N _ _ F) in Hs.
  apply wp_ok in Hs as (u' & s2 & E2 & R2 & N2 & M2 & D2 & _); [|done].
  exists s2. unfold page_malloc. erewrite bind_ok; [|unfold get_list, bind, gets; by rewrite Hl].
  rewrite Hnn. erewrite bind_ok by exact E1. erewrite bind_ok by exact E2.
  rewrite (frame_N _ _ F), (frame_mo _ _ F) in *.
  split_and!; try done. split; [done|]. by rewrite N2, M2.
Qed.

Lemma page_malloc_spec (s : pa_state) (B : blocks) (order : Z) (p : mm_page_data)
    (Hinv : pa_inv s B) (Horder : 0 <= order <= MAX_ORDER s)
    (Havail : exists i k, order <= k /\ B !! i = Some (k, true)) :
  wp (page_malloc order p) (malloc_post s B order p) s.
Proof.
  pose proof Hinv as (Rp & _). unfold page_malloc.
  destruct (list_head s B order Rp Horder) as (v & Hv & [[Hnull Hno]|[Hnn Hb]]).
  - apply wp_bind. eapply wp_get_list; [done|]. rewrite Hnull. apply wp_bind, wp_gets.
    cbn [malloc_loop]. apply wp_bind, wp_gets.
    destruct (Z.leb_spec order (MAX_ORDER s)); [|lia].
    apply wp_bind. eapply wp_get_list; [done|]. rewrite Hnull. cbn [negb].
    apply (malloc_loop_spec (S (Z.to_nat (MAX_ORDER s)))); [done|lia|lia|].
    destruct Havail as (i & k & Hk & Hi). exists i, k. split; [|done].
    destruct (Z.eq_dec order k) as [->|]; [by apply Hno in Hi|lia].
  - apply wp_bind. eapply wp_get_list; [done|]. rewrite Hnn.
    apply wp_bind. eapply wp_mono; [by eapply remove_alloc|].
    intros _ s1 (Hinv' & A & F). by eapply malloc_finish.
Qed.

Lemma page_malloc_oom_spec (s : pa_state) (B : blocks) (order : Z) (p : mm_page_data)
    (Hinv : pa_inv s B) (Horder : 0 <= order <= MAX_ORDER s)
    (Hnone : forall i k, order <= k -> B !! i <> Some (k, true)) :
  page_malloc order p s = Err EPanic.
Proof.
  pose proof Hinv as (Rp & _). unfold page_malloc.
  destruct (list_head s B order Rp Horder) as (v & Hv & [[Hnull _]|[_ Hb]]);
    [|by apply Hnone in Hb; [|lia]].
  erewrite bind_ok; [|unfold get_list, bind, gets; by rewrite Hv].
  rewrite Hnull. unfold bind, gets. eapply malloc_loop_oom; [done|lia|lia|done].
Qed.

(** ** is_inner_idx *)

Lemma in_list_spec' s B i o :
  rep s B -> 0 <= o <= MAX_ORDER s ->
  is_in_order_free_list i o s = Ok (bool_decide (B !! i = Some (o, true)), s).
Proof. intros [fl R] Ho. by eapply in_list_spec. Qed.

Lemma inner_loop_spec fuel s B x i t :
  rep s B -> tiling (N s) B -> is_u32 x -> is_u32 i ->
  0 <= t -> (2 ^ t | i) -> in_block i t x ->
  (Z.to_nat (MAX_ORDER s - t) < fuel)%nat ->
  exists b, inner_loop fuel i (t + 1) s = Ok (b, s) /\ (b = true <-> inside_free B x (t + 1)).
Proof.
  intros Rp HT Hx. destruct (rep_size _ _ Rp) as [Hmo _].
  revert i t. induction fuel as [|fuel IH]; intros i t Hi Ht Hd Hin Hf; [lia|].
  cbn [inner_loop]. unfold bind at 1, gets.
  destruct (Z.leb_spec (t + 1) (MAX_ORDER s)) as [Hle|Hgt]; cycle 1.
  { exists false. split; [done|]. split; [done|]. intros (h & k & Hk & Hb & _).
    destruct (rep_blk _ _ _ _ _ Rp Hb). lia. }
  destruct (parent_grow x i t) as (Hd' & Hin' & Hi'); [done|lia|done|done|].
  set (q := parent_at_order i (t + 1)) in *.
  erewrite bind_ok; [|apply in_list_spec'; [done|lia]].
  case_bool_decide as Hb.
  - exists true. split; [done|]. split; [intros _|done]. exists q, (t + 1). split; [lia|done].
  - destruct (IH q (t + 1)) as (b & Hb1 & Hb2); [done|lia|done|done|lia|].
    exists b. split; [done|]. rewrite Hb2. unfold inside_free. split.
    + intros (h & k & Hk & Hh). exists h, k. split; [lia|done].
    + intros (h & k & Hk & Hh & Hhx). exists h, k. split; [|done].
      destruct (Z.eq_dec k (t + 1)) as [->|]; [|lia].
      destruct (t_block _ _ HT _ _ _ Hh) as (_ & _ & _ & Hhd).
      assert (h = q) as ->; [|done].
      rewrite <- (block_head_parent h (t + 1) x), <- (block_head_parent q (t + 1) x);
        done || lia.
Qed.

(** [is_inner_idx i] tells whether [i] lies inside of a free block of a
    higher order than its own node says. *)
Lemma is_inner_spec s B i n :
  rep s B -> tiling (N s) B -> nodes s !! i = Some n ->
  exists b, is_inner_idx i s = Ok (b, s) /\ (b = true <-> inside_free B i (get_order n + 1)).
Proof.
  intros Rp HT Hn. pose proof Rp as [fl R]. destruct (rep_size _ _ Rp) as [Hmo HN].
  destruct (rep_idx _ _ _ R _ _ Hn) as [Hi _].
  assert (0 <= get_order n) as Ho by (rewrite get_order_eq; apply Z.mod_pos_bound; lia).
  assert (is_u32 i) by (unfold u_range; lia).
  destruct (inner_loop_spec (S (Z.to_nat (MAX_ORDER s))) s B i i (get_order n))
    as (b & Hb1 & Hb2); try done.
  - by apply (r_aligned _ _ _ R).
  - unfold in_block. assert (0 < 2 ^ get_order n) by lia. lia.
  - lia.
  - exists b. split; [|done]. unfold is_inner_idx.
    erewrite bind_ok; [|unfold get_node, bind, gets; by rewrite Hn].
    unfold bind, gets. done.
Qed.

Lemma allocated_not_inner s B i o :
  rep s B -> tiling (N s) B -> allocated B i o -> is_inner_idx i s = Ok (false, s).
Proof.
  intros Rp HT Hi. destruct (rep_blk _ _ _ _ _ Rp Hi) as (Ho & _ & n & Hn & Hord & _).
  destruct (is_inner_spec s B i n) as (b & -> & Hb); [done..|].
  destruct b; [|done]. destruct (proj1 Hb eq_refl) as (h & k & Hk & Hh & Hin).
  assert (in_block i o i) by (unfold in_block; lia).
  assert (i = h) as <- by by eapply tiling_same.
  unfold allocated in Hi. simplify_eq.
Qed.

(** Every page of a free block is recognised, by its own free bit or by the
    walk up its parents. *)
Lemma free_page_detected s B i n :
  rep s B -> tiling (N s) B -> nodes s !! i = Some n -> free_page B i -> get_free n = false ->
  is_inner_idx i s = Ok (true, s).
Proof.
  intros Rp HT Hn (h & k & Hh & Hin) Hf. pose proof Rp as [fl R].
  destruct (is_inner_spec s B i n) as (b & -> & Hb); [done..|].
  assert (b = true) as ->; [|done]. apply Hb. exists h, k. split; [|done].
  destruct (t_block _ _ HT _ _ _ Hh) as (Hk & _ & _ & Hd).
  assert (i <> h).
  { intros ->. destruct (rep_blk _ _ _ _ _ Rp Hh) as (_ & _ & m & Hm & _ & Hm'). congruence. }
  destruct (Z.le_gt_cases (get_order n + 1) k) as [|Hgt]; [done|exfalso].
  pose proof (r_aligned _ _ _ R _ _ Hn) as Ha.
  apply (divide_pow2_le k) in Ha; [|lia]. unfold in_block in Hin.
  destruct Hd as [q ->], Ha as [r ->].
  assert (q < r) by nia. assert (r < q + 1) by nia. lia.
Qed.

(** ** Merging and page_free *)

(** The abstract effect of merging two free buddies. *)
Section MergeStep.
Context (n mo : Z) (B : blocks) (i o : Z).
Hypothesis (Ho : 0 <= o).
Hypothesis (HT : tiling n B).
Hypothesis (Hi : B !! i = Some (o, true)).
Hypothesis (Hb : B !! buddy i o = Some (o, true)).

Let left := if i <? buddy i o then i else buddy i o.
Let right := left + 2 ^ o.

Lemma merge_halves :
  (2 ^ (o + 1) | left) /\ left <> right /\
  ((left = i /\ right = buddy i o) \/ (left = buddy i o /\ right = i)).
Proof.
  subst left right. destruct (t_block _ _ HT _ _ _ Hi) as (_ & _ & _ & Hd).
  assert (0 < 2 ^ o) by lia.
  destruct (buddy_cases i o Ho Hd) as [[Hd' E]|[Hd' E]].
  - destruct (Z.ltb_spec i (buddy i o)); [|lia]. split_and!; [done|lia|]. left. lia.
  - destruct (Z.ltb_spec i (buddy i o)); [lia|]. rewrite <- E in Hd'.
    split_and!; [done|lia|]. right. lia.
Qed.

Definition merged : blocks := <[left := (o + 1, true)]> (delete left (delete right B)).

Lemma merged_lr : B !! left = Some (o, true) /\ B !! right = Some (o, true).
Proof. destruct merge_halves as (_ & _ & [[-> ->]|[-> ->]]); done. Qed.

Lemma merged_tiling : tiling n merged.
Proof.
  destruct merged_lr as [Hl Hr], merge_halves as (Hd & Hne & _).
  apply tiling_merge with (o := o) (f := true) (g := true); [done|done| | |].
  - apply lookup_delete_eq.
  - rewrite lookup_delete_ne by done. apply lookup_delete_eq.
  - fold right. rewrite <- delete_insert_ne by done. rewrite insert_delete_eq.
    rewrite insert_delete_eq. rewrite (insert_id B right) by done. by rewrite insert_id.
Qed.

Lemma merged_free x : free_page merged x <-> free_page B x.
Proof.
  destruct merged_lr as [Hl Hr], merge_halves as (Hd & Hne & _). unfold merged.
  rewrite free_page_insert_new by apply lookup_delete_eq.
  assert (in_block left (o + 1) x <-> in_block left o x \/ in_block right o x) as ->.
  { unfold in_block, right. rewrite pow2_succ by done. lia. }
  unfold free_page. split.
  - intros [[_ [Hx|Hx]]|(j & p & Hj & Hx)]; [by eauto..|].
    apply lookup_delete_Some in Hj as [_ Hj]. apply lookup_delete_Some in Hj as [_ Hj]. eauto.
  - intros (j & p & Hj & Hx). destruct (decide (j = left)) as [->|]; [simplify_eq; auto|].
    destruct (decide (j = right)) as [->|]; [simplify_eq; auto|].
    right. exists j, p. by rewrite !lookup_delete_ne.
Qed.

Lemma merged_alloc j p : allocated merged j p <-> allocated B j p.
Proof.
  destruct merged_lr as [Hl Hr]. unfold allocated, merged.
  rewrite lookup_insert_Some, !lookup_delete_Some. naive_solver.
Qed.

Lemma merged_coalesced_others :
  coalesced mo (delete i B) -> coalesced mo (delete left merged).
Proof.
  intros HC. unfold merged. rewrite delete_insert_eq, delete_delete_eq.
  assert (exists k, delete left (delete right B) = delete k (delete i B)) as [k ->].
  { destruct merge_halves as (_ & _ & [[-> ->]|[-> ->]]).
    - exists (buddy i o). apply delete_delete.
    - by exists (buddy i o). }
  by apply coalesced_delete.
Qed.

End MergeStep.

(** One round of [try_merge] on the arrays: both halves leave their lists and
    the low one re-enters one order up. *)
Lemma merge_round s B i o :
  rep s B -> tiling (N s) B -> 0 <= o < MAX_ORDER s ->
  B !! i = Some (o, true) -> B !! buddy i o = Some (o, true) ->
  let left := if i <? buddy i o then i else buddy i o in
  wp (((remove_from_list i ;; remove_from_list (buddy i o)) ;;
       upd_node left (set_order (o + 1))) ;; push_to_list left)
     (fun _ s' => rep s' (merged B i o) /\ frame s s') s.
Proof.
  intros Rp HT Ho Hi Hb left.
  destruct (merge_halves (N s) B i o) as (Hd & Hne & Hlr); [lia|done|done|].
  fold left in Hd, Hne, Hlr. set (right := left + 2 ^ o) in *.
  assert (i <> buddy i o) as Hib by (destruct Hlr as [[??]|[??]]; congruence).
  do 3 apply wp_bind. eapply wp_mono; [by eapply remove_spec'|]. intros _ s1 [R1 F1].
  eapply wp_mono.
  { eapply remove_spec'; [done|]. by rewrite lookup_insert_ne. }
  intros _ s2 [R2 F2]. pose proof (transitivity F1 F2) as F.
  set (B2 := <[buddy i o := (o, false)]> (<[i := (o, false)]> B)) in *.
  assert (B2 !! left = Some (o, false) /\ B2 !! right = Some (o, false)) as [L2 L2'].
  { unfold B2. destruct Hlr as [[-> ->]|[-> ->]]; split;
      rewrite ?lookup_insert_eq, ?lookup_insert_ne, ?lookup_insert_eq by done; done. }
  pose proof (rep_forget _ _ _ _ R2 L2') as R2'.
  assert (0 <= left < N s) as Hlr0.
  { destruct Hlr as [[-> _]|[-> _]]; [by destruct (rep_blk _ _ _ _ _ Rp Hi) as (_ & ? & _)|].
    by destruct (rep_blk _ _ _ _ _ Rp Hb) as (_ & ? & _). }
  eapply wp_mono.
  { eapply set_order_spec with (o := o + 1); [done|by rewrite (frame_N _ _ F)| | |done].
    - intros p. rewrite lookup_delete_ne by done. by rewrite L2.
    - rewrite (frame_mo _ _ F). lia. }
  intros _ s3 [R3 F3]. eapply wp_mono; [eapply push_spec'; [done|apply lookup_insert_eq]|].
  intros _ s4 [R4 F4]. split; [|by repeat (etrans; [done|])].
  rewrite insert_insert_eq in R4. unfold merged. fold left right.
  rewrite insert_delete_eq.
  assert (delete right B2 = <[left := (o, false)]> (delete right B)) as E.
  { unfold B2. destruct Hlr as [[-> ->]|[-> ->]].
    - rewrite delete_insert_eq. by rewrite delete_insert_ne.
    - rewrite delete_insert_ne by done. by rewrite delete_insert_eq. }
  rewrite E, insert_insert_eq in R4. done.
Qed.

Definition merge_post (s : pa_state) (B : blocks) (s' : pa_state) : Prop :=
  exists B', pa_inv s' B' /\ (forall x, free_page B' x <-> free_page B x) /\
    (forall j p, allocated B' j p <-> allocated B j p) /\ frame s s'.

Lemma try_merge_loop_spec fuel s B i o :
  rep s B -> tiling (N s) B -> coalesced (MAX_ORDER s) (delete i B) ->
  B !! i = Some (o, true) -> i < 2 ^ MAX_ORDER s ->
  (Z.to_nat (MAX_ORDER s - o) < fuel)%nat ->
  wp (try_merge_loop fuel i) (fun _ s' => merge_post s B s') s.
Proof.
  revert s B i o. induction fuel as [|fuel IH]; intros s B i o Rp HT HC Hi Him Hf; [lia|].
  destruct (rep_blk _ _ _ _ _ Rp Hi) as (Ho & Hr & n & Hn & Hord & Hfr).
  destruct (rep_size _ _ Rp) as [Hmo HN].
  destruct (t_block _ _ HT _ _ _ Hi) as (_ & _ & _ & Hal).
  assert ((0 <= o < MAX_ORDER s -> B !! buddy i o <> Some (o, true)) ->
          merge_post s B s) as Hstop.
  { intros Hb. exists B. split_and!; [|done..]. split_and!; [done..|].
    rewrite <- (insert_id B i (o, true)), <- insert_delete_eq by done.
    apply coalesced_free; [done|]. intros Ho' Hb'. apply Hb; [done|].
    by apply lookup_delete_Some in Hb' as [_ ?]. }
  cbn [try_merge_loop]. apply wp_bind. eapply wp_get_node; [done|].
  apply wp_bind, wp_gets. rewrite Hord. destruct (Z.eqb_spec o (MAX_ORDER s)).
  { apply wp_ret, Hstop. lia. }
  rewrite buddy_of_eq by lia.
  destruct (buddy_range i o (MAX_ORDER s)) as [Hb0 HbN]; [lia|lia|done|].
  destruct (rep_node s B (buddy i o) Rp) as [bn Hbn]; [lia|].
  apply wp_bind. eapply wp_get_node; [done|].
  destruct (negb (get_free bn) || negb (get_order bn =? o)) eqn:Ec.
  { apply wp_ret, Hstop. intros _ Hb.
    destruct (rep_blk _ _ _ _ _ Rp Hb) as (_ & _ & m & Hm & E1 & E2).
    rewrite Hbn in Hm. injection Hm as <-. by rewrite E1, E2, Z.eqb_refl in Ec. }
  apply orb_false_iff in Ec as [Ec1 Ec2].
  apply negb_false_iff in Ec1, Ec2. apply Z.eqb_eq in Ec2.
  pose proof (rep_free_node _ _ _ _ Rp Hbn Ec1) as Hb. rewrite Ec2 in Hb.
  pose proof (merge_round s B i o Rp HT ltac:(lia) Hi Hb) as Hm. cbv zeta in *.
  set (left := if i <? buddy i o then i else buddy i o) in *.
  do 3 apply wp_assoc. apply wp_bind. eapply wp_mono; [exact Hm|]. intros _ s4 [R' F'].
  rewrite <- (frame_N _ _ F') in HT. pose proof (frame_mo _ _ F') as EM.
  rewrite <- EM in HC, Him, Hf, HbN.
  eapply wp_mono.
  { apply IH with (B := merged B i o) (o := o + 1); [done| | | | |lia].
    - apply merged_tiling; done || lia.
    - eapply merged_coalesced_others; done || lia.
    - apply lookup_insert_eq.
    - destruct (Z.ltb_spec i (buddy i o)); lia. }
  intros _ s5 (B' & Hinv & Hfree & Halloc & F''). exists B'. split_and!; [done|..].
  - intros x. rewrite Hfree. eapply merged_free; done || lia.
  - intros j p. rewrite Halloc. eapply merged_alloc; done || lia.
  - by transitivity s4.
Qed.

Lemma page_free_spec (s : pa_state) (B : blocks) (i o : Z) (d : mm_page_data)
    (Hinv : pa_inv s B) (Hi : allocated B i o)
    (Hd : data_at s i = Some d) (Hperm : permanent d = false)
    (Hlow : i < 2 ^ MAX_ORDER s) :
  wp (page_free (i * PAGE_SIZE))
     (fun _ s' => exists B', pa_inv s' B' /\ free_step i o B B' /\ frame s s') s.
Proof.
  destruct Hinv as (Rp & HT & HC). destruct (rep_size _ _ Rp) as [Hmo HN].
  destruct (rep_blk _ _ _ _ _ Rp Hi) as (Ho & Hr & n & Hn & Hord & Hfr).
  unfold page_free. rewrite Z.div_mul by (unfold PAGE_SIZE; lia).
  rewrite wrap_small by (unfold u_range; lia).
  apply wp_bind. eapply wp_get_node; [done|].
  unfold data_at in Hd. rewrite Hn in Hd. injection Hd as Hd. rewrite Hd, Hperm, Hfr.
  apply wp_bind. unfold wp at 1. erewrite allocated_not_inner by done.
  apply wp_bind. eapply wp_mono; [by eapply push_spec'|]. intros _ s1 [R1 F1].
  unfold try_merge. apply wp_bind, wp_gets.
  rewrite <- (frame_N _ _ F1) in HT. rewrite <- (frame_mo _ _ F1) in *.
  eapply wp_mono.
  { eapply try_merge_loop_spec with (o := o); [done| | |apply lookup_insert_eq|done|lia].
    - by eapply tiling_set_flag.
    - rewrite delete_insert_eq. by apply coalesced_delete. }
  intros _ s2 (B' & Hinv' & Hfree & Halloc & F2). exists B'.
  split; [done|]. split; [|by transitivity s1]. split.
  - intros x. rewrite Hfree, free_page_insert, (free_page_delete (N s1) B i o false) by done.
    pose proof (allocated_not_free _ _ i o x HT Hi). tauto.
  - intros j p. rewrite Halloc. unfold allocated. rewrite lookup_insert_Some. naive_solver.
Qed.

Lemma page_free_rejects_spec (s : pa_state) (B : blocks) (i : Z) (d : mm_page_data)
    (Hinv : pa_inv s B) (Hi : 0 <= i < N s) (Hd : data_at s i = Some d)
    (Hbad : permanent d = true \/ free_page B i) :
  page_free (i * PAGE_SIZE) s = Err EPanic.
Proof.
  destruct Hinv as (Rp & HT & HC). destruct (rep_size _ _ Rp) as [Hmo HN].
  destruct (rep_node s B i Rp Hi) as [n Hn].
  unfold page_free. rewrite Z.div_mul by (unfold PAGE_SIZE; lia).
  rewrite wrap_small by (unfold u_range; lia).
  erewrite bind_ok; [|unfold get_node, bind, gets; by rewrite Hn].
  unfold data_at in Hd. rewrite Hn in Hd. injection Hd as ->.
  destruct (permanent d) eqn:Ep; [done|]. destruct Hbad as [?|Hfree]; [done|].
  destruct (get_free n) eqn:Ef; [done|].
  erewrite bind_ok; [|by eapply free_page_detected]. done.
Qed.

(** ** reserve *)

Lemma parent_contains x k :
  is_u32 x -> 0 <= k < 32 ->
  0 <= parent_at_order x k <= x /\ in_block (parent_at_order x k) k x.
Proof.
  intros Hx Hk. rewrite parent_eq by done. unfold in_block, u_range in *.
  pose proof (Z.mod_pos_bound x (2 ^ k)). pose proof (Z.mod_le x (2 ^ k)). lia.
Qed.

Lemma reserve_find_spec fuel s B i k :
  rep s B -> tiling (N s) B -> 0 <= i < N s -> 0 <= k ->
  (Z.to_nat (MAX_ORDER s + 1 - k) < fuel)%nat -> inside_free B i k ->
  exists b k', reserve_find fuel i k s = Ok ((b, k'), s) /\
    k <= k' /\ B !! b = Some (k', true) /\ in_block b k' i.
Proof.
  intros Rp HT Hi. destruct (rep_size _ _ Rp) as [Hmo HN].
  revert k. induction fuel as [|fuel IH]; intros k Hk Hf (h & m & Hm & Hh & Hin); [lia|].
  destruct (rep_blk _ _ _ _ _ Rp Hh) as (Hmm & _). assert (is_u32 i) by (unfold u_range; lia).
  cbn [reserve_find]. unfold bind at 1, gets.
  destruct (Z.leb_spec k (MAX_ORDER s)); [|lia].
  destruct (parent_contains i k) as [Hp Hpi]; [done|lia|].
  destruct (rep_node s B (parent_at_order i k) Rp) as [n Hn]; [lia|].
  erewrite bind_ok; [|unfold get_node, bind, gets; by rewrite Hn].
  destruct (get_free n && (get_order n =? k)) eqn:E.
  - apply andb_true_iff in E as [Ef Eo]. apply Z.eqb_eq in Eo.
    pose proof (rep_free_node _ _ _ _ Rp Hn Ef) as Hb. rewrite Eo in Hb.
    eexists _, k. split; [done|]. split; [lia|done].
  - destruct (IH (k + 1)) as (b & k' & Hb & ? & ?); [lia|lia| |].
    + exists h, m. split; [|done]. destruct (Z.eq_dec k m) as [->|]; [exfalso|lia].
      destruct (t_block _ _ HT _ _ _ Hh) as (_ & _ & _ & Hhd).
      rewrite (block_head_parent h m i) in Hn by (done || lia).
      destruct (rep_blk _ _ _ _ _ Rp Hh) as (_ & _ & n' & Hn' & E1 & E2). simplify_eq.
      by rewrite E2, Z.eqb_refl in E.
    + exists b, k'. split; [done|]. split; [lia|done].
Qed.

Lemma reserve_find_panic fuel s B i k :
  rep s B -> tiling (N s) B -> 0 <= i < N s -> 0 <= k ->
  (Z.to_nat (MAX_ORDER s + 1 - k) < fuel)%nat -> ~ inside_free B i k ->
  reserve_find fuel i k s = Err EPanic.
Proof.
  intros Rp HT Hi. destruct (rep_size _ _ Rp) as [Hmo HN].
  revert k. induction fuel as [|fuel IH]; intros k Hk Hf Hno; [lia|].
  assert (is_u32 i) by (unfold u_range; lia).
  cbn [reserve_find]. unfold bind at 1, gets.
  destruct (Z.leb_spec k (MAX_ORDER s)); [|done].
  destruct (parent_contains i k) as [Hp Hpi]; [done|lia|].
  destruct (rep_node s B (parent_at_order i k) Rp) as [n Hn]; [lia|].
  erewrite bind_ok; [|unfold get_node, bind, gets; by rewrite Hn].
  destruct (get_free n && (get_order n =? k)) eqn:E.
  - apply andb_true_iff in E as [Ef Eo]. apply Z.eqb_eq in Eo.
    pose proof (rep_free_node _ _ _ _ Rp Hn Ef) as Hb. rewrite Eo in Hb.
    destruct Hno. exists (parent_at_order i k), k. split; [lia|done].
  - apply IH; [lia|lia|]. intros (h & m & ? & ?). apply Hno. exists h, m. split; [lia|done].
Qed.

(** Between aligned blocks, the smaller one lies in one half of the larger. *)
Lemma half_cases cur k i o :
  0 <= o <= k -> (2 ^ (k + 1) | cur) -> (2 ^ o | i) -> in_block cur (k + 1) i ->
  (i < cur + 2 ^ k -> i + 2 ^ o <= cur + 2 ^ k) /\ i + 2 ^ o <= cur + 2 ^ (k + 1).
Proof.
  intros Ho Hc Hi Hin. unfold in_block in Hin. rewrite pow2_succ in * by lia.
  assert (2 ^ k = 2 ^ (k - o) * 2 ^ o) as Ek by (rewrite <- Z.pow_add_r by lia; f_equal; lia).
  assert (0 < 2 ^ o) as Hpo by lia.
  destruct Hc as [q Hq], Hi as [r Hr]. rewrite Ek in *. subst cur i.
  set (d := 2 ^ o) in *. set (e := 2 ^ (k - o)) in *. clearbody d e. split.
  - intros H. assert (r < 2 * q * e + e) by nia. nia.
  - assert (r < 2 * q * e + 2 * e) by nia. nia.
Qed.

Lemma reserve_split_spec fuel s B i o cur k :
  B !! cur = None -> rep s B -> tiling (N s) (<[cur := (k, false)]> B) ->
  (2 ^ o | i) -> in_block cur k i -> 0 <= o <= k -> k <= MAX_ORDER s ->
  (Z.to_nat (k - o) < fuel)%nat ->
  wp (reserve_split fuel i o cur k)
     (fun c s' => c = i /\ exists B', rep s' B' /\
        carve (N s) (MAX_ORDER s) cur k i o B B' /\ frame s s') s.
Proof.
  revert s B cur k. induction fuel as [|fuel IH];
    intros s B cur k Hc Rp HT Hd Hin Ho Hk Hf; [lia|].
  destruct (rep_size _ _ Rp) as [Hmo HN].
  destruct (t_block _ _ HT cur k false ltac:(apply lookup_insert_eq)) as (_ & _ & _ & Hcd).
  cbn [reserve_split]. destruct (Z.ltb_spec o k) as [Hlt|Hge]; cycle 1.
  { assert (k = o) as -> by lia.
    assert (cur = i) as -> by (apply (aligned_same o); done || lia).
    apply wp_ret. split; [done|]. exists B. split; [done|]. split; [by apply carve_refl|done]. }
  set (k' := k - 1). assert (k = k' + 1) as Ek by lia. rewrite Ek in HT, Hin |- *.
  assert (0 <= k') as Hk' by lia.
  destruct (carve_base_aligned _ _ _ _ HT) as (Hd' & Hc0 & HcN).
  pose proof (carve_right_hole _ _ _ _ Hk' HT) as Hr.
  destruct (half_cases cur k' i o) as [Hh1 Hh2]; [lia|done|done|done|].
  rewrite shift_pow2 by lia. rewrite pow2_succ in HcN, Hh2 by lia. assert (0 < 2 ^ k') by lia.
  rewrite wrap_small by (unfold u_range; lia).
  assert ((2 ^ k' | cur)) as Hd1 by (apply divide_pow2_le with (k' + 1); [lia|done]).
  assert ((2 ^ k' | cur + 2 ^ k')) as Hd2 by (apply Z.divide_add_r; [done|apply Z.divide_refl]).
  unfold in_block in Hin. rewrite pow2_succ in Hin by lia.
  destruct (Z.ltb_spec i (cur + 2 ^ k')) as [Hl|Hl].
  - apply wp_assoc, wp_bind. eapply wp_mono; [apply push_new_spec with (B := B); done || lia|].
    intros _ s2 [R2 F].
    pose proof (carve_left_tiling _ _ _ _ Hk' Hc HT) as HT'.
    rewrite <- (frame_N _ _ F) in *. pose proof (frame_mo _ _ F).
    eapply wp_mono.
    { apply IH with (B := <[cur + 2 ^ k' := (k', true)]> B); try done; try (unfold in_block; lia).
      by rewrite lookup_insert_ne by lia. }
    intros c s3 (-> & B' & R3 & C3 & F3). split; [done|]. exists B'. split; [done|].
    split; [|by transitivity s2]. rewrite (frame_mo _ _ F) in C3. by apply carve_left; auto.
  - apply wp_assoc, wp_bind. eapply wp_mono; [apply push_new_spec with (B := B); done || lia|].
    intros _ s2 [R2 F].
    pose proof (carve_right_tiling _ _ _ _ Hk' Hc HT) as HT'.
    rewrite <- (frame_N _ _ F) in *. pose proof (frame_mo _ _ F).
    eapply wp_mono.
    { apply IH with (B := <[cur := (k', true)]> B); try done; try (unfold in_block; lia).
      by rewrite lookup_insert_ne by lia. }
    intros c s3 (-> & B' & R3 & C3 & F3). split; [done|]. exists B'. split; [done|].
    split; [|by transitivity s2]. rewrite (frame_mo _ _ F) in C3. by apply carve_right; auto.
Qed.

(** The aligned block [i] of order [o] lies inside of a free block. *)
Lemma reserve_spec s B i o :
  pa_inv s B -> 0 <= i < N s -> 0 <= o <= MAX_ORDER s -> (2 ^ o | i) -> inside_free B i o ->
  wp (reserve i o)
     (fun _ s' => exists B', pa_inv s' B' /\ alloc_step i o B B' /\ frame s s') s.
Proof.
  intros (Rp & HT & HC) Hi Ho Hd Hfree. destruct (rep_size _ _ Rp) as [Hmo HN].
  unfold reserve. rewrite low_mask, Z.land_ones by lia.
  apply wp_bind, wp_ASSERT; [by apply Z.eqb_eq, Z.mod_divide; [lia|]|].
  apply wp_bind, wp_gets.
  destruct (reserve_find_spec (S (S (Z.to_nat (MAX_ORDER s)))) s B i o)
    as (b & k & Hfind & Hok & Hb & Hin); [done|done|done|lia|lia|done|].
  apply wp_bind. unfold wp at 1. rewrite Hfind.
  destruct (rep_blk _ _ _ _ _ Rp Hb) as (Hk & Hbr & _).
  destruct (t_block _ _ HT _ _ _ Hb) as (_ & _ & _ & Hbd).
  apply wp_bind. eapply wp_mono; [by eapply remove_spec'|]. intros _ s1 [R1 F1].
  assert (rep s1 (delete b B)) as R1'.
  { rewrite <- (delete_insert_eq B b (k, false)). eapply rep_forget; [done|apply lookup_insert_eq]. }
  apply wp_bind. eapply wp_mono.
  { apply reserve_split_spec with (B := delete b B); try done; try lia.
    - apply lookup_delete_eq.
    - rewrite (frame_N _ _ F1), insert_delete_eq. by eapply tiling_set_flag.
    - rewrite (frame_mo _ _ F1). lia. }
  intros c s2 (-> & B' & R2 & C2 & F2). pose proof (transitivity F1 F2) as F.
  rewrite (frame_N _ _ F1), (frame_mo _ _ F1) in C2.
  eapply wp_mono.
  { eapply set_order_spec with (o := o); [done| | | |done].
    - by rewrite (frame_N _ _ F).
    - intros p. by rewrite (c_hole _ _ _ _ _ _ _ _ C2).
    - by rewrite (frame_mo _ _ F). }
  intros _ s3 [R3 F3]. assert (frame s s3) as F' by by transitivity s2.
  exists (<[i := (o, false)]> B'). split; [|split; [|done]].
  - split; [done|]. rewrite (frame_N _ _ F'), (frame_mo _ _ F'). split; [by apply C2|].
    apply coalesced_alloc, C2. by apply coalesced_delete.
  - eapply carve_alloc; [done|done|unfold in_block in Hin; lia| |done].
    destruct (Z.eq_dec o k) as [->|].
    + assert (b = i) as ->; [|lia]. apply (aligned_same k); done || lia.
    + destruct (half_cases b (k - 1) i o) as [_ H]; rewrite ?Z.sub_add in *; done || lia.
Qed.

Lemma reserve_panic_spec s B i o :
  pa_inv s B -> 0 <= i < N s -> 0 <= o <= MAX_ORDER s -> ~ inside_free B i o ->
  reserve i o s = Err EPanic.
Proof.
  intros (Rp & HT & HC) Hi Ho Hno. destruct (rep_size _ _ Rp) as [Hmo HN]. unfold reserve.
  rewrite low_mask, Z.land_ones by lia. destruct (Z.eqb_spec (i mod 2 ^ o) 0); [|done].
  unfold bind at 1, ASSERT, ret, bind at 1, gets. apply bind_err.
  eapply reserve_find_panic; done || lia.
Qed.

(** ** Coalesced tilings are canonical

    The free pages and the allocated blocks determine the whole block map. *)

Lemma coalesced_free_block n mo B B' h k :
  tiling n B -> coalesced mo B -> tiling n B' -> coalesced mo B' ->
  (forall i o f, B !! i = Some (o, f) -> o <= mo) ->
  (forall i o f, B' !! i = Some (o, f) -> o <= mo) ->
  (forall x, free_page B x <-> free_page B' x) ->
  B !! h = Some (k, true) -> B' !! h = Some (k, true).
Proof.
  intros HT HC HT' HC' Hmo Hmo' Hfree Hh.
  destruct (t_block _ _ HT _ _ _ Hh) as (Hk0 & _ & _ & Hd). assert (0 < 2 ^ k) by lia.
  destruct (free_range_in_block n mo B' k h) as (h' & k' & Hk' & Hh' & Hin'); [done|done| |done| |].
  { split; [done|by eapply Hmo]. }
  { intros x Hx. apply Hfree. by exists h, k. }
  destruct (t_block _ _ HT' _ _ _ Hh') as (? & _ & _ & Hd'). assert (0 < 2 ^ k') by lia.
  destruct (free_range_in_block n mo B k' h') as (h'' & k'' & Hk'' & Hh'' & Hin''); [done|done| |done| |].
  { split; [done|by eapply Hmo']. }
  { intros x Hx. apply Hfree. by exists h', k'. }
  destruct (t_block _ _ HT _ _ _ Hh'') as (? & _ & _ & Hd'').
  destruct (aligned_contains h'' k'' h' k' h') as [? ?]; [lia|done|done|done|unfold in_block; lia|].
  assert (h = h'') as <-.
  { eapply (tiling_same n B h k true h'' k'' true h); [done|done|done|unfold in_block; lia|].
    unfold in_block in *. lia. }
  rewrite Hh in Hh''. injection Hh'' as <-. assert (k' = k) as -> by lia.
  unfold in_block in *. assert (h' = h) as -> by lia. done.
Qed.

Lemma coalesced_canonical n mo B B' :
  tiling n B -> coalesced mo B -> tiling n B' -> coalesced mo B' ->
  (forall i o f, B !! i = Some (o, f) -> o <= mo) ->
  (forall i o f, B' !! i = Some (o, f) -> o <= mo) ->
  (forall x, free_page B x <-> free_page B' x) ->
  (forall i o, allocated B i o <-> allocated B' i o) -> B = B'.
Proof.
  intros HT HC HT' HC' Hmo Hmo' Hfree Halloc.
  assert (forall h v, B !! h = Some v -> B' !! h = Some v) as H1.
  { intros h [k [|]] Hh; [by eapply (coalesced_free_block n mo B B')|by apply Halloc]. }
  assert (forall h v, B' !! h = Some v -> B !! h = Some v) as H2.
  { intros h [k [|]] Hh; [|by apply Halloc].
    by eapply (coalesced_free_block n mo B' B). }
  apply map_eq. intros i. destruct (B !! i) as [v|] eqn:E1; [by apply H1 in E1|].
  destruct (B' !! i) as [v|] eqn:E2; [|done]. apply H2 in E2. congruence.
Qed.

Lemma pa_inv_canonical s s' B B' :
  pa_inv s B -> pa_inv s' B' -> N s' = N s -> MAX_ORDER s' = MAX_ORDER s ->
  (forall x, free_page B x <-> free_page B' x) ->
  (forall i o, allocated B i o <-> allocated B' i o) -> B = B'.
Proof.
  intros (R1 & T1 & C1) (R2 & T2 & C2) HN HM. rewrite HN in T2. rewrite HM in C2.
  eapply coalesced_canonical; try done.
  - intros i o f Hi. by destruct (rep_blk _ _ _ _ _ R1 Hi) as [[_ ?] _].
  - intros i o f Hi. rewrite <- HM. by destruct (rep_blk _ _ _ _ _ R2 Hi) as [[_ ?] _].
Qed.

(** ** Page data accessors *)

Lemma in_free_list_spec s B i n :
  rep s B -> nodes s !! i = Some n ->
  get_order n <= MAX_ORDER s ->
  is_in_free_list i s = Ok (get_free n, s).
Proof.
  intros Rp Hn Ho. unfold is_in_free_list.
  erewrite bind_ok; [|unfold get_node, bind, gets; by rewrite Hn].
  rewrite (in_list_spec' s B) by (done || rewrite get_order_eq in *; pose proof (Z.mod_pos_bound (node_data n) (2 ^ 7)); lia).
  do 2 f_equal. destruct (get_free n) eqn:E.
  - apply bool_decide_eq_true_2. by eapply rep_free_node.
  - apply bool_decide_eq_false_2. intros Hb.
    destruct (rep_blk _ _ _ _ _ Rp Hb) as (_ & _ & m & ? & _ & ?). congruence.
Qed.

(** ** Properties *)

(** C1: from every consistent state with a free block of at least the
    requested order, [page_malloc] returns a block of exactly that order,
    naturally aligned and inside of the memory, whose pages were all free;
    after it exactly these pages have left the free set, every other
    allocated block and its page data is as before, and the state is
    consistent and coalesced again. *)
Theorem page_malloc_ok (s : pa_state) (B : blocks) (order : Z) (p : mm_page_data)
    (Hinv : pa_inv s B) (Horder : 0 <= order <= MAX_ORDER s)
    (Havail : exists i k, order <= k /\ B !! i = Some (k, true)) :
  wp (page_malloc order p) (malloc_post s B order p) s.
Proof. by apply page_malloc_spec. Qed.

(** When no free block of the requested or a larger order is left,
    [page_malloc] panics (and neither loops nor touches foreign memory). *)
Theorem page_malloc_oom (s : pa_state) (B : blocks) (order : Z) (p : mm_page_data)
    (Hinv : pa_inv s B) (Horder : 0 <= order <= MAX_ORDER s)
    (Hnone : forall i k, order <= k -> B !! i <> Some (k, true)) :
  page_malloc order p s = Err EPanic.
Proof. by eapply page_malloc_oom_spec. Qed.

(** C2: freeing an allocated, non-permanent block below 2^MAX_ORDER pages (the
    largest power of two in the memory; above it the search for the buddy can
    read past the node array, [page_free_top_faults]) terminates without a fault, returns exactly the
    pages of that block to the free set, removes exactly that block from the
    allocated ones, keeps all page data, and leaves the free blocks
    coalesced: no two free buddies remain. *)
Theorem page_free_ok (s : pa_state) (B : blocks) (i o : Z) (d : mm_page_data)
    (Hinv : pa_inv s B) (Hi : allocated B i o)
    (Hd : data_at s i = Some d) (Hperm : permanent d = false)
    (Hlow : i < 2 ^ MAX_ORDER s) :
  wp (page_free (i * PAGE_SIZE))
     (fun _ s' => exists B', pa_inv s' B' /\ free_step i o B B' /\ frame s s') s.
Proof. by eapply page_free_spec. Qed.

(** [page_free] panics, whatever the page data of the others, on a
    permanent page and on every page of a free block, whether it is the
    first page of the block or an inner one. *)
Theorem page_free_rejects (s : pa_state) (B : blocks) (i : Z) (d : mm_page_data)
    (Hinv : pa_inv s B) (Hi : 0 <= i < N s) (Hd : data_at s i = Some d)
    (Hbad : permanent d = true \/ free_page B i) :
  page_free (i * PAGE_SIZE) s = Err EPanic.
Proof. by eapply page_free_rejects_spec. Qed.

(** C9: in a memory of any number of pages, freeing a non-permanent block right
    after it was allocated restores the block map exactly, splits undone,
    provided the block lies below 2^MAX_ORDER pages, the largest power of two
    in the memory (a memory of 2^MAX_ORDER pages has no others).  Above it
    [page_free] can read past the node array ([page_free_top_faults]). *)
Theorem malloc_free_roundtrip (s : pa_state) (B : blocks) (order : Z) (p : mm_page_data)
    (Hinv : pa_inv s B) (Horder : 0 <= order <= MAX_ORDER s)
    (Havail : exists i k, order <= k /\ B !! i = Some (k, true))
    (Hperm : permanent p = false) :
  wp (page_malloc order p) (fun pa s1 => pa < 2 ^ MAX_ORDER s * PAGE_SIZE -> wp (page_free pa) (fun _ s' => pa_inv s' B) s1) s.
Proof.
  eapply wp_mono; [by apply page_malloc_spec|].
  intros pa s1 (i & B1 & -> & Hi & HiN & _ & Hinv1 & A & Hd & _ & HN & HM) Hlow.
  assert (0 < 2 ^ order) by lia.
  eapply wp_mono.
  { eapply page_free_spec; [done|apply A; by left|done|done|]. rewrite HM. unfold PAGE_SIZE in Hlow. lia. }
  intros _ s2 (B2 & Hinv2 & [F1 F2] & Fr).
  enough (B = B2) as -> by done.
  eapply pa_inv_canonical; [done|done| | | |].
  - by rewrite (frame_N _ _ Fr).
  - by rewrite (frame_mo _ _ Fr).
  - intros x. rewrite F1, (a_free _ _ _ _ A). pose proof (a_was_free _ _ _ _ A x).
    assert (in_block i order x \/ ~ in_block i order x) by (unfold in_block; lia). tauto.
  - intros j q. rewrite F2, (a_alloc _ _ _ _ A). split; [|naive_solver].
    intros Hj. split; [by right|]. intros ->. destruct Hinv as (_ & HT & _).
    eapply (allocated_not_free _ _ i q i); [done|done| |apply A; unfold in_block; lia].
    destruct (t_block _ _ HT _ _ _ Hj) as (? & _). unfold in_block. lia.
Qed.

(** freeing a block whose buddy lies beyond the end of the node array
    (possible when the number of pages is not a power of two) reads a node
    outside of the array, instead of stopping at the end of the memory. *)
Theorem page_free_top_faults (s : pa_state) (B : blocks) (i o : Z) (d : mm_page_data)
    (Hinv : pa_inv s B) (Hi : allocated B i o) (Hd : data_at s i = Some d)
    (Hperm : permanent d = false) (Ho : o < MAX_ORDER s) (Hb : N s <= buddy i o) :
  page_free (i * PAGE_SIZE) s = Err EFault.
Proof.
  destruct Hinv as (Rp & HT & HC). destruct (rep_size _ _ Rp) as [Hmo HN].
  destruct (rep_blk _ _ _ _ _ Rp Hi) as (Ho' & Hr & n & Hn & Hord & Hfr).
  unfold page_free. rewrite Z.div_mul by (unfold PAGE_SIZE; lia).
  rewrite wrap_small by (unfold u_range; lia).
  erewrite bind_ok; [|unfold get_node, bind, gets; by rewrite Hn].
  unfold data_at in Hd. rewrite Hn in Hd. injection Hd as ->. rewrite Hperm, Hfr.
  erewrite bind_ok; [|by eapply allocated_not_inner]. cbn iota.
  pose proof (push_spec' s B i o Rp Hi) as Hp.
  apply wp_ok in Hp as (u & s1 & E1 & R1 & F1). erewrite bind_ok; [|exact E1].
  unfold try_merge. unfold bind at 1, gets. cbn [try_merge_loop].
  destruct (rep_blk _ _ i o true R1 ltac:(apply lookup_insert_eq)) as (_ & _ & n1 & Hn1 & Hord1 & _).
  erewrite bind_ok; [|unfold get_node, bind, gets; by rewrite Hn1].
  unfold bind at 1, gets. rewrite Hord1, (frame_mo _ _ F1).
  destruct (Z.eqb_spec o (MAX_ORDER s)); [lia|]. rewrite buddy_of_eq by lia.
  apply bind_err. unfold get_node, bind, gets.
  destruct (nodes s1 !! buddy i o) eqn:E; [|done]. destruct R1 as [fl R1].
  apply (rep_idx _ _ _ R1) in E as [E _]. rewrite (frame_N _ _ F1) in E. lia.
Qed.

(** [page_allocator_get_data] of an allocated block answers by the page
    whose index is the order of the block: it returns the data of the block
    when that other page does not start a free block, and refuses
    otherwise. *)
Theorem get_data_depends_on_order_page (s : pa_state) (B : blocks) (i o : Z)
    (d : mm_page_data) (m : page_node)
    (Hinv : pa_inv s B) (Hi : allocated B i o) (Hd : data_at s i = Some d)
    (Hm : nodes s !! o = Some m) (Hmo : get_order m <= MAX_ORDER s) :
  page_allocator_get_data (i * PAGE_SIZE) s =
    Ok (if get_free m then None else Some d, s).
Proof.
  destruct Hinv as (Rp & HT & HC). destruct (rep_size _ _ Rp) as [Hmo' HN].
  destruct (rep_blk _ _ _ _ _ Rp Hi) as (Ho & Hr & n & Hn & Hord & Hfr).
  unfold page_allocator_get_data. rewrite Z.div_mul by (unfold PAGE_SIZE; lia).
  rewrite wrap_small by (unfold u_range; lia).
  erewrite bind_ok; [|by eapply allocated_not_inner]. cbn iota.
  erewrite bind_ok; [|unfold get_node, bind, gets; by rewrite Hn].
  rewrite Hord. erewrite bind_ok; [|by eapply in_free_list_spec].
  unfold data_at in Hd. rewrite Hn in Hd. injection Hd as ->. by destruct (get_free m).
Qed.
