(* ===== verification/PageAllocatorBoot.v ===== *)
(** * PageAllocatorBoot: initialisation and the boot reservations

    [page_allocator_init] establishes the allocator invariant with every
    page free, for any number of pages; [reserve] and
    [page_allocator_update_memregs] then take exactly the pages of the
    regions the early allocator handed out.  The witnesses of
    PageAllocatorSpec.v's theorems are here too: they run on a booted
    allocator. *)

From Stdlib Require Import ZArith Lia.
From stdpp Require Import base tactics numbers gmap list.
From S2P Require Import Prelude KMath PageAllocator BuddyTiling PageAllocatorRep PageAllocatorSpec.

Open Scope Z_scope.
Open Scope kmonad_scope.

(** ** Initialisation loops *)

Lemma init_lists_spec fuel i s :
  (forall o, i <= o < i + Z.of_nat fuel -> is_Some (free_lists s !! o)) ->
  wp (init_lists fuel i)
     (fun _ s' => N s' = N s /\ MAX_ORDER s' = MAX_ORDER s /\ nodes s' = nodes s /\
        forall o, free_lists s' !! o =
          if decide (i <= o < i + Z.of_nat fuel) then Some NULL_IDX else free_lists s !! o) s.
Proof.
  revert i s. induction fuel as [|fuel IH]; intros i s Hs; cbn [init_lists].
  - apply wp_ret. split_and!; [done..|]. intros o. case_decide; [lia|done].
  - destruct (Hs i ltac:(lia)) as [v Hv].
    apply wp_bind. eapply wp_put_list; [done|]. eapply wp_mono.
    { apply IH. intros o Ho. cbn. rewrite lookup_insert_ne by lia. apply Hs. lia. }
    cbn. intros _ s' (-> & -> & -> & Hl). split_and!; [done..|]. intros o. rewrite Hl.
    repeat case_decide; try lia; [done| |].
    + assert (o = i) as -> by lia. by rewrite lookup_insert_eq.
    + by rewrite lookup_insert_ne by lia.
Qed.

Lemma init_nodes_spec fuel i s :
  (forall j, i <= j < i + Z.of_nat fuel -> is_Some (nodes s !! j)) ->
  wp (init_nodes fuel i)
     (fun _ s' => N s' = N s /\ MAX_ORDER s' = MAX_ORDER s /\ free_lists s' = free_lists s /\
        forall j, nodes s' !! j =
          if decide (i <= j < i + Z.of_nat fuel) then Some node_zero else nodes s !! j) s.
Proof.
  revert i s. induction fuel as [|fuel IH]; intros i s Hs; cbn [init_nodes].
  - apply wp_ret. split_and!; [done..|]. intros o. case_decide; [lia|done].
  - destruct (Hs i ltac:(lia)) as [v Hv].
    apply wp_bind. eapply wp_upd_node; [done|]. eapply wp_mono.
    { apply IH. intros o Ho. cbn. rewrite lookup_insert_ne by lia. apply Hs. lia. }
    cbn. intros _ s' (-> & -> & -> & Hl). split_and!; [done..|]. intros o. rewrite Hl.
    repeat case_decide; try lia; [done| |].
    + assert (o = i) as -> by lia. by rewrite lookup_insert_eq.
    + by rewrite lookup_insert_ne by lia.
Qed.

(** All lists empty, all nodes zero: the empty block map. *)
Lemma rep_empty s :
  0 <= MAX_ORDER s < 32 -> 2 ^ MAX_ORDER s <= N s < 2 ^ 32 -> N s < 2 ^ (MAX_ORDER s + 1) ->
  (forall o, 0 <= o <= MAX_ORDER s -> free_lists s !! o = Some NULL_IDX) ->
  (forall i, nodes s !! i = if decide (0 <= i < N s) then Some node_zero else None) ->
  rep s ∅.
Proof.
  intros Hmo HN HN' Hl Hn. exists (fun _ => []). split.
  - done.
  - done.
  - intros i. rewrite Hn. case_decide; [naive_solver|]. split; [by intros []|done].
  - intros i n. rewrite Hn. case_decide; [|done]. intros [= <-]. unfold u_range. simpl. lia.
  - intros i n. rewrite Hn. case_decide; [|done]. intros [= <-].
    change (get_order node_zero) with 0. apply Z.divide_1_l.
  - done.
  - intros. constructor.
  - done.
  - intros o i Ho. rewrite lookup_empty. split; [set_solver|done].
  - done.
  - intros i n. rewrite Hn. case_decide; [|done]. by intros [= <-].
Qed.

Lemma tiling_extend n B o f :
  tiling n B -> 0 <= o -> 0 <= n -> (2 ^ o | n) ->
  B !! n = None /\ tiling (n + 2 ^ o) (<[n := (o, f)]> B).
Proof.
  intros HT Ho Hn Hd.
  assert (B !! n = None) as Hnone.
  { destruct (B !! n) as [[p g]|] eqn:E; [|done].
    apply (t_block _ _ HT) in E as (? & _ & ? & _). lia. }
  split; [done|]. assert (0 < 2 ^ o) by lia. split.
  - intros i p g. rewrite lookup_insert_Some. intros [[<- [= <- <-]]|[_ Hi]]; [done|].
    apply (t_block _ _ HT) in Hi as (? & ? & ? & ?). split_and!; done || lia.
  - intros i p g j q h. rewrite !lookup_insert_Some.
    intros [[<- [= <- <-]]|[_ Hi]] [[<- [= <- <-]]|[_ Hj]] Hij.
    + done.
    + apply (t_block _ _ HT) in Hj as (? & ? & ? & ?). lia.
    + apply (t_block _ _ HT) in Hi as (? & ? & ? & ?). lia.
    + by eapply (t_disjoint _ _ HT).
  - intros x Hx. destruct (Z.lt_ge_cases x n) as [Hlt|Hge].
    + destruct (t_cover _ _ HT x) as (i & p & g & Hi & Hin); [lia|]. exists i, p, g.
      rewrite lookup_insert_ne; [done|]. intros <-. simplify_eq.
    + exists n, o, f. rewrite lookup_insert_eq. split; [done|]. unfold in_block. lia.
Qed.

Definition all_free (B : blocks) : Prop := forall i o f, B !! i = Some (o, f) -> f = true.

Lemma init_blocks_spec fuel s B i rem k :
  rep s B -> tiling i B -> coalesced (MAX_ORDER s) B -> all_free B ->
  0 <= i -> 0 <= rem < 2 ^ k -> i + rem = N s -> (2 ^ k | i) -> 0 <= k < Z.of_nat fuel ->
  wp (init_blocks fuel i rem)
     (fun _ s' => exists B', pa_inv s' B' /\ all_free B' /\ frame s s') s.
Proof.
  revert s B i rem k. induction fuel as [|fuel IH];
    intros s B i rem k Rp HT HC Hall Hi Hrem Hsum Hd Hk; [lia|].
  cbn [init_blocks]. destruct (Z.eqb_spec rem 0) as [->|Hne].
  { apply wp_ret. exists B. rewrite Z.add_0_r in Hsum. subst i. done. }
  pose proof Rp as [fl R]. destruct (rep_size _ _ Rp) as [Hmo HN].
  rewrite log2_floor_u64_eq by lia. set (o := Z.log2 rem).
  destruct (Z.log2_spec rem) as [Hlo Hhi]; [lia|]. fold o in Hlo, Hhi.
  assert (0 <= o) as Ho by apply Z.log2_nonneg. rewrite <- Z.add_1_r, pow2_succ in Hhi by done.
  assert (o < k) as Hok by (apply Z.log2_lt_pow2; lia).
  assert (o <= MAX_ORDER s) as Hom.
  { apply Z.lt_succ_r. apply (Z.pow_lt_mono_r_iff 2); [lia|lia|].
    pose proof (r_max _ _ _ R). rewrite <- Z.add_1_r. lia. }
  rewrite power_of2_eq by lia.
  rewrite !wrap_small by (unfold u_range; lia).
  assert ((2 ^ (o + 1) | i)) as Hd1 by (apply divide_pow2_le with k; [lia|done]).
  assert ((2 ^ o | i)) as Hd0 by (apply divide_pow2_le with k; [lia|done]).
  destruct (tiling_extend i B o true) as [Hnone HT']; [done..|].
  apply wp_assoc, wp_bind. eapply wp_mono; [apply push_new_spec with (B := B); done || lia|].
  intros _ s1 [R1 F1]. eapply wp_mono.
  { eapply IH with (k := o); [done|done| | |lia|lia| | |lia].
    - rewrite (frame_mo _ _ F1). apply coalesced_free; [done|]. intros _ Hb.
      rewrite buddy_low in Hb by done. apply (t_block _ _ HT) in Hb as (_ & _ & ? & _). lia.
    - intros j p f. rewrite lookup_insert_Some. intros [[<- [= <- <-]]|[_ Hj]]; [done|eauto].
    - rewrite (frame_N _ _ F1). lia.
    - apply Z.divide_add_r; [done|apply Z.divide_refl]. }
  intros _ s2 (B' & Hinv & Hall' & F2). exists B'. split_and!; [done..|by transitivity s1].
Qed.

Lemma all_free_spec n B : tiling n B -> all_free B ->
  (forall x, 0 <= x < n -> free_page B x) /\ (forall i o, ~ allocated B i o).
Proof.
  intros HT Hall. split.
  - intros x Hx. destruct (t_cover _ _ HT x Hx) as (i & o & f & Hi & Hin).
    rewrite (Hall _ _ _ Hi) in Hi. by exists i, o.
  - intros i o Hi. by apply Hall in Hi.
Qed.

(** The state [page_allocator_init] leaves for [n] pages. *)
Definition booted (n : Z) (s : pa_state) : Prop :=
  exists B, pa_inv s B /\ N s = n /\ MAX_ORDER s = Z.log2 n /\
    (forall x, 0 <= x < n -> free_page B x) /\ (forall i o, ~ allocated B i o) /\
    (forall i, 0 <= i < n -> data_at s i = Some page_data_zero).

Lemma init_inv n pv_va fl_mem nd_mem s0 :
  2 <= n < 2 ^ 32 -> pv_va mod 8 = 0 ->
  wp (page_allocator_init n pv_va fl_mem nd_mem) (fun _ s => booted n s) s0.
Proof.
  intros Hn Hva. unfold page_allocator_init. rewrite log2_floor_u64_eq by lia.
  set (mo := Z.log2 n).
  assert (1 <= mo < 32) as Hmo.
  { split; [|apply Z.log2_lt_pow2; lia].
    change 1 with (Z.log2 2). apply Z.log2_le_mono. lia. }
  destruct (Z.log2_spec n) as [Hlo Hhi]; [lia|]. fold mo in Hlo, Hhi.
  rewrite <- Z.add_1_r in Hhi.
  assert (align_up (8 * mo) alignof_page_node = 8 * mo) as ->.
  { unfold alignof_page_node. change 8 with (2 ^ 3) at 2. rewrite align_up_pow2 by lia.
    change (2 ^ 3) with 8. replace (8 * mo + 8 - 1) with (7 + mo * 8) by lia.
    rewrite Z.div_add by lia. change (7 / 8) with 0. lia. }
  apply wp_bind, wp_modify. apply wp_bind, wp_ASSERT.
  { apply Z.eqb_eq. pose proof (Z.div_mod pv_va 8). rewrite Hva in *.
    replace pv_va with (pv_va / 8 * 2 * 4) by lia. apply Z.mod_mul. lia. }
  apply wp_bind, wp_ASSERT.
  { apply Z.eqb_eq. unfold wrap, alignof_page_node.
    pose proof (Z.div_mod pv_va 8). rewrite Hva in *.
    replace (2 ^ 64) with (8 * 2 ^ 61) by lia.
    replace (pv_va + 8 * mo) with (8 * (pv_va / 8 + mo)) by lia.
    rewrite Z.mul_mod_distr_l by lia. rewrite Z.mul_comm. apply Z.mod_mul. lia. }
  apply wp_bind. eapply wp_mono.
  { apply init_lists_spec. intros o Ho. cbn. rewrite array_lookup.
    rewrite decide_True; [eauto|].
    replace (8 * mo) with (2 * mo * 4) by lia. rewrite Z.div_mul by lia. lia. }
  cbn [N MAX_ORDER nodes free_lists]. intros _ s1 (N1 & M1 & Nd1 & L1). apply wp_bind. eapply wp_mono.
  { apply init_nodes_spec. intros j Hj. rewrite Nd1, array_lookup.
    rewrite decide_True by lia. eauto. }
  intros _ s2 (N2 & M2 & L2 & Nd2). rewrite <- N2 in N1. rewrite <- M2 in M1.
  assert (forall i, nodes s2 !! i = if decide (0 <= i < N s2) then Some node_zero else None) as Hnodes.
  { intros i. rewrite Nd2, Nd1, array_lookup, N1. repeat case_decide; done || lia. }
  eapply wp_mono.
  { apply init_blocks_spec with (B := ∅) (k := 64); try done; try lia.
    - apply rep_empty; rewrite ?N1, ?M1; try lia.
      + intros o Ho. rewrite L2, L1. rewrite decide_True by lia. done.
      + rewrite <- N1. done.
    - split; [done|done|lia].
    - apply Z.divide_0_r. }
  intros _ s3 (B & Hinv & Hall & F). exists B. split; [done|].
  rewrite (frame_N _ _ F), (frame_mo _ _ F), N1, M1. split_and!; [done..| | |].
  - intros x Hx. eapply all_free_spec; [apply Hinv|done|]. rewrite (frame_N _ _ F). lia.
  - eapply all_free_spec; [apply Hinv|done].
  - intros i Hi. rewrite (frame_data _ _ _ F). unfold data_at. rewrite Hnodes.
    by rewrite decide_True by lia.
Qed.

(** ** Boot reservations *)

Definition region_first (e : early_memreg) : Z := mr_addr e / PAGE_SIZE.

Definition in_region (e : early_memreg) (x : Z) : Prop :=
  region_first e <= x < region_first e + mr_pages e.

(** Page [x] belongs to a region that is not free. *)
Definition reserved_page (l : list early_memreg) (x : Z) : Prop :=
  exists e, e ∈ l /\ mr_free e = false /\ in_region e x.

(** The page data a reserved region hands to its blocks. *)
Definition region_data (e : early_memreg) : mm_page_data :=
  MkPageData (mr_tag e) (mr_device_memory e) (mr_permanent e) 0.

(** The reserved regions lie in the first [n] pages and do not overlap. *)
Fixpoint regions_ok (n : Z) (l : list early_memreg) : Prop :=
  match l with
  | [] => True
  | e :: l =>
      (mr_free e = false ->
         0 <= region_first e /\ 0 <= mr_pages e /\ region_first e + mr_pages e <= n /\
         forall x, in_region e x -> ~ reserved_page l x) /\
      regions_ok n l
  end.

(** The blocks of [B] that carry the data [d] cover the page [x]. *)
Definition page_owned (s : pa_state) (B : blocks) (x : Z) (d : mm_page_data) : Prop :=
  exists i o, allocated B i o /\ in_block i o x /\ data_at s i = Some d.

Lemma align_order_spec fuel s j o :
  0 <= o < 32 -> (Z.to_nat o < fuel)%nat ->
  exists o', align_order fuel j o s = Ok (o', s) /\ 0 <= o' <= o /\ (2 ^ o' | j).
Proof.
  revert o. induction fuel as [|fuel IH]; intros o Ho Hf; [lia|].
  cbn [align_order]. rewrite low_mask, Z.land_ones by lia.
  destruct (Z.eqb_spec (j mod 2 ^ o) 0) as [E|E]; cbn [negb].
  - exists o. split; [done|]. split; [lia|]. apply Z.mod_divide; [lia|done].
  - assert (o <> 0) by (intros ->; by rewrite Z.mod_1_r in E).
    destruct (IH (o - 1)) as (o' & Ho' & ? & ?); [lia|lia|]. exists o'. split; [done|]. lia || split; [lia|done].
Qed.

(** One reservation of the boot loop: the block leaves the free pages and
    gets the data of its region. *)
Lemma reserve_block_spec s B e j o :
  pa_inv s B -> 0 <= o <= MAX_ORDER s -> 0 <= j -> j + 2 ^ o <= N s -> (2 ^ o | j) ->
  (forall x, in_block j o x -> free_page B x) ->
  wp (reserve j o ;; upd_node j (with_page_data (region_data e)))
     (fun _ s' => exists B', pa_inv s' B' /\ alloc_step j o B B' /\
        N s' = N s /\ MAX_ORDER s' = MAX_ORDER s /\
        data_at s' j = Some (region_data e) /\
        forall i, i <> j -> data_at s' i = data_at s i) s.
Proof.
  intros Hinv Ho Hj HN Hd Hfree. assert (0 < 2 ^ o) by lia.
  apply wp_bind. eapply wp_mono.
  { apply reserve_spec; [done|lia|done|done|].
    eapply free_range_in_block; [apply Hinv|apply Hinv|done..]. }
  intros _ s1 (B1 & Hinv1 & A1 & F1). eapply wp_mono.
  { apply set_data_spec; [apply Hinv1|]. rewrite (frame_N _ _ F1). lia. }
  intros _ s2 (R2 & N2 & M2 & D2 & D2'). exists B1.
  rewrite (frame_N _ _ F1) in N2. rewrite (frame_mo _ _ F1) in M2.
  split_and!; try done.
  - destruct Hinv1 as (_ & HT1 & HC1). rewrite (frame_N _ _ F1) in HT1.
    rewrite (frame_mo _ _ F1) in HC1. split; [done|]. by rewrite N2, M2.
  - intros i Hi. rewrite D2' by done. by apply frame_data.
Qed.

(** What reserving the pages [j, j + rem) for [e] does. *)
Record reserved_post (e : early_memreg) (j rem : Z) (s : pa_state) (B : blocks)
    (s' : pa_state) (B' : blocks) : Prop := {
  rp_inv : pa_inv s' B';
  rp_N : N s' = N s;
  rp_mo : MAX_ORDER s' = MAX_ORDER s;
  rp_free x : free_page B' x <-> free_page B x /\ ~ (j <= x < j + rem);
  rp_keep x d : ~ (j <= x < j + rem) -> page_owned s B x d -> page_owned s' B' x d;
  rp_owned x : j <= x < j + rem -> page_owned s' B' x (region_data e);
}.

Lemma alloc_keep s B s' B' j o x d :
  tiling (N s) B -> alloc_step j o B B' -> 0 <= o ->
  (forall i, i <> j -> data_at s' i = data_at s i) ->
  page_owned s B x d -> page_owned s' B' x d.
Proof.
  intros HT A Ho Hdat (i & p & Hi & Hin & Hd). exists i, p. split_and!.
  - apply A. by right.
  - done.
  - rewrite Hdat; [done|]. intros ->. assert (0 < 2 ^ o) by lia.
    destruct (t_block _ _ HT _ _ _ Hi) as (? & _). assert (0 < 2 ^ p) by lia.
    eapply (allocated_not_free _ _ j p j); [done|done|unfold in_block; lia|].
    apply (a_was_free _ _ _ _ A). unfold in_block. lia.
Qed.

Lemma memreg_loop_spec fuel s B e j rem :
  mr_free e = false -> pa_inv s B -> 0 <= j -> 0 <= rem -> j + rem <= N s ->
  (forall x, j <= x < j + rem -> free_page B x) -> (Z.to_nat rem < fuel)%nat ->
  wp (memreg_loop fuel e j rem) (fun _ s' => exists B', reserved_post e j rem s B s' B') s.
Proof.
  intros He. revert s B j rem. induction fuel as [|fuel IH];
    intros s B j rem Hinv Hj Hrem HN Hfree Hf; [lia|].
  cbn [memreg_loop]. destruct (Z.ltb_spec 0 rem) as [Hpos|Hz]; cycle 1.
  { apply wp_ret. exists B. assert (rem = 0) as -> by lia. split; try done; intros; try lia.
    split; [|tauto]. intros ?. split; [done|lia]. }
  pose proof Hinv as ([fl R] & HT & _). destruct (r_size _ _ _ R) as [Hmo HN'].
  rewrite He, log2_floor_u64_eq by lia.
  destruct (Z.log2_spec rem) as [Hlo _]; [done|].
  assert (0 <= Z.log2 rem <= MAX_ORDER s) as Hlm.
  { split; [apply Z.log2_nonneg|]. apply Z.lt_succ_r.
    apply (Z.pow_lt_mono_r_iff 2); [lia|lia|].
    pose proof (r_max _ _ _ R). rewrite <- Z.add_1_r. lia. }
  destruct (align_order_spec 65 s j (Z.log2 rem)) as (o & Hal & Ho & Hd); [lia|lia|].
  assert (2 ^ o <= 2 ^ Z.log2 rem) by (apply Z.pow_le_mono_r; lia). assert (0 < 2 ^ o) by lia.
  apply wp_bind. unfold wp at 1. rewrite Hal.
  rewrite power_of2_eq by lia. rewrite !wrap_small by (unfold u_range; lia).
  apply wp_assoc, wp_bind. eapply wp_mono.
  { apply (reserve_block_spec s B e j o); [done|lia|lia|lia|done|].
    intros x Hx. apply Hfree. unfold in_block in Hx. lia. }
  intros _ s1 (B1 & Hinv1 & A1 & N1 & M1 & D1 & D1').
  eapply wp_mono.
  { apply (IH s1 B1 (j + 2 ^ o) (rem - 2 ^ o)); [done|lia|lia|lia| |lia].
    intros x Hx. apply A1. split; [apply Hfree; lia|unfold in_block; lia]. }
  intros _ s2 (B2 & [P1 P2 P3 P4 P5 P6]). exists B2. split.
  - done.
  - congruence.
  - congruence.
  - intros x. rewrite P4, (a_free _ _ _ _ A1). unfold in_block.
    assert (j <= x < j + rem <-> j <= x < j + 2 ^ o \/ j + 2 ^ o <= x < j + 2 ^ o + (rem - 2 ^ o))
      as -> by lia. tauto.
  - intros x d Hx Hown. apply P5; [lia|]. eapply alloc_keep; done || lia.
  - intros x Hx. destruct (Z.lt_ge_cases x (j + 2 ^ o)); [|apply P6; lia].
    apply P5; [lia|]. exists j, o. split_and!; [apply A1; by left|unfold in_block; lia|done].
Qed.

Lemma update_memregs_spec l s B :
  pa_inv s B -> regions_ok (N s) l -> (forall x, reserved_page l x -> free_page B x) ->
  wp (page_allocator_update_memregs l)
     (fun _ s' => exists B', pa_inv s' B' /\ N s' = N s /\
        (forall x, free_page B' x <-> free_page B x /\ ~ reserved_page l x) /\
        (forall x d, ~ reserved_page l x -> page_owned s B x d -> page_owned s' B' x d) /\
        (forall e x, e ∈ l -> mr_free e = false -> in_region e x ->
           page_owned s' B' x (region_data e))) s.
Proof.
  revert s B. induction l as [|e l IH]; intros s B Hinv Hok Hfree;
    cbn [page_allocator_update_memregs].
  { apply wp_ret. exists B. assert (forall x, ~ reserved_page [] x) as Hno
      by (intros x (? & ? & _); set_solver).
    split_and!; try done; [|set_solver]. intros x. specialize (Hno x). tauto. }
  destruct Hok as [Hok1 Hok].
  assert (forall x, reserved_page (e :: l) x <-> (mr_free e = false /\ in_region e x) \/ reserved_page l x)
    as Hres.
  { intros x. unfold reserved_page. split.
    - intros (e' & [->|He']%elem_of_cons & ? & ?); [by left|right; eauto].
    - intros [[? ?]|(e' & ? & ? & ?)]; [exists e|exists e']; by rewrite elem_of_cons; auto. }
  assert (wp (memreg_loop (S (Z.to_nat (mr_pages e))) e (region_first e) (mr_pages e))
    (fun _ s1 => exists B1, pa_inv s1 B1 /\ N s1 = N s /\
       (forall x, free_page B1 x <-> free_page B x /\ ~ (mr_free e = false /\ in_region e x)) /\
       (forall x d, ~ (mr_free e = false /\ in_region e x) -> page_owned s B x d -> page_owned s1 B1 x d) /\
       (forall x, mr_free e = false -> in_region e x -> page_owned s1 B1 x (region_data e))) s) as Hloop.
  { destruct (mr_free e) eqn:Ee.
    - assert (memreg_loop (S (Z.to_nat (mr_pages e))) e (region_first e) (mr_pages e) s = Ok (tt, s))
        as E by (cbn [memreg_loop]; rewrite Ee; by destruct (0 <? mr_pages e)).
      unfold wp. rewrite E. exists B. split_and!; try done. intros x. split; [by intros ?; split; [|intros []]|by intros []].
    - destruct (Hok1 eq_refl) as (? & ? & ? & _). eapply wp_mono.
      { apply (memreg_loop_spec _ s B e); try done; [|lia].
        intros x Hx. apply Hfree, Hres. by left. }
      intros _ s1 (B1 & [P1 P2 P3 P4 P5 P6]). exists B1. split_and!; try done.
      + intros x. rewrite P4. unfold in_region. tauto.
      + intros x d Hx. apply P5. unfold in_region in Hx. tauto.
      + intros x _. apply P6. }
  apply wp_bind. eapply wp_mono; [exact Hloop|]. intros _ s1 (B1 & I1 & N1 & F1 & K1 & O1).
  eapply wp_mono.
  { apply (IH s1 B1 I1); [by rewrite N1|]. intros x Hx. apply F1. split; [apply Hfree, Hres; by right|].
    intros [He Hx']. by apply (proj2 (proj2 (proj2 (Hok1 He))) x). }
  intros _ s2 (B2 & I2 & N2 & F2 & K2 & O2). exists B2. split_and!.
  - done.
  - congruence.
  - intros x. rewrite F2, F1, Hres. tauto.
  - intros x d Hx. rewrite Hres in Hx. intros Hown. apply K2; [tauto|]. apply K1; [tauto|done].
  - intros e' x He' Hf' Hx. apply elem_of_cons in He' as [->|He']; [|by apply (O2 e')].
    apply K2; [|by apply O1]. by apply (proj2 (proj2 (proj2 (Hok1 Hf')))).
Qed.

(** ** Properties *)

(** C8: for every number of pages from 2 up to the 32-bit index limit,
    power of two or not, [page_allocator_init] succeeds whatever the memory
    it is given contains, and leaves a consistent, coalesced allocator in
    which every page is free and no block is allocated. *)
Theorem page_allocator_init_ok (n pv_va : Z) (fl_mem : Z -> Z) (nd_mem : Z -> page_node)
    (s0 : pa_state) (Hn : 2 <= n < 2 ^ 32) (Hva : pv_va mod 8 = 0) :
  wp (page_allocator_init n pv_va fl_mem nd_mem) (fun _ s => booted n s) s0.
Proof. by apply init_inv. Qed.

Definition pa_zero : pa_state := MkPa 0 0 ∅ ∅.

Lemma page_allocator_init_ok_witness :
  wp (page_allocator_init 11 0x1000 (fun i => 7 * i) (fun i => MkNode i i i page_data_zero))
     (fun _ s => booted 11 s) pa_zero.
Proof. apply page_allocator_init_ok; [lia|reflexivity]. Defined.

(** C7: [page_allocator_update_memregs] takes exactly the pages of the
    regions that are not free: given regions inside of the memory that do
    not overlap and whose pages are free, it never panics, afterwards a page
    is free iff it was and belongs to no such region, every reserved page is
    owned by an allocated block that carries the tag, permanence and device
    flag of its region, and the owners of other pages are unchanged. *)
Theorem update_memregs_ok (l : list early_memreg) (s : pa_state) (B : blocks)
    (Hinv : pa_inv s B) (Hok : regions_ok (N s) l)
    (Hfree : forall x, reserved_page l x -> free_page B x) :
  wp (page_allocator_update_memregs l)
     (fun _ s' => exists B', pa_inv s' B' /\ N s' = N s /\
        (forall x, free_page B' x <-> free_page B x /\ ~ reserved_page l x) /\
        (forall x d, ~ reserved_page l x -> page_owned s B x d -> page_owned s' B' x d) /\
        (forall e x, e ∈ l -> mr_free e = false -> in_region e x ->
           page_owned s' B' x (region_data e))) s.
Proof. by apply update_memregs_spec. Qed.

(** The booted 8-page allocator of the witnesses. *)
Definition boot8 : pa_state :=
  match page_allocator_init 8 0x1000 (fun _ => 0) (fun _ => node_zero) pa_zero with
  | Ok (_, s) => s
  | Err _ => pa_zero
  end.

Lemma boot8_booted : booted 8 boot8.
Proof.
  pose proof (init_inv 8 0x1000 (fun _ => 0) (fun _ => node_zero) pa_zero ltac:(lia) eq_refl) as H.
  unfold wp, boot8 in *.
  destruct (page_allocator_init 8 0x1000 (fun _ => 0) (fun _ => node_zero) pa_zero)
    as [[? s]|e]; done.
Qed.

(** Its single free block. *)
Lemma boot8_inv : pa_inv boot8 {[ 0 := (3, true) ]}.
Proof.
  destruct boot8_booted as (B & (Rp & HT & HC) & HN & HM & _).
  assert (B = {[ 0 := (3, true) ]}) as <-; [|done].
  assert (B !! 0 = Some (3, true)) as H0.
  { apply (rep_free_node boot8 B 0 (MkNode NULL_IDX NULL_IDX 259 page_data_zero) Rp);
      vm_compute; reflexivity. }
  apply map_eq. intros i. destruct (decide (i = 0)) as [->|Hi].
  - by rewrite lookup_singleton_eq.
  - rewrite lookup_singleton_ne by done. destruct (B !! i) as [[o f]|] eqn:E; [exfalso|done].
    destruct (t_block _ _ HT _ _ _ E) as (? & ? & ? & _). rewrite HN in *.
    destruct (t_disjoint _ _ HT _ _ _ _ _ _ H0 E); lia.
Qed.

Lemma boot8_N : N boot8 = 8.
Proof. vm_compute. reflexivity. Qed.

Lemma boot8_mo : MAX_ORDER boot8 = 3.
Proof. vm_compute. reflexivity. Qed.

Definition pd_test : mm_page_data := mm_page_data_new 0xFFFF800000001000 false false.

Lemma page_malloc_ok_witness :
  wp (page_malloc 1 pd_test) (malloc_post boot8 {[ 0 := (3, true) ]} 1 pd_test) boot8.
Proof.
  apply page_malloc_ok; [apply boot8_inv|rewrite boot8_mo; lia|].
  exists 0, 3. split; [lia|reflexivity].
Defined.

(** The same allocator with its only block taken. *)
Definition full8 : pa_state :=
  match page_malloc 3 pd_test boot8 with Ok (_, s) => s | Err _ => pa_zero end.

Lemma full8_inv : pa_inv full8 {[ 0 := (3, false) ]}.
Proof.
  destruct (page_malloc_head boot8 {[ 0 := (3, true) ]} 3 pd_test 0) as (s & E & H & _);
    [apply boot8_inv|vm_compute; reflexivity|reflexivity|].
  unfold full8. rewrite E. by rewrite insert_singleton_eq in H.
Qed.

Lemma full8_mo : MAX_ORDER full8 = 3.
Proof. vm_compute. reflexivity. Qed.

Lemma page_malloc_oom_witness : page_malloc 0 pd_test full8 = Err EPanic.
Proof.
  apply (page_malloc_oom full8 {[ 0 := (3, false) ]} 0 pd_test);
    [apply full8_inv|rewrite full8_mo; lia|].
  intros i k _. destruct (decide (i = 0)) as [->|].
  - rewrite lookup_singleton_eq. congruence.
  - rewrite lookup_singleton_ne by done. congruence.
Defined.

Lemma page_free_ok_witness :
  wp (page_free (0 * PAGE_SIZE))
     (fun _ s' => exists B', pa_inv s' B' /\
        free_step 0 3 {[ 0 := (3, false) ]} B' /\ frame full8 s') full8.
Proof.
  apply (page_free_ok full8 {[ 0 := (3, false) ]} 0 3 pd_test);
    [apply full8_inv|reflexivity|vm_compute; reflexivity|reflexivity|rewrite full8_mo; lia].
Defined.

Lemma page_free_rejects_witness : page_free (5 * PAGE_SIZE) boot8 = Err EPanic.
Proof.
  apply (page_free_rejects boot8 {[ 0 := (3, true) ]} 5 page_data_zero);
    [apply boot8_inv|rewrite boot8_N; lia|vm_compute; reflexivity|].
  right. exists 0, 3. split; [reflexivity|]. unfold in_block. lia.
Defined.

(** A reserved region of three pages from page 2 on, and a free one. *)
Definition regions_test : list early_memreg :=
  [ MkMemreg 0x2000 3 false 0xFFFF800000001000 true false;
    MkMemreg 0x5000 3 true 0xFFFF800000002000 false false ].

Lemma regions_test_reserved x : reserved_page regions_test x -> 2 <= x < 5.
Proof.
  intros (e & He & Hf & Hx). unfold regions_test in He.
  apply elem_of_cons in He as [->|He]; [exact Hx|].
  apply elem_of_cons in He as [->|He]; [done|]. by apply elem_of_nil in He.
Qed.

Lemma update_memregs_ok_witness :
  wp (page_allocator_update_memregs regions_test)
     (fun _ s' => exists B', pa_inv s' B' /\ N s' = N boot8 /\
        (forall x, free_page B' x <->
           free_page {[ 0 := (3, true) ]} x /\ ~ reserved_page regions_test x) /\
        (forall x d, ~ reserved_page regions_test x ->
           page_owned boot8 {[ 0 := (3, true) ]} x d -> page_owned s' B' x d) /\
        (forall e x, e ∈ regions_test -> mr_free e = false -> in_region e x ->
           page_owned s' B' x (region_data e))) boot8.
Proof.
  apply update_memregs_ok; [apply boot8_inv| |].
  - rewrite boot8_N. split; [intros _|split; [intros [=]|done]].
    change (region_first _) with 2. cbn [mr_pages]. split_and!; try lia.
    intros x _ (e & He & Hf & _). apply elem_of_cons in He as [->|He]; [done|].
    by apply elem_of_nil in He.
  - intros x Hx%regions_test_reserved. exists 0, 3. split; [reflexivity|].
    unfold in_block. lia.
Defined.

Lemma malloc_free_roundtrip_witness :
  exists pa s1 s2, page_malloc 1 pd_test boot8 = Ok (pa, s1) /\ page_free pa s1 = Ok (tt, s2) /\ pa_inv s2 {[ 0 := (3, true) ]}.
Proof.
  assert (0 <= 1 <= MAX_ORDER boot8) as Ho by (rewrite boot8_mo; lia).
  assert (exists i k, 1 <= k /\ ({[ 0 := (3, true) ]} : blocks) !! i = Some (k, true)) as Ha by (exists 0, 3; split; [lia|reflexivity]).
  pose proof (malloc_free_roundtrip boot8 _ 1 pd_test boot8_inv Ho Ha eq_refl) as H.
  apply wp_ok in H as (pa & s1 & E1 & H).
  assert (pa = 0) as E0 by (change pa with (match Ok (pa, s1) with Ok (a, _) => a | Err _ => -1 end); rewrite <- E1; vm_compute; reflexivity).
  rewrite E0, boot8_mo in H. apply wp_ok in H as ([] & s2 & E2 & H); [|unfold PAGE_SIZE; lia].
  exists pa, s1, s2. rewrite E0 in E1 |- *. exact (conj E1 (conj E2 H)).
Defined.

(** Three pages: a block of order 1 and one of order 0. *)
Definition boot3 : pa_state :=
  match page_allocator_init 3 0x1000 (fun _ => 0) (fun _ => node_zero) pa_zero with
  | Ok (_, s) => s
  | Err _ => pa_zero
  end.

Definition blocks3 (f : bool) : blocks := <[ 2 := (0, f) ]> {[ 0 := (1, true) ]}.

Lemma boot3_inv : pa_inv boot3 (blocks3 true).
Proof.
  pose proof (init_inv 3 0x1000 (fun _ => 0) (fun _ => node_zero) pa_zero ltac:(lia) eq_refl) as H.
  assert (booted 3 boot3) as (B & (Rp & HT & HC) & HN & HM & _).
  { unfold wp, boot3 in *.
    destruct (page_allocator_init 3 0x1000 (fun _ => 0) (fun _ => node_zero) pa_zero)
      as [[? s]|e]; done. }
  assert (B = blocks3 true) as <-; [|done].
  assert (B !! 0 = Some (1, true)) as H0.
  { apply (rep_free_node boot3 B 0 (MkNode NULL_IDX NULL_IDX 257 page_data_zero) Rp);
      vm_compute; reflexivity. }
  assert (B !! 2 = Some (0, true)) as H2.
  { apply (rep_free_node boot3 B 2 (MkNode NULL_IDX NULL_IDX 256 page_data_zero) Rp);
      vm_compute; reflexivity. }
  unfold blocks3. apply map_eq. intros i. destruct (decide (i = 2)) as [->|Hi2].
  { by rewrite lookup_insert_eq. }
  rewrite lookup_insert_ne by done. destruct (decide (i = 0)) as [->|Hi0].
  { by rewrite lookup_singleton_eq. }
  rewrite lookup_singleton_ne by done. destruct (B !! i) as [[o f]|] eqn:E; [exfalso|done].
  destruct (t_block _ _ HT _ _ _ E) as (? & ? & ? & _). rewrite HN in *.
  destruct (t_disjoint _ _ HT _ _ _ _ _ _ H0 E); [done| |lia].
  destruct (t_disjoint _ _ HT _ _ _ _ _ _ H2 E); [done| |]; lia.
Qed.

Definition taken3 : pa_state :=
  match page_malloc 0 pd_test boot3 with Ok (_, s) => s | Err _ => pa_zero end.

Lemma taken3_inv : pa_inv taken3 (blocks3 false).
Proof.
  destruct (page_malloc_head boot3 (blocks3 true) 0 pd_test 2) as (s & E & H & _);
    [apply boot3_inv|vm_compute; reflexivity|reflexivity|].
  unfold taken3. rewrite E. unfold blocks3 in *. by rewrite insert_insert_eq in H.
Qed.

Lemma page_free_top_faults_witness : page_free (2 * PAGE_SIZE) taken3 = Err EFault.
Proof.
  apply (page_free_top_faults taken3 (blocks3 false) 2 0 pd_test);
    [apply taken3_inv|reflexivity|vm_compute; reflexivity|reflexivity|vm_compute; reflexivity|].
  vm_compute. discriminate.
Defined.

Lemma get_data_depends_on_order_page_witness :
  page_allocator_get_data (2 * PAGE_SIZE) taken3 = Ok (None, taken3).
Proof.
  apply (get_data_depends_on_order_page taken3 (blocks3 false) 2 0 pd_test
           (MkNode NULL_IDX NULL_IDX 257 page_data_zero));
    [apply taken3_inv|reflexivity|vm_compute; reflexivity|vm_compute; reflexivity|].
  vm_compute. discriminate.
Defined.
