(* ===== verification/MmuDc.v ===== *)
(** * MmuDc: translation descriptors

    src/arm/mmu/mmu_dc.h, src/arm/mmu/mmu_types.h, the pure part of
    src/arm/mmu/mmu_tbl_ctrl.h and the page configuration of
    include/arm/mmu.h: 64-bit descriptors as [Z], their field accessors, the
    constructors of table and block descriptors, and the arithmetic of levels
    and indices.  The theorems show that the fields do not disturb each
    other: a block descriptor returns the configuration and the address it
    was built from. *)

From Stdlib Require Import ZArith Lia.
From stdpp Require Import base tactics numbers gmap list.
From S2P Require Import Prelude KMath.

Open Scope Z_scope.

(** ** include/arm/mmu.h and mmu_types.h: data *)

Inductive mmu_granularity : Type :=
  | MMU_GRANULARITY_4KB | MMU_GRANULARITY_16KB | MMU_GRANULARITY_64KB.

(** the value of the enumerator *)
Definition g_bytes (g : mmu_granularity) : Z :=
  match g with
  | MMU_GRANULARITY_4KB => 4 * 1024
  | MMU_GRANULARITY_16KB => 16 * 1024
  | MMU_GRANULARITY_64KB => 64 * 1024
  end.

Inductive mmu_tbl_rng : Type := MMU_LO | MMU_HI.

Inductive mmu_descriptor_type : Type :=
  | MMU_DESCRIPTOR_BLOCK | MMU_DESCRIPTOR_TABLE | MMU_DESCRIPTOR_PAGE.

#[export] Instance mmu_granularity_eq_dec : EqDecision mmu_granularity.
Proof. solve_decision. Defined.
#[export] Instance mmu_tbl_rng_eq_dec : EqDecision mmu_tbl_rng.
Proof. solve_decision. Defined.
#[export] Instance mmu_descriptor_type_eq_dec : EqDecision mmu_descriptor_type.
Proof. solve_decision. Defined.

(** levels 0..3 are the integers 0..3 *)
Definition MMU_TBL_LV0 : Z := 0.
Definition MMU_TBL_LV1 : Z := 1.
Definition MMU_TBL_LV2 : Z := 2.
Definition MMU_TBL_LV3 : Z := 3.

Definition max_level (g : mmu_granularity) : Z :=
  match g with MMU_GRANULARITY_64KB => MMU_TBL_LV2 | _ => MMU_TBL_LV3 end.

(** [mmu_access_permission] and the shareability are their 2-bit values *)
Record mmu_pg_cfg : Type := MkCfg {
  attr_index : Z;
  ap : Z;
  shareability : Z;
  non_secure : bool;
  access_flag : bool;
  pxn : bool;
  uxn : bool;
  sw : Z
}.

#[export] Instance mmu_pg_cfg_eq_dec : EqDecision mmu_pg_cfg.
Proof. solve_decision. Defined.

Definition mmu_pg_cfg_new (attr_index ap shareability : Z)
    (non_secure access_flag pxn uxn : bool) (sw : Z) : mmu_pg_cfg :=
  MkCfg attr_index ap shareability non_secure access_flag pxn uxn sw.

(** The values of [mmu_access_permission] and [mmu_shareability] in use *)
Definition MMU_AP_EL0_NONE_EL1_RW : Z := 0.
Definition MMU_AP_EL0_RW_EL1_RW : Z := 1.
Definition MMU_AP_EL0_RO_EL1_RO : Z := 3.
Definition MMU_SH_NON_SHAREABLE : Z := 0.
Definition MMU_SH_INNER_SHAREABLE : Z := 3.

(** ** mmu_dc.h *)

Definition NULL_PD : Z := 0.

Definition mmu_granularity_shift (g : mmu_granularity) : Z :=
  match g with
  | MMU_GRANULARITY_4KB => 12
  | MMU_GRANULARITY_16KB => 14
  | MMU_GRANULARITY_64KB => 16
  end.

Definition output_address_bit_n_ (g : mmu_granularity) : Z := 48 - mmu_granularity_shift g.

Definition output_address_mask_ (g : mmu_granularity) : Z :=
  let shift := mmu_granularity_shift g in
  let pa_bit_n := 48 - shift in
  wrap64 (Z.shiftl (Z.shiftl 1 pa_bit_n - 1) shift).

Definition MMU_DC_OUTPUT_ADDR_MASK : Z := 0x0000FFFFFFFFF000.

Definition MMU_DC_BITS (width : Z) : Z := Z.shiftl 1 width - 1.
Definition MMU_DC_FIELD_MASK (shift width : Z) : Z := wrap64 (Z.shiftl (MMU_DC_BITS width) shift).

(** the body shared by the getters: [(dc.v >> SHIFT) & BITS(WIDTH)] *)
Definition get_field (shift width v : Z) : Z :=
  Z.land (Z.shiftr v shift) (MMU_DC_BITS width).

(** the two lines shared by the setters:
    [dc->v &= ~FIELD_MASK(SHIFT, WIDTH); dc->v |= x << SHIFT] *)
Definition put_field (shift width x v : Z) : Z :=
  Z.lor (Z.land v (not64 (MMU_DC_FIELD_MASK shift width))) (wrap64 (Z.shiftl x shift)).

Definition dc_get_valid (dc : Z) : bool := negb (get_field 0 1 dc =? 0).

(** fails on the [ASSERT] of the last level *)
Definition dc_get_type (dc : Z) (g : mmu_granularity) (l : Z) : res mmu_descriptor_type :=
  let type_bit := get_field 1 1 dc in
  if l =? max_level g then
    if type_bit =? 1 then Ok MMU_DESCRIPTOR_PAGE else Err EPanic
  else Ok (if type_bit =? 0 then MMU_DESCRIPTOR_BLOCK else MMU_DESCRIPTOR_TABLE).

Definition dc_get_attr_index (dc : Z) : Z := wrap8 (get_field 2 3 dc).
Definition dc_get_non_secure (dc : Z) : bool := negb (get_field 5 1 dc =? 0).
Definition dc_get_access_permissions (dc : Z) : Z := get_field 6 2 dc.
Definition dc_get_shareability (dc : Z) : Z := get_field 8 2 dc.
Definition dc_get_access_flag (dc : Z) : bool := negb (get_field 10 1 dc =? 0).
Definition dc_get_output_address (dc : Z) (g : mmu_granularity) : Z :=
  Z.land dc (output_address_mask_ g).
Definition dc_get_privileged_execute_never (dc : Z) : bool := negb (get_field 53 1 dc =? 0).
Definition dc_get_unprivileged_execute_never (dc : Z) : bool := negb (get_field 54 1 dc =? 0).
Definition dc_get_software_defined (dc : Z) : Z := wrap8 (get_field 55 4 dc).

Definition dc_set_valid (valid : bool) (dc : Z) : Z := put_field 0 1 (Z.b2z valid) dc.

Definition dc_set_type (type : mmu_descriptor_type) (dc : Z) : Z :=
  let type_bit := match type with MMU_DESCRIPTOR_BLOCK => 0 | _ => 1 end in
  put_field 1 1 type_bit dc.

Definition dc_set_attr_index (x dc : Z) : Z := put_field 2 3 (Z.land x (MMU_DC_BITS 3)) dc.
Definition dc_set_non_secure (b : bool) (dc : Z) : Z := put_field 5 1 (Z.b2z b) dc.
Definition dc_set_access_permissions (x dc : Z) : Z := put_field 6 2 x dc.
Definition dc_set_shareability (x dc : Z) : Z := put_field 8 2 (Z.land x (MMU_DC_BITS 2)) dc.
Definition dc_set_access_flag (b : bool) (dc : Z) : Z := put_field 10 1 (Z.b2z b) dc.

Definition dc_set_output_address (output_address dc : Z) : Z :=
  Z.lor (Z.land dc (not64 MMU_DC_OUTPUT_ADDR_MASK)) (Z.land output_address MMU_DC_OUTPUT_ADDR_MASK).

Definition dc_set_privileged_execute_never (b : bool) (dc : Z) : Z := put_field 53 1 (Z.b2z b) dc.
Definition dc_set_unprivileged_execute_never (b : bool) (dc : Z) : Z := put_field 54 1 (Z.b2z b) dc.
Definition dc_set_software_defined (x dc : Z) : Z := put_field 55 4 (Z.land x (MMU_DC_BITS 4)) dc.

(** [physmap_offset] is the field of the mapping, [next] the address of the
    next table *)
Definition td_build (physmap_offset next : Z) : Z :=
  let tbl_pa := wrap64 (next - physmap_offset) in
  let dc := dc_set_type MMU_DESCRIPTOR_TABLE 0 in
  let dc := dc_set_output_address tbl_pa dc in
  dc_set_valid true dc.

Definition bd_build (cfg : mmu_pg_cfg) (output_address : Z) (g : mmu_granularity) (l : Z) : Z :=
  let dc := dc_set_valid true 0 in
  let dc := dc_set_type (if l =? max_level g then MMU_DESCRIPTOR_PAGE else MMU_DESCRIPTOR_BLOCK) dc in
  let dc := dc_set_attr_index (attr_index cfg) dc in
  let dc := dc_set_non_secure (non_secure cfg) dc in
  let dc := dc_set_access_permissions (ap cfg) dc in
  let dc := dc_set_shareability (shareability cfg) dc in
  let dc := dc_set_access_flag (access_flag cfg) dc in
  let dc := dc_set_output_address output_address dc in
  let dc := dc_set_privileged_execute_never (pxn cfg) dc in
  let dc := dc_set_unprivileged_execute_never (uxn cfg) dc in
  dc_set_software_defined (sw cfg) dc.

(** ** mmu_tbl_ctrl.h, pure part *)

Definition cfg_from_dc (dc : Z) : mmu_pg_cfg :=
  {| attr_index := dc_get_attr_index dc;
     ap := dc_get_access_permissions dc;
     shareability := dc_get_shareability dc;
     non_secure := dc_get_non_secure dc;
     access_flag := dc_get_access_flag dc;
     pxn := dc_get_privileged_execute_never dc;
     uxn := dc_get_unprivileged_execute_never dc;
     sw := dc_get_software_defined dc |}.

Definition level_shift_ (g : mmu_granularity) (l : Z) : Z :=
  let page_bits := log2_floor_u64 (g_bytes g) in
  let index_bits := page_bits - 3 in
  page_bits + index_bits * (max_level g - l).

Definition tbl_entries (g : mmu_granularity) : Z := g_bytes g / 8.

Definition table_index (va : Z) (g : mmu_granularity) (l : Z) : Z :=
  let index_bits := log2_floor_u64 (g_bytes g) - 3 in
  let mask := Z.shiftl 1 index_bits - 1 in
  Z.land (Z.shiftr va (level_shift_ g l)) mask.

Definition dc_cover_bytes (g : mmu_granularity) (l : Z) : res Z :=
  let page_bits := log2_floor_u64 (g_bytes g) in
  let index_bits := page_bits - 3 in
  if l <=? max_level g
  then Ok (wrap64 (Z.shiftl 1 (page_bits + index_bits * (max_level g - l))))
  else Err EPanic.

(** ** Fields *)

Lemma dc_bits_ones w : 0 <= w -> MMU_DC_BITS w = Z.ones w.
Proof. intros. unfold MMU_DC_BITS. by rewrite Z.shiftl_1_l, ones_sub. Qed.

Lemma field_mask_bits sh w i :
  0 <= sh -> 0 <= w -> sh + w <= 64 -> 0 <= i ->
  Z.testbit (MMU_DC_FIELD_MASK sh w) i = (sh <=? i) && (i <? sh + w).
Proof.
  intros. unfold MMU_DC_FIELD_MASK. rewrite dc_bits_ones, testbit_wrap, testbit_shiftl' by lia.
  destruct (Z.leb_spec sh i).
  - rewrite testbit_ones' by lia.
    destruct (Z.ltb_spec i 64), (Z.ltb_spec (i - sh) w), (Z.ltb_spec i (sh + w)); done || lia.
  - rewrite Z.testbit_neg_r by lia. by rewrite andb_false_r.
Qed.

Lemma get_field_bits sh w v i :
  0 <= sh -> 0 <= w -> 0 <= i ->
  Z.testbit (get_field sh w v) i = (i <? w) && Z.testbit v (i + sh).
Proof.
  intros. unfold get_field. rewrite dc_bits_ones, Z.land_spec, Z.shiftr_spec, testbit_ones' by lia.
  by rewrite andb_comm.
Qed.

Lemma put_field_bits sh w x v i :
  0 <= sh -> 0 <= w -> sh + w <= 64 -> u_range w x -> is_u64 v -> 0 <= i ->
  Z.testbit (put_field sh w x v) i =
    if (sh <=? i) && (i <? sh + w) then Z.testbit x (i - sh) else Z.testbit v i.
Proof.
  intros Hs Hw H64 Hx Hv Hi. unfold put_field.
  rewrite land_not_w by (done || lia).
  rewrite Z.lor_spec, Z.ldiff_spec, field_mask_bits, testbit_wrap, testbit_shiftl' by lia.
  destruct (Z.leb_spec sh i), (Z.ltb_spec i (sh + w)), (Z.ltb_spec i 64); cbn; try lia;
    rewrite ?andb_true_r, ?andb_false_r, ?orb_false_r, ?orb_false_l; try done.
  - rewrite (testbit_high w x) by (done || lia). by rewrite orb_false_r.
  - rewrite (Z.testbit_neg_r x) by lia. by rewrite orb_false_r.
Qed.

Lemma put_field_u64 sh w x v :
  0 <= sh -> 0 <= w -> sh + w <= 64 -> u_range w x -> is_u64 v -> is_u64 (put_field sh w x v).
Proof.
  intros. apply lor_range; [lia| |by apply wrap_range].
  apply land_range; [lia|done|]. unfold not_w. apply Z.lxor_nonneg.
  split; intros _; [|apply wrap_range; lia]. rewrite ones_sub by lia. lia.
Qed.

Lemma get_put_same sh w x v :
  0 <= sh -> 0 <= w -> sh + w <= 64 -> u_range w x -> is_u64 v ->
  get_field sh w (put_field sh w x v) = x.
Proof.
  intros. apply Z.bits_inj'. intros i Hi.
  rewrite get_field_bits, put_field_bits by (done || lia).
  destruct (Z.ltb_spec i w), (Z.leb_spec sh (i + sh)), (Z.ltb_spec (i + sh) (sh + w)); try lia; cbn.
  - by replace (i + sh - sh) with i by lia.
  - by rewrite (testbit_high w x).
Qed.

Lemma get_put_other sh w sh' w' x v :
  0 <= sh -> 0 <= w -> 0 <= sh' -> 0 <= w' -> sh' + w' <= 64 ->
  sh + w <= sh' \/ sh' + w' <= sh -> u_range w' x -> is_u64 v ->
  get_field sh w (put_field sh' w' x v) = get_field sh w v.
Proof.
  intros. apply Z.bits_inj'. intros i Hi.
  rewrite !get_field_bits, put_field_bits by (done || lia).
  destruct (Z.ltb_spec i w); [cbn|done].
  destruct (Z.leb_spec sh' (i + sh)), (Z.ltb_spec (i + sh) (sh' + w')); done || lia.
Qed.

(** The output address is the field of 36 bits from bit 12 on. *)
Lemma set_output_address_field a v :
  is_u64 v -> dc_set_output_address a v = put_field 12 36 (get_field 12 36 a) v.
Proof.
  intros Hv. unfold dc_set_output_address.
  apply Z.bits_inj'. intros i Hi.
  assert (u_range 36 (get_field 12 36 a)).
  { unfold get_field. rewrite dc_bits_ones, Z.land_ones by lia.
    apply Z.mod_pos_bound. lia. }
  rewrite put_field_bits by (done || lia). rewrite land_not_w by (done || lia).
  change MMU_DC_OUTPUT_ADDR_MASK with (MMU_DC_FIELD_MASK 12 36).
  rewrite Z.lor_spec, Z.ldiff_spec, Z.land_spec, !field_mask_bits by lia.
  destruct (Z.leb_spec 12 i), (Z.ltb_spec i (12 + 36)); cbn;
    rewrite ?andb_false_r, ?andb_true_r, ?orb_false_r; try done.
  rewrite get_field_bits by lia. destruct (Z.ltb_spec (i - 12) 36); [|lia].
  by replace (i - 12 + 12) with i by lia.
Qed.

Lemma get_field_range sh w v : 0 <= w -> u_range w (get_field sh w v).
Proof.
  intros. unfold get_field. rewrite dc_bits_ones, Z.land_ones by lia.
  apply Z.mod_pos_bound. lia.
Qed.

Lemma b2z_range b : u_range 1 (Z.b2z b).
Proof. destruct b; unfold u_range; simpl; lia. Qed.

Lemma land_bits_range w x : 0 <= w -> u_range w (Z.land x (MMU_DC_BITS w)).
Proof. intros. rewrite dc_bits_ones, Z.land_ones by lia. apply Z.mod_pos_bound. lia. Qed.

Lemma land_bits_small w x : 0 <= w -> u_range w x -> Z.land x (MMU_DC_BITS w) = x.
Proof. intros. rewrite dc_bits_ones, Z.land_ones by lia. by apply Z.mod_small. Qed.

(** Fields that fit their width. *)
Definition cfg_ok (cfg : mmu_pg_cfg) : Prop :=
  u_range 3 (attr_index cfg) /\ u_range 2 (ap cfg) /\ u_range 2 (shareability cfg) /\
  u_range 4 (sw cfg).

(** Side conditions of the field lemmas. *)
Create HintDb dcdb.
#[export] Hint Resolve put_field_u64 b2z_range land_bits_range get_field_range : dcdb.
#[export] Hint Extern 5 (_ <= _) => lia : dcdb.
#[export] Hint Extern 5 (u_range _ 0) => (unfold u_range; lia) : dcdb.
#[export] Hint Extern 5 (u_range _ 1) => (unfold u_range; lia) : dcdb.
#[export] Hint Extern 5 (_ \/ _) => lia : dcdb.
Ltac dc_side := solve [eauto 20 with dcdb].

(** Read a field through a chain of [put_field]s. *)
Ltac dc_fields :=
  repeat first
    [ rewrite get_put_same by dc_side
    | rewrite get_put_other by dc_side ].

Definition type_bit (t : mmu_descriptor_type) : Z :=
  match t with MMU_DESCRIPTOR_BLOCK => 0 | _ => 1 end.

Lemma type_bit_range t : u_range 1 (type_bit t).
Proof. destruct t; unfold u_range; simpl; lia. Qed.
#[export] Hint Resolve type_bit_range : dcdb.

(** [bd_build] as one chain of fields. *)
Lemma bd_build_fields cfg a g l :
  cfg_ok cfg ->
  bd_build cfg a g l =
    put_field 55 4 (sw cfg) (put_field 54 1 (Z.b2z (uxn cfg)) (put_field 53 1 (Z.b2z (pxn cfg))
      (put_field 12 36 (get_field 12 36 a) (put_field 10 1 (Z.b2z (access_flag cfg))
        (put_field 8 2 (shareability cfg) (put_field 6 2 (ap cfg)
          (put_field 5 1 (Z.b2z (non_secure cfg)) (put_field 2 3 (attr_index cfg)
            (put_field 1 1 (type_bit (if l =? max_level g then MMU_DESCRIPTOR_PAGE else MMU_DESCRIPTOR_BLOCK))
              (put_field 0 1 1 0)))))))))).
Proof.
  intros (H1 & H2 & H3 & H4). unfold bd_build, dc_set_software_defined, dc_set_unprivileged_execute_never,
    dc_set_privileged_execute_never, dc_set_access_flag, dc_set_shareability, dc_set_access_permissions,
    dc_set_non_secure, dc_set_attr_index, dc_set_valid. cbn zeta.
  rewrite !land_bits_small by (done || lia).
  rewrite set_output_address_field; [done|]. unfold dc_set_type. fold (type_bit (if l =? max_level g then MMU_DESCRIPTOR_PAGE else MMU_DESCRIPTOR_BLOCK)). dc_side.
Qed.

Lemma b2z_negb b : negb (Z.b2z b =? 0) = b.
Proof. by destruct b. Qed.

(** The output address of a descriptor whose address field is that of [a]. *)
Lemma output_address_of v g a :
  is_u64 v -> 0 <= a < 2 ^ 48 -> (g_bytes g | a) -> get_field 12 36 v = get_field 12 36 a ->
  dc_get_output_address v g = a.
Proof.
  intros Hv Ha Hg Hf. unfold dc_get_output_address.
  assert (output_address_mask_ g = MMU_DC_FIELD_MASK (mmu_granularity_shift g) (48 - mmu_granularity_shift g)) as ->
    by by destruct g.
  assert (g_bytes g = 2 ^ mmu_granularity_shift g) as Eg by by destruct g.
  assert (12 <= mmu_granularity_shift g <= 16) as Hs by (destruct g; simpl; lia).
  set (s := mmu_granularity_shift g) in *. rewrite Eg, divide_pow2_bits in Hg by lia.
  apply Z.bits_inj'. intros i Hi. rewrite Z.land_spec, field_mask_bits by lia.
  destruct (Z.leb_spec s i); [|by rewrite andb_false_r, Hg by lia].
  destruct (Z.ltb_spec i (s + (48 - s))); cbn.
  - assert (Z.testbit (get_field 12 36 v) (i - 12) = Z.testbit (get_field 12 36 a) (i - 12)) as E
      by by rewrite Hf.
    rewrite !get_field_bits in E by lia. replace (i - 12 + 12) with i in E by lia.
    destruct (Z.ltb_spec (i - 12) 36); [|lia]. by rewrite andb_true_r.
  - rewrite andb_false_r. symmetry. apply (testbit_high 48); [done|lia].
Qed.

(** Everything the walk reads from a block or page descriptor. *)
Lemma bd_build_spec cfg a g l :
  cfg_ok cfg -> 0 <= a < 2 ^ 48 -> (g_bytes g | a) ->
  let dc := bd_build cfg a g l in
  is_u64 dc /\ dc_get_valid dc = true /\
  dc_get_type dc g l = Ok (if l =? max_level g then MMU_DESCRIPTOR_PAGE else MMU_DESCRIPTOR_BLOCK) /\
  cfg_from_dc dc = cfg /\ dc_get_output_address dc g = a.
Proof.
  intros Hc Ha Hg. cbv zeta. rewrite bd_build_fields by done.
  pose proof Hc as (H1 & H2 & H3 & H4). split_and!.
  - dc_side.
  - unfold dc_get_valid. dc_fields. done.
  - unfold dc_get_type. dc_fields. by destruct (l =? max_level g).
  - unfold cfg_from_dc, dc_get_attr_index, dc_get_access_permissions, dc_get_shareability,
      dc_get_non_secure, dc_get_access_flag, dc_get_privileged_execute_never,
      dc_get_unprivileged_execute_never, dc_get_software_defined.
    dc_fields. rewrite !b2z_negb. rewrite !wrap_small by (unfold u_range in *; lia).
    by destruct cfg.
  - apply output_address_of; [dc_side|done|done|]. by dc_fields.
Qed.

Lemma td_build_spec off next g l :
  0 <= next - off < 2 ^ 48 -> (g_bytes g | next - off) -> l <> max_level g ->
  let dc := td_build off next in
  is_u64 dc /\ dc_get_valid dc = true /\ dc_get_type dc g l = Ok MMU_DESCRIPTOR_TABLE /\
  dc_get_output_address dc g = next - off.
Proof.
  intros Ha Hg Hl. unfold td_build, dc_set_valid, dc_set_type. cbv zeta.
  rewrite wrap_small by (unfold u_range; lia).
  rewrite set_output_address_field by dc_side. split_and!.
  - dc_side.
  - unfold dc_get_valid. dc_fields. done.
  - unfold dc_get_type. dc_fields. by destruct (Z.eqb_spec l (max_level g)).
  - apply output_address_of; [dc_side|done|done|]. by dc_fields.
Qed.
