(* ===== verification/Mmu.v ===== *)
(** * Mmu: translation tables

    src/arm/mmu/mmu_tbl_ctrl.h and src/arm/mmu/mmu.c: mapping, unmapping and
    walking a multi-level translation table.  A table is an array of
    descriptors at its virtual address; the allocator callbacks of a mapping
    are fields of its record, over a private state [A] of their own, and the
    tables they hand out appear zeroed, as mmu.h demands of them.  [info] is
    the optional statistics record.  Barriers and TLB maintenance
    ([MMU_APPLY_CHANGES]) have no state in the model. *)

From Stdlib Require Import ZArith Lia.
From stdpp Require Import base tactics numbers gmap list.
From S2P Require Import Prelude KMath MmuDc.

Open Scope Z_scope.
Open Scope kmonad_scope.

(** ** State *)

Record mmu_op_info : Type := MkInfo {
  iters : Z;
  alocated_tbls : Z;
  freed_tbls : Z
}.

Definition mmu_op_info_new : mmu_op_info := MkInfo 0 0 0.

Section Mmu.
Context {A : Type}.

Record mmu_mapping : Type := MkMapping {
  rng_ : mmu_tbl_rng;
  g_ : mmu_granularity;
  va_addr_bits_ : Z;
  physmap_offset_ : Z;
  tbl_ : Z;
  allocator_ : Z -> A -> res (Z * A);
  allocator_free_ : Z -> A -> res A
}.

Record mmu_state : Type := MkMmu {
  tables : gmap Z (gmap Z Z);
  ast : A;
  info : option mmu_op_info
}.

Implicit Types (m : mmu_mapping).
Abbreviation MM := (M mmu_state).

Definition set_tables (f : gmap Z (gmap Z Z) -> gmap Z (gmap Z Z)) (s : mmu_state) : mmu_state :=
  MkMmu (f (tables s)) (ast s) (info s).
Definition set_ast (a : A) (s : mmu_state) : mmu_state := MkMmu (tables s) a (info s).
Definition set_info (f : mmu_op_info -> mmu_op_info) (s : mmu_state) : mmu_state :=
  MkMmu (tables s) (ast s) (f <$> info s).

(** [tbl.dcs[i]] *)
Definition mmu_tbl_get_dc (tbl i : Z) : MM Z :=
  let* t := gets tables in
  let* e := deref (t !! tbl) in
  deref (e !! i).

(** [tbl.dcs[i] = dc] *)
Definition tbl_put (tbl i dc : Z) : MM unit :=
  let* _ := mmu_tbl_get_dc tbl i in
  modify (set_tables (alter <[i := dc]> tbl)).

(** ** include/arm/mmu.h: mapping accessors *)

Definition NULL_MAPPING_TBL : Z := not64 0.

Definition mmu_mapping_is_valid (m : option mmu_mapping) : bool :=
  match m with
  | None => false
  | Some m => negb (tbl_ m =? NULL_MAPPING_TBL)
  end.

Definition mmu_mapping_set_physmap_offset (off : Z) m : mmu_mapping :=
  MkMapping (rng_ m) (g_ m) (va_addr_bits_ m) off (tbl_ m) (allocator_ m) (allocator_free_ m).

Definition mmu_mapping_set_allocator f m : mmu_mapping :=
  MkMapping (rng_ m) (g_ m) (va_addr_bits_ m) (physmap_offset_ m) (tbl_ m) f (allocator_free_ m).

Definition mmu_mapping_set_allocator_free f m : mmu_mapping :=
  MkMapping (rng_ m) (g_ m) (va_addr_bits_ m) (physmap_offset_ m) (tbl_ m) (allocator_ m) f.

Definition UNSAFE_mmu_mapping_set_tbl_address (addr : Z) m : mmu_mapping :=
  MkMapping (rng_ m) (g_ m) (va_addr_bits_ m) (physmap_offset_ m) addr (allocator_ m) (allocator_free_ m).

(** A call of an allocator callback for [entries] descriptors: the memory it
    returns is a zeroed table. *)
Definition call_allocator (allocator : Z -> A -> res (Z * A)) (bytes : Z) : MM Z :=
  let* a := gets ast in
  let* r := lift (allocator bytes a) in
  let (va, a') := r : Z * A in
  modify (set_ast a') ;;
  modify (set_tables <[va := array (bytes / 8) (fun _ => 0)]>) ;;
  ret va.

Definition mmu_mapping_new (rng : mmu_tbl_rng) (g : mmu_granularity)
    (va_addr_bits physmap_offset : Z) (allocator : option (Z -> A -> res (Z * A)))
    (allocator_free : Z -> A -> res A) : MM mmu_mapping :=
  match allocator with
  | None => panic
  | Some allocator =>
      let* tbl := call_allocator allocator (g_bytes g) in
      ret (MkMapping rng g va_addr_bits physmap_offset tbl allocator allocator_free)
  end.

(** ** mmu_tbl_ctrl.h *)

Definition tbl_from_td m (dc l : Z) : MM Z :=
  let* t := lift (dc_get_type dc (g_ m) l) in
  ASSERT (bool_decide (t = MMU_DESCRIPTOR_TABLE)) ;;
  ret (wrap64 (dc_get_output_address dc (g_ m) + physmap_offset_ m)).

Definition tbl_init_null (tbl : Z) (g : mmu_granularity) : MM unit :=
  mfor (seqZ 0 (tbl_entries g)) (fun i => tbl_put tbl i 0).

Definition alloc_tbl m (init_null : bool) : MM Z :=
  modify (set_info (fun i => MkInfo (iters i) (alocated_tbls i + 1) (freed_tbls i))) ;;
  let* tbl := call_allocator (allocator_ m) (8 * tbl_entries (g_ m)) in
  ASSERT (tbl mod g_bytes (g_ m) =? 0) ;;
  (if init_null then tbl_init_null tbl (g_ m) else ret tt) ;;
  ret tbl.

Definition split_block m (parent index l : Z) : MM Z :=
  let* old := mmu_tbl_get_dc parent index in
  let* new_tbl := alloc_tbl m false in
  let g := g_ m in
  (if dc_get_valid old then
     let cfg := cfg_from_dc old in
     let pa := dc_get_output_address old g in
     let* new_l_bytes := lift (dc_cover_bytes g (l + 1)) in
     let* l_bytes := lift (dc_cover_bytes g l) in
     ASSERT (pa mod l_bytes =? 0) ;;
     mfor (seqZ 0 (tbl_entries g))
       (fun i => tbl_put new_tbl i (bd_build cfg (wrap64 (pa + i * new_l_bytes)) g (l + 1)))
   else tbl_init_null new_tbl g) ;;
  tbl_put parent index (td_build (physmap_offset_ m) new_tbl) ;;
  ret new_tbl.

Fixpoint tbl_is_null_from (tbl : Z) (l : list Z) : MM bool :=
  match l with
  | [] => ret true
  | i :: l =>
      let* dc := mmu_tbl_get_dc tbl i in
      if dc_get_valid dc then ret false else tbl_is_null_from tbl l
  end.

Definition tbl_is_null (tbl : Z) (g : mmu_granularity) : MM bool :=
  tbl_is_null_from tbl (seqZ 0 (tbl_entries g)).

(** [allocator_free_]: the table is gone *)
Definition call_free m (tbl : Z) : MM unit :=
  let* a := gets ast in
  let* a' := lift (allocator_free_ m tbl a) in
  modify (set_ast a') ;;
  modify (set_tables (delete tbl)).

(** [dc_get_valid(tbl.dcs[i]) && dc_get_type(tbl.dcs[i], g, l) == TABLE] *)
Definition is_table_dc (dc : Z) (g : mmu_granularity) (l : Z) : MM bool :=
  if dc_get_valid dc then
    let* t := lift (dc_get_type dc g l) in
    ret (bool_decide (t = MMU_DESCRIPTOR_TABLE))
  else ret false.

(** The recursion goes one level down per call; [fuel] bounds the levels. *)
Fixpoint free_tbl (fuel : nat) m (tbl l : Z) : MM unit :=
  match fuel with
  | O => nofuel
  | S fuel =>
      mfor (seqZ 0 (tbl_entries (g_ m))) (fun i =>
        let* dc := mmu_tbl_get_dc tbl i in
        let* b := is_table_dc dc (g_ m) l in
        if b then
          let* sub := tbl_from_td m dc (l + 1) in
          free_tbl fuel m sub (l + 1)
        else ret tt) ;;
      call_free m tbl ;;
      modify (set_info (fun i => MkInfo (iters i) (alocated_tbls i) (freed_tbls i + 1)))
  end.

Definition FREE_FUEL : nat := 6.

(** ** mmu.c *)

Definition is_in_range m (va size : Z) : bool :=
  if size =? 0 then false
  else
    let VA_BITS := va_addr_bits_ m in
    let SIGN_BIT := VA_BITS - 1 in
    let SIGN_MASK := wrap64 (Z.shiftl 1 SIGN_BIT) in
    let CANON_MASK := not64 (wrap64 (Z.shiftl 1 VA_BITS - 1)) in
    let canonical (x : Z) : bool :=
      let sign := Z.land (Z.shiftr x SIGN_BIT) 1 in
      let upper := Z.land x CANON_MASK in
      if negb (sign =? 0) then upper =? CANON_MASK else upper =? 0 in
    if negb (canonical va) then false
    else
      let end_ := wrap64 (va + size - 1) in
      if end_ <? va then false
      else if negb (canonical end_) then false
      else
        let is_hi := negb (Z.land va SIGN_MASK =? 0) in
        let end_hi := negb (Z.land end_ SIGN_MASK =? 0) in
        if negb (Bool.eqb is_hi end_hi) then false
        else match rng_ m with MMU_LO => negb is_hi | MMU_HI => is_hi end.

(** The [for] loop of [get_target_lvl] from level [l]; the pair
    holds the two outputs, target level and cover. *)
Fixpoint target_loop (fuel : nat) (size : Z) (g : mmu_granularity) (va pa l c : Z) : MM (Z * Z) :=
  match fuel with
  | O => nofuel
  | S fuel =>
      if l <=? max_level g then
        let* c := lift (dc_cover_bytes g l) in
        if (c <=? size) && (va mod c =? 0) && (pa mod c =? 0) then ret (l, c)
        else target_loop fuel size g va pa (l + 1) c
      else ret (l, c)
  end.

Definition get_target_lvl (size : Z) (g : mmu_granularity) (va pa : Z) : MM (Z * Z) :=
  target_loop 4 size g va pa MMU_TBL_LV1 0.

Inductive mmu_map_result : Type :=
  | MMU_MAP_OK | MMU_MAP_NULL_MAPPING | MMU_MAP_MAP_NOT_IN_RANGE.

Definition count_iter : MM unit :=
  modify (set_info (fun i => MkInfo (iters i + 1) (alocated_tbls i) (freed_tbls i))).

(** The inner [for] of [mmu_map]: from the table [tbl] of level [l] to the
    table of level [target_lvl]. *)
Fixpoint map_descend (fuel : nat) m (va tbl l target_lvl : Z) : MM Z :=
  match fuel with
  | O => nofuel
  | S fuel =>
      if l <? target_lvl then
        count_iter ;;
        let i := table_index va (g_ m) l in
        let* descriptor := mmu_tbl_get_dc tbl i in
        if negb (dc_get_valid descriptor) then
          let* next := alloc_tbl m true in
          tbl_put tbl i (td_build (physmap_offset_ m) next) ;;
          map_descend fuel m va next (l + 1) target_lvl
        else
          let* t := lift (dc_get_type descriptor (g_ m) l) in
          match t with
          | MMU_DESCRIPTOR_BLOCK =>
              let* next := split_block m tbl i l in
              map_descend fuel m va next (l + 1) target_lvl
          | MMU_DESCRIPTOR_TABLE =>
              let* next := tbl_from_td m descriptor l in
              map_descend fuel m va next (l + 1) target_lvl
          | MMU_DESCRIPTOR_PAGE => panic
          end
      else ret tbl
  end.

(** one round of [while (size > 0)]; returns [cover] *)
Definition map_round m (va pa size : Z) (cfg : mmu_pg_cfg) : MM Z :=
  let g := g_ m in
  ASSERT ((size mod g_bytes g =? 0) && (va mod g_bytes g =? 0) && (pa mod g_bytes g =? 0)) ;;
  let* lc := get_target_lvl size g va pa in
  let (target_lvl, cover) := lc : Z * Z in
  let* tbl := map_descend 4 m va (tbl_ m) MMU_TBL_LV0 target_lvl in
  let i := table_index va g target_lvl in
  let* old := mmu_tbl_get_dc tbl i in
  tbl_put tbl i (bd_build cfg pa g target_lvl) ;;
  let* b := is_table_dc old g target_lvl in
  (if b then
     let* sub := tbl_from_td m old target_lvl in
     free_tbl FREE_FUEL m sub target_lvl
   else ret tt) ;;
  ret cover.

Fixpoint map_loop (fuel : nat) m (va pa size : Z) (cfg : mmu_pg_cfg) : MM unit :=
  match fuel with
  | O => nofuel
  | S fuel =>
      if 0 <? size then
        let* cover := map_round m va pa size cfg in
        map_loop fuel m (wrap64 (va + cover)) (wrap64 (pa + cover)) (wrap64 (size - cover)) cfg
      else ret tt
  end.

(** [m->g_] is read before [m] is tested; each round maps at least one page *)
Definition mmu_map (m : option mmu_mapping) (va pa size : Z) (cfg : mmu_pg_cfg) : MM mmu_map_result :=
  match m with
  | None => fault
  | Some m =>
      if size =? 0 then ret MMU_MAP_OK
      else if negb (is_in_range m va size) then ret MMU_MAP_MAP_NOT_IN_RANGE
      else
        map_loop (S (Z.to_nat (size / g_bytes (g_ m)))) m va pa size cfg ;;
        ret MMU_MAP_OK
  end.

Inductive mmu_unmap_result : Type := MMU_UNMAP_ERR | MMU_UNMAP_OK.

(** The inner [for] of [mmu_unmap]: the table of level [target_lvl], or
    [inr l] when the descriptor of level [l] is not valid. *)
Fixpoint unmap_descend (fuel : nat) m (va tbl l target_lvl : Z) : MM (Z + Z) :=
  match fuel with
  | O => nofuel
  | S fuel =>
      if l <? target_lvl then
        count_iter ;;
        let i := table_index va (g_ m) l in
        let* dc := mmu_tbl_get_dc tbl i in
        if negb (dc_get_valid dc) then ret (inr l)
        else
          let* t := lift (dc_get_type dc (g_ m) l) in
          match t with
          | MMU_DESCRIPTOR_BLOCK =>
              let* next := split_block m tbl i l in
              unmap_descend fuel m va next (l + 1) target_lvl
          | MMU_DESCRIPTOR_TABLE =>
              let* next := tbl_from_td m dc l in
              unmap_descend fuel m va next (l + 1) target_lvl
          | MMU_DESCRIPTOR_PAGE => panic
          end
      else ret (inl tbl)
  end.

(** one round of [while (size > 0)] after the alignment test; returns the
    bytes it advances *)
Definition unmap_round m (va size : Z) : MM Z :=
  let g := g_ m in
  let* lc := get_target_lvl size g va 0 in
  let (target_lvl, cover) := lc : Z * Z in
  let* r := unmap_descend 4 m va (tbl_ m) MMU_TBL_LV0 target_lvl in
  match r with
  | inr l =>
      let* c := lift (dc_cover_bytes g l) in
      ret (kmin size c)
  | inl tbl =>
      let i := table_index va g target_lvl in
      let* old := mmu_tbl_get_dc tbl i in
      tbl_put tbl i NULL_PD ;;
      let* t := lift (dc_get_type old g target_lvl) in
      (if bool_decide (t = MMU_DESCRIPTOR_TABLE) && dc_get_valid old then
         let* sub := tbl_from_td m old target_lvl in
         free_tbl FREE_FUEL m sub target_lvl
       else ret tt) ;;
      ret cover
  end.

Fixpoint unmap_loop (fuel : nat) m (va size : Z) : MM mmu_unmap_result :=
  match fuel with
  | O => nofuel
  | S fuel =>
      if 0 <? size then
        if negb (size mod g_bytes (g_ m) =? 0) || negb (va mod g_bytes (g_ m) =? 0)
        then ret MMU_UNMAP_ERR
        else
          let* cover := unmap_round m va size in
          unmap_loop fuel m (wrap64 (va + cover)) (wrap64 (size - cover))
      else ret MMU_UNMAP_OK
  end.

Definition mmu_unmap (m : option mmu_mapping) (va size : Z) : MM mmu_unmap_result :=
  match m with
  | None => fault
  | Some m =>
      if size =? 0 then ret MMU_UNMAP_OK
      else unmap_loop (S (Z.to_nat (size / g_bytes (g_ m)))) m va size
  end.

Inductive mmu_walk_result : Type :=
  | MMU_WALK_NULL_MAPPING
  | MMU_WALK_PAGE_UNMAPPED
  | MMU_WALK_PAGE_MAPPED (cfg : mmu_pg_cfg) (pa : Z).

(** the [BLOCK] and [PAGE] cases, which are the same text *)
Definition walk_leaf m (va dc l : Z) : MM mmu_walk_result :=
  let* block_size := lift (dc_cover_bytes (g_ m) l) in
  let block_offset := Z.land va (block_size - 1) in
  ret (MMU_WALK_PAGE_MAPPED (cfg_from_dc dc)
         (wrap64 (dc_get_output_address dc (g_ m) + block_offset))).

Fixpoint walk_loop (fuel : nat) m (va tbl l : Z) : MM mmu_walk_result :=
  match fuel with
  | O => nofuel
  | S fuel =>
      if l <=? max_level (g_ m) then
        let i := table_index va (g_ m) l in
        let* dc := mmu_tbl_get_dc tbl i in
        if negb (dc_get_valid dc) then ret MMU_WALK_PAGE_UNMAPPED
        else
          let* t := lift (dc_get_type dc (g_ m) l) in
          match t with
          | MMU_DESCRIPTOR_TABLE =>
              let* next := tbl_from_td m dc l in
              walk_loop fuel m va next (l + 1)
          | MMU_DESCRIPTOR_BLOCK | MMU_DESCRIPTOR_PAGE => walk_leaf m va dc l
          end
      else panic
  end.

Definition mmu_walk_page (m : option mmu_mapping) (va : Z) : MM mmu_walk_result :=
  match m with
  | None => ret MMU_WALK_NULL_MAPPING
  | Some m => walk_loop 5 m va (tbl_ m) MMU_TBL_LV0
  end.

(** mmu_core.c; [m] becomes [MMU_NULL_MAPPING], whose table is what
    [mmu_mapping_is_valid] tests (its null callbacks are never called and
    are left as they were) *)
Definition mmu_delete_mapping m : MM mmu_mapping :=
  free_tbl FREE_FUEL m (tbl_ m) MMU_TBL_LV0 ;;
  ret (UNSAFE_mmu_mapping_set_tbl_address NULL_MAPPING_TBL m).

End Mmu.

Arguments mmu_mapping : clear implicits.
Arguments mmu_state : clear implicits.
