(* ===== verification/MmuReach.v ===== *)
(** * MmuReach: the tree of translation tables

    [reach T va n] is the table of level [n] that the translation of [va]
    goes through, [key n va] the part of [va] that selects it.  [wf] says
    that the tables form a tree (a table is reached by one key only) of
    well-formed descriptors.  [outcome] is the result of a translation as a
    relation; it is total and [mmu_walk_page] computes it.  The two updates
    the code makes, replacing a descriptor and linking a fresh table, are
    characterised by their effect on [reach] and on the outcomes. *)

From Stdlib Require Import ZArith Lia.
From stdpp Require Import base tactics numbers gmap list.
From S2P Require Import Prelude KMath MmuDc Mmu.

Open Scope Z_scope.
Open Scope kmonad_scope.

(** ** Level arithmetic *)

Section Levels.
Context (g : mmu_granularity).

Definition pbits : Z := mmu_granularity_shift g.
Definition ibits : Z := pbits - 3.
Definition lmax : Z := max_level g.
(** the bits below the index of level [l] *)
Definition sh (l : Z) : Z := pbits + ibits * (lmax - l).
(** all the bits a translation looks at *)
Definition tbits : Z := pbits + ibits * (lmax + 1).

(** the part of [va] that selects the table of level [n] *)
Definition key (n : nat) (va : Z) : Z :=
  (va / 2 ^ (sh (Z.of_nat n) + ibits)) mod 2 ^ (ibits * Z.of_nat n).

Lemma levels_bounds :
  12 <= pbits <= 16 /\ 9 <= ibits <= 13 /\ 2 <= lmax <= 3 /\ g_bytes g = 2 ^ pbits.
Proof.
  unfold ibits, pbits, lmax, max_level, MMU_TBL_LV2, MMU_TBL_LV3.
  destruct g; (split; [cbn; lia|split; [cbn; lia|split; [cbn; lia|reflexivity]]]).
Qed.

Lemma tbits_pos : 0 < 2 ^ tbits.
Proof.
  destruct levels_bounds as (? & ? & ? & _). apply Z.pow_pos_nonneg; [lia|unfold tbits; nia].
Qed.

Lemma log2_g : log2_floor_u64 (g_bytes g) = pbits.
Proof. unfold pbits. by destruct g. Qed.

Lemma sh_bounds l : 0 <= l <= lmax -> 12 <= sh l < 64 /\ 0 <= ibits.
Proof. intros. unfold sh, ibits, pbits, lmax, max_level, MMU_TBL_LV2, MMU_TBL_LV3 in *.
  destruct g; simpl in *; lia. Qed.

Lemma sh_48 l : 0 <= l -> sh l <= 48.
Proof.
  intros. unfold sh, ibits, pbits, lmax, max_level, MMU_TBL_LV2, MMU_TBL_LV3 in *.
  destruct g; simpl in *; lia.
Qed.

Lemma sh_succ l : sh l = sh (l + 1) + ibits.
Proof. unfold sh. lia. Qed.

Lemma level_shift_eq l : level_shift_ g l = sh l.
Proof. unfold level_shift_. rewrite log2_g. done. Qed.

Lemma cover_eq l : 0 <= l <= lmax -> dc_cover_bytes g l = Ok (2 ^ sh l).
Proof.
  intros Hl. unfold dc_cover_bytes. rewrite log2_g. fold lmax.
  destruct (Z.leb_spec l lmax); [|lia]. f_equal. fold ibits. fold (sh l).
  rewrite Z.shiftl_1_l. destruct (sh_bounds l Hl). apply wrap_small, pow2_range. lia.
Qed.

Lemma entries_eq : tbl_entries g = 2 ^ ibits.
Proof. unfold ibits, pbits. by destruct g. Qed.

Lemma index_eq va l : 0 <= l <= lmax -> table_index va g l = (va / 2 ^ sh l) mod 2 ^ ibits.
Proof.
  intros Hl. unfold table_index. rewrite log2_g, level_shift_eq. fold ibits.
  destruct (sh_bounds l Hl). rewrite Z.shiftl_1_l, <- ones_sub, Z.land_ones, Z.shiftr_div_pow2 by lia.
  done.
Qed.

Lemma index_range va l : 0 <= l <= lmax -> 0 <= table_index va g l < tbl_entries g.
Proof.
  intros Hl. rewrite index_eq, entries_eq by done. apply Z.mod_pos_bound.
  destruct levels_bounds as (_ & ? & _). lia.
Qed.

Lemma index_onto i l :
  0 <= l <= lmax -> 0 <= i < tbl_entries g -> table_index (i * 2 ^ sh l) g l = i.
Proof.
  intros Hl Hi. rewrite index_eq by done. rewrite entries_eq in Hi.
  destruct (sh_bounds l Hl). rewrite Z.div_mul by lia. by apply Z.mod_small.
Qed.

Lemma key_0 va : key 0 va = 0.
Proof. unfold key. rewrite Z.mul_0_r. apply Z.mod_1_r. Qed.

Lemma key_S n va :
  Z.of_nat n <= lmax ->
  key (S n) va = key n va * 2 ^ ibits + table_index va g (Z.of_nat n).
Proof.
  intros Hn. rewrite index_eq by lia. unfold key.
  replace (sh (Z.of_nat (S n)) + ibits) with (sh (Z.of_nat n))
    by (rewrite (sh_succ (Z.of_nat n)); f_equal; f_equal; lia).
  destruct (sh_bounds (Z.of_nat n)) as [? ?]; [lia|].
  rewrite Z.pow_add_r, <- Z.div_div by lia.
  set (q := va / 2 ^ sh (Z.of_nat n)).
  replace (ibits * Z.of_nat (S n)) with (ibits + ibits * Z.of_nat n) by lia.
  rewrite Z.pow_add_r by lia. rewrite Z.rem_mul_r by lia. lia.
Qed.

Lemma key_S_inj n va va' :
  Z.of_nat n <= lmax ->
  key (S n) va = key (S n) va' <->
  key n va = key n va' /\ table_index va g (Z.of_nat n) = table_index va' g (Z.of_nat n).
Proof.
  intros Hn. rewrite !key_S by done.
  pose proof (index_range va (Z.of_nat n)). pose proof (index_range va' (Z.of_nat n)).
  rewrite entries_eq in *. split; [|by intros [-> ->]].
  intros E. assert (0 < 2 ^ ibits) by (destruct levels_bounds as (_ & ? & _); lia).
  apply (Z.div_mod_unique (2 ^ ibits)); [left; lia|left; lia|lia].
Qed.

Lemma key_mono n k va va' :
  (k <= n)%nat -> Z.of_nat n <= lmax + 1 -> key n va = key n va' -> key k va = key k va'.
Proof.
  intros Hk. revert va va'. induction Hk as [|n Hk IH]; intros va va' Hn E; [done|].
  apply IH; [lia|]. by apply key_S_inj in E as [? _]; [|lia].
Qed.

(** In one window, the key of the level below [n] is the block of [va]. *)
Lemma key_block n va va' :
  Z.of_nat n <= lmax -> va / 2 ^ tbits = va' / 2 ^ tbits ->
  key (S n) va = key (S n) va' <-> va / 2 ^ sh (Z.of_nat n) = va' / 2 ^ sh (Z.of_nat n).
Proof.
  intros Hn Hw. unfold key.
  replace (sh (Z.of_nat (S n)) + ibits) with (sh (Z.of_nat n))
    by (rewrite (sh_succ (Z.of_nat n)); f_equal; f_equal; lia).
  destruct (sh_bounds (Z.of_nat n)) as [? ?]; [lia|].
  assert (tbits = sh (Z.of_nat n) + ibits * Z.of_nat (S n)) as Et by (unfold tbits, sh; lia).
  rewrite Et in Hw. rewrite Z.pow_add_r, <- !Z.div_div in Hw by lia.
  split; [|by intros ->]. intros E.
  rewrite (Z.div_mod (va / 2 ^ sh (Z.of_nat n)) (2 ^ (ibits * Z.of_nat (S n)))) by lia.
  rewrite (Z.div_mod (va' / 2 ^ sh (Z.of_nat n)) (2 ^ (ibits * Z.of_nat (S n)))) by lia.
  by rewrite E, Hw.
Qed.

End Levels.

(** ** Reached tables *)

Section Reach.
Context {A : Type} (m : mmu_mapping A).
Implicit Types (T : gmap Z (gmap Z Z)).

Abbreviation g := (g_ m).
Abbreviation L := (lmax g).
Abbreviation idx va n := (table_index va g (Z.of_nat n)).

Definition entry T (t i : Z) : option Z := e ← T !! t; e !! i.

(** the table a valid table descriptor points to *)
Definition next_tbl (dc : Z) : Z := wrap64 (dc_get_output_address dc g + physmap_offset_ m).

Definition is_tbl (n : nat) (dc : Z) : bool :=
  dc_get_valid dc && bool_decide (dc_get_type dc g (Z.of_nat n) = Ok MMU_DESCRIPTOR_TABLE).

Fixpoint reach T (va : Z) (n : nat) : option Z :=
  match n with
  | O => Some (tbl_ m)
  | S n =>
      t ← reach T va n;
      dc ← entry T t (idx va n);
      if is_tbl n dc then Some (next_tbl dc) else None
  end.

(** A descriptor the code can meet at level [n]: valid ones of the last level
    are pages, blocks are aligned to what they cover. *)
Definition dc_ok (n : nat) (dc : Z) : Prop :=
  is_u64 dc /\
  (dc_get_valid dc = true ->
     (Z.of_nat n = L -> dc_get_type dc g (Z.of_nat n) = Ok MMU_DESCRIPTOR_PAGE) /\
     (is_tbl n dc = false -> (2 ^ sh g (Z.of_nat n) | dc_get_output_address dc g))).

Record wf T : Prop := {
  wf_tbl va n t : Z.of_nat n <= L -> reach T va n = Some t ->
    exists e, T !! t = Some e /\ forall i, 0 <= i < tbl_entries g -> exists dc, e !! i = Some dc /\ dc_ok n dc;
  wf_inj va n t va' n' : Z.of_nat n <= L -> Z.of_nat n' <= L ->
    reach T va n = Some t -> reach T va' n' = Some t -> n = n' /\ key g n va = key g n va'
}.

(** The translation of [va] ends at level [n] in the descriptor [dc]. *)
Definition ends_at T (va : Z) (n : nat) (dc : Z) : Prop :=
  Z.of_nat n <= L /\ (exists t, reach T va n = Some t /\ entry T t (idx va n) = Some dc) /\
  is_tbl n dc = false.

Definition dc_result (va : Z) (n : nat) (dc : Z) : mmu_walk_result :=
  if dc_get_valid dc
  then MMU_WALK_PAGE_MAPPED (cfg_from_dc dc)
         (wrap64 (dc_get_output_address dc g + va mod 2 ^ sh g (Z.of_nat n)))
  else MMU_WALK_PAGE_UNMAPPED.

Definition outcome T (va : Z) (r : mmu_walk_result) : Prop :=
  exists n dc, ends_at T va n dc /\ r = dc_result va n dc.

Lemma is_tbl_last n dc : Z.of_nat n = L -> is_tbl n dc = false.
Proof.
  intros Hn. unfold is_tbl, dc_get_type. fold (lmax g). rewrite Hn, Z.eqb_refl.
  destruct (dc_get_valid dc), (get_field 1 1 dc =? 1); done.
Qed.

Lemma reach_key T va va' n :
  Z.of_nat n <= L + 1 -> key g n va = key g n va' -> reach T va n = reach T va' n.
Proof.
  induction n as [|n IH]; intros Hn E; [done|]. apply key_S_inj in E as [E1 E2]; [|lia].
  cbn [reach]. rewrite IH by (done || lia). fold g. by rewrite E2.
Qed.

Lemma reach_lt T va n t : reach T va (S n) = Some t -> Z.of_nat n <= L -> Z.of_nat n < L.
Proof.
  intros Hr Hn. destruct (Z.eq_dec (Z.of_nat n) L) as [E|]; [|lia].
  cbn [reach] in Hr. apply bind_Some in Hr as (t0 & _ & Hr).
  apply bind_Some in Hr as (dc & _ & Hr). by rewrite is_tbl_last in Hr.
Qed.

Lemma wf_entry T va n t :
  wf T -> Z.of_nat n <= L -> reach T va n = Some t ->
  exists dc, entry T t (idx va n) = Some dc /\ dc_ok n dc.
Proof.
  intros W Hn Hr. destruct (wf_tbl _ W va n t Hn Hr) as (e & He & Hi).
  destruct (Hi (idx va n)) as (dc & Hdc & Hok); [apply index_range; unfold lmax in *; lia|].
  exists dc. unfold entry. by rewrite He.
Qed.

(** Every translation ends, from any level it reaches. *)
Lemma ends_total T va n t :
  wf T -> Z.of_nat n <= L -> reach T va n = Some t -> exists k dc, (n <= k)%nat /\ ends_at T va k dc.
Proof.
  intros W. remember (Z.to_nat L - n)%nat as d eqn:Ed. revert n t Ed.
  induction d as [|d IH]; intros n t Ed Hn Hr;
    destruct (wf_entry T va n t W Hn Hr) as (dc & Hdc & _).
  - exists n, dc. split; [done|]. split; [done|]. split; [by exists t|].
    apply is_tbl_last. destruct (levels_bounds g) as (_ & _ & ? & _). lia.
  - destruct (is_tbl n dc) eqn:E; [|exists n, dc; split; [done|]; split; [done|]; split; [by exists t|done]].
    assert (reach T va (S n) = Some (next_tbl dc)) as Hr'.
    { cbn [reach]. rewrite Hr. cbn. rewrite Hdc. cbn. by rewrite E. }
    pose proof (reach_lt T va n _ Hr' Hn).
    destruct (IH (S n) (next_tbl dc)) as (k & dc' & Hk & He); [lia|lia|done|].
    exists k, dc'. split; [lia|done].
Qed.

Lemma ends_unique T va n dc n' dc' :
  ends_at T va n dc -> ends_at T va n' dc' -> n = n' /\ dc = dc'.
Proof.
  intros (Hn & (t & Hr & He) & Ht) (Hn' & (t' & Hr' & He') & Ht').
  assert (forall a b d, ends_at T va a d -> (a < b)%nat -> reach T va b = None) as Hstop.
  { intros a b d (_ & (u & Hu & Hd) & Hf) Hab. induction Hab as [|b Hab IH].
    - cbn [reach]. rewrite Hu. cbn. rewrite Hd. cbn. by rewrite Hf.
    - cbn [reach]. by rewrite IH. }
  destruct (Nat.lt_trichotomy n n') as [Hlt|[->|Hlt]].
  - rewrite (Hstop n n' dc) in Hr'; [done| |done]. split; [done|]. split; [by exists t|done].
  - split; [done|]. congruence.
  - rewrite (Hstop n' n dc') in Hr; [done| |done]. split; [done|]. split; [by exists t'|done].
Qed.

Lemma outcome_total T va : wf T -> exists r, outcome T va r.
Proof.
  intros W. destruct (ends_total T va 0 (tbl_ m) W) as (k & dc & _ & He); [|done|].
  - destruct (levels_bounds g) as (_ & _ & ? & _). lia.
  - eexists. by exists k, dc.
Qed.

Lemma outcome_unique T va r r' : outcome T va r -> outcome T va r' -> r = r'.
Proof.
  intros (n & dc & H1 & ->) (n' & dc' & H2 & ->).
  by destruct (ends_unique _ _ _ _ _ _ H1 H2) as [-> ->].
Qed.

(** ** The walk computes the outcome *)

Lemma get_dc_ok (s : mmu_state A) t i dc :
  entry (tables s) t i = Some dc -> mmu_tbl_get_dc t i s = Ok (dc, s).
Proof.
  unfold entry, mmu_tbl_get_dc, bind, gets. intros (e & He & Hi)%bind_Some.
  rewrite He. cbn. by rewrite Hi.
Qed.

(** The type test succeeds on the descriptors of a well-formed table. *)
Lemma dc_type_ok n dc :
  dc_ok n dc -> dc_get_valid dc = true -> Z.of_nat n <= L ->
  dc_get_type dc g (Z.of_nat n) = Ok MMU_DESCRIPTOR_TABLE /\ is_tbl n dc = true \/
  (dc_get_type dc g (Z.of_nat n) = Ok MMU_DESCRIPTOR_BLOCK \/
   dc_get_type dc g (Z.of_nat n) = Ok MMU_DESCRIPTOR_PAGE) /\ is_tbl n dc = false.
Proof.
  intros [_ Hok] Hv Hn. destruct (Hok Hv) as [Hlast _]. unfold is_tbl. rewrite Hv.
  destruct (Z.eq_dec (Z.of_nat n) L) as [E|E].
  - right. rewrite (Hlast E). split; [by right|done].
  - unfold dc_get_type. fold (lmax g). destruct (Z.eqb_spec (Z.of_nat n) L); [done|].
    destruct (get_field 1 1 dc =? 0); [right|left]; split; auto.
Qed.

Lemma walk_leaf_ok (s : mmu_state A) va dc n :
  Z.of_nat n <= L -> dc_get_valid dc = true ->
  walk_leaf m va dc (Z.of_nat n) s = Ok (dc_result va n dc, s).
Proof.
  intros Hn Hv. unfold walk_leaf. rewrite cover_eq by lia. unfold bind, lift, ret, dc_result.
  rewrite Hv. fold g. destruct (sh_bounds g (Z.of_nat n)); [lia|].
  by rewrite <- ones_sub, Z.land_ones by lia.
Qed.

Lemma walk_loop_ok fuel (s : mmu_state A) va n t :
  wf (tables s) -> Z.of_nat n <= L -> reach (tables s) va n = Some t ->
  (Z.to_nat L < fuel + n)%nat ->
  exists k dc, ends_at (tables s) va k dc /\
    walk_loop fuel m va t (Z.of_nat n) s = Ok (dc_result va k dc, s).
Proof.
  intros W. revert n t. induction fuel as [|fuel IH]; intros n t Hn Hr Hf.
  { destruct (levels_bounds g) as (_ & _ & ? & _). lia. }
  destruct (wf_entry _ va n t W Hn Hr) as (dc & Hdc & Hok).
  cbn [walk_loop]. fold g. fold (lmax g). destruct (Z.leb_spec (Z.of_nat n) L); [|lia].
  erewrite bind_ok; [|by apply get_dc_ok].
  destruct (dc_get_valid dc) eqn:Ev; cbn [negb]; cycle 1.
  { exists n, dc. split; [split; [done|]; split; [by exists t|]|].
    - unfold is_tbl. by rewrite Ev.
    - unfold dc_result. by rewrite Ev. }
  destruct (dc_type_ok n dc Hok Ev Hn) as [[Et Ei]|[Et Ei]].
  - erewrite bind_ok; [|unfold lift; by rewrite Et]. cbv beta iota.
    erewrite bind_ok; [|unfold tbl_from_td, bind, lift, ASSERT, ret; fold g; by rewrite Et].
    assert (reach (tables s) va (S n) = Some (next_tbl dc)) as Hr'.
    { cbn [reach]. rewrite Hr. cbn. rewrite Hdc. cbn. by rewrite Ei. }
    pose proof (reach_lt _ va n _ Hr' Hn).
    fold (next_tbl dc). replace (Z.of_nat n + 1) with (Z.of_nat (S n)) by lia.
    apply IH; [lia|done|lia].
  - exists n, dc. split; [split; [done|]; split; [by exists t|done]|].
    destruct Et as [Et|Et]; (erewrite bind_ok; [|unfold lift; by rewrite Et]);
      by apply walk_leaf_ok.
Qed.

Lemma walk_outcome (s : mmu_state A) va r :
  wf (tables s) -> outcome (tables s) va r -> mmu_walk_page (Some m) va s = Ok (r, s).
Proof.
  intros W Ho. unfold mmu_walk_page. destruct (levels_bounds g) as (_ & _ & HL & _).
  destruct (walk_loop_ok 5 s va 0 (tbl_ m)) as (k & dc & He & Hw); [done|lia|done|lia|].
  change MMU_TBL_LV0 with (Z.of_nat 0). rewrite Hw.
  do 2 f_equal. eapply outcome_unique; [|done]. by exists k, dc.
Qed.

(** ** Replacing a descriptor that is not a table *)

Definition put_entry T (t i dc : Z) : gmap Z (gmap Z Z) := alter <[i := dc]> t T.

Lemma entry_put T t i dc t' i' :
  entry T t i <> None ->
  entry (put_entry T t i dc) t' i' = if decide (t' = t /\ i' = i) then Some dc else entry T t' i'.
Proof.
  unfold entry, put_entry. intros Hn. destruct (decide (t' = t)) as [->|Ht].
  - rewrite lookup_alter_eq. destruct (T !! t) as [e|]; [|done]. cbn in *.
    destruct (decide (i' = i)) as [->|].
    + rewrite lookup_insert_eq. by rewrite decide_True.
    + rewrite lookup_insert_ne by done. by rewrite decide_False by tauto.
  - rewrite lookup_alter_ne by done. by rewrite decide_False by tauto.
Qed.

Section Put.
Context (T : gmap Z (gmap Z Z)) (va : Z) (n : nat) (t old dc : Z).
Hypothesis (W : wf T).
Hypothesis (Hn : Z.of_nat n <= L).
Hypothesis (Hr : reach T va n = Some t).
Hypothesis (Hold : entry T t (idx va n) = Some old).
Hypothesis (Hot : is_tbl n old = false).
Hypothesis (Hdt : is_tbl n dc = false).
Hypothesis (Hok : dc_ok n dc).

Let T' := put_entry T t (idx va n) dc.

(** The entry [i] of the table [va'] reaches at level [k] is the written one
    exactly for the addresses that share the key of [va] one level down. *)
Lemma put_hit va' k t' :
  Z.of_nat k <= L -> reach T va' k = Some t' ->
  (t' = t /\ idx va' k = idx va n) <-> (k = n /\ key g (S n) va' = key g (S n) va).
Proof.
  intros Hk Hr'. split.
  - intros [-> Hi]. destruct (wf_inj _ W _ _ _ _ _ Hk Hn Hr' Hr) as [-> HK].
    split; [done|]. apply key_S_inj; done.
  - intros [-> HK]. apply key_S_inj in HK as [HK Hi]; [|done].
    rewrite (reach_key T va' va n) in Hr' by (done || lia). split; [congruence|done].
Qed.

Lemma put_reach va' k : Z.of_nat k <= L + 1 -> reach T' va' k = reach T va' k.
Proof.
  induction k as [|k IH]; intros Hk; [done|]. cbn [reach]. rewrite IH by lia.
  destruct (reach T va' k) as [t'|] eqn:Hr'; [cbn|done].
  unfold T'. rewrite entry_put by congruence. case_decide as Hd; [|done].
  destruct Hd as [-> Hi]. destruct (wf_inj _ W va' k t va n) as [-> _]; [lia|done..|].
  rewrite Hi, Hold. cbn. by rewrite Hdt, Hot.
Qed.

Lemma put_wf : wf T'.
Proof.
  split.
  - intros va' k t' Hk. rewrite put_reach by lia. intros Hr'.
    destruct (wf_tbl _ W va' k t' Hk Hr') as (e & He & Hi).
    unfold T', put_entry. destruct (decide (t' = t)) as [->|Ht].
    + rewrite lookup_alter_eq, He. cbn. eexists. split; [done|]. intros i Hir.
      destruct (Hi i Hir) as (d & Hd & Hdok). destruct (decide (i = idx va n)) as [->|].
      * exists dc. rewrite lookup_insert_eq. split; [done|].
        by destruct (wf_inj _ W va' k t va n) as [-> _].
      * exists d. by rewrite lookup_insert_ne.
    + rewrite lookup_alter_ne by done. eauto.
  - intros va1 k1 t1 va2 k2 H1 H2. rewrite !put_reach by lia. by apply W.
Qed.

Lemma put_outcome_other va' r :
  key g (S n) va' <> key g (S n) va -> outcome T va' r -> outcome T' va' r.
Proof.
  intros HK (k & d & (Hk & (t' & Hr' & He) & Hd) & ->). exists k, d. split; [|done].
  split; [done|]. split; [|done]. exists t'. rewrite put_reach by lia. split; [done|].
  unfold T'. rewrite entry_put by congruence. rewrite decide_False; [done|].
  intros Hh. by apply (put_hit va' k t' Hk Hr') in Hh as [_ ?].
Qed.

Lemma put_outcome_same va' :
  key g (S n) va' = key g (S n) va -> outcome T' va' (dc_result va' n dc).
Proof.
  intros HK. exists n, dc. split; [|done]. split; [done|]. split; [|done].
  exists t. apply key_S_inj in HK as [HK Hi]; [|done].
  rewrite put_reach by lia. rewrite (reach_key T va' va) by (done || lia).
  split; [done|]. unfold T'. rewrite entry_put by congruence.
  rewrite decide_True; done.
Qed.

End Put.

(** ** Linking a fresh table *)

Section Link.
Context (T : gmap Z (gmap Z Z)) (va : Z) (n : nat) (t old nt : Z) (e : gmap Z Z) (dc : Z).
Hypothesis (W : wf T).
Hypothesis (Hn : Z.of_nat n < L).
Hypothesis (Hr : reach T va n = Some t).
Hypothesis (Hold : entry T t (idx va n) = Some old).
Hypothesis (Hot : is_tbl n old = false).
Hypothesis (Hfresh : T !! nt = None).
Hypothesis (Hdc : is_tbl n dc = true).
Hypothesis (Hdcok : dc_ok n dc).
Hypothesis (Hnext : next_tbl dc = nt).
Hypothesis (He : forall i, 0 <= i < tbl_entries g ->
  exists d, e !! i = Some d /\ dc_ok (S n) d /\ is_tbl (S n) d = false).

Let T' := put_entry (<[nt := e]> T) t (idx va n) dc.

Lemma link_reached_old va' k t' : Z.of_nat k <= L -> reach T va' k = Some t' -> t' <> nt.
Proof.
  intros Hk Hr' ->. destruct (wf_tbl _ W va' k nt Hk Hr') as (e' & He' & _). congruence.
Qed.

Lemma link_entry t' i :
  entry T' t' i =
    if decide (t' = t /\ i = idx va n) then Some dc
    else if decide (t' = nt) then e !! i else entry T t' i.
Proof.
  assert (t <> nt) as Htn by (eapply link_reached_old; [|done]; lia).
  unfold T'. rewrite entry_put.
  - case_decide; [done|]. unfold entry. case_decide as Ht.
    + subst. by rewrite lookup_insert_eq.
    + by rewrite lookup_insert_ne.
  - unfold entry. rewrite lookup_insert_ne by done. unfold entry in Hold. congruence.
Qed.

(** New reached tables lie on the path of [va]. *)
Lemma link_reach va' k :
  Z.of_nat k <= L + 1 ->
  reach T' va' k =
    if decide (k = S n /\ key g (S n) va' = key g (S n) va) then Some nt else reach T va' k.
Proof.
  induction k as [|k IH]; intros Hk.
  { by rewrite decide_False by lia. }
  cbn [reach]. rewrite IH by lia. clear IH. case_decide as Hd.
  - (* one level below the new table: its entries are not tables *)
    destruct Hd as [-> HK]. cbn. rewrite link_entry.
    assert (nt <> t) as Htn by (apply not_eq_sym; eapply link_reached_old; [|done]; lia).
    rewrite decide_False by tauto. rewrite decide_True by done.
    destruct (He (idx va' (S n))) as (d & Hd & _ & Hdt); [apply index_range; unfold lmax in *; lia|].
    rewrite Hd. cbn. rewrite Hdt. rewrite decide_False by lia.
    apply key_S_inj in HK as [HK Hi]; [|lia].
    rewrite (reach_key T va' va n) by (done || lia). rewrite Hr. cbn.
    rewrite Hi, Hold. cbn. by rewrite Hot.
  - destruct (reach T va' k) as [t'|] eqn:Hr'; cbn; cycle 1.
    { destruct (decide _) as [[Hk1 HK]|]; [exfalso|done]. injection Hk1 as ->.
      apply key_S_inj in HK as [HK _]; [|lia].
      rewrite (reach_key T va' va n) in Hr' by (done || lia). congruence. }
    assert (t' <> nt) as Ht' by (eapply link_reached_old; [|done]; lia).
    rewrite link_entry.
    destruct (decide (t' = t /\ idx va' k = idx va n)) as [Hh|Hh].
    + apply (put_hit T va n t W ltac:(lia) Hr va' k t' ltac:(lia) Hr') in Hh as [-> HK].
      cbn. rewrite Hdc, Hnext. by rewrite decide_True.
    + rewrite (decide_False (P := t' = nt)) by done. rewrite decide_False; [done|].
      intros [Hk1 HK]. apply Hh, (put_hit T va n t W ltac:(lia) Hr va' k t' ltac:(lia) Hr').
      split; [lia|done].
Qed.

Lemma link_wf : wf T'.
Proof.
  assert (t <> nt) as Htn by (eapply link_reached_old; [|done]; lia).
  split.
  - intros va' k t' Hk. rewrite link_reach by lia. case_decide as Hd.
    + intros [= <-]. destruct Hd as [-> _]. exists e. split.
      * unfold T', put_entry. rewrite lookup_alter_ne by done. by rewrite lookup_insert_eq.
      * intros i Hi. destruct (He i Hi) as (d & ? & ? & _). eauto.
    + intros Hr'. assert (t' <> nt) by (eapply link_reached_old; done).
      destruct (wf_tbl _ W va' k t' Hk Hr') as (e' & He' & Hi).
      unfold T', put_entry. destruct (decide (t' = t)) as [->|Ht].
      * rewrite lookup_alter_eq, lookup_insert_ne, He' by done. cbn. eexists. split; [done|].
        intros i Hir. destruct (Hi i Hir) as (d & Hd' & Hdok).
        destruct (decide (i = idx va n)) as [->|].
        -- exists dc. rewrite lookup_insert_eq. split; [done|].
           by destruct (wf_inj _ W va' k t va n) as [-> _]; [lia|lia|done|done|].
        -- exists d. by rewrite lookup_insert_ne.
      * rewrite lookup_alter_ne, lookup_insert_ne by done. eauto.
  - intros va1 k1 t1 va2 k2 H1 H2. rewrite !link_reach by lia.
    repeat case_decide.
    + intros _ _. destruct_and?. subst. split; [done|congruence].
    + intros [= E] Hr2. by eapply link_reached_old in Hr2; [|done].
    + intros Hr1 [= E]. by eapply link_reached_old in Hr1; [|done].
    + by apply W.
Qed.

(** Translations outside of the new table do not change; inside, they do not
    if the entries of the new table translate as the old descriptor did. *)
Lemma link_outcome va' r :
  (forall x d, key g (S n) x = key g (S n) va -> e !! idx x (S n) = Some d ->
     dc_result x (S n) d = dc_result x n old) ->
  outcome T va' r -> outcome T' va' r.
Proof.
  intros Hsame (k & d & (Hk & (t' & Hr' & Hd) & Hdt) & ->).
  assert (t' <> nt) as Ht' by (eapply link_reached_old; done).
  destruct (decide (k = n /\ key g (S n) va' = key g (S n) va)) as [[-> HK]|Hd'].
  - apply key_S_inj in HK as HK'; [|lia]. destruct HK' as [HK' Hi].
    assert (t' = t) as -> by (rewrite (reach_key T va' va n) in Hr' by (done || lia); congruence).
    assert (d = old) as -> by (rewrite Hi in Hd; congruence).
    destruct (He (idx va' (S n))) as (d' & Hd' & _ & Hdt'); [apply index_range; unfold lmax in *; lia|].
    exists (S n), d'. split; [|by rewrite (Hsame va' d')].
    split; [lia|]. split; [|done]. exists nt. rewrite link_reach by lia.
    rewrite decide_True by done. split; [done|]. rewrite link_entry.
    assert (t <> nt) by (eapply link_reached_old; [|done]; lia).
    rewrite decide_False by (intros [? _]; congruence). by rewrite decide_True.
  - exists k, d. split; [|done]. split; [done|]. split; [|done]. exists t'.
    rewrite link_reach by lia. rewrite decide_False; cycle 1.
    { intros [-> HK]. apply key_S_inj in HK as [HK Hi]; [|lia].
      rewrite <- (reach_key T va va' (S n)) in Hr'; [|lia|by apply key_S_inj; [lia|]].
      cbn [reach] in Hr'. rewrite Hr in Hr'. cbn in Hr'. rewrite Hold in Hr'. cbn in Hr'.
      by rewrite Hot in Hr'. }
    split; [done|]. rewrite link_entry. rewrite decide_False; [by rewrite decide_False|].
    intros Hh. apply Hd'. by apply (put_hit T va n t W ltac:(lia) Hr va' k t' Hk Hr').
Qed.

End Link.

End Reach.
