(* ===== verification/MmuSpec.v ===== *)
(** * MmuSpec: mapping a range

    [mmu_map] on a tree of tables, with the table allocator behind the
    interface [TableAllocator]: it hands out aligned, fresh, zeroed tables
    from a finite budget.  The main theorem says that after a successful
    [mmu_map] every address of the range translates to its image with the
    requested configuration and that no other translation has changed. *)

From Stdlib Require Import ZArith Lia.
From stdpp Require Import base tactics numbers gmap list.
From S2P Require Import Prelude KMath MmuDc Mmu MmuReach.

Open Scope Z_scope.
Open Scope kmonad_scope.

(** ** The allocator interface (include/arm/mmu.h, mmu_allocator) *)

(** An address the allocator may return: granule aligned, and its physical
    image behind the physmap offset fits a descriptor. *)
Definition table_addr {A} (m : mmu_mapping A) (va : Z) : Prop :=
  is_u64 va /\ va mod g_bytes (g_ m) = 0 /\
  0 <= va - physmap_offset_ m < 2 ^ 48 /\ (g_bytes (g_ m) | va - physmap_offset_ m).

(** [Inv a live k]: in state [a] the tables [live] are handed out and at
    least [k] more can be. *)
Class TableAllocator {A} (m : mmu_mapping A) (Inv : A -> gset Z -> nat -> Prop) : Prop := {
  ta_alloc a live k : Inv a live (S k) ->
    exists va a', allocator_ m (g_bytes (g_ m)) a = Ok (va, a') /\ va ∉ live /\
      table_addr m va /\ Inv a' ({[va]} ∪ live) k
}.

Section Map.
Context {A : Type} (m : mmu_mapping A) (Inv : A -> gset Z -> nat -> Prop).
Context `{TA : !TableAllocator m Inv}.

Abbreviation g := (g_ m).
Abbreviation L := (lmax g).
Abbreviation idx va n := (table_index va g (Z.of_nat n)).

(** ** Filling a table *)

Lemma tbl_put_wp t i dc old (s : mmu_state A) (Q : unit -> mmu_state A -> Prop) :
  entry (tables s) t i = Some old ->
  Q tt (MkMmu (put_entry (tables s) t i dc) (ast s) (info s)) ->
  wp (tbl_put t i dc) Q s.
Proof.
  intros He HQ. unfold tbl_put. apply wp_bind. unfold wp at 1.
  rewrite (get_dc_ok _ _ _ _ He). apply wp_modify. exact HQ.
Qed.

(** A loop that writes [f i] into every entry of the table [nt]. *)
Lemma fill_table n nt e f (s : mmu_state A) :
  tables s !! nt = Some e -> (forall i, 0 <= i < n -> is_Some (e !! i)) ->
  wp (mfor (seqZ 0 n) (fun i => tbl_put nt i (f i)))
     (fun _ s' => exists e', tables s' = <[nt := e']> (tables s) /\ ast s' = ast s /\
        forall i, 0 <= i < n -> e' !! i = Some (f i)) s.
Proof.
  intros Hnt Hdom. eapply wp_mono.
  { apply (wp_mfor _ _ (fun done s' => exists e', tables s' = <[nt := e']> (tables s) /\
      ast s' = ast s /\ (forall i, i ∈ done -> e' !! i = Some (f i)) /\
      (forall i, 0 <= i < n -> is_Some (e' !! i)))).
    - exists e. rewrite insert_id by done. split_and!; [done..|set_solver|done].
    - intros d x rest s1 Hl (e1 & HT & Ha & Hd & Hs).
      assert (0 <= x < n) as Hx.
      { assert (x ∈ seqZ 0 n) as Hin by (rewrite Hl; set_solver).
        apply elem_of_seqZ in Hin. lia. }
      destruct (Hs x Hx) as [v Hv].
      eapply tbl_put_wp; [unfold entry; rewrite HT, lookup_insert_eq; exact Hv|].
      exists (<[x := f x]> e1). cbn. unfold put_entry. split_and!; [|done|..].
      + rewrite HT. apply map_eq. intros t. destruct (decide (t = nt)) as [->|].
        * by rewrite lookup_alter_eq, !lookup_insert_eq.
        * by rewrite lookup_alter_ne, !lookup_insert_ne.
      + intros i [Hi|Hi%list_elem_of_singleton]%elem_of_app.
        * destruct (decide (i = x)) as [->|]; [by rewrite lookup_insert_eq|].
          rewrite lookup_insert_ne by done. auto.
        * subst. by rewrite lookup_insert_eq.
      + intros i Hi. destruct (decide (i = x)) as [->|]; [by rewrite lookup_insert_eq|].
        rewrite lookup_insert_ne by done. auto. }
  cbn beta. intros _ s' (e' & HT & Ha & Hd & _). exists e'. split_and!; [done..|].
  intros i Hi. apply Hd, elem_of_seqZ. lia.
Qed.

(** ** Allocating a table *)

Lemma g_entries : 8 * tbl_entries g = g_bytes g.
Proof. unfold tbl_entries. destruct g; reflexivity. Qed.

Lemma alloc_tbl_spec b (s : mmu_state A) k :
  Inv (ast s) (dom (tables s)) (S k) ->
  wp (alloc_tbl m b)
     (fun nt s' => exists e, tables s' = <[nt := e]> (tables s) /\ tables s !! nt = None /\
        table_addr m nt /\ Inv (ast s') (dom (tables s')) k /\
        forall i, 0 <= i < tbl_entries g -> e !! i = Some 0) s.
Proof.
  intros HI. destruct (ta_alloc _ _ _ HI) as (va & a' & Hal & Hfresh & Haddr & HI').
  apply not_elem_of_dom in Hfresh.
  unfold alloc_tbl. rewrite g_entries. apply wp_bind, wp_modify.
  apply wp_bind. unfold call_allocator. apply wp_bind, wp_gets. cbn [ast set_info].
  apply wp_bind. eapply wp_lift; [exact Hal|]. cbv beta iota.
  apply wp_bind, wp_modify. apply wp_bind, wp_modify. apply wp_ret.
  apply wp_bind, wp_ASSERT; [apply Z.eqb_eq, Haddr|].
  assert (g_bytes g / 8 = tbl_entries g) as -> by done.
  set (e0 := array (tbl_entries g) (fun _ => 0)).
  assert (forall i, 0 <= i < tbl_entries g -> e0 !! i = Some 0) as He0.
  { intros i Hi. unfold e0. rewrite array_lookup. by rewrite decide_True. }
  assert (dom (<[va := e0]> (tables s)) = {[va]} ∪ dom (tables s)) as Hdom
    by apply dom_insert_L.
  apply wp_bind. destruct b.
  - eapply wp_mono.
    { apply (fill_table _ va e0 (fun _ => 0)); [apply lookup_insert_eq|].
      intros i Hi. rewrite He0 by done. eauto. }
    cbn [tables ast set_tables set_ast set_info]. intros _ s' (e' & HT & Ha & He'). apply wp_ret. rewrite insert_insert_eq in HT.
    exists e'. rewrite HT, Ha. rewrite dom_insert_L in *. split_and!; try done.
  - apply wp_ret, wp_ret. cbn [tables ast set_tables set_ast set_info]. exists e0. rewrite Hdom. split_and!; done.
Qed.

(** ** Descriptors the code writes *)

Lemma cfg_from_dc_ok dc : cfg_ok (cfg_from_dc dc).
Proof.
  unfold cfg_ok, cfg_from_dc, dc_get_attr_index, dc_get_access_permissions,
    dc_get_shareability, dc_get_software_defined. cbn.
  pose proof (get_field_range 2 3 dc ltac:(lia)). pose proof (get_field_range 55 4 dc ltac:(lia)).
  pose proof (get_field_range 6 2 dc ltac:(lia)). pose proof (get_field_range 8 2 dc ltac:(lia)).
  unfold u_range in *. rewrite !wrap_small by (unfold u_range; lia). lia.
Qed.

Lemma zero_dc n : dc_ok m n 0 /\ is_tbl m n 0 = false.
Proof. split; [|done]. split; [unfold u_range; lia|done]. Qed.

Lemma output_address_bound dc : is_u64 dc -> 0 <= dc_get_output_address dc g < 2 ^ 48.
Proof.
  intros Hu. unfold dc_get_output_address.
  assert (output_address_mask_ g = MMU_DC_FIELD_MASK (mmu_granularity_shift g) (48 - mmu_granularity_shift g)) as ->
    by by destruct g.
  assert (12 <= mmu_granularity_shift g <= 16) as Hs by (destruct g; simpl; lia).
  apply range_of_bits; [lia| |].
  - apply Z.land_nonneg. left. apply Hu.
  - intros i Hi. rewrite Z.land_spec, field_mask_bits by lia.
    destruct (Z.ltb_spec i (mmu_granularity_shift g + (48 - mmu_granularity_shift g))); [lia|].
    by rewrite !andb_false_r.
Qed.

Lemma bd_dc cfg a n :
  cfg_ok cfg -> 0 <= a < 2 ^ 48 -> (2 ^ sh g (Z.of_nat n) | a) -> Z.of_nat n <= L ->
  let dc := bd_build cfg a g (Z.of_nat n) in
  dc_ok m n dc /\ is_tbl m n dc = false /\
  forall x, dc_result m x n dc = MMU_WALK_PAGE_MAPPED cfg (wrap64 (a + x mod 2 ^ sh g (Z.of_nat n))).
Proof.
  intros Hc Ha Hd Hn. destruct (levels_bounds g) as (Hp & Hib & HL & Hg).
  assert ((g_bytes g | a)) as Hga.
  { rewrite Hg. eapply Z.divide_trans; [|exact Hd]. exists (2 ^ (sh g (Z.of_nat n) - pbits g)).
    rewrite <- Z.pow_add_r by (unfold sh; nia). f_equal. lia. }
  destruct (bd_build_spec cfg a g (Z.of_nat n)) as (Hu & Hv & Ht & Hcfg & Hout); [done..|].
  cbv zeta. set (dc := bd_build cfg a g (Z.of_nat n)) in *. split_and!.
  - split; [done|]. intros _. split.
    + intros E. rewrite Ht. fold (lmax g). by rewrite E, Z.eqb_refl.
    + by rewrite Hout.
  - unfold is_tbl. rewrite Hv, Ht. by destruct (Z.of_nat n =? max_level g).
  - intros x. unfold dc_result. by rewrite Hv, Hcfg, Hout.
Qed.

Lemma td_dc nt n :
  table_addr m nt -> Z.of_nat n < L ->
  let dc := td_build (physmap_offset_ m) nt in
  dc_ok m n dc /\ is_tbl m n dc = true /\ next_tbl m dc = nt.
Proof.
  intros (Hu & Hal & Hb & Hg) Hn. cbv zeta.
  destruct (td_build_spec (physmap_offset_ m) nt g (Z.of_nat n)) as (Hd & Hv & Ht & Hout);
    [done|done|unfold lmax in *; lia|].
  assert (is_tbl m n (td_build (physmap_offset_ m) nt) = true) as Hi
    by (unfold is_tbl; by rewrite Hv, Ht).
  split_and!; [|done|].
  - split; [done|]. intros _. split; [lia|]. intros Hf. congruence.
  - unfold next_tbl. rewrite Hout. rewrite Z.sub_add. by apply wrap_small.
Qed.

(** The pieces of a split block translate as the block did. *)
Lemma split_piece old n x :
  dc_ok m n old -> dc_get_valid old = true -> is_tbl m n old = false -> Z.of_nat n < L ->
  let pa := dc_get_output_address old g in
  let c := 2 ^ sh g (Z.of_nat (S n)) in
  let a := wrap64 (pa + idx x (S n) * c) in
  let d := bd_build (cfg_from_dc old) a g (Z.of_nat (S n)) in
  dc_ok m (S n) d /\ is_tbl m (S n) d = false /\ dc_result m x (S n) d = dc_result m x n old.
Proof.
  intros [Hu Hok] Hv Ht Hn. destruct (Hok Hv) as [_ Hal]. specialize (Hal Ht). cbv zeta.
  destruct (levels_bounds g) as (Hp & Hib & HL & Hg).
  pose proof (output_address_bound old Hu) as Hb.
  set (pa := dc_get_output_address old g) in *.
  assert (sh g (Z.of_nat n) = sh g (Z.of_nat (S n)) + ibits g) as Es
    by (rewrite sh_succ; do 2 f_equal; lia).
  destruct (sh_bounds g (Z.of_nat (S n))) as [Hs _]; [lia|].
  pose proof (sh_48 g (Z.of_nat n) ltac:(lia)) as H48.
  assert (2 ^ sh g (Z.of_nat n) = 2 ^ sh g (Z.of_nat (S n)) * 2 ^ ibits g) as Ep
    by (rewrite Es, Z.pow_add_r; lia).
  pose proof (index_range g x (Z.of_nat (S n)) ltac:(lia)) as Hi. rewrite entries_eq in Hi.
  assert (pa + 2 ^ sh g (Z.of_nat n) <= 2 ^ 48) as Hend.
  { destruct Hal as [q Hq]. assert (2 ^ 48 = 2 ^ (48 - sh g (Z.of_nat n)) * 2 ^ sh g (Z.of_nat n)) as E48
      by (rewrite <- Z.pow_add_r by lia; f_equal; lia).
    assert (0 < 2 ^ sh g (Z.of_nat n)) by lia. rewrite Hq, E48 in *.
    destruct Hb as [_ Hb]. apply Z.mul_lt_mono_pos_r in Hb; [|done]. nia. }
  set (c := 2 ^ sh g (Z.of_nat (S n))) in *. assert (0 < c) by (unfold c; lia).
  assert (pa + (idx x (S n) + 1) * c <= pa + 2 ^ sh g (Z.of_nat n)) as Hle by (rewrite Ep; nia).
  assert (0 <= idx x (S n) * c) by nia.
  rewrite (wrap_small 64 (pa + idx x (S n) * c)) by (unfold u_range; lia).
  destruct (bd_dc (cfg_from_dc old) (pa + idx x (S n) * c) (S n)) as (H1 & H2 & H3).
  - apply cfg_from_dc_ok.
  - lia.
  - apply Z.divide_add_r; [|apply Z.divide_factor_r].
    eapply Z.divide_trans; [|exact Hal]. rewrite Ep. apply Z.divide_factor_l.
  - lia.
  - split; [done|]. split; [done|]. rewrite H3. unfold dc_result. rewrite Hv. fold pa.
    do 2 f_equal. rewrite Ep. rewrite Z.rem_mul_r by lia.
    rewrite (index_eq g x (Z.of_nat (S n))) by lia. fold c. lia.
Qed.

(** ** Growing the tree along the path of an address *)

(** From [s] to [s'] the tree grew only by tables on the path of [va] with
    levels in ([n], [n']], and no translation changed. *)
Record grown (s s' : mmu_state A) (va : Z) (n n' : nat) : Prop := {
  gr_wf : wf m (tables s');
  gr_outcome va' r : outcome m (tables s) va' r -> outcome m (tables s') va' r;
  gr_keep va' j u : Z.of_nat j <= L + 1 -> reach m (tables s) va' j = Some u ->
    reach m (tables s') va' j = Some u;
  gr_new va' j u : Z.of_nat j <= L + 1 -> reach m (tables s') va' j = Some u ->
    reach m (tables s) va' j = Some u \/ ((n < j <= n')%nat /\ key g j va' = key g j va)
}.

Lemma grown_refl s s' va n n' :
  wf m (tables s) -> tables s' = tables s -> grown s s' va n n'.
Proof. intros W E. split; rewrite E; auto. Qed.

Lemma grown_trans s1 s2 s3 va n1 n2 n3 :
  (n1 <= n2 <= n3)%nat -> grown s1 s2 va n1 n2 -> grown s2 s3 va n2 n3 -> grown s1 s3 va n1 n3.
Proof.
  intros Hn [W1 O1 K1 N1] [W2 O2 K2 N2]. split; auto.
  intros va' j u Hj Hr. apply N2 in Hr as [Hr|[? ?]]; [|right; split; [lia|done]|done].
  apply N1 in Hr as [Hr|[? ?]]; [by left|right; split; [lia|done]|done].
Qed.

Lemma grown_tables s1 s1' s2 s2' va n n' :
  tables s1' = tables s1 -> tables s2' = tables s2 -> grown s1 s2 va n n' -> grown s1' s2' va n n'.
Proof. intros E1 E2 [? ? ? ?]. split; rewrite ?E1, ?E2; auto. Qed.

(** Linking a fresh table [nt] with entries [e] in place of [old]. *)
Lemma link_grown (s s' : mmu_state A) va n t old nt e :
  wf m (tables s) -> Z.of_nat n < L -> reach m (tables s) va n = Some t ->
  entry (tables s) t (idx va n) = Some old -> is_tbl m n old = false ->
  tables s !! nt = None -> table_addr m nt ->
  (forall i, 0 <= i < tbl_entries g ->
     exists d, e !! i = Some d /\ dc_ok m (S n) d /\ is_tbl m (S n) d = false) ->
  (forall x d, e !! idx x (S n) = Some d -> dc_result m x (S n) d = dc_result m x n old) ->
  tables s' = put_entry (<[nt := e]> (tables s)) t (idx va n) (td_build (physmap_offset_ m) nt) ->
  grown s s' va n (S n) /\ reach m (tables s') va (S n) = Some nt.
Proof.
  intros W Hn Hr Hold Hot Hfresh Haddr He Hres HT.
  destruct (td_dc nt n Haddr Hn) as (Hdok & Hdt & Hnext).
  pose proof (link_reach m (tables s) va n t old nt e _ W Hn Hr Hold Hot Hfresh Hdt Hnext He) as HR.
  rewrite <- HT in HR. split; [split|].
  - rewrite HT. by eapply link_wf.
  - intros va' r Ho. rewrite HT. eapply link_outcome; try done. intros x d _. apply Hres.
  - intros va' j u Hj Hu. rewrite HR by lia. case_decide as Hd; [|done].
    destruct Hd as [-> HK]. exfalso. apply key_S_inj in HK as [HK Hi]; [|lia].
    cbn [reach] in Hu. rewrite (reach_key m _ va' va n) in Hu by (done || lia).
    rewrite Hr in Hu. cbn in Hu. rewrite Hi, Hold in Hu. cbn in Hu. by rewrite Hot in Hu.
  - intros va' j u Hj. rewrite HR by lia. case_decide as Hd; [|by left].
    intros _. right. destruct Hd as [-> HK]. split; [lia|done].
  - rewrite HR by lia. by rewrite decide_True.
Qed.

Lemma dom_put_entry (T : gmap Z (gmap Z Z)) t i dc : dom (put_entry T t i dc) = dom T.
Proof. apply dom_alter_L. Qed.

(** the descriptor is not valid: a zeroed table *)
Lemma grow_invalid (s : mmu_state A) va n t old k :
  wf m (tables s) -> Inv (ast s) (dom (tables s)) (S k) -> Z.of_nat n < L ->
  reach m (tables s) va n = Some t -> entry (tables s) t (idx va n) = Some old ->
  dc_get_valid old = false ->
  wp (let* next := alloc_tbl m true in
      tbl_put t (idx va n) (td_build (physmap_offset_ m) next) ;; ret next)
     (fun nt s' => grown s s' va n (S n) /\ reach m (tables s') va (S n) = Some nt /\
        Inv (ast s') (dom (tables s')) k) s.
Proof.
  intros W HI Hn Hr Hold Hv. assert (is_tbl m n old = false) as Hot by (unfold is_tbl; by rewrite Hv).
  apply wp_bind. eapply wp_mono; [by apply alloc_tbl_spec|].
  intros nt s1 (e & HT & Hfresh & Haddr & HI1 & He).
  assert (t <> nt) as Htn by (intros ->; unfold entry in Hold; by rewrite Hfresh in Hold).
  apply wp_bind. eapply tbl_put_wp.
  { unfold entry. rewrite HT, lookup_insert_ne by done. exact Hold. }
  apply wp_ret, and_assoc. split; [|cbn; by rewrite dom_put_entry].
  eapply (link_grown s _ va n t old nt e); try done.
  - intros i Hi. exists 0. split; [by apply He|]. apply zero_dc.
  - intros x d Hd. rewrite He in Hd by (apply index_range; unfold lmax in *; lia).
    injection Hd as <-. unfold dc_result. by rewrite Hv.
  - cbn [tables]. by rewrite HT.
Qed.

(** the descriptor is a block: its pieces *)
Lemma grow_block (s : mmu_state A) va n t old k :
  wf m (tables s) -> Inv (ast s) (dom (tables s)) (S k) -> Z.of_nat n < L ->
  reach m (tables s) va n = Some t -> entry (tables s) t (idx va n) = Some old ->
  dc_ok m n old -> dc_get_valid old = true -> is_tbl m n old = false ->
  wp (split_block m t (idx va n) (Z.of_nat n))
     (fun nt s' => grown s s' va n (S n) /\ reach m (tables s') va (S n) = Some nt /\
        Inv (ast s') (dom (tables s')) k) s.
Proof.
  intros W HI Hn Hr Hold Hok Hv Hot. unfold split_block.
  apply wp_bind. unfold wp at 1. rewrite (get_dc_ok _ _ _ _ Hold).
  apply wp_bind. eapply wp_mono; [by apply alloc_tbl_spec|].
  intros nt s1 (e & HT & Hfresh & Haddr & HI1 & He). cbv zeta. rewrite Hv.
  assert (t <> nt) as Htn by (intros ->; unfold entry in Hold; by rewrite Hfresh in Hold).
  set (c := 2 ^ sh g (Z.of_nat (S n))).
  set (f := fun i => bd_build (cfg_from_dc old) (wrap64 (dc_get_output_address old g + i * c)) g (Z.of_nat (S n))).
  apply wp_bind. apply wp_bind. eapply wp_lift.
  { replace (Z.of_nat n + 1) with (Z.of_nat (S n)) by lia. apply cover_eq. lia. }
  apply wp_bind. eapply wp_lift; [apply cover_eq; lia|]. apply wp_bind, wp_ASSERT.
  { apply Z.eqb_eq. destruct (sh_bounds g (Z.of_nat n)); [lia|]. apply Z.mod_divide; [lia|].
    by apply Hok. }
  replace (Z.of_nat n + 1) with (Z.of_nat (S n)) by lia.
  eapply wp_mono.
  { apply (fill_table _ nt e f); [rewrite HT; apply lookup_insert_eq|].
    intros i Hi. rewrite He by done. eauto. }
  intros _ s2 (e' & HT2 & Ha2 & He'). rewrite HT, insert_insert_eq in HT2.
  apply wp_bind. eapply tbl_put_wp.
  { unfold entry. rewrite HT2, lookup_insert_ne by done. exact Hold. }
  apply wp_ret, and_assoc. split; cycle 1.
  { cbn. rewrite dom_put_entry, Ha2.
    by replace (dom (tables s2)) with (dom (tables s1)) by (by rewrite HT2, HT, !dom_insert_L). }
  eapply (link_grown s _ va n t old nt e'); try done.
  - intros i Hi. exists (f i). split; [by apply He'|].
    destruct (split_piece old n (i * c) Hok Hv Hot Hn) as (H1 & H2 & _).
    unfold c in H1, H2. rewrite index_onto in H1, H2 by (done || lia). done.
  - intros x d Hd. rewrite He' in Hd by (apply index_range; unfold lmax in *; lia).
    injection Hd as <-. by apply (split_piece old n x).
  - cbn [tables]. by rewrite HT2.
Qed.

(** ** The descent *)

Lemma wp_get_dc t i dc (s : mmu_state A) (Q : Z -> mmu_state A -> Prop) :
  entry (tables s) t i = Some dc -> Q dc s -> wp (mmu_tbl_get_dc t i) Q s.
Proof. intros He HQ. unfold wp. by rewrite (get_dc_ok _ _ _ _ He). Qed.

Lemma map_descend_spec fuel (s : mmu_state A) va n t target k :
  wf m (tables s) -> (n <= target)%nat -> Z.of_nat target <= L ->
  Inv (ast s) (dom (tables s)) (k + (target - n)) ->
  reach m (tables s) va n = Some t -> (target - n < fuel)%nat ->
  wp (map_descend fuel m va t (Z.of_nat n) (Z.of_nat target))
     (fun t' s' => grown s s' va n target /\ reach m (tables s') va target = Some t' /\
        exists k', (k <= k')%nat /\ Inv (ast s') (dom (tables s')) k') s.
Proof.
  revert s n t k. induction fuel as [|fuel IH]; intros s n t k W Hnt HtL HI Hr Hf; [lia|].
  cbn [map_descend]. destruct (Z.ltb_spec (Z.of_nat n) (Z.of_nat target)) as [Hlt|Hge]; cycle 1.
  { assert (n = target) as -> by lia. apply wp_ret. split; [by apply grown_refl|].
    split; [done|]. exists (k + (target - target))%nat. split; [lia|done]. }
  apply wp_bind, wp_modify.
  set (s0 := set_info _ s). assert (tables s0 = tables s) as E0 by done.
  assert (ast s0 = ast s) as Ea by done. clearbody s0. rewrite <- E0, <- Ea in *.
  destruct (wf_entry m _ va n t W ltac:(lia) Hr) as (dc & Hdc & Hok).
  assert (forall nt s1, grown s0 s1 va n (S n) -> reach m (tables s1) va (S n) = Some nt ->
    forall j, (k + (target - S n) <= j)%nat -> Inv (ast s1) (dom (tables s1)) j ->
    wp (map_descend fuel m va nt (Z.of_nat n + 1) (Z.of_nat target))
      (fun t' s' => grown s s' va n target /\ reach m (tables s') va target = Some t' /\
        exists k', (k <= k')%nat /\ Inv (ast s') (dom (tables s')) k') s1) as Hnext.
  { intros nt s1 G1 R1 j Hj I1. replace (Z.of_nat n + 1) with (Z.of_nat (S n)) by lia.
    eapply wp_mono.
    { apply (IH s1 (S n) nt (j - (target - S n))%nat); [apply G1|lia|done| |done|lia].
      by replace (j - (target - S n) + (target - S n))%nat with j by lia. }
    intros t' s2 (G2 & R2 & k' & Hk' & I2). split; [|split; [done|exists k'; split; [lia|done]]].
    eapply (grown_tables s0 s s2 s2); [done|done|]. by eapply grown_trans; [|done|done]; lia. }
  apply wp_bind. eapply wp_get_dc; [done|].
  assert (exists j, k + (target - n) = S j)%nat as [j Hj] by (exists (k + (target - S n))%nat; lia).
  destruct (dc_get_valid dc) eqn:Hv; cbn [negb].
  - apply wp_bind. destruct (dc_type_ok m n dc Hok Hv ltac:(lia)) as [[Et Ei]|[Et Ei]].
    + eapply wp_lift; [exact Et|]. cbv beta iota. apply wp_bind.
      unfold tbl_from_td. apply wp_bind. eapply wp_lift; [exact Et|].
      apply wp_bind, wp_ASSERT; [done|]. apply wp_ret.
      assert (reach m (tables s0) va (S n) = Some (next_tbl m dc)) as R1.
      { cbn [reach]. rewrite Hr. cbn. rewrite Hdc. cbn. by rewrite Ei. }
      eapply (Hnext _ s0); [by apply grown_refl|done| |done]. lia.
    + assert (dc_get_type dc g (Z.of_nat n) = Ok MMU_DESCRIPTOR_BLOCK) as Eb.
      { destruct Et as [|Et]; [done|]. unfold dc_get_type in Et. fold (lmax g) in Et.
        destruct (Z.eqb_spec (Z.of_nat n) L); [lia|]. by destruct (get_field 1 1 dc =? 0). }
      eapply wp_lift; [exact Eb|]. cbv beta iota. apply wp_bind. eapply wp_mono.
      { eapply (grow_block s0 va n t dc j); try done; [by rewrite <- Hj|lia]. }
      intros nt s1 (G1 & R1 & I1). eapply Hnext; [done|done| |done]. lia.
  - eapply wp_bind_ret.
    { eapply (grow_invalid s0 va n t dc j); try done; [by rewrite <- Hj|lia]. }
    intros nt s1 (G1 & R1 & I1). eapply Hnext; [done|done| |done]. lia.
Qed.

(** ** One round *)

Lemma target_loop_spec fuel (s : mmu_state A) size va pa n c :
  0 <= Z.of_nat n <= L -> (Z.to_nat L < fuel + n)%nat ->
  g_bytes g <= size -> va mod g_bytes g = 0 -> pa mod g_bytes g = 0 ->
  exists tl, (n <= tl)%nat /\ Z.of_nat tl <= L /\
    target_loop fuel size g va pa (Z.of_nat n) c s = Ok ((Z.of_nat tl, 2 ^ sh g (Z.of_nat tl)), s) /\
    2 ^ sh g (Z.of_nat tl) <= size /\ va mod 2 ^ sh g (Z.of_nat tl) = 0 /\
    pa mod 2 ^ sh g (Z.of_nat tl) = 0.
Proof.
  intros Hn Hf Hs Hva Hpa. destruct (levels_bounds g) as (_ & _ & HL & Hg).
  revert n c Hn Hf. induction fuel as [|fuel IH]; intros n c Hn Hf; [lia|].
  cbn [target_loop]. fold (lmax g). destruct (Z.leb_spec (Z.of_nat n) L); [|lia].
  rewrite cover_eq by lia. unfold bind, lift.
  destruct ((2 ^ sh g (Z.of_nat n) <=? size) && (va mod 2 ^ sh g (Z.of_nat n) =? 0) &&
            (pa mod 2 ^ sh g (Z.of_nat n) =? 0)) eqn:E.
  - apply andb_true_iff in E as [[E1 E2]%andb_true_iff E3].
    apply Z.leb_le in E1. apply Z.eqb_eq in E2, E3. exists n. split_and!; done || lia.
  - assert (Z.of_nat n <> L) as Hne.
    { intros En. rewrite En in E. unfold sh in E. rewrite Z.sub_diag, Z.mul_0_r, Z.add_0_r, <- Hg in E.
      rewrite Hva, Hpa in E. destruct (Z.leb_spec (g_bytes g) size); [done|lia]. }
    destruct (IH (S n) (2 ^ sh g (Z.of_nat n))) as (tl & ? & ? & Ht & ?); [lia|lia|].
    exists tl. replace (Z.of_nat n + 1) with (Z.of_nat (S n)) by lia. split; [lia|done].
Qed.

Lemma is_table_dc_ok (s : mmu_state A) n dc :
  dc_ok m n dc -> Z.of_nat n <= L -> is_table_dc dc g (Z.of_nat n) s = Ok (is_tbl m n dc, s).
Proof.
  intros Hok Hn. unfold is_table_dc. destruct (dc_get_valid dc) eqn:Hv.
  - destruct (dc_type_ok m n dc Hok Hv Hn) as [[Et Ei]|[[Et|Et] Ei]]; rewrite Et, Ei; done.
  - unfold is_tbl. by rewrite Hv.
Qed.

(** No table describes a range inside of [lo, hi) in the window of [va]. *)
Definition no_tables_inside (T : gmap Z (gmap Z Z)) (win lo hi : Z) : Prop :=
  forall va n t, Z.of_nat n < L -> va / 2 ^ tbits g = win -> reach m T va (S n) = Some t ->
    let c := 2 ^ sh g (Z.of_nat n) in
    ~ (lo <= va - va mod c /\ va - va mod c + c <= hi).

(** What a round does to the translations: the [size] bytes from [va] on
    translate as [f] says, the rest is as before. *)
Record mapped (s s' : mmu_state A) (va size : Z) (f : Z -> mmu_walk_result) : Prop := {
  mp_wf : wf m (tables s');
  mp_in x : x / 2 ^ tbits g = va / 2 ^ tbits g -> va <= x < va + size ->
    outcome m (tables s') x (f x);
  mp_out x r : x / 2 ^ tbits g = va / 2 ^ tbits g -> ~ (va <= x < va + size) ->
    outcome m (tables s) x r -> outcome m (tables s') x r
}.

(** the translation of [x] when [va] goes to [pa] *)
Definition image (va pa : Z) (cfg : mmu_pg_cfg) (x : Z) : mmu_walk_result :=
  MMU_WALK_PAGE_MAPPED cfg (pa + (x - va)).

Lemma block_range va x n :
  0 <= Z.of_nat n <= L -> va mod 2 ^ sh g (Z.of_nat n) = 0 -> x / 2 ^ tbits g = va / 2 ^ tbits g ->
  key g (S n) x = key g (S n) va <-> va <= x < va + 2 ^ sh g (Z.of_nat n).
Proof.
  intros Hn Ha Hw. rewrite key_block by (done || lia).
  destruct (sh_bounds g (Z.of_nat n) Hn) as [Hs _]. set (c := 2 ^ sh g (Z.of_nat n)) in *.
  assert (0 < c) by (unfold c; lia).
  pose proof (Z.div_mod va c). pose proof (Z.div_mod x c).
  pose proof (Z.mod_pos_bound x c). split; [intros E; rewrite E in *; lia|].
  intros Hx. symmetry. apply Z.div_unique_pos with (x - va); [lia|]. lia.
Qed.

(** The descriptor a round replaces is not a table. *)
Lemma target_not_table (s s1 : mmu_state A) va size tl t old :
  let c := 2 ^ sh g (Z.of_nat tl) in
  grown s s1 va 0 tl -> Z.of_nat tl <= L -> reach m (tables s1) va tl = Some t ->
  entry (tables s1) t (idx va tl) = Some old -> va mod c = 0 -> c <= size ->
  no_tables_inside (tables s) (va / 2 ^ tbits g) va (va + size) -> is_tbl m tl old = false.
Proof.
  intros c G HtlL R1 Hold Hvc Hc Hno. destruct (is_tbl m tl old) eqn:E; [exfalso|done].
  assert (reach m (tables s1) va (S tl) = Some (next_tbl m old)) as R2.
  { cbn [reach]. rewrite R1. cbn. rewrite Hold. cbn. by rewrite E. }
  pose proof (reach_lt m _ va tl _ R2 HtlL) as Hlt.
  apply (gr_new _ _ _ _ _ G) in R2 as [R2|[? _]]; [|lia|lia].
  apply (Hno va tl _ Hlt eq_refl R2). fold c. rewrite Hvc. lia.
Qed.

(** The write that ends a round. *)
Lemma write_leaf (s s1 s2 : mmu_state A) va size tl t old dc f :
  let c := 2 ^ sh g (Z.of_nat tl) in
  grown s s1 va 0 tl -> Z.of_nat tl <= L -> reach m (tables s1) va tl = Some t ->
  entry (tables s1) t (idx va tl) = Some old -> va mod c = 0 -> c <= size ->
  no_tables_inside (tables s) (va / 2 ^ tbits g) va (va + size) ->
  dc_ok m tl dc -> is_tbl m tl dc = false ->
  (forall x, va <= x < va + c -> dc_result m x tl dc = f x) ->
  tables s2 = put_entry (tables s1) t (idx va tl) dc ->
  mapped s s2 va c f /\
  no_tables_inside (tables s2) (va / 2 ^ tbits g) (va + c) (va + size).
Proof.
  intros c G HtlL R1 Hold Hvc Hc Hno Hdok Hdt Hres HT.
  pose proof (target_not_table s s1 va size tl t old G HtlL R1 Hold Hvc Hc Hno) as Hot.
  pose proof (gr_wf _ _ _ _ _ G) as W1. destruct (sh_bounds g (Z.of_nat tl)) as [Hs _]; [lia|].
  assert (0 < c) by (unfold c; lia).
  assert (forall x, x / 2 ^ tbits g = va / 2 ^ tbits g -> _) as Hblk
    by (intros x Hx; exact (block_range va x tl ltac:(lia) Hvc Hx)). fold c in Hblk.
  split; [split|]; rewrite HT.
  - by eapply put_wf.
  - intros x Hw Hx. rewrite <- Hres by done. eapply put_outcome_same; try done. by apply Hblk.
  - intros x r Hw Hx Ho. eapply put_outcome_other; try done.
    + intros E. apply Hx. by apply Hblk.
    + by apply (gr_outcome _ _ _ _ _ G).
  - intros x n u Hn Hw. rewrite (put_reach m (tables s1) va tl t old) by (done || lia). intros Hu.
    destruct (sh_bounds g (Z.of_nat n)); [lia|].
    apply (gr_new _ _ _ _ _ G) in Hu as [Hu|[Hj HK]]; [| |lia].
    + pose proof (Hno x n u Hn Hw Hu) as Hno'. cbv zeta in *. lia.
    + cbv zeta. intros [Hb _]. rewrite key_block in HK by (done || lia).
      rewrite (Z.mod_eq x), HK in Hb by lia.
      pose proof (Z.mul_div_le va (2 ^ sh g (Z.of_nat n))). lia.
Qed.

(** A cover is a whole number of granules. *)
Lemma cover_granules tl :
  Z.of_nat tl <= L ->
  g_bytes g <= 2 ^ sh g (Z.of_nat tl) /\ 2 ^ sh g (Z.of_nat tl) mod g_bytes g = 0.
Proof.
  intros Htl. destruct (levels_bounds g) as (? & ? & ? & Hg). rewrite Hg.
  assert (pbits g <= sh g (Z.of_nat tl)) by (unfold sh; nia). split.
  - apply Z.pow_le_mono_r; lia.
  - apply Z.mod_divide; [lia|]. exists (2 ^ (sh g (Z.of_nat tl) - pbits g)).
    rewrite <- Z.pow_add_r by lia. f_equal. lia.
Qed.

Lemma map_round_spec (s : mmu_state A) va pa size cfg k :
  wf m (tables s) -> Inv (ast s) (dom (tables s)) (3 + k) -> cfg_ok cfg ->
  g_bytes g <= size -> size mod g_bytes g = 0 -> va mod g_bytes g = 0 -> pa mod g_bytes g = 0 ->
  0 <= pa -> pa + size <= 2 ^ 48 ->
  no_tables_inside (tables s) (va / 2 ^ tbits g) va (va + size) ->
  wp (map_round m va pa size cfg)
     (fun c s' => g_bytes g <= c <= size /\ c mod g_bytes g = 0 /\
        mapped s s' va c (image va pa cfg) /\
        no_tables_inside (tables s') (va / 2 ^ tbits g) (va + c) (va + size) /\
        exists k', (k <= k')%nat /\ Inv (ast s') (dom (tables s')) k') s.
Proof.
  intros W HI Hcfg Hsz Hszm Hva Hpa Hpa0 Hpaend Hno.
  destruct (levels_bounds g) as (Hpb & Hib & HL & Hg).
  unfold map_round. apply wp_bind, wp_ASSERT; [by rewrite Hszm, Hva, Hpa|].
  destruct (target_loop_spec 4 s size va pa 1 0) as (tl & Htl1 & HtlL & Ht & Hc & Hvc & Hpc);
    [lia|lia|done..|].
  apply wp_bind. unfold wp at 1, get_target_lvl. change MMU_TBL_LV1 with (Z.of_nat 1). rewrite Ht.
  cbv beta iota. apply wp_bind. eapply wp_mono.
  { change MMU_TBL_LV0 with (Z.of_nat 0).
    apply (map_descend_spec 4 s va 0 (tbl_ m) tl (3 + k - tl)); [done|lia|done| |done|lia].
    by replace (3 + k - tl + (tl - 0))%nat with (3 + k)%nat by lia. }
  intros t s1 (G & R1 & k' & Hk' & I1).
  destruct (wf_entry m _ va tl t (gr_wf _ _ _ _ _ G) HtlL R1) as (old & Hold & Hok).
  pose proof (target_not_table s s1 va size tl t old G HtlL R1 Hold Hvc Hc Hno) as Hot.
  destruct (sh_bounds g (Z.of_nat tl)) as [Hs _]; [lia|].
  apply Z.mod_divide in Hpc as Hpd; [|lia].
  destruct (bd_dc cfg pa tl Hcfg ltac:(lia) Hpd HtlL) as (Hdok & Hdt & Hres).
  apply wp_bind. eapply wp_get_dc; [done|].
  apply wp_bind. eapply tbl_put_wp; [done|]. set (s2 := MkMmu _ _ _).
  apply wp_bind. unfold wp at 1. rewrite (is_table_dc_ok s2 tl old Hok HtlL), Hot.
  apply wp_bind, wp_ret, wp_ret.
  destruct (cover_granules tl HtlL) as [Hg1 Hg2].
  destruct (write_leaf s s1 s2 va size tl t old _ (image va pa cfg) G HtlL R1 Hold Hvc Hc Hno Hdok Hdt)
    as [M1 No1]; [|done|].
  - intros x Hx. rewrite Hres. unfold image. f_equal.
    set (c := 2 ^ sh g (Z.of_nat tl)) in *. assert (x mod c = x - va) as ->.
    { symmetry. apply Z.mod_unique_pos with (va / c); [lia|]. pose proof (Z.div_mod va c). lia. }
    rewrite wrap_small by (unfold u_range; lia). done.
  - split_and!; try done. exists k'. split; [lia|]. cbn. by rewrite dom_put_entry.
Qed.

(** ** The whole range *)

Lemma mapped_nil s va f : wf m (tables s) -> mapped s s va 0 f.
Proof. intros W. split; [done| |done]. lia. Qed.

Lemma mapped_app s s1 s2 va c size f :
  0 <= c <= size -> (va + c) / 2 ^ tbits g = va / 2 ^ tbits g ->
  mapped s s1 va c f -> mapped s1 s2 (va + c) (size - c) f -> mapped s s2 va size f.
Proof.
  intros Hc Hw [_ I1 O1] [W2 I2 O2]. rewrite Hw in *. split; [done| |].
  - intros x Hx Hr. destruct (Z.lt_ge_cases x (va + c)).
    + apply O2; [done|lia|]. apply I1; [done|lia].
    + apply I2; [done|lia].
  - intros x r Hx Hr Ho. apply O2; [done|lia|]. apply O1; [done|lia|done].
Qed.

Lemma mapped_ext s s' va size f f' :
  (forall x, va <= x < va + size -> f x = f' x) -> mapped s s' va size f -> mapped s s' va size f'.
Proof. intros E [W I O]. split; [done| |done]. intros x Hx Hr. rewrite <- E by done. by apply I. Qed.

Lemma div_window a b x y T : 0 < T -> a <= x <= b -> a <= y <= b -> a / T = b / T -> x / T = y / T.
Proof.
  intros HT Hx Hy E. pose proof (Z.div_le_mono a x T HT). pose proof (Z.div_le_mono x b T HT).
  pose proof (Z.div_le_mono a y T HT). pose proof (Z.div_le_mono y b T HT). lia.
Qed.

Lemma map_loop_spec fuel (s : mmu_state A) va pa size cfg k :
  wf m (tables s) -> Inv (ast s) (dom (tables s)) k -> (3 * Z.to_nat (size / g_bytes g) <= k)%nat ->
  cfg_ok cfg -> 0 <= size -> size mod g_bytes g = 0 -> va mod g_bytes g = 0 ->
  pa mod g_bytes g = 0 -> 0 <= va -> va + size <= 2 ^ 64 -> 0 <= pa -> pa + size <= 2 ^ 48 ->
  (0 < size -> va / 2 ^ tbits g = (va + size - 1) / 2 ^ tbits g) ->
  no_tables_inside (tables s) (va / 2 ^ tbits g) va (va + size) ->
  (Z.to_nat (size / g_bytes g) < fuel)%nat ->
  wp (map_loop fuel m va pa size cfg) (fun _ s' => mapped s s' va size (image va pa cfg) /\
    exists k', (k <= 3 * Z.to_nat (size / g_bytes g) + k')%nat /\ Inv (ast s') (dom (tables s')) k') s.
Proof.
  destruct (levels_bounds g) as (Hpb & Hib & HL & Hg).
  assert (0 < g_bytes g) as Hg0 by lia.
  pose proof (tbits_pos g) as HT0.
  revert s va pa size k. induction fuel as [|fuel IH];
    intros s va pa size k W HI Hk Hcfg Hsz Hszm Hva Hpa Hva0 Hvae Hpa0 Hpae Hwin Hno Hf; [lia|].
  cbn [map_loop]. destruct (Z.ltb_spec 0 size) as [Hpos|Hz]; cycle 1.
  { assert (size = 0) as -> by lia. apply wp_ret. split; [by apply mapped_nil|]. exists k. split; [lia|done]. }
  assert (g_bytes g <= size) as Hgs by (pose proof (Z.div_mod size (g_bytes g)); nia).
  assert (1 <= size / g_bytes g) as Hq1 by (apply Z.div_le_lower_bound; lia).
  specialize (Hwin Hpos).
  apply wp_bind. eapply wp_mono.
  { apply (map_round_spec s va pa size cfg (k - 3)); try done.
    by replace (3 + (k - 3))%nat with k by lia. }
  intros c s1 (Hc & Hcm & M1 & No1 & k1 & Hk1 & I1).
  rewrite (wrap_small 64 (pa + c)), (wrap_small 64 (size - c)) by (unfold u_range; lia).
  assert (size / g_bytes g = c / g_bytes g + (size - c) / g_bytes g) as Hdiv.
  { apply Z.mod_divide in Hcm as [q Eq]; [|lia]. replace size with (size - c + q * g_bytes g) at 1 by lia.
    rewrite Z.div_add, Eq, Z.div_mul by lia. lia. }
  assert (1 <= c / g_bytes g) by (apply Z.div_le_lower_bound; lia).
  assert (0 <= (size - c) / g_bytes g) by (apply Z.div_pos; lia).
  destruct (Z.eq_dec c size) as [->|Hne].
  { rewrite Z.sub_diag. destruct fuel as [|fuel]; [lia|]. cbn [map_loop]. apply wp_ret. split; [done|]. exists k1. split; [lia|done]. }
  rewrite (wrap_small 64 (va + c)) by (unfold u_range; lia).
  assert (forall x, va <= x <= va + size - 1 -> x / 2 ^ tbits g = va / 2 ^ tbits g) as Hw
    by (intros x Hx; apply (div_window va (va + size - 1)); done || lia).
  eapply wp_mono.
  { apply (IH s1 (va + c) (pa + c) (size - c) k1); try done; try lia.
    - apply M1.
    - by rewrite Zminus_mod, Hszm, Hcm.
    - by rewrite Zplus_mod, Hva, Hcm.
    - by rewrite Zplus_mod, Hpa, Hcm.
    - intros _. by rewrite (Hw (va + c)), (Hw (va + c + (size - c) - 1)) by lia.
    - rewrite (Hw (va + c)) by lia. by replace (va + c + (size - c)) with (va + size) by lia. }
  cbn beta. intros _ s2 (M2 & k2 & Hk2 & I2). split; [|exists k2; split; [lia|done]]. apply (mapped_app s s1 s2 va c size); [lia|apply Hw; lia|done|].
  eapply mapped_ext; [|exact M2]. intros x _. unfold image. f_equal. lia.
Qed.

(** [is_in_range] keeps a range inside of one translation window. *)
Lemma canon_upper x VB :
  is_u64 x -> 0 < VB < 64 ->
  Z.land x (not64 (wrap64 (Z.shiftl 1 VB - 1))) = 2 ^ VB * (x / 2 ^ VB).
Proof.
  intros Hx Hv. rewrite Z.shiftl_1_l, <- ones_sub by lia.
  rewrite (wrap_small 64 (Z.ones VB)).
  - rewrite land_not_w by (done || lia).
    rewrite Z.ldiff_ones_r, Z.shiftr_div_pow2, Z.shiftl_mul_pow2 by lia. lia.
  - rewrite ones_sub by lia. pose proof (pow2_range VB 64). unfold u_range in *. lia.
Qed.

Lemma in_range_window va size :
  is_u64 va -> is_u64 size -> 0 < va_addr_bits_ m < 64 -> is_in_range m va size = true ->
  0 < size /\ va + size <= 2 ^ 64 /\
  va / 2 ^ va_addr_bits_ m = (va + size - 1) / 2 ^ va_addr_bits_ m.
Proof.
  intros Hva Hsz HV. unfold is_in_range. destruct (Z.eqb_spec size 0) as [|Hs0]; [done|].
  set (VB := va_addr_bits_ m) in *.
  set (e := wrap64 (va + size - 1)).
  assert (is_u64 e) as He by (apply wrap_range; lia).
  assert (forall x, Z.land (Z.shiftr x (VB - 1)) 1 =? 0 = negb (Z.testbit x (VB - 1))) as Hsign.
  { intros x. change 1 with (Z.shiftl 1 0) at 2. rewrite land_single_bit by lia.
    by rewrite Z.shiftr_spec by lia. }
  assert (forall x, negb (Z.land x (wrap64 (Z.shiftl 1 (VB - 1))) =? 0) = Z.testbit x (VB - 1)) as Hhi.
  { intros x. rewrite (wrap_small 64 (Z.shiftl 1 (VB - 1))).
    - rewrite land_single_bit by lia. apply negb_involutive.
    - rewrite Z.shiftl_1_l. apply pow2_range. lia. }
  rewrite !Hsign, !Hhi, !canon_upper by done. set (CM := not64 _). rewrite !negb_involutive.
  destruct (if Z.testbit va (VB - 1) then _ else _) eqn:E1; cbn [negb]; [|done].
  destruct (Z.ltb_spec e va) as [|Hle]; [done|].
  destruct (if Z.testbit e (VB - 1) then _ else _) eqn:E2; cbn [negb]; [|done].
  destruct (Bool.eqb (Z.testbit va (VB - 1)) (Z.testbit e (VB - 1))) eqn:E3; [|done].
  apply eqb_prop in E3. intros _. unfold u_range in *.
  assert (e = va + size - 1) as Ee.
  { destruct (Z.lt_ge_cases (va + size - 1) (2 ^ 64)); [apply Z.mod_small; lia|exfalso].
    assert (e = va + size - 1 - 2 ^ 64); [|lia]. unfold e, wrap. symmetry.
    apply Z.mod_unique_pos with 1; lia. }
  split; [lia|]. split; [lia|]. rewrite <- Ee. rewrite <- E3 in E2.
  assert (0 < 2 ^ VB) by lia.
  destruct (Z.testbit va (VB - 1)); apply Z.eqb_eq in E1, E2; nia.
Qed.

Lemma tbits_ge n : n <= tbits g -> 0 <= n -> forall x y, x / 2 ^ n = y / 2 ^ n -> x / 2 ^ tbits g = y / 2 ^ tbits g.
Proof.
  intros H1 H2 x y E. replace (tbits g) with (n + (tbits g - n)) by lia.
  rewrite Z.pow_add_r, <- !Z.div_div by lia. by rewrite E.
Qed.

Lemma mmu_map_spec (s : mmu_state A) (va pa size : Z) (cfg : mmu_pg_cfg) (k : nat) :
  wf m (tables s) -> Inv (ast s) (dom (tables s)) k -> (3 * Z.to_nat (size / g_bytes g) <= k)%nat ->
  is_u64 va -> is_u64 size -> cfg_ok cfg -> 0 < va_addr_bits_ m < 64 -> va_addr_bits_ m <= tbits g -> is_in_range m va size = true ->
  size mod g_bytes g = 0 /\ va mod g_bytes g = 0 /\ pa mod g_bytes g = 0 -> 0 <= pa /\ pa + size <= 2 ^ 48 ->
  no_tables_inside (tables s) (va / 2 ^ tbits g) va (va + size) ->
  wp (mmu_map (Some m) va pa size cfg) (fun r s' => r = MMU_MAP_OK /\ mapped s s' va size (image va pa cfg) /\
    (forall x, va <= x < va + size -> x / 2 ^ tbits g = va / 2 ^ tbits g) /\
    exists k', (k <= 3 * Z.to_nat (size / g_bytes g) + k')%nat /\ Inv (ast s') (dom (tables s')) k') s.
Proof.
  intros Hwf Hinv Hk Hva Hsize Hcfg Hbits Hbits' Hrange (A1 & A2 & A3) Hpa Hno.
  destruct (in_range_window va size Hva Hsize Hbits Hrange) as (Hs0 & Hend & Hw). apply (tbits_ge _ Hbits') in Hw; [|lia].
  unfold mmu_map. destruct (Z.eqb_spec size 0); [lia|]. rewrite Hrange. cbn [negb].
  apply wp_bind. eapply wp_mono; [apply (map_loop_spec _ s va pa size cfg k); try done; unfold u_range in *; lia|].
  intros _ s' [HM HI]. apply wp_ret. split; [done|]. split; [done|]. split; [|done].
  intros x Hx. destruct (levels_bounds g) as (? & ? & ? & _). apply (div_window va (va + size - 1)); [apply tbits_pos|lia..].
Qed.

(** The walks after a range was given translations. *)
Lemma mapped_walks (s s' : mmu_state A) va size f : wf m (tables s) -> mapped s s' va size f ->
  (forall x, va <= x < va + size -> x / 2 ^ tbits g = va / 2 ^ tbits g -> mmu_walk_page (Some m) x s' = Ok (f x, s')) /\
  (forall x, x / 2 ^ tbits g = va / 2 ^ tbits g -> ~ (va <= x < va + size) ->
     exists r, mmu_walk_page (Some m) x s = Ok (r, s) /\ mmu_walk_page (Some m) x s' = Ok (r, s')).
Proof.
  intros Hwf [W' Hin Hout]. split.
  - intros x Hx Hw. apply walk_outcome; [done|]. by apply Hin.
  - intros x Hx Hnx. destruct (outcome_total m (tables s) x Hwf) as [r Hr]. exists r.
    split; [by apply walk_outcome|]. apply walk_outcome; [done|]. by apply Hout.
Qed.

(** C3: [mmu_map] of an aligned range maps it: with three tables per page left
    in the allocator, the images below 2^48 and no existing table wholly
    inside of the range (where [free_tbl] would panic, see
    [free_tbl_populated_panics]), the call succeeds; afterwards the walk of
    every address of the range yields its image with the requested configuration (through whatever blocks and
    tables the code chose), and the walk of every other address of the same
    half of the address space yields what it yielded before. *)
Theorem mmu_map_ok (s : mmu_state A) (va pa size : Z) (cfg : mmu_pg_cfg) (k : nat)
    (Hwf : wf m (tables s)) (Hinv : Inv (ast s) (dom (tables s)) k)
    (Hk : (3 * Z.to_nat (size / g_bytes g) <= k)%nat)
    (Hva : is_u64 va) (Hsize : is_u64 size) (Hcfg : cfg_ok cfg)
    (Hbits : 0 < va_addr_bits_ m < 64) (Hbits' : va_addr_bits_ m <= tbits g)
    (Hrange : is_in_range m va size = true)
    (Halign : size mod g_bytes g = 0 /\ va mod g_bytes g = 0 /\ pa mod g_bytes g = 0)
    (Hpa : 0 <= pa /\ pa + size <= 2 ^ 48)
    (Hno : no_tables_inside (tables s) (va / 2 ^ tbits g) va (va + size)) :
  wp (mmu_map (Some m) va pa size cfg)
     (fun r s' => r = MMU_MAP_OK /\ wf m (tables s') /\
        (forall x, va <= x < va + size ->
           mmu_walk_page (Some m) x s' = Ok (MMU_WALK_PAGE_MAPPED cfg (pa + (x - va)), s')) /\
        (forall x, x / 2 ^ tbits g = va / 2 ^ tbits g -> ~ (va <= x < va + size) ->
           exists r, mmu_walk_page (Some m) x s = Ok (r, s) /\ mmu_walk_page (Some m) x s' = Ok (r, s')))
     s.
Proof.
  eapply wp_mono; [by apply (mmu_map_spec s va pa size cfg k)|]. intros r s' (-> & HM & Hw & _).
  destruct (mapped_walks s s' va size _ Hwf HM) as [H1 H2]. split; [done|]. split; [apply HM|]. split; [|done].
  intros x Hx. rewrite H1; [done|done|by apply Hw].
Qed.

End Map.
