(* ===== verification/MmuUnmap.v ===== *)
(** * MmuUnmap: unmapping, fresh mappings, and the witnesses of the mmu

    [mmu_unmap] of a range that is mapped, on the same tree of tables as
    MmuSpec.v; the empty mapping [mmu_mapping_new] returns; three inputs on
    which the code does not do what it means to do; and a bump allocator that
    satisfies the allocator interface, on which the theorems are run. *)

From Stdlib Require Import ZArith Lia.
From stdpp Require Import base tactics numbers gmap list.
From S2P Require Import Prelude KMath MmuDc Mmu MmuReach MmuSpec.

Open Scope Z_scope.
Open Scope kmonad_scope.

Section Unmap.
Context {A : Type} (m : mmu_mapping A) (Inv : A -> gset Z -> nat -> Prop).
Context `{TA : !TableAllocator m Inv}.

Abbreviation g := (g_ m).
Abbreviation L := (lmax g).
Abbreviation idx va n := (table_index va g (Z.of_nat n)).

Definition is_mapped (T : gmap Z (gmap Z Z)) (va : Z) : Prop :=
  exists cfg pa, outcome m T va (MMU_WALK_PAGE_MAPPED cfg pa).

(** On the path of a mapped address every descriptor is valid. *)
Lemma mapped_valid T va n t dc :
  wf m T -> Z.of_nat n <= L -> is_mapped T va -> reach m T va n = Some t ->
  entry T t (idx va n) = Some dc -> dc_get_valid dc = true.
Proof.
  intros W Hn (cfg & pa & Ho) Hr He. destruct (dc_get_valid dc) eqn:Hv; [done|exfalso].
  assert (outcome m T va MMU_WALK_PAGE_UNMAPPED) as Hu.
  { exists n, dc. split; [|unfold dc_result; by rewrite Hv].
    split; [done|]. split; [by exists t|]. unfold is_tbl. by rewrite Hv. }
  by pose proof (outcome_unique _ _ _ _ _ Ho Hu).
Qed.

Lemma unmap_descend_spec fuel (s : mmu_state A) va n t target k :
  wf m (tables s) -> (n <= target)%nat -> Z.of_nat target <= L -> is_mapped (tables s) va ->
  Inv (ast s) (dom (tables s)) (k + (target - n)) ->
  reach m (tables s) va n = Some t -> (target - n < fuel)%nat ->
  wp (unmap_descend fuel m va t (Z.of_nat n) (Z.of_nat target))
     (fun r s' => exists t', r = inl t' /\ grown m s s' va n target /\
        reach m (tables s') va target = Some t' /\
        exists k', (k <= k')%nat /\ Inv (ast s') (dom (tables s')) k') s.
Proof.
  revert s n t k. induction fuel as [|fuel IH]; intros s n t k W Hnt HtL Hmap HI Hr Hf; [lia|].
  cbn [unmap_descend]. destruct (Z.ltb_spec (Z.of_nat n) (Z.of_nat target)) as [Hlt|Hge]; cycle 1.
  { assert (n = target) as -> by lia. apply wp_ret. exists t. split; [done|].
    split; [by apply grown_refl|]. split; [done|].
    exists (k + (target - target))%nat. split; [lia|done]. }
  apply wp_bind, wp_modify.
  set (s0 := set_info _ s). assert (tables s0 = tables s) as E0 by done.
  assert (ast s0 = ast s) as Ea by done. clearbody s0. rewrite <- E0, <- Ea in *.
  destruct (wf_entry m _ va n t W ltac:(lia) Hr) as (dc & Hdc & Hok).
  assert (forall nt s1, grown m s0 s1 va n (S n) -> reach m (tables s1) va (S n) = Some nt ->
    forall j, (k + (target - S n) <= j)%nat -> Inv (ast s1) (dom (tables s1)) j ->
    wp (unmap_descend fuel m va nt (Z.of_nat n + 1) (Z.of_nat target))
      (fun r s' => exists t', r = inl t' /\ grown m s s' va n target /\
        reach m (tables s') va target = Some t' /\
        exists k', (k <= k')%nat /\ Inv (ast s') (dom (tables s')) k') s1) as Hnext.
  { intros nt s1 G1 R1 j Hj I1. replace (Z.of_nat n + 1) with (Z.of_nat (S n)) by lia.
    eapply wp_mono.
    { apply (IH s1 (S n) nt (j - (target - S n))%nat); [apply G1|lia|done| | |done|lia].
      - destruct Hmap as (cfg & pa & Ho). exists cfg, pa. by apply (gr_outcome _ _ _ _ _ _ G1).
      - by replace (j - (target - S n) + (target - S n))%nat with j by lia. }
    intros r s2 (t' & -> & G2 & R2 & k' & Hk' & I2). exists t'. split; [done|].
    split; [|split; [done|exists k'; split; [lia|done]]].
    eapply (grown_tables m s0 s s2 s2); [done|done|]. by eapply grown_trans; [|done|done]; lia. }
  apply wp_bind. eapply wp_get_dc; [done|].
  assert (exists j, k + (target - n) = S j)%nat as [j Hj] by (exists (k + (target - S n))%nat; lia).
  pose proof (mapped_valid _ va n t dc W ltac:(lia) Hmap Hr Hdc) as Hv. rewrite Hv. cbn [negb].
  apply wp_bind. destruct (dc_type_ok m n dc Hok Hv ltac:(lia)) as [[Et Ei]|[Et Ei]].
  - eapply wp_lift; [exact Et|]. cbv beta iota. apply wp_bind.
    unfold tbl_from_td. apply wp_bind. eapply wp_lift; [exact Et|].
    apply wp_bind, wp_ASSERT; [done|]. apply wp_ret.
    assert (reach m (tables s0) va (S n) = Some (next_tbl m dc)) as R1.
    { cbn [reach]. rewrite Hr. cbn. rewrite Hdc. cbn. by rewrite Ei. }
    eapply (Hnext _ s0); [by apply grown_refl|done| |done]. lia.
  - assert (dc_get_type dc g (Z.of_nat n) = Ok MMU_DESCRIPTOR_BLOCK) as Eb.
    { destruct Et as [|Et]; [done|]. unfold dc_get_type in Et. fold (lmax g) in Et.
      destruct (Z.eqb_spec (Z.of_nat n) L); [lia|]. by destruct (get_field 1 1 dc =? 0). }
    eapply wp_lift; [exact Eb|]. cbv beta iota. apply wp_bind. eapply wp_mono.
    { eapply (grow_block m Inv s0 va n t dc j); try done; [by rewrite <- Hj|lia]. }
    intros nt s1 (G1 & R1 & I1). eapply Hnext; [done|done| |done]. lia.
Qed.

(** the translation of an unmapped range *)
Definition gone (x : Z) : mmu_walk_result := MMU_WALK_PAGE_UNMAPPED.

Lemma unmap_round_spec (s : mmu_state A) va size k :
  wf m (tables s) -> Inv (ast s) (dom (tables s)) (3 + k) -> is_mapped (tables s) va ->
  g_bytes g <= size -> va mod g_bytes g = 0 ->
  no_tables_inside m (tables s) (va / 2 ^ tbits g) va (va + size) ->
  wp (unmap_round m va size)
     (fun c s' => g_bytes g <= c <= size /\ c mod g_bytes g = 0 /\
        mapped m s s' va c gone /\
        no_tables_inside m (tables s') (va / 2 ^ tbits g) (va + c) (va + size) /\
        exists k', (k <= k')%nat /\ Inv (ast s') (dom (tables s')) k') s.
Proof.
  intros W HI Hmap Hsz Hva Hno. destruct (levels_bounds g) as (Hpb & Hib & HL & Hg).
  unfold unmap_round.
  destruct (target_loop_spec m 4 s size va 0 1 0) as (tl & Htl1 & HtlL & Ht & Hc & Hvc & _);
    [lia|lia|done|done|apply Z.mod_0_l; lia|].
  apply wp_bind. unfold wp at 1, get_target_lvl. change MMU_TBL_LV1 with (Z.of_nat 1). rewrite Ht.
  cbv beta iota. apply wp_bind. eapply wp_mono.
  { change MMU_TBL_LV0 with (Z.of_nat 0).
    apply (unmap_descend_spec 4 s va 0 (tbl_ m) tl (3 + k - tl)); [done|lia|done|done| |done|lia].
    by replace (3 + k - tl + (tl - 0))%nat with (3 + k)%nat by lia. }
  intros r s1 (t & -> & G & R1 & k' & Hk' & I1). cbv iota.
  destruct (wf_entry m _ va tl t (gr_wf _ _ _ _ _ _ G) HtlL R1) as (old & Hold & Hok).
  pose proof (target_not_table m s s1 va size tl t old G HtlL R1 Hold Hvc Hc Hno) as Hot.
  assert (dc_get_valid old = true) as Hv.
  { eapply mapped_valid; [apply G|done| |done|done]. destruct Hmap as (cfg & pa & Ho).
    exists cfg, pa. by apply (gr_outcome _ _ _ _ _ _ G). }
  apply wp_bind. eapply wp_get_dc; [done|].
  apply wp_bind. eapply tbl_put_wp; [done|]. set (s2 := MkMmu _ _ _).
  destruct (dc_type_ok m tl old Hok Hv HtlL) as [[_ ?]|[Et _]]; [congruence|].
  assert (exists ty, dc_get_type old g (Z.of_nat tl) = Ok ty /\
            bool_decide (ty = MMU_DESCRIPTOR_TABLE) = false) as (ty & Ety & Hty)
    by (destruct Et as [Et|Et]; rewrite Et; eauto).
  apply wp_bind. eapply wp_lift; [exact Ety|]. rewrite Hty. cbn [andb].
  apply wp_bind, wp_ret, wp_ret. destruct (cover_granules m tl HtlL) as [Hg1 Hg2].
  destruct (zero_dc m tl) as [Hdok Hdt].
  destruct (write_leaf m s s1 s2 va size tl t old 0 gone G HtlL R1 Hold Hvc Hc Hno Hdok Hdt)
    as [M1 No1]; [done|done|].
  split_and!; try done. exists k'. split; [lia|]. cbn. by rewrite dom_put_entry.
Qed.

Lemma unmap_loop_spec fuel (s : mmu_state A) va size k :
  wf m (tables s) -> Inv (ast s) (dom (tables s)) k -> (3 * Z.to_nat (size / g_bytes g) <= k)%nat ->
  0 <= size -> size mod g_bytes g = 0 -> va mod g_bytes g = 0 ->
  0 <= va -> va + size <= 2 ^ 64 ->
  (0 < size -> va / 2 ^ tbits g = (va + size - 1) / 2 ^ tbits g) ->
  (forall x, va <= x < va + size -> is_mapped (tables s) x) ->
  no_tables_inside m (tables s) (va / 2 ^ tbits g) va (va + size) ->
  (Z.to_nat (size / g_bytes g) < fuel)%nat ->
  wp (unmap_loop fuel m va size)
     (fun r s' => r = MMU_UNMAP_OK /\ mapped m s s' va size gone /\
        exists k', (k <= 3 * Z.to_nat (size / g_bytes g) + k')%nat /\ Inv (ast s') (dom (tables s')) k') s.
Proof.
  destruct (levels_bounds g) as (Hpb & Hib & HL & Hg).
  assert (0 < g_bytes g) as Hg0 by lia.
  pose proof (tbits_pos g) as HT0.
  revert s va size k. induction fuel as [|fuel IH];
    intros s va size k W HI Hk Hsz Hszm Hva Hva0 Hvae Hwin Hmap Hno Hf; [lia|].
  cbn [unmap_loop]. destruct (Z.ltb_spec 0 size) as [Hpos|Hz]; cycle 1.
  { assert (size = 0) as -> by lia. apply wp_ret. split; [done|]. split; [by apply mapped_nil|]. exists k. split; [lia|done]. }
  assert (g_bytes g <= size) as Hgs by (pose proof (Z.div_mod size (g_bytes g)); nia).
  assert (1 <= size / g_bytes g) as Hq1 by (apply Z.div_le_lower_bound; lia).
  specialize (Hwin Hpos). rewrite Hszm, Hva. cbn [Z.eqb negb orb].
  apply wp_bind. eapply wp_mono.
  { apply (unmap_round_spec s va size (k - 3)); try done; [|apply Hmap; lia].
    by replace (3 + (k - 3))%nat with k by lia. }
  intros c s1 (Hc & Hcm & M1 & No1 & k1 & Hk1 & I1).
  rewrite (wrap_small 64 (size - c)) by (unfold u_range; lia).
  assert (size / g_bytes g = c / g_bytes g + (size - c) / g_bytes g) as Hdiv.
  { apply Z.mod_divide in Hcm as [q Eq]; [|lia]. replace size with (size - c + q * g_bytes g) at 1 by lia.
    rewrite Z.div_add, Eq, Z.div_mul by lia. lia. }
  assert (1 <= c / g_bytes g) by (apply Z.div_le_lower_bound; lia).
  assert (0 <= (size - c) / g_bytes g) by (apply Z.div_pos; lia).
  destruct (Z.eq_dec c size) as [->|Hne].
  { rewrite Z.sub_diag. destruct fuel as [|fuel]; [lia|]. cbn [unmap_loop]. apply wp_ret. split; [done|]. split; [done|]. exists k1. split; [lia|done]. }
  rewrite (wrap_small 64 (va + c)) by (unfold u_range; lia).
  assert (forall x, va <= x <= va + size - 1 -> x / 2 ^ tbits g = va / 2 ^ tbits g) as Hw
    by (intros x Hx; apply (div_window va (va + size - 1)); done || lia).
  eapply wp_mono.
  { apply (IH s1 (va + c) (size - c) k1); try done; try lia.
    - apply M1.
    - by rewrite Zminus_mod, Hszm, Hcm.
    - by rewrite Zplus_mod, Hva, Hcm.
    - intros _. by rewrite (Hw (va + c)), (Hw (va + c + (size - c) - 1)) by lia.
    - intros x Hx. destruct (Hmap x) as (cfg & pa & Ho); [lia|]. exists cfg, pa.
      apply (mp_out _ _ _ _ _ _ M1); [apply Hw; lia|lia|done].
    - rewrite (Hw (va + c)) by lia. by replace (va + c + (size - c)) with (va + size) by lia. }
  cbn beta. intros r s2 (-> & M2 & k2 & Hk2 & I2). split; [done|]. split; [|exists k2; split; [lia|done]].
  apply (mapped_app m s s1 s2 va c size); [lia|apply Hw; lia|done|done].
Qed.

Lemma mmu_unmap_spec (s : mmu_state A) (va size : Z) (k : nat) :
  wf m (tables s) -> Inv (ast s) (dom (tables s)) k -> (3 * Z.to_nat (size / g_bytes g) <= k)%nat ->
  0 <= va /\ va + size <= 2 ^ 64 -> 0 < size -> size mod g_bytes g = 0 /\ va mod g_bytes g = 0 ->
  va / 2 ^ tbits g = (va + size - 1) / 2 ^ tbits g -> (forall x, va <= x < va + size -> is_mapped (tables s) x) ->
  no_tables_inside m (tables s) (va / 2 ^ tbits g) va (va + size) ->
  wp (mmu_unmap (Some m) va size) (fun r s' => r = MMU_UNMAP_OK /\ mapped m s s' va size gone /\
    exists k', (k <= 3 * Z.to_nat (size / g_bytes g) + k')%nat /\ Inv (ast s') (dom (tables s')) k') s.
Proof.
  intros Hwf Hinv Hk Hva Hsize (A1 & A2) Hwin Hmap Hno. unfold mmu_unmap. destruct (Z.eqb_spec size 0); [lia|].
  destruct (levels_bounds g) as (? & ? & ? & _). apply (unmap_loop_spec _ s va size k); try done; lia.
Qed.

(** C4: [mmu_unmap] of an aligned range all of whose addresses are mapped, with
    three tables per page left in the allocator and no existing table wholly
    inside of the range (where [free_tbl] would panic, see
    [free_tbl_populated_panics]), succeeds and unmaps exactly this range:
    afterwards no address of it translates,
    blocks that straddle its ends are split, and every other address of the
    same half of the address space translates as before. *)
Theorem mmu_unmap_ok (s : mmu_state A) (va size : Z) (k : nat)
    (Hwf : wf m (tables s)) (Hinv : Inv (ast s) (dom (tables s)) k)
    (Hk : (3 * Z.to_nat (size / g_bytes g) <= k)%nat)
    (Hva : 0 <= va /\ va + size <= 2 ^ 64) (Hsize : 0 < size)
    (Halign : size mod g_bytes g = 0 /\ va mod g_bytes g = 0)
    (Hwin : va / 2 ^ tbits g = (va + size - 1) / 2 ^ tbits g)
    (Hmap : forall x, va <= x < va + size -> is_mapped (tables s) x)
    (Hno : no_tables_inside m (tables s) (va / 2 ^ tbits g) va (va + size)) :
  wp (mmu_unmap (Some m) va size)
     (fun r s' => r = MMU_UNMAP_OK /\ wf m (tables s') /\
        (forall x, va <= x < va + size ->
           mmu_walk_page (Some m) x s' = Ok (MMU_WALK_PAGE_UNMAPPED, s')) /\
        (forall x, x / 2 ^ tbits g = va / 2 ^ tbits g -> ~ (va <= x < va + size) ->
           exists r, mmu_walk_page (Some m) x s = Ok (r, s) /\ mmu_walk_page (Some m) x s' = Ok (r, s')))
     s.
Proof.
  eapply wp_mono; [by apply (mmu_unmap_spec s va size k)|]. intros r s' (-> & HM & _).
  destruct (mapped_walks m s s' va size _ Hwf HM) as [H1 H2]. split; [done|]. split; [apply HM|]. split; [|done].
  intros x Hx. apply H1; [done|]. destruct (levels_bounds g) as (? & ? & ? & _). apply (div_window va (va + size - 1)); [apply tbits_pos|lia..].
Qed.

End Unmap.

Section Tables.
Context {A : Type} (m : mmu_mapping A).

Abbreviation g := (g_ m).
Abbreviation L := (lmax g).
Abbreviation idx va n := (table_index va g (Z.of_nat n)).

(** ** A fresh mapping *)

Lemma root_only e :
  (forall i, 0 <= i < tbl_entries g -> e !! i = Some 0) ->
  forall T, T !! tbl_ m = Some e ->
  wf m T /\ (forall va n t, Z.of_nat n <= L -> reach m T va (S n) <> Some t) /\
  forall va, outcome m T va MMU_WALK_PAGE_UNMAPPED.
Proof.
  intros He T HT. destruct (levels_bounds g) as (_ & _ & HL & _).
  assert (forall va, entry T (tbl_ m) (idx va 0) = Some 0) as H0.
  { intros va. unfold entry. rewrite HT. apply He, index_range. unfold lmax in *. lia. }
  assert (forall va n t, Z.of_nat n <= L -> reach m T va (S n) <> Some t) as Hr.
  { intros va n. induction n as [|n IH]; intros t Hn.
    - cbn [reach]. cbn. rewrite H0. done.
    - intros Hs. change (reach m T va (S (S n))) with
        (t ← reach m T va (S n); dc ← entry T t (idx va (S n));
         if is_tbl m (S n) dc then Some (next_tbl m dc) else None) in Hs.
      apply bind_Some in Hs as (t' & Ht' & _). by apply (IH t' ltac:(lia)). }
  split; [|split; [done|]].
  - split.
    + intros va n t Hn Ht. destruct n as [|n]; [|by destruct (Hr va n t ltac:(lia) Ht)].
      injection Ht as <-. exists e. split; [done|]. intros i Hi. exists 0.
      split; [by apply He|]. apply zero_dc.
    + intros va n t va' n' Hn Hn' Ht Ht'. destruct n as [|n]; [|by destruct (Hr va n t ltac:(lia) Ht)].
      destruct n' as [|n']; [|by destruct (Hr va' n' t ltac:(lia) Ht')]. by rewrite !key_0.
  - intros va. exists 0%nat, 0. split; [|done]. split; [lia|]. split; [|done].
    exists (tbl_ m). split; [done|]. apply H0.
Qed.

(** ** Where the code goes wrong *)

(** Freeing a last-level table that holds a page, with the level of its
    parent as both [mmu_map] and [mmu_unmap] pass it, panics. *)
Lemma free_scan_panics fuel (s : mmu_state A) tbl e l :
  tables s !! tbl = Some e -> (forall i, i ∈ l -> exists dc, e !! i = Some dc /\ dc_ok m (Z.to_nat L) dc) ->
  (exists i dc, i ∈ l /\ e !! i = Some dc /\ dc_get_valid dc = true) ->
  mfor l (fun i =>
    let* dc := mmu_tbl_get_dc tbl i in
    let* b := is_table_dc dc g (L - 1) in
    if b then
      let* sub := tbl_from_td m dc (L - 1 + 1) in
      free_tbl fuel m sub (L - 1 + 1)
    else ret tt) s = Err EPanic.
Proof.
  intros HT Hok Hex. destruct (levels_bounds g) as (_ & _ & HL & _).
  induction l as [|i l IH]; [destruct Hex as (? & ? & ? & _); set_solver|].
  cbn [mfor]. destruct (Hok i) as (dc & Hi & Hdc); [set_solver|].
  assert (mmu_tbl_get_dc tbl i s = Ok (dc, s)) as Hget.
  { apply get_dc_ok. unfold entry. by rewrite HT. }
  destruct (dc_get_valid dc) eqn:Hv.
  - apply bind_err. erewrite bind_ok by exact Hget.
    destruct Hdc as [_ Hdc]. destruct (Hdc Hv) as [Hp _]. specialize (Hp ltac:(lia)).
    rewrite Z2Nat.id in Hp by lia.
    assert (is_table_dc dc g (L - 1) s = Ok (true, s)) as Ht.
    { unfold is_table_dc. rewrite Hv. unfold dc_get_type in *. fold (lmax g) in *.
      rewrite Z.eqb_refl in Hp. destruct (Z.eqb_spec (L - 1) L); [lia|].
      destruct (Z.eqb_spec (get_field 1 1 dc) 1) as [E|]; [|done]. rewrite E. done. }
    erewrite bind_ok by exact Ht. cbv iota. apply bind_err.
    unfold tbl_from_td. replace (L - 1 + 1) with L by lia.
    unfold bind, lift. rewrite Hp. done.
  - erewrite bind_ok.
    + apply IH; [set_solver|]. destruct Hex as (j & d & Hj & Hd & Hdv).
      apply elem_of_cons in Hj as [->|Hj]; [congruence|]. eauto.
    + erewrite bind_ok by exact Hget. unfold is_table_dc. rewrite Hv. done.
Qed.

(** replacing a populated last-level table by a block, or unmapping the
    whole range it describes, panics: the table is released with the level of
    its parent, so that its page descriptors are taken for table
    descriptors. *)
Theorem free_tbl_populated_panics (fuel : nat) (s : mmu_state A) (tbl : Z) (e : gmap Z Z)
    (Htbl : tables s !! tbl = Some e)
    (Hok : forall i, 0 <= i < tbl_entries g -> exists dc, e !! i = Some dc /\ dc_ok m (Z.to_nat L) dc)
    (Hpage : exists i dc, 0 <= i < tbl_entries g /\ e !! i = Some dc /\ dc_get_valid dc = true) :
  free_tbl (S fuel) m tbl (L - 1) s = Err EPanic.
Proof.
  cbn [free_tbl]. apply bind_err. eapply free_scan_panics; [done| |].
  - intros i Hi%elem_of_seqZ. apply Hok. lia.
  - destruct Hpage as (i & dc & Hi & ?). exists i, dc. split; [|done]. apply elem_of_seqZ. lia.
Qed.

(** Along tables that already exist the descent changes nothing. *)
Lemma unmap_descend_tables fuel (s : mmu_state A) va n tn target t :
  wf m (tables s) -> (n <= target)%nat -> Z.of_nat target <= L ->
  reach m (tables s) va n = Some tn -> reach m (tables s) va target = Some t ->
  (target - n < fuel)%nat ->
  exists s', unmap_descend fuel m va tn (Z.of_nat n) (Z.of_nat target) s = Ok (inl t, s') /\
    tables s' = tables s.
Proof.
  revert s n tn. induction fuel as [|fuel IH]; intros s n tn W Hnt HtL Hn Ht Hf; [lia|].
  cbn [unmap_descend]. destruct (Z.ltb_spec (Z.of_nat n) (Z.of_nat target)) as [Hlt|Hge]; cycle 1.
  { assert (n = target) as -> by lia. exists s. rewrite Hn in Ht. by injection Ht as ->. }
  erewrite bind_ok by done. set (s0 := set_info _ s).
  destruct (wf_entry m _ va n tn W ltac:(lia) Hn) as (dc & Hdc & Hok).
  erewrite bind_ok; [|by apply get_dc_ok].
  assert (is_tbl m n dc = true) as Ei.
  { destruct (is_tbl m n dc) eqn:Ei; [done|exfalso].
    assert (forall j, (n < j)%nat -> reach m (tables s) va j = None) as Hj.
    { intros j Hj. induction Hj as [|j Hj IHj]; cbn [reach].
      - rewrite Hn. cbn. rewrite Hdc. cbn. by rewrite Ei.
      - by rewrite IHj. }
    rewrite Hj in Ht by lia. done. }
  assert (dc_get_valid dc = true) as Hv by (unfold is_tbl in Ei; by apply andb_true_iff in Ei as [? _]).
  destruct (dc_type_ok m n dc Hok Hv ltac:(lia)) as [[Et _]|[_ ?]]; [|congruence].
  rewrite Hv. cbn [negb]. erewrite bind_ok; [|unfold lift; by rewrite Et]. cbv beta iota.
  erewrite bind_ok; [|unfold tbl_from_td, bind, lift, ASSERT, ret; by rewrite Et].
  replace (Z.of_nat n + 1) with (Z.of_nat (S n)) by lia. fold (next_tbl m dc).
  apply (IH s0 (S n)); [done|lia|done| |done|lia].
  change (tables s0) with (tables s). cbn [reach]. rewrite Hn. cbn. rewrite Hdc. cbn. by rewrite Ei.
Qed.

(** Unmapping a page that is already unmapped, while its last-level
    table exists, panics instead of doing nothing: the type of the null
    descriptor is asked for before its validity. *)
Theorem unmap_unmapped_page_panics (s : mmu_state A) (va t : Z)
    (Hwf : wf m (tables s)) (Hva : va mod g_bytes g = 0)
    (Ht : reach m (tables s) va (Z.to_nat L) = Some t)
    (Hdc : entry (tables s) t (idx va (Z.to_nat L)) = Some 0) :
  mmu_unmap (Some m) va (g_bytes g) s = Err EPanic.
Proof.
  destruct (levels_bounds g) as (Hpb & Hib & HL & Hg). assert (0 < g_bytes g) by lia.
  unfold mmu_unmap. destruct (Z.eqb_spec (g_bytes g) 0); [lia|]. cbn [unmap_loop].
  destruct (Z.ltb_spec 0 (g_bytes g)); [|lia]. rewrite Z.mod_same, Hva by lia. cbn [Z.eqb negb orb].
  apply bind_err. unfold unmap_round.
  destruct (target_loop_spec m 4 s (g_bytes g) va 0 1 0) as (tl & Htl1 & HtlL & Hl & Hc & _ & _);
    [lia|lia|lia|done|apply Z.mod_0_l; lia|].
  unfold get_target_lvl. change MMU_TBL_LV1 with (Z.of_nat 1). erewrite bind_ok by exact Hl.
  cbv beta iota. rewrite Hg in Hc. apply (Z.pow_le_mono_r_iff 2) in Hc; [|lia|unfold sh; nia].
  assert (tl = Z.to_nat L) as -> by (unfold sh in Hc; nia).
  change MMU_TBL_LV0 with (Z.of_nat 0).
  destruct (unmap_descend_tables 4 s va 0 (tbl_ m) (Z.to_nat L) t) as (s' & E & ET);
    [done|lia|lia|done|done|lia|].
  erewrite bind_ok by exact E. cbv iota. rewrite <- ET in Hdc.
  erewrite bind_ok by (by apply get_dc_ok). unfold tbl_put.
  erewrite bind_ok by (erewrite bind_ok by (by apply get_dc_ok); reflexivity).
  apply bind_err. unfold lift, dc_get_type. fold (lmax g). rewrite Z2Nat.id by lia.
  by rewrite Z.eqb_refl.
Qed.

End Tables.

(** ** Properties of descriptors and fresh mappings *)

(** A block or page descriptor is valid, has the type of its level and
    returns the configuration and the output address it was built from; a
    table descriptor returns the table it points to. *)
Theorem descriptor_roundtrip (cfg : mmu_pg_cfg) (a : Z) (g : mmu_granularity) (l : Z)
    (Hcfg : cfg_ok cfg) (Ha : 0 <= a < 2 ^ 48) (Hg : (g_bytes g | a)) :
  dc_get_valid (bd_build cfg a g l) = true /\
  dc_get_type (bd_build cfg a g l) g l =
    Ok (if l =? max_level g then MMU_DESCRIPTOR_PAGE else MMU_DESCRIPTOR_BLOCK) /\
  cfg_from_dc (bd_build cfg a g l) = cfg /\
  dc_get_output_address (bd_build cfg a g l) g = a /\
  dc_get_valid (td_build 0 a) = true /\ dc_get_output_address (td_build 0 a) g = a.
Proof.
  destruct (bd_build_spec cfg a g l Hcfg Ha Hg) as (_ & H1 & H2 & H3 & H4).
  destruct (td_build_spec 0 a g (-1)) as (_ & H5 & _ & H6);
    [lia|by rewrite Z.sub_0_r|by destruct g|].
  rewrite Z.sub_0_r in H6. done.
Qed.

Definition test_cfg : mmu_pg_cfg := mmu_pg_cfg_new 1 0 3 false true true true 5.

Lemma test_cfg_ok : cfg_ok test_cfg.
Proof. unfold cfg_ok, u_range. simpl. lia. Qed.

Lemma descriptor_roundtrip_witness :
  cfg_from_dc (bd_build test_cfg 0x40000000 MMU_GRANULARITY_4KB 3) = test_cfg.
Proof.
  apply (descriptor_roundtrip test_cfg 0x40000000 MMU_GRANULARITY_4KB 3);
    [apply test_cfg_ok|lia|exists 0x40000; reflexivity].
Defined.

(** [mmu_mapping_new] yields a well-formed mapping in which no address
    translates and which has no table but its root. *)
Theorem mmu_mapping_new_ok {A : Type} (Inv : A -> gset Z -> nat -> Prop)
    (rng : mmu_tbl_rng) (g : mmu_granularity) (bits off : Z)
    (allocator : Z -> A -> res (Z * A)) (allocator_free : Z -> A -> res A)
    (s : mmu_state A) (k : nat)
    (TA : TableAllocator (MkMapping rng g bits off 0 allocator allocator_free) Inv)
    (Hinv : Inv (ast s) (dom (tables s)) (S k)) :
  wp (mmu_mapping_new rng g bits off (Some allocator) allocator_free)
     (fun m s' => wf m (tables s') /\ Inv (ast s') (dom (tables s')) k /\
        g_ m = g /\ allocator_ m = allocator /\
        (forall va n t, Z.of_nat n <= lmax g -> reach m (tables s') va (S n) <> Some t) /\
        (forall va, mmu_walk_page (Some m) va s' = Ok (MMU_WALK_PAGE_UNMAPPED, s'))) s.
Proof.
  destruct (ta_alloc _ _ _ Hinv) as (va & a' & Hal & Hfresh & _ & HI'). cbn in Hal.
  unfold mmu_mapping_new, call_allocator. apply wp_bind, wp_bind, wp_gets.
  apply wp_bind. eapply wp_lift; [exact Hal|]. cbv beta iota.
  apply wp_bind, wp_modify. apply wp_bind, wp_modify. apply wp_ret, wp_ret.
  set (m := MkMapping rng g bits off va allocator allocator_free). set (s' := set_tables _ _).
  destruct (root_only m (array (tbl_entries g) (fun _ => 0))) with (T := tables s') as (W & Hr & Ho).
  { intros i Hi. rewrite array_lookup. by rewrite decide_True. }
  { cbn. by rewrite lookup_insert_eq. }
  split_and!; try done.
  - cbn. by rewrite dom_insert_L.
  - intros x. apply walk_outcome; [done|]. apply Ho.
Qed.

(** ** A bump allocator *)

(** tables of 4 KiB from a counter; nothing is ever given back *)
Definition bump_alloc (bytes a : Z) : res (Z * Z) := Ok (a, a + bytes).
Definition bump_free (tbl a : Z) : res Z := Ok a.

Definition bump_inv (a : Z) (live : gset Z) (k : nat) : Prop :=
  0 <= a /\ a mod 4096 = 0 /\ a + 4096 * Z.of_nat k <= 2 ^ 48 /\ forall t, t ∈ live -> t < a.

Definition test_mapping (tbl : Z) : mmu_mapping Z :=
  MkMapping MMU_LO MMU_GRANULARITY_4KB 48 0 tbl bump_alloc bump_free.

#[export] Instance bump_allocator tbl : TableAllocator (test_mapping tbl) bump_inv.
Proof.
  split. intros a live k (H0 & Hm & Hb & Hl). exists a, (a + 4096). split_and!.
  - reflexivity.
  - intros Hin. apply Hl in Hin. lia.
  - unfold table_addr, u_range. cbn. rewrite Z.sub_0_r. split_and!; try lia; [done|].
    by apply Z.mod_divide.
  - split_and!; [lia| |lia|].
    + by rewrite Zplus_mod, Hm.
    + intros t [Ht%elem_of_singleton|Ht]%elem_of_union; [lia|]. apply Hl in Ht. lia.
Qed.

(** A root table at 0x1000 and nothing mapped. *)
Definition test_state : mmu_state Z :=
  MkMmu {[ 0x1000 := array 512 (fun _ => 0) ]} 0x2000 (Some mmu_op_info_new).

Abbreviation tm := (test_mapping 0x1000).

Lemma test_root :
  wf tm (tables test_state) /\
  (forall va n t, Z.of_nat n <= lmax (g_ tm) -> reach tm (tables test_state) va (S n) <> Some t) /\
  forall va, outcome tm (tables test_state) va MMU_WALK_PAGE_UNMAPPED.
Proof.
  apply (root_only tm (array 512 (fun _ => 0))).
  - intros i Hi. rewrite array_lookup. by rewrite decide_True.
  - apply lookup_singleton_eq.
Qed.

Lemma test_bump k : (k <= 1000)%nat -> bump_inv (ast test_state) (dom (tables test_state)) k.
Proof.
  intros Hk. split_and!; [done|done|cbn; lia|].
  intros t. cbn. rewrite dom_singleton_L. intros ->%elem_of_singleton. done.
Qed.

Lemma test_no_tables win lo hi : no_tables_inside tm (tables test_state) win lo hi.
Proof. intros va n t Hn _ Hr. by apply test_root in Hr; [|lia]. Qed.

(** Two pages across a 2 MiB boundary. *)
Lemma mmu_map_ok_witness :
  wp (mmu_map (Some tm) 0x1ff000 0x40000000 0x2000 test_cfg)
     (fun r s' => r = MMU_MAP_OK /\ wf tm (tables s') /\
        (forall x, 0x1ff000 <= x < 0x1ff000 + 0x2000 ->
           mmu_walk_page (Some tm) x s' =
             Ok (MMU_WALK_PAGE_MAPPED test_cfg (0x40000000 + (x - 0x1ff000)), s')) /\
        (forall x, x / 2 ^ tbits (g_ tm) = 0x1ff000 / 2 ^ tbits (g_ tm) ->
           ~ (0x1ff000 <= x < 0x1ff000 + 0x2000) ->
           exists r, mmu_walk_page (Some tm) x test_state = Ok (r, test_state) /\
                     mmu_walk_page (Some tm) x s' = Ok (r, s'))) test_state.
Proof.
  apply (mmu_map_ok tm bump_inv test_state 0x1ff000 0x40000000 0x2000 test_cfg 6);
    [apply test_root|apply test_bump; lia|vm_compute; lia|unfold u_range; lia|unfold u_range; lia
    |apply test_cfg_ok|cbn; lia|vm_compute; congruence|vm_compute; reflexivity
    |split_and!; reflexivity|lia|apply test_no_tables].
Defined.

Lemma mmu_mapping_new_ok_witness :
  wp (mmu_mapping_new MMU_LO MMU_GRANULARITY_4KB 48 0 (Some bump_alloc) bump_free)
     (fun m s' => wf m (tables s') /\ bump_inv (ast s') (dom (tables s')) 6 /\
        g_ m = MMU_GRANULARITY_4KB /\ allocator_ m = bump_alloc /\
        (forall va n t, Z.of_nat n <= lmax MMU_GRANULARITY_4KB ->
           reach m (tables s') va (S n) <> Some t) /\
        (forall va, mmu_walk_page (Some m) va s' = Ok (MMU_WALK_PAGE_UNMAPPED, s'))) test_state.
Proof.
  apply (mmu_mapping_new_ok bump_inv MMU_LO MMU_GRANULARITY_4KB 48 0 bump_alloc bump_free test_state 6);
    [apply (bump_allocator 0)|apply test_bump; lia].
Defined.

(** The first GiB as one block. *)
Definition block_state : mmu_state Z :=
  match map_round tm 0 0x40000000 0x40000000 test_cfg test_state with
  | Ok (_, s) => s
  | Err _ => test_state
  end.

Lemma block_state_ok :
  wf tm (tables block_state) /\
  (forall x, 0 <= x < 0x40000000 -> is_mapped tm (tables block_state) x) /\
  exists k, (10 <= k)%nat /\ bump_inv (ast block_state) (dom (tables block_state)) k.
Proof.
  assert (match map_round tm 0 0x40000000 0x40000000 test_cfg test_state with
          | Ok (c, _) => c | Err _ => 0 end = 0x40000000) as Hc by (vm_compute; reflexivity).
  pose proof (map_round_spec tm bump_inv test_state 0 0x40000000 0x40000000 test_cfg 10) as Hw.
  unfold wp, block_state in *.
  destruct (map_round tm 0 0x40000000 0x40000000 test_cfg test_state) as [[c s]|e]; [subst c|done].
  destruct Hw as (_ & _ & [W Hin _] & _ & Hk);
    [apply test_root|apply test_bump; lia|apply test_cfg_ok|cbn; lia|done..|lia| |apply test_no_tables|].
  { lia. }
  split; [done|]. split; [|done]. intros x Hx. eexists _, _. apply (Hin x); [|lia].
  change (tbits (g_ tm)) with 48. rewrite !Z.div_small by lia. done.
Qed.

(** one page out of the block *)
Lemma mmu_unmap_ok_witness :
  wp (mmu_unmap (Some tm) 0x1000 0x1000)
     (fun r s' => r = MMU_UNMAP_OK /\ wf tm (tables s') /\
        (forall x, 0x1000 <= x < 0x1000 + 0x1000 ->
           mmu_walk_page (Some tm) x s' = Ok (MMU_WALK_PAGE_UNMAPPED, s')) /\
        (forall x, x / 2 ^ tbits (g_ tm) = 0x1000 / 2 ^ tbits (g_ tm) ->
           ~ (0x1000 <= x < 0x1000 + 0x1000) ->
           exists r, mmu_walk_page (Some tm) x block_state = Ok (r, block_state) /\
                     mmu_walk_page (Some tm) x s' = Ok (r, s'))) block_state.
Proof.
  destruct block_state_ok as (W & Hmap & k & Hk & HI).
  apply (mmu_unmap_ok tm bump_inv block_state 0x1000 0x1000 k);
    [exact W|exact HI|change (g_bytes (g_ tm)) with 0x1000; rewrite Z.div_same by lia; lia
    |lia|lia|split; reflexivity|vm_compute; reflexivity|intros x Hx; apply Hmap; lia|].
  intros va n t Hn _ _. change (g_ tm) with MMU_GRANULARITY_4KB in *.
  assert (2 ^ 21 <= 2 ^ sh MMU_GRANULARITY_4KB (Z.of_nat n)).
  { apply Z.pow_le_mono_r; [lia|]. unfold sh, lmax, ibits, pbits, max_level, MMU_TBL_LV3 in *. cbn in *. lia. }
  cbv zeta. lia.
Defined.

(** A page mapped at 2 MiB, with its tables. *)
Definition page_state : mmu_state Z :=
  match map_round tm 0x200000 0x40000000 0x1000 test_cfg test_state with
  | Ok (_, s) => s
  | Err _ => test_state
  end.

Lemma page_state_wf : wf tm (tables page_state).
Proof.
  pose proof (map_round_spec tm bump_inv test_state 0x200000 0x40000000 0x1000 test_cfg 10) as Hw.
  unfold wp, page_state in *.
  destruct (map_round tm 0x200000 0x40000000 0x1000 test_cfg test_state) as [[c s]|e];
    [|destruct Hw].
  all: try (apply test_root); try (apply test_bump; lia); try apply test_cfg_ok;
    try apply test_no_tables; try reflexivity; try (cbn; lia); try lia.
  destruct Hw as (_ & _ & [W _ _] & _); try done.
  all: try (apply test_root); try (apply test_bump; lia); try apply test_cfg_ok;
    try apply test_no_tables; try reflexivity; try (cbn; lia); try lia.
Qed.

Lemma unmap_unmapped_page_panics_witness :
  mmu_unmap (Some tm) 0x201000 (g_bytes (g_ tm)) page_state = Err EPanic.
Proof.
  apply (unmap_unmapped_page_panics tm page_state 0x201000 0x4000);
    [apply page_state_wf|reflexivity|vm_compute; reflexivity|vm_compute; reflexivity].
Defined.

Lemma free_tbl_populated_panics_witness :
  free_tbl FREE_FUEL tm 0x4000 (lmax (g_ tm) - 1) page_state = Err EPanic.
Proof.
  assert (reach tm (tables page_state) 0x200000 3 = Some 0x4000) as Hr by (vm_compute; reflexivity).
  destruct (wf_tbl _ _ page_state_wf 0x200000 3 0x4000) as (e & He & Hi);
    [vm_compute; congruence|exact Hr|].
  apply (free_tbl_populated_panics tm 5 page_state 0x4000 e He Hi).
  destruct (tables page_state !! 0x4000) as [e'|] eqn:E; [|discriminate].
  injection He as ->. exists 0, (bd_build test_cfg 0x40000000 MMU_GRANULARITY_4KB 3).
  split; [vm_compute; split; congruence|].
  assert (entry (tables page_state) 0x4000 0 =
            Some (bd_build test_cfg 0x40000000 MMU_GRANULARITY_4KB 3)) as Hent
    by (vm_compute; reflexivity).
  unfold entry in Hent. rewrite E in Hent. split; [exact Hent|vm_compute; reflexivity].
Defined.

(** [mmu_unmap] reports success and leaves a page of the range mapped:
    after an invalid descriptor it skips a whole block from the current
    address on, although this address need not be aligned to that block.
    Here the page at 2 MiB survives the removal of [1 MiB, 3 MiB). *)
Theorem unmap_skips_mapped_page :
  result (let* before := mmu_walk_page (Some tm) 0x200000 in
          let* r := mmu_unmap (Some tm) 0x100000 0x200000 in
          let* after := mmu_walk_page (Some tm) 0x200000 in
          ret (before, r, after)) page_state =
    Ok (MMU_WALK_PAGE_MAPPED test_cfg 0x40000000, MMU_UNMAP_OK,
        MMU_WALK_PAGE_MAPPED test_cfg 0x40000000).
Proof. vm_compute. reflexivity. Qed.
