(* ===== verification/MmuCore.v ===== *)
(** * MmuCore: the per-core mmu handle

    include/arm/mmu.h (core handle) and src/arm/mmu/mmu_core.c: the packed
    flag word of a handle, its construction, and the activation and
    deactivation of the mmu.  The system registers of the calling core are
    the record [cpu]; a [mmu_mapping*] is an address, resolved by the memory
    [mp].  Barriers have no state.  [mmu_core_activate(NULL)] waits forever
    and is left out: a handle is always present here. *)

From Stdlib Require Import ZArith Lia.
From stdpp Require Import base tactics numbers gmap list.
From S2P Require Import Prelude KMath MmuDc Mmu.

Open Scope Z_scope.
Open Scope kmonad_scope.

(** ** State *)

Record cpu : Type := MkCpu {
  SCTLR_EL1 : Z;
  TTBR0_EL1 : Z;
  TTBR1_EL1 : Z;
  MAIR_EL1 : Z;
  TCR_EL1 : Z;
  ID_AA64MMFR0_EL1 : Z;
  mpidr : Z;
  pc : Z
}.

Record mmu_core_handle : Type := MkHandle {
  lo_mapping : Z;
  hi_mapping : Z;
  mpidr_aff : Z;
  flags : Z
}.

Record core_state : Type := MkCore { hw : cpu; ch : mmu_core_handle }.

Definition COREH_DCACHE_SHIFT : Z := 0.
Definition COREH_ICACHE_SHIFT : Z := 1.
Definition COREH_ALIGN_TRAP_SHIFT : Z := 2.
Definition COREH_LO_ENABLE_SHIFT : Z := 3.
Definition COREH_HI_ENABLE_SHIFT : Z := 4.
Definition COREH_LO_BITS_SHIFT : Z := 5.
Definition COREH_HI_BITS_SHIFT : Z := 11.
Definition COREH_LO_GRANULARITY_SHIFT : Z := 17.
Definition COREH_HI_GRANULARITY_SHIFT : Z := 19.
Definition COREH_VA_BITS_WIDTH : Z := 6.
Definition COREH_GRANULARITY_WIDTH : Z := 2.

(** ** Getters (mmu.h) *)

Definition coreh_bit (sh : Z) (h : mmu_core_handle) : bool := negb (get_field sh 1 (flags h) =? 0).

Definition mmu_core_get_d_cache := coreh_bit COREH_DCACHE_SHIFT.
Definition mmu_core_get_i_cache := coreh_bit COREH_ICACHE_SHIFT.
Definition mmu_core_get_align_trap := coreh_bit COREH_ALIGN_TRAP_SHIFT.
Definition mmu_core_get_lo_enabled := coreh_bit COREH_LO_ENABLE_SHIFT.
Definition mmu_core_get_hi_enabled := coreh_bit COREH_HI_ENABLE_SHIFT.

Definition mmu_core_get_lo_va_bits (h : mmu_core_handle) : Z :=
  wrap8 (get_field COREH_LO_BITS_SHIFT COREH_VA_BITS_WIDTH (flags h)).
Definition mmu_core_get_hi_va_bits (h : mmu_core_handle) : Z :=
  wrap8 (get_field COREH_HI_BITS_SHIFT COREH_VA_BITS_WIDTH (flags h)).

(** [TG0_*] and [TG1_*]: the encodings of TCR_EL1 *)
Definition TG0 (g : mmu_granularity) : Z :=
  match g with
  | MMU_GRANULARITY_4KB => 0 | MMU_GRANULARITY_16KB => 2 | MMU_GRANULARITY_64KB => 1
  end.
Definition TG1 (g : mmu_granularity) : Z :=
  match g with
  | MMU_GRANULARITY_4KB => 2 | MMU_GRANULARITY_16KB => 1 | MMU_GRANULARITY_64KB => 3
  end.

Definition mmu_core_get_lo_granularity (h : mmu_core_handle) : res mmu_granularity :=
  let tg0 := get_field COREH_LO_GRANULARITY_SHIFT COREH_GRANULARITY_WIDTH (flags h) in
  if tg0 =? TG0 MMU_GRANULARITY_4KB then Ok MMU_GRANULARITY_4KB
  else if tg0 =? TG0 MMU_GRANULARITY_16KB then Ok MMU_GRANULARITY_16KB
  else if tg0 =? TG0 MMU_GRANULARITY_64KB then Ok MMU_GRANULARITY_64KB
  else Err EPanic.

Definition mmu_core_get_hi_granularity (h : mmu_core_handle) : res mmu_granularity :=
  let tg1 := get_field COREH_HI_GRANULARITY_SHIFT COREH_GRANULARITY_WIDTH (flags h) in
  if tg1 =? TG1 MMU_GRANULARITY_4KB then Ok MMU_GRANULARITY_4KB
  else if tg1 =? TG1 MMU_GRANULARITY_16KB then Ok MMU_GRANULARITY_16KB
  else if tg1 =? TG1 MMU_GRANULARITY_64KB then Ok MMU_GRANULARITY_64KB
  else Err EPanic.

(** ** mmu_core.c *)

Section Core.
Context {A : Type} (mp : Z -> option (mmu_mapping A)).
Abbreviation CM := (M core_state).

Definition set_hw (f : cpu -> cpu) (s : core_state) : core_state := MkCore (f (hw s)) (ch s).
Definition set_ch (f : mmu_core_handle -> mmu_core_handle) (s : core_state) : core_state :=
  MkCore (hw s) (f (ch s)).
Definition set_flags (f : Z -> Z) : CM unit :=
  modify (set_ch (fun h => MkHandle (lo_mapping h) (hi_mapping h) (mpidr_aff h) (f (flags h)))).
Definition set_ttbr0 (v : Z) : CM unit :=
  modify (set_hw (fun c => MkCpu (SCTLR_EL1 c) v (TTBR1_EL1 c) (MAIR_EL1 c) (TCR_EL1 c)
                             (ID_AA64MMFR0_EL1 c) (mpidr c) (pc c))).
Definition set_ttbr1 (v : Z) : CM unit :=
  modify (set_hw (fun c => MkCpu (SCTLR_EL1 c) (TTBR0_EL1 c) v (MAIR_EL1 c) (TCR_EL1 c)
                             (ID_AA64MMFR0_EL1 c) (mpidr c) (pc c))).
Definition set_mair (v : Z) : CM unit :=
  modify (set_hw (fun c => MkCpu (SCTLR_EL1 c) (TTBR0_EL1 c) (TTBR1_EL1 c) v (TCR_EL1 c)
                             (ID_AA64MMFR0_EL1 c) (mpidr c) (pc c))).
Definition set_tcr (v : Z) : CM unit :=
  modify (set_hw (fun c => MkCpu (SCTLR_EL1 c) (TTBR0_EL1 c) (TTBR1_EL1 c) (MAIR_EL1 c) v
                             (ID_AA64MMFR0_EL1 c) (mpidr c) (pc c))).
Definition set_sctlr (v : Z) : CM unit :=
  modify (set_hw (fun c => MkCpu v (TTBR0_EL1 c) (TTBR1_EL1 c) (MAIR_EL1 c) (TCR_EL1 c)
                             (ID_AA64MMFR0_EL1 c) (mpidr c) (pc c))).

Definition mmu_on (sctlr : Z) : bool := negb (Z.land sctlr 1 =? 0).

Definition set_coreid : CM bool :=
  let* c := gets hw in
  modify (set_ch (fun h => MkHandle (lo_mapping h) (hi_mapping h) (mpidr c) (flags h))) ;;
  ret true.

Definition set_lo_mapping (t : Z) : CM unit :=
  modify (set_ch (fun h => MkHandle t (hi_mapping h) (mpidr_aff h) (flags h))).
Definition set_hi_mapping (t : Z) : CM unit :=
  modify (set_ch (fun h => MkHandle (lo_mapping h) t (mpidr_aff h) (flags h))).

(** the translation base of a mapping: [tbl_ - physmap_offset_] *)
Definition table_base (m : mmu_mapping A) : Z := wrap64 (tbl_ m - physmap_offset_ m).

Definition mmu_core_set_mapping (t : Z) : CM bool :=
  let* m := deref (mp t) in
  let* s := gets id in
  let h := ch s in
  if (match rng_ m with MMU_LO => lo_mapping h | MMU_HI => hi_mapping h end) =? t then ret true
  else if negb (mmu_mapping_is_valid (Some m)) then ret false
  else
    (if mmu_on (SCTLR_EL1 (hw s)) then
       match rng_ m with
       | MMU_LO => set_lo_mapping t ;; set_ttbr0 (table_base m)
       | MMU_HI => set_hi_mapping t ;; set_ttbr1 (table_base m)
       end
     else match rng_ m with MMU_LO => set_lo_mapping t | MMU_HI => set_hi_mapping t end) ;;
    ret true.

(** the body shared by the flag setters: refused while the mmu is on *)
Definition flag_setter (sh w v : Z) : CM bool :=
  let* c := gets hw in
  if mmu_on (SCTLR_EL1 c) then ret false
  else set_flags (put_field sh w v) ;; ret true.

Definition mmu_core_set_d_cache (v : bool) : CM bool := flag_setter COREH_DCACHE_SHIFT 1 (Z.b2z v).
Definition mmu_core_set_i_cache (v : bool) : CM bool := flag_setter COREH_ICACHE_SHIFT 1 (Z.b2z v).
Definition mmu_core_set_align_trap (v : bool) : CM bool :=
  flag_setter COREH_ALIGN_TRAP_SHIFT 1 (Z.b2z v).
Definition mmu_core_set_lo_enabled (v : bool) : CM bool :=
  flag_setter COREH_LO_ENABLE_SHIFT 1 (Z.b2z v).
Definition mmu_core_set_hi_enabled (v : bool) : CM bool :=
  flag_setter COREH_HI_ENABLE_SHIFT 1 (Z.b2z v).

Definition va_bits_setter (sh bits : Z) : CM bool :=
  let* c := gets hw in
  if mmu_on (SCTLR_EL1 c) then ret false
  else if Z.shiftl 1 COREH_VA_BITS_WIDTH <=? bits then ret false
  else set_flags (put_field sh COREH_VA_BITS_WIDTH bits) ;; ret true.

(** the parameter is a [uint8_t] *)
Definition mmu_core_set_lo_va_bits (bits : Z) : CM bool := va_bits_setter COREH_LO_BITS_SHIFT (wrap8 bits).
Definition mmu_core_set_hi_va_bits (bits : Z) : CM bool := va_bits_setter COREH_HI_BITS_SHIFT (wrap8 bits).

Definition mmu_core_set_lo_granularity (g : mmu_granularity) : CM bool :=
  flag_setter COREH_LO_GRANULARITY_SHIFT COREH_GRANULARITY_WIDTH (TG0 g).
Definition mmu_core_set_hi_granularity (g : mmu_granularity) : CM bool :=
  flag_setter COREH_HI_GRANULARITY_SHIFT COREH_GRANULARITY_WIDTH (TG1 g).

(** [MMU_CORE_ASSERT_SET(fn)]: [if (!fn) return false] *)
Definition and_then (c k : CM bool) : CM bool := let* b := c in if b then k else ret false.

Definition mmu_core_handle_new (lo hi : Z) (hi_enable lo_enable d_cache i_cache align_trap : bool) : CM bool :=
  match mp lo, mp hi with
  | Some lom, Some him =>
      if bool_decide (rng_ lom <> MMU_LO) then ret false
      else if bool_decide (rng_ him <> MMU_HI) then ret false
      else if negb (mmu_mapping_is_valid (Some lom)) && lo_enable then ret false
      else if negb (mmu_mapping_is_valid (Some him)) && hi_enable then ret false
      else
        and_then (mmu_core_set_mapping lo)
        (and_then (mmu_core_set_mapping hi)
        (and_then (mmu_core_set_d_cache d_cache)
        (and_then (mmu_core_set_i_cache i_cache)
        (and_then (mmu_core_set_align_trap align_trap)
        (and_then (mmu_core_set_lo_enabled lo_enable)
        (and_then (mmu_core_set_hi_enabled hi_enable)
        (and_then (mmu_core_set_lo_va_bits (va_addr_bits_ lom))
        (and_then (mmu_core_set_hi_va_bits (va_addr_bits_ him))
        (and_then (mmu_core_set_lo_granularity (g_ lom))
        (and_then (mmu_core_set_hi_granularity (g_ him))
        set_coreid))))))))))
  | _, _ => panic
  end.

Inductive mmu_activate_result : Type :=
  | MMU_ACTIVATE_OK
  | MMU_ACTIVATE_NOT_THE_SAME_CORE
  | MMU_ACTIVATE_LO_NOT_ENABLED
  | MMU_ACTIVATE_IS_ALREADY_ACTIVE
  | MMU_ACTIVATE_LO_MAPPING_NOT_VALID
  | MMU_ACTIVATE_INVALID_LO_BITS
  | MMU_ACTIVATE_INVALID_HI_BITS
  | MMU_ACTIVATE_INVALID_LO_AND_HI_BITS.

Definition eq_caller_coreid (s : core_state) : bool := mpidr_aff (ch s) =? mpidr (hw s).

(** [tcr] before [IPS] is known *)
Definition activate_tcr (h : mmu_core_handle) : Z :=
  let lo_va_bits := mmu_core_get_lo_va_bits h in
  let hi_va_bits := mmu_core_get_hi_va_bits h in
  let tg0 := get_field COREH_LO_GRANULARITY_SHIFT COREH_GRANULARITY_WIDTH (flags h) in
  let tg1 := get_field COREH_HI_GRANULARITY_SHIFT COREH_GRANULARITY_WIDTH (flags h) in
  let tcr := Z.shiftl (64 - lo_va_bits) 0 in
  let tcr := Z.lor tcr (Z.shiftl (64 - hi_va_bits) 16) in
  let tcr := Z.lor tcr (Z.shiftl (Z.b2z (negb (mmu_core_get_lo_enabled h))) 7) in
  let tcr := Z.lor tcr (Z.shiftl (Z.b2z (negb (mmu_core_get_hi_enabled h))) 23) in
  let tcr := Z.lor tcr (Z.shiftl tg0 14) in
  let tcr := Z.lor tcr (Z.shiftl tg1 30) in
  let tcr := Z.lor tcr (Z.shiftl 3 12) in
  let tcr := Z.lor tcr (Z.shiftl 1 10) in
  let tcr := Z.lor tcr (Z.shiftl 1 8) in
  let tcr := Z.lor tcr (Z.shiftl 3 28) in
  let tcr := Z.lor tcr (Z.shiftl 1 26) in
  Z.lor tcr (Z.shiftl 1 24).

(** the [switch (pa_range)] *)
Definition activate_ips (mmfr0 : Z) : res Z :=
  let pa_range := Z.land mmfr0 0xF in
  if pa_range <=? 5 then Ok pa_range else Err EPanic.

Definition activate_sctlr (h : mmu_core_handle) (sctlr : Z) : Z :=
  let sctlr := Z.land sctlr (not64 (Z.shiftl 1 1)) in
  let sctlr := Z.land sctlr (not64 (Z.shiftl 1 2)) in
  let sctlr := Z.land sctlr (not64 (Z.shiftl 1 12)) in
  let sctlr := Z.lor sctlr (Z.shiftl (Z.b2z (mmu_core_get_i_cache h)) 12) in
  let sctlr := Z.lor sctlr (Z.shiftl (Z.b2z (mmu_core_get_d_cache h)) 2) in
  let sctlr := Z.lor sctlr (Z.shiftl (Z.b2z (mmu_core_get_align_trap h)) 1) in
  Z.lor sctlr (Z.shiftl 1 0).

Definition va_bits_ok (bits : Z) : bool := (39 <=? bits) && (bits <=? 48).

Definition mmu_core_activate : CM mmu_activate_result :=
  let* s := gets id in
  let h := ch s in
  if negb (eq_caller_coreid s) then ret MMU_ACTIVATE_NOT_THE_SAME_CORE
  else if negb (mmu_core_get_lo_enabled h) then ret MMU_ACTIVATE_LO_NOT_ENABLED
  else
    let lom := mp (lo_mapping h) in
    if negb (mmu_mapping_is_valid lom) then ret MMU_ACTIVATE_LO_MAPPING_NOT_VALID
    else
      let sctlr := SCTLR_EL1 (hw s) in
      if Z.land sctlr 1 =? 1 then ret MMU_ACTIVATE_IS_ALREADY_ACTIVE
      else
        let valid_lo_bits := va_bits_ok (mmu_core_get_lo_va_bits h) in
        let valid_hi_bits := va_bits_ok (mmu_core_get_hi_va_bits h) in
        if negb valid_lo_bits && negb valid_hi_bits then ret MMU_ACTIVATE_INVALID_LO_AND_HI_BITS
        else if negb valid_lo_bits then ret MMU_ACTIVATE_INVALID_LO_BITS
        else if negb valid_hi_bits then ret MMU_ACTIVATE_INVALID_HI_BITS
        else
          let* lo := deref lom in
          set_ttbr0 (table_base lo) ;;
          (if mmu_core_get_hi_enabled h then
             let* him := deref (mp (hi_mapping h)) in set_ttbr1 (table_base him)
           else ret tt) ;;
          let* ips := lift (activate_ips (ID_AA64MMFR0_EL1 (hw s))) in
          let tcr := Z.lor (activate_tcr h) (Z.shiftl (Z.land ips 7) 32) in
          set_mair (Z.lor (Z.shiftl 0xFF 0) (Z.shiftl 0x04 8)) ;;
          set_tcr tcr ;;
          set_sctlr (activate_sctlr h sctlr) ;;
          ret MMU_ACTIVATE_OK.

Inductive mmu_deactivate_result : Type :=
  | MMU_DEACTIVATE_OK
  | MMU_DEACTIVATE_NOT_THE_SAME_CORE
  | MMU_DEACTIVATE_IS_ALREADY_DEACTIVATED
  | MMU_DEACTIVATE_PC_IS_IN_HI_RNG.

Definition mmu_core_deactivate : CM mmu_deactivate_result :=
  let* s := gets id in
  let sctlr := SCTLR_EL1 (hw s) in
  if negb (eq_caller_coreid s) then ret MMU_DEACTIVATE_NOT_THE_SAME_CORE
  else if Z.land sctlr 1 =? 0 then ret MMU_DEACTIVATE_IS_ALREADY_DEACTIVATED
  else if negb (Z.land (pc (hw s)) (Z.shiftl 1 63) =? 0) then ret MMU_DEACTIVATE_PC_IS_IN_HI_RNG
  else set_sctlr (Z.land sctlr (not64 1)) ;; ret MMU_DEACTIVATE_OK.

(** ** Lemmas *)

Lemma mmu_on_bit v : mmu_on v = Z.testbit v 0.
Proof. unfold mmu_on. change 1 with (Z.shiftl 1 0). by rewrite land_single_bit, negb_involutive. Qed.

Lemma flag_setter_off sh w v c lo hi aff fl :
  mmu_on (SCTLR_EL1 c) = false ->
  flag_setter sh w v (MkCore c (MkHandle lo hi aff fl)) =
    Ok (true, MkCore c (MkHandle lo hi aff (put_field sh w v fl))).
Proof. intros H. unfold flag_setter, bind, gets. cbn [hw]. by rewrite H. Qed.

Lemma va_bits_setter_off sh bits c lo hi aff fl :
  mmu_on (SCTLR_EL1 c) = false -> 0 <= bits < 64 ->
  va_bits_setter sh bits (MkCore c (MkHandle lo hi aff fl)) =
    Ok (true, MkCore c (MkHandle lo hi aff (put_field sh 6 bits fl))).
Proof.
  intros H Hb. unfold va_bits_setter, bind, gets. cbn [hw]. rewrite H.
  change (Z.shiftl 1 COREH_VA_BITS_WIDTH) with 64. by destruct (Z.leb_spec 64 bits); [lia|].
Qed.

Lemma set_mapping_off t m c lo hi aff fl :
  mp t = Some m -> mmu_mapping_is_valid (Some m) = true -> mmu_on (SCTLR_EL1 c) = false ->
  mmu_core_set_mapping t (MkCore c (MkHandle lo hi aff fl)) =
    Ok (true, MkCore c (match rng_ m with
                        | MMU_LO => MkHandle t hi aff fl
                        | MMU_HI => MkHandle lo t aff fl
                        end)).
Proof.
  intros Hm Hv Hoff. unfold mmu_core_set_mapping, bind, gets. rewrite Hm. cbn [deref ret].
  unfold ret at 1. cbn -[mmu_on mmu_mapping_is_valid]. rewrite Hoff, Hv.
  destruct (rng_ m); cbn; [destruct (Z.eqb_spec lo t)|destruct (Z.eqb_spec hi t)]; by subst.
Qed.

Lemma TG0_range g : u_range 2 (TG0 g).
Proof. destruct g; unfold u_range; simpl; lia. Qed.
Lemma TG1_range g : u_range 2 (TG1 g).
Proof. destruct g; unfold u_range; simpl; lia. Qed.

End Core.

#[export] Hint Resolve TG0_range TG1_range : dcdb.

Section CoreProps.
Context {A : Type} (mp : Z -> option (mmu_mapping A)).

(** With the mmu off, [mmu_core_handle_new] on two valid mappings
    succeeds, touches no system register, and the handle it fills reports
    every argument back: the mappings, the enables, the cache and alignment
    flags, the address widths and the granularities, whatever the handle
    contained before. *)
Theorem core_handle_roundtrip (s : core_state) (lo hi : Z) (lom him : mmu_mapping A)
    (hi_enable lo_enable d_cache i_cache align_trap : bool)
    (Hlo : mp lo = Some lom) (Hhi : mp hi = Some him)
    (Hrlo : rng_ lom = MMU_LO) (Hrhi : rng_ him = MMU_HI)
    (Hvlo : mmu_mapping_is_valid (Some lom) = true) (Hvhi : mmu_mapping_is_valid (Some him) = true)
    (Hblo : 0 <= va_addr_bits_ lom < 64) (Hbhi : 0 <= va_addr_bits_ him < 64)
    (Hfl : is_u64 (flags (ch s))) (Hoff : mmu_on (SCTLR_EL1 (hw s)) = false) :
  exists h, mmu_core_handle_new mp lo hi hi_enable lo_enable d_cache i_cache align_trap s =
              Ok (true, MkCore (hw s) h) /\
    lo_mapping h = lo /\ hi_mapping h = hi /\ mpidr_aff h = mpidr (hw s) /\ is_u64 (flags h) /\
    mmu_core_get_d_cache h = d_cache /\ mmu_core_get_i_cache h = i_cache /\
    mmu_core_get_align_trap h = align_trap /\ mmu_core_get_lo_enabled h = lo_enable /\
    mmu_core_get_hi_enabled h = hi_enable /\
    mmu_core_get_lo_va_bits h = va_addr_bits_ lom /\ mmu_core_get_hi_va_bits h = va_addr_bits_ him /\
    mmu_core_get_lo_granularity h = Ok (g_ lom) /\ mmu_core_get_hi_granularity h = Ok (g_ him).
Proof.
  assert (u_range 6 (va_addr_bits_ lom)) by done. assert (u_range 6 (va_addr_bits_ him)) by done.
  destruct s as [c [l0 h0 a0 fl]]. cbn [hw ch flags] in *.
  unfold mmu_core_handle_new. rewrite Hlo, Hhi, Hvlo, Hvhi, Hrlo, Hrhi.
  rewrite !bool_decide_eq_false_2 by congruence. cbn [negb andb].
  unfold and_then, mmu_core_set_d_cache, mmu_core_set_i_cache, mmu_core_set_align_trap,
    mmu_core_set_lo_enabled, mmu_core_set_hi_enabled, mmu_core_set_lo_va_bits,
    mmu_core_set_hi_va_bits, mmu_core_set_lo_granularity, mmu_core_set_hi_granularity.
  rewrite !(wrap_small 8) by (unfold u_range; lia).
  erewrite bind_ok by (eapply set_mapping_off; done). cbv iota. rewrite Hrlo.
  erewrite bind_ok by (eapply set_mapping_off; done). cbv iota. rewrite Hrhi.
  repeat (erewrite bind_ok by (first [by apply flag_setter_off|by apply va_bits_setter_off]); cbv iota).
  unfold set_coreid, bind, gets, modify, set_ch, ret.
  cbn [hw ch lo_mapping hi_mapping mpidr_aff flags].
  eexists. split; [reflexivity|]. cbn [lo_mapping hi_mapping mpidr_aff].
  do 3 (split; [reflexivity|]).
  unfold mmu_core_get_d_cache, mmu_core_get_i_cache, mmu_core_get_align_trap,
    mmu_core_get_lo_enabled, mmu_core_get_hi_enabled, coreh_bit, mmu_core_get_lo_va_bits,
    mmu_core_get_hi_va_bits, mmu_core_get_lo_granularity, mmu_core_get_hi_granularity,
    COREH_DCACHE_SHIFT, COREH_ICACHE_SHIFT, COREH_ALIGN_TRAP_SHIFT, COREH_LO_ENABLE_SHIFT,
    COREH_HI_ENABLE_SHIFT, COREH_LO_BITS_SHIFT, COREH_HI_BITS_SHIFT, COREH_LO_GRANULARITY_SHIFT,
    COREH_HI_GRANULARITY_SHIFT, COREH_VA_BITS_WIDTH, COREH_GRANULARITY_WIDTH.
  cbn [flags]. split; [dc_side|]. dc_fields.
  rewrite !b2z_negb, !(wrap_small 8) by (unfold u_range; lia).
  do 7 (split; [reflexivity|]). split; [by destruct (g_ lom)|by destruct (g_ him)].
Qed.

(** [mmu_core_activate] either reports why it refuses and leaves core
    and handle untouched, or panics on an unknown physical address range, or
    turns the mmu on. *)
Theorem activate_error_untouched (s s' : core_state) (r : mmu_activate_result)
    (Hrun : mmu_core_activate mp s = Ok (r, s')) (Hr : r <> MMU_ACTIVATE_OK) : s' = s.
Proof.
  unfold mmu_core_activate, bind at 1, gets, id in Hrun.
  repeat match type of Hrun with
         | (if ?b then _ else _) _ = _ => destruct b; [by injection Hrun as <- <-|]
         end.
  apply bind_inv in Hrun as (lo & s1 & _ & Hrun). apply bind_inv in Hrun as (? & s2 & _ & Hrun).
  apply bind_inv in Hrun as (? & s3 & _ & Hrun). apply bind_inv in Hrun as (? & s4 & _ & Hrun).
  do 3 apply bind_inv in Hrun as (? & ? & _ & Hrun). injection Hrun as <- _. done.
Qed.

Lemma lor_shiftl_bit x v k i :
  0 <= i -> 0 <= k -> Z.testbit (Z.lor x (Z.shiftl (Z.b2z v) k)) i = Z.testbit x i || ((i =? k) && v).
Proof.
  intros Hi Hk. rewrite Z.lor_spec, testbit_shiftl' by done. f_equal.
  destruct (Z.eqb_spec i k) as [->|].
  - rewrite Z.sub_diag. by destruct v.
  - destruct (Z.lt_ge_cases (i - k) 0); [by rewrite Z.testbit_neg_r|].
    apply (testbit_high 1); [apply b2z_range|lia].
Qed.

Lemma activate_sctlr_bits h v i :
  is_u64 v -> 0 <= i ->
  Z.testbit (activate_sctlr h v) i =
    if i =? 0 then true
    else if i =? 1 then mmu_core_get_align_trap h
    else if i =? 2 then mmu_core_get_d_cache h
    else if i =? 12 then mmu_core_get_i_cache h
    else Z.testbit v i.
Proof.
  intros Hv Hi. unfold activate_sctlr. change (Z.shiftl 1 0) with (Z.shiftl (Z.b2z true) 0).
  rewrite !lor_shiftl_bit by lia.
  assert (is_u64 (Z.land v (not64 (Z.shiftl 1 1)))) as H1
    by (apply land_range; [lia|done|vm_compute; congruence]).
  assert (is_u64 (Z.land (Z.land v (not64 (Z.shiftl 1 1))) (not64 (Z.shiftl 1 2)))) as H2
    by (apply land_range; [lia|done|vm_compute; congruence]).
  rewrite !land_not_w by (done || lia). rewrite !Z.ldiff_spec, !Z.shiftl_1_l, !testbit_pow2' by lia.
  destruct (Z.eqb_spec i 0), (Z.eqb_spec i 1), (Z.eqb_spec i 2), (Z.eqb_spec i 12); try lia;
    cbn; rewrite ?andb_false_r, ?andb_true_r, ?orb_false_r, ?orb_true_r; done.
Qed.

(** A successful activation sets the M bit, copies the alignment, data
    and instruction cache flags of the handle into SCTLR_EL1 and keeps its
    other bits, and points TTBR0_EL1 (and TTBR1_EL1 when the high half is
    enabled) at the physical addresses of the root tables. *)
Theorem activate_ok (s : core_state) (lom : mmu_mapping A) (him : mmu_mapping A)
    (Hsctlr : is_u64 (SCTLR_EL1 (hw s))) (Hoff : mmu_on (SCTLR_EL1 (hw s)) = false)
    (Hcore : mpidr_aff (ch s) = mpidr (hw s)) (Hen : mmu_core_get_lo_enabled (ch s) = true)
    (Hlo : mp (lo_mapping (ch s)) = Some lom) (Hvlo : mmu_mapping_is_valid (Some lom) = true)
    (Hhi : mp (hi_mapping (ch s)) = Some him)
    (Hblo : va_bits_ok (mmu_core_get_lo_va_bits (ch s)) = true)
    (Hbhi : va_bits_ok (mmu_core_get_hi_va_bits (ch s)) = true)
    (Hpa : Z.land (ID_AA64MMFR0_EL1 (hw s)) 0xF <= 5) :
  exists c', mmu_core_activate mp s = Ok (MMU_ACTIVATE_OK, MkCore c' (ch s)) /\
    mmu_on (SCTLR_EL1 c') = true /\
    Z.testbit (SCTLR_EL1 c') 1 = mmu_core_get_align_trap (ch s) /\
    Z.testbit (SCTLR_EL1 c') 2 = mmu_core_get_d_cache (ch s) /\
    Z.testbit (SCTLR_EL1 c') 12 = mmu_core_get_i_cache (ch s) /\
    (forall i, 0 <= i -> i <> 0 -> i <> 1 -> i <> 2 -> i <> 12 ->
       Z.testbit (SCTLR_EL1 c') i = Z.testbit (SCTLR_EL1 (hw s)) i) /\
    TTBR0_EL1 c' = table_base lom /\
    TTBR1_EL1 c' = (if mmu_core_get_hi_enabled (ch s) then table_base him else TTBR1_EL1 (hw s)).
Proof.
  unfold mmu_core_activate, bind at 1, gets, id. unfold eq_caller_coreid. rewrite Hcore, Z.eqb_refl.
  rewrite Hen, Hlo, Hvlo, Hblo, Hbhi. cbn [negb andb].
  destruct (Z.eqb_spec (Z.land (SCTLR_EL1 (hw s)) 1) 1) as [E|_].
  { unfold mmu_on in Hoff. by rewrite E in Hoff. }
  unfold activate_ips. destruct (Z.leb_spec (Z.land (ID_AA64MMFR0_EL1 (hw s)) 0xF) 5); [|lia].
  assert (forall i, 0 <= i -> _) as Hbits by exact (fun i => activate_sctlr_bits (ch s) _ i Hsctlr).
  assert (forall i, 0 <= i -> i <> 0 -> i <> 1 -> i <> 2 -> i <> 12 ->
    Z.testbit (activate_sctlr (ch s) (SCTLR_EL1 (hw s))) i = Z.testbit (SCTLR_EL1 (hw s)) i) as Hrest.
  { intros i Hi ????. rewrite Hbits by done.
    destruct (Z.eqb_spec i 0), (Z.eqb_spec i 1), (Z.eqb_spec i 2), (Z.eqb_spec i 12); done. }
  destruct (mmu_core_get_hi_enabled (ch s)); rewrite ?Hhi;
    unfold bind, deref, lift, ret, set_ttbr0, set_ttbr1, set_mair, set_tcr, set_sctlr, modify, set_hw;
    cbv beta iota; cbn [hw ch]; eexists; (split; [reflexivity|]);
    cbn [SCTLR_EL1 TTBR0_EL1 TTBR1_EL1]; rewrite mmu_on_bit, !Hbits by lia;
    (do 4 (split; [reflexivity|])); (split; [exact Hrest|]); split; reflexivity.
Qed.

End CoreProps.

(** ** Witnesses *)

Definition mem_test (p : Z) : option (mmu_mapping Z) :=
  if p =? 1 then Some (MkMapping MMU_LO MMU_GRANULARITY_4KB 48 0 0x1000 (fun _ _ => Err EPanic) (fun _ _ => Err EPanic))
  else if p =? 2 then Some (MkMapping MMU_HI MMU_GRANULARITY_16KB 47 0 0x5000 (fun _ _ => Err EPanic) (fun _ _ => Err EPanic))
  else None.

Definition core_test : core_state :=
  MkCore (MkCpu 0x30d00800 0 0 0 0 2 0 0x40000000) (MkHandle 0 0 7 0xffff).

Definition core_test_ready : core_state :=
  match mmu_core_handle_new mem_test 1 2 true true true true false core_test with
  | Ok (_, s) => s
  | Err _ => core_test
  end.

Lemma core_handle_roundtrip_witness :
  exists h, mmu_core_handle_new mem_test 1 2 true true true true false core_test =
              Ok (true, MkCore (hw core_test) h) /\ mmu_core_get_hi_va_bits h = 47.
Proof.
  destruct (core_handle_roundtrip mem_test core_test 1 2
    (MkMapping MMU_LO MMU_GRANULARITY_4KB 48 0 0x1000 (fun _ _ => Err EPanic) (fun _ _ => Err EPanic))
    (MkMapping MMU_HI MMU_GRANULARITY_16KB 47 0 0x5000 (fun _ _ => Err EPanic) (fun _ _ => Err EPanic))
    true true true true false) as (h & H1 & _ & _ & _ & _ & _ & _ & _ & _ & _ & _ & H2 & _);
    [reflexivity..|cbn; lia|cbn; lia|unfold u_range; cbn; lia|reflexivity|].
  exists h. split; [exact H1|exact H2].
Defined.

Lemma activate_error_untouched_witness :
  exists s', mmu_core_activate mem_test core_test = Ok (MMU_ACTIVATE_NOT_THE_SAME_CORE, s') /\
    s' = core_test.
Proof.
  exists core_test. split; [reflexivity|].
  apply (activate_error_untouched mem_test core_test core_test MMU_ACTIVATE_NOT_THE_SAME_CORE);
    [reflexivity|discriminate].
Defined.

Lemma activate_ok_witness :
  exists c', mmu_core_activate mem_test core_test_ready = Ok (MMU_ACTIVATE_OK, MkCore c' (ch core_test_ready)) /\
    mmu_on (SCTLR_EL1 c') = true.
Proof.
  destruct (activate_ok mem_test core_test_ready
    (MkMapping MMU_LO MMU_GRANULARITY_4KB 48 0 0x1000 (fun _ _ => Err EPanic) (fun _ _ => Err EPanic))
    (MkMapping MMU_HI MMU_GRANULARITY_16KB 47 0 0x5000 (fun _ _ => Err EPanic) (fun _ _ => Err EPanic)))
    as (c' & H1 & H2 & _);
    [unfold u_range; vm_compute; split; congruence|reflexivity..|vm_compute; congruence|].
  exists c'. split; [exact H1|exact H2].
Defined.
