(* ===== verification/VmContainers.v ===== *)
(** * VmContainers: the node containers of the virtual-memory allocator

    src/kernel/mm/malloc/vmalloc/containers/ and the container part of
    src/kernel/mm/malloc/vmalloc/mdt/mdt.c.  Every list node of vmalloc lives
    in a page-sized container: a header that links the containers, a bitfield
    of the reserved nodes, and an array of nodes.  [fva_node], [rva_node] and
    [vmalloc_pa_mdt] containers differ only in their layout, so the
    operations take the layout as a parameter, as [vmaloc_node_new] takes the
    container kind.

    A container is known by the address of its page and a node by its own
    address, from which [free_fva_node] and [free_rva_node] recover the
    container by rounding down.  The pages come from [reserve_malloc] and go
    back to [raw_kfree], which are parameters; what these two do to the state
    of the allocators below is their state [A]. *)

From Stdlib Require Import ZArith Lia.
From stdpp Require Import base tactics numbers gmap list.
From S2P Require Import Prelude KMath.

Open Scope Z_scope.

(** ** include/lib/stdbitfield.h, on a bitfield of [w] bits *)

Definition bitfield_get (bf bit_n : Z) : bool := negb (Z.land (Z.shiftr bf bit_n) 1 =? 0).

Definition bitfield_set_high (w bf bit_n : Z) : Z :=
  wrap w (Z.lor bf (wrap w (Z.shiftl 1 bit_n))).

Definition bitfield_clear (w bf bit_n : Z) : Z :=
  Z.land bf (not_w w (wrap w (Z.shiftl 1 bit_n))).

Definition BITFIELD_COUNT_FOR (n w : Z) : Z := (n + w - 1) / w.

(** ** Layouts (containers.h, mdt.h) *)

Record layout : Type := MkLayout {
  lay_count : Z;    (* nodes in a container *)
  lay_bits : Z;     (* bits of one bitfield *)
  lay_base : Z;     (* offset of the node array *)
  lay_size : Z;     (* sizeof of a node *)
}.

Definition DATA_BYTES : Z := PAGE_SIZE - 2 * 8.
Definition sizeof_fva_node : Z := 24.
Definition sizeof_rva_node : Z := 56.
Definition sizeof_vmalloc_pa_mdt : Z := 32.

Definition FVA_NODE_COUNT : Z := DATA_BYTES / sizeof_fva_node - 1.
Definition RVA_NODE_COUNT : Z := DATA_BYTES / sizeof_rva_node - 1.
Definition PA_MDT_CONTAINER_NODES : Z := (PAGE_SIZE - 16) / sizeof_vmalloc_pa_mdt.

(** The node array follows the header and the bitfields, 8-byte aligned. *)
Definition fva_layout : layout :=
  MkLayout FVA_NODE_COUNT 8 (16 + align_up (BITFIELD_COUNT_FOR FVA_NODE_COUNT 8) 8) sizeof_fva_node.
Definition rva_layout : layout :=
  MkLayout RVA_NODE_COUNT 8 (16 + align_up (BITFIELD_COUNT_FOR RVA_NODE_COUNT 8) 8) sizeof_rva_node.
Definition mdt_layout : layout :=
  MkLayout PA_MDT_CONTAINER_NODES 64 (16 + 8 * BITFIELD_COUNT_FOR PA_MDT_CONTAINER_NODES 64)
    sizeof_vmalloc_pa_mdt.

(** Header and bitfields of a container. *)
Record vmalloc_container : Type := MkCont {
  hdr_next : Z;
  hdr_prev : Z;
  reserved_nodes : gmap Z Z;
}.

Section Pool.
Context {N A : Type} (L : layout) (zero : N).
Context (reserve_malloc : A -> res (Z * A)) (raw_kfree : Z -> A -> res A).

(** The containers of one kind: the first of them ([first_fva_container],
    [first_rva_container], [container_list]), their headers by address, and
    the node memory by node address. *)
Record pool : Type := MkPool {
  first : Z;
  containers : gmap Z vmalloc_container;
  pnodes : gmap Z N;
}.

Abbreviation PM := (M (pool * A)).

Definition set_containers (f : gmap Z vmalloc_container -> gmap Z vmalloc_container) (s : pool * A) : pool * A :=
  (MkPool (first s.1) (f (containers s.1)) (pnodes s.1), s.2).
Definition set_pnodes (f : gmap Z N -> gmap Z N) (s : pool * A) : pool * A :=
  (MkPool (first s.1) (containers s.1) (f (pnodes s.1)), s.2).

Definition words : Z := BITFIELD_COUNT_FOR (lay_count L) (lay_bits L).

(** [&c->nodes[i]] *)
Definition node_addr (c i : Z) : Z := c + lay_base L + lay_size L * i.

(** Rounding a node address down to its page. *)
Definition container_of (p : Z) : Z := Z.land p (not64 (PAGE_SIZE - 1)).

Definition get_cont (c : Z) : PM vmalloc_container :=
  let* s := gets (fun s => s) in deref (containers s.1 !! c).

Definition upd_cont (c : Z) (f : vmalloc_container -> vmalloc_container) : PM unit :=
  let* k := get_cont c in modify (set_containers <[c := f k]>).

Definition with_hdr_next (v : Z) (k : vmalloc_container) := MkCont v (hdr_prev k) (reserved_nodes k).
Definition with_hdr_prev (v : Z) (k : vmalloc_container) := MkCont (hdr_next k) v (reserved_nodes k).

Definition get_word (c j : Z) : PM Z :=
  let* k := get_cont c in deref (reserved_nodes k !! j).
Definition put_word (c j v : Z) : PM unit :=
  get_word c j ;;
  upd_cont c (fun k => MkCont (hdr_next k) (hdr_prev k) (<[j := v]> (reserved_nodes k))).

(** A page handed out as a container: all of its data is zero. *)
Definition zero_nodes (c : Z) : gmap Z N :=
  list_to_map ((fun i => (node_addr c i, zero)) <$> seqZ 0 (lay_count L)).

Definition vmalloc_container_new (last : Z) : PM Z :=
  let* s := gets (fun s => s) in
  let* r := lift (reserve_malloc s.2) in
  let (va, a') := r : Z * A in
  modify (fun s => (s.1, a')) ;;
  modify (set_containers <[va := MkCont 0 last (array words (fun _ => 0))]>) ;;
  modify (set_pnodes (fun m => zero_nodes va ∪ m)) ;;
  upd_cont last (with_hdr_next va) ;;
  ret va.

(** The [for] over the nodes of one container: the first one whose bit is
    clear, with the bit set. *)
Fixpoint node_scan (n : nat) (c i : Z) : PM (option Z) :=
  match n with
  | O => ret None
  | S n =>
      let j := i / lay_bits L in
      let k := i mod lay_bits L in
      let* w := get_word c j in
      if bitfield_get w k then node_scan n c (i + 1)
      else put_word c j (bitfield_set_high (lay_bits L) w k) ;; ret (Some i)
  end.

(** The [while (cur)] loop and the [goto find] after a new container. *)
Fixpoint node_find (fuel : nat) (cur prev : Z) : PM Z :=
  match fuel with
  | O => nofuel
  | S fuel =>
      if cur =? 0 then
        let* c := vmalloc_container_new prev in node_find fuel c prev
      else
        let* r := node_scan (Z.to_nat (lay_count L)) cur 0 in
        match r with
        | Some i => ret (node_addr cur i)
        | None => let* k := get_cont cur in node_find fuel (hdr_next k) cur
        end
  end.

(** One round per container, one for the end of the list and one for the new
    container. *)
Definition vmaloc_node_new : PM Z :=
  let* s := gets (fun s => s) in
  node_find (size (containers s.1) + 2) (first s.1) 0.

(** [raw_kfree] of a container: header and nodes are gone. *)
Definition release_page (c : Z) : PM unit :=
  let* s := gets (fun s => s) in
  let* a' := lift (raw_kfree c s.2) in
  modify (fun s => (s.1, a')) ;;
  modify (set_containers (delete c)) ;;
  modify (set_pnodes (filter (fun x => container_of x.1 <> c))).

Fixpoint container_free_loop (fuel : nat) (cur to_free : Z) : PM unit :=
  match fuel with
  | O => nofuel
  | S fuel =>
      if cur =? 0 then panic
      else
        let* k := get_cont cur in
        if hdr_next k =? to_free then
          let* f := get_cont to_free in
          upd_cont cur (with_hdr_next (hdr_next f)) ;;
          (if negb (hdr_next f =? 0) then upd_cont (hdr_next f) (with_hdr_prev cur) else ret tt) ;;
          release_page to_free
        else container_free_loop fuel (hdr_next k) to_free
  end.

Definition container_free (to_free : Z) : PM unit :=
  let* s := gets (fun s => s) in
  container_free_loop (size (containers s.1) + 1) (first s.1) to_free.

(** mdt.c unlinks through [hdr.prev] instead. *)
Definition pa_mdt_container_free (c : Z) : PM unit :=
  let* s := gets (fun s => s) in
  if c =? first s.1 then ret tt
  else
    let* k := get_cont c in
    (if negb (hdr_prev k =? 0) then upd_cont (hdr_prev k) (with_hdr_next (hdr_next k)) else ret tt) ;;
    (if negb (hdr_next k =? 0) then upd_cont (hdr_next k) (with_hdr_prev (hdr_prev k)) else ret tt) ;;
    release_page c.

(** The loop that looks for a word different from 0. *)
Fixpoint all_clear (c : Z) (l : list Z) : PM bool :=
  match l with
  | [] => ret true
  | j :: l =>
      let* w := get_word c j in
      if negb (w =? 0) then ret false else all_clear c l
  end.

(** [node - &c->nodes[0]] as a [size_t] *)
Definition node_index (c p : Z) : Z := wrap64 (Z.quot (p - (c + lay_base L)) (lay_size L)).

(** [free_fva_node] and [free_rva_node] *)
Definition free_node (p : Z) : PM unit :=
  let c := container_of p in
  let i := node_index c p in
  ASSERT (i <? lay_count L) ;;
  let j := i / lay_bits L in
  let k := i mod lay_bits L in
  let* w := get_word c j in
  put_word c j (bitfield_clear (lay_bits L) w k) ;;
  let* s := gets (fun s => s) in
  if c =? first s.1 then ret tt
  else
    let* e := all_clear c (seqZ 0 words) in
    if e then container_free c else ret tt.

(** The body of the loop of [vmalloc_pa_mdt_free], which has no bound check *)
Definition free_mdt_node (p : Z) : PM unit :=
  let c := align_down p PAGE_ALIGN in
  let i := node_index c p in
  let* w := get_word c (i / lay_bits L) in
  put_word c (i / lay_bits L) (bitfield_clear (lay_bits L) w (i mod lay_bits L)) ;;
  let* e := all_clear c (seqZ 0 words) in
  if e then pa_mdt_container_free c else ret tt.

(** [vmalloc_init_containers] and [vmalloc_pa_mdt_init]: the page [va] of
    [early_kalloc] becomes the only container, zeroed. *)
Definition pool_init (va : Z) : PM unit :=
  modify (fun s => (MkPool va {[va := MkCont 0 0 (array words (fun _ => 0))]} (zero_nodes va), s.2)).

(** Reading and writing a node *)
Definition get_n (p : Z) : PM N :=
  let* s := gets (fun s => s) in deref (pnodes s.1 !! p).

Definition put_n (p : Z) (n : N) : PM unit :=
  get_n p ;; modify (set_pnodes <[p := n]>).

End Pool.
