(* ===== verification/VmContainersSpec.v ===== *)
(** * VmContainersSpec: the containers are a pool of nodes

    The reserved nodes of a pool form a set [R].  Under the invariant
    [pool_inv], taking a node returns one outside of [R] and adds it, freeing
    removes it, and neither touches the contents of the other reserved nodes;
    containers that run empty are unlinked and given back.  The page source
    is used through the class [PageSource]. *)

From Stdlib Require Import ZArith Lia.
From stdpp Require Import base tactics numbers gmap list.
From S2P Require Import Prelude KMath VmContainers.

Open Scope Z_scope.

(** ** Bitfields *)

Lemma bitfield_get_bit bf n : 0 <= n -> bitfield_get bf n = Z.testbit bf n.
Proof.
  intros Hn. unfold bitfield_get. change 1 with (Z.ones 1). rewrite Z.land_ones by lia.
  change (2 ^ 1) with 2. rewrite Z.shiftr_div_pow2, <- Z.testbit_spec' by done.
  by destruct (Z.testbit bf n).
Qed.

Lemma bitfield_set_bit w bf n i :
  0 <= n < w -> u_range w bf -> 0 <= i ->
  Z.testbit (bitfield_set_high w bf n) i = (i =? n) || Z.testbit bf i.
Proof.
  intros Hn Hbf Hi. unfold bitfield_set_high. rewrite Z.shiftl_1_l.
  autorewrite with kbits. bits_cases; cbn; rewrite ?orb_true_r, ?orb_false_r; try (done || lia).
  by rewrite (testbit_high w bf).
Qed.

Lemma bitfield_clear_bit w bf n i :
  0 <= n < w -> u_range w bf -> 0 <= i ->
  Z.testbit (bitfield_clear w bf n) i = negb (i =? n) && Z.testbit bf i.
Proof.
  intros Hn Hbf Hi. unfold bitfield_clear. rewrite Z.shiftl_1_l.
  autorewrite with kbits. bits_cases; cbn; rewrite ?andb_true_r, ?andb_false_r; try (done || lia).
  by rewrite (testbit_high w bf).
Qed.

Lemma bitfield_set_range w bf n : 0 <= w -> u_range w (bitfield_set_high w bf n).
Proof. apply wrap_range. Qed.

Lemma bitfield_clear_range w bf n : 0 <= w -> u_range w bf -> u_range w (bitfield_clear w bf n).
Proof.
  intros Hw Hbf. apply land_range; [done..|].
  apply Z.lxor_nonneg. split; intros; [rewrite Z.ones_equiv; lia|].
  by apply wrap_range.
Qed.

(** ** Layouts and addresses *)

(** The nodes of a container fit into its page, after the header. *)
Record lay_ok (L : layout) : Prop := {
  lo_count : 0 < lay_count L;
  lo_bits : 0 < lay_bits L;
  lo_base : 16 <= lay_base L;
  lo_size : 0 < lay_size L;
  lo_fits : lay_base L + lay_size L * lay_count L <= PAGE_SIZE
}.

Lemma fva_layout_ok : lay_ok fva_layout.
Proof. by split. Qed.
Lemma rva_layout_ok : lay_ok rva_layout.
Proof. by split. Qed.
Lemma mdt_layout_ok : lay_ok mdt_layout.
Proof. by split. Qed.

#[export] Hint Resolve fva_layout_ok rva_layout_ok mdt_layout_ok : vmdb.

Definition page_ok (c : Z) : Prop := 0 < c /\ c + PAGE_SIZE <= 2 ^ 64 /\ (PAGE_SIZE | c).

Section Addr.
Context (L : layout) (HL : lay_ok L).

Lemma node_addr_in c i : 0 <= i < lay_count L -> c + 16 <= node_addr L c i < c + PAGE_SIZE.
Proof. destruct HL. unfold node_addr. nia. Qed.

Lemma container_of_eq p : is_u64 p -> container_of p = p / PAGE_SIZE * PAGE_SIZE.
Proof.
  intros Hp. unfold container_of. change (PAGE_SIZE - 1) with (wrap64 (2 ^ 12 - 1)).
  fold (align_down p (2 ^ 12)). rewrite align_down_pow2 by (done || lia).
  change PAGE_SIZE with (2 ^ 12). pose proof (Z.div_mod p (2 ^ 12)). lia.
Qed.

Lemma container_of_addr c i : page_ok c -> 0 <= i < lay_count L -> container_of (node_addr L c i) = c.
Proof.
  intros (Hc & Hc' & [q ->]) Hi. pose proof (node_addr_in (q * PAGE_SIZE) i Hi) as Ha.
  rewrite container_of_eq by (unfold u_range; lia).
  set (a := node_addr L (q * PAGE_SIZE) i) in *. unfold PAGE_SIZE in *.
  assert (a / 4096 = q) as ->; [|done]. symmetry. apply Z.div_unique with (a - q * 4096); lia.
Qed.

Lemma node_index_addr c i : 0 <= i < lay_count L -> node_index L c (node_addr L c i) = i.
Proof.
  intros Hi. destruct HL as [? ? ? ? Hf]. unfold node_index, node_addr.
  replace (c + lay_base L + lay_size L * i - (c + lay_base L)) with (i * lay_size L) by lia.
  rewrite Z.quot_mul by lia. apply wrap_small. split; [lia|].
  assert (lay_count L <= PAGE_SIZE) by nia. unfold PAGE_SIZE in *. lia.
Qed.

Lemma node_addr_inj c c' i i' :
  page_ok c -> page_ok c' -> 0 <= i < lay_count L -> 0 <= i' < lay_count L ->
  node_addr L c i = node_addr L c' i' -> c = c' /\ i = i'.
Proof.
  intros Hc Hc' Hi Hi' E.
  assert (c = c') as <-.
  { rewrite <- (container_of_addr c i), <- (container_of_addr c' i'), E by done. done. }
  split; [done|]. by rewrite <- (node_index_addr c i), E, node_index_addr by done.
Qed.

Lemma node_addr_nonzero c i : page_ok c -> 0 <= i < lay_count L -> node_addr L c i <> 0.
Proof. intros (? & _) Hi. pose proof (node_addr_in c i Hi). lia. Qed.

Lemma zero_nodes_lookup {N} (z : N) c q :
  page_ok c ->
  zero_nodes L z c !! q = Some z /\ (exists i, 0 <= i < lay_count L /\ q = node_addr L c i) \/
  zero_nodes L z c !! q = None /\ (forall i, 0 <= i < lay_count L -> q <> node_addr L c i).
Proof.
  intros Hc. unfold zero_nodes.
  destruct (list_to_map ((fun i => (node_addr L c i, z)) <$> seqZ 0 (lay_count L)) !! q) as [n|] eqn:E.
  - left. apply elem_of_list_to_map_2 in E. apply list_elem_of_fmap in E as (i & [= -> ->] & Hi%elem_of_seqZ).
    split; [done|]. exists i. split; [lia|done].
  - right. split; [done|]. intros i Hi ->. apply not_elem_of_list_to_map_2 in E. apply E.
    rewrite <- list_fmap_compose. apply list_elem_of_fmap. exists i.
    split; [done|]. apply elem_of_seqZ. lia.
Qed.

End Addr.

(** ** The invariant *)

Section Inv.
Context {N : Type} (L : layout).

(** The bit of node [i]. *)
Definition rbit (k : vmalloc_container) (i : Z) : bool :=
  match reserved_nodes k !! (i / lay_bits L) with
  | Some w => Z.testbit w (i mod lay_bits L)
  | None => false
  end.

(** All words of the bitfield exist, and no bit stands for a node beyond the
    array. *)
Definition words_ok (k : vmalloc_container) : Prop :=
  forall j, 0 <= j < words L -> exists w, reserved_nodes k !! j = Some w /\ u_range (lay_bits L) w /\
    forall b, 0 <= b < lay_bits L -> Z.testbit w b = true -> j * lay_bits L + b < lay_count L.

(** The containers [cs], doubly linked, from [h] (whose predecessor is
    [prev]) to [e] (whose predecessor is [l]). *)
Fixpoint cseg (m : gmap Z vmalloc_container) (prev h : Z) (cs : list Z) (e l : Z) : Prop :=
  match cs with
  | [] => h = e /\ prev = l
  | c :: cs => h = c /\ exists k, m !! c = Some k /\ hdr_prev k = prev /\ cseg m c (hdr_next k) cs e l
  end.

Definition in_pool (m : gmap Z vmalloc_container) (q : Z) : Prop :=
  exists c i, c ∈ dom m /\ 0 <= i < lay_count L /\ q = node_addr L c i.

(** The node [q] is marked in the bitfields. *)
Definition marked (m : gmap Z vmalloc_container) (q : Z) : Prop :=
  exists c k i, m !! c = Some k /\ 0 <= i < lay_count L /\ q = node_addr L c i /\ rbit k i = true.

Record pool_inv (p : pool (N := N)) (R : gset Z) : Prop := {
  pi_chain : exists cs l, cseg (containers p) 0 (first p) cs 0 l /\ cs <> [] /\ NoDup cs /\
    dom (containers p) = list_to_set cs;
  pi_cont c k : containers p !! c = Some k -> page_ok c /\ words_ok k;
  pi_R q : q ∈ R <-> marked (containers p) q;
  pi_nodes q : is_Some (pnodes p !! q) <-> in_pool (containers p) q
}.

End Inv.
Arguments rbit L k i : simpl never.

(** [Inv a live n]: the pages [live] are in use as containers and at least
    [n] more are in the reserve. *)
Class PageSource {A} (reserve_malloc : A -> res (Z * A)) (raw_kfree : Z -> A -> res A)
    (Inv : A -> gset Z -> nat -> Prop) : Prop := {
  ps_get a live n : Inv a live (S n) ->
    exists va a', reserve_malloc a = Ok (va, a') /\ va ∉ live /\ page_ok va /\ Inv a' ({[va]} ∪ live) n;
  ps_free a live n va : Inv a live n -> va ∈ live ->
    exists a', raw_kfree va a = Ok a' /\ Inv a' (live ∖ {[va]}) n;
  ps_mono a live n : Inv a live (S n) -> Inv a live n
}.

Section Links.
Implicit Types (m : gmap Z vmalloc_container).

Lemma cseg_app m prev h cs cs' e l :
  cseg m prev h (cs ++ cs') e l <-> exists e1 l1, cseg m prev h cs e1 l1 /\ cseg m l1 e1 cs' e l.
Proof.
  revert prev h. induction cs as [|c cs IH]; intros prev h; cbn [app cseg].
  - naive_solver.
  - setoid_rewrite IH. naive_solver.
Qed.

Lemma cseg_frame m m' prev h cs e l :
  (forall c, c ∈ cs -> m' !! c = m !! c) -> cseg m prev h cs e l -> cseg m' prev h cs e l.
Proof.
  revert prev h. induction cs as [|c cs IH]; intros prev h Hf; cbn; [done|].
  intros (-> & k & Hk & Hp & Hl). split; [done|]. exists k.
  rewrite Hf by set_solver. split_and!; [done..|]. apply IH; [|done]. intros; apply Hf; set_solver.
Qed.

(** Only the links matter. *)
Lemma cseg_upd m c k k' prev h cs e l :
  m !! c = Some k -> hdr_next k' = hdr_next k -> hdr_prev k' = hdr_prev k ->
  cseg m prev h cs e l -> cseg (<[c := k']> m) prev h cs e l.
Proof.
  intros Hc Hn Hp. revert prev h. induction cs as [|d cs IH]; intros prev h; cbn; [done|].
  intros (-> & k0 & Hk & Hpr & Hl). split; [done|]. destruct (decide (d = c)) as [->|Hne].
  - exists k'. rewrite lookup_insert_eq. simplify_eq. rewrite Hn. split_and!; [done|congruence|by apply IH].
  - exists k0. rewrite lookup_insert_ne by done. eauto.
Qed.

(** Linking after the last container. *)
Lemma cseg_set_next m prev h cs c e l k v :
  NoDup (cs ++ [c]) -> m !! c = Some k -> cseg m prev h (cs ++ [c]) e l ->
  cseg (<[c := with_hdr_next v k]> m) prev h (cs ++ [c]) v c.
Proof.
  intros Hnd Hc (e1 & l1 & H1 & -> & k' & Hk & Hp & _ & _)%cseg_app. rewrite Hc in Hk. injection Hk as <-.
  apply cseg_app. exists c, l1. split.
  - eapply cseg_frame; [|exact H1]. intros d Hd. apply lookup_insert_ne. intros ->.
    apply NoDup_app in Hnd as (_ & Hnd & _). apply (Hnd d Hd). set_solver.
  - split; [done|]. exists (with_hdr_next v k). by rewrite lookup_insert_eq.
Qed.

Lemma cseg_set_prev m prev c cs e l k v :
  c ∉ cs -> m !! c = Some k -> cseg m prev c (c :: cs) e l ->
  cseg (<[c := with_hdr_prev v k]> m) v c (c :: cs) e l.
Proof.
  intros Hnd Hc (_ & k' & Hk & Hp & Hl). rewrite Hc in Hk. injection Hk as <-. split; [done|].
  exists (with_hdr_prev v k). rewrite lookup_insert_eq. split_and!; [done..|].
  eapply cseg_frame; [|exact Hl]. intros d Hd. apply lookup_insert_ne. by intros ->.
Qed.

End Links.

(** ** Steps on the invariant *)

Section Steps.
Context {N : Type} (L : layout) (HL : lay_ok L).
Implicit Types (p : pool (N := N)) (R : gset Z).

Definition set_word (k : vmalloc_container) (j w : Z) : vmalloc_container :=
  MkCont (hdr_next k) (hdr_prev k) (<[j := w]> (reserved_nodes k)).

Lemma index_split i :
  0 <= i < lay_count L ->
  0 <= i / lay_bits L < words L /\ 0 <= i mod lay_bits L < lay_bits L /\
  i = i / lay_bits L * lay_bits L + i mod lay_bits L.
Proof.
  destruct HL as [_ Hb _ _ _]. intros Hi.
  pose proof (Z.mod_pos_bound i (lay_bits L) Hb). pose proof (Z.div_mod i (lay_bits L)).
  split; [|lia]. split; [apply Z.div_pos; lia|].
  unfold words, BITFIELD_COUNT_FOR. apply Z.lt_le_trans with (i / lay_bits L + 1); [lia|].
  rewrite <- (Z.div_add i 1 (lay_bits L)) by lia. apply Z.div_le_mono; lia.
Qed.

Lemma rbit_set_word k i j w w0 :
  0 <= i < lay_count L -> reserved_nodes k !! j = Some w0 ->
  rbit L (set_word k j w) i = if i / lay_bits L =? j then Z.testbit w (i mod lay_bits L) else rbit L k i.
Proof.
  intros Hi Hj. unfold rbit, set_word. cbn. destruct (Z.eqb_spec (i / lay_bits L) j) as [->|Hne].
  - by rewrite lookup_insert_eq.
  - by rewrite lookup_insert_ne by done.
Qed.

(** The bit of exactly one node changes. *)
Lemma rbit_change k i w (b : bool) :
  0 <= i < lay_count L -> words_ok L k ->
  (forall n, 0 <= n < lay_bits L ->
     Z.testbit w n = if n =? i mod lay_bits L then b else
       match reserved_nodes k !! (i / lay_bits L) with Some w0 => Z.testbit w0 n | None => false end) ->
  forall x, 0 <= x < lay_count L ->
    rbit L (set_word k (i / lay_bits L) w) x = if x =? i then b else rbit L k x.
Proof.
  intros Hi Hw Hb x Hx. destruct (index_split i Hi) as (Hj & Hm & Ei).
  destruct (index_split x Hx) as (Hj' & Hm' & Ex).
  destruct (Hw _ Hj) as (w0 & E & _). rewrite (rbit_set_word _ _ _ _ _ Hx E).
  destruct (Z.eqb_spec (x / lay_bits L) (i / lay_bits L)) as [E1|E1].
  - rewrite Hb by done. rewrite E. destruct (Z.eqb_spec (x mod lay_bits L) (i mod lay_bits L)) as [E2|E2].
    + destruct (Z.eqb_spec x i); [done|]. congruence.
    + destruct (Z.eqb_spec x i); [congruence|]. unfold rbit. by rewrite E1, E.
  - destruct (Z.eqb_spec x i); [congruence|done].
Qed.

Lemma words_ok_set_word k j w :
  words_ok L k -> 0 <= j < words L -> u_range (lay_bits L) w ->
  (forall b, 0 <= b < lay_bits L -> Z.testbit w b = true -> j * lay_bits L + b < lay_count L) ->
  words_ok L (set_word k j w).
Proof.
  intros Hk Hj Hw Hb j' Hj'. unfold set_word. cbn. destruct (decide (j = j')) as [<-|Hne].
  - exists w. by rewrite lookup_insert_eq.
  - rewrite lookup_insert_ne by done. by apply Hk.
Qed.

Lemma marked_insert (m : gmap Z vmalloc_container) c k k' i (b : bool) q :
  (forall c k, m !! c = Some k -> page_ok c) -> m !! c = Some k -> 0 <= i < lay_count L ->
  (forall x, 0 <= x < lay_count L -> rbit L k' x = if x =? i then b else rbit L k x) ->
  marked L (<[c := k']> m) q <->
  q = node_addr L c i /\ b = true \/ q <> node_addr L c i /\ marked L m q.
Proof.
  intros Hpg Hc Hi Hbit. pose proof (Hpg _ _ Hc) as Hpc. split.
  - intros (c0 & k0 & i0 & Hc0 & Hi0 & -> & Hb). destruct (decide (c = c0)) as [<-|Hne].
    + rewrite lookup_insert_eq in Hc0. injection Hc0 as <-. rewrite Hbit in Hb by done.
      destruct (Z.eqb_spec i0 i) as [->|Hni]; [by left|]. right. split; [|by exists c, k, i0].
      intros E. by apply node_addr_inj in E as [_ ?].
    + rewrite lookup_insert_ne in Hc0 by done. right. split; [|by exists c0, k0, i0].
      intros E. apply node_addr_inj in E as [? _]; eauto.
  - intros [[-> ->]|(Hne & c0 & k0 & i0 & H1 & H2 & -> & H3)].
    + exists c, k', i. rewrite lookup_insert_eq, Hbit, Z.eqb_refl by done. done.
    + destruct (decide (c = c0)) as [<-|Hc0].
      * exists c, k', i0. rewrite lookup_insert_eq, Hbit by done. rewrite Hc in H1. injection H1 as <-.
        destruct (Z.eqb_spec i0 i); [congruence|done].
      * exists c0, k0, i0. by rewrite lookup_insert_ne.
Qed.

(** Replacing the bitfield of [c] so that exactly node [i] changes. *)
Lemma pool_set_bit p R c k k' i (b : bool) :
  pool_inv L p R -> containers p !! c = Some k -> 0 <= i < lay_count L ->
  hdr_next k' = hdr_next k -> hdr_prev k' = hdr_prev k -> words_ok L k' ->
  (forall x, 0 <= x < lay_count L -> rbit L k' x = if x =? i then b else rbit L k x) ->
  pool_inv L (MkPool (first p) (<[c := k']> (containers p)) (pnodes p))
    (if b then {[node_addr L c i]} ∪ R else R ∖ {[node_addr L c i]}).
Proof.
  intros [(cs & l & Hcs & Hcs0 & Hnd & Hdom) Hcont HR Hnodes] Hc Hi Hn Hp Hw Hbit.
  assert (dom (<[c := k']> (containers p)) = dom (containers p)) as Hd.
  { apply dom_insert_lookup_L. by exists k. }
  destruct (Hcont _ _ Hc) as [Hpg _]. split; cbn [first containers pnodes].
  - exists cs, l. rewrite Hd. split_and!; [by eapply cseg_upd|done..].
  - intros c' k0. destruct (decide (c = c')) as [<-|Hne].
    + rewrite lookup_insert_eq. intros [= <-]. done.
    + rewrite lookup_insert_ne by done. apply Hcont.
  - intros q. rewrite marked_insert by (done || intros ? ? [? _]%Hcont; done). rewrite <- HR.
    destruct b; set_unfold; naive_solver (destruct (decide (q = node_addr L c i)); tauto).
  - intros q. rewrite Hnodes. unfold in_pool. by rewrite Hd.
Qed.

Lemma word_at k i :
  words_ok L k -> 0 <= i < lay_count L ->
  exists w, reserved_nodes k !! (i / lay_bits L) = Some w /\ u_range (lay_bits L) w /\
    rbit L k i = bitfield_get w (i mod lay_bits L) /\
    (forall b, 0 <= b < lay_bits L -> Z.testbit w b = true -> i / lay_bits L * lay_bits L + b < lay_count L).
Proof.
  intros Hk Hi. destruct (index_split i Hi) as (Hj & Hm & _). destruct (Hk _ Hj) as (w & E & Hr & Hb).
  exists w. split_and!; [done..| |done]. rewrite bitfield_get_bit by lia. unfold rbit. by rewrite E.
Qed.

(** Marking and unmarking node [i] of container [c] through its word [w]. *)
Lemma pool_mark p R c k i w :
  pool_inv L p R -> containers p !! c = Some k -> 0 <= i < lay_count L ->
  reserved_nodes k !! (i / lay_bits L) = Some w ->
  pool_inv L (MkPool (first p) (<[c := set_word k (i / lay_bits L)
      (bitfield_set_high (lay_bits L) w (i mod lay_bits L))]> (containers p)) (pnodes p))
    ({[node_addr L c i]} ∪ R).
Proof.
  intros HI Hc Hi Hw. destruct (pi_cont _ _ _ HI _ _ Hc) as [Hpg Hok].
  destruct (index_split i Hi) as (Hj & Hm & Ei). destruct (word_at k i Hok Hi) as (w' & E & Hr & _ & Hb).
  rewrite Hw in E. injection E as <-. apply (pool_set_bit p R c k _ i true); try done.
  - apply words_ok_set_word; [done..|apply bitfield_set_range; lia|]. intros b Hb'.
    rewrite bitfield_set_bit by (done || lia). destruct (Z.eqb_spec b (i mod lay_bits L)); [lia|by apply Hb].
  - apply rbit_change; [done..|]. intros n Hn. rewrite bitfield_set_bit, Hw by (done || lia).
    by destruct (n =? _).
Qed.

Lemma pool_unmark p R c k i w :
  pool_inv L p R -> containers p !! c = Some k -> 0 <= i < lay_count L ->
  reserved_nodes k !! (i / lay_bits L) = Some w ->
  pool_inv L (MkPool (first p) (<[c := set_word k (i / lay_bits L)
      (bitfield_clear (lay_bits L) w (i mod lay_bits L))]> (containers p)) (pnodes p))
    (R ∖ {[node_addr L c i]}).
Proof.
  intros HI Hc Hi Hw. destruct (pi_cont _ _ _ HI _ _ Hc) as [Hpg Hok].
  destruct (index_split i Hi) as (Hj & Hm & Ei). destruct (word_at k i Hok Hi) as (w' & E & Hr & _ & Hb).
  rewrite Hw in E. injection E as <-. apply (pool_set_bit p R c k _ i false); try done.
  - apply words_ok_set_word; [done..|apply bitfield_clear_range; [lia|done]|]. intros b Hb'.
    rewrite bitfield_clear_bit by (done || lia). intros [_ ?]%andb_prop. by apply Hb.
  - apply rbit_change; [done..|]. intros n Hn. rewrite bitfield_clear_bit, Hw by (done || lia).
    by destruct (n =? _).
Qed.

Definition empty_container (prev : Z) : vmalloc_container := MkCont 0 prev (array (words L) (fun _ => 0)).

Lemma empty_words_ok prev : words_ok L (empty_container prev).
Proof.
  intros j Hj. exists 0. unfold empty_container. cbn. rewrite array_lookup, decide_True by done.
  split_and!; [done| |]; [split; [done|]; destruct HL; lia|]. intros b _. by rewrite Z.bits_0.
Qed.

Lemma empty_rbit prev i : rbit L (empty_container prev) i = false.
Proof.
  unfold rbit, empty_container. cbn. rewrite array_lookup. case_decide; [apply Z.bits_0|done].
Qed.

Lemma reserved_rbit k k' i : reserved_nodes k = reserved_nodes k' -> rbit L k i = rbit L k' i.
Proof. intros E. unfold rbit. by rewrite E. Qed.

(** Two memories with the same containers and bitfields. *)
Definition same_bits (m m' : gmap Z vmalloc_container) : Prop :=
  forall c, reserved_nodes <$> m !! c = reserved_nodes <$> m' !! c.

Lemma marked_same m m' q : same_bits m m' -> marked L m q -> marked L m' q.
Proof.
  intros Hs (c & k & i & Hc & Hi & -> & Hb). specialize (Hs c). rewrite Hc in Hs. cbn in Hs.
  destruct (m' !! c) as [k'|] eqn:E; [|done]. injection Hs as Hs.
  exists c, k', i. do 3 (split; [done|]). by rewrite <- (reserved_rbit k k').
Qed.

Lemma words_ok_same m m' c k' :
  same_bits m m' -> m' !! c = Some k' -> exists k, m !! c = Some k /\ (words_ok L k -> words_ok L k').
Proof.
  intros Hs Hc. specialize (Hs c). rewrite Hc in Hs. destruct (m !! c) as [k|] eqn:E; [|done].
  injection Hs as Hs. exists k. split; [done|]. unfold words_ok. by rewrite Hs.
Qed.

Lemma same_bits_sym m m' : same_bits m m' -> same_bits m' m.
Proof. intros H c. by rewrite H. Qed.

Lemma same_bits_upd m c k k' :
  m !! c = Some k -> reserved_nodes k' = reserved_nodes k -> same_bits m (<[c := k']> m).
Proof.
  intros Hc E d. destruct (decide (c = d)) as [<-|Hne].
  - rewrite lookup_insert_eq, Hc. cbn. by rewrite E.
  - by rewrite lookup_insert_ne.
Qed.

Lemma same_bits_dom m m' : same_bits m m' -> dom m = dom m'.
Proof.
  intros H. apply set_eq. intros c. rewrite !elem_of_dom. specialize (H c).
  destruct (m !! c), (m' !! c); naive_solver.
Qed.

(** Relinking the containers in any way keeps the invariant. *)
Lemma pool_relink p R m cs l :
  pool_inv L p R -> same_bits (containers p) m ->
  cseg m 0 (first p) cs 0 l -> cs <> [] -> NoDup cs -> dom m = list_to_set cs ->
  pool_inv L (MkPool (first p) m (pnodes p)) R.
Proof.
  intros [_ Hcont HR Hnodes] Hs Hl Hcs Hnd Hdom. split; cbn [first containers pnodes].
  - by exists cs, l.
  - intros c k Hc. destruct (words_ok_same _ _ _ _ Hs Hc) as (k0 & E & Hw).
    destruct (Hcont _ _ E). split; [done|auto].
  - intros q. rewrite HR. split; apply marked_same; [done|by apply same_bits_sym].
  - intros q. rewrite Hnodes. unfold in_pool. by rewrite (same_bits_dom _ _ Hs).
Qed.

(** Adding and removing an unmarked container that is not linked yet. *)
Lemma marked_add m c k q :
  m !! c = None -> (forall i, rbit L k i = false) -> marked L (<[c := k]> m) q <-> marked L m q.
Proof.
  intros Hc Hk. split; intros (d & k' & i & Hd & Hi & -> & Hb).
  - destruct (decide (c = d)) as [<-|].
    + rewrite lookup_insert_eq in Hd. injection Hd as <-. by rewrite Hk in Hb.
    + rewrite lookup_insert_ne in Hd by done. by exists d, k', i.
  - exists d, k', i. rewrite lookup_insert_ne; [done|]. intros ->. by rewrite Hc in Hd.
Qed.

Lemma in_pool_add m c k q :
  in_pool L (<[c := k]> m) q <-> in_pool L m q \/ exists i, 0 <= i < lay_count L /\ q = node_addr L c i.
Proof.
  unfold in_pool. split.
  - intros (d & i & Hd & Hi & ->). rewrite dom_insert_L in Hd.
    apply elem_of_union in Hd as [->%elem_of_singleton|Hd]; [right; by exists i|left; by exists d, i].
  - rewrite dom_insert_L. intros [(d & i & Hd & Hi & ->)|(i & Hi & ->)].
    + exists d, i. split; [set_solver|done].
    + exists c, i. split; [set_solver|done].
Qed.

(** A new container behind the last one. *)
Lemma pool_grow p R z va cs last klast :
  pool_inv L p R -> va ∉ dom (containers p) -> page_ok va ->
  NoDup (cs ++ [last]) -> dom (containers p) = list_to_set (cs ++ [last]) ->
  cseg (containers p) 0 (first p) (cs ++ [last]) 0 last -> containers p !! last = Some klast ->
  pool_inv L (MkPool (first p) (<[last := with_hdr_next va klast]>
      (<[va := empty_container last]> (containers p))) (zero_nodes L z va ∪ pnodes p)) R.
Proof.
  intros [_ Hcont HR Hnodes] Hva Hpg Hnd Hdom Hcs Hlast.
  assert (va <> last) as Hne by (intros ->; apply Hva; by apply elem_of_dom_2 in Hlast).
  assert (containers p !! va = None) as Hn by by apply not_elem_of_dom.
  set (m1 := <[va := empty_container last]> (containers p)).
  assert (m1 !! last = Some klast) as Hl1 by (unfold m1; by rewrite lookup_insert_ne).
  assert (same_bits m1 (<[last := with_hdr_next va klast]> m1)) as Hs by by eapply same_bits_upd.
  pose proof (same_bits_dom _ _ Hs) as Hd. split; cbn [first containers pnodes].
  - exists ((cs ++ [last]) ++ [va]), va. split_and!.
    + apply cseg_app. exists va, last. split.
      * eapply cseg_set_next; [done..|]. eapply cseg_frame; [|exact Hcs]. intros c Hc.
        unfold m1. apply lookup_insert_ne. intros ->. apply Hva. rewrite Hdom. set_solver.
      * split; [done|]. exists (empty_container last). split; [|done].
        rewrite lookup_insert_ne by done. unfold m1. by rewrite lookup_insert_eq.
    + by destruct cs.
    + apply NoDup_app. split; [done|]. split; [|apply NoDup_singleton].
      intros c Hc ->%list_elem_of_singleton. apply Hva. rewrite Hdom. set_solver.
    + rewrite <- Hd. unfold m1. rewrite dom_insert_L, Hdom. set_solver.
  - intros c k Hc. destruct (words_ok_same _ _ _ _ Hs Hc) as (k0 & E & Hw). unfold m1 in E.
    destruct (decide (va = c)) as [<-|].
    + rewrite lookup_insert_eq in E. injection E as <-. split; [done|]. apply Hw, empty_words_ok.
    + rewrite lookup_insert_ne in E by done. destruct (Hcont _ _ E). split; [done|auto].
  - intros q. rewrite HR, <- (marked_add _ va (empty_container last)) by (done || apply empty_rbit).
    split; apply marked_same; [done|by apply same_bits_sym].
  - intros q. unfold in_pool. rewrite <- Hd. fold (in_pool L m1 q). unfold m1. rewrite in_pool_add, <- Hnodes.
    rewrite lookup_union_is_Some. destruct (zero_nodes_lookup L z va q Hpg) as [[-> ?]|[-> Hno]].
    + split; [by right|]. intros _. left. by eexists.
    + split; [intros [[? ?]|?]; [done|by left]|]. intros [?|(i & Hi & ->)]; [by right|]. by destruct (Hno i).
Qed.

(** The nodes of a fresh container are new addresses. *)
Lemma pool_grow_keeps p R z va q :
  pool_inv L p R -> va ∉ dom (containers p) -> page_ok va -> q ∈ R ->
  (zero_nodes L z va ∪ pnodes p) !! q = pnodes p !! q.
Proof.
  intros [_ Hcont HR Hnodes] Hva Hpg Hq. destruct (zero_nodes_lookup L z va q Hpg) as [[_ (i & Hi & ->)]|[E _]].
  - exfalso. apply HR in Hq as (c & k & i' & Hc & Hi' & E & _). destruct (Hcont _ _ Hc) as [Hpc _].
    apply node_addr_inj in E as [-> _]; [|done..]. apply Hva. by apply elem_of_dom_2 in Hc.
  - by rewrite lookup_union_r.
Qed.

(** The containers [pr] and [nx] linked with each other. *)
Definition bridged (m : gmap Z vmalloc_container) (pr nx : Z) (kpr : vmalloc_container) :
    gmap Z vmalloc_container :=
  let m1 := <[pr := with_hdr_next nx kpr]> m in
  if nx =? 0 then m1
  else match m1 !! nx with
       | Some kd => <[nx := with_hdr_prev pr kd]> m1
       | None => m1
       end.

Lemma bridged_same m pr nx kpr : m !! pr = Some kpr -> same_bits m (bridged m pr nx kpr).
Proof.
  intros Hpr. unfold bridged. set (m1 := <[pr := _]> m).
  assert (same_bits m m1) as H1 by by eapply same_bits_upd.
  destruct (_ =? _); [done|]. destruct (m1 !! nx) as [kd|] eqn:E; [|done].
  intros d. rewrite H1. by eapply same_bits_upd.
Qed.

(** Bridging over [c] takes it out of the list. *)
Lemma bridged_seg m h cs1 pr c cs2 kpr k l :
  (forall d, d ∈ cs2 -> d <> 0) -> NoDup (cs1 ++ pr :: c :: cs2) ->
  m !! pr = Some kpr -> m !! c = Some k -> cseg m 0 h (cs1 ++ pr :: c :: cs2) 0 l ->
  exists l', cseg (delete c (bridged m pr (hdr_next k) kpr)) 0 h (cs1 ++ pr :: cs2) 0 l'.
Proof.
  intros Hnz Hnd Hpr Hc Hseg.
  change (cs1 ++ pr :: c :: cs2) with (cs1 ++ ([pr] ++ [c] ++ cs2)) in *.
  change (cs1 ++ pr :: cs2) with (cs1 ++ ([pr] ++ cs2)). rewrite !app_assoc in *.
  rewrite <- (app_assoc _ [c]) in Hseg, Hnd.
  apply cseg_app in Hseg as (e & l1 & H1 & Hec & k' & E & Hp & H2).
  rewrite Hc in E. injection E as <-. subst e.
  apply NoDup_app in Hnd as (Hnd1 & Hdis & [Hc2 Hnd2]%NoDup_cons).
  assert (forall d, d ∈ cs1 ++ [pr] -> c <> d) as Hnc by (intros d Hd ->; apply (Hdis d); set_solver).
  generalize dependent (hdr_next k). intros nx H2.
  pose proof (cseg_set_next _ _ _ _ _ _ _ _ nx Hnd1 Hpr H1) as H1'.
  unfold bridged. set (m1 := <[pr := with_hdr_next nx kpr]> m) in *.
  destruct cs2 as [|d cs2]; cbn [cseg] in H2.
  - destruct H2 as [-> _]. exists pr. rewrite app_nil_r. cbn [Z.eqb].
    eapply cseg_frame; [|exact H1']. intros d Hd. by apply lookup_delete_ne, Hnc.
  - destruct H2 as (-> & kd & Hkd & Hpd & H2). exists l.
    destruct (Z.eqb_spec d 0) as [E0|_]; [by destruct (Hnz d); [set_solver|]|].
    assert (forall x, x ∈ d :: cs2 -> x ∉ cs1 ++ [pr]) as Hd.
    { intros x Hx Hx'. apply (Hdis x Hx'). set_solver. }
    assert (forall x, x ∈ d :: cs2 -> m1 !! x = m !! x) as Hd1.
    { intros x Hx. unfold m1. apply lookup_insert_ne. intros ->. apply (Hd x Hx). set_solver. }
    rewrite (Hd1 d), Hkd by set_solver. apply cseg_app. exists d, pr. split.
    + eapply cseg_frame; [|exact H1']. intros x Hx. rewrite lookup_delete_ne by auto.
      apply lookup_insert_ne. intros ->. apply (Hd x); [set_solver|done].
    + eapply (cseg_frame (<[d := with_hdr_prev pr kd]> m1)).
      { intros x Hx. apply lookup_delete_ne. intros ->. done. }
      eapply (cseg_set_prev _ c); [by apply NoDup_cons in Hnd2 as [? _]|rewrite Hd1 by set_solver; done|].
      eapply cseg_frame; [exact Hd1|]. split; [done|]. by exists kd.
Qed.

Lemma marked_delete m c k q :
  m !! c = Some k -> (forall i, 0 <= i < lay_count L -> rbit L k i = false) ->
  marked L (delete c m) q <-> marked L m q.
Proof.
  intros Hc Hk. split; intros (d & k' & i & Hd & Hi & -> & Hb).
  - apply lookup_delete_Some in Hd as [_ Hd]. by exists d, k', i.
  - exists d, k', i. rewrite lookup_delete_ne; [done|]. intros ->. rewrite Hc in Hd. injection Hd as <-.
    by rewrite Hk in Hb.
Qed.

Lemma in_pool_delete m c q :
  (forall d, d ∈ dom m -> page_ok d) ->
  in_pool L (delete c m) q <-> in_pool L m q /\ container_of q <> c.
Proof.
  intros Hpg. unfold in_pool. rewrite dom_delete_L. split.
  - intros (d & i & [Hd Hne]%elem_of_difference & Hi & ->).
    rewrite container_of_addr by auto. split; [by exists d, i|set_solver].
  - intros ((d & i & Hd & Hi & ->) & Hne). rewrite container_of_addr in Hne by auto.
    exists d, i. split; [set_solver|done].
Qed.

(** Dropping an unmarked container that is not the first one. *)
Lemma pool_drop p R cs1 pr c cs2 kpr k l :
  pool_inv L p R -> cseg (containers p) 0 (first p) (cs1 ++ pr :: c :: cs2) 0 l ->
  NoDup (cs1 ++ pr :: c :: cs2) -> dom (containers p) = list_to_set (cs1 ++ pr :: c :: cs2) ->
  containers p !! pr = Some kpr -> containers p !! c = Some k ->
  (forall i, 0 <= i < lay_count L -> rbit L k i = false) ->
  pool_inv L (MkPool (first p) (delete c (bridged (containers p) pr (hdr_next k) kpr))
    (filter (fun x => container_of x.1 <> c) (pnodes p))) R.
Proof.
  intros [_ Hcont HR Hnodes] Hseg Hnd Hdom Hpr Hc Hk.
  assert (forall d, d ∈ dom (containers p) -> page_ok d) as Hpg.
  { intros d [kd Hd]%elem_of_dom. by destruct (Hcont _ _ Hd). }
  pose proof (bridged_same _ _ (hdr_next k) _ Hpr) as Hs. pose proof (same_bits_dom _ _ Hs) as Hd.
  assert (exists kc, bridged (containers p) pr (hdr_next k) kpr !! c = Some kc /\
    reserved_nodes kc = reserved_nodes k) as (kc & Hkc & Ekc).
  { specialize (Hs c). rewrite Hc in Hs. destruct (bridged _ _ _ _ !! c) as [kc|]; [|done].
    injection Hs as Hs. by exists kc. }
  split; cbn [first containers pnodes].
  - edestruct (bridged_seg (containers p)) as [l' Hl']; [|exact Hnd|exact Hpr|exact Hc|exact Hseg|].
    { intros d Hd'. destruct (Hpg d); [rewrite Hdom; set_solver|lia]. }
    exists (cs1 ++ pr :: cs2), l'. split_and!; [done|by destruct cs1| |].
    + change (cs1 ++ pr :: c :: cs2) with (cs1 ++ [pr] ++ c :: cs2) in Hnd. rewrite app_assoc in Hnd.
      rewrite <- Permutation_middle in Hnd. apply NoDup_cons in Hnd as [_ Hnd]. by rewrite <- app_assoc in Hnd.
    + rewrite dom_delete_L, <- Hd, Hdom. change (cs1 ++ pr :: c :: cs2) with (cs1 ++ [pr] ++ c :: cs2) in *.
      rewrite app_assoc, <- Permutation_middle in Hnd. apply NoDup_cons in Hnd as [Hc' _].
      set_solver.
  - intros d kd [_ Hkd]%lookup_delete_Some. destruct (words_ok_same _ _ _ _ Hs Hkd) as (k0 & E & Hw).
    destruct (Hcont _ _ E). split; [done|auto].
  - intros q. rewrite HR, (marked_delete _ c kc); [|done|].
    + split; apply marked_same; [done|by apply same_bits_sym].
    + intros i Hi. by rewrite (reserved_rbit _ _ i Ekc), Hk.
  - intros q. rewrite in_pool_delete by by rewrite <- Hd. unfold in_pool at 1. rewrite <- Hd.
    fold (in_pool L (containers p) q). rewrite <- Hnodes. unfold is_Some.
    setoid_rewrite map_lookup_filter_Some. cbn. naive_solver.
Qed.

End Steps.

(** ** The operations *)

Section Ops.
Context {N A : Type} (L : layout) (HL : lay_ok L) (zero : N).
Context (reserve_malloc : A -> res (Z * A)) (raw_kfree : Z -> A -> res A).
Context (Inv : A -> gset Z -> nat -> Prop) `{PS : !PageSource reserve_malloc raw_kfree Inv}.
Implicit Types (s : pool (N := N) * A) (R O : gset Z).

(** The pool together with its page source, of which the pages [O] serve
    other pools. *)
Definition pool_ok O s R (n : nat) : Prop :=
  pool_inv L s.1 R /\ dom (containers s.1) ## O /\ Inv s.2 (dom (containers s.1) ∪ O) n.

Lemma pool_ok_mono O s R n : pool_ok O s R (S n) -> pool_ok O s R n.
Proof. intros (? & ? & ?). split; [done|]. split; [done|]. by apply (ps_mono (Inv := Inv)). Qed.

Lemma wp_get_cont s c k (Q : _ -> _ -> Prop) : containers s.1 !! c = Some k -> Q k s -> wp (get_cont c) Q s.
Proof. intros Hc HQ. unfold get_cont. apply wp_bind, wp_gets. by eapply wp_deref. Qed.

Lemma wp_upd_cont s c k f (Q : _ -> _ -> Prop) :
  containers s.1 !! c = Some k -> Q tt (set_containers <[c := f k]> s) -> wp (upd_cont c f) Q s.
Proof. intros Hc HQ. unfold upd_cont. apply wp_bind. eapply wp_get_cont; [done|]. by apply wp_modify. Qed.

Lemma wp_get_word s c k j w (Q : _ -> _ -> Prop) :
  containers s.1 !! c = Some k -> reserved_nodes k !! j = Some w -> Q w s -> wp (get_word c j) Q s.
Proof. intros Hc Hj HQ. unfold get_word. apply wp_bind. eapply wp_get_cont; [done|]. by eapply wp_deref. Qed.

Lemma wp_put_word s c k j w v (Q : _ -> _ -> Prop) :
  containers s.1 !! c = Some k -> reserved_nodes k !! j = Some w ->
  Q tt (set_containers <[c := set_word k j v]> s) -> wp (put_word c j v) Q s.
Proof.
  intros Hc Hj HQ. unfold put_word. apply wp_bind. eapply wp_get_word; [done..|]. by eapply wp_upd_cont.
Qed.

(** The state after node [x] of [c] has been marked through its word. *)
Definition mark_node c k x w s : pool * A :=
  set_containers <[c := set_word k (x / lay_bits L) (bitfield_set_high (lay_bits L) w (x mod lay_bits L))]> s.

Lemma node_scan_spec n i c k s :
  containers s.1 !! c = Some k -> words_ok L k -> 0 <= i -> i + Z.of_nat n <= lay_count L ->
  wp (node_scan L n c i) (fun r s' =>
    match r with
    | None => s' = s /\ forall x, i <= x < i + Z.of_nat n -> rbit L k x = true
    | Some x => i <= x < i + Z.of_nat n /\ rbit L k x = false /\
        exists w, reserved_nodes k !! (x / lay_bits L) = Some w /\ s' = mark_node c k x w s
    end) s.
Proof.
  intros Hc Hk. revert i. induction n as [|n IH]; intros i Hi Hn; cbn [node_scan].
  { apply wp_ret. split; [done|]. lia. }
  destruct (word_at L HL k i Hk) as (w & E & Hr & Hb & _); [lia|].
  apply wp_bind. eapply wp_get_word; [done..|]. rewrite <- Hb. destruct (rbit L k i) eqn:Eb.
  - eapply wp_mono; [apply IH; lia|]. intros [x|] s'; cbn beta.
    + intros (Hx & ?). split; [lia|done].
    + intros [-> Hx]. split; [done|]. intros x Hx'. destruct (Z.eq_dec x i) as [->|]; [done|]. apply Hx. lia.
  - apply wp_bind. eapply wp_put_word; [done..|]. apply wp_ret. split; [lia|]. split; [done|]. by exists w.
Qed.

Lemma container_new_spec O s R n cs last :
  pool_ok O s R (S n) -> cseg (containers s.1) 0 (first s.1) (cs ++ [last]) 0 last ->
  NoDup (cs ++ [last]) -> dom (containers s.1) = list_to_set (cs ++ [last]) ->
  wp (vmalloc_container_new L zero reserve_malloc last) (fun va s' =>
    pool_ok O s' R n /\ containers s'.1 !! va = Some (empty_container L last) /\ va <> 0 /\
    (forall q, q ∈ R -> pnodes s'.1 !! q = pnodes s.1 !! q)) s.
Proof.
  intros (HI & HO & HA) Hcs Hnd Hdom. destruct (ps_get _ _ _ HA) as (va & a' & E & Hva & Hpg & HA').
  assert (is_Some (containers s.1 !! last)) as [kl Hkl] by (apply elem_of_dom; rewrite Hdom; set_solver).
  assert (va <> last) as Hne by (intros ->; apply Hva; apply elem_of_dom_2 in Hkl; set_solver).
  unfold vmalloc_container_new. wp_step. wp_step. apply wp_bind. eapply wp_lift; [done|].
  do 3 (apply wp_bind, wp_modify). apply wp_bind. eapply wp_upd_cont.
  { cbn. by rewrite lookup_insert_ne. }
  apply wp_ret. unfold pool_ok. cbn [set_containers set_pnodes fst snd first containers pnodes].
  assert (va ∉ dom (containers s.1)) by set_solver.
  split_and!.
  - by apply (pool_grow L HL s.1 R zero va cs last kl).
  - rewrite dom_insert_lookup_L, dom_insert_L; [set_solver|]. rewrite lookup_insert_ne by done. by exists kl.
  - rewrite dom_insert_lookup_L, dom_insert_L by (rewrite lookup_insert_ne by done; by exists kl).
    by rewrite <- (assoc_L (∪)).
  - by rewrite lookup_insert_ne, lookup_insert_eq.
  - destruct Hpg. lia.
  - intros q Hq. by apply (pool_grow_keeps L HL s.1 R zero va q).
Qed.

(** What taking a node does. *)
Definition taken O s R n (q : Z) s' : Prop :=
  q ∉ R /\ q <> 0 /\ pool_ok O s' ({[q]} ∪ R) n /\ (forall r, r ∈ R -> pnodes s'.1 !! r = pnodes s.1 !! r).

Lemma mark_node_taken O s R n c k x w :
  pool_ok O s R n -> containers s.1 !! c = Some k -> 0 <= x < lay_count L -> rbit L k x = false ->
  reserved_nodes k !! (x / lay_bits L) = Some w ->
  taken O s R n (node_addr L c x) (mark_node c k x w s).
Proof.
  intros (HI & HO & HA) Hc Hx Hb Hw. destruct (pi_cont _ _ _ HI _ _ Hc) as [Hpg _]. split_and!.
  - intros (c' & k' & x' & Hc' & Hx' & E & Hb')%(pi_R _ _ _ HI). destruct (pi_cont _ _ _ HI _ _ Hc') as [Hpg' _].
    apply (node_addr_inj L HL) in E as [<- <-]; [|done..]. congruence.
  - by apply (node_addr_nonzero L HL).
  - assert (dom (containers (mark_node c k x w s).1) = dom (containers s.1)) as Hd.
    { cbn. apply dom_insert_lookup_L. by exists k. }
    split; [by apply pool_mark|]. by rewrite Hd.
  - done.
Qed.

Lemma scan_container O s R n c k :
  pool_ok O s R n -> containers s.1 !! c = Some k ->
  wp (node_scan L (Z.to_nat (lay_count L)) c 0) (fun r s' =>
    match r with
    | None => s' = s /\ forall x, 0 <= x < lay_count L -> rbit L k x = true
    | Some x => taken O s R n (node_addr L c x) s'
    end) s.
Proof.
  intros HP Hc. destruct (pi_cont _ _ _ (proj1 HP) _ _ Hc) as [_ Hk]. destruct HL.
  eapply wp_mono; [apply node_scan_spec; [done..|lia|lia]|]. rewrite Z2Nat.id by lia. intros [x|] s'.
  - intros (Hx & Hb & w & Hw & ->). by apply mark_node_taken.
  - done.
Qed.

Lemma node_find_spec O s R n rest : forall done cur prev l fuel,
  pool_ok O s R (S n) -> cseg (containers s.1) 0 (first s.1) done cur prev ->
  cseg (containers s.1) prev cur rest 0 l -> done ++ rest <> [] -> NoDup (done ++ rest) ->
  dom (containers s.1) = list_to_set (done ++ rest) -> (length rest + 2 <= fuel)%nat ->
  wp (node_find L zero reserve_malloc fuel cur prev) (taken O s R n) s.
Proof.
  induction rest as [|c rest IH]; intros done cur prev l fuel HP Hdone Hrest Hne Hnd Hdom Hf.
  - destruct fuel as [|[|fuel]]; cbn in Hf; [lia..|]. cbn [cseg] in Hrest. destruct Hrest as [-> ->].
    cbn [node_find Z.eqb]. rewrite app_nil_r in *.
    destruct (exists_last Hne) as (cs & last & ->).
    assert (l = last) as ->.
    { apply cseg_app in Hdone as (e & l1 & _ & _ & k & _ & _ & _ & ?). done. }
    apply wp_bind. eapply wp_mono; [by eapply container_new_spec|].
    intros va s' (HP' & Hva & Hnz & Hkeep). destruct (Z.eqb_spec va 0) as [|_]; [done|].
    apply wp_bind. eapply wp_mono; [by eapply scan_container|]. intros [x|] s''.
    + intros (H1 & H2 & H3 & H4). apply wp_ret. split_and!; [done..|]. intros r Hr. by rewrite H4, Hkeep.
    + intros [_ H]. specialize (H 0). destruct HL. rewrite empty_rbit in H. discriminate H. lia.
  - destruct fuel as [|fuel]; cbn in Hf; [lia|]. destruct Hrest as (-> & k & Hk & Hp & Hrest).
    cbn [node_find]. destruct (pi_cont _ _ _ (proj1 HP) _ _ Hk) as [Hpg _].
    destruct (Z.eqb_spec c 0) as [->|_]; [destruct Hpg; lia|].
    apply wp_bind. eapply wp_mono; [by eapply scan_container|]. intros [x|] s'.
    + intros (H1 & H2 & H3 & H4). apply wp_ret. do 2 (split; [done|]). split; [by apply pool_ok_mono|done].
    + intros [-> _]. apply wp_bind. eapply wp_get_cont; [done|].
      apply (IH (done ++ [c]) _ _ l); rewrite <- ?app_assoc; try done; [|lia].
      apply cseg_app. exists c, prev. split; [done|]. split; [done|]. by exists k.
Qed.

Lemma node_new_spec O s R n :
  pool_ok O s R (S n) -> wp (vmaloc_node_new L zero reserve_malloc) (taken O s R n) s.
Proof.
  intros HP. destruct (pi_chain _ _ _ (proj1 HP)) as (cs & l & Hcs & Hne & Hnd & Hdom).
  unfold vmaloc_node_new. apply wp_bind, wp_gets. eapply node_find_spec with (done := []); try done.
  rewrite <- size_dom, Hdom, size_list_to_set by done. lia.
Qed.

(** ** Freeing *)

Lemma all_clear_spec c k js s :
  containers s.1 !! c = Some k -> (forall j, j ∈ js -> is_Some (reserved_nodes k !! j)) ->
  wp (all_clear c js) (fun b s' => s' = s /\ (b = true -> forall j, j ∈ js -> reserved_nodes k !! j = Some 0)) s.
Proof.
  intros Hc. induction js as [|j js IH]; intros Hjs; cbn [all_clear].
  { apply wp_ret. split; [done|]. set_solver. }
  destruct (Hjs j) as [w Hw]; [set_solver|]. apply wp_bind. eapply wp_get_word; [done..|].
  destruct (Z.eqb_spec w 0) as [->|]; cbn [negb].
  - eapply wp_mono; [apply IH; set_solver|]. intros b s' [-> Hb]. split; [done|].
    intros -> j' [->|Hj]%elem_of_cons; [done|]. by apply Hb.
  - by apply wp_ret.
Qed.

Lemma clear_words_rbit k :
  (forall j, 0 <= j < words L -> reserved_nodes k !! j = Some 0) ->
  forall i, 0 <= i < lay_count L -> rbit L k i = false.
Proof.
  intros H i Hi. destruct (index_split L HL i Hi) as (Hj & _). unfold rbit. rewrite H by done. apply Z.bits_0.
Qed.

(** The state after bridging over [c] and giving its page back. *)
Lemma release_spec O s s0 R n cs1 pr c cs2 kpr k l :
  pool_ok O s0 R n -> cseg (containers s0.1) 0 (first s0.1) (cs1 ++ pr :: c :: cs2) 0 l ->
  NoDup (cs1 ++ pr :: c :: cs2) -> dom (containers s0.1) = list_to_set (cs1 ++ pr :: c :: cs2) ->
  containers s0.1 !! pr = Some kpr -> containers s0.1 !! c = Some k ->
  (forall i, 0 <= i < lay_count L -> rbit L k i = false) ->
  s = set_containers (fun _ => bridged (containers s0.1) pr (hdr_next k) kpr) s0 ->
  wp (release_page raw_kfree c) (fun _ s' => pool_ok O s' R n /\
    (forall r, r ∈ R -> pnodes s'.1 !! r = pnodes s0.1 !! r)) s.
Proof.
  intros (HI & HO & HA) Hseg Hnd Hdom Hpr Hc Hk ->.
  pose proof (same_bits_dom _ _ (bridged_same _ _ (hdr_next k) _ Hpr)) as Hd.
  assert (c ∈ dom (containers s0.1)) by by apply elem_of_dom_2 in Hc.
  destruct (ps_free _ _ _ c HA) as (a' & E & HA'); [set_solver|].
  unfold release_page. apply wp_bind, wp_gets, wp_bind. eapply wp_lift; [exact E|].
  do 2 (apply wp_bind, wp_modify). apply wp_modify.
  unfold pool_ok. cbn [set_containers set_pnodes fst snd first containers pnodes]. split_and!.
  - by eapply pool_drop.
  - rewrite dom_delete_L, <- Hd. set_solver.
  - rewrite dom_delete_L, <- Hd.
    replace (dom (containers s0.1) ∖ {[c]} ∪ O) with ((dom (containers s0.1) ∪ O) ∖ {[c]}); [done|].
    assert (c ∉ O) by set_solver. set_solver.
  - intros r (d & kd & i & Hd' & Hi & -> & Hb)%(pi_R _ _ _ HI). destruct (pi_cont _ _ _ HI _ _ Hd') as [Hpd _].
    destruct (pnodes s0.1 !! node_addr L d i) as [v|] eqn:Ev.
    + apply map_lookup_filter_Some. split; [done|]. cbn. rewrite container_of_addr by done.
      intros ->. rewrite Hc in Hd'. injection Hd' as <-. by rewrite Hk in Hb.
    + apply map_lookup_filter_None. by left.
Qed.

(** The two header writes that bridge over a container. *)
Lemma bridge_wp s pr nx kpr (f : unit -> M (pool (N := N) * A) unit) (Q : unit -> pool * A -> Prop) :
  containers s.1 !! pr = Some kpr -> (nx <> 0 -> is_Some (containers s.1 !! nx)) ->
  wp (f tt) Q (set_containers (fun _ => bridged (containers s.1) pr nx kpr) s) ->
  wp (bind (upd_cont pr (with_hdr_next nx))
       (fun _ => bind (if negb (nx =? 0) then upd_cont nx (with_hdr_prev pr) else ret tt) f)) Q s.
Proof.
  intros Hpr Hnx HQ. apply wp_bind. eapply wp_upd_cont; [done|]. apply wp_bind.
  unfold bridged in HQ. destruct (Z.eqb_spec nx 0) as [E|E]; cbn [negb].
  - by apply wp_ret.
  - assert (is_Some (containers (set_containers <[pr := with_hdr_next nx kpr]> s).1 !! nx)) as [kn Hkn].
    { cbn. destruct (decide (pr = nx)) as [->|]; [rewrite lookup_insert_eq; by eexists|].
      rewrite lookup_insert_ne by done. auto. }
    eapply wp_upd_cont; [exact Hkn|]. cbn in Hkn. rewrite Hkn in HQ. exact HQ.
Qed.

(** Where a container that is not the first one sits. *)
Lemma chain_split p R c :
  pool_inv L (N := N) p R -> c ∈ dom (containers p) -> c <> first p ->
  exists cs1 pr cs2 kpr k l, cseg (containers p) 0 (first p) (cs1 ++ pr :: c :: cs2) 0 l /\
    NoDup (cs1 ++ pr :: c :: cs2) /\ dom (containers p) = list_to_set (cs1 ++ pr :: c :: cs2) /\
    containers p !! pr = Some kpr /\ containers p !! c = Some k /\ hdr_next kpr = c /\ hdr_prev k = pr /\
    (hdr_next k <> 0 -> is_Some (containers p !! hdr_next k)).
Proof.
  intros HI Hc Hf. destruct (pi_chain _ _ _ HI) as (cs & l & Hseg & Hne & Hnd & Hdom).
  assert (c ∈ cs) as Hcs by (rewrite Hdom in Hc; set_solver).
  apply list_elem_of_split in Hcs as (l1 & cs2 & ->).
  destruct l1 as [|x l1] using rev_ind; [by destruct Hseg as [? _]|]. clear IHl1.
  rewrite <- app_assoc in *. cbn [app] in *. pose proof Hseg as Hseg'.
  apply cseg_app in Hseg as (e & le & _ & -> & kpr & Hkpr & _ & Hn & k & Hk & Hp & Hrest).
  exists l1, x, cs2, kpr, k, l. split_and!; try done. intros Hnz.
  destruct cs2 as [|d cs2]; [by destruct Hrest|]. destruct Hrest as (-> & kd & ? & _). by exists kd.
Qed.

Lemma container_free_loop_wp s pre : forall prev cur fuel pr c cs2 kpr k l (Q : unit -> pool * A -> Prop),
  cseg (containers s.1) prev cur (pre ++ pr :: c :: cs2) 0 l -> NoDup (pre ++ pr :: c :: cs2) ->
  (forall d, d ∈ pre ++ pr :: c :: cs2 -> d <> 0) ->
  containers s.1 !! pr = Some kpr -> containers s.1 !! c = Some k ->
  (hdr_next k <> 0 -> is_Some (containers s.1 !! hdr_next k)) -> (length pre < fuel)%nat ->
  wp (release_page raw_kfree c) Q (set_containers (fun _ => bridged (containers s.1) pr (hdr_next k) kpr) s) ->
  wp (container_free_loop raw_kfree fuel cur c) Q s.
Proof.
  induction pre as [|d pre IH]; intros prev cur fuel pr c cs2 kpr k l Q Hseg Hnd Hnz Hpr Hc Hnx Hf HQ;
    (destruct fuel as [|fuel]; [cbn in Hf; lia|]); cbn [container_free_loop].
  - destruct Hseg as (-> & k1 & Hk1 & _ & Hn & _). rewrite Hpr in Hk1. injection Hk1 as <-.
    destruct (Z.eqb_spec pr 0) as [->|_]; [by destruct (Hnz 0); [set_solver|]|].
    apply wp_bind. eapply wp_get_cont; [done|]. rewrite Hn, Z.eqb_refl.
    apply wp_bind. eapply wp_get_cont; [done|]. by eapply (bridge_wp s pr (hdr_next k) kpr (fun _ => _)).
  - destruct Hseg as (-> & kd & Hkd & _ & Hrest).
    destruct (Z.eqb_spec d 0) as [->|_]; [by destruct (Hnz 0); [set_solver|]|].
    apply wp_bind. eapply wp_get_cont; [done|].
    cbn [app] in Hnd. apply NoDup_cons in Hnd as [Hd Hnd].
    assert (hdr_next kd <> c) as Hne.
    { destruct pre as [|x pre].
      - destruct Hrest as [-> _]. cbn in Hnd. apply NoDup_cons in Hnd as [? _]. set_solver.
      - destruct Hrest as [-> _]. cbn in Hnd. apply NoDup_cons in Hnd as [? _]. set_solver. }
    destruct (Z.eqb_spec (hdr_next kd) c) as [|_]; [done|].
    eapply IH; try done; [set_solver|cbn in Hf; lia].
Qed.

(** What freeing a node does. *)
Definition freed O s R n (q : Z) s' : Prop :=
  pool_ok O s' (R ∖ {[q]}) n /\ (forall r, r ∈ R ∖ {[q]} -> pnodes s'.1 !! r = pnodes s.1 !! r).

(** Dropping the empty container [c], in the way of containers.c and in the
    way of mdt.c. *)
Lemma container_free_spec O s R n c k :
  pool_ok O s R n -> containers s.1 !! c = Some k -> c <> first s.1 ->
  (forall i, 0 <= i < lay_count L -> rbit L k i = false) ->
  wp (container_free raw_kfree c) (fun _ s' => pool_ok O s' R n /\
     forall r, r ∈ R -> pnodes s'.1 !! r = pnodes s.1 !! r) s /\
  wp (pa_mdt_container_free raw_kfree c) (fun _ s' => pool_ok O s' R n /\
     forall r, r ∈ R -> pnodes s'.1 !! r = pnodes s.1 !! r) s.
Proof.
  intros HP Hc Hf Hk. destruct (chain_split s.1 R c (proj1 HP)) as
    (cs1 & pr & cs2 & kpr & k' & l & Hseg & Hnd & Hdom & Hpr & Hc' & Hn & Hp & Hnx); [by apply elem_of_dom_2 in Hc|done|].
  rewrite Hc in Hc'. injection Hc' as <-.
  assert (forall d, d ∈ cs1 ++ pr :: c :: cs2 -> d <> 0) as Hnz.
  { intros d Hd. assert (d ∈ dom (containers s.1)) as [kd Hkd]%elem_of_dom by (rewrite Hdom; set_solver).
    destruct (pi_cont _ _ _ (proj1 HP) _ _ Hkd) as [[? _] _]. lia. }
  split.
  - unfold container_free. apply wp_bind, wp_gets. eapply container_free_loop_wp; try done.
    + rewrite <- size_dom, Hdom, size_list_to_set, length_app by done. cbn. lia.
    + by eapply release_spec.
  - unfold pa_mdt_container_free. apply wp_bind, wp_gets. destruct (Z.eqb_spec c (first s.1)); [done|].
    apply wp_bind. eapply wp_get_cont; [done|]. rewrite Hp.
    destruct (Z.eqb_spec pr 0) as [E0|_]; [by destruct (Hnz pr); [set_solver|]|]. cbn [negb].
    eapply (bridge_wp s pr (hdr_next k) kpr (fun _ => _)); [done..|]. by eapply release_spec.
Qed.

(** Clearing the bit of [q] and looking for other bits. *)
Lemma clear_node_wp O s R n c k i w (Q : unit -> pool * A -> Prop) (fin : M (pool (N := N) * A) unit) :
  pool_ok O s R n -> containers s.1 !! c = Some k -> 0 <= i < lay_count L ->
  reserved_nodes k !! (i / lay_bits L) = Some w ->
  (forall s1 k1, pool_ok O s1 (R ∖ {[node_addr L c i]}) n -> first s1.1 = first s.1 ->
     pnodes s1.1 = pnodes s.1 -> containers s1.1 !! c = Some k1 -> words_ok L k1 -> wp fin Q s1) ->
  wp (put_word c (i / lay_bits L) (bitfield_clear (lay_bits L) w (i mod lay_bits L)) ;; fin) Q s.
Proof.
  intros (HI & HO & HA) Hc Hi Hw Hfin. apply wp_bind. eapply wp_put_word; [done..|].
  pose proof (pool_unmark L HL s.1 R c k i w HI Hc Hi Hw) as HI'.
  eapply Hfin; [| done | done | cbn; by rewrite lookup_insert_eq |].
  - split; [exact HI'|]. cbn [set_containers fst snd containers].
    by rewrite dom_insert_lookup_L by by exists k.
  - eapply (pi_cont _ _ _ HI' c). cbn. by rewrite lookup_insert_eq.
Qed.

Lemma reserved_node O s R n q :
  pool_ok O s R n -> q ∈ R ->
  exists c k i w, containers s.1 !! c = Some k /\ page_ok c /\ 0 <= i < lay_count L /\ q = node_addr L c i /\
    reserved_nodes k !! (i / lay_bits L) = Some w.
Proof.
  intros HP (c & k & i & Hc & Hi & -> & _)%(pi_R _ _ _ (proj1 HP)).
  destruct (pi_cont _ _ _ (proj1 HP) _ _ Hc) as [Hpg Hk].
  destruct (word_at L HL k i Hk Hi) as (w & Hw & _). by exists c, k, i, w.
Qed.

(** Giving an emptied container back. *)
Lemma finish_free_wp O s R n c k (drop : M (pool (N := N) * A) unit) (Q : unit -> pool * A -> Prop) :
  pool_ok O s R n -> containers s.1 !! c = Some k -> words_ok L k ->
  (pool_ok O s R n -> Q tt s) ->
  ((forall i, 0 <= i < lay_count L -> rbit L k i = false) -> wp drop Q s) ->
  wp (let* e := all_clear c (seqZ 0 (words L)) in if e then drop else ret tt) Q s.
Proof.
  intros HP Hc Hk HQ Hdrop. apply wp_bind. eapply wp_mono; [apply all_clear_spec; [done|]|].
  - intros j Hj%elem_of_seqZ. destruct (Hk j) as (w & ? & _); [lia|]. by exists w.
  - intros e s' [-> He]. destruct e; [|by apply wp_ret; apply HQ].
    apply Hdrop, clear_words_rbit. intros j Hj. apply He; [done|]. apply elem_of_seqZ. lia.
Qed.

Lemma free_node_spec O s R n q :
  pool_ok O s R n -> q ∈ R -> wp (free_node L raw_kfree q) (fun _ => freed O s R n q) s.
Proof.
  intros HP Hq. destruct (reserved_node O s R n q HP Hq) as (c & k & i & w & Hc & Hpg & Hi & -> & Hw).
  unfold free_node. rewrite container_of_addr, node_index_addr by done.
  apply wp_bind, wp_ASSERT; [apply Z.ltb_lt; lia|]. apply wp_bind. eapply wp_get_word; [done..|].
  eapply (clear_node_wp O s R n c k i w); [done..|]. intros s1 k1 HP1 Hf1 Hn1 Hc1 Hk1.
  assert (freed O s R n (node_addr L c i) s1) as HF by (split; [done|]; by rewrite Hn1).
  apply wp_bind, wp_gets. destruct (Z.eqb_spec c (first s1.1)); [by apply wp_ret|].
  eapply finish_free_wp; [done..|]. intros He.
  eapply wp_mono; [by apply (container_free_spec _ _ _ _ c k1 HP1)|].
  intros _ s' [? Hkeep]. split; [done|]. intros r Hr. by rewrite Hkeep, Hn1.
Qed.

Lemma free_mdt_node_spec O s R n q :
  pool_ok O s R n -> q ∈ R -> wp (free_mdt_node L raw_kfree q) (fun _ => freed O s R n q) s.
Proof.
  intros HP Hq. destruct (reserved_node O s R n q HP Hq) as (c & k & i & w & Hc & Hpg & Hi & -> & Hw).
  unfold free_mdt_node. change (align_down (node_addr L c i) PAGE_ALIGN) with (container_of (node_addr L c i)).
  rewrite container_of_addr, node_index_addr by done. apply wp_bind. eapply wp_get_word; [done..|].
  eapply (clear_node_wp O s R n c k i w); [done..|]. intros s1 k1 HP1 Hf1 Hn1 Hc1 Hk1.
  assert (freed O s R n (node_addr L c i) s1) as HF by (split; [done|]; by rewrite Hn1).
  eapply finish_free_wp; [done..|]. intros He. destruct (decide (c = first s1.1)) as [E|Hne].
  - unfold pa_mdt_container_free. apply wp_bind, wp_gets. destruct (Z.eqb_spec c (first s1.1)); [by apply wp_ret|done].
  - eapply wp_mono; [by apply (container_free_spec _ _ _ _ c k1 HP1)|].
    intros _ s' [? Hkeep]. split; [done|]. intros r Hr. by rewrite Hkeep, Hn1.
Qed.

(** Reserved nodes can be read and written. *)
Lemma get_n_spec O s R n q :
  pool_ok O s R n -> q ∈ R -> exists v, pnodes s.1 !! q = Some v.
Proof.
  intros HP Hq. destruct (reserved_node O s R n q HP Hq) as (c & k & i & w & Hc & _ & Hi & -> & _).
  apply (pi_nodes _ _ _ (proj1 HP)). exists c, i. by apply elem_of_dom_2 in Hc.
Qed.

Lemma pool_ok_write O s R n q v :
  pool_ok O s R n -> q ∈ R -> pool_ok O (set_pnodes <[q := v]> s) R n.
Proof.
  intros HP Hq. destruct (get_n_spec O s R n q HP Hq) as [v0 Hv]. destruct HP as ([H1 H2 H3 H4] & HO & HA).
  split; [|done]. split; [done..|]. intros r. cbn [set_pnodes fst containers pnodes]. rewrite <- H4.
  destruct (decide (q = r)) as [<-|Hne].
  - rewrite lookup_insert_eq, Hv. split; by eexists.
  - by rewrite lookup_insert_ne.
Qed.

(** A single zeroed container is an empty pool. *)
Lemma pool_init_spec O s va n :
  page_ok va -> va ∉ O -> Inv s.2 ({[va]} ∪ O) n ->
  wp (pool_init L zero va) (fun _ s' => pool_ok O s' ∅ n /\ dom (containers s'.1) = {[va]}) s.
Proof.
  intros Hpg HvO HA. unfold pool_init. apply wp_modify. unfold pool_ok. cbn [fst snd containers].
  rewrite dom_singleton_L. split; [|done]. split; [|split; [set_solver|done]].
  change (MkCont 0 0 (array (words L) (fun _ => 0))) with (empty_container L 0).
  split; cbn [first containers pnodes].
  - exists [va], va. rewrite dom_singleton_L. split_and!; [|done|apply NoDup_singleton|set_solver].
    split; [done|]. exists (empty_container L 0). by rewrite lookup_singleton_eq.
  - intros c k [<- <-]%lookup_singleton_Some. split; [done|]. by apply empty_words_ok.
  - intros q. split; [set_solver|]. intros (c & k & i & [<- <-]%lookup_singleton_Some & _ & _ & Hb).
    by rewrite empty_rbit in Hb.
  - intros q. unfold in_pool. rewrite dom_singleton_L.
    destruct (zero_nodes_lookup L zero va q Hpg) as [[-> (i & Hi & ->)]|[-> Hno]].
    + split; [|by eexists]. intros _. exists va, i. split; [set_solver|done].
    + split; [by intros [? ?]|]. intros (c & i & ->%elem_of_singleton & Hi & ->). by destruct (Hno i).
Qed.
End Ops.
