(* ===== verification/Vmalloc.v ===== *)
(** * Vmalloc: the kernel's virtual address allocator

    src/kernel/mm/malloc/vmalloc/vmalloc.c with the list part of mdt/mdt.c.
    Two address-ordered lists of free areas ([fva_*_list]) and two of
    reserved areas ([rva_*_list]), one pair for the window in which virtual
    and physical addresses differ by [KERNEL_BASE] (KMAP) and one for the
    rest of the upper half (DYNAMIC); each reserved area may carry a list of
    the physical blocks behind it.  The nodes live in the containers of
    [VmContainers]; addresses in the lists are zero extended. *)

From Stdlib Require Import ZArith Lia.
From stdpp Require Import base tactics numbers gmap list.
From S2P Require Import Prelude KMath PageAllocator VmContainers.

Open Scope Z_scope.

(** ** Data *)

Definition MM_MMU_HI_BITS : Z := 48.

Record fva_node : Type := MkFva { f_next : Z; f_start : Z; f_size : Z }.

Record vmalloc_allocated_area_mdt : Type := MkArea {
  vi_tag : Z;
  vi_kmapped : bool;
  vi_pa_assigned : bool;
  vi_device_mem : bool;
  vi_permanent : bool;
}.

Record vmalloc_mdt : Type := MkMdt {
  mdt_info : vmalloc_allocated_area_mdt;
  pa_list : Z;     (* pa_mdt.list *)
  pa_count : Z;    (* pa_mdt.count, 32 bits *)
}.

Record rva_node : Type := MkRva { r_next : Z; r_start : Z; r_size : Z; r_mdt : vmalloc_mdt }.

Record vmalloc_pa_info : Type := MkPaInfo { pi_pa : Z; pi_va : Z; pi_order : Z }.

Record vmalloc_pa_mdt : Type := MkPaMdt { m_next : Z; m_info : vmalloc_pa_info }.

Record vmalloc_cfg : Type := MkCfg {
  vc_use_kmap : bool;
  vc_kmap_pa : Z;
  vc_assign_pa : bool;
  vc_device_mem : bool;
  vc_permanent : bool;
}.

Inductive vmalloc_lists : Type := KMAP_LIST | DYNAMIC_LIST.

#[export] Instance vmalloc_lists_eq_dec : EqDecision vmalloc_lists.
Proof. solve_decision. Defined.

Inductive vmalloc_va_info : Type :=
  | VMALLOC_VA_INFO_FREE (free_start free_size : Z)
  | VMALLOC_VA_INFO_RESERVED (reserved_start reserved_size : Z) (mdt : vmalloc_mdt)
  | VMALLOC_VA_UNREGISTERED.

(** Zeroed memory *)
Definition fva_zero : fva_node := MkFva 0 0 0.
Definition rva_zero : rva_node := MkRva 0 0 0 (MkMdt (MkArea 0 false false false false) 0 0).
Definition pa_mdt_zero : vmalloc_pa_mdt := MkPaMdt 0 (MkPaInfo 0 0 0).

Section Vmalloc.
Context {A : Type}.
Context (reserve_malloc : A -> res (Z * A)) (raw_kfree : Z -> A -> res A).

(** The statics of vmalloc.c, containers.c and mdt.c, the address space size
    of mm_info.c, and the state of the page source. *)
Record vm_state : Type := MkVm {
  fpool : pool (N := fva_node);
  rpool : pool (N := rva_node);
  mpool : pool (N := vmalloc_pa_mdt);
  fva_kmap_list : Z;
  fva_dynamic_list : Z;
  rva_kmap_list : Z;
  rva_dynamic_list : Z;
  mm_addr_space : Z;
  pages : A;
}.

Abbreviation VM := (M vm_state).

Definition set_fpool (p : pool) (a : A) (s : vm_state) : vm_state :=
  MkVm p (rpool s) (mpool s) (fva_kmap_list s) (fva_dynamic_list s)
    (rva_kmap_list s) (rva_dynamic_list s) (mm_addr_space s) a.
Definition set_rpool (p : pool) (a : A) (s : vm_state) : vm_state :=
  MkVm (fpool s) p (mpool s) (fva_kmap_list s) (fva_dynamic_list s)
    (rva_kmap_list s) (rva_dynamic_list s) (mm_addr_space s) a.
Definition set_mpool (p : pool) (a : A) (s : vm_state) : vm_state :=
  MkVm (fpool s) (rpool s) p (fva_kmap_list s) (fva_dynamic_list s)
    (rva_kmap_list s) (rva_dynamic_list s) (mm_addr_space s) a.

Definition with_fpool {X} (m : M (pool * A) X) : VM X := fun s =>
  match m (fpool s, pages s) with Ok (x, (p, a)) => Ok (x, set_fpool p a s) | Err e => Err e end.
Definition with_rpool {X} (m : M (pool * A) X) : VM X := fun s =>
  match m (rpool s, pages s) with Ok (x, (p, a)) => Ok (x, set_rpool p a s) | Err e => Err e end.
Definition with_mpool {X} (m : M (pool * A) X) : VM X := fun s =>
  match m (mpool s, pages s) with Ok (x, (p, a)) => Ok (x, set_mpool p a s) | Err e => Err e end.

(** The list heads, by list *)
Definition fva_head (l : vmalloc_lists) (s : vm_state) : Z :=
  match l with KMAP_LIST => fva_kmap_list s | DYNAMIC_LIST => fva_dynamic_list s end.
Definition rva_head (l : vmalloc_lists) (s : vm_state) : Z :=
  match l with KMAP_LIST => rva_kmap_list s | DYNAMIC_LIST => rva_dynamic_list s end.
Definition set_fva_head (l : vmalloc_lists) (v : Z) (s : vm_state) : vm_state :=
  match l with
  | KMAP_LIST => MkVm (fpool s) (rpool s) (mpool s) v (fva_dynamic_list s)
      (rva_kmap_list s) (rva_dynamic_list s) (mm_addr_space s) (pages s)
  | DYNAMIC_LIST => MkVm (fpool s) (rpool s) (mpool s) (fva_kmap_list s) v
      (rva_kmap_list s) (rva_dynamic_list s) (mm_addr_space s) (pages s)
  end.
Definition set_rva_head (l : vmalloc_lists) (v : Z) (s : vm_state) : vm_state :=
  match l with
  | KMAP_LIST => MkVm (fpool s) (rpool s) (mpool s) (fva_kmap_list s) (fva_dynamic_list s)
      v (rva_dynamic_list s) (mm_addr_space s) (pages s)
  | DYNAMIC_LIST => MkVm (fpool s) (rpool s) (mpool s) (fva_kmap_list s) (fva_dynamic_list s)
      (rva_kmap_list s) v (mm_addr_space s) (pages s)
  end.

(** Node accesses *)
Definition fva_get (p : Z) : VM fva_node := with_fpool (get_n p).
Definition fva_upd (p : Z) (f : fva_node -> fva_node) : VM unit :=
  with_fpool (let* n := get_n p in put_n p (f n)).
Definition rva_get (p : Z) : VM rva_node := with_rpool (get_n p).
Definition rva_upd (p : Z) (f : rva_node -> rva_node) : VM unit :=
  with_rpool (let* n := get_n p in put_n p (f n)).
Definition mdt_get (p : Z) : VM vmalloc_pa_mdt := with_mpool (get_n p).
Definition mdt_upd (p : Z) (f : vmalloc_pa_mdt -> vmalloc_pa_mdt) : VM unit :=
  with_mpool (let* n := get_n p in put_n p (f n)).

Definition with_f_next (v : Z) (n : fva_node) := MkFva v (f_start n) (f_size n).
Definition with_r_next (v : Z) (n : rva_node) := MkRva v (r_start n) (r_size n) (r_mdt n).
Definition with_m_next (v : Z) (n : vmalloc_pa_mdt) := MkPaMdt v (m_info n).
Definition with_pa_mdt (list count : Z) (n : rva_node) :=
  MkRva (r_next n) (r_start n) (r_size n) (MkMdt (mdt_info (r_mdt n)) list count).

(** ** containers.c and mdt.c, by node kind *)

Definition get_new_fva_node : VM Z := with_fpool (vmaloc_node_new fva_layout fva_zero reserve_malloc).
Definition get_new_rva_node : VM Z := with_rpool (vmaloc_node_new rva_layout rva_zero reserve_malloc).
Definition node_new : VM Z := with_mpool (vmaloc_node_new mdt_layout pa_mdt_zero reserve_malloc).
Definition free_fva_node (p : Z) : VM unit := with_fpool (free_node fva_layout raw_kfree p).
Definition free_rva_node (p : Z) : VM unit := with_rpool (free_node rva_layout raw_kfree p).

Definition vmalloc_init_containers (fva_page rva_page : Z) : VM unit :=
  with_fpool (pool_init fva_layout fva_zero fva_page) ;;
  with_rpool (pool_init rva_layout rva_zero rva_page).
Definition vmalloc_pa_mdt_init (mdt_page : Z) : VM unit :=
  with_mpool (pool_init mdt_layout pa_mdt_zero mdt_page).

(** Bounds for the walks: a list has no more nodes than the node memory. *)
Definition f_fuel (s : vm_state) : nat := S (size (pnodes (fpool s))).
Definition r_fuel (s : vm_state) : nat := S (size (pnodes (rpool s))).
Definition m_fuel (s : vm_state) : nat := S (size (pnodes (mpool s))).

(** ** mdt.c: the physical blocks of an area *)

(** [while (cur && cur->info.va <= va)] *)
Fixpoint mdt_seek (fuel : nat) (va cur prev : Z) : VM (Z * Z) :=
  match fuel with
  | O => nofuel
  | S fuel =>
      if cur =? 0 then ret (cur, prev)
      else
        let* c := mdt_get cur in
        if pi_va (m_info c) <=? va then mdt_seek fuel va (m_next c) cur else ret (cur, prev)
  end.

Definition vmalloc_pa_mdt_push (n o pa va : Z) : VM unit :=
  rva_upd n (fun r => with_pa_mdt (pa_list (r_mdt r)) (wrap32 (pa_count (r_mdt r) + 1)) r) ;;
  let* node := node_new in
  mdt_upd node (fun _ => MkPaMdt 0 (MkPaInfo pa va o)) ;;
  let* r := rva_get n in
  let cur := pa_list (r_mdt r) in
  let* first := (if cur =? 0 then ret true
                 else let* c := mdt_get cur in ret (va <? pi_va (m_info c))) in
  if first : bool then
    mdt_upd node (with_m_next cur) ;;
    rva_upd n (fun r => with_pa_mdt node (pa_count (r_mdt r)) r)
  else
    let* fuel := gets m_fuel in
    let* r := mdt_seek fuel va cur 0 in
    let (cur, prev) := r : Z * Z in
    mdt_upd node (with_m_next cur) ;;
    mdt_upd prev (with_m_next node).

Fixpoint mdt_free_loop (fuel : nat) (cur : Z) : VM unit :=
  match fuel with
  | O => nofuel
  | S fuel =>
      if cur =? 0 then ret tt
      else
        let* c := mdt_get cur in
        with_mpool (free_mdt_node mdt_layout raw_kfree cur) ;;
        mdt_free_loop fuel (m_next c)
  end.

Definition vmalloc_pa_mdt_free (n : Z) : VM unit :=
  let* r := rva_get n in
  let* fuel := gets m_fuel in
  mdt_free_loop fuel (pa_list (r_mdt r)) ;;
  rva_upd n (with_pa_mdt 0 0).

(** ** vmalloc.c *)

Definition vunsign (va : Z) : VM Z := lift (va_zero_extend va MM_MMU_HI_BITS).
Definition vsign (va : Z) : VM Z := lift (va_sign_extend va MM_MMU_HI_BITS).

Definition list_from_va (uva : Z) : VM vmalloc_lists :=
  let* sp := gets mm_addr_space in
  let* addr_space_end := vunsign (kpa_to_kva sp) in
  ret (if uva <? addr_space_end then KMAP_LIST else DYNAMIC_LIST).

Definition vmalloc_init (fva_page rva_page mdt_page : Z) : VM unit :=
  vmalloc_init_containers fva_page rva_page ;;
  vmalloc_pa_mdt_init mdt_page ;;
  let* k := get_new_fva_node in
  modify (set_fva_head KMAP_LIST k) ;;
  let* d := get_new_fva_node in
  modify (set_fva_head DYNAMIC_LIST d) ;;
  let* sp := gets mm_addr_space in
  let* kstart := vunsign (kpa_to_kva 0) in
  fva_upd k (fun _ => MkFva 0 kstart (wrap64 (kpa_to_kva sp - kpa_to_kva 0))) ;;
  let* dstart := vunsign (kpa_to_kva sp) in
  let* top := vunsign (not64 0) in
  fva_upd d (fun _ => MkFva 0 dstart (wrap64 (top - dstart + 1))) ;;
  modify (set_rva_head KMAP_LIST 0) ;;
  modify (set_rva_head DYNAMIC_LIST 0).

(** [if (prev) prev->next = x; else *list = x;] *)
Definition set_f_link (l : vmalloc_lists) (prev x : Z) : VM unit :=
  if negb (prev =? 0) then fva_upd prev (with_f_next x) else modify (set_fva_head l x).
Definition set_r_link (l : vmalloc_lists) (prev x : Z) : VM unit :=
  if negb (prev =? 0) then rva_upd prev (with_r_next x) else modify (set_rva_head l x).

Definition reserve_from_fva_node (l : vmalloc_lists) (cur prev va bytes : Z) : VM Z :=
  let* c := fva_get cur in
  let cur_start := f_start c in
  let cur_end := wrap64 (f_start c + f_size c) in
  if (va =? cur_start) && (bytes =? f_size c) then
    set_f_link l prev (f_next c) ;; free_fva_node cur ;; ret va
  else if va =? cur_start then
    fva_upd cur (fun c => MkFva (f_next c) (wrap64 (f_start c + bytes)) (wrap64 (f_size c - bytes))) ;;
    ret va
  else if wrap64 (va + bytes) =? cur_end then
    fva_upd cur (fun c => MkFva (f_next c) (f_start c) (wrap64 (va - cur_start))) ;; ret va
  else
    let* new := get_new_fva_node in
    let* c := fva_get cur in
    fva_upd new (fun _ => MkFva (f_next c) (wrap64 (va + bytes)) (wrap64 (cur_end - wrap64 (va + bytes)))) ;;
    fva_upd cur (fun c => MkFva (f_next c) (f_start c) (wrap64 (va - cur_start))) ;;
    fva_upd cur (with_f_next new) ;;
    ret va.

Definition PAGE_L3 : Z := 4096.
Definition PAGE_L2 : Z := PAGE_L3 * 512.
Definition PAGE_L1 : Z := PAGE_L2 * 512.

Definition dynamic_fits_page_aligned (pg_align bytes cur_start cur_end : Z) : bool :=
  let aligned := align_up cur_start pg_align in
  if aligned <? cur_start then false
  else if cur_end <=? aligned then false
  else wrap64 (aligned + bytes) <=? cur_end.

Definition page_align_for (bytes : Z) : Z :=
  if PAGE_L1 <=? bytes then PAGE_L1 else if PAGE_L2 <=? bytes then PAGE_L2 else PAGE_L3.

(** [fit]: [fits_dynamic_unaligned] and its predecessor *)
Fixpoint pop_fva_loop (fuel : nat) (l : vmalloc_lists) (bytes kmap_va cur prev : Z) (fit : Z * Z) : VM Z :=
  match fuel with
  | O => nofuel
  | S fuel =>
      if cur =? 0 then
        match l with
        | DYNAMIC_LIST =>
            if negb (fit.1 =? 0) then
              let* f := fva_get fit.1 in
              reserve_from_fva_node l fit.1 fit.2 (f_start f) bytes
            else panic
        | KMAP_LIST => panic
        end
      else
        let* c := fva_get cur in
        let cur_start := f_start c in
        let cur_size := f_size c in
        let cur_end := wrap64 (cur_start + cur_size) in
        match l with
        | KMAP_LIST =>
            if (cur_start <=? kmap_va) && (wrap64 (kmap_va + bytes) <=? cur_end)
            then reserve_from_fva_node l cur prev kmap_va bytes
            else pop_fva_loop fuel l bytes kmap_va (f_next c) cur fit
        | DYNAMIC_LIST =>
            if bytes <=? cur_size then
              if (PAGE_ALIGN <=? cur_size) &&
                 dynamic_fits_page_aligned (page_align_for bytes) bytes cur_start cur_end
              then reserve_from_fva_node l cur prev (align_up cur_start PAGE_ALIGN) bytes
              else pop_fva_loop fuel l bytes kmap_va (f_next c) cur
                     (if fit.1 =? 0 then (cur, prev) else fit)
            else pop_fva_loop fuel l bytes kmap_va (f_next c) cur fit
        end
  end.

Definition pop_fva (l : vmalloc_lists) (pages p : Z) : VM Z :=
  let bytes := wrap64 (pages * PAGE_SIZE) in
  let* cur := gets (fva_head l) in
  let* kmap_va := (match l with
                   | KMAP_LIST => vunsign (kpa_to_kva p)
                   | DYNAMIC_LIST => ret 0
                   end) in
  let* fuel := gets f_fuel in
  pop_fva_loop fuel l bytes kmap_va cur 0 (0, 0).

(** [while (cur && cur->start < va)] *)
Fixpoint fva_seek (fuel : nat) (va cur prev : Z) : VM (Z * Z) :=
  match fuel with
  | O => nofuel
  | S fuel =>
      if cur =? 0 then ret (cur, prev)
      else
        let* c := fva_get cur in
        if f_start c <? va then fva_seek fuel va (f_next c) cur else ret (cur, prev)
  end.

Definition push_fva (l : vmalloc_lists) (va bytes : Z) : VM unit :=
  let* head := gets (fva_head l) in
  let* fuel := gets f_fuel in
  let* r := fva_seek fuel va head 0 in
  let (cur, prev) := r : Z * Z in
  let* join_prev := (if negb (prev =? 0)
                     then let* p := fva_get prev in ret (wrap64 (f_start p + f_size p) =? va)
                     else ret false) in
  let* join_next := (if negb (cur =? 0)
                     then let* c := fva_get cur in ret (wrap64 (va + bytes) =? f_start c)
                     else ret false) in
  if join_prev : bool then
    fva_upd prev (fun p => MkFva (f_next p) (f_start p) (wrap64 (f_size p + bytes))) ;;
    if join_next : bool then
      let* c := fva_get cur in
      fva_upd prev (fun p => MkFva (f_next p) (f_start p) (wrap64 (f_size p + f_size c))) ;;
      fva_upd prev (with_f_next (f_next c)) ;;
      free_fva_node cur
    else ret tt
  else if join_next then
    fva_upd cur (fun c => MkFva (f_next c) va (wrap64 (f_size c + bytes)))
  else
    let* node := get_new_fva_node in
    fva_upd node (fun _ => MkFva cur va bytes) ;;
    set_f_link l prev node.

(** The loop tests the out parameter, which is never null, instead of the
    cursor: it ends only at a node that matches. *)
Fixpoint find_rva_loop (fuel : nat) (start c p : Z) : VM (Z * Z) :=
  match fuel with
  | O => nofuel
  | S fuel =>
      let* n := rva_get c in
      if r_start n =? start then ret (c, p) else find_rva_loop fuel start (r_next n) c
  end.

Definition find_rva (start : Z) : VM (option (Z * Z)) :=
  let* start := (if is_kva_uintptr_t start then vunsign start else ret start) in
  let* l := list_from_va start in
  let* c := gets (rva_head l) in
  if c =? 0 then ret None
  else
    let* fuel := gets r_fuel in
    let* r := find_rva_loop fuel start c 0 in
    ret (Some r).

(** [ASSERT(found)] and the two out parameters *)
Definition find_rva_or_panic (start : Z) : VM (Z * Z) :=
  let* r := find_rva start in
  match r with Some np => ret np | None => panic end.

Definition pop_rva (l : vmalloc_lists) (start : Z) : VM (Z * vmalloc_allocated_area_mdt) :=
  let* np := find_rva_or_panic start in
  let (node, prev) := np : Z * Z in
  let* n := rva_get node in
  ASSERT (negb (vi_permanent (mdt_info (r_mdt n)))) ;;
  set_r_link l prev (r_next n) ;;
  vmalloc_pa_mdt_free node ;;
  free_rva_node node ;;
  ret (r_size n, mdt_info (r_mdt n)).

(** [while (cur && cur->start < start)] *)
Fixpoint rva_seek (fuel : nat) (start cur prev : Z) : VM (Z * Z) :=
  match fuel with
  | O => nofuel
  | S fuel =>
      if cur =? 0 then ret (cur, prev)
      else
        let* c := rva_get cur in
        if r_start c <? start then rva_seek fuel start (r_next c) cur else ret (cur, prev)
  end.

Definition push_rva (l : vmalloc_lists) (pages start tag : Z) (cfg : vmalloc_cfg) : VM Z :=
  let bytes := wrap64 (pages * PAGE_SIZE) in
  let* head := gets (rva_head l) in
  let* fuel := gets r_fuel in
  let* r := rva_seek fuel start head 0 in
  let (cur, prev) := r : Z * Z in
  let* node := get_new_rva_node in
  rva_upd node (fun _ => MkRva cur start bytes
    (MkMdt (MkArea tag (vc_use_kmap cfg) (vc_assign_pa cfg) (vc_device_mem cfg) (vc_permanent cfg)) 0 0)) ;;
  set_r_link l prev node ;;
  ret node.

Fixpoint memregs_loop (mregs : list early_memreg) : VM unit :=
  match mregs with
  | [] => ret tt
  | mb :: mregs =>
      (if mr_free mb then ret tt
       else
         let* va := pop_fva KMAP_LIST (mr_pages mb) (mr_addr mb) in
         let* sva := vsign va in
         ASSERT (ptrs_are_kmapped (pv_ptr_new (mr_addr mb) sva)) ;;
         push_rva KMAP_LIST (mr_pages mb) va
           (if is_kva_uintptr_t (mr_tag mb) then mr_tag mb else kpa_to_kva (mr_tag mb))
           (MkCfg true (mr_addr mb) true (mr_device_memory mb) (mr_permanent mb)) ;;
         ret tt) ;;
      memregs_loop mregs
  end.

(** [while (c && c->next)] *)
Fixpoint last_fva (fuel : nat) (c : Z) : VM Z :=
  match fuel with
  | O => nofuel
  | S fuel =>
      if c =? 0 then ret c
      else
        let* n := fva_get c in
        if f_next n =? 0 then ret c else last_fva fuel (f_next n)
  end.

Definition vmalloc_update_memregs (mregs : list early_memreg) : VM Z :=
  let* k := gets fva_kmap_list in
  let* d := gets fva_dynamic_list in
  ASSERT (negb (k =? 0) && negb (d =? 0)) ;;
  let* kn := fva_get k in
  let* dn := fva_get d in
  ASSERT ((f_next kn =? 0) && (f_next dn =? 0)) ;;
  memregs_loop mregs ;;
  let* k := gets fva_kmap_list in
  let* fuel := gets f_fuel in
  let* c := last_fva fuel k in
  let* n := fva_get c in
  vsign (f_start n).

Definition vmalloc (pages tag : Z) (cfg : vmalloc_cfg) : VM (Z * Z) :=
  let l := if vc_use_kmap cfg then KMAP_LIST else DYNAMIC_LIST in
  (if vc_use_kmap cfg then ASSERT (is_pow2 pages) ;; ASSERT (vc_assign_pa cfg) else ret tt) ;;
  let* start := pop_fva l pages (vc_kmap_pa cfg) in
  let* n := push_rva l pages start tag cfg in
  let* va := vsign start in
  ret (va, n).

Fixpoint fva_sum (fuel : nat) (cur b : Z) : VM Z :=
  match fuel with
  | O => nofuel
  | S fuel =>
      if cur =? 0 then ret b
      else let* c := fva_get cur in fva_sum fuel (f_next c) (wrap64 (b + f_size c))
  end.

Definition vmalloc_get_free_bytes : VM Z :=
  let* fuel := gets f_fuel in
  let* k := gets fva_kmap_list in
  let* b := fva_sum fuel k 0 in
  let* d := gets fva_dynamic_list in
  fva_sum fuel d b.

Fixpoint rva_sum (fuel : nat) (cur b : Z) : VM Z :=
  match fuel with
  | O => nofuel
  | S fuel =>
      if cur =? 0 then ret b
      else let* c := rva_get cur in rva_sum fuel (r_next c) (wrap64 (b + r_size c))
  end.

Definition vmalloc_get_reserved_bytes : VM Z :=
  let* fuel := gets r_fuel in
  let* k := gets rva_kmap_list in
  let* b := rva_sum fuel k 0 in
  let* d := gets rva_dynamic_list in
  rva_sum fuel d b.

Definition vmalloc_update_tag (addr new_tag : Z) : VM Z :=
  ASSERT (negb (addr =? 0)) ;;
  let* va := vunsign addr in
  let* np := find_rva_or_panic va in
  let* n := rva_get np.1 in
  let i := mdt_info (r_mdt n) in
  rva_upd np.1 (fun n => MkRva (r_next n) (r_start n) (r_size n)
    (MkMdt (MkArea new_tag (vi_kmapped i) (vi_pa_assigned i) (vi_device_mem i) (vi_permanent i))
       (pa_list (r_mdt n)) (pa_count (r_mdt n)))) ;;
  ret (vi_tag i).

Fixpoint fva_info (fuel : nat) (a cur : Z) : VM (option vmalloc_va_info) :=
  match fuel with
  | O => nofuel
  | S fuel =>
      if cur =? 0 then ret None
      else
        let* c := fva_get cur in
        if a <? f_start c then ret None
        else if a <? wrap64 (f_start c + f_size c) then
          let* st := vsign (f_start c) in ret (Some (VMALLOC_VA_INFO_FREE st (f_size c)))
        else fva_info fuel a (f_next c)
  end.

Fixpoint rva_info (fuel : nat) (a cur : Z) : VM (option vmalloc_va_info) :=
  match fuel with
  | O => nofuel
  | S fuel =>
      if cur =? 0 then ret None
      else
        let* c := rva_get cur in
        if a <? r_start c then ret None
        else if a <? wrap64 (r_start c + r_size c) then
          let* st := vsign (r_start c) in ret (Some (VMALLOC_VA_INFO_RESERVED st (r_size c) (r_mdt c)))
        else rva_info fuel a (r_next c)
  end.

Definition vmalloc_get_addr_info (addr : Z) : VM vmalloc_va_info :=
  let* a := vunsign addr in
  let* l := list_from_va a in
  let* fh := gets (fva_head l) in
  let* ff := gets f_fuel in
  let* fi := fva_info ff a fh in
  match fi with
  | Some i => ret i
  | None =>
      let* rh := gets (rva_head l) in
      let* rf := gets r_fuel in
      let* ri := rva_info rf a rh in
      match ri with Some i => ret i | None => ret VMALLOC_VA_UNREGISTERED end
  end.

(** A token is the address of the [rva_node]. *)
Definition vmalloc_get_token (allocation_addr : Z) : VM Z :=
  let* np := find_rva_or_panic allocation_addr in ret np.1.

Definition vmalloc_token_vmalloc_get_mdt (t : Z) : VM vmalloc_allocated_area_mdt :=
  let* n := rva_get t in ret (mdt_info (r_mdt n)).

Definition voidptr_vmalloc_get_mdt (allocation_addr : Z) : VM vmalloc_allocated_area_mdt :=
  let* t := vmalloc_get_token allocation_addr in vmalloc_token_vmalloc_get_mdt t.

Definition vmalloc_push_pa (t order pa va : Z) : VM unit := vmalloc_pa_mdt_push t order pa va.

Definition vmalloc_get_pa_count (t : Z) : VM Z :=
  let* n := rva_get t in ret (pa_count (r_mdt n)).

(** [acc] holds [buf[0..i)]. *)
Fixpoint pa_info_loop (fuel : nat) (cur count i : Z) (acc : list vmalloc_pa_info) :
    VM (bool * list vmalloc_pa_info) :=
  match fuel with
  | O => nofuel
  | S fuel =>
      if cur =? 0 then ret (true, acc)
      else if count <=? i then ret (false, acc)
      else
        let* c := mdt_get cur in
        pa_info_loop fuel (m_next c) count (i + 1) (acc ++ [m_info c])
  end.

(** The result and the entries written to [buf] *)
Definition vmalloc_get_pa_info (t buf_size : Z) : VM (bool * list vmalloc_pa_info) :=
  let* n := rva_get t in
  let count := pa_count (r_mdt n) in
  if buf_size <? count then ret (false, [])
  else
    let* fuel := gets m_fuel in
    pa_info_loop fuel (pa_list (r_mdt n)) count 0 [].

Definition vmalloc_token_vfree (t : Z) : VM (Z * vmalloc_allocated_area_mdt) :=
  let* rva := rva_get t in
  let va := r_start rva in
  let* l := list_from_va va in
  let* r := pop_rva l va in
  push_fva l va r.1 ;;
  ret r.

Definition voidptr_vfree (va : Z) : VM (Z * vmalloc_allocated_area_mdt) :=
  let* t := vmalloc_get_token va in vmalloc_token_vfree t.

End Vmalloc.
