(* ===== verification/VmLists.v ===== *)
(** * VmLists: linked lists in memory and lists of address areas

    The two ingredients of the proofs about vmalloc: [seg], singly linked
    nodes in a node memory as a list of (address, contents), and [spaced],
    address-ordered lists of areas with gaps between them, which represent a
    set of addresses in exactly one way. *)

From Stdlib Require Import ZArith Lia.
From stdpp Require Import base tactics numbers gmap list.
From S2P Require Import Prelude.

Open Scope Z_scope.

(** ** Linked lists *)

Section Seg.
Context {N D : Type} (nx : N -> Z) (dat : N -> D).
Implicit Types (m : gmap Z N) (T : list (Z * D)).

(** The nodes [T] from [h] to (excluding) [e]. *)
Fixpoint seg m (h : Z) T (e : Z) : Prop :=
  match T with
  | [] => h = e
  | (p, d) :: T => h = p /\ p <> 0 /\ exists n, m !! p = Some n /\ dat n = d /\ seg m (nx n) T e
  end.

(** The address of the first node and of the last one, 0 if there is none. *)
Definition head_ptr T (e : Z) : Z := match T with [] => e | (p, _) :: _ => p end.
Definition last_ptr T (e : Z) : Z := match last T with Some (p, _) => p | None => e end.

Lemma seg_head m h T e : seg m h T e -> h = head_ptr T e.
Proof. destruct T as [|[p d] T]; cbn; naive_solver. Qed.

Lemma last_ptr_snoc T p d e : last_ptr (T ++ [(p, d)]) e = p.
Proof. unfold last_ptr. by rewrite last_snoc. Qed.

Lemma seg_app m h T1 T2 e : seg m h (T1 ++ T2) e <-> exists c, seg m h T1 c /\ seg m c T2 e.
Proof.
  revert h. induction T1 as [|[p d] T1 IH]; intros h; cbn [app seg].
  - naive_solver.
  - setoid_rewrite IH. naive_solver.
Qed.

Lemma seg_frame m m' h T e :
  (forall p, p ∈ T.*1 -> m' !! p = m !! p) -> seg m h T e -> seg m' h T e.
Proof.
  revert h. induction T as [|[p d] T IH]; intros h Hf; cbn [seg]; [done|].
  intros (-> & Hp & n & Hn & Hd & Hs). split; [done|]. split; [done|]. exists n.
  rewrite Hf by (cbn; set_solver). split; [done|]. split; [done|].
  apply IH; [|done]. intros; apply Hf. cbn. set_solver.
Qed.

Lemma seg_write m h T e p n :
  p ∉ T.*1 -> seg m h T e -> seg (<[p := n]> m) h T e.
Proof. intros Hp. apply seg_frame. intros q Hq. apply lookup_insert_ne. by intros ->. Qed.

(** Redirecting the end of a list: the last node gets a new successor. *)
Lemma seg_relink m h T p d e n x :
  NoDup (T ++ [(p, d)]).*1 -> seg m h (T ++ [(p, d)]) e -> m !! p = Some n ->
  forall n', nx n' = x -> dat n' = dat n -> seg (<[p := n']> m) h (T ++ [(p, d)]) x.
Proof.
  intros Hnd (c & H1 & -> & Hp & n0 & Hn0 & Hd & <-)%seg_app Hn n' Hx Hd'. simplify_eq.
  rewrite fmap_app in Hnd. apply NoDup_app in Hnd as (_ & Hnd & _). cbn in Hnd.
  apply seg_app. exists p. split.
  - apply seg_write; [|done]. intros Hin. apply (Hnd _ Hin). set_solver.
  - split; [done|]. split; [done|]. exists n'. rewrite lookup_insert_eq. naive_solver.
Qed.

Lemma seg_not_null m h T e : seg m h T e -> 0 ∉ T.*1.
Proof.
  revert h. induction T as [|[p d] T IH]; intros h; cbn; [set_solver|].
  intros (_ & Hp & n & _ & _ & Hs). apply IH in Hs. set_solver.
Qed.

(** A middle node. *)
Lemma seg_middle m h T1 p d T2 e :
  seg m h (T1 ++ (p, d) :: T2) e ->
  exists n, m !! p = Some n /\ dat n = d /\ p <> 0 /\ seg m h T1 p /\ seg m (nx n) T2 e.
Proof. intros (c & H1 & -> & Hp & n & Hn & Hd & H2)%seg_app. by exists n. Qed.

(** A new node [q] behind the node [p]. *)
Lemma seg_insert m h T1 p d T2 e n q nq n' :
  NoDup (T1 ++ (p, d) :: T2).*1 -> q ∉ (T1 ++ (p, d) :: T2).*1 -> q <> 0 ->
  seg m h (T1 ++ (p, d) :: T2) e -> m !! p = Some n ->
  nx nq = head_ptr T2 e -> nx n' = q -> dat n' = dat n ->
  seg (<[p := n']> (<[q := nq]> m)) h (T1 ++ (p, d) :: (q, dat nq) :: T2) e.
Proof.
  intros Hnd Hq Hq0 Hs Hn Hnq Hn' Hd'. rewrite fmap_app in Hnd, Hq. cbn [fmap list_fmap fst] in Hnd, Hq.
  pose proof Hnd as (_ & Hd1 & [Hd2 _]%NoDup_cons)%NoDup_app.
  apply seg_middle in Hs as (n0 & Hn0 & Hd & Hp & H1 & H2). rewrite Hn in Hn0. injection Hn0 as <-.
  assert (forall r, r ∈ T1.*1 ++ T2.*1 -> <[p := n']> (<[q := nq]> m) !! r = m !! r) as Hk.
  { intros r Hr. rewrite !lookup_insert_ne; [done| |].
    - intros ->. set_solver.
    - intros ->. apply elem_of_app in Hr as [Hr|Hr]; [|done]. apply (Hd1 r Hr). set_solver. }
  apply seg_app. exists p. split; [eapply seg_frame; [|exact H1]; intros; apply Hk; set_solver|].
  split; [done|]. split; [done|]. exists n'. rewrite lookup_insert_eq. split; [done|]. split; [congruence|].
  split; [done|]. split; [done|]. exists nq. rewrite lookup_insert_ne, lookup_insert_eq by set_solver.
  split; [done|]. split; [done|]. rewrite Hnq. rewrite <- (seg_head _ _ _ _ H2).
  eapply seg_frame; [|exact H2]. intros; apply Hk; set_solver.
Qed.

(** The node [p] gets new contents and the new nodes [Q] behind it. *)
Lemma seg_splice m m' h T1 p d Q T2 e n' :
  seg m h (T1 ++ (p, d) :: T2) e -> (forall r, r ∈ T1.*1 ++ T2.*1 -> m' !! r = m !! r) ->
  m' !! p = Some n' -> seg m' (nx n') Q (head_ptr T2 e) ->
  seg m' h (T1 ++ (p, dat n') :: Q ++ T2) e.
Proof.
  intros Hs Hk Hn' HQ. apply seg_middle in Hs as (n & Hn & _ & Hp & H1 & H2).
  rewrite (seg_head _ _ _ _ H2) in H2. apply seg_app. exists p. split.
  - eapply seg_frame; [|exact H1]. intros r Hr. apply Hk. set_solver.
  - split; [done|]. split; [done|]. exists n'. split; [done|]. split; [done|]. apply seg_app. exists (head_ptr T2 e).
    split; [done|]. eapply seg_frame; [|exact H2]. intros r Hr. apply Hk. set_solver.
Qed.

Lemma seg_length m h T e : NoDup T.*1 -> seg m h T e -> (length T <= size m)%nat.
Proof.
  intros Hnd Hs. rewrite <- (length_fmap fst T), <- size_dom.
  rewrite <- (size_list_to_set (C := gset Z) T.*1) by done. apply subseteq_size. intros p Hp.
  apply elem_of_list_to_set in Hp. apply list_elem_of_fmap in Hp as ([q d] & -> & Hq).
  apply list_elem_of_split in Hq as (T1 & T2 & ->). apply seg_middle in Hs as (n & Hn & _).
  cbn. by apply elem_of_dom_2 in Hn.
Qed.

Lemma seg_no_cycle m T : seg m 0 T 0 -> T = [].
Proof. by destruct T as [|[p d] T]; [|intros (<- & ? & _)]. Qed.

End Seg.

(** Move to the next node of a walk proved by induction on the rest. *)
Ltac next_node IH seen p d rest :=
  change (seen ++ (p, d) :: rest) with (seen ++ [(p, d)] ++ rest) in *; rewrite app_assoc in *;
  specialize (IH (seen ++ [(p, d)])); rewrite last_ptr_snoc in IH.

(** Sums below [2^64] do not wrap. *)
Ltac no_wrap := repeat rewrite (wrap_small 64) by (unfold u_range; lia).

(** ** Areas *)

(** start and size *)
Abbreviation area := (Z * Z)%type.

Definition in_area (x : Z) (a : area) : Prop := a.1 <= x < a.1 + a.2.
Definition covers (l : list area) (x : Z) : Prop := exists a, a ∈ l /\ in_area x a.

(** Non-empty areas above [lo], in order and with a gap between any two. *)
Fixpoint spaced (lo : Z) (l : list area) : Prop :=
  match l with
  | [] => True
  | a :: l => lo < a.1 /\ 0 < a.2 /\ spaced (a.1 + a.2) l
  end.

(** The end of the last area. *)
Definition end_of (lo : Z) (l : list area) : Z :=
  match last l with Some a => a.1 + a.2 | None => lo end.

Lemma end_of_cons lo a l : end_of lo (a :: l) = end_of (a.1 + a.2) l.
Proof.
  unfold end_of. destruct l as [|b l]; [done|]. rewrite last_cons_cons.
  destruct (last (b :: l)) eqn:E; [done|]. by apply last_None in E.
Qed.

Lemma spaced_app lo l1 l2 : spaced lo (l1 ++ l2) <-> spaced lo l1 /\ spaced (end_of lo l1) l2.
Proof.
  revert lo. induction l1 as [|a l1 IH]; intros lo; cbn [app spaced].
  - unfold end_of. cbn. naive_solver.
  - rewrite IH, end_of_cons. naive_solver.
Qed.

Lemma spaced_lower lo lo' l : lo' <= lo -> spaced lo l -> spaced lo' l.
Proof. destruct l; cbn; [done|]. intros ? (? & ?). split; [lia|done]. Qed.

Lemma spaced_bound lo l x : spaced lo l -> covers l x -> lo < x.
Proof.
  revert lo. induction l as [|a l IH]; intros lo Hl (b & Hb & Hx); [set_solver|].
  destruct Hl as (H1 & H2 & H3). apply elem_of_cons in Hb as [->|Hb]; [unfold in_area in Hx; lia|].
  assert (a.1 + a.2 < x) by (apply IH; [done|by exists b]). lia.
Qed.

Lemma spaced_end lo l x : spaced lo l -> covers l x -> x < end_of lo l.
Proof.
  revert lo x. induction l as [|a l IH]; intros lo x Hl (b & Hb & Hx); [set_solver|].
  destruct Hl as (H1 & H2 & H3). rewrite end_of_cons. apply elem_of_cons in Hb as [->|Hb].
  - destruct l as [|c l]; [unfold end_of; cbn; unfold in_area in Hx; lia|].
    assert (c.1 < end_of (a.1 + a.2) (c :: l)); [|unfold in_area in Hx; cbn in H3; lia].
    apply IH; [done|]. exists c. split; [set_solver|]. unfold in_area. cbn in H3. lia.
  - apply IH; [done|]. by exists b.
Qed.

Lemma covers_cons a l x : covers (a :: l) x <-> in_area x a \/ covers l x.
Proof.
  unfold covers. split.
  - intros (b & [->|Hb]%elem_of_cons & Hx); [by left|right; eauto].
  - intros [?|(b & ? & ?)]; [exists a|exists b]; set_solver.
Qed.

Lemma covers_nil x : covers [] x <-> False.
Proof. unfold covers. set_solver. Qed.

Lemma covers_app l1 l2 x : covers (l1 ++ l2) x <-> covers l1 x \/ covers l2 x.
Proof. unfold covers. set_solver. Qed.

#[export] Hint Rewrite covers_cons covers_nil covers_app : areas.

(** Two spaced lists that cover the same addresses are equal. *)
Lemma spaced_canonical lo l1 l2 :
  spaced lo l1 -> spaced lo l2 -> (forall x, covers l1 x <-> covers l2 x) -> l1 = l2.
Proof.
  revert lo l2. induction l1 as [|a l1 IH]; intros lo [|b l2] H1 H2 Hc; [done| | |].
  - exfalso. specialize (Hc b.1). rewrite covers_cons, covers_nil in Hc. cbn in H2.
    apply Hc. left. unfold in_area. lia.
  - exfalso. specialize (Hc a.1). rewrite covers_cons, covers_nil in Hc. cbn in H1.
    apply Hc. left. unfold in_area. lia.
  - destruct H1 as (Ha & Ha' & H1), H2 as (Hb & Hb' & H2).
    assert (forall x, covers l1 x -> a.1 + a.2 < x) as B1 by (intros; by apply (spaced_bound _ l1)).
    assert (forall x, covers l2 x -> b.1 + b.2 < x) as B2 by (intros; by apply (spaced_bound _ l2)).
    assert (forall x, in_area x a \/ covers l1 x <-> in_area x b \/ covers l2 x) as Hc'.
    { intros x. by rewrite <- !covers_cons. }
    assert (a.1 = b.1) as E1.
    { assert (b.1 <= a.1); [|assert (a.1 <= b.1); [|lia]].
      - destruct (proj1 (Hc' a.1)) as [Hin|?%B2]; [left|unfold in_area in Hin|]; unfold in_area; lia.
      - destruct (proj2 (Hc' b.1)) as [Hin|?%B1]; [left|unfold in_area in Hin|]; unfold in_area; lia. }
    assert (a.2 = b.2) as E2.
    { unfold in_area in Hc'. rewrite E1 in *.
      destruct (Z.lt_total a.2 b.2) as [Hlt|[?|Hlt]]; [|done|].
      - destruct (proj2 (Hc' (b.1 + a.2))) as [?|?%B1]; [lia..].
      - destruct (proj1 (Hc' (b.1 + b.2))) as [?|?%B2]; [lia..]. }
    assert (a = b) as -> by (destruct a, b; cbn in *; congruence).
    f_equal. eapply IH; [done..|]. intros x. split; intros Hx.
    + destruct (proj1 (Hc' x)) as [Hin|?]; [by right| |done]. apply B1 in Hx. unfold in_area in Hin. lia.
    + destruct (proj2 (Hc' x)) as [Hin|?]; [by right| |done]. apply B2 in Hx. unfold in_area in Hin. lia.
Qed.

(** *** Taking a range out of an area *)

Definition carve_area (a : area) (va bytes : Z) : list area :=
  (if va =? a.1 then [] else [(a.1, va - a.1)]) ++
  (if va + bytes =? a.1 + a.2 then [] else [(va + bytes, a.1 + a.2 - (va + bytes))]).

Definition in_range (va bytes x : Z) : Prop := va <= x < va + bytes.

Lemma spaced_around lo l1 a l2 x :
  spaced lo (l1 ++ a :: l2) -> covers l1 x \/ covers l2 x -> x < a.1 \/ a.1 + a.2 < x.
Proof.
  intros (H1 & H2 & H3 & H4)%spaced_app [Hx|Hx].
  - left. apply (spaced_end lo) in Hx; [lia|done].
  - right. by apply (spaced_bound _ l2).
Qed.

Lemma carve_spaced lo l1 a l2 va bytes :
  spaced lo (l1 ++ a :: l2) -> a.1 <= va -> 0 < bytes -> va + bytes <= a.1 + a.2 ->
  spaced lo (l1 ++ carve_area a va bytes ++ l2).
Proof.
  intros (H1 & H2 & H3 & H4)%spaced_app Hva Hb He. apply spaced_app. split; [done|].
  unfold carve_area. destruct (Z.eqb_spec va a.1), (Z.eqb_spec (va + bytes) (a.1 + a.2)); cbn.
  - apply (spaced_lower (a.1 + a.2)); [lia|done].
  - split_and!; try lia. by replace (va + bytes + (a.1 + a.2 - (va + bytes))) with (a.1 + a.2) by lia.
  - split_and!; try lia. apply (spaced_lower (a.1 + a.2)); [lia|done].
  - split_and!; try lia. by replace (va + bytes + (a.1 + a.2 - (va + bytes))) with (a.1 + a.2) by lia.
Qed.

Lemma carve_covers lo l1 a l2 va bytes x :
  spaced lo (l1 ++ a :: l2) -> a.1 <= va -> 0 < bytes -> va + bytes <= a.1 + a.2 ->
  covers (l1 ++ carve_area a va bytes ++ l2) x <->
  covers (l1 ++ a :: l2) x /\ ~ in_range va bytes x.
Proof.
  intros Hs Hva Hb He. pose proof (spaced_around _ _ _ _ x Hs) as Hx. unfold carve_area, in_range.
  destruct (Z.eqb_spec va a.1), (Z.eqb_spec (va + bytes) (a.1 + a.2)); cbn [app];
    autorewrite with areas; unfold in_area; cbn [fst snd];
    destruct (Z.lt_ge_cases x va), (Z.lt_ge_cases x (va + bytes)); intuition lia.
Qed.

(** *** Giving a range back *)

(** [l'] is [l1 ++ (va, bytes) :: l2] with the new area joined to the
    neighbours it touches. *)
Inductive joined (va bytes : Z) : list area -> list area -> list area -> Prop :=
  | JBoth l1 p c l2 : p.1 + p.2 = va -> va + bytes = c.1 ->
      joined va bytes (l1 ++ [p]) (c :: l2) (l1 ++ (p.1, p.2 + bytes + c.2) :: l2)
  | JPrev l1 p l2 : p.1 + p.2 = va -> (forall c, head l2 = Some c -> va + bytes <> c.1) ->
      joined va bytes (l1 ++ [p]) l2 (l1 ++ (p.1, p.2 + bytes) :: l2)
  | JNext l1 c l2 : (forall p, last l1 = Some p -> p.1 + p.2 <> va) -> va + bytes = c.1 ->
      joined va bytes l1 (c :: l2) (l1 ++ (va, c.2 + bytes) :: l2)
  | JNone l1 l2 : (forall p, last l1 = Some p -> p.1 + p.2 <> va) ->
      (forall c, head l2 = Some c -> va + bytes <> c.1) ->
      joined va bytes l1 l2 (l1 ++ (va, bytes) :: l2).

Lemma joined_covers va bytes l1 l2 l' x :
  0 < bytes -> (forall a, a ∈ l1 ++ l2 -> 0 < a.2) ->
  joined va bytes l1 l2 l' -> covers l' x <-> covers (l1 ++ l2) x \/ in_range va bytes x.
Proof.
  intros Hb Hpos HJ. destruct HJ; rewrite <- ?app_assoc; cbn [app]; autorewrite with areas; unfold in_area, in_range; cbn [fst snd].
  - assert (0 < p.2) by (apply Hpos; set_solver). assert (0 < c.2) by (apply Hpos; set_solver).
    intuition lia.
  - assert (0 < p.2) by (apply Hpos; set_solver). intuition lia.
  - assert (0 < c.2) by (apply Hpos; set_solver). intuition lia.
  - intuition lia.
Qed.

Lemma spaced_pos lo l a : spaced lo l -> a ∈ l -> 0 < a.2.
Proof.
  revert lo. induction l as [|b l IH]; intros lo Hl; [set_solver|].
  destruct Hl as (? & ? & ?). intros [->|?]%elem_of_cons; [done|]. by eapply IH.
Qed.

Lemma end_of_snoc lo l a : end_of lo (l ++ [a]) = a.1 + a.2.
Proof. unfold end_of. by rewrite last_snoc. Qed.

Lemma joined_spaced lo va bytes l1 l2 l' :
  spaced lo (l1 ++ l2) -> lo < va -> 0 < bytes -> end_of lo l1 <= va ->
  (forall c, head l2 = Some c -> va + bytes <= c.1) ->
  joined va bytes l1 l2 l' -> spaced lo l'.
Proof.
  intros Hs Hlo Hb He Hc HJ.
  destruct HJ as [l1 p c l2 Hp Hc'|l1 p l2 Hp Hc'|l1 c l2 Hp Hc'|l1 l2 Hp Hc'].
  - rewrite <- app_assoc in Hs. apply spaced_app in Hs as (H1 & H2 & H3 & _ & H4 & H5).
    apply spaced_app. split; [done|]. cbn. split_and!; [lia..|].
    by replace (p.1 + (p.2 + bytes + c.2)) with (c.1 + c.2) by lia.
  - rewrite <- app_assoc in Hs. apply spaced_app in Hs as (H1 & H2 & H3 & H4).
    apply spaced_app. split; [done|]. cbn. split_and!; [lia..|].
    destruct l2 as [|c l2]; [done|]. cbn in *. destruct H4 as (H5 & H6).
    specialize (Hc c eq_refl). specialize (Hc' c eq_refl). split; [lia|done].
  - apply spaced_app in Hs as (H1 & H2 & H3 & H4). apply spaced_app. split; [done|].
    assert (end_of lo l1 <> va) by (unfold end_of in *; destruct (last l1) as [p|]; [by apply Hp|lia]).
    cbn. split_and!; [lia..|]. by replace (va + (c.2 + bytes)) with (c.1 + c.2) by lia.
  - apply spaced_app in Hs as (H1 & H2). apply spaced_app. split; [done|].
    assert (end_of lo l1 <> va) by (unfold end_of in *; destruct (last l1) as [p|]; [by apply Hp|lia]).
    cbn. split_and!; [lia..|]. destruct l2 as [|c l2]; [done|]. cbn in *.
    specialize (Hc c eq_refl). specialize (Hc' c eq_refl). split; [lia|naive_solver].
Qed.

(** An address right behind an area is not covered. *)
Lemma spaced_gap lo l a : spaced lo l -> a ∈ l -> ~ covers l (a.1 + a.2).
Proof.
  intros Hs Ha Hc. apply list_elem_of_split in Ha as (l1 & l2 & ->).
  pose proof (spaced_around _ _ _ _ (a.1 + a.2) Hs) as Hx.
  autorewrite with areas in Hc. unfold in_area in Hc.
  assert (0 < a.2) by (eapply spaced_pos; [exact Hs|set_solver]). intuition lia.
Qed.

(** A covered range lies in one area. *)
Lemma covers_range lo l va bytes :
  spaced lo l -> 0 < bytes -> (forall x, in_range va bytes x -> covers l x) ->
  exists a, a ∈ l /\ a.1 <= va /\ va + bytes <= a.1 + a.2.
Proof.
  intros Hs Hb Hc. destruct (Hc va) as (a & Ha & Hin); [unfold in_range; lia|].
  exists a. split; [done|]. unfold in_area in Hin. split; [lia|].
  destruct (Z.le_gt_cases (va + bytes) (a.1 + a.2)) as [|Hgt]; [done|]. exfalso.
  apply (spaced_gap _ _ _ Hs Ha), Hc. unfold in_range. lia.
Qed.

Lemma covers_elem (l : list area) a x : a ∈ l -> in_area x a -> covers l x.
Proof. intros. by exists a. Qed.

(** *** Areas that may touch *)

Fixpoint ordered (lo : Z) (l : list area) : Prop :=
  match l with
  | [] => True
  | a :: l => lo <= a.1 /\ 0 < a.2 /\ ordered (a.1 + a.2) l
  end.

Lemma ordered_app lo l1 l2 : ordered lo (l1 ++ l2) <-> ordered lo l1 /\ ordered (end_of lo l1) l2.
Proof.
  revert lo. induction l1 as [|a l1 IH]; intros lo; cbn [app ordered].
  - unfold end_of. cbn. naive_solver.
  - rewrite IH, end_of_cons. naive_solver.
Qed.

Lemma ordered_lower lo lo' l : lo' <= lo -> ordered lo l -> ordered lo' l.
Proof. destruct l; cbn; [done|]. intros ? (? & ?). split; [lia|done]. Qed.

Lemma ordered_pos lo l a : ordered lo l -> a ∈ l -> lo <= a.1 /\ 0 < a.2.
Proof.
  revert lo. induction l as [|b l IH]; intros lo Hl; [set_solver|].
  destruct Hl as (H1 & H2 & H3). intros [->|Ha]%elem_of_cons; [done|]. apply IH in H3 as [? ?]; [lia|done].
Qed.

Lemma ordered_end lo l a : ordered lo l -> a ∈ l -> a.1 + a.2 <= end_of lo l.
Proof.
  revert lo a. induction l as [|b l IH]; intros lo a Hl; [set_solver|].
  destruct Hl as (H1 & H2 & H3). rewrite end_of_cons. intros [->|Ha]%elem_of_cons; [|by apply IH].
  destruct l as [|c l]; [unfold end_of; cbn; lia|].
  assert (c.1 + c.2 <= end_of (b.1 + b.2) (c :: l)) by (apply IH; [done|set_solver]). cbn in H3. lia.
Qed.

Lemma end_of_ge lo l : ordered lo l -> lo <= end_of lo l.
Proof.
  destruct l as [|a l]; [unfold end_of; cbn; lia|]. intros Hl.
  assert (a ∈ a :: l) as Ha by set_solver. pose proof (ordered_end _ _ a Hl Ha).
  destruct (ordered_pos _ _ a Hl Ha). lia.
Qed.

(** A new area between those that start below it and those above. *)
Lemma ordered_insert lo l1 l2 a :
  ordered lo (l1 ++ l2) -> lo <= a.1 -> 0 < a.2 -> (forall x, in_area x a -> ~ covers (l1 ++ l2) x) ->
  (forall b, b ∈ l1 -> b.1 < a.1) -> (forall b, head l2 = Some b -> a.1 <= b.1) ->
  ordered lo (l1 ++ a :: l2).
Proof.
  intros (H1 & H2)%ordered_app Hlo Ha Hno Hb1 Hb2. apply ordered_app. split; [done|].
  split; [|split; [done|]].
  - unfold end_of. destruct (last l1) as [b|] eqn:E; [|lia].
    assert (b ∈ l1) as Hb by by apply last_Some_elem_of. specialize (Hb1 b Hb).
    destruct (Z.le_gt_cases (b.1 + b.2) a.1) as [|Hgt]; [done|]. exfalso.
    apply (Hno a.1); [unfold in_area; lia|]. apply (covers_elem _ b); [set_solver|unfold in_area; lia].
  - destruct l2 as [|b l2]; [done|]. destruct H2 as (H3 & H4 & H5). specialize (Hb2 b eq_refl).
    split; [|done]. destruct (Z.le_gt_cases (a.1 + a.2) b.1) as [|Hgt]; [done|]. exfalso.
    apply (Hno b.1); [unfold in_area; lia|]. apply (covers_elem _ b); [set_solver|unfold in_area; lia].
Qed.

Lemma ordered_remove lo l1 a l2 : ordered lo (l1 ++ a :: l2) -> ordered lo (l1 ++ l2).
Proof.
  intros (H1 & H2 & H3 & H4)%ordered_app. apply ordered_app. split; [done|].
  apply (ordered_lower (a.1 + a.2)); [lia|done].
Qed.

(** Disjoint starts: an area is known by its start. *)
Lemma ordered_around lo l1 a l2 b :
  ordered lo (l1 ++ a :: l2) -> b ∈ l1 ++ l2 -> b.1 + b.2 <= a.1 \/ a.1 + a.2 <= b.1.
Proof.
  intros (H1 & H2 & H3 & H4)%ordered_app [Hb|Hb]%elem_of_app.
  - left. pose proof (ordered_end _ _ _ H1 Hb). lia.
  - right. by destruct (ordered_pos _ _ _ H4 Hb).
Qed.
