(* ===== verification/VmallocSpec.v ===== *)
(** * VmallocSpec: the free areas of vmalloc

    The node memory of the three pools with the page source as one invariant
    ([vm_mem]), and the operations on the lists of free areas as edits of a
    list of areas: [pop_fva] takes a range out of the free addresses,
    [push_fva] puts one back, both keep the lists ordered, disjoint and
    coalesced. *)

From Stdlib Require Import ZArith Lia.
From stdpp Require Import base tactics numbers gmap list.
From S2P Require Import Prelude KMath VmContainers VmContainersSpec Vmalloc VmLists.

Open Scope Z_scope.

Definition fdat (n : fva_node) : area := (f_start n, f_size n).

Definition other (l : vmalloc_lists) : vmalloc_lists :=
  match l with KMAP_LIST => DYNAMIC_LIST | DYNAMIC_LIST => KMAP_LIST end.

Definition pool_write {N} (p : pool (N := N)) (q : Z) (v : N) : pool :=
  MkPool (first p) (containers p) (<[q := v]> (pnodes p)).

Section Mem.
Context {A : Type} (Inv : A -> gset Z -> nat -> Prop).
Implicit Types (s : vm_state (A := A)) (Rf Rr Rm : gset Z).

(** ** Memory *)

(** The reserved nodes of the three pools, whose containers are distinct
    pages of the source, and at least [n] further pages in reserve. *)
Record vm_mem s Rf Rr Rm (n : nat) : Prop := {
  vm_f : pool_inv fva_layout (fpool s) Rf;
  vm_r : pool_inv rva_layout (rpool s) Rr;
  vm_m : pool_inv mdt_layout (mpool s) Rm;
  vm_fr : dom (containers (fpool s)) ## dom (containers (rpool s));
  vm_fm : dom (containers (fpool s)) ## dom (containers (mpool s));
  vm_rm : dom (containers (rpool s)) ## dom (containers (mpool s));
  vm_src : Inv (pages s) (dom (containers (fpool s)) ∪ dom (containers (rpool s)) ∪
                          dom (containers (mpool s))) n
}.

Lemma vm_pool_f s Rf Rr Rm n :
  vm_mem s Rf Rr Rm n <->
  pool_ok fva_layout Inv (dom (containers (rpool s)) ∪ dom (containers (mpool s))) (fpool s, pages s) Rf n /\
  pool_inv rva_layout (rpool s) Rr /\ pool_inv mdt_layout (mpool s) Rm /\
  dom (containers (rpool s)) ## dom (containers (mpool s)).
Proof.
  unfold pool_ok. cbn. rewrite (assoc_L (∪)). split.
  - intros []. split_and!; (done || set_solver).
  - intros ((? & ? & ?) & ? & ? & ?). split; (done || set_solver).
Qed.

Lemma vm_pool_r s Rf Rr Rm n :
  vm_mem s Rf Rr Rm n <->
  pool_ok rva_layout Inv (dom (containers (fpool s)) ∪ dom (containers (mpool s))) (rpool s, pages s) Rr n /\
  pool_inv fva_layout (fpool s) Rf /\ pool_inv mdt_layout (mpool s) Rm /\
  dom (containers (fpool s)) ## dom (containers (mpool s)).
Proof.
  unfold pool_ok. cbn. rewrite (assoc_L (∪)), (comm_L (∪) (dom (containers (rpool s)))). split.
  - intros []. split_and!; (done || set_solver).
  - intros ((? & ? & ?) & ? & ? & ?). split; (done || set_solver).
Qed.

Lemma vm_pool_m s Rf Rr Rm n :
  vm_mem s Rf Rr Rm n <->
  pool_ok mdt_layout Inv (dom (containers (fpool s)) ∪ dom (containers (rpool s))) (mpool s, pages s) Rm n /\
  pool_inv fva_layout (fpool s) Rf /\ pool_inv rva_layout (rpool s) Rr /\
  dom (containers (fpool s)) ## dom (containers (rpool s)).
Proof.
  unfold pool_ok. cbn. rewrite (comm_L (∪) (dom (containers (mpool s)))). split.
  - intros []. split_and!; (done || set_solver).
  - intros ((? & ? & ?) & ? & ? & ?). split; (done || set_solver).
Qed.

Lemma wp_with_fpool {X} (m : M (pool * A) X) (Q : X -> vm_state -> Prop) s :
  wp m (fun x ps => Q x (set_fpool ps.1 ps.2 s)) (fpool s, pages s) -> wp (with_fpool m) Q s.
Proof. unfold wp, with_fpool. by destruct (m _) as [[x [p a]]|e]. Qed.
Lemma wp_with_rpool {X} (m : M (pool * A) X) (Q : X -> vm_state -> Prop) s :
  wp m (fun x ps => Q x (set_rpool ps.1 ps.2 s)) (rpool s, pages s) -> wp (with_rpool m) Q s.
Proof. unfold wp, with_rpool. by destruct (m _) as [[x [p a]]|e]. Qed.
Lemma wp_with_mpool {X} (m : M (pool * A) X) (Q : X -> vm_state -> Prop) s :
  wp m (fun x ps => Q x (set_mpool ps.1 ps.2 s)) (mpool s, pages s) -> wp (with_mpool m) Q s.
Proof. unfold wp, with_mpool. by destruct (m _) as [[x [p a]]|e]. Qed.

Lemma wp_get_n {N} (ps : pool (N := N) * A) p v (Q : N -> pool * A -> Prop) :
  pnodes ps.1 !! p = Some v -> Q v ps -> wp (get_n p) Q ps.
Proof. intros Hp HQ. unfold get_n. apply wp_bind, wp_gets. by eapply wp_deref. Qed.

Lemma wp_upd_n {N} (ps : pool (N := N) * A) p v (f : N -> N) (Q : unit -> pool * A -> Prop) :
  pnodes ps.1 !! p = Some v -> Q tt (pool_write ps.1 p (f v), ps.2) ->
  wp (let* n := get_n p in put_n p (f n)) Q ps.
Proof.
  intros Hp HQ. apply wp_bind. eapply wp_get_n; [done|]. unfold put_n. apply wp_bind.
  eapply wp_get_n; [done|]. by apply wp_modify.
Qed.

(** Reads and writes of nodes *)
Lemma fva_get_wp s p v (Q : fva_node -> vm_state -> Prop) :
  pnodes (fpool s) !! p = Some v -> Q v s -> wp (fva_get p) Q s.
Proof. intros Hp HQ. apply wp_with_fpool. eapply wp_get_n; [done|]. by destruct s. Qed.
Lemma rva_get_wp s p v (Q : rva_node -> vm_state -> Prop) :
  pnodes (rpool s) !! p = Some v -> Q v s -> wp (rva_get p) Q s.
Proof. intros Hp HQ. apply wp_with_rpool. eapply wp_get_n; [done|]. by destruct s. Qed.
Lemma mdt_get_wp s p v (Q : vmalloc_pa_mdt -> vm_state -> Prop) :
  pnodes (mpool s) !! p = Some v -> Q v s -> wp (mdt_get p) Q s.
Proof. intros Hp HQ. apply wp_with_mpool. eapply wp_get_n; [done|]. by destruct s. Qed.

Definition f_write s p v := set_fpool (pool_write (fpool s) p v) (pages s) s.
Definition r_write s p v := set_rpool (pool_write (rpool s) p v) (pages s) s.
Definition m_write s p v := set_mpool (pool_write (mpool s) p v) (pages s) s.

Lemma fva_upd_wp s p v f (Q : unit -> vm_state -> Prop) :
  pnodes (fpool s) !! p = Some v -> Q tt (f_write s p (f v)) -> wp (fva_upd p f) Q s.
Proof. intros Hp HQ. apply wp_with_fpool. by eapply wp_upd_n. Qed.
Lemma rva_upd_wp s p v f (Q : unit -> vm_state -> Prop) :
  pnodes (rpool s) !! p = Some v -> Q tt (r_write s p (f v)) -> wp (rva_upd p f) Q s.
Proof. intros Hp HQ. apply wp_with_rpool. by eapply wp_upd_n. Qed.
Lemma mdt_upd_wp s p v f (Q : unit -> vm_state -> Prop) :
  pnodes (mpool s) !! p = Some v -> Q tt (m_write s p (f v)) -> wp (mdt_upd p f) Q s.
Proof. intros Hp HQ. apply wp_with_mpool. by eapply wp_upd_n. Qed.

Lemma vm_f_write s Rf Rr Rm n p v : vm_mem s Rf Rr Rm n -> p ∈ Rf -> vm_mem (f_write s p v) Rf Rr Rm n.
Proof.
  intros Hm Hp. apply vm_pool_f in Hm as (H1 & H2). apply vm_pool_f. split; [|done].
  by apply (pool_ok_write fva_layout fva_layout_ok Inv _ (fpool s, pages s) _ _ p v).
Qed.
Lemma vm_r_write s Rf Rr Rm n p v : vm_mem s Rf Rr Rm n -> p ∈ Rr -> vm_mem (r_write s p v) Rf Rr Rm n.
Proof.
  intros Hm Hp. apply vm_pool_r in Hm as (H1 & H2). apply vm_pool_r. split; [|done].
  by apply (pool_ok_write rva_layout rva_layout_ok Inv _ (rpool s, pages s) _ _ p v).
Qed.
Lemma vm_m_write s Rf Rr Rm n p v : vm_mem s Rf Rr Rm n -> p ∈ Rm -> vm_mem (m_write s p v) Rf Rr Rm n.
Proof.
  intros Hm Hp. apply vm_pool_m in Hm as (H1 & H2). apply vm_pool_m. split; [|done].
  by apply (pool_ok_write mdt_layout mdt_layout_ok Inv _ (mpool s, pages s) _ _ p v).
Qed.

(** Reserved nodes have contents. *)
Lemma vm_f_read s Rf Rr Rm n p : vm_mem s Rf Rr Rm n -> p ∈ Rf -> exists v, pnodes (fpool s) !! p = Some v.
Proof. intros Hm Hp. apply vm_pool_f in Hm as (H1 & _). by eapply (get_n_spec fva_layout fva_layout_ok) in H1. Qed.
Lemma vm_r_read s Rf Rr Rm n p : vm_mem s Rf Rr Rm n -> p ∈ Rr -> exists v, pnodes (rpool s) !! p = Some v.
Proof. intros Hm Hp. apply vm_pool_r in Hm as (H1 & _). by eapply (get_n_spec rva_layout rva_layout_ok) in H1. Qed.
Lemma vm_m_read s Rf Rr Rm n p : vm_mem s Rf Rr Rm n -> p ∈ Rm -> exists v, pnodes (mpool s) !! p = Some v.
Proof. intros Hm Hp. apply vm_pool_m in Hm as (H1 & _). by eapply (get_n_spec mdt_layout mdt_layout_ok) in H1. Qed.

End Mem.

Section Spec.
Context {A : Type} (reserve_malloc : A -> res (Z * A)) (raw_kfree : Z -> A -> res A).
Context (Inv : A -> gset Z -> nat -> Prop) `{PS : !PageSource reserve_malloc raw_kfree Inv}.
Implicit Types (s : vm_state (A := A)) (Rf Rr Rm : gset Z) (T O : list (Z * area)).

Abbreviation vm_mem := (vm_mem Inv).

Lemma vm_mono s Rf Rr Rm n : vm_mem s Rf Rr Rm (S n) -> vm_mem s Rf Rr Rm n.
Proof. intros []. split; try done. by apply (ps_mono (Inv := Inv)). Qed.

(** Taking and freeing nodes *)
Lemma fva_new_spec s Rf Rr Rm n :
  vm_mem s Rf Rr Rm (S n) ->
  wp (get_new_fva_node reserve_malloc) (fun q s' => q ∉ Rf /\ q <> 0 /\
    exists p' a', s' = set_fpool p' a' s /\ vm_mem s' ({[q]} ∪ Rf) Rr Rm n /\
      forall r, r ∈ Rf -> pnodes p' !! r = pnodes (fpool s) !! r) s.
Proof.
  intros (H1 & H2)%vm_pool_f. apply wp_with_fpool. eapply wp_mono; [by eapply (node_new_spec fva_layout fva_layout_ok)|].
  intros q [p' a'] (Hq & Hq0 & HP & Hk). split; [done|]. split; [done|]. exists p', a'.
  split; [done|]. split; [by apply vm_pool_f|done].
Qed.

Lemma rva_new_spec s Rf Rr Rm n :
  vm_mem s Rf Rr Rm (S n) ->
  wp (get_new_rva_node reserve_malloc) (fun q s' => q ∉ Rr /\ q <> 0 /\
    exists p' a', s' = set_rpool p' a' s /\ vm_mem s' Rf ({[q]} ∪ Rr) Rm n /\
      forall r, r ∈ Rr -> pnodes p' !! r = pnodes (rpool s) !! r) s.
Proof.
  intros (H1 & H2)%vm_pool_r. apply wp_with_rpool. eapply wp_mono; [by eapply (node_new_spec rva_layout rva_layout_ok)|].
  intros q [p' a'] (Hq & Hq0 & HP & Hk). split; [done|]. split; [done|]. exists p', a'.
  split; [done|]. split; [by apply vm_pool_r|done].
Qed.

Lemma mdt_new_spec s Rf Rr Rm n :
  vm_mem s Rf Rr Rm (S n) ->
  wp (node_new reserve_malloc) (fun q s' => q ∉ Rm /\ q <> 0 /\
    exists p' a', s' = set_mpool p' a' s /\ vm_mem s' Rf Rr ({[q]} ∪ Rm) n /\
      forall r, r ∈ Rm -> pnodes p' !! r = pnodes (mpool s) !! r) s.
Proof.
  intros (H1 & H2)%vm_pool_m. apply wp_with_mpool. eapply wp_mono; [by eapply (node_new_spec mdt_layout mdt_layout_ok)|].
  intros q [p' a'] (Hq & Hq0 & HP & Hk). split; [done|]. split; [done|]. exists p', a'.
  split; [done|]. split; [by apply vm_pool_m|done].
Qed.

Lemma fva_free_spec s Rf Rr Rm n q :
  vm_mem s Rf Rr Rm n -> q ∈ Rf ->
  wp (free_fva_node raw_kfree q) (fun _ s' => exists p' a', s' = set_fpool p' a' s /\
    vm_mem s' (Rf ∖ {[q]}) Rr Rm n /\
    forall r, r ∈ Rf ∖ {[q]} -> pnodes p' !! r = pnodes (fpool s) !! r) s.
Proof.
  intros (H1 & H2)%vm_pool_f Hq. apply wp_with_fpool.
  eapply wp_mono; [by eapply (free_node_spec fva_layout fva_layout_ok)|].
  intros _ [p' a'] [HP Hk]. exists p', a'. split; [done|]. split; [by apply vm_pool_f|done].
Qed.

Lemma rva_free_spec s Rf Rr Rm n q :
  vm_mem s Rf Rr Rm n -> q ∈ Rr ->
  wp (free_rva_node raw_kfree q) (fun _ s' => exists p' a', s' = set_rpool p' a' s /\
    vm_mem s' Rf (Rr ∖ {[q]}) Rm n /\
    forall r, r ∈ Rr ∖ {[q]} -> pnodes p' !! r = pnodes (rpool s) !! r) s.
Proof.
  intros (H1 & H2)%vm_pool_r Hq. apply wp_with_rpool.
  eapply wp_mono; [by eapply (free_node_spec rva_layout rva_layout_ok)|].
  intros _ [p' a'] [HP Hk]. exists p', a'. split; [done|]. split; [by apply vm_pool_r|done].
Qed.

Lemma mdt_free_node_spec s Rf Rr Rm n q :
  vm_mem s Rf Rr Rm n -> q ∈ Rm ->
  wp (with_mpool (free_mdt_node mdt_layout raw_kfree q)) (fun _ s' => exists p' a', s' = set_mpool p' a' s /\
    vm_mem s' Rf Rr (Rm ∖ {[q]}) n /\
    forall r, r ∈ Rm ∖ {[q]} -> pnodes p' !! r = pnodes (mpool s) !! r) s.
Proof.
  intros (H1 & H2)%vm_pool_m Hq. apply wp_with_mpool.
  eapply wp_mono; [by eapply (free_mdt_node_spec mdt_layout mdt_layout_ok)|].
  intros _ [p' a'] [HP Hk]. exists p', a'. split; [done|]. split; [by apply vm_pool_m|done].
Qed.

(** ** The lists of free areas *)

Abbreviation fseg s := (seg f_next fdat (pnodes (fpool s))).

(** What an operation on the free lists leaves alone. *)
Record f_frame s s' : Prop := {
  ff_rpool : rpool s' = rpool s;
  ff_mpool : mpool s' = mpool s;
  ff_rk : rva_kmap_list s' = rva_kmap_list s;
  ff_rd : rva_dynamic_list s' = rva_dynamic_list s;
  ff_sp : mm_addr_space s' = mm_addr_space s
}.

#[local] Instance f_frame_preorder : PreOrder f_frame.
Proof. split; [by split|]. intros s1 s2 s3 [] []. split; congruence. Qed.

(** List [l] holds the nodes [T] and the other list the nodes [O]; these are
    all the free-area nodes there are. *)
Record f_ok (l : vmalloc_lists) s T O Rr Rm (n : nat) : Prop := {
  fo_T : fseg s (fva_head l s) T 0;
  fo_O : fseg s (fva_head (other l) s) O 0;
  fo_nd : NoDup (T.*1 ++ O.*1);
  fo_mem : vm_mem s (list_to_set (T.*1 ++ O.*1)) Rr Rm n
}.

Lemma f_ok_swap l s T O Rr Rm n : f_ok l s T O Rr Rm n -> f_ok (other l) s O T Rr Rm n.
Proof.
  intros [H1 H2 H3 H4]. split; [done|by destruct l|by rewrite (comm app)|].
  by rewrite list_to_set_app_L, (comm_L (∪)), <- list_to_set_app_L.
Qed.

(** The memory from which the lists are read may change elsewhere. *)
Lemma fseg_keep s s' h T e (R : gset Z) :
  (forall r, r ∈ R -> pnodes (fpool s') !! r = pnodes (fpool s) !! r) -> list_to_set T.*1 ⊆ R ->
  fseg s h T e -> fseg s' h T e.
Proof. intros Hk HT. apply seg_frame. intros p Hp. apply Hk. set_solver. Qed.

Lemma set_f_link_wp l s T e x Rf Rr Rm n (Q : unit -> vm_state -> Prop) :
  vm_mem s Rf Rr Rm n -> list_to_set T.*1 ⊆ Rf -> NoDup T.*1 -> fseg s (fva_head l s) T e ->
  (forall s', vm_mem s' Rf Rr Rm n -> f_frame s s' -> fseg s' (fva_head l s') T x ->
     fva_head (other l) s' = fva_head (other l) s ->
     (forall q, q ∉ T.*1 -> pnodes (fpool s') !! q = pnodes (fpool s) !! q) -> Q tt s') ->
  wp (set_f_link l (last_ptr T 0) x) Q s.
Proof.
  intros Hm HT Hnd Hseg HQ. unfold set_f_link. destruct T as [|[p d] T _] using rev_ind.
  - cbn. apply wp_modify, HQ; try done; by destruct l, Hm.
  - rewrite last_ptr_snoc. pose proof (seg_middle _ _ _ _ _ _ _ _ _ Hseg) as (v & Hv & Hd & Hp & _ & _).
    destruct (Z.eqb_spec p 0); [done|]. cbn [negb]. eapply fva_upd_wp; [done|].
    rewrite fmap_app in HT. cbn in HT. apply HQ.
    + apply vm_f_write; [done|]. set_solver.
    + by split.
    + assert (fva_head l (f_write s p (with_f_next x v)) = fva_head l s) as -> by by destruct l.
      by apply (seg_relink _ _ _ _ _ _ _ e v).
    + by destruct l.
    + intros q Hq. apply lookup_insert_ne. intros <-. apply Hq. rewrite fmap_app. set_solver.
Qed.

(** Facts about the addresses of a list with a marked node. *)
Lemma ptrs_middle T1 p (d : area) T2 O :
  NoDup ((T1 ++ (p, d) :: T2).*1 ++ O.*1) ->
  p ∉ T1.*1 /\ p ∉ T2.*1 /\ p ∉ O.*1 /\ NoDup ((T1 ++ T2).*1 ++ O.*1) /\ NoDup (T1 ++ [(p, d)]).*1 /\
  (forall q, q ∈ T1.*1 -> q ∉ T2.*1 /\ q ∉ O.*1).
Proof.
  rewrite !fmap_app. cbn [fmap list_fmap fst]. intros Hnd.
  assert (NoDup ((p :: T1.*1 ++ T2.*1) ++ O.*1)) as Hnd'.
  { rewrite (Permutation_middle T1.*1 T2.*1 p). done. }
  cbn [app] in Hnd'. apply NoDup_cons in Hnd' as [Hp Hnd'].
  rewrite !not_elem_of_app in Hp. destruct Hp as [[? ?] ?].
  pose proof Hnd' as ((Hn1 & Hn2 & Hn3)%NoDup_app & Hn4 & Hn5)%NoDup_app.
  split_and!; try done.
  - apply NoDup_app. split_and!; [done| |apply NoDup_singleton]. intros q Hq ->%list_elem_of_singleton. done.
  - intros q Hq. split; [by apply Hn2|]. apply Hn4. set_solver.
Qed.

Lemma f_ok_update l s T1 p d T2 O Rr Rm n v v' :
  f_ok l s (T1 ++ (p, d) :: T2) O Rr Rm n -> pnodes (fpool s) !! p = Some v -> f_next v' = f_next v ->
  f_ok l (f_write s p v') (T1 ++ (p, fdat v') :: T2) O Rr Rm n.
Proof.
  intros [HT HO Hnd Hm] Hv Hn. pose proof (ptrs_middle _ _ _ _ _ Hnd) as (H1 & H2 & H3 & _).
  apply seg_middle in HT as (v0 & Hv0 & Hd & Hp & HT1 & HT2). simplify_eq.
  assert ((T1 ++ (p, fdat v') :: T2).*1 = (T1 ++ (p, fdat v0) :: T2).*1) as E by by rewrite !fmap_app.
  split; rewrite ?E.
  - assert (fva_head l (f_write s p v') = fva_head l s) as -> by by destruct l.
    apply seg_app. exists p. split; [by apply seg_write|]. split; [done|]. split; [done|].
    exists v'. split; [apply lookup_insert_eq|]. split; [done|]. rewrite Hn. by apply seg_write.
  - assert (fva_head (other l) (f_write s p v') = fva_head (other l) s) as -> by by destruct l.
    by apply seg_write.
  - done.
  - apply vm_f_write; [done|]. rewrite fmap_app. set_solver.
Qed.

(** Unlinking and freeing a node. *)
Lemma f_remove_spec l s T1 p d T2 O Rr Rm n v :
  f_ok l s (T1 ++ (p, d) :: T2) O Rr Rm n -> pnodes (fpool s) !! p = Some v ->
  wp (set_f_link l (last_ptr T1 0) (f_next v) ;; free_fva_node raw_kfree p)
     (fun _ s' => f_ok l s' (T1 ++ T2) O Rr Rm n /\ f_frame s s') s.
Proof.
  intros [HT HO Hnd Hm] Hv. pose proof (ptrs_middle _ _ _ _ _ Hnd) as (H1 & H2 & H3 & H4 & H5 & H6).
  apply seg_middle in HT as (v0 & Hv0 & Hd & Hp & HT1 & HT2). rewrite Hv in Hv0. injection Hv0 as <-.
  rewrite !fmap_app in Hm. cbn [fmap list_fmap fst] in Hm.
  apply wp_bind. eapply set_f_link_wp; [exact Hm|set_solver| |exact HT1|].
  { rewrite fmap_app in H5. by apply NoDup_app in H5 as (? & _). }
  intros s1 Hm1 HF Hs1 Ho1 Hk1. eapply wp_mono; [eapply fva_free_spec; [exact Hm1|set_solver]|].
  intros _ s2 (p' & a' & -> & Hm2 & Hk2). cbn in Hk2.
  assert ((list_to_set ((T1.*1 ++ p :: T2.*1) ++ O.*1) : gset Z) ∖ {[p]} = list_to_set ((T1 ++ T2).*1 ++ O.*1)) as E.
  { rewrite fmap_app. set_solver. }
  rewrite E in *. rewrite fmap_app in Hk2.
  assert (forall h, fva_head h (set_fpool p' a' s1) = fva_head h s1) as Hh by by intros [].
  split; [split|].
  - rewrite Hh. apply seg_app. exists (f_next v). split.
    + eapply seg_frame; [|exact Hs1]. intros q Hq. cbn. apply Hk2. set_solver.
    + eapply seg_frame; [|exact HT2]. intros q Hq. cbn. rewrite Hk2 by set_solver. apply Hk1.
      intros Hq'. by destruct (H6 q Hq').
  - rewrite Hh, Ho1. eapply seg_frame; [|exact HO]. intros q Hq. cbn. rewrite Hk2 by set_solver. apply Hk1.
    intros Hq'. by destruct (H6 q Hq').
  - done.
  - done.
  - transitivity s1; [done|]. by split.
Qed.

(** A new node [q] that points to [T2] but is not linked from [T1] yet. *)
Record f_fresh (l : vmalloc_lists) s T1 T2 (q : Z) (a : area) O Rr Rm (n : nat) : Prop := {
  fr_T1 : fseg s (fva_head l s) T1 (head_ptr T2 0);
  fr_T2 : fseg s (head_ptr T2 0) T2 0;
  fr_O : fseg s (fva_head (other l) s) O 0;
  fr_q : q <> 0 /\ pnodes (fpool s) !! q = Some (MkFva (head_ptr T2 0) a.1 a.2);
  fr_nd : NoDup (q :: T1.*1 ++ T2.*1 ++ O.*1);
  fr_mem : vm_mem s ({[q]} ∪ list_to_set (T1.*1 ++ T2.*1 ++ O.*1)) Rr Rm n
}.

Lemma f_new_spec l s T1 T2 O Rr Rm n :
  f_ok l s (T1 ++ T2) O Rr Rm (S n) ->
  wp (get_new_fva_node reserve_malloc) (fun q s' => f_frame s s' /\
    (forall r, r ∈ (T1 ++ T2).*1 -> pnodes (fpool s') !! r = pnodes (fpool s) !! r) /\
    (exists v, pnodes (fpool s') !! q = Some v) /\
    forall a : area, f_fresh l (f_write s' q (MkFva (head_ptr T2 0) a.1 a.2)) T1 T2 q a O Rr Rm n) s.
Proof.
  intros [HT HO Hnd Hm]. apply seg_app in HT as (c & HT1 & HT2).
  pose proof (seg_head _ _ _ _ _ _ HT2) as ->.
  eapply wp_mono; [by eapply fva_new_spec|]. intros q s1 (Hq & Hq0 & p' & a' & -> & Hm1 & Hk1).
  rewrite not_elem_of_list_to_set, fmap_app, <- app_assoc in Hq. rewrite fmap_app, <- app_assoc in *.
  split; [by split|]. split; [intros r Hr; apply Hk1; set_solver|].
  split; [eapply vm_f_read; [exact Hm1|set_solver]|]. intros a.
  assert (forall h v, fva_head h (f_write (set_fpool p' a' s) q v) = fva_head h s) as Hh by by intros [].
  assert (forall r v, r ∈ T1.*1 ++ T2.*1 ++ O.*1 ->
    pnodes (fpool (f_write (set_fpool p' a' s) q v)) !! r = pnodes (fpool s) !! r) as Hk2.
  { intros r v Hr. cbn. rewrite lookup_insert_ne by (intros ->; done). apply Hk1. set_solver. }
  split.
  - rewrite Hh. eapply seg_frame; [|exact HT1]. intros r Hr. apply Hk2. set_solver.
  - eapply seg_frame; [|exact HT2]. intros r Hr. apply Hk2. set_solver.
  - rewrite Hh. eapply seg_frame; [|exact HO]. intros r Hr. apply Hk2. set_solver.
  - split; [done|]. cbn. by rewrite lookup_insert_eq.
  - by apply NoDup_cons.
  - apply vm_f_write; [done|set_solver].
Qed.

(** The contents of the last node before the gap may change. *)
Lemma f_fresh_update l s T1 p d T2 q a O Rr Rm n v v' :
  f_fresh l s (T1 ++ [(p, d)]) T2 q a O Rr Rm n -> pnodes (fpool s) !! p = Some v -> f_next v' = f_next v ->
  f_fresh l (f_write s p v') (T1 ++ [(p, fdat v')]) T2 q a O Rr Rm n.
Proof.
  intros [HT1 HT2 HO [Hq0 Hq] Hnd Hm] Hv Hn.
  assert ((T1 ++ [(p, fdat v')]).*1 = (T1 ++ [(p, d)]).*1) as E by by rewrite !fmap_app.
  assert (forall h, fva_head h (f_write s p v') = fva_head h s) as Hh by by intros [].
  apply NoDup_cons in Hnd as [Hq1 Hnd]. pose proof Hnd as (Hn1 & Hn2 & Hn3)%NoDup_app.
  rewrite fmap_app in Hn1, Hn2, Hq1. apply NoDup_app in Hn1 as (_ & Hn1 & _).
  assert (p ∉ T1.*1) by (intros Hp; apply (Hn1 p Hp); set_solver).
  assert (p ∉ T2.*1 ++ O.*1) by (apply Hn2; set_solver).
  split; rewrite ?E, ?Hh.
  - apply seg_middle in HT1 as (v0 & Hv0 & Hd & Hp & H1 & H2). rewrite Hv in Hv0. injection Hv0 as <-.
    apply seg_app. exists p. split; [by apply seg_write|]. split; [done|]. split; [done|].
    exists v'. split; [apply lookup_insert_eq|]. split; [done|]. cbn. by rewrite Hn.
  - apply seg_write; [set_solver|done].
  - apply seg_write; [set_solver|done].
  - split; [done|]. cbn. rewrite lookup_insert_ne by set_solver. done.
  - apply NoDup_cons. split; [|done]. rewrite fmap_app. set_solver.
  - apply vm_f_write; [done|]. rewrite fmap_app. set_solver.
Qed.

Lemma f_fresh_link l s T1 T2 q a O Rr Rm n :
  f_fresh l s T1 T2 q a O Rr Rm n ->
  wp (set_f_link l (last_ptr T1 0) q)
     (fun _ s' => f_ok l s' (T1 ++ (q, a) :: T2) O Rr Rm n /\ f_frame s s') s.
Proof.
  intros [HT1 HT2 HO [Hq0 Hq] Hnd Hm].
  apply NoDup_cons in Hnd as [Hq1 Hnd]. pose proof Hnd as (Hn1 & Hn2 & Hn3)%NoDup_app.
  eapply set_f_link_wp; [exact Hm|set_solver|done|exact HT1|].
  intros s' Hm' HF Hs Ho Hk. split; [split|done].
  - apply seg_app. exists q. split; [exact Hs|]. split; [done|]. split; [done|].
    exists (MkFva (head_ptr T2 0) a.1 a.2). rewrite Hk by set_solver. split; [done|]. split; [by destruct a|].
    cbn. eapply seg_frame; [|exact HT2]. intros r Hr. apply Hk. intros Hr'. apply (Hn2 r Hr'). set_solver.
  - rewrite Ho. eapply seg_frame; [|exact HO]. intros r Hr. apply Hk. intros Hr'. apply (Hn2 r Hr'). set_solver.
  - rewrite fmap_app. cbn [fmap list_fmap fst]. rewrite <- app_assoc. cbn [app].
    rewrite <- Permutation_middle. by apply NoDup_cons.
  - rewrite fmap_app. cbn [fmap list_fmap fst].
    replace (list_to_set ((T1.*1 ++ q :: T2.*1) ++ O.*1) : gset Z)
      with ({[q]} ∪ list_to_set (T1.*1 ++ T2.*1 ++ O.*1) : gset Z) by set_solver. done.
Qed.

(** ** Areas of the upper half *)

(** Ordered, disjoint, coalesced areas of zero-extended addresses. *)
Definition areas_ok (l : list area) : Prop :=
  spaced (-1) l /\ forall x, covers l x -> x < 2 ^ 48.

Lemma area_bounds l a : areas_ok l -> a ∈ l -> 0 <= a.1 /\ 0 < a.2 /\ a.1 + a.2 <= 2 ^ 48.
Proof.
  intros [Hs Hb] Ha. pose proof (spaced_pos _ _ _ Hs Ha) as Hp.
  assert (covers l a.1) as H1 by (exists a; split; [done|unfold in_area; lia]).
  assert (covers l (a.1 + a.2 - 1)) as H2 by (exists a; split; [done|unfold in_area; lia]).
  apply (spaced_bound _ _ _ Hs) in H1. apply Hb in H2. lia.
Qed.

Lemma reserve_from_spec l s T1 p a T2 O Rr Rm n va bytes :
  f_ok l s (T1 ++ (p, a) :: T2) O Rr Rm (S n) -> areas_ok (T1 ++ (p, a) :: T2).*2 ->
  a.1 <= va -> 0 < bytes -> va + bytes <= a.1 + a.2 ->
  wp (reserve_from_fva_node reserve_malloc raw_kfree l p (last_ptr T1 0) va bytes)
     (fun r s' => r = va /\ f_frame s s' /\ exists T', f_ok l s' T' O Rr Rm n /\
        T'.*2 = T1.*2 ++ carve_area a va bytes ++ T2.*2) s.
Proof.
  intros Hok Ha Hva Hb He.
  assert (0 <= a.1 /\ 0 < a.2 /\ a.1 + a.2 <= 2 ^ 48) as (B1 & B2 & B3).
  { apply (area_bounds _ _ Ha). rewrite fmap_app. set_solver. }
  pose proof (seg_middle _ _ _ _ _ _ _ _ _ (fo_T _ _ _ _ _ _ _ Hok)) as (v & Hv & Hd & Hp & _).
  assert (f_start v = a.1 /\ f_size v = a.2) as [E1 E2] by (by subst a).
  assert (f_ok l s (T1 ++ (p, a) :: T2) O Rr Rm n) as Hok' by (destruct Hok; split; try done; by apply vm_mono).
  unfold reserve_from_fva_node. apply wp_bind. eapply fva_get_wp; [done|]. rewrite E1, E2. no_wrap.
  unfold carve_area. destruct (Z.eqb_spec va a.1) as [Ev|Ev]; cbn [andb].
  - destruct (Z.eqb_spec bytes a.2) as [Eb|Eb].
    + rewrite (proj2 (Z.eqb_eq (va + bytes) (a.1 + a.2))) by lia. apply wp_assoc, wp_bind.
      eapply wp_mono; [by apply (f_remove_spec l s T1 p a T2)|]. intros _ s' [H1 H2]. apply wp_ret.
      split; [done|]. split; [done|]. exists (T1 ++ T2). by rewrite fmap_app.
    + rewrite (proj2 (Z.eqb_neq (va + bytes) (a.1 + a.2))) by lia. apply wp_bind.
      eapply fva_upd_wp; [done|]. apply wp_ret. split; [done|]. split; [by split|].
      eexists. split; [by eapply f_ok_update|]. rewrite fmap_app. cbn. rewrite E1, E2. no_wrap.
      by replace (a.1 + a.2 - (va + bytes)) with (a.2 - bytes) by lia; rewrite Ev.
  - destruct (Z.eqb_spec (va + bytes) (a.1 + a.2)) as [Eb|Eb].
    + apply wp_bind. eapply fva_upd_wp; [done|]. apply wp_ret. split; [done|]. split; [by split|].
      eexists. split; [by eapply f_ok_update|]. rewrite fmap_app. cbn. by rewrite E1.
    + apply wp_bind. change (T1 ++ (p, a) :: T2) with (T1 ++ [(p, a)] ++ T2) in Hok. rewrite app_assoc in Hok.
      eapply wp_mono; [by apply (f_new_spec l s (T1 ++ [(p, a)]) T2)|].
      intros q s1 (HF & Hk & [vq Hvq] & Hfr).
      assert (pnodes (fpool s1) !! p = Some v) as Hv1.
      { rewrite Hk; [done|]. rewrite !fmap_app. set_solver. }
      assert (f_next v = head_ptr T2 0) as En.
      { destruct Hok as [HT _ _ _]. apply seg_app in HT as (c & HT1 & HT2). apply seg_middle in HT1 as (v0 & ? & _ & _ & _ & Hc).
        simplify_eq. cbn in Hc. rewrite Hc. by apply seg_head in HT2. }
      apply wp_bind. eapply fva_get_wp; [done|]. apply wp_bind. eapply fva_upd_wp; [done|]. rewrite En.
      specialize (Hfr (va + bytes, a.1 + a.2 - (va + bytes))). cbn [fst snd] in Hfr. no_wrap.
      set (s2 := f_write s1 q _) in *.
      assert (pnodes (fpool s2) !! p = Some v) as Hv2.
      { unfold s2. cbn. rewrite lookup_insert_ne; [done|]. intros ->. apply fr_nd, NoDup_cons in Hfr as [Hq _].
        apply Hq. rewrite fmap_app. set_solver. }
      apply wp_bind. eapply fva_upd_wp; [exact Hv2|].
      assert (forall x, f_next (MkFva (f_next v) (f_start v) x) = f_next v) as Hnx by done.
      pose proof (f_fresh_update _ _ _ _ _ _ _ _ _ _ _ _ _ _ Hfr Hv2 (Hnx (va - a.1))) as Hfr3. cbn [f_next] in *.
      apply f_fresh_link in Hfr3. rewrite last_ptr_snoc in Hfr3. unfold set_f_link in Hfr3.
      destruct (Z.eqb_spec p 0); [done|]. apply wp_bind. eapply wp_mono; [exact Hfr3|].
      intros _ s4 [H4 HF4]. apply wp_ret. split; [done|]. split.
      * transitivity s1; [done|]. transitivity s2; [by split|]. etransitivity; [|exact HF4]. by split.
      * eexists. split; [exact H4|]. rewrite !fmap_app. cbn. unfold fdat. cbn. by rewrite E1, <- app_assoc.
Qed.

(** ** pop_fva *)

(** The range from [r] has left the free addresses of list [l]. *)
Definition popped l s T O Rr Rm n bytes (r : Z) s' : Prop :=
  f_frame s s' /\ (forall x, in_range r bytes x -> covers T.*2 x) /\
  exists T', f_ok l s' T' O Rr Rm n /\ areas_ok T'.*2 /\
    forall x, covers T'.*2 x <-> covers T.*2 x /\ ~ in_range r bytes x.

Lemma reserve_popped l s T1 p a T2 O Rr Rm n va bytes :
  f_ok l s (T1 ++ (p, a) :: T2) O Rr Rm (S n) -> areas_ok (T1 ++ (p, a) :: T2).*2 ->
  a.1 <= va -> 0 < bytes -> va + bytes <= a.1 + a.2 ->
  wp (reserve_from_fva_node reserve_malloc raw_kfree l p (last_ptr T1 0) va bytes)
     (fun r s' => r = va /\ popped l s (T1 ++ (p, a) :: T2) O Rr Rm n bytes r s') s.
Proof.
  intros Hok Ha Hva Hb He. eapply wp_mono; [by apply reserve_from_spec|].
  intros r s' (-> & HF & T' & HT' & E). split; [done|]. split; [done|].
  destruct Ha as [Hs Hlim]. rewrite fmap_app in Hs, Hlim |- *. cbn [fmap list_fmap snd] in *.
  assert (forall x, covers T'.*2 x <-> covers (T1.*2 ++ a :: T2.*2) x /\ ~ in_range va bytes x) as Hc.
  { intros x. rewrite E. by eapply carve_covers. }
  split.
  - intros x Hx. apply (covers_elem _ a); [set_solver|]. unfold in_range, in_area in *. lia.
  - exists T'. split; [done|]. split; [|done]. split.
    + rewrite E. by apply carve_spaced.
    + intros x Hx. apply Hlim. by apply Hc.
Qed.

Lemma head_ptr_nonzero s h p (d : area) T e : fseg s h ((p, d) :: T) e -> p <> 0.
Proof. by intros (_ & ? & _). Qed.

Lemma pop_kmap_loop s O Rr Rm n va bytes rest : forall seen fuel,
  f_ok KMAP_LIST s (seen ++ rest) O Rr Rm (S n) -> areas_ok (seen ++ rest).*2 ->
  0 <= va -> 0 < bytes -> va + bytes <= 2 ^ 48 ->
  (exists a, a ∈ rest.*2 /\ a.1 <= va /\ va + bytes <= a.1 + a.2) -> (length rest < fuel)%nat ->
  wp (pop_fva_loop reserve_malloc raw_kfree fuel KMAP_LIST bytes va (head_ptr rest 0) (last_ptr seen 0) (0, 0))
     (fun r s' => r = va /\ popped KMAP_LIST s (seen ++ rest) O Rr Rm n bytes r s') s.
Proof.
  induction rest as [|[p a] rest IH]; intros seen fuel Hok Ha Hva Hb He Hex Hf.
  { destruct Hex as (a & Hin & _). set_solver. }
  destruct fuel as [|fuel]; [cbn in Hf; lia|]. cbn [pop_fva_loop head_ptr].
  pose proof (seg_middle _ _ _ _ _ _ _ _ _ (fo_T _ _ _ _ _ _ _ Hok)) as (v & Hv & Hd & Hp & _ & Hn).
  destruct (Z.eqb_spec p 0); [done|].
  assert (0 <= a.1 /\ 0 < a.2 /\ a.1 + a.2 <= 2 ^ 48) as (B1 & B2 & B3).
  { apply (area_bounds _ _ Ha). rewrite fmap_app. set_solver. }
  assert (f_start v = a.1 /\ f_size v = a.2) as [E1 E2] by (by subst a).
  apply wp_bind. eapply fva_get_wp; [done|]. rewrite E1, E2. no_wrap.
  destruct (Z.leb_spec a.1 va) as [L1|L1]; [destruct (Z.leb_spec (va + bytes) (a.1 + a.2)) as [L2|L2]|]; cbn [andb].
  { by apply reserve_popped. }
  all: apply seg_head in Hn; rewrite Hn; next_node IH seen p a rest;
    apply IH; try done; [|cbn in Hf; lia];
    destruct Hex as (b & Hin & H1 & H2); exists b; split; [|done];
    cbn in Hin; apply elem_of_cons in Hin as [->|?]; [lia|done].
Qed.

Lemma pop_kmap_panics s O Rr Rm n va bytes rest : forall seen fuel,
  f_ok KMAP_LIST s (seen ++ rest) O Rr Rm n -> areas_ok (seen ++ rest).*2 ->
  0 <= va -> 0 < bytes -> va + bytes <= 2 ^ 48 ->
  (forall a, a ∈ rest.*2 -> ~ (a.1 <= va /\ va + bytes <= a.1 + a.2)) -> (length rest < fuel)%nat ->
  pop_fva_loop reserve_malloc raw_kfree fuel KMAP_LIST bytes va (head_ptr rest 0) (last_ptr seen 0) (0, 0) s =
    Err EPanic.
Proof.
  induction rest as [|[p a] rest IH]; intros seen fuel Hok Ha Hva Hb He Hex Hf;
    (destruct fuel as [|fuel]; [cbn in Hf; lia|]); cbn [pop_fva_loop head_ptr]; [done|].
  pose proof (seg_middle _ _ _ _ _ _ _ _ _ (fo_T _ _ _ _ _ _ _ Hok)) as (v & Hv & Hd & Hp & _ & Hn).
  destruct (Z.eqb_spec p 0); [done|].
  assert (0 <= a.1 /\ 0 < a.2 /\ a.1 + a.2 <= 2 ^ 48) as (B1 & B2 & B3).
  { apply (area_bounds _ _ Ha). rewrite fmap_app. set_solver. }
  assert (f_start v = a.1 /\ f_size v = a.2) as [E1 E2] by (by subst a).
  assert (fva_get p s = Ok (v, s)) as Hget.
  { unfold fva_get, with_fpool, get_n, bind, gets. cbn. rewrite Hv. cbn. by destruct s. }
  erewrite bind_ok; [|exact Hget]. rewrite E1, E2. no_wrap.
  assert ((a.1 <=? va) && (va + bytes <=? a.1 + a.2) = false) as ->.
  { apply andb_false_iff. specialize (Hex a). cbn in Hex.
    destruct (Z.leb_spec a.1 va), (Z.leb_spec (va + bytes) (a.1 + a.2)); auto.
    exfalso. apply Hex; [set_solver|lia]. }
  apply seg_head in Hn. rewrite Hn. next_node IH seen p a rest. apply IH; try done; [|cbn in Hf; lia].
  intros b Hb'. apply Hex. cbn. set_solver.
Qed.

Lemma f_fuel_ok l s T O Rr Rm n : f_ok l s T O Rr Rm n -> (length T < f_fuel s)%nat.
Proof.
  intros [HT _ Hnd _]. apply NoDup_app in Hnd as (Hnd & _).
  apply (seg_length _ _ _ _ _ _ Hnd) in HT. unfold f_fuel. lia.
Qed.

(** Areas made of whole pages. *)
Definition paged (l : list area) : Prop := forall a, a ∈ l -> (PAGE_SIZE | a.1) /\ (PAGE_SIZE | a.2).

Lemma align_up_page x : 0 <= x <= 2 ^ 48 -> (PAGE_SIZE | x) -> align_up x PAGE_ALIGN = x.
Proof.
  intros Hx [q ->]. change PAGE_ALIGN with (2 ^ 12). change PAGE_SIZE with (2 ^ 12) in *.
  rewrite align_up_pow2 by lia. f_equal. symmetry. apply Z.div_unique with (2 ^ 12 - 1); lia.
Qed.

(** The remembered candidate of the walk: none, or a node that is large
    enough, with its predecessor. *)
Definition fit_ok T bytes (fit : Z * Z) : Prop :=
  fit = (0, 0) \/ exists T1 p a T2, T = T1 ++ (p, a) :: T2 /\ fit = (p, last_ptr T1 0) /\ bytes <= a.2.

(** A range taken from the start of an area of list [l]. *)
Definition popped_start l s T O Rr Rm n bytes (r : Z) s' : Prop :=
  (exists a, a ∈ T.*2 /\ a.1 = r /\ bytes <= a.2) /\ popped l s T O Rr Rm n bytes r s'.

Lemma reserve_popped_start l s T1 p a T2 O Rr Rm n bytes :
  f_ok l s (T1 ++ (p, a) :: T2) O Rr Rm (S n) -> areas_ok (T1 ++ (p, a) :: T2).*2 ->
  0 < bytes -> bytes <= a.2 ->
  wp (reserve_from_fva_node reserve_malloc raw_kfree l p (last_ptr T1 0) a.1 bytes)
     (popped_start l s (T1 ++ (p, a) :: T2) O Rr Rm n bytes) s.
Proof.
  intros Hok Ha Hb Hle. eapply wp_mono; [apply reserve_popped; try done; lia|].
  intros r s' [-> HP]. split; [|done]. exists a. split; [rewrite fmap_app; set_solver|done].
Qed.

Lemma pop_dynamic_loop s O Rr Rm n bytes rest : forall seen fuel fit,
  f_ok DYNAMIC_LIST s (seen ++ rest) O Rr Rm (S n) -> areas_ok (seen ++ rest).*2 -> paged (seen ++ rest).*2 ->
  0 < bytes -> fit_ok (seen ++ rest) bytes fit ->
  (fit <> (0, 0) \/ exists a, a ∈ rest.*2 /\ bytes <= a.2) -> (length rest < fuel)%nat ->
  wp (pop_fva_loop reserve_malloc raw_kfree fuel DYNAMIC_LIST bytes 0 (head_ptr rest 0) (last_ptr seen 0) fit)
     (popped_start DYNAMIC_LIST s (seen ++ rest) O Rr Rm n bytes) s.
Proof.
  induction rest as [|[p a] rest IH]; intros seen fuel fit Hok Ha Hpg Hb Hfit Hex Hf;
    (destruct fuel as [|fuel]; [cbn in Hf; lia|]); cbn [pop_fva_loop head_ptr].
  - cbn [Z.eqb]. destruct Hfit as [->|(T1 & p & a & T2 & E & -> & Hle)].
    { destruct Hex as [Hex|(a & Hin & _)]; [done|set_solver]. }
    rewrite E in *. cbn [fst snd].
    pose proof (seg_middle _ _ _ _ _ _ _ _ _ (fo_T _ _ _ _ _ _ _ Hok)) as (v & Hv & Hd & Hp & _).
    destruct (Z.eqb_spec p 0); [done|]. cbn [negb]. apply wp_bind. eapply fva_get_wp; [done|].
    replace (f_start v) with a.1 by by subst a. by apply reserve_popped_start.
  - pose proof (seg_middle _ _ _ _ _ _ _ _ _ (fo_T _ _ _ _ _ _ _ Hok)) as (v & Hv & Hd & Hp & _ & Hn).
    destruct (Z.eqb_spec p 0); [done|].
    assert (a ∈ (seen ++ (p, a) :: rest).*2) as Hin by (rewrite fmap_app; set_solver).
    destruct (area_bounds _ _ Ha Hin) as (B1 & B2 & B3). destruct (Hpg _ Hin) as [G1 G2].
    assert (f_start v = a.1 /\ f_size v = a.2) as [E1 E2] by (by subst a).
    apply wp_bind. eapply fva_get_wp; [done|]. rewrite E1, E2. apply seg_head in Hn. rewrite Hn.
    destruct (Z.leb_spec bytes a.2) as [L|L].
    + destruct (_ && _) eqn:Eb.
      * rewrite align_up_page by (done || lia). by apply reserve_popped_start.
      * assert (fit_ok (seen ++ (p, a) :: rest) bytes (if fit.1 =? 0 then (p, last_ptr seen 0) else fit)) as Hfit'.
        { destruct (fit.1 =? 0); [|done]. right. by exists seen, p, a, rest. }
        assert ((if fit.1 =? 0 then (p, last_ptr seen 0) else fit) <> (0, 0)) as Hne.
        { destruct (Z.eqb_spec fit.1 0); [congruence|]. intros ->. done. }
        revert Hfit' Hne. generalize (if fit.1 =? 0 then (p, last_ptr seen 0) else fit). intros fit' Hfit' Hne.
        next_node IH seen p a rest. apply IH; try done; [by left|cbn in Hf; lia].
    + next_node IH seen p a rest. apply IH; try done; [|cbn in Hf; lia].
      destruct Hex as [?|(b & Hb' & ?)]; [by left|]. right. exists b. cbn in Hb'.
      apply elem_of_cons in Hb' as [->|?]; [lia|done].
Qed.

(** No area is large enough: the walk ends in the panic. *)
Lemma pop_dynamic_panics s O Rr Rm n bytes rest : forall seen fuel,
  f_ok DYNAMIC_LIST s (seen ++ rest) O Rr Rm n ->
  (forall a, a ∈ rest.*2 -> a.2 < bytes) -> (length rest < fuel)%nat ->
  pop_fva_loop reserve_malloc raw_kfree fuel DYNAMIC_LIST bytes 0 (head_ptr rest 0) (last_ptr seen 0) (0, 0) s =
    Err EPanic.
Proof.
  induction rest as [|[p a] rest IH]; intros seen fuel Hok Hex Hf;
    (destruct fuel as [|fuel]; [cbn in Hf; lia|]); cbn [pop_fva_loop head_ptr]; [done|].
  pose proof (seg_middle _ _ _ _ _ _ _ _ _ (fo_T _ _ _ _ _ _ _ Hok)) as (v & Hv & Hd & Hp & _ & Hn).
  destruct (Z.eqb_spec p 0); [done|].
  assert (fva_get p s = Ok (v, s)) as Hget.
  { unfold fva_get, with_fpool, get_n, bind, gets. cbn. rewrite Hv. cbn. by destruct s. }
  erewrite bind_ok; [|exact Hget]. assert (a.2 < bytes) by (apply Hex; set_solver).
  assert (f_size v = a.2) as -> by (by subst a). destruct (Z.leb_spec bytes a.2); [lia|].
  apply seg_head in Hn. rewrite Hn. next_node IH seen p a rest. apply IH; try done; [|cbn in Hf; lia].
  intros b Hb'. apply Hex. cbn. set_solver.
Qed.

(** ** push_fva *)

Lemma fva_seek_spec l s T O Rr Rm n va rest : forall seen fuel,
  f_ok l s T O Rr Rm n -> T = seen ++ rest -> (length rest < fuel)%nat ->
  (forall a, a ∈ seen.*2 -> a.1 < va) ->
  wp (fva_seek fuel va (head_ptr rest 0) (last_ptr seen 0)) (fun r s' => s' = s /\
    exists T1 T2, T = T1 ++ T2 /\ r = (head_ptr T2 0, last_ptr T1 0) /\
      (forall a, a ∈ T1.*2 -> a.1 < va) /\ (forall a, head T2.*2 = Some a -> va <= a.1)) s.
Proof.
  induction rest as [|[p a] rest IH]; intros seen fuel Hok -> Hf Hseen;
    (destruct fuel as [|fuel]; [cbn in Hf; lia|]); cbn [fva_seek head_ptr].
  - apply wp_ret. split; [done|]. by exists seen, [].
  - pose proof (seg_middle _ _ _ _ _ _ _ _ _ (fo_T _ _ _ _ _ _ _ Hok)) as (v & Hv & Hd & Hp & _ & Hn).
    destruct (Z.eqb_spec p 0); [done|]. apply wp_bind. eapply fva_get_wp; [done|].
    assert (f_start v = a.1) as -> by (by subst a). destruct (Z.ltb_spec a.1 va) as [L|L].
    + apply seg_head in Hn. rewrite Hn. next_node IH seen p a rest. apply IH; try done; [cbn in Hf; lia|].
      intros b. rewrite fmap_app. intros [?|Hb]%elem_of_app; [by apply Hseen|]. set_solver.
    + apply wp_ret. split; [done|]. exists seen, ((p, a) :: rest). split; [done|]. split; [done|].
      split; [done|]. intros b [= <-]. done.
Qed.

(** The two adjacency tests. *)
Lemma join_prev_wp l s T1 T2 O Rr Rm n va (Q : bool -> vm_state -> Prop) :
  f_ok l s (T1 ++ T2) O Rr Rm n -> areas_ok (T1 ++ T2).*2 ->
  ((forall a, last T1.*2 = Some a -> a.1 + a.2 <> va) -> Q false s) ->
  (forall T1' p a, T1 = T1' ++ [(p, a)] -> a.1 + a.2 = va -> Q true s) ->
  wp (if negb (last_ptr T1 0 =? 0)
      then let* p := fva_get (last_ptr T1 0) in ret (wrap64 (f_start p + f_size p) =? va)
      else ret false) Q s.
Proof.
  intros Hok Ha HF HT. destruct T1 as [|[p a] T1 _] using rev_ind.
  { apply wp_ret. by apply HF. }
  rewrite last_ptr_snoc. rewrite <- app_assoc in *. cbn [app] in *.
  pose proof (seg_middle _ _ _ _ _ _ _ _ _ (fo_T _ _ _ _ _ _ _ Hok)) as (v & Hv & Hd & Hp & _).
  destruct (area_bounds _ a Ha) as (B1 & B2 & B3); [rewrite fmap_app; set_solver|].
  destruct (Z.eqb_spec p 0); [done|]. cbn [negb]. apply wp_bind. eapply fva_get_wp; [done|]. apply wp_ret.
  assert (f_start v = a.1 /\ f_size v = a.2) as [-> ->] by (by subst a). no_wrap.
  destruct (Z.eqb_spec (a.1 + a.2) va); [by eapply HT|]. apply HF. intros b. rewrite fmap_app. cbn.
  rewrite last_snoc. by intros [= <-].
Qed.

Lemma join_next_wp l s T1 T2 O Rr Rm n e (Q : bool -> vm_state -> Prop) :
  f_ok l s (T1 ++ T2) O Rr Rm n ->
  ((forall a, head T2.*2 = Some a -> e <> a.1) -> Q false s) ->
  (forall p a T2', T2 = (p, a) :: T2' -> e = a.1 -> Q true s) ->
  wp (if negb (head_ptr T2 0 =? 0)
      then let* c := fva_get (head_ptr T2 0) in ret (e =? f_start c) else ret false) Q s.
Proof.
  intros Hok HF HT. destruct T2 as [|[p a] T2]; cbn [head_ptr].
  { apply wp_ret. by apply HF. }
  pose proof (seg_middle _ _ _ _ _ _ _ _ _ (fo_T _ _ _ _ _ _ _ Hok)) as (v & Hv & Hd & Hp & _).
  destruct (Z.eqb_spec p 0); [done|]. cbn [negb]. apply wp_bind. eapply fva_get_wp; [done|]. apply wp_ret.
  assert (f_start v = a.1) as -> by (by subst a).
  destruct (Z.eqb_spec e a.1); [by eapply HT|]. apply HF. by intros b [= <-].
Qed.

(** The range has joined the free addresses of list [l]. *)
Definition pushed l s T O Rr Rm n va bytes s' : Prop :=
  f_frame s s' /\ exists T', f_ok l s' T' O Rr Rm n /\ areas_ok T'.*2 /\
    forall x, covers T'.*2 x <-> covers T.*2 x \/ in_range va bytes x.

Lemma joined_pushed l s s' T1 T2 T' O Rr Rm n va bytes :
  areas_ok (T1 ++ T2).*2 -> 0 <= va -> 0 < bytes -> va + bytes <= 2 ^ 48 ->
  end_of (-1) T1.*2 <= va -> (forall c, head T2.*2 = Some c -> va + bytes <= c.1) ->
  f_frame s s' -> f_ok l s' T' O Rr Rm n -> joined va bytes T1.*2 T2.*2 T'.*2 ->
  pushed l s (T1 ++ T2) O Rr Rm n va bytes s'.
Proof.
  intros [Hs Hlim] Hva Hb He H1 H2 HF Hok HJ. split; [done|]. exists T'. split; [done|].
  rewrite fmap_app in *.
  assert (forall x, covers T'.*2 x <-> covers (T1.*2 ++ T2.*2) x \/ in_range va bytes x) as Hc.
  { intros x. eapply joined_covers; [done| |done]. intros a. by eapply spaced_pos. }
  split; [|done]. split.
  - eapply joined_spaced; try done. lia.
  - intros x [Hx|Hx]%Hc; [by apply Hlim|]. unfold in_range in Hx. lia.
Qed.

(** Not overlapping the free areas places the range between two of them. *)
Lemma range_between (l1 l2 : list area) va bytes :
  areas_ok (l1 ++ l2) -> 0 <= va -> 0 < bytes -> (forall x, in_range va bytes x -> ~ covers (l1 ++ l2) x) ->
  (forall a, a ∈ l1 -> a.1 < va) -> (forall a, head l2 = Some a -> va <= a.1) ->
  end_of (-1) l1 <= va /\ (forall c, head l2 = Some c -> va + bytes <= c.1).
Proof.
  intros [Hs _] Hva Hb Hno H1 H2. split.
  - unfold end_of. destruct (last l1) as [a|] eqn:E; [|lia].
    assert (a ∈ l1) as Ha by by apply last_Some_elem_of. specialize (H1 a Ha).
    destruct (Z.le_gt_cases (a.1 + a.2) va) as [|Hgt]; [done|]. exfalso.
    apply (Hno va); [unfold in_range; lia|]. apply (covers_elem _ a); [set_solver|unfold in_area; lia].
  - intros c E. specialize (H2 c E). destruct (Z.le_gt_cases (va + bytes) c.1) as [|Hgt]; [done|]. exfalso.
    assert (c ∈ l1 ++ l2) as Hc by (destruct l2; [done|]; cbn in E; simplify_eq; set_solver).
    pose proof (spaced_pos _ _ _ Hs Hc).
    apply (Hno c.1); [unfold in_range; lia|]. apply (covers_elem _ c); [done|unfold in_area; lia].
Qed.

(** A node swallows its neighbour. *)
Lemma f_absorb_spec l s T1 p a c b T2 O Rr Rm n :
  f_ok l s (T1 ++ (p, a) :: (c, b) :: T2) O Rr Rm n -> 0 <= a.2 + b.2 < 2 ^ 64 ->
  wp (let* c' := fva_get c in
      fva_upd p (fun p => MkFva (f_next p) (f_start p) (wrap64 (f_size p + f_size c'))) ;;
      fva_upd p (with_f_next (f_next c')) ;; free_fva_node raw_kfree c)
     (fun _ s' => f_ok l s' (T1 ++ (p, (a.1, a.2 + b.2)) :: T2) O Rr Rm n /\ f_frame s s') s.
Proof.
  intros Hok Hlim. destruct (seg_middle _ _ _ _ _ _ _ _ _ (fo_T _ _ _ _ _ _ _ Hok)) as (v & Hv & Hd & Hp & _ & Hc).
  destruct Hc as (_ & Hc0 & vc & Hvc & Hdc & _).
  apply wp_bind. eapply fva_get_wp; [done|]. apply wp_bind. eapply fva_upd_wp; [done|].
  assert (f_start v = a.1 /\ f_size v = a.2) as [E1 E2] by (by subst a).
  assert (f_size vc = b.2) as -> by (by subst b). rewrite E1, E2. no_wrap.
  assert (p <> c) as Hpc.
  { pose proof (ptrs_middle _ _ _ _ _ (fo_nd _ _ _ _ _ _ _ Hok)) as (_ & Hp2 & _). cbn in Hp2. set_solver. }
  eapply (f_ok_update _ _ _ _ _ _ _ _ _ _ v (MkFva (f_next v) a.1 (a.2 + b.2))) in Hok; [|done..].
  set (s1 := f_write s p _) in *.
  change (T1 ++ (p, fdat (MkFva (f_next v) a.1 (a.2 + b.2))) :: (c, b) :: T2)
    with (T1 ++ [(p, (a.1, a.2 + b.2))] ++ (c, b) :: T2) in Hok. rewrite app_assoc in Hok.
  assert (pnodes (fpool s1) !! c = Some vc) as Hvc1 by (cbn; by rewrite lookup_insert_ne).
  pose proof (f_remove_spec _ _ _ _ _ _ _ _ _ _ _ Hok Hvc1) as HR. rewrite last_ptr_snoc in HR.
  unfold set_f_link in HR. destruct (Z.eqb_spec p 0); [done|]. cbn [negb] in HR.
  eapply wp_mono; [exact HR|]. intros _ s2 [H2 HF2]. rewrite <- app_assoc in H2. split; [done|].
  etransitivity; [|exact HF2]. by split.
Qed.

Lemma push_fva_spec l s T O Rr Rm n va bytes :
  f_ok l s T O Rr Rm (S n) -> areas_ok T.*2 -> 0 <= va -> 0 < bytes -> va + bytes <= 2 ^ 48 ->
  (forall x, in_range va bytes x -> ~ covers T.*2 x) ->
  wp (push_fva reserve_malloc raw_kfree l va bytes) (fun _ s' => pushed l s T O Rr Rm n va bytes s') s.
Proof.
  intros Hok Ha Hva Hb He Hno. unfold push_fva. apply wp_bind, wp_gets, wp_bind, wp_gets, wp_bind.
  rewrite (seg_head _ _ _ _ _ _ (fo_T _ _ _ _ _ _ _ Hok)).
  eapply wp_mono; [apply (fva_seek_spec l s T O Rr Rm (S n) va T []); try done|].
  { by eapply f_fuel_ok. }
  { set_solver. }
  intros r s0 (-> & T1 & T2 & -> & -> & HT1 & HT2).
  assert (f_ok l s (T1 ++ T2) O Rr Rm n) as Hok' by (destruct Hok; split; try done; by apply vm_mono).
  destruct (range_between T1.*2 T2.*2 va bytes) as [Hend Hnext]; try done; rewrite <- ?fmap_app; try done.
  assert (forall s' T', f_frame s s' -> f_ok l s' T' O Rr Rm n -> joined va bytes T1.*2 T2.*2 T'.*2 ->
    pushed l s (T1 ++ T2) O Rr Rm n va bytes s') as Hpush by (intros; by eapply joined_pushed).
  no_wrap. apply wp_bind. eapply join_prev_wp; [exact Hok'|done|..].
  - intros Hnp. apply wp_bind. eapply join_next_wp; [exact Hok'|..].
    + intros Hnn. apply wp_bind. eapply wp_mono; [by apply (f_new_spec l s T1 T2)|].
      intros q s1 (HF & _ & [vq Hvq] & Hfr). specialize (Hfr (va, bytes)). cbn [fst snd] in Hfr.
      apply wp_bind. eapply fva_upd_wp; [done|]. eapply wp_mono; [by apply f_fresh_link|].
      intros _ s2 [H2 HF2]. eapply Hpush; [|exact H2|].
      * transitivity s1; [done|]. etransitivity; [|exact HF2]. by split.
      * rewrite fmap_app. by apply JNone.
    + intros p a T2' -> Ee.
      pose proof (seg_middle _ _ _ _ _ _ _ _ _ (fo_T _ _ _ _ _ _ _ Hok)) as (v & Hv & Hd & Hp & _).
      destruct (area_bounds _ a Ha) as (B1 & B2 & B3); [rewrite fmap_app; set_solver|].
      assert (f_start v = a.1 /\ f_size v = a.2) as [E1 E2] by (by subst a).
      cbn [head_ptr]. eapply fva_upd_wp; [done|]. eapply Hpush; [by split|by eapply f_ok_update|].
      rewrite fmap_app. cbn [fmap list_fmap snd fdat f_start f_size]. rewrite E2.
      unfold fdat. cbn [f_start f_size]. no_wrap. by apply JNext.
  - intros T1' p a -> Ea.
    assert ((T1' ++ [(p, a)]) ++ T2 = T1' ++ (p, a) :: T2) as ET by by rewrite <- app_assoc.
    pose proof Hok' as Hok1. rewrite ET in Hok1.
    pose proof (seg_middle _ _ _ _ _ _ _ _ _ (fo_T _ _ _ _ _ _ _ Hok1)) as (v & Hv & Hd & Hp & _).
    destruct (area_bounds _ a Ha) as (B1 & B2 & B3); [rewrite !fmap_app; set_solver|].
    assert (f_start v = a.1 /\ f_size v = a.2) as [E1 E2] by (by subst a).
    assert (f_ok l (f_write s p (MkFva (f_next v) a.1 (a.2 + bytes))) (T1' ++ (p, (a.1, a.2 + bytes)) :: T2) O Rr Rm n)
      as Hok2 by by eapply (f_ok_update _ _ _ _ _ _ _ _ _ _ v (MkFva _ _ _)).
    rewrite last_ptr_snoc. apply wp_bind. eapply join_next_wp; [exact Hok'|..].
    + intros Hnn. apply wp_bind. eapply fva_upd_wp; [done|]. rewrite E1, E2. no_wrap. apply wp_ret.
      eapply Hpush; [by split|exact Hok2|]. rewrite !fmap_app. by apply JPrev.
    + intros c b T2' -> Ee. apply wp_bind. eapply fva_upd_wp; [done|]. rewrite E1, E2. no_wrap.
      cbn [head_ptr]. destruct (area_bounds _ b Ha) as (C1 & C2 & C3); [rewrite !fmap_app; set_solver|].
      eapply wp_mono; [apply (f_absorb_spec _ _ _ _ _ _ _ _ _ _ _ _ Hok2); cbn; lia|].
      intros _ s2 [H2 HF2]. eapply Hpush; [|exact H2|].
      * etransitivity; [|exact HF2]. by split.
      * rewrite !fmap_app. cbn [fst snd]. by apply JBoth.
Qed.
End Spec.

#[export] Existing Instance f_frame_preorder.
