(* ===== verification/VmallocReserved.v ===== *)
(** * VmallocReserved: the reserved areas of vmalloc and their physical blocks

    The address-ordered lists of [rva_node]s, each with its list of physical
    blocks in the mdt containers: their representation and the insertion of
    an area. *)

From Stdlib Require Import ZArith Lia.
From stdpp Require Import base tactics numbers gmap list.
From S2P Require Import Prelude KMath VmContainers VmContainersSpec Vmalloc VmLists VmallocSpec.

Open Scope Z_scope.

Definition rdat (n : rva_node) : area * vmalloc_mdt := ((r_start n, r_size n), r_mdt n).

(** ** Blocks in order *)

(** Blocks are kept in the order of their virtual addresses. *)
Fixpoint va_sorted (lo : Z) (l : list vmalloc_pa_info) : Prop :=
  match l with
  | [] => True
  | i :: l => lo <= pi_va i /\ va_sorted (pi_va i) l
  end.

(** Insertion behind the blocks with the same or a lower address. *)
Fixpoint insert_block (i : vmalloc_pa_info) (l : list vmalloc_pa_info) : list vmalloc_pa_info :=
  match l with
  | [] => [i]
  | j :: l => if pi_va i <? pi_va j then i :: j :: l else j :: insert_block i l
  end.

Lemma insert_block_sorted i l lo : lo <= pi_va i -> va_sorted lo l -> va_sorted lo (insert_block i l).
Proof.
  revert lo. induction l as [|j l IH]; intros lo Hlo Hs; cbn; [done|]. destruct Hs as [H1 H2].
  destruct (Z.ltb_spec (pi_va i) (pi_va j)); cbn; [split; [done|]; split; [lia|done]|].
  split; [done|]. by apply IH.
Qed.

Lemma length_insert_block i l : length (insert_block i l) = S (length l).
Proof. induction l as [|j l IH]; cbn; [done|]. destruct (_ <? _); cbn; [done|]. by rewrite IH. Qed.

Lemma insert_block_split i l1 l2 :
  (forall j, j ∈ l1 -> pi_va j <= pi_va i) -> (forall j, head l2 = Some j -> pi_va i < pi_va j) ->
  insert_block i (l1 ++ l2) = l1 ++ i :: l2.
Proof.
  intros H1 H2. induction l1 as [|j l1 IH]; cbn [app insert_block].
  - destruct l2 as [|j l2]; [done|]. cbn. specialize (H2 j eq_refl). by destruct (Z.ltb_spec (pi_va i) (pi_va j)); [|lia].
  - assert (pi_va j <= pi_va i) by (apply H1; set_solver).
    destruct (Z.ltb_spec (pi_va i) (pi_va j)); [lia|].
    f_equal. apply IH. set_solver.
Qed.

Section Reserved.
Context {A : Type} (reserve_malloc : A -> res (Z * A)) (raw_kfree : Z -> A -> res A).
Context (Inv : A -> gset Z -> nat -> Prop) `{PS : !PageSource reserve_malloc raw_kfree Inv}.
Implicit Types (s : vm_state (A := A)) (Rf Rr Rm : gset Z).

Abbreviation rseg s := (seg r_next rdat (pnodes (rpool s))).
Abbreviation mseg s := (seg m_next m_info (pnodes (mpool s))).
Abbreviation vm_mem := (vm_mem Inv).

(** ** The blocks of an area *)

Lemma mdt_free_loop_spec s Rf Rr Rm n cur C fuel :
  vm_mem s Rf Rr Rm n -> mseg s cur C 0 -> NoDup C.*1 -> list_to_set C.*1 ⊆ Rm -> (length C < fuel)%nat ->
  wp (mdt_free_loop raw_kfree fuel cur) (fun _ s' => exists p' a', s' = set_mpool p' a' s /\
    vm_mem s' Rf Rr (Rm ∖ list_to_set C.*1) n /\
    forall r, r ∈ Rm ∖ list_to_set C.*1 -> pnodes p' !! r = pnodes (mpool s) !! r) s.
Proof.
  revert s Rm cur C. induction fuel as [|fuel IH]; intros s Rm cur C Hm Hs Hnd Hsub Hf; [lia|].
  cbn [mdt_free_loop]. destruct C as [|[p d] C]; cbn [seg] in Hs.
  - subst cur. apply wp_ret. exists (mpool s), (pages s). split; [by destruct s|].
    replace (Rm ∖ list_to_set ([] : list (Z * vmalloc_pa_info)).*1) with Rm by set_solver. done.
  - destruct Hs as (-> & Hp & v & Hv & Hd & Hs). destruct (Z.eqb_spec p 0); [done|].
    cbn [fmap list_fmap fst] in *. apply NoDup_cons in Hnd as [Hpn Hnd].
    apply wp_bind. eapply mdt_get_wp; [done|]. apply wp_bind.
    eapply wp_mono; [eapply (mdt_free_node_spec reserve_malloc); [exact PS|exact Hm|set_solver]|].
    intros _ s1 (p1 & a1 & -> & Hm1 & Hk1).
    eapply wp_mono; [eapply (IH (set_mpool p1 a1 s) (Rm ∖ {[p]}) (m_next v) C); [done| |done|set_solver|cbn in Hf; lia]|].
    + eapply seg_frame; [|exact Hs]. intros q Hq. apply Hk1. set_solver.
    + intros _ s2 (p2 & a2 & -> & Hm2 & Hk2). exists p2, a2. split; [done|].
      replace (Rm ∖ list_to_set (p :: C.*1)) with (Rm ∖ {[p]} ∖ list_to_set C.*1) by set_solver.
      split; [done|]. intros r Hr. rewrite Hk2 by done. apply Hk1. set_solver.
Qed.

Lemma mdt_seek_spec s h va rest : forall seen fuel,
  mseg s h (seen ++ rest) 0 -> (length rest < fuel)%nat -> (forall i, i ∈ seen.*2 -> pi_va i <= va) ->
  wp (mdt_seek fuel va (head_ptr rest 0) (last_ptr seen 0)) (fun r s' => s' = s /\
    exists C1 C2, seen ++ rest = C1 ++ C2 /\ r = (head_ptr C2 0, last_ptr C1 0) /\
      (forall i, i ∈ C1.*2 -> pi_va i <= va) /\ (forall i, head C2.*2 = Some i -> va < pi_va i)) s.
Proof.
  induction rest as [|[p d] rest IH]; intros seen fuel Hs Hf Hseen;
    (destruct fuel as [|fuel]; [cbn in Hf; lia|]); cbn [mdt_seek head_ptr].
  - apply wp_ret. split; [done|]. by exists seen, [].
  - pose proof (seg_middle _ _ _ _ _ _ _ _ _ Hs) as (v & Hv & Hd & Hp & _ & Hn).
    destruct (Z.eqb_spec p 0); [done|]. apply wp_bind. eapply mdt_get_wp; [done|]. rewrite Hd.
    destruct (Z.leb_spec (pi_va d) va) as [L|L].
    + apply seg_head in Hn. rewrite Hn. next_node IH seen p d rest. apply IH; try done; [cbn in Hf; lia|].
      intros i. rewrite fmap_app. intros [?|Hi]%elem_of_app; [by apply Hseen|]. set_solver.
    + apply wp_ret. split; [done|]. exists seen, ((p, d) :: rest). split; [done|]. split; [done|].
      split; [done|]. by intros i [= <-].
Qed.

(** ** The lists of reserved areas *)

Abbreviation rlist := (list (Z * (area * vmalloc_mdt))).
Abbreviation chains := (Z -> list (Z * vmalloc_pa_info)).

Definition set_chain (ch : chains) (p : Z) (C : list (Z * vmalloc_pa_info)) : chains :=
  fun x => if decide (x = p) then C else ch x.

(** The addresses of the block nodes of all areas in [ps]. *)
Definition chain_ptrs (ch : chains) (ps : list Z) : list Z := ps ≫= fun p => (ch p).*1.

Lemma chain_ptrs_app ch ps qs : chain_ptrs ch (ps ++ qs) = chain_ptrs ch ps ++ chain_ptrs ch qs.
Proof. apply bind_app. Qed.

Lemma chain_ptrs_elem ch ps r : r ∈ chain_ptrs ch ps <-> exists p, p ∈ ps /\ r ∈ (ch p).*1.
Proof. unfold chain_ptrs. rewrite list_elem_of_bind. naive_solver. Qed.

Lemma chain_ptrs_other ch ps p C : p ∉ ps -> chain_ptrs (set_chain ch p C) ps = chain_ptrs ch ps.
Proof.
  induction ps as [|x ps IH]; [done|]. intros [Hx Hp]%not_elem_of_cons. unfold chain_ptrs in *.
  rewrite !bind_cons, IH by done. unfold set_chain at 1. by rewrite decide_False.
Qed.

(** List [l] holds the areas [T] and the other list [O], with the blocks
    [ch]; these are all the reserved-area and block nodes there are. *)
Record r_ok (l : vmalloc_lists) s (T O : rlist) (ch : chains) Rf (n : nat) : Prop := {
  ro_T : rseg s (rva_head l s) T 0;
  ro_O : rseg s (rva_head (other l) s) O 0;
  ro_nd : NoDup (T.*1 ++ O.*1);
  ro_ch p d : (p, d) ∈ T ++ O -> mseg s (pa_list d.2) (ch p) 0 /\
    pa_count d.2 = wrap32 (Z.of_nat (length (ch p)));
  ro_mnd : NoDup (chain_ptrs ch (T.*1 ++ O.*1));
  ro_mem : vm_mem s Rf (list_to_set (T.*1 ++ O.*1)) (list_to_set (chain_ptrs ch (T.*1 ++ O.*1))) n
}.

Record r_frame s s' : Prop := {
  rf_fpool : fpool s' = fpool s;
  rf_fk : fva_kmap_list s' = fva_kmap_list s;
  rf_fd : fva_dynamic_list s' = fva_dynamic_list s;
  rf_sp : mm_addr_space s' = mm_addr_space s
}.

#[local] Instance r_frame_preorder : PreOrder r_frame.
Proof. split; [by split|]. intros s1 s2 s3 [] []. split; congruence. Qed.

Lemma r_ok_swap l s T O ch Rf n : r_ok l s T O ch Rf n -> r_ok (other l) s O T ch Rf n.
Proof.
  intros [H1 H2 H3 H4 H5 H6]. split; [done|by destruct l|by rewrite (comm app)| | |].
  - intros p d Hp. apply H4. set_solver.
  - rewrite !chain_ptrs_app in *. by rewrite (comm app).
  - rewrite !chain_ptrs_app, !list_to_set_app_L in *.
    by rewrite (comm_L (∪) (list_to_set O.*1)), (comm_L (∪) (list_to_set (chain_ptrs ch O.*1))).
Qed.

Lemma set_r_link_wp l s (T : rlist) e x Rf Rr Rm n (Q : unit -> vm_state -> Prop) :
  vm_mem s Rf Rr Rm n -> list_to_set T.*1 ⊆ Rr -> NoDup T.*1 -> rseg s (rva_head l s) T e ->
  (forall s', vm_mem s' Rf Rr Rm n -> r_frame s s' -> mpool s' = mpool s -> rseg s' (rva_head l s') T x ->
     rva_head (other l) s' = rva_head (other l) s ->
     (forall q, q ∉ T.*1 -> pnodes (rpool s') !! q = pnodes (rpool s) !! q) -> Q tt s') ->
  wp (set_r_link l (last_ptr T 0) x) Q s.
Proof.
  intros Hm HT Hnd Hseg HQ. unfold set_r_link. destruct T as [|[p d] T _] using rev_ind.
  - cbn. apply wp_modify, HQ; try done; by destruct l, Hm.
  - rewrite last_ptr_snoc. pose proof (seg_middle _ _ _ _ _ _ _ _ _ Hseg) as (v & Hv & Hd & Hp & _ & _).
    destruct (Z.eqb_spec p 0); [done|]. cbn [negb]. eapply rva_upd_wp; [done|].
    rewrite fmap_app in HT. cbn in HT. apply HQ.
    + apply vm_r_write; [done|]. set_solver.
    + by split.
    + done.
    + assert (rva_head l (r_write s p (with_r_next x v)) = rva_head l s) as -> by by destruct l.
      by apply (seg_relink _ _ _ _ _ _ _ e v).
    + by destruct l.
    + intros q Hq. apply lookup_insert_ne. intros <-. apply Hq. rewrite fmap_app. set_solver.
Qed.

Lemma rva_seek_spec s h start rest : forall seen fuel,
  rseg s h (seen ++ rest) 0 -> (length rest < fuel)%nat -> (forall d, d ∈ seen.*2 -> d.1.1 < start) ->
  wp (rva_seek fuel start (head_ptr rest 0) (last_ptr seen 0)) (fun r s' => s' = s /\
    exists T1 T2, seen ++ rest = T1 ++ T2 /\ r = (head_ptr T2 0, last_ptr T1 0) /\
      (forall d, d ∈ T1.*2 -> d.1.1 < start) /\ (forall d, head T2.*2 = Some d -> start <= d.1.1)) s.
Proof.
  induction rest as [|[p d] rest IH]; intros seen fuel Hs Hf Hseen;
    (destruct fuel as [|fuel]; [cbn in Hf; lia|]); cbn [rva_seek head_ptr].
  - apply wp_ret. split; [done|]. by exists seen, [].
  - pose proof (seg_middle _ _ _ _ _ _ _ _ _ Hs) as (v & Hv & Hd & Hp & _ & Hn).
    destruct (Z.eqb_spec p 0); [done|]. apply wp_bind. eapply rva_get_wp; [done|].
    assert (r_start v = d.1.1) as -> by (by subst d). destruct (Z.ltb_spec d.1.1 start) as [L|L].
    + apply seg_head in Hn. rewrite Hn. next_node IH seen p d rest. apply IH; try done; [cbn in Hf; lia|].
      intros i. rewrite fmap_app. intros [?|Hi]%elem_of_app; [by apply Hseen|]. set_solver.
    + apply wp_ret. split; [done|]. exists seen, ((p, d) :: rest). split; [done|]. split; [done|].
      split; [done|]. by intros i [= <-].
Qed.

Lemma r_fuel_ok l s T O ch Rf n : r_ok l s T O ch Rf n -> (length T < r_fuel s)%nat.
Proof.
  intros [HT _ Hnd _ _ _]. apply NoDup_app in Hnd as (Hnd & _).
  apply (seg_length _ _ _ _ _ _ Hnd) in HT. unfold r_fuel. lia.
Qed.

(** Chains are read from the mdt memory only. *)
Lemma chain_keep s s' h C e : mpool s' = mpool s -> mseg s h C e -> mseg s' h C e.
Proof. by intros ->. Qed.

(** A new area node [q] between [T1] and [T2], with an empty chain. *)
Lemma r_insert_spec l s T1 T2 O ch Rf n start bytes m :
  r_ok l s (T1 ++ T2) O ch Rf (S n) -> pa_list m = 0 -> pa_count m = 0 ->
  wp (let* node := get_new_rva_node reserve_malloc in
      rva_upd node (fun _ => MkRva (head_ptr T2 0) start bytes m) ;; set_r_link l (last_ptr T1 0) node ;; ret node)
     (fun q s' => r_ok l s' (T1 ++ (q, ((start, bytes), m)) :: T2) O (set_chain ch q []) Rf n /\ r_frame s s') s.
Proof.
  intros [HT HO Hnd Hch Hmnd Hm] Hl Hcnt. apply seg_app in HT as (c & HT1 & HT2).
  pose proof (seg_head _ _ _ _ _ _ HT2) as ->.
  apply wp_bind. eapply wp_mono; [by eapply (rva_new_spec reserve_malloc raw_kfree)|].
  intros q s1 (Hq & Hq0 & p' & a' & -> & Hm1 & Hk1).
  rewrite not_elem_of_list_to_set, fmap_app, <- app_assoc in Hq. rewrite fmap_app, <- app_assoc in *.
  destruct (vm_r_read Inv _ _ _ _ _ q Hm1) as [vq Hvq]; [set_solver|].
  apply wp_bind. eapply rva_upd_wp; [exact Hvq|].
  set (s2 := r_write _ q _).
  assert (vm_mem s2 Rf ({[q]} ∪ list_to_set (T1.*1 ++ T2.*1 ++ O.*1))
    (list_to_set (chain_ptrs ch (T1.*1 ++ T2.*1 ++ O.*1))) n) as Hm2 by (apply vm_r_write; [done|set_solver]).
  assert (forall h, rva_head h s2 = rva_head h s) as Hh by by intros [].
  assert (forall r, r ∈ T1.*1 ++ T2.*1 ++ O.*1 -> pnodes (rpool s2) !! r = pnodes (rpool s) !! r) as Hk2.
  { intros r Hr. cbn. rewrite lookup_insert_ne by (intros ->; done). apply Hk1. set_solver. }
  pose proof Hnd as (Hn1 & Hn2 & Hn3)%NoDup_app.
  apply wp_bind. eapply set_r_link_wp; [exact Hm2|set_solver|done| |].
  { rewrite Hh. eapply seg_frame; [|exact HT1]. intros r Hr. apply Hk2. set_solver. }
  intros s3 Hm3 HF3 Hmp3 Hs3 Ho3 Hk3. apply wp_ret.
  assert (forall r, r ∈ T2.*1 ++ O.*1 -> pnodes (rpool s3) !! r = pnodes (rpool s) !! r) as Hk4.
  { intros r Hr. rewrite Hk3 by (intros ?; by apply (Hn2 r)). apply Hk2. set_solver. }
  assert ((T1 ++ (q, (start, bytes, m)) :: T2).*1 ++ O.*1 ≡ₚ q :: T1.*1 ++ T2.*1 ++ O.*1) as EP.
  { rewrite fmap_app, <- app_assoc. cbn. symmetry. apply Permutation_middle. }
  assert (chain_ptrs (set_chain ch q []) ((T1 ++ (q, (start, bytes, m)) :: T2).*1 ++ O.*1) ≡ₚ
          chain_ptrs ch (T1.*1 ++ T2.*1 ++ O.*1)) as EC.
  { unfold chain_ptrs at 1. rewrite EP. rewrite bind_cons. unfold set_chain at 1. rewrite decide_True by done. cbn [fmap list_fmap app].
    fold (chain_ptrs (set_chain ch q []) (T1.*1 ++ T2.*1 ++ O.*1)). by rewrite chain_ptrs_other. }
  split; [split|].
  - apply seg_app. exists q. split; [exact Hs3|]. split; [done|]. split; [done|].
    exists (MkRva (head_ptr T2 0) start bytes m). rewrite Hk3 by set_solver. split; [apply lookup_insert_eq|].
    split; [done|]. cbn. eapply seg_frame; [|exact HT2]. intros r Hr. apply Hk4. set_solver.
  - rewrite Ho3, Hh. eapply seg_frame; [|exact HO]. intros r Hr. apply Hk4. set_solver.
  - rewrite EP. by apply NoDup_cons.
  - intros r d Hr. unfold set_chain. case_decide as Er.
    + subst r. assert ((q, d) = (q, (start, bytes, m))) as [= ->]; [|cbn [snd seg length]; by rewrite Hl, Hcnt].
      rewrite <- app_assoc in Hr. cbn [app] in Hr. rewrite !elem_of_app, elem_of_cons, elem_of_app in Hr.
      assert (forall T (x : area * vmalloc_mdt), (q, x) ∈ T -> q ∈ T.*1) as Hin.
      { intros T x Hx. apply list_elem_of_fmap. by exists (q, x). }
      destruct Hr as [Hr|[Hr|[Hr|Hr]]]; [..|]; try done; apply Hin in Hr; set_solver.
    + assert ((r, d) ∈ T1 ++ T2 ++ O) as Hr' by (rewrite <- app_assoc in Hr; set_solver).
      destruct (Hch r d Hr') as [H1 H2]. split; [|done]. eapply chain_keep; [exact Hmp3|]. done.
  - by rewrite EC.
  - rewrite EC. replace (list_to_set ((T1 ++ (q, (start, bytes, m)) :: T2).*1 ++ O.*1) : gset Z)
      with ({[q]} ∪ list_to_set (T1.*1 ++ T2.*1 ++ O.*1) : gset Z); [done|]. rewrite EP. set_solver.
  - etransitivity; [|exact HF3]. by split.
Qed.

Definition area_mdt (tag : Z) (cfg : vmalloc_cfg) : vmalloc_mdt :=
  MkMdt (MkArea tag (vc_use_kmap cfg) (vc_assign_pa cfg) (vc_device_mem cfg) (vc_permanent cfg)) 0 0.

Lemma push_rva_spec l s T O ch Rf n pgs start tag cfg :
  r_ok l s T O ch Rf (S n) ->
  wp (push_rva reserve_malloc l pgs start tag cfg) (fun q s' => r_frame s s' /\
    exists T1 T2, T = T1 ++ T2 /\ (forall d, d ∈ T1.*2 -> d.1.1 < start) /\
      (forall d, head T2.*2 = Some d -> start <= d.1.1) /\
      r_ok l s' (T1 ++ (q, ((start, wrap64 (pgs * PAGE_SIZE)), area_mdt tag cfg)) :: T2) O (set_chain ch q []) Rf n) s.
Proof.
  intros Hok. unfold push_rva. apply wp_bind, wp_gets, wp_bind, wp_gets, wp_bind.
  rewrite (seg_head _ _ _ _ _ _ (ro_T _ _ _ _ _ _ _ Hok)).
  eapply wp_mono; [apply (rva_seek_spec s (rva_head l s) start T []); [apply Hok|by eapply r_fuel_ok|set_solver]|].
  intros r s0 (-> & T1 & T2 & ET & -> & H1 & H2). cbn [app] in ET. subst T.
  eapply wp_mono; [by apply (r_insert_spec l s T1 T2)|]. intros q s' [H3 HF].
  split; [done|]. by exists T1, T2.
Qed.
End Reserved.

#[export] Existing Instance r_frame_preorder.
