(* ===== verification/VmallocBlocks.v ===== *)
(** * VmallocBlocks: removing reserved areas, recording their blocks

    Finding and removing an area of the reserved lists, recording a physical
    block with an area and reading the blocks back. *)

From Stdlib Require Import ZArith Lia.
From stdpp Require Import base tactics numbers gmap list.
From S2P Require Import Prelude KMath VmContainers VmContainersSpec Vmalloc VmLists VmallocSpec VmallocReserved.

Open Scope Z_scope.

Section Blocks.
Context {A : Type} (reserve_malloc : A -> res (Z * A)) (raw_kfree : Z -> A -> res A).
Context (Inv : A -> gset Z -> nat -> Prop) `{PS : !PageSource reserve_malloc raw_kfree Inv}.
Implicit Types (s : vm_state (A := A)) (Rf Rr Rm : gset Z).

Abbreviation rseg s := (seg r_next rdat (pnodes (rpool s))).
Abbreviation mseg s := (seg m_next m_info (pnodes (mpool s))).
Abbreviation rlist := (list (Z * (area * vmalloc_mdt))).
Abbreviation vm_mem := (vm_mem Inv).
Abbreviation r_ok := (r_ok Inv).

(** ** Finding and removing an area *)

Lemma rva_null s Rf Rr Rm n : vm_mem s Rf Rr Rm n -> pnodes (rpool s) !! 0 = None.
Proof.
  intros Hm. apply eq_None_not_Some. intros Hs%(pi_nodes _ _ _ (vm_r _ _ _ _ _ _ Hm)).
  destruct Hs as (c & i & [k Hc]%elem_of_dom & Hi & E). destruct (pi_cont _ _ _ (vm_r _ _ _ _ _ _ Hm) c k Hc) as [Hp _].
  by apply (node_addr_nonzero rva_layout rva_layout_ok c i).
Qed.

Lemma rva_get_ok s p v : pnodes (rpool s) !! p = Some v -> rva_get p s = Ok (v, s).
Proof. intros Hv. unfold rva_get, with_rpool, get_n, bind, gets. cbn. rewrite Hv. cbn. by destruct s. Qed.

(** The walk reaches the first node with the sought start. *)
Lemma find_rva_loop_found s h start p d T2 T1 : forall seen fuel,
  rseg s h (seen ++ T1 ++ (p, d) :: T2) 0 -> (forall d', d' ∈ T1.*2 -> d'.1.1 <> start) -> d.1.1 = start ->
  (length T1 < fuel)%nat ->
  find_rva_loop fuel start (head_ptr (T1 ++ (p, d) :: T2) 0) (last_ptr seen 0) s =
    Ok ((p, last_ptr (seen ++ T1) 0), s).
Proof.
  induction T1 as [|[q e] T1 IH]; intros seen fuel Hs Hne Hd Hf;
    (destruct fuel as [|fuel]; [cbn in Hf; lia|]); cbn [find_rva_loop head_ptr app] in *.
  - pose proof (seg_middle _ _ _ _ _ _ _ _ _ Hs) as (v & Hv & Hdv & _).
    erewrite bind_ok; [|by apply rva_get_ok]. assert (r_start v = start) as -> by (by subst d).
    by rewrite Z.eqb_refl, app_nil_r.
  - pose proof (seg_middle _ _ _ _ _ _ _ _ _ Hs) as (v & Hv & Hdv & _ & _ & Hn).
    erewrite bind_ok; [|by apply rva_get_ok].
    assert (r_start v <> start) as Hr by (assert (e.1.1 <> start) by (apply Hne; set_solver); by subst e).
    destruct (Z.eqb_spec (r_start v) start); [done|]. apply seg_head in Hn. rewrite Hn.
    specialize (IH (seen ++ [(q, e)]) fuel). rewrite last_ptr_snoc, <- !app_assoc in IH.
    apply IH; try done; [|cbn in Hf; lia]. intros d' Hd'. apply Hne. set_solver.
Qed.

(** With no such node the walk dereferences the null link behind the last. *)
Lemma find_rva_loop_absent s h start Rf Rr Rm n rest : forall seen fuel pv,
  vm_mem s Rf Rr Rm n -> rseg s h (seen ++ rest) 0 -> (forall d, d ∈ rest.*2 -> d.1.1 <> start) ->
  (length rest < fuel)%nat ->
  find_rva_loop fuel start (head_ptr rest 0) pv s = Err EFault.
Proof.
  induction rest as [|[q e] rest IH]; intros seen fuel pv Hm Hs Hne Hf;
    (destruct fuel as [|fuel]; [cbn in Hf; lia|]); cbn [find_rva_loop head_ptr] in *.
  - apply bind_err. unfold rva_get, with_rpool, get_n, bind, gets. cbn. by rewrite (rva_null _ _ _ _ _ Hm).
  - pose proof (seg_middle _ _ _ _ _ _ _ _ _ Hs) as (v & Hv & Hdv & _ & _ & Hn).
    erewrite bind_ok; [|by apply rva_get_ok].
    assert (r_start v <> start) as Hr by (assert (e.1.1 <> start) by (apply Hne; set_solver); by subst e).
    destruct (Z.eqb_spec (r_start v) start); [done|]. apply seg_head in Hn. rewrite Hn.
    apply (IH (seen ++ [(q, e)])); [done|by rewrite <- app_assoc| |cbn in Hf; lia].
    intros d Hd. apply Hne. set_solver.
Qed.

Lemma chain_ptrs_middle ch ps p qs :
  chain_ptrs ch (ps ++ p :: qs) ≡ₚ (ch p).*1 ++ chain_ptrs ch (ps ++ qs).
Proof.
  change (ps ++ p :: qs) with (ps ++ [p] ++ qs). rewrite !chain_ptrs_app.
  unfold chain_ptrs at 2. rewrite bind_cons. cbn [mbind list_bind]. rewrite app_nil_r.
  rewrite !app_assoc. f_equiv. apply Permutation_app_comm.
Qed.

(** Releasing the blocks of an area and then its node. *)
Lemma vmalloc_pa_mdt_free_spec s Rf Rr Rm n p v C :
  vm_mem s Rf Rr Rm n -> p ∈ Rr -> pnodes (rpool s) !! p = Some v ->
  mseg s (pa_list (r_mdt v)) C 0 -> NoDup C.*1 -> list_to_set C.*1 ⊆ Rm ->
  wp (vmalloc_pa_mdt_free raw_kfree p) (fun _ s' => vm_mem s' Rf Rr (Rm ∖ list_to_set C.*1) n /\
    exists p' a', s' = r_write (set_mpool p' a' s) p (with_pa_mdt 0 0 v) /\
    forall r, r ∈ Rm ∖ list_to_set C.*1 -> pnodes p' !! r = pnodes (mpool s) !! r) s.
Proof.
  intros Hm Hp Hv HC Hnd Hsub. unfold vmalloc_pa_mdt_free. apply wp_bind. eapply rva_get_wp; [done|].
  apply wp_bind, wp_gets, wp_bind. eapply wp_mono; [eapply (mdt_free_loop_spec reserve_malloc raw_kfree Inv); try done|].
  { apply (seg_length _ _ _ _ _ _ Hnd) in HC. unfold m_fuel. lia. }
  intros _ s1 (p' & a' & -> & Hm1 & Hk1). eapply rva_upd_wp; [exact Hv|].
  split; [by apply vm_r_write|]. by exists p', a'.
Qed.

Lemma r_ptrs_middle (T1 : rlist) p d T2 (O : rlist) :
  NoDup ((T1 ++ (p, d) :: T2).*1 ++ O.*1) ->
  p ∉ T1.*1 ++ T2.*1 ++ O.*1 /\ NoDup (T1.*1 ++ T2.*1 ++ O.*1).
Proof.
  rewrite fmap_app, <- app_assoc. cbn [fmap list_fmap fst app]. rewrite <- Permutation_middle.
  by intros [? ?]%NoDup_cons.
Qed.

Lemma r_remove_spec l s T1 p d T2 O ch Rf n v :
  r_ok l s (T1 ++ (p, d) :: T2) O ch Rf n -> pnodes (rpool s) !! p = Some v ->
  wp (set_r_link l (last_ptr T1 0) (r_next v) ;; vmalloc_pa_mdt_free raw_kfree p ;; free_rva_node raw_kfree p)
     (fun _ s' => r_ok l s' (T1 ++ T2) O ch Rf n /\ r_frame s s') s.
Proof.
  intros [HT HO Hnd Hch Hmnd Hm] Hv. destruct (r_ptrs_middle _ _ _ _ _ Hnd) as [Hp Hnd'].
  pose proof Hnd' as (Hn1 & Hn2 & Hn3)%NoDup_app.
  apply seg_middle in HT as (v0 & Hv0 & Hd & Hp0 & HT1 & HT2). rewrite Hv in Hv0. injection Hv0 as <-.
  destruct (Hch p d) as [Hc _]; [set_solver|].
  assert ((T1 ++ (p, d) :: T2).*1 ++ O.*1 = T1.*1 ++ p :: T2.*1 ++ O.*1) as EP by (rewrite fmap_app, <- app_assoc; done).
  rewrite EP in *. rewrite chain_ptrs_middle in Hmnd. apply NoDup_app in Hmnd as (Hc1 & Hc2 & Hc3).
  assert (list_to_set (chain_ptrs ch (T1.*1 ++ p :: T2.*1 ++ O.*1)) =
    (list_to_set (ch p).*1 ∪ list_to_set (chain_ptrs ch (T1.*1 ++ T2.*1 ++ O.*1)) : gset Z)) as EC.
  { rewrite <- list_to_set_app_L. apply list_to_set_perm_L, chain_ptrs_middle. }
  rewrite EC in Hm. apply wp_bind. eapply (set_r_link_wp reserve_malloc raw_kfree Inv); [exact Hm|set_solver|done|exact HT1|].
  intros s1 Hm1 HF1 Hmp1 Hs1 Ho1 Hk1.
  assert (pnodes (rpool s1) !! p = Some v) as Hv1 by (rewrite Hk1; [done|set_solver]).
  apply wp_bind. eapply wp_mono; [eapply (vmalloc_pa_mdt_free_spec s1 _ _ _ _ p v (ch p)); try done|].
  { set_solver. }
  { rewrite Hmp1. by subst d. }
  { set_solver. }
  intros _ s2 (Hm2 & p2 & a2 & E2 & Hk2).
  eapply wp_mono; [eapply (rva_free_spec reserve_malloc raw_kfree Inv); [exact Hm2|set_solver]|].
  intros _ s3 (p3 & a3 & E3 & Hm3 & Hk3).
  assert (forall r, r ∈ T1.*1 ++ T2.*1 ++ O.*1 -> pnodes (rpool s3) !! r = pnodes (rpool s1) !! r) as Hr.
  { intros r Hr. rewrite E3. cbn. rewrite Hk3 by (clear -Hr Hp; set_solver). rewrite E2. cbn.
    apply lookup_insert_ne. intros <-. done. }
  assert (forall r, r ∈ T2.*1 ++ O.*1 -> pnodes (rpool s3) !! r = pnodes (rpool s) !! r) as Hr'.
  { intros r Hin. rewrite Hr by set_solver. apply Hk1. intros ?. by apply (Hn2 r). }
  assert (forall r, r ∈ chain_ptrs ch (T1.*1 ++ T2.*1 ++ O.*1) -> pnodes (mpool s3) !! r = pnodes (mpool s) !! r) as Hmk.
  { intros r Hin. rewrite E3, E2. cbn. rewrite Hk2; [by rewrite Hmp1|]. specialize (Hc2 r).
    rewrite elem_of_difference, elem_of_union, !elem_of_list_to_set. tauto. }
  assert (forall h, rva_head h s3 = rva_head h s1) as Hh by (rewrite E3, E2; by intros []).
  assert ((T1 ++ T2).*1 ++ O.*1 = T1.*1 ++ T2.*1 ++ O.*1) as EP' by by rewrite fmap_app, <- app_assoc.
  split; [split|]; rewrite ?EP'.
  - rewrite Hh. apply seg_app. exists (r_next v). split.
    + eapply seg_frame; [|exact Hs1]. intros r Hin. apply Hr. set_solver.
    + eapply seg_frame; [|exact HT2]. intros r Hin. apply Hr'. set_solver.
  - rewrite Hh, Ho1. eapply seg_frame; [|exact HO]. intros r Hin. apply Hr'. set_solver.
  - done.
  - intros r e Hin. destruct (Hch r e) as [H1 H2]; [set_solver|]. split; [|done].
    eapply seg_frame; [|exact H1]. intros q Hq. apply Hmk. apply chain_ptrs_elem. exists r. split; [|done].
    rewrite <- EP', <- fmap_app. apply list_elem_of_fmap. by exists (r, e).
  - done.
  - replace (list_to_set (T1.*1 ++ T2.*1 ++ O.*1) : gset Z)
      with (list_to_set (T1.*1 ++ p :: T2.*1 ++ O.*1) ∖ {[p]} : gset Z) by (clear -Hp; set_solver).
    replace (list_to_set (chain_ptrs ch (T1.*1 ++ T2.*1 ++ O.*1)) : gset Z)
      with ((list_to_set (ch p).*1 ∪ list_to_set (chain_ptrs ch (T1.*1 ++ T2.*1 ++ O.*1)) : gset Z)
              ∖ list_to_set (ch p).*1); [done|].
    revert Hc2. generalize (chain_ptrs ch (T1.*1 ++ T2.*1 ++ O.*1)). intros C Hc2. clear -Hc2. set_solver.
  - transitivity s1; [done|]. rewrite E3, E2. by split.
Qed.

(** ** Recording a block *)

Lemma set_chain_eq ch p C : set_chain ch p C p = C.
Proof. unfold set_chain. by rewrite decide_True. Qed.

Lemma set_chain_ne ch p C x : x <> p -> set_chain ch p C x = ch x.
Proof. intros. unfold set_chain. by rewrite decide_False. Qed.

(** The area at [p] gets one more block node [q]; nothing else changes. *)
Lemma r_ok_rechain l s s' T1 p d T2 O ch Rf n n' v v' q C' :
  r_ok l s (T1 ++ (p, d) :: T2) O ch Rf n -> pnodes (rpool s) !! p = Some v ->
  rpool s' = pool_write (rpool s) p v' -> r_next v' = r_next v -> (r_start v', r_size v') = d.1 ->
  (forall h, rva_head h s' = rva_head h s) ->
  mseg s' (pa_list (r_mdt v')) C' 0 -> pa_count (r_mdt v') = wrap32 (Z.of_nat (length C')) ->
  C'.*1 ≡ₚ q :: (ch p).*1 -> q ∉ chain_ptrs ch ((T1 ++ (p, d) :: T2).*1 ++ O.*1) ->
  (forall r, r ∈ chain_ptrs ch (T1.*1 ++ T2.*1 ++ O.*1) -> pnodes (mpool s') !! r = pnodes (mpool s) !! r) ->
  vm_mem s' Rf (list_to_set ((T1 ++ (p, d) :: T2).*1 ++ O.*1))
    ({[q]} ∪ list_to_set (chain_ptrs ch ((T1 ++ (p, d) :: T2).*1 ++ O.*1))) n' ->
  r_ok l s' (T1 ++ (p, (d.1, r_mdt v')) :: T2) O (set_chain ch p C') Rf n'.
Proof.
  intros [HT HO Hnd Hch Hmnd _] Hv Hrp Hnx Hd1 Hh HC Hcnt HP Hq Hmk Hm.
  destruct (r_ptrs_middle _ _ _ _ _ Hnd) as [Hp Hnd'].
  assert (forall e, (T1 ++ (p, e) :: T2).*1 ++ O.*1 = T1.*1 ++ p :: T2.*1 ++ O.*1) as EP
    by (intros e; rewrite fmap_app, <- app_assoc; done).
  rewrite EP in *.
  assert (chain_ptrs (set_chain ch p C') (T1.*1 ++ p :: T2.*1 ++ O.*1) ≡ₚ
          q :: chain_ptrs ch (T1.*1 ++ p :: T2.*1 ++ O.*1)) as EC.
  { rewrite !chain_ptrs_middle, set_chain_eq, chain_ptrs_other, HP by done. done. }
  apply seg_middle in HT as (v0 & Hv0 & Hd & Hp0 & HT1 & HT2). rewrite Hv in Hv0. injection Hv0 as <-.
  split; rewrite ?EP, ?Hh, ?Hrp; cbn [pool_write pnodes].
  - apply seg_app. exists p. split; [apply seg_write; [set_solver|done]|]. split; [done|]. split; [done|].
    exists v'. rewrite lookup_insert_eq. split; [done|]. split; [unfold rdat; by rewrite Hd1|].
    rewrite Hnx. apply seg_write; [set_solver|done].
  - apply seg_write; [set_solver|done].
  - done.
  - intros r e Hr. destruct (decide (r = p)) as [->|Hne].
    + rewrite set_chain_eq. assert (e = (d.1, r_mdt v')) as ->; [|done].
      assert (forall T x, (p, x) ∈ T -> p ∈ (T : rlist).*1) as Hin.
      { intros T x Hx. apply list_elem_of_fmap. by exists (p, x). }
      rewrite <- app_assoc in Hr. cbn [app] in Hr. rewrite !elem_of_app, elem_of_cons, elem_of_app in Hr.
      destruct Hr as [Hr|[Hr|[Hr|Hr]]]; try (apply Hin in Hr; set_solver). by injection Hr.
    + rewrite set_chain_ne by done. destruct (Hch r e) as [H1 H2]; [set_solver|]. split; [|done].
      eapply seg_frame; [|exact H1]. intros x Hx. apply Hmk, chain_ptrs_elem. exists r. split; [|done].
      rewrite <- !fmap_app. apply list_elem_of_fmap. exists (r, e). split; [done|]. set_solver.
  - rewrite EC. by apply NoDup_cons.
  - rewrite (list_to_set_perm_L _ _ EC). done.
Qed.

(** The test for an insertion in front. *)
Lemma mdt_first_wp s cur C va (Q : bool -> vm_state -> Prop) :
  mseg s cur C 0 ->
  ((forall i, head C.*2 = Some i -> va < pi_va i) -> Q true s) ->
  (forall x i C2, C = (x, i) :: C2 -> pi_va i <= va -> Q false s) ->
  wp (if cur =? 0 then ret true else let* c := mdt_get cur in ret (va <? pi_va (m_info c))) Q s.
Proof.
  intros HC HT HF. destruct C as [|[x i] C]; cbn [seg] in HC.
  - subst cur. cbn [Z.eqb]. apply wp_ret. by apply HT.
  - destruct HC as (-> & Hx & c & Hc & Hi & _). destruct (Z.eqb_spec x 0); [done|].
    apply wp_bind. eapply mdt_get_wp; [done|]. apply wp_ret. rewrite Hi.
    destruct (Z.ltb_spec va (pi_va i)); [apply HT; by intros ? [= <-]|by eapply HF].
Qed.

(** What the chain of the area at [p] tells about the other chains. *)
Lemma chain_of l s T1 p d T2 O ch Rf n :
  r_ok l s (T1 ++ (p, d) :: T2) O ch Rf n ->
  (forall r, r ∈ (ch p).*1 -> r ∈ chain_ptrs ch ((T1 ++ (p, d) :: T2).*1 ++ O.*1)) /\
  (forall r, r ∈ chain_ptrs ch (T1.*1 ++ T2.*1 ++ O.*1) ->
     r ∉ (ch p).*1 /\ r ∈ chain_ptrs ch ((T1 ++ (p, d) :: T2).*1 ++ O.*1)) /\ NoDup (ch p).*1.
Proof.
  intros [_ _ _ _ Hmnd _]. rewrite fmap_app, <- app_assoc in *. cbn [fmap list_fmap fst app] in *.
  setoid_rewrite chain_ptrs_middle. rewrite chain_ptrs_middle in Hmnd. apply NoDup_app in Hmnd as (H1 & H2 & _).
  split; [intros r Hr; apply elem_of_app; by left|]. split; [|done]. intros r Hr. split; [|apply elem_of_app; by right].
  intros Hr'. by apply (H2 r).
Qed.

(** The state after the push of a new node [q] between [C1] and [C2]. *)
Lemma push_finish l s s' T1 p d T2 O ch Rf n v pl q i C1 C2 (m2 : gmap Z vmalloc_pa_mdt) :
  r_ok l s (T1 ++ (p, d) :: T2) O ch Rf (S n) -> pnodes (rpool s) !! p = Some v -> rdat v = d ->
  q ∉ chain_ptrs ch ((T1 ++ (p, d) :: T2).*1 ++ O.*1) ->
  (forall r, r ∈ chain_ptrs ch ((T1 ++ (p, d) :: T2).*1 ++ O.*1) -> m2 !! r = pnodes (mpool s) !! r) ->
  ch p = C1 ++ C2 -> (forall j, j ∈ C1.*2 -> pi_va j <= pi_va i) ->
  (forall j, head C2.*2 = Some j -> pi_va i < pi_va j) ->
  rpool s' = pool_write (rpool s) p (with_pa_mdt pl (wrap32 (pa_count (r_mdt v) + 1)) v) ->
  (forall h, rva_head h s' = rva_head h s) -> r_frame s s' -> mseg s' pl (C1 ++ (q, i) :: C2) 0 ->
  (forall r, r ∉ (ch p).*1 -> r <> q -> pnodes (mpool s') !! r = m2 !! r) ->
  vm_mem s' Rf (list_to_set ((T1 ++ (p, d) :: T2).*1 ++ O.*1))
    ({[q]} ∪ list_to_set (chain_ptrs ch ((T1 ++ (p, d) :: T2).*1 ++ O.*1))) n ->
  r_frame s s' /\ exists pl C',
    r_ok l s' (T1 ++ (p, (d.1, MkMdt (mdt_info d.2) pl (wrap32 (pa_count d.2 + 1)))) :: T2) O
      (set_chain ch p C') Rf n /\ C'.*2 = insert_block i (ch p).*2.
Proof.
  intros Hok Hv Hd Hq Hm2 EC HC1 HC2 Hrp Hh HF Hseg Hkeep Hms. split; [done|].
  destruct (chain_of _ _ _ _ _ _ _ _ _ _ Hok) as (HCp & HCo & _).
  exists pl, (C1 ++ (q, i) :: C2). split; [|rewrite EC, !fmap_app; symmetry; by apply insert_block_split].
  replace (MkMdt (mdt_info d.2) pl (wrap32 (pa_count d.2 + 1)))
    with (r_mdt (with_pa_mdt pl (wrap32 (pa_count (r_mdt v) + 1)) v)) by (by subst d).
  eapply r_ok_rechain; try done; [by subst d| | |].
  - destruct (ro_ch _ _ _ _ _ _ _ _ Hok p d) as [_ Hcnt]; [set_solver|]. cbn. rewrite length_app. cbn. subst d.
    cbn in Hcnt. rewrite Hcnt, EC, length_app. unfold wrap. rewrite Zplus_mod_idemp_l. f_equal. lia.
  - rewrite EC, !fmap_app. cbn. symmetry. apply Permutation_middle.
  - intros r Hr. destruct (HCo r Hr) as [H1 H2]. rewrite Hkeep; [by apply Hm2|done|]. by intros ->.
Qed.

Lemma vmalloc_pa_mdt_push_spec l s T1 p d T2 O ch Rf n o pa va :
  r_ok l s (T1 ++ (p, d) :: T2) O ch Rf (S n) ->
  wp (vmalloc_pa_mdt_push reserve_malloc p o pa va) (fun _ s' => r_frame s s' /\ exists pl C',
    r_ok l s' (T1 ++ (p, (d.1, MkMdt (mdt_info d.2) pl (wrap32 (pa_count d.2 + 1)))) :: T2) O
      (set_chain ch p C') Rf n /\
    C'.*2 = insert_block (MkPaInfo pa va o) (ch p).*2) s.
Proof.
  intros Hok. pose proof (seg_middle _ _ _ _ _ _ _ _ _ (ro_T _ _ _ _ _ _ _ _ Hok)) as (v & Hv & Hd & _).
  destruct (ro_ch _ _ _ _ _ _ _ _ Hok p d) as [HC _]; [set_solver|].
  destruct (chain_of _ _ _ _ _ _ _ _ _ _ Hok) as (HCp & HCo & HCnd).
  pose proof (fun s' pl q i C1 C2 m2 => push_finish l s s' T1 p d T2 O ch Rf n v pl q i C1 C2 m2 Hok Hv Hd) as Hfin.
  pose proof (ro_mem _ _ _ _ _ _ _ _ Hok) as Hm. set (Ps := (T1 ++ (p, d) :: T2).*1 ++ O.*1) in *.
  assert (p ∈ (list_to_set Ps : gset Z)) as HpP.
  { apply elem_of_list_to_set. unfold Ps. rewrite fmap_app. clear. set_solver. }
  unfold vmalloc_pa_mdt_push. apply wp_bind. eapply rva_upd_wp; [exact Hv|]. set (s1 := r_write s p _).
  assert (vm_mem s1 Rf (list_to_set Ps) (list_to_set (chain_ptrs ch Ps)) (S n)) as Hm1
    by by apply vm_r_write.
  apply wp_bind. eapply wp_mono; [eapply (mdt_new_spec reserve_malloc raw_kfree Inv); exact Hm1|].
  intros q s2 (Hq & Hq0 & p2 & a2 & E2 & Hm2 & Hk2). rewrite not_elem_of_list_to_set in Hq.
  setoid_rewrite elem_of_list_to_set in Hk2.
  assert (q ∈ ({[q]} ∪ list_to_set (chain_ptrs ch Ps) : gset Z)) as Hqs by (clear; set_solver).
  destruct (vm_m_read Inv _ _ _ _ _ q Hm2) as [vq Hvq]; [done|]. subst s2.
  apply wp_bind. eapply mdt_upd_wp; [exact Hvq|]. apply wp_bind.
  eapply rva_get_wp; [apply lookup_insert_eq|]. cbn [with_pa_mdt r_mdt pa_list].
  assert (forall m, (forall r, r ∈ (ch p).*1 -> m !! r = pnodes p2 !! r) ->
    seg m_next m_info m (pa_list (r_mdt v)) (ch p) 0) as HC2.
  { intros m Hmm. eapply seg_frame; [|subst d; exact HC]. intros r Hr. rewrite Hmm, Hk2 by auto. done. }
  assert (forall r, r ∈ (ch p).*1 -> r <> q) as Hpq by (intros r Hr ->; auto).
  set (i := MkPaInfo pa va o) in *. set (s3 := m_write _ q _).
  assert (mseg s3 (pa_list (r_mdt v)) (ch p) 0) as HC3.
  { apply HC2. intros r Hr. cbn. apply lookup_insert_ne. by apply not_eq_sym, Hpq. }
  assert (vm_mem s3 Rf (list_to_set Ps) ({[q]} ∪ list_to_set (chain_ptrs ch Ps)) n) as Hm3
    by by apply vm_m_write.
  apply wp_bind. eapply mdt_first_wp; [exact HC3|..].
  - intros Hfirst. apply wp_bind. eapply mdt_upd_wp; [apply lookup_insert_eq|].
    eapply rva_upd_wp; [apply lookup_insert_eq|].
    apply (Hfin _ q q i [] (ch p) (pnodes p2)); try (done || by intros [] || by split); [set_solver|..].
    + cbn. unfold pool_write. cbn. by rewrite insert_insert_eq.
    + cbn. split; [done|]. split; [done|]. eexists. rewrite lookup_insert_eq. split; [done|]. split; [done|].
      apply HC2. intros r Hr. rewrite insert_insert_eq. by apply lookup_insert_ne, not_eq_sym, Hpq.
    + intros r Hr Hrq. cbn. rewrite insert_insert_eq. by apply lookup_insert_ne.
    + apply vm_r_write; [|done]. by apply vm_m_write.
  - intros x j C2 EC Hle. apply wp_bind, wp_gets, wp_bind. rewrite (seg_head _ _ _ _ _ _ HC3).
    eapply wp_mono; [apply (mdt_seek_spec reserve_malloc raw_kfree Inv s3 _ va (ch p) [] _ HC3); [|set_solver]|].
    { apply (seg_length _ _ _ _ _ _ HCnd) in HC3. unfold m_fuel. lia. }
    intros r s4 (-> & C1 & C3 & EC' & -> & HC1 & HC4). cbn [app] in EC'.
    destruct C1 as [|[y jy] C1 _] using rev_ind.
    { exfalso. cbn in EC'. rewrite EC in EC'. subst C3. specialize (HC4 j eq_refl). lia. }
    rewrite last_ptr_snoc. rewrite <- app_assoc in EC'. cbn [app] in EC'.
    assert (seg m_next m_info (pnodes p2) (pa_list (r_mdt v)) (C1 ++ (y, jy) :: C3) 0) as HC5 by (rewrite <- EC'; by apply HC2).
    pose proof (seg_middle _ _ _ _ _ _ _ _ _ HC5) as (ny & Hny & Hjy & _).
    assert (y ∈ (ch p).*1) as Hy by (rewrite EC', fmap_app; clear; set_solver).
    assert (q <> y) as Hyq by by apply not_eq_sym, Hpq.
    apply wp_bind. eapply mdt_upd_wp; [apply lookup_insert_eq|].
    eapply mdt_upd_wp; [cbn; rewrite !lookup_insert_ne by done; exact Hny|].
    apply (Hfin _ (pa_list (r_mdt v)) q i (C1 ++ [(y, jy)]) C3 (pnodes p2)); try (done || by intros [] || by split).
    + by rewrite EC', <- app_assoc.
    + cbn. rewrite insert_insert_eq, <- app_assoc. cbn [app].
      apply (seg_insert m_next m_info (pnodes p2) _ C1 y jy C3 0 ny q (MkPaMdt (head_ptr C3 0) i)); try done;
        rewrite <- EC'; auto.
    + intros r Hr Hrq. cbn. rewrite insert_insert_eq, !lookup_insert_ne; [done|done|]. intros ->. done.
    + apply vm_m_write; [by apply vm_m_write|]. apply elem_of_union_r, elem_of_list_to_set, HCp, Hy.
Qed.

(** ** Reading the blocks back *)

Lemma mdt_get_ok s p v : pnodes (mpool s) !! p = Some v -> mdt_get p s = Ok (v, s).
Proof. intros Hv. unfold mdt_get, with_mpool, get_n, bind, gets. cbn. rewrite Hv. cbn. by destruct s. Qed.

Lemma pa_info_loop_spec s count C : forall h i acc fuel,
  mseg s h C 0 -> (length C < fuel)%nat -> i + Z.of_nat (length C) <= count ->
  pa_info_loop fuel h count i acc s = Ok ((true, acc ++ C.*2), s).
Proof.
  induction C as [|[p d] C IH]; intros h i acc fuel Hs Hf Hi; (destruct fuel as [|fuel]; [cbn in Hf; lia|]);
    cbn [pa_info_loop seg] in *.
  - subst h. cbn. by rewrite app_nil_r.
  - destruct Hs as (-> & Hp & v & Hv & Hd & Hs). destruct (Z.eqb_spec p 0); [done|].
    cbn [length] in Hf, Hi. destruct (Z.leb_spec count i); [lia|].
    erewrite bind_ok; [|by apply mdt_get_ok]. rewrite Hd, (IH (m_next v)) by (done || lia).
    cbn. by rewrite <- app_assoc.
Qed.

(** All blocks, in order, when the buffer has room for them; nothing
    otherwise. *)
Lemma vmalloc_get_pa_info_spec l s T1 p d T2 O ch Rf n buf_size :
  r_ok l s (T1 ++ (p, d) :: T2) O ch Rf n -> Z.of_nat (length (ch p)) < 2 ^ 32 ->
  vmalloc_get_pa_info p buf_size s =
    Ok ((if buf_size <? Z.of_nat (length (ch p)) then (false, []) else (true, (ch p).*2)), s).
Proof.
  intros Hok Hlim. pose proof (seg_middle _ _ _ _ _ _ _ _ _ (ro_T _ _ _ _ _ _ _ _ Hok)) as (v & Hv & Hd & _).
  destruct (ro_ch _ _ _ _ _ _ _ _ Hok p d) as [HC Hcnt]; [set_solver|].
  destruct (chain_of _ _ _ _ _ _ _ _ _ _ Hok) as (_ & _ & HCnd).
  unfold vmalloc_get_pa_info. erewrite bind_ok; [|by apply rva_get_ok]. subst d. cbn in Hcnt, HC.
  rewrite Hcnt, wrap_small by (unfold u_range; lia).
  destruct (Z.ltb_spec buf_size (Z.of_nat (length (ch p)))); [done|].
  erewrite bind_ok; [|done]. rewrite (pa_info_loop_spec s _ (ch p)); [done|done| |lia].
  apply (seg_length _ _ _ _ _ _ HCnd) in HC. unfold m_fuel. lia.
Qed.
End Blocks.
