(* ===== verification/VmallocInv.v ===== *)
(** * VmallocInv: the state of vmalloc as a partition of two windows

    The free and the reserved areas of each list partition its window of the
    upper half: KMAP the addresses at which physical memory appears, DYNAMIC
    everything above.  This file states that invariant ([vm_inv]) and proves
    that the operations of vmalloc.c preserve it; each operation becomes an
    edit of the lists of areas. *)

From Stdlib Require Import ZArith Znumtheory Lia.
From stdpp Require Import base tactics numbers gmap list.
From S2P Require Import Prelude KMath PageAllocator VmContainers VmContainersSpec Vmalloc VmLists VmallocSpec VmallocReserved VmallocBlocks.

Open Scope Z_scope.

(** ** Windows *)

Definition win_lo (sp : Z) (l : vmalloc_lists) : Z :=
  match l with KMAP_LIST => 2 ^ 47 | DYNAMIC_LIST => 2 ^ 47 + sp end.
Definition win_hi (sp : Z) (l : vmalloc_lists) : Z :=
  match l with KMAP_LIST => 2 ^ 47 + sp | DYNAMIC_LIST => 2 ^ 48 end.

(** The free areas [F], coalesced, and the reserved areas [R] partition the
    window of [l]; all are made of whole pages. *)
Record window_ok (sp : Z) (l : vmalloc_lists) (F R : list area) : Prop := {
  wo_free : areas_ok F;
  wo_fpaged : paged F;
  wo_res : ordered (win_lo sp l) R;
  wo_rpaged : paged R;
  wo_cover x : win_lo sp l <= x < win_hi sp l <-> covers F x \/ covers R x;
  wo_disj x : covers F x -> covers R x -> False
}.

Definition space_ok (sp : Z) : Prop := 0 < sp < 2 ^ 47 /\ (PAGE_SIZE | sp).

Section Windows.
Context (sp : Z) (Hsp : space_ok sp).

Lemma win_bounds l x : win_lo sp l <= x < win_hi sp l -> 2 ^ 47 <= x < 2 ^ 48.
Proof. destruct Hsp. destruct l; cbn [win_lo win_hi]; lia. Qed.

Lemma covers_ordered_elem lo R a : ordered lo R -> a ∈ R -> covers R a.1.
Proof. intros Ho Ha. destruct (ordered_pos _ _ _ Ho Ha). apply (covers_elem _ a); [done|]. unfold in_area. lia. Qed.

Lemma reserved_bounds l F R a :
  window_ok sp l F R -> a ∈ R -> win_lo sp l <= a.1 /\ 0 < a.2 /\ a.1 + a.2 <= win_hi sp l.
Proof.
  intros HW Ha. destruct (ordered_pos _ _ _ (wo_res _ _ _ _ HW) Ha) as [H1 H2]. split; [done|]. split; [done|].
  assert (win_lo sp l <= a.1 + a.2 - 1 < win_hi sp l); [|lia]. apply (wo_cover _ _ _ _ HW). right.
  apply (covers_elem _ a); [done|]. unfold in_area. lia.
Qed.

(** Moving a free range to the reserved areas, and back. *)
Lemma window_reserve l F F' R1 R2 u b :
  window_ok sp l F (R1 ++ R2) -> 0 < b -> (PAGE_SIZE | u) -> (PAGE_SIZE | b) ->
  (forall x, in_range u b x -> covers F x) -> areas_ok F' -> paged F' ->
  (forall x, covers F' x <-> covers F x /\ ~ in_range u b x) ->
  (forall d, d ∈ R1 -> d.1 < u) -> (forall d, head R2 = Some d -> u <= d.1) ->
  window_ok sp l F' (R1 ++ (u, b) :: R2).
Proof.
  intros [H1 H2 H3 H4 H5 H6] Hb Hpu Hpb Hin Ha' Hp' Hc' Hr1 Hr2.
  assert (forall x, covers (R1 ++ (u, b) :: R2) x <-> covers (R1 ++ R2) x \/ in_range u b x) as HR.
  { intros x. autorewrite with areas. unfold in_area, in_range. cbn. intuition lia. }
  split; [done..| | | |].
  - apply ordered_insert; try done; cbn.
    + assert (win_lo sp l <= u < win_hi sp l); [|lia]. apply H5. left. apply Hin. unfold in_range. lia.
    + intros x Hx Hx'. apply (H6 x); [|done]. by apply Hin.
  - intros a. rewrite elem_of_app, elem_of_cons. intros [?|[->|?]]; [apply H4; set_solver|done|apply H4; set_solver].
  - intros x. rewrite H5, HR, Hc'. destruct (decide (u <= x < u + b)) as [D|D].
    + assert (in_range u b x) as D' by done. specialize (Hin x D'). tauto.
    + assert (~ in_range u b x) by done. tauto.
  - intros x [Hx Hn]%Hc' [Hr|Hr]%HR; [by apply (H6 x)|done].
Qed.

Lemma window_release l F F' R1 R2 u b :
  window_ok sp l F (R1 ++ (u, b) :: R2) -> areas_ok F' -> paged F' ->
  (forall x, covers F' x <-> covers F x \/ in_range u b x) ->
  window_ok sp l F' (R1 ++ R2).
Proof.
  intros [H1 H2 H3 H4 H5 H6] Ha' Hp' Hc'.
  assert (forall x, covers (R1 ++ (u, b) :: R2) x <-> covers (R1 ++ R2) x \/ in_range u b x) as HR.
  { intros x. autorewrite with areas. unfold in_area, in_range. cbn. intuition lia. }
  split; [done..| | | |].
  - by apply ordered_remove in H3.
  - intros a Ha. apply H4. set_solver.
  - intros x. rewrite H5, HR, Hc'. tauto.
  - intros x [Hx|Hx]%Hc' Hr; [apply (H6 x); [done|]; apply HR; by left|].
    destruct Hr as (a & Ha & Hxa). pose proof (ordered_around _ _ _ _ _ H3 Ha) as Hd.
    unfold in_range, in_area in *. cbn in Hd. lia.
Qed.

End Windows.

(** Free areas stay whole pages. *)
Lemma paged_covers F x : areas_ok F -> paged F ->
  covers F x <-> covers F (x / PAGE_SIZE * PAGE_SIZE).
Proof.
  intros Ha Hp. unfold covers, in_area. pose proof (Z.div_mod x PAGE_SIZE ltac:(done)) as E.
  pose proof (Z.mod_pos_bound x PAGE_SIZE ltac:(done)) as B. unfold PAGE_SIZE in *.
  assert (forall a, a ∈ F -> a.1 <= x < a.1 + a.2 <-> a.1 <= x / 4096 * 4096 < a.1 + a.2) as H.
  { intros a Hin. destruct (Hp a Hin) as [[i Hi] [j Hj]]. unfold PAGE_SIZE in *. split; nia. }
  split; intros (a & Hin & Hx); exists a; (split; [done|]); by apply H.
Qed.

Lemma spaced_gap_before lo l a : spaced lo l -> a ∈ l -> ~ covers l (a.1 - 1).
Proof.
  intros Hs Ha. apply list_elem_of_split in Ha as (l1 & l2 & ->).
  apply spaced_app in Hs as (H1 & H2 & H3 & H4). autorewrite with areas. unfold in_area.
  intros [Hx|[Hx|Hx]]; [|lia|].
  - apply (spaced_end lo) in Hx; [lia|done].
  - apply (spaced_bound _ _ _ H4) in Hx. lia.
Qed.

(** Coalesced areas that cover whole pages start and end at pages. *)
Lemma paged_of_covers F :
  areas_ok F -> (forall x, covers F x <-> covers F (x / PAGE_SIZE * PAGE_SIZE)) -> paged F.
Proof.
  intros Ha Hc a Hin. pose proof (area_bounds _ _ Ha Hin) as (B1 & B2 & _). destruct Ha as [Hs _].
  assert (covers F a.1) as C1 by (apply (covers_elem _ a); [done|unfold in_area; lia]).
  assert (covers F (a.1 + a.2 - 1)) as C2 by (apply (covers_elem _ a); [done|unfold in_area; lia]).
  pose proof (spaced_gap_before _ _ _ Hs Hin) as G1. pose proof (spaced_gap _ _ _ Hs Hin) as G2.
  assert (forall x, ~ (PAGE_SIZE | x) -> x / PAGE_SIZE = (x - 1) / PAGE_SIZE) as Hdiv.
  { intros x Hx. apply Z.div_unique with (x mod PAGE_SIZE - 1).
    - pose proof (Z.mod_pos_bound x PAGE_SIZE ltac:(done)).
      assert (x mod PAGE_SIZE <> 0) by (intros E; apply Hx; by apply Z.mod_divide). lia.
    - pose proof (Z.div_mod x PAGE_SIZE ltac:(done)). lia. }
  assert (PAGE_SIZE | a.1) as D1.
  { destruct (Znumtheory.Zdivide_dec PAGE_SIZE (a.1)) as [|Hn]; [done|]. exfalso. apply G1. rewrite Hc, <- Hdiv, <- Hc by done. done. }
  split; [done|]. destruct (Znumtheory.Zdivide_dec PAGE_SIZE (a.1 + a.2)) as [D2|Hn].
  - replace a.2 with (a.1 + a.2 - a.1) by lia. by apply Z.divide_sub_r.
  - exfalso. apply G2. rewrite Hc, Hdiv, <- Hc by done. done.
Qed.

Lemma range_paged u b x : (PAGE_SIZE | u) -> (PAGE_SIZE | b) -> in_range u b x <-> in_range u b (x / PAGE_SIZE * PAGE_SIZE).
Proof.
  intros [i ->] [j ->]. unfold in_range. pose proof (Z.div_mod x PAGE_SIZE ltac:(done)) as E.
  pose proof (Z.mod_pos_bound x PAGE_SIZE ltac:(done)) as B. unfold PAGE_SIZE in *. split; nia.
Qed.

(** ** The invariant *)

Section Inv.
Context {A : Type} (Inv : A -> gset Z -> nat -> Prop).
Implicit Types (s : vm_state (A := A)) (T O : list (Z * area)).

Abbreviation rlist := (list (Z * (area * vmalloc_mdt))).
Abbreviation chains := (Z -> list (Z * vmalloc_pa_info)).

Definition areas (U : rlist) : list area := fst <$> U.*2.

(** List [l] has the free areas [T] and the reserved areas [U], the other
    list [O] and [V]; the area at [p] has the blocks [ch p]; at least [n]
    pages are in reserve for new containers. *)
Record vm_inv (l : vmalloc_lists) s T O (U V : rlist) (ch : chains) (n : nat) : Prop := {
  vi_f : f_ok Inv l s T O (list_to_set (U.*1 ++ V.*1)) (list_to_set (chain_ptrs ch (U.*1 ++ V.*1))) n;
  vi_r : r_ok Inv l s U V ch (list_to_set (T.*1 ++ O.*1)) n;
  vi_sp : space_ok (mm_addr_space s);
  vi_l : window_ok (mm_addr_space s) l T.*2 (areas U);
  vi_o : window_ok (mm_addr_space s) (other l) O.*2 (areas V)
}.

Lemma r_ok_frame l s s' U V ch Rf Rf' n n' :
  r_ok Inv l s U V ch Rf n -> f_frame s s' ->
  vm_mem Inv s' Rf' (list_to_set (U.*1 ++ V.*1)) (list_to_set (chain_ptrs ch (U.*1 ++ V.*1))) n' ->
  r_ok Inv l s' U V ch Rf' n'.
Proof.
  intros [H1 H2 H3 H4 H5 _] [E1 E2 E3 E4 E5] Hm.
  assert (forall h, rva_head h s' = rva_head h s) as Hh by (intros []; done).
  split; rewrite ?E1, ?Hh; try done. intros p d Hp. rewrite E2. by apply H4.
Qed.

Lemma f_ok_frame l s s' T O Rr Rm Rr' Rm' n n' :
  f_ok Inv l s T O Rr Rm n -> r_frame s s' -> vm_mem Inv s' (list_to_set (T.*1 ++ O.*1)) Rr' Rm' n' ->
  f_ok Inv l s' T O Rr' Rm' n'.
Proof.
  intros [H1 H2 H3 _] [E1 E2 E3 E4] Hm.
  assert (forall h, fva_head h s' = fva_head h s) as Hh by (intros []; done).
  split; rewrite ?E1, ?Hh; done.
Qed.

Lemma areas_app U1 U2 : areas (U1 ++ U2) = areas U1 ++ areas U2.
Proof. unfold areas. by rewrite !fmap_app. Qed.

Lemma areas_elem (U : rlist) p d : (p, d) ∈ U -> d.1 ∈ areas U.
Proof. intros H. unfold areas. rewrite <- list_fmap_compose. apply list_elem_of_fmap. by exists (p, d). Qed.

(** The list of an address of a window. *)
Lemma list_from_va_ok l s u :
  space_ok (mm_addr_space s) -> win_lo (mm_addr_space s) l <= u < win_hi (mm_addr_space s) l ->
  list_from_va u s = Ok (l, s).
Proof.
  intros [Hsp _] Hu. unfold list_from_va. erewrite bind_ok; [|done]. unfold vunsign.
  rewrite kpa_to_kva_sext by lia. unfold MM_MMU_HI_BITS. rewrite va_zero_extend_eq by lia.
  unfold lift, bind, ret. destruct l; cbn [win_lo win_hi] in Hu; destruct (Z.ltb_spec u (mm_addr_space s + 2 ^ 47)); done || lia.
Qed.

Lemma vsign_ok s u : 2 ^ 47 <= u < 2 ^ 48 -> vsign u s = Ok (sext u 48, s).
Proof. intros Hu. unfold vsign, MM_MMU_HI_BITS. by rewrite va_sign_extend_eq by lia. Qed.

Lemma vunsign_ok s u : 2 ^ 47 <= u < 2 ^ 48 -> vunsign (sext u 48) s = Ok (u, s).
Proof. intros Hu. unfold vunsign, MM_MMU_HI_BITS. by rewrite va_zero_extend_eq by lia. Qed.

Lemma sext_is_kva u : 2 ^ 47 <= u < 2 ^ 48 -> is_kva_uintptr_t (sext u 48) = true.
Proof. intros Hu. rewrite sext_upper by done. unfold is_kva_uintptr_t. rewrite KERNEL_BASE_val. apply Z.leb_le. lia. Qed.

Lemma user_not_kva u : u < 2 ^ 48 -> is_kva_uintptr_t u = false.
Proof. intros Hu. unfold is_kva_uintptr_t. rewrite KERNEL_BASE_val. apply Z.leb_gt. lia. Qed.

End Inv.
