(* ===== verification/VmallocOps.v ===== *)
(** * VmallocOps: the operations of vmalloc.c on the partition

    [vmalloc], [vfree] and the queries against the invariant of
    [VmallocInv]: what each returns, which edit of the lists of areas it
    performs, when it panics. *)

From Stdlib Require Import ZArith Lia.
From stdpp Require Import base tactics numbers gmap list.
From S2P Require Import Prelude KMath PageAllocator VmContainers VmContainersSpec Vmalloc VmLists VmallocSpec VmallocReserved VmallocBlocks VmallocInv.

Open Scope Z_scope.

Section Ops.
Context {A : Type} (reserve_malloc : A -> res (Z * A)) (raw_kfree : Z -> A -> res A).
Context (Inv : A -> gset Z -> nat -> Prop) `{PS : !PageSource reserve_malloc raw_kfree Inv}.
Implicit Types (s : vm_state (A := A)) (T O : list (Z * area)).

Abbreviation rlist := (list (Z * (area * vmalloc_mdt))).
Abbreviation chains := (Z -> list (Z * vmalloc_pa_info)).
Abbreviation vm_inv := (vm_inv Inv).

(** ** Reserving *)

(** The free range from [u] has become the reserved area at [q]. *)
Definition reserved_at l s T O (U V : rlist) (ch : chains) n u b m (q : Z) s' : Prop :=
  (forall x, in_range u b x -> covers T.*2 x) /\
  exists T' U1 U2, U = U1 ++ U2 /\ mm_addr_space s' = mm_addr_space s /\
    vm_inv l s' T' O (U1 ++ (q, ((u, b), m)) :: U2) V (set_chain ch q []) n /\
    forall x, covers T'.*2 x <-> covers T.*2 x /\ ~ in_range u b x.

Abbreviation rset U V := (list_to_set (U.*1 ++ V.*1)).
Abbreviation mset ch U V := (list_to_set (chain_ptrs ch (U.*1 ++ V.*1))).

Lemma pages_bytes pgs : 0 < pgs -> pgs * PAGE_SIZE < 2 ^ 64 ->
  wrap64 (pgs * PAGE_SIZE) = pgs * PAGE_SIZE /\ 0 < pgs * PAGE_SIZE.
Proof. intros. unfold PAGE_SIZE in *. rewrite wrap_small by (unfold u_range; lia). split; [done|lia]. Qed.

Lemma push_rva_reserves l s s1 T O U V ch n pgs u tag cfg :
  vm_inv l s T O U V ch (S (S n)) -> 0 < pgs -> pgs * PAGE_SIZE < 2 ^ 64 -> (PAGE_SIZE | u) ->
  popped Inv l s T O (rset U V) (mset ch U V) (S n) (pgs * PAGE_SIZE) u s1 ->
  wp (push_rva reserve_malloc l pgs u tag cfg)
     (reserved_at l s T O U V ch n u (pgs * PAGE_SIZE) (area_mdt tag cfg)) s1.
Proof.
  intros [Hf Hr Hsp Hl Ho] Hp Hlim Hu (HF & Hin & T' & Hf1 & Ha1 & Hc1).
  pose proof (r_ok_frame _ _ _ _ _ _ _ _ _ _ _ Hr HF (fo_mem _ _ _ _ _ _ _ _ Hf1)) as Hr1.
  eapply wp_mono; [by eapply (push_rva_spec reserve_malloc raw_kfree Inv)|].
  intros q s2 (HF2 & U1 & U2 & -> & HU1 & HU2 & Hr2). split; [done|]. exists T', U1, U2. split; [done|].
  destruct (pages_bytes pgs Hp Hlim) as [Eb Hb0]. rewrite Eb in Hr2.
  assert (mm_addr_space s2 = mm_addr_space s) as Esp.
  { rewrite (rf_sp _ _ HF2). apply HF. }
  assert (PAGE_SIZE | pgs * PAGE_SIZE) as Hb by apply Z.divide_factor_r.
  split; [done|]. split; [|done]. split; try done.
  - eapply f_ok_frame; [done..|]. apply Hr2.
  - by rewrite Esp.
  - rewrite Esp. rewrite areas_app in *. change (areas ((q, _) :: U2)) with ((u, pgs * PAGE_SIZE) :: areas U2).
    eapply window_reserve; try done.
    + apply paged_of_covers; [done|]. intros x. rewrite !Hc1, (range_paged u (pgs * PAGE_SIZE) x) by done.
      rewrite (paged_covers T.*2 x); [done|apply Hl..].
    + intros d (d' & -> & Hd)%list_elem_of_fmap. by apply HU1.
    + intros d Hd. destruct U2 as [|[r e] U2]; [done|]. injection Hd as <-. by apply HU2.
  - by rewrite Esp.
Qed.

(** *** DYNAMIC *)

Definition fits_free (T : list (Z * area)) (bytes : Z) : Prop := exists a, a ∈ T.*2 /\ bytes <= a.2.

Lemma vmalloc_dynamic_spec s T O U V ch n pgs tag cfg :
  vm_inv DYNAMIC_LIST s T O U V ch (S (S n)) -> vc_use_kmap cfg = false -> 0 < pgs ->
  pgs * PAGE_SIZE < 2 ^ 64 -> fits_free T (pgs * PAGE_SIZE) ->
  wp (vmalloc reserve_malloc raw_kfree pgs tag cfg) (fun r s' => exists u a,
    a ∈ T.*2 /\ a.1 = u /\ pgs * PAGE_SIZE <= a.2 /\ r.1 = sext u 48 /\
    reserved_at DYNAMIC_LIST s T O U V ch n u (pgs * PAGE_SIZE) (area_mdt tag cfg) r.2 s') s.
Proof.
  intros HI Hk Hp Hlim (a0 & Ha0 & Hle0). pose proof HI as [Hf Hr Hsp Hl Ho].
  destruct (pages_bytes pgs Hp Hlim) as [Eb Hb].
  unfold vmalloc. rewrite Hk. apply wp_bind, wp_ret, wp_bind. unfold pop_fva. rewrite Eb.
  apply wp_bind, wp_gets, wp_bind, wp_ret, wp_bind, wp_gets.
  rewrite (seg_head _ _ _ _ _ _ (fo_T _ _ _ _ _ _ _ _ Hf)).
  eapply wp_mono; [apply (pop_dynamic_loop reserve_malloc raw_kfree Inv s O (rset U V) (mset ch U V) (S n) _ T []); try done|].
  { apply Hl. }
  { apply Hl. }
  { by left. }
  { right. by exists a0. }
  { by eapply f_fuel_ok. }
  intros u s1 ((a & Ha & Hau & Hle) & HP). apply wp_bind.
  assert (PAGE_SIZE | u) as Hu by (subst u; by apply (wo_fpaged _ _ _ _ Hl)).
  eapply wp_mono; [by eapply push_rva_reserves|]. intros q s2 HR. apply wp_bind.
  assert (2 ^ 47 <= u < 2 ^ 48) as Hw.
  { apply (win_bounds _ Hsp DYNAMIC_LIST). apply (wo_cover _ _ _ _ Hl). left. apply HP. unfold in_range. lia. }
  unfold wp at 1. rewrite vsign_ok by done. apply wp_ret. by exists u, a.
Qed.

Lemma vmalloc_dynamic_panics s T O U V ch n pgs tag cfg :
  vm_inv DYNAMIC_LIST s T O U V ch n -> vc_use_kmap cfg = false -> 0 < pgs ->
  pgs * PAGE_SIZE < 2 ^ 64 -> ~ fits_free T (pgs * PAGE_SIZE) ->
  vmalloc reserve_malloc raw_kfree pgs tag cfg s = Err EPanic.
Proof.
  intros [Hf Hr Hsp Hl Ho] Hk Hp Hlim Hno. destruct (pages_bytes pgs Hp Hlim) as [Eb Hb].
  unfold vmalloc. rewrite Hk. erewrite bind_ok; [|done]. apply bind_err. unfold pop_fva. rewrite Eb.
  do 3 (erewrite bind_ok; [|done]). rewrite (seg_head _ _ _ _ _ _ (fo_T _ _ _ _ _ _ _ _ Hf)).
  apply (pop_dynamic_panics reserve_malloc raw_kfree Inv s O (rset U V) (mset ch U V) n _ T []); [done| |by eapply f_fuel_ok].
  intros a Ha. destruct (Z.lt_ge_cases a.2 (pgs * PAGE_SIZE)) as [|Hge]; [done|]. exfalso. apply Hno. exists a. split; [done|lia].
Qed.

(** *** KMAP *)

Lemma kmap_range_bound s T O U V ch n u b :
  vm_inv KMAP_LIST s T O U V ch n -> 0 < b -> (forall x, in_range u b x -> covers T.*2 x) ->
  2 ^ 47 <= u /\ u + b <= 2 ^ 48.
Proof.
  intros [_ _ Hsp Hl _] Hb Hin.
  assert (2 ^ 47 <= u < 2 ^ 48 /\ 2 ^ 47 <= u + b - 1 < 2 ^ 48); [|lia].
  split; apply (win_bounds _ Hsp KMAP_LIST); apply (wo_cover _ _ _ _ Hl); left; apply Hin; unfold in_range; lia.
Qed.

Lemma vunsign_kpa s p : 0 <= p < 2 ^ 47 -> vunsign (kpa_to_kva p) s = Ok (p + 2 ^ 47, s).
Proof. intros Hp. rewrite kpa_to_kva_sext by done. apply vunsign_ok. lia. Qed.

Lemma pop_kmap_spec s T O U V ch n pgs p :
  vm_inv KMAP_LIST s T O U V ch (S n) -> 0 < pgs -> pgs * PAGE_SIZE < 2 ^ 64 -> 0 <= p ->
  (forall x, in_range (p + 2 ^ 47) (pgs * PAGE_SIZE) x -> covers T.*2 x) ->
  wp (pop_fva reserve_malloc raw_kfree KMAP_LIST pgs p) (fun r s' => r = p + 2 ^ 47 /\
    popped Inv KMAP_LIST s T O (rset U V) (mset ch U V) n (pgs * PAGE_SIZE) r s') s.
Proof.
  intros HI Hp Hlim Hpa Hin. destruct (pages_bytes pgs Hp Hlim) as [Eb Hb].
  destruct (kmap_range_bound _ _ _ _ _ _ _ _ _ HI Hb Hin) as [B1 B2]. pose proof HI as [Hf Hr Hsp Hl Ho].
  unfold pop_fva. rewrite Eb. apply wp_bind, wp_gets, wp_bind.
  unfold wp at 1. rewrite vunsign_kpa by lia. apply wp_bind, wp_gets.
  rewrite (seg_head _ _ _ _ _ _ (fo_T _ _ _ _ _ _ _ _ Hf)).
  apply (pop_kmap_loop reserve_malloc raw_kfree Inv s O (rset U V) (mset ch U V) n _ _ T []); try done; try lia.
  - apply Hl.
  - eapply covers_range; [apply Hl|done|done].
  - by eapply f_fuel_ok.
Qed.

Lemma vmalloc_kmap_spec s T O U V ch n pgs tag cfg :
  vm_inv KMAP_LIST s T O U V ch (S (S n)) -> vc_use_kmap cfg = true -> vc_assign_pa cfg = true ->
  is_pow2 pgs = true -> 0 < pgs -> pgs * PAGE_SIZE < 2 ^ 64 -> 0 <= vc_kmap_pa cfg -> (PAGE_SIZE | vc_kmap_pa cfg) ->
  (forall x, in_range (vc_kmap_pa cfg + 2 ^ 47) (pgs * PAGE_SIZE) x -> covers T.*2 x) ->
  wp (vmalloc reserve_malloc raw_kfree pgs tag cfg) (fun r s' =>
    r.1 = kpa_to_kva (vc_kmap_pa cfg) /\
    reserved_at KMAP_LIST s T O U V ch n (vc_kmap_pa cfg + 2 ^ 47) (pgs * PAGE_SIZE) (area_mdt tag cfg) r.2 s') s.
Proof.
  intros HI Hk Has Hpow Hp Hlim Hpa Hal Hin. destruct (pages_bytes pgs Hp Hlim) as [Eb Hb].
  destruct (kmap_range_bound _ _ _ _ _ _ _ _ _ HI Hb Hin) as [B1 B2].
  unfold vmalloc. rewrite Hk, Has, Hpow. apply wp_bind, wp_bind, wp_ret, wp_ret, wp_bind.
  eapply wp_mono; [by apply (pop_kmap_spec s T O U V ch (S n))|]. intros u s1 [-> HP]. apply wp_bind.
  assert (PAGE_SIZE | vc_kmap_pa cfg + 2 ^ 47) as Hu by (apply Z.divide_add_r; [done|by exists (2 ^ 35)]).
  eapply wp_mono; [by eapply push_rva_reserves|]. intros q s2 HR. apply wp_bind.
  unfold wp at 1. rewrite vsign_ok by lia. apply wp_ret. cbn [fst snd]. split; [|done].
  by rewrite kpa_to_kva_sext by lia.
Qed.

Lemma vmalloc_kmap_panics s T O U V ch n pgs tag cfg :
  vm_inv KMAP_LIST s T O U V ch n -> vc_use_kmap cfg = true -> 0 < pgs -> 0 <= vc_kmap_pa cfg ->
  vc_kmap_pa cfg + pgs * PAGE_SIZE <= 2 ^ 47 ->
  (exists x, in_range (vc_kmap_pa cfg + 2 ^ 47) (pgs * PAGE_SIZE) x /\ ~ covers T.*2 x) ->
  vmalloc reserve_malloc raw_kfree pgs tag cfg s = Err EPanic.
Proof.
  intros [Hf Hr Hsp Hl Ho] Hk Hp Hpa Hlim (x & Hx & Hno).
  destruct (pages_bytes pgs Hp) as [Eb Hb]; [lia|]. unfold vmalloc. rewrite Hk.
  destruct (is_pow2 pgs); [|done]. destruct (vc_assign_pa cfg); [|done].
  erewrite bind_ok; [|done]. apply bind_err. unfold pop_fva. rewrite Eb. erewrite bind_ok; [|done].
  erewrite bind_ok; [|apply vunsign_kpa; lia]. erewrite bind_ok; [|done].
  rewrite (seg_head _ _ _ _ _ _ (fo_T _ _ _ _ _ _ _ _ Hf)).
  apply (pop_kmap_panics reserve_malloc raw_kfree Inv s O (rset U V) (mset ch U V) n _ _ T []); try done; try lia.
  - apply Hl.
  - intros a Ha [H1 H2]. apply Hno. apply (covers_elem _ a); [done|]. unfold in_range, in_area in *. lia.
  - by eapply f_fuel_ok.
Qed.

(** ** Finding *)

Lemma area_window l s T O U1 q d U2 V ch n :
  vm_inv l s T O (U1 ++ (q, d) :: U2) V ch n ->
  win_lo (mm_addr_space s) l <= d.1.1 < win_hi (mm_addr_space s) l /\ 2 ^ 47 <= d.1.1 < 2 ^ 48 /\
  0 < d.1.2 /\ d.1.1 + d.1.2 <= 2 ^ 48 /\ forall d', d' ∈ U1.*2 -> d'.1.1 <> d.1.1.
Proof.
  intros [_ _ Hsp Hl _].
  assert (d.1 ∈ areas (U1 ++ (q, d) :: U2)) as Ha by (apply (areas_elem _ q); set_solver).
  destruct (reserved_bounds _ _ _ _ _ Hl Ha) as (H1 & H2 & H3).
  assert (win_lo (mm_addr_space s) l <= d.1.1 < win_hi (mm_addr_space s) l) as Hw by lia.
  pose proof (win_bounds _ Hsp _ _ Hw). split; [done|]. split; [done|]. split; [done|]. split.
  - assert (win_hi (mm_addr_space s) l <= 2 ^ 48) by (destruct Hsp; destruct l; cbn; lia). lia.
  - intros d' Hd'. rewrite areas_app in Hl. pose proof (wo_res _ _ _ _ Hl) as Ho.
    assert (d'.1 ∈ areas U1) as Ha' by (unfold areas; apply list_elem_of_fmap; by exists d').
    change (areas ((q, d) :: U2)) with (d.1 :: areas U2) in Ho. apply ordered_app in Ho as (Ho1 & Ho2 & _).
    pose proof (ordered_end _ _ _ Ho1 Ha'). destruct (ordered_pos _ _ _ Ho1 Ha'). lia.
Qed.

Lemma find_rva_start l s u :
  space_ok (mm_addr_space s) -> win_lo (mm_addr_space s) l <= u < win_hi (mm_addr_space s) l ->
  forall start, start = u \/ start = sext u 48 ->
  find_rva start s =
    (let* c := gets (rva_head l) in
     if c =? 0 then ret None
     else let* fuel := gets r_fuel in let* r := find_rva_loop fuel u c 0 in ret (Some r)) s.
Proof.
  intros Hsp Hw start Hst. pose proof (win_bounds _ Hsp _ _ Hw) as Hb. unfold find_rva.
  assert ((if is_kva_uintptr_t start then vunsign start else ret start) s = Ok (u, s)) as E.
  { destruct Hst as [->| ->]; [rewrite user_not_kva by lia; done|]. rewrite sext_is_kva by done. by apply vunsign_ok. }
  erewrite bind_ok; [|exact E]. erewrite bind_ok; [|by apply list_from_va_ok]. done.
Qed.

Lemma find_rva_ok l s T O U1 q d U2 V ch n start :
  vm_inv l s T O (U1 ++ (q, d) :: U2) V ch n -> start = d.1.1 \/ start = sext d.1.1 48 ->
  find_rva_or_panic start s = Ok ((q, last_ptr U1 0), s).
Proof.
  intros HI Hst. pose proof (area_window _ _ _ _ _ _ _ _ _ _ _ HI) as (Hw & _ & _ & _ & Hne).
  pose proof HI as [_ Hr Hsp _ _]. unfold find_rva_or_panic, bind at 1.
  rewrite (find_rva_start l s d.1.1) by done. erewrite bind_ok; [|done].
  pose proof (ro_T _ _ _ _ _ _ _ _ Hr) as HT. rewrite (seg_head _ _ _ _ _ _ HT).
  assert (head_ptr (U1 ++ (q, d) :: U2) 0 <> 0) as Hh.
  { destruct U1 as [|[p0 d0] U1]; cbn in HT |- *; by destruct HT as (_ & ? & _). }
  destruct (Z.eqb_spec (head_ptr (U1 ++ (q, d) :: U2) 0) 0); [done|]. erewrite bind_ok; [|done].
  erewrite bind_ok; [|apply (find_rva_loop_found reserve_malloc raw_kfree Inv s (rva_head l s) d.1.1 q d U2 U1 []); try done].
  - done.
  - pose proof (r_fuel_ok _ _ _ _ _ _ _ _ Hr) as HL. rewrite length_app in HL. cbn in HL. lia.
Qed.

(** An address of the window that is not the start of a reserved area. *)
Lemma find_rva_absent l s T O U V ch n u start :
  vm_inv l s T O U V ch n -> win_lo (mm_addr_space s) l <= u < win_hi (mm_addr_space s) l ->
  start = u \/ start = sext u 48 -> (forall a, a ∈ areas U -> a.1 <> u) ->
  find_rva_or_panic start s = Err (if decide (U = []) then EPanic else EFault).
Proof.
  intros HI Hw Hst Hno. pose proof HI as [_ Hr Hsp _ _]. unfold find_rva_or_panic, bind at 1.
  rewrite (find_rva_start l s u) by done. erewrite bind_ok; [|done].
  pose proof (ro_T _ _ _ _ _ _ _ _ Hr) as HT. rewrite (seg_head _ _ _ _ _ _ HT).
  destruct U as [|[p d] U]; [done|]. rewrite decide_False by done. cbn [head_ptr].
  destruct (Z.eqb_spec p 0); [by destruct HT as (_ & ? & _)|]. erewrite bind_ok; [|done].
  change p with (head_ptr ((p, d) :: U) 0).
  erewrite bind_err; [done|]. eapply (find_rva_loop_absent reserve_malloc raw_kfree Inv s (rva_head l s) u _ _ _ _ _ []); [apply Hr|done| |by eapply r_fuel_ok].
  intros e He. apply Hno. unfold areas. apply list_elem_of_fmap. by exists e.
Qed.

(** ** Freeing *)

Lemma pop_rva_spec l s T O U1 q d U2 V ch n :
  vm_inv l s T O (U1 ++ (q, d) :: U2) V ch n -> vi_permanent (mdt_info d.2) = false ->
  wp (pop_rva raw_kfree l d.1.1) (fun r s' => r = (d.1.2, mdt_info d.2) /\ r_frame s s' /\
    r_ok Inv l s' (U1 ++ U2) V ch (list_to_set (T.*1 ++ O.*1)) n) s.
Proof.
  intros HI Hperm. pose proof HI as [_ Hr _ _ _].
  pose proof (seg_middle _ _ _ _ _ _ _ _ _ (ro_T _ _ _ _ _ _ _ _ Hr)) as (v & Hv & Hd & _).
  unfold pop_rva. apply wp_bind. unfold wp at 1. erewrite find_rva_ok; [|done|by left].
  apply wp_bind. eapply rva_get_wp; [done|]. subst d. cbn [rdat fst snd] in *. apply wp_bind, wp_ASSERT; [by rewrite Hperm|].
  assert (wp (set_r_link l (last_ptr U1 0) (r_next v) ;; vmalloc_pa_mdt_free raw_kfree q ;; free_rva_node raw_kfree q)
     (fun _ s' => r_ok Inv l s' (U1 ++ U2) V ch (list_to_set (T.*1 ++ O.*1)) n /\ r_frame s s') s) as HR
    by by eapply (r_remove_spec reserve_malloc raw_kfree Inv).
  apply wp_bind_inv in HR. apply wp_bind. eapply wp_mono; [exact HR|]. intros [] s1 H1.
  apply wp_bind_inv in H1. apply wp_bind. eapply wp_mono; [exact H1|]. intros [] s2 H2.
  apply wp_bind. eapply wp_mono; [exact H2|]. intros [] s3 [H3 HF]. by apply wp_ret.
Qed.

Lemma vmalloc_token_vfree_spec l s T O U1 q d U2 V ch n :
  vm_inv l s T O (U1 ++ (q, d) :: U2) V ch (S n) -> vi_permanent (mdt_info d.2) = false ->
  wp (vmalloc_token_vfree reserve_malloc raw_kfree q) (fun r s' => r = (d.1.2, mdt_info d.2) /\
    mm_addr_space s' = mm_addr_space s /\ exists T', vm_inv l s' T' O (U1 ++ U2) V ch n /\
      forall x, covers T'.*2 x <-> covers T.*2 x \/ in_range d.1.1 d.1.2 x) s.
Proof.
  intros HI Hperm. pose proof (area_window _ _ _ _ _ _ _ _ _ _ _ HI) as (Hw & Hw' & Hb & Hend & _).
  pose proof HI as [Hf Hr Hsp Hl Ho].
  pose proof (seg_middle _ _ _ _ _ _ _ _ _ (ro_T _ _ _ _ _ _ _ _ Hr)) as (v & Hv & Hd & _).
  unfold vmalloc_token_vfree. apply wp_bind. eapply rva_get_wp; [done|].
  assert (r_start v = d.1.1) as -> by by subst d. apply wp_bind. unfold wp at 1.
  rewrite (list_from_va_ok l) by done. apply wp_bind.
  eapply wp_mono; [by eapply pop_rva_spec|]. intros r s1 (-> & HF1 & Hr1). cbn [fst snd].
  pose proof (f_ok_frame _ _ _ _ _ _ _ _ _ _ _ _ Hf HF1 (ro_mem _ _ _ _ _ _ _ _ Hr1)) as Hf1.
  assert (forall x, in_range d.1.1 d.1.2 x -> ~ covers T.*2 x) as Hno.
  { intros x Hx Hc. eapply (wo_disj _ _ _ _ Hl x); [done|]. apply (covers_elem _ d.1); [|done].
    apply (areas_elem _ q). set_solver. }
  apply wp_bind. eapply wp_mono; [eapply (push_fva_spec reserve_malloc raw_kfree Inv l s1 T O); [done|apply Hl|lia|done|done|done]|].
  intros _ s2 (HF2 & T' & Hf2 & Ha2 & Hc2). apply wp_ret. split; [done|].
  assert (mm_addr_space s2 = mm_addr_space s) as Esp by (rewrite (ff_sp _ _ HF2); apply HF1).
  split; [done|]. exists T'. split; [|done].
  pose proof (r_ok_frame _ _ _ _ _ _ _ _ _ _ _ Hr1 HF2 (fo_mem _ _ _ _ _ _ _ _ Hf2)) as Hr2.
  assert (d.1 ∈ areas (U1 ++ (q, d) :: U2)) as Hda by (apply (areas_elem _ q); set_solver).
  destruct (wo_rpaged _ _ _ _ Hl _ Hda) as [Hp1 Hp2].
  split; rewrite ?Esp; try done. rewrite areas_app in *. change (areas ((q, d) :: U2)) with (d.1 :: areas U2) in Hl.
  eapply (window_release _ Hsp l T.*2 T'.*2 _ _ d.1.1 d.1.2); try done; [by destruct d as [[]]|].
  apply paged_of_covers; [done|]. intros x. rewrite !Hc2, (range_paged d.1.1 d.1.2 x) by done.
  rewrite (paged_covers T.*2 x); [done|apply Hl..].
Qed.

(** ** Recording blocks *)

Lemma vmalloc_push_pa_spec l s T O U1 q d U2 V ch n o pa va :
  vm_inv l s T O (U1 ++ (q, d) :: U2) V ch (S n) ->
  wp (vmalloc_push_pa reserve_malloc q o pa va) (fun _ s' => mm_addr_space s' = mm_addr_space s /\
    exists m C, vm_inv l s' T O (U1 ++ (q, (d.1, m)) :: U2) V (set_chain ch q C) n /\
      mdt_info m = mdt_info d.2 /\ C.*2 = insert_block (MkPaInfo pa va o) (ch q).*2) s.
Proof.
  intros [Hf Hr Hsp Hl Ho]. unfold vmalloc_push_pa.
  eapply wp_mono; [by eapply (vmalloc_pa_mdt_push_spec reserve_malloc raw_kfree Inv)|].
  intros _ s1 (HF & pl & C & Hr1 & EC). assert (mm_addr_space s1 = mm_addr_space s) as Esp by apply HF.
  assert (forall m, areas (U1 ++ (q, (d.1, m)) :: U2) = areas (U1 ++ (q, d) :: U2)) as EA by (intros; by rewrite !areas_app).
  split; [done|]. exists (MkMdt (mdt_info d.2) pl (wrap32 (pa_count d.2 + 1))), C. split; [|done].
  split; rewrite ?Esp, ?EA; try done.
  eapply f_ok_frame; [done..|]. apply Hr1.
Qed.

Lemma vmalloc_pa_info_ok l s T O U1 q d U2 V ch n buf_size :
  vm_inv l s T O (U1 ++ (q, d) :: U2) V ch n -> Z.of_nat (length (ch q)) < 2 ^ 32 ->
  vmalloc_get_pa_info q buf_size s =
    Ok ((if buf_size <? Z.of_nat (length (ch q)) then (false, []) else (true, (ch q).*2)), s).
Proof. intros HI Hlim. eapply (vmalloc_get_pa_info_spec reserve_malloc raw_kfree Inv); [apply HI|done]. Qed.

Lemma vmalloc_pa_count_ok l s T O U1 q d U2 V ch n :
  vm_inv l s T O (U1 ++ (q, d) :: U2) V ch n -> Z.of_nat (length (ch q)) < 2 ^ 32 ->
  vmalloc_get_pa_count q s = Ok (Z.of_nat (length (ch q)), s).
Proof.
  intros [_ Hr _ _ _] Hlim.
  pose proof (seg_middle _ _ _ _ _ _ _ _ _ (ro_T _ _ _ _ _ _ _ _ Hr)) as (v & Hv & Hd & _).
  destruct (ro_ch _ _ _ _ _ _ _ _ Hr q d) as [_ Hcnt]; [set_solver|].
  unfold vmalloc_get_pa_count. erewrite bind_ok; [|by apply rva_get_ok]. subst d. cbn in Hcnt.
  unfold ret. by rewrite Hcnt, wrap_small by (unfold u_range; lia).
Qed.

Lemma vmalloc_mdt_ok l s T O U1 q d U2 V ch n :
  vm_inv l s T O (U1 ++ (q, d) :: U2) V ch n ->
  vmalloc_token_vmalloc_get_mdt q s = Ok (mdt_info d.2, s).
Proof.
  intros [_ Hr _ _ _].
  pose proof (seg_middle _ _ _ _ _ _ _ _ _ (ro_T _ _ _ _ _ _ _ _ Hr)) as (v & Hv & Hd & _).
  unfold vmalloc_token_vmalloc_get_mdt. erewrite bind_ok; [|by apply rva_get_ok]. by subst d.
Qed.

End Ops.
