(* ===== verification/VmallocQueries.v ===== *)
(** * VmallocQueries: initialisation, queries and accounting of vmalloc

    [vmalloc_init] establishes the partition, [vmalloc_get_addr_info]
    classifies every address by it, and the byte counters add up to the size
    of the upper half. *)

From Stdlib Require Import ZArith Lia.
From stdpp Require Import base tactics numbers gmap list.
From S2P Require Import Prelude KMath PageAllocator VmContainers VmContainersSpec Vmalloc VmLists VmallocSpec VmallocReserved VmallocBlocks VmallocInv VmallocOps.

Open Scope Z_scope.

(** ** Sizes *)

Definition total (l : list area) : Z := foldr (fun a t => a.2 + t) 0 l.

(** The addresses of a list of areas. *)
Definition addresses (l : list area) : list Z := l ≫= fun a => seqZ a.1 a.2.

Lemma addresses_elem l x : x ∈ addresses l <-> covers l x.
Proof.
  unfold addresses, covers, in_area. rewrite list_elem_of_bind. split.
  - intros (a & Hx%elem_of_seqZ & Ha). by exists a.
  - intros (a & Ha & Hx). exists a. split; [by apply elem_of_seqZ|done].
Qed.

Lemma addresses_length lo l : ordered lo l -> Z.of_nat (length (addresses l)) = total l.
Proof.
  revert lo. induction l as [|a l IH]; intros lo Hl; [done|]. destruct Hl as (_ & Ha & Hl).
  unfold addresses. rewrite bind_cons, length_app, length_seqZ. cbn [total foldr].
  fold (addresses l). fold (total l). rewrite <- (IH _ Hl). lia.
Qed.

Lemma addresses_nodup lo l : ordered lo l -> NoDup (addresses l).
Proof.
  revert lo. induction l as [|a l IH]; intros lo Hl; [constructor|]. destruct Hl as (_ & Ha & Hl).
  unfold addresses. rewrite bind_cons. fold (addresses l). apply NoDup_app. split; [apply NoDup_seqZ|].
  split; [|by eapply IH]. intros x Hx%elem_of_seqZ (b & Hb & Hin)%addresses_elem.
  destruct (ordered_pos _ _ _ Hl Hb). unfold in_area in Hin. lia.
Qed.

Lemma spaced_ordered lo l : spaced lo l -> ordered (lo + 1) l.
Proof.
  revert lo. induction l as [|a l IH]; intros lo; cbn; [done|]. intros (H1 & H2 & H3).
  split; [lia|]. split; [done|]. apply (ordered_lower (a.1 + a.2 + 1)); [lia|]. by apply IH.
Qed.

(** The areas of a window have the size of the window. *)
Lemma window_total sp l F R :
  space_ok sp -> window_ok sp l F R -> total F + total R = win_hi sp l - win_lo sp l.
Proof.
  intros Hsp [[Hs _] _ Ho _ Hc Hd]. apply spaced_ordered in Hs.
  assert (addresses F ++ addresses R ≡ₚ seqZ (win_lo sp l) (win_hi sp l - win_lo sp l)) as HP.
  { apply NoDup_Permutation.
    - apply NoDup_app. split; [by eapply addresses_nodup|]. split; [|by eapply addresses_nodup].
      intros x H1%addresses_elem H2%addresses_elem. by apply (Hd x).
    - apply NoDup_seqZ.
    - intros x. rewrite elem_of_app, !addresses_elem, elem_of_seqZ, <- Hc.
      replace (win_lo sp l + (win_hi sp l - win_lo sp l)) with (win_hi sp l) by lia. done. }
  apply Permutation_length in HP. rewrite length_app, length_seqZ in HP.
  rewrite <- (addresses_length _ _ Hs), <- (addresses_length _ _ Ho).
  assert (win_lo sp l <= win_hi sp l) by (destruct Hsp; destruct l; cbn; lia). lia.
Qed.

Lemma total_nonneg lo l : ordered lo l -> 0 <= total l.
Proof. intros H. rewrite <- (addresses_length _ _ H). lia. Qed.

Section Queries.
Context {A : Type} (Inv : A -> gset Z -> nat -> Prop).
Implicit Types (s : vm_state (A := A)) (T O : list (Z * area)).

Abbreviation rlist := (list (Z * (area * vmalloc_mdt))).
Abbreviation vm_inv := (vm_inv Inv).
Abbreviation fseg s := (seg f_next fdat (pnodes (fpool s))).
Abbreviation rseg s := (seg r_next rdat (pnodes (rpool s))).

Lemma fva_get_ok s p v : pnodes (fpool s) !! p = Some v -> fva_get p s = Ok (v, s).
Proof. intros Hv. unfold fva_get, with_fpool, get_n, bind, gets. cbn. rewrite Hv. cbn. by destruct s. Qed.

Lemma rva_read s p v : pnodes (rpool s) !! p = Some v -> rva_get p s = Ok (v, s).
Proof. intros Hv. unfold rva_get, with_rpool, get_n, bind, gets. cbn. rewrite Hv. cbn. by destruct s. Qed.

(** ** Byte counters *)

Lemma fva_sum_spec s T : forall h b fuel,
  fseg s h T 0 -> (length T < fuel)%nat -> is_u64 b -> fva_sum fuel h b s = Ok (wrap64 (b + total T.*2), s).
Proof.
  induction T as [|[p a] T IH]; intros h b fuel Hs Hf Hb; (destruct fuel as [|fuel]; [cbn in Hf; lia|]);
    cbn [fva_sum seg] in *.
  - subst h. cbn. rewrite Z.add_0_r. by rewrite wrap_small.
  - destruct Hs as (-> & Hp & v & Hv & Hd & Hs). destruct (Z.eqb_spec p 0); [done|].
    erewrite bind_ok; [|by apply fva_get_ok]. rewrite (IH (f_next v)); [|done|cbn in Hf; lia|by apply wrap_range].
    cbn. subst a. cbn. unfold wrap. rewrite Zplus_mod_idemp_l. do 3 f_equal. unfold total. lia.
Qed.

Lemma rva_sum_spec s (U : rlist) : forall h b fuel,
  rseg s h U 0 -> (length U < fuel)%nat -> is_u64 b -> rva_sum fuel h b s = Ok (wrap64 (b + total (areas U)), s).
Proof.
  induction U as [|[p d] U IH]; intros h b fuel Hs Hf Hb; (destruct fuel as [|fuel]; [cbn in Hf; lia|]);
    cbn [rva_sum seg] in *.
  - subst h. cbn. rewrite Z.add_0_r. by rewrite wrap_small.
  - destruct Hs as (-> & Hp & v & Hv & Hd & Hs). destruct (Z.eqb_spec p 0); [done|].
    erewrite bind_ok; [|by apply rva_read]. rewrite (IH (r_next v)); [|done|cbn in Hf; lia|by apply wrap_range].
    subst d. cbn. unfold wrap. rewrite Zplus_mod_idemp_l. do 3 f_equal. unfold total, areas. lia.
Qed.

Lemma list_fuel {N D} (nx : N -> Z) (dat : N -> D) m h (T : list (Z * D)) :
  NoDup T.*1 -> seg nx dat m h T 0 -> (length T < S (size m))%nat.
Proof. intros Hnd Hs. apply (seg_length _ _ _ _ _ _ Hnd) in Hs. lia. Qed.

Lemma free_bytes_spec s T O U V ch n :
  vm_inv KMAP_LIST s T O U V ch n ->
  vmalloc_get_free_bytes s = Ok (total T.*2 + total O.*2, s) /\
  vmalloc_get_reserved_bytes s = Ok (total (areas U) + total (areas V), s) /\
  total T.*2 + total O.*2 + (total (areas U) + total (areas V)) = 2 ^ 47.
Proof.
  intros [Hf Hr Hsp Hl Ho].
  pose proof (window_total _ _ _ _ Hsp Hl) as E1. pose proof (window_total _ _ _ _ Hsp Ho) as E2.
  cbn [other win_lo win_hi] in E1, E2.
  pose proof (total_nonneg _ _ (spaced_ordered _ _ (proj1 (wo_free _ _ _ _ Hl)))).
  pose proof (total_nonneg _ _ (spaced_ordered _ _ (proj1 (wo_free _ _ _ _ Ho)))).
  pose proof (total_nonneg _ _ (wo_res _ _ _ _ Hl)). pose proof (total_nonneg _ _ (wo_res _ _ _ _ Ho)).
  destruct Hsp as [Hsp _]. destruct Hf as [HT HO Hnd _]. apply NoDup_app in Hnd as (Hn1 & _ & Hn2).
  destruct Hr as [HU HV Hndr _ _ _]. apply NoDup_app in Hndr as (Hr1 & _ & Hr2).
  cbn [fva_head rva_head other] in *. split; [|split; [|lia]].
  - unfold vmalloc_get_free_bytes. do 2 (erewrite bind_ok; [|done]).
    erewrite bind_ok; [|apply (fva_sum_spec s T); [done|by eapply list_fuel|unfold u_range; lia]].
    erewrite bind_ok; [|done]. rewrite (fva_sum_spec s O); [|done|by eapply list_fuel|by apply wrap_range].
    rewrite (wrap_small 64 (0 + _)) by (unfold u_range; lia). no_wrap. done.
  - unfold vmalloc_get_reserved_bytes. do 2 (erewrite bind_ok; [|done]).
    erewrite bind_ok; [|apply (rva_sum_spec s U); [done|by eapply list_fuel|unfold u_range; lia]].
    erewrite bind_ok; [|done]. rewrite (rva_sum_spec s V); [|done|by eapply list_fuel|by apply wrap_range].
    rewrite (wrap_small 64 (0 + _)) by (unfold u_range; lia). no_wrap. done.
Qed.

(** ** Classification *)

Lemma fva_info_spec s a T : forall h fuel lo,
  fseg s h T 0 -> (length T < fuel)%nat -> ordered lo T.*2 -> 2 ^ 47 <= a ->
  (forall b, b ∈ T.*2 -> 2 ^ 47 <= b.1 /\ b.1 + b.2 <= 2 ^ 48) ->
  (exists b, b ∈ T.*2 /\ in_area a b /\ fva_info fuel a h s = Ok (Some (VMALLOC_VA_INFO_FREE (sext b.1 48) b.2), s)) \/
  (~ covers T.*2 a /\ fva_info fuel a h s = Ok (None, s)).
Proof.
  induction T as [|[p b] T IH]; intros h fuel lo Hs Hf Ho Ha Hb; (destruct fuel as [|fuel]; [cbn in Hf; lia|]);
    cbn [fva_info seg] in *.
  - subst h. right. split; [|done]. by intros ?%covers_nil.
  - destruct Hs as (-> & Hp & v & Hv & Hd & Hs). destruct (Z.eqb_spec p 0); [done|].
    destruct Ho as (H1 & H2 & H3). destruct (Hb b) as [B1 B2]; [cbn; set_solver|]. cbn [fmap list_fmap snd] in *.
    assert (f_start v = b.1 /\ f_size v = b.2) as [E1 E2] by by subst b.
    erewrite bind_ok; [|by apply fva_get_ok]. rewrite E1, E2. no_wrap.
    destruct (Z.ltb_spec a b.1) as [L|L].
    + right. split; [|done]. rewrite covers_cons. unfold in_area. intros [?|(c & Hc & Hin)]; [lia|].
      destruct (ordered_pos _ _ _ H3 Hc). unfold in_area in Hin. lia.
    + destruct (Z.ltb_spec a (b.1 + b.2)) as [L2|L2].
      * left. exists b. split; [set_solver|]. split; [done|]. erewrite bind_ok; [|apply vsign_ok; lia]. done.
      * destruct (IH (f_next v) fuel (b.1 + b.2)) as [(c & Hc & Hin & E)|[Hno E]]; try done; [cbn in Hf; lia|set_solver| |].
        -- left. exists c. split; [set_solver|done].
        -- right. split; [|done]. rewrite covers_cons. unfold in_area. intros [?|?]; [lia|done].
Qed.

Lemma rva_info_spec s a (U : rlist) : forall h fuel lo,
  rseg s h U 0 -> (length U < fuel)%nat -> ordered lo (areas U) -> 2 ^ 47 <= a ->
  (forall b, b ∈ areas U -> 2 ^ 47 <= b.1 /\ b.1 + b.2 <= 2 ^ 48) ->
  (exists d, d ∈ U.*2 /\ in_area a d.1 /\
     rva_info fuel a h s = Ok (Some (VMALLOC_VA_INFO_RESERVED (sext d.1.1 48) d.1.2 d.2), s)) \/
  (~ covers (areas U) a /\ rva_info fuel a h s = Ok (None, s)).
Proof.
  induction U as [|[p d] U IH]; intros h fuel lo Hs Hf Ho Ha Hb; (destruct fuel as [|fuel]; [cbn in Hf; lia|]);
    cbn [rva_info seg] in *.
  - subst h. right. split; [|done]. by intros ?%covers_nil.
  - destruct Hs as (-> & Hp & v & Hv & Hd & Hs). destruct (Z.eqb_spec p 0); [done|].
    change (areas ((p, d) :: U)) with (d.1 :: areas U) in *.
    destruct Ho as (H1 & H2 & H3). destruct (Hb d.1) as [B1 B2]; [set_solver|]. cbn [fmap list_fmap snd] in *.
    assert (r_start v = d.1.1 /\ r_size v = d.1.2 /\ r_mdt v = d.2) as (E1 & E2 & E3) by by subst d.
    erewrite bind_ok; [|by apply rva_read]. rewrite E1, E2, E3. no_wrap.
    destruct (Z.ltb_spec a d.1.1) as [L|L].
    + right. split; [|done]. rewrite covers_cons. unfold in_area. intros [?|(c & Hc & Hin)]; [lia|].
      destruct (ordered_pos _ _ _ H3 Hc). unfold in_area in Hin. lia.
    + destruct (Z.ltb_spec a (d.1.1 + d.1.2)) as [L2|L2].
      * left. exists d. split; [set_solver|]. split; [done|]. erewrite bind_ok; [|apply vsign_ok; lia]. done.
      * destruct (IH (r_next v) fuel (d.1.1 + d.1.2)) as [(c & Hc & Hin & E)|[Hno E]]; try done; [cbn in Hf; lia|set_solver| |].
        -- left. exists c. split; [set_solver|done].
        -- right. split; [|done]. rewrite covers_cons. unfold in_area. intros [?|?]; [lia|done].
Qed.

Lemma vmalloc_get_addr_info_spec l s T O U V ch n u :
  vm_inv l s T O U V ch n -> win_lo (mm_addr_space s) l <= u < win_hi (mm_addr_space s) l ->
  (exists a, a ∈ T.*2 /\ in_area u a /\
     vmalloc_get_addr_info (sext u 48) s = Ok (VMALLOC_VA_INFO_FREE (sext a.1 48) a.2, s)) \/
  (exists d, d ∈ U.*2 /\ in_area u d.1 /\
     vmalloc_get_addr_info (sext u 48) s = Ok (VMALLOC_VA_INFO_RESERVED (sext d.1.1 48) d.1.2 d.2, s)).
Proof.
  intros [Hf Hr Hsp Hl _] Hu. pose proof (win_bounds _ Hsp _ _ Hu) as Hb.
  assert (forall x y, win_lo (mm_addr_space s) l <= x -> y <= win_hi (mm_addr_space s) l -> 2 ^ 47 <= x /\ y <= 2 ^ 48) as Hwin.
  { intros x y ? ?. destruct Hsp. destruct l; cbn [win_lo win_hi] in *; lia. }
  assert (forall a, a ∈ T.*2 -> 2 ^ 47 <= a.1 /\ a.1 + a.2 <= 2 ^ 48) as BT.
  { intros a Ha. destruct (area_bounds _ _ (wo_free _ _ _ _ Hl) Ha) as (_ & Hp & Hlim). split; [|done].
    apply (Hwin _ (win_lo (mm_addr_space s) l)); [|destruct Hsp; destruct l; cbn; lia].
    apply (wo_cover _ _ _ _ Hl). left. apply (covers_elem _ a); [done|unfold in_area; lia]. }
  assert (forall a, a ∈ areas U -> 2 ^ 47 <= a.1 /\ a.1 + a.2 <= 2 ^ 48) as BU.
  { intros a Ha. destruct (reserved_bounds _ _ _ _ _ Hl Ha) as (H1 & _ & H2). by apply Hwin. }
  unfold vmalloc_get_addr_info. erewrite bind_ok; [|by apply vunsign_ok].
  erewrite bind_ok; [|by apply list_from_va_ok]. do 2 (erewrite bind_ok; [|done]).
  pose proof (f_fuel_ok _ _ _ _ _ _ _ _ Hf) as F1. pose proof (r_fuel_ok _ _ _ _ _ _ _ _ Hr) as F2.
  destruct (fva_info_spec s u T (fva_head l s) (f_fuel s) 0) as [(a & Ha & Hin & E)|[Hno E]]; try done; [apply Hf| |lia| |].
  { apply (spaced_ordered (-1)), (wo_free _ _ _ _ Hl). }
  { left. exists a. erewrite bind_ok; [|exact E]. done. }
  right. destruct (rva_info_spec s u U (rva_head l s) (r_fuel s) (win_lo (mm_addr_space s) l)) as [(d & Hd & Hin & E')|[Hno' _]];
    try done; [apply Hr|apply Hl|lia| |].
  - exists d. erewrite bind_ok; [|exact E]. cbv beta iota. do 2 (erewrite bind_ok; [|done]). erewrite bind_ok; [|exact E']. done.
  - exfalso. apply (wo_cover _ _ _ _ Hl) in Hu as [?|?]; done.
Qed.

End Queries.

(** ** Initialisation *)

Section Init.
Context {A : Type} (reserve_malloc : A -> res (Z * A)) (raw_kfree : Z -> A -> res A).
Context (Inv : A -> gset Z -> nat -> Prop) `{PS : !PageSource reserve_malloc raw_kfree Inv}.
Implicit Types (s : vm_state (A := A)).

Lemma init_mem s f r m n :
  page_ok f -> page_ok r -> page_ok m -> f <> r -> f <> m -> r <> m -> Inv (pages s) {[f; r; m]} n ->
  wp (vmalloc_init_containers f r ;; vmalloc_pa_mdt_init m) (fun _ s' =>
    vm_mem Inv s' ∅ ∅ ∅ n /\ mm_addr_space s' = mm_addr_space s) s.
Proof.
  intros Hf Hr Hm Hfr Hfm Hrm HA. unfold vmalloc_init_containers, vmalloc_pa_mdt_init.
  apply wp_bind, wp_bind, wp_with_fpool.
  eapply wp_mono; [apply (pool_init_spec fva_layout fva_layout_ok fva_zero reserve_malloc raw_kfree Inv {[r; m]} _ f n Hf)|]; [set_solver| |].
  { by replace ({[f]} ∪ {[r; m]}) with ({[f; r; m]} : gset Z) by set_solver. }
  intros _ [fp a] [Hfp Ef]. apply wp_with_rpool. cbn [fst snd] in *.
  destruct Hfp as (Hfp & _ & HA1). cbn in HA1, Hfp. rewrite Ef in HA1.
  eapply wp_mono; [apply (pool_init_spec rva_layout rva_layout_ok rva_zero reserve_malloc raw_kfree Inv {[f; m]} _ r n Hr)|]; [set_solver| |].
  { by replace ({[r]} ∪ {[f; m]}) with ({[f]} ∪ {[r; m]} : gset Z) by set_solver. }
  intros _ [rp a1] [(Hrp & _ & HA2) Er]. apply wp_with_mpool. cbn [fst snd] in *. rewrite Er in HA2.
  eapply wp_mono; [apply (pool_init_spec mdt_layout mdt_layout_ok pa_mdt_zero reserve_malloc raw_kfree Inv {[f; r]} _ m n Hm)|]; [set_solver| |].
  { by replace ({[m]} ∪ {[f; r]}) with ({[r]} ∪ {[f; m]} : gset Z) by set_solver. }
  intros _ [mp a2] [(Hmp & _ & HA3) Em]. cbn [fst snd] in *. split; [|done].
  split; [exact Hfp|exact Hrp|exact Hmp|..];
    cbn [fpool rpool mpool pages set_fpool set_rpool set_mpool]; rewrite ?Ef, ?Er, ?Em.
  1-3: set_solver.
  rewrite Em in HA3. by replace ({[f]} ∪ {[r]} ∪ {[m]}) with ({[m]} ∪ {[f; r]} : gset Z) by set_solver.
Qed.

Lemma window_whole sp l :
  space_ok sp -> window_ok sp l [(win_lo sp l, win_hi sp l - win_lo sp l)] [].
Proof.
  intros [Hsp Hal].
  assert (0 < win_lo sp l < win_hi sp l /\ win_hi sp l <= 2 ^ 48) as [B1 B2] by (destruct l; cbn [win_lo win_hi]; lia).
  assert (forall x, covers [(win_lo sp l, win_hi sp l - win_lo sp l)] x <-> win_lo sp l <= x < win_hi sp l) as Hc.
  { intros x. rewrite covers_cons, covers_nil. unfold in_area. cbn [fst snd]. lia. }
  assert (PAGE_SIZE | 2 ^ 47) as H47 by by exists (2 ^ 35).
  assert (PAGE_SIZE | 2 ^ 48) as H48 by by exists (2 ^ 36).
  split.
  - split; [cbn; lia|]. intros x. rewrite Hc. lia.
  - intros a ->%list_elem_of_singleton. cbn [fst snd].
    destruct l; cbn [win_lo win_hi]; split; auto using Z.divide_add_r, Z.divide_sub_r.
  - done.
  - intros a. set_solver.
  - intros x. rewrite Hc, covers_nil. tauto.
  - intros x _. by rewrite covers_nil.
Qed.

(** The two nodes and the heads set up by [vmalloc_init]. *)
Lemma vmalloc_init_spec s f r m n :
  page_ok f -> page_ok r -> page_ok m -> f <> r -> f <> m -> r <> m -> Inv (pages s) {[f; r; m]} (S (S n)) ->
  space_ok (mm_addr_space s) ->
  wp (vmalloc_init reserve_malloc f r m) (fun _ s' => mm_addr_space s' = mm_addr_space s /\ exists k d,
    vm_inv Inv KMAP_LIST s' [(k, (2 ^ 47, mm_addr_space s))]
      [(d, (2 ^ 47 + mm_addr_space s, 2 ^ 47 - mm_addr_space s))] [] [] (fun _ => []) n) s.
Proof.
  intros Hf Hr Hm Hfr Hfm Hrm HA Hsp. set (sp := mm_addr_space s) in *. destruct Hsp as [Hlim Hal].
  unfold vmalloc_init. apply wp_assoc, wp_bind. eapply wp_mono; [by apply (init_mem s f r m (S (S n)))|].
  intros _ s1 [Hm1 E1]. apply wp_bind.
  eapply wp_mono; [by eapply (fva_new_spec reserve_malloc raw_kfree Inv)|].
  intros k s2 (_ & Hk0 & p2 & a2 & -> & Hm2 & _). apply wp_bind, wp_modify, wp_bind.
  eapply wp_mono; [eapply (fva_new_spec reserve_malloc raw_kfree Inv); by destruct Hm2|].
  intros d s3 (Hd & Hd0 & p3 & a3 & -> & Hm3 & _). apply wp_bind, wp_modify, wp_bind, wp_gets.
  set (s4 := set_fva_head DYNAMIC_LIST d (set_fpool p3 a3 _)).
  assert (mm_addr_space s4 = sp) as E4 by exact E1. rewrite E4. apply wp_bind. unfold wp at 1.
  rewrite vunsign_kpa by lia.
  assert (vm_mem Inv s4 ({[d]} ∪ ({[k]} ∪ ∅)) ∅ ∅ n) as Hm4 by by destruct Hm3.
  assert (k <> d) as Hkd by set_solver.
  destruct (vm_f_read Inv _ _ _ _ _ k Hm4) as [vk Hvk]; [set_solver|].
  apply wp_bind. eapply fva_upd_wp; [exact Hvk|]. apply wp_bind. unfold wp at 1. rewrite vunsign_kpa by lia.
  apply wp_bind. unfold wp at 1. change (not64 0) with (sext (2 ^ 48 - 1) 48). rewrite vunsign_ok by lia.
  replace (wrap64 (kpa_to_kva sp - kpa_to_kva 0)) with sp.
  2: { rewrite !kpa_to_kva_add by (unfold u_range; lia). rewrite wrap_small; unfold u_range; lia. }
  replace (wrap64 (2 ^ 48 - 1 - (sp + 2 ^ 47) + 1)) with (2 ^ 47 - sp).
  2: { rewrite wrap_small; unfold u_range; lia. }
  destruct (vm_f_read Inv _ _ _ _ _ d Hm4) as [vd Hvd]; [set_solver|].
  apply wp_bind. eapply fva_upd_wp; [cbn; rewrite lookup_insert_ne by done; exact Hvd|].
  apply wp_bind, wp_modify, wp_modify. split; [done|]. exists k, d.
  set (s5 := set_rva_head DYNAMIC_LIST 0 (set_rva_head KMAP_LIST 0 _)).
  assert (vm_mem Inv s5 ({[d]} ∪ ({[k]} ∪ ∅)) ∅ ∅ n) as Hm5.
  { enough (vm_mem Inv (f_write (f_write s4 k (MkFva 0 (0 + 2 ^ 47) sp)) d (MkFva 0 (sp + 2 ^ 47) (2 ^ 47 - sp)))
      ({[d]} ∪ ({[k]} ∪ ∅)) ∅ ∅ n) as [] by done. do 2 (apply vm_f_write; [|set_solver]). done. }
  assert (mm_addr_space s5 = sp) as E5 by by cbn.
  pose proof (window_whole sp KMAP_LIST (conj Hlim Hal)) as W1. pose proof (window_whole sp DYNAMIC_LIST (conj Hlim Hal)) as W2.
  cbn [win_lo win_hi] in W1, W2. replace (2 ^ 47 + sp - 2 ^ 47) with sp in W1 by lia.
  replace (2 ^ 48 - (2 ^ 47 + sp)) with (2 ^ 47 - sp) in W2 by lia.
  assert ((list_to_set ([k] ++ [d]) : gset Z) = {[d]} ∪ ({[k]} ∪ ∅)) as Eset by set_solver.
  split; rewrite ?E5; try done.
  - split; cbn [fmap list_fmap fst]; [| |by apply NoDup_cons; split; [set_solver|apply NoDup_singleton]|by rewrite Eset].
    + cbn. split; [done|]. split; [done|]. eexists. rewrite lookup_insert_ne, lookup_insert_eq by done.
      split; [done|]. split; [|done]. unfold fdat. cbn. f_equal.
    + cbn. split; [done|]. split; [done|]. eexists. rewrite lookup_insert_eq.
      split; [done|]. split; [|done]. unfold fdat. cbn. f_equal. lia.
  - split; try done; [apply NoDup_nil_2|intros p e; set_solver|apply NoDup_nil_2|].
    cbn [fmap list_fmap fst]. by rewrite Eset.
Qed.
End Init.
