(* ===== verification/VmallocBoot.v ===== *)
(** * VmallocBoot: taking over the early memory regions

    [vmalloc_update_memregs] moves every region that the early allocator has
    handed out to the reserved areas of the KMAP window. *)

From Stdlib Require Import ZArith Lia.
From stdpp Require Import base tactics numbers gmap list.
From S2P Require Import Prelude KMath PageAllocator VmContainers VmContainersSpec Vmalloc VmLists VmallocSpec VmallocReserved VmallocBlocks VmallocInv VmallocOps VmallocQueries.

Open Scope Z_scope.

(** The addresses of a region in the KMAP window. *)
Definition in_memreg (mb : early_memreg) (x : Z) : Prop := in_range (mr_addr mb + 2 ^ 47) (mr_pages mb * PAGE_SIZE) x.

(** The regions in use are whole pages and do not overlap. *)
Fixpoint memregs_ok (mregs : list early_memreg) : Prop :=
  match mregs with
  | [] => True
  | mb :: mregs =>
      (mr_free mb = false ->
         0 < mr_pages mb /\ 0 <= mr_addr mb /\ (PAGE_SIZE | mr_addr mb) /\ mr_addr mb + mr_pages mb * PAGE_SIZE <= 2 ^ 47 /\
         forall mb' x, mb' ∈ mregs -> mr_free mb' = false -> in_memreg mb x -> ~ in_memreg mb' x) /\
      memregs_ok mregs
  end.

Definition in_use (mregs : list early_memreg) (x : Z) : Prop :=
  exists mb, mb ∈ mregs /\ mr_free mb = false /\ in_memreg mb x.

Lemma in_use_cons mb mregs x :
  in_use (mb :: mregs) x <-> (mr_free mb = false /\ in_memreg mb x) \/ in_use mregs x.
Proof. unfold in_use. setoid_rewrite elem_of_cons. naive_solver. Qed.

(** What is recorded about a region. *)
Definition memreg_mdt (mb : early_memreg) : vmalloc_mdt :=
  area_mdt (if is_kva_uintptr_t (mr_tag mb) then mr_tag mb else kpa_to_kva (mr_tag mb))
    (MkCfg true (mr_addr mb) true (mr_device_memory mb) (mr_permanent mb)).

Section Memregs.
Context {A : Type} (reserve_malloc : A -> res (Z * A)) (raw_kfree : Z -> A -> res A).
Context (Inv : A -> gset Z -> nat -> Prop) `{PS : !PageSource reserve_malloc raw_kfree Inv}.
Implicit Types (s : vm_state (A := A)) (T O : list (Z * area)).

Abbreviation rlist := (list (Z * (area * vmalloc_mdt))).
Abbreviation vm_inv := (vm_inv Inv).

Lemma vm_inv_mono l s T O U V ch n : vm_inv l s T O U V ch (S n) -> vm_inv l s T O U V ch n.
Proof.
  intros [[] [] ? ? ?]. split; try done; split; try done; by eapply (vm_mono reserve_malloc raw_kfree Inv).
Qed.

(** The view from the other list. *)
Lemma vm_inv_swap l s T O U V ch n : vm_inv l s T O U V ch n -> vm_inv (other l) s O T V U ch n.
Proof.
  intros [Hf Hr Hsp Hl Ho].
  assert (forall X (T1 T2 : list (Z * X)),
    (list_to_set (T1.*1 ++ T2.*1) : gset Z) = list_to_set (T2.*1 ++ T1.*1)) as E by (intros; set_solver).
  assert ((list_to_set (chain_ptrs ch (U.*1 ++ V.*1)) : gset Z) = list_to_set (chain_ptrs ch (V.*1 ++ U.*1))) as EC.
  { rewrite !chain_ptrs_app, !list_to_set_app_L. apply (comm_L (∪)). }
  rewrite (E _ U V), EC in Hf. rewrite (E _ T O) in Hr. split; [| |done|done|by destruct l].
  - by apply (f_ok_swap Inv).
  - by apply (r_ok_swap reserve_malloc raw_kfree Inv).
Qed.

(** One region. *)
Lemma memreg_spec s T O U V ch n mb :
  vm_inv KMAP_LIST s T O U V ch (S (S n)) -> mr_free mb = false ->
  0 < mr_pages mb -> 0 <= mr_addr mb -> (PAGE_SIZE | mr_addr mb) -> mr_addr mb + mr_pages mb * PAGE_SIZE <= 2 ^ 47 ->
  (forall x, in_memreg mb x -> covers T.*2 x) ->
  wp (let* va := pop_fva reserve_malloc raw_kfree KMAP_LIST (mr_pages mb) (mr_addr mb) in
      let* sva := vsign va in
      ASSERT (ptrs_are_kmapped (pv_ptr_new (mr_addr mb) sva)) ;;
      push_rva reserve_malloc KMAP_LIST (mr_pages mb) va
        (if is_kva_uintptr_t (mr_tag mb) then mr_tag mb else kpa_to_kva (mr_tag mb))
        (MkCfg true (mr_addr mb) true (mr_device_memory mb) (mr_permanent mb)) ;; ret tt)
     (fun _ s' => exists q, reserved_at Inv KMAP_LIST s T O U V ch n (mr_addr mb + 2 ^ 47)
        (mr_pages mb * PAGE_SIZE) (memreg_mdt mb) q s') s.
Proof.
  intros HI Hfree Hp Ha Hal Hlim Hin. apply wp_bind.
  assert (mr_pages mb * PAGE_SIZE < 2 ^ 64) as Hlim' by lia. destruct (pages_bytes _ Hp Hlim') as [_ Hb].
  eapply wp_mono; [by apply (pop_kmap_spec reserve_malloc raw_kfree Inv s T O U V ch (S n))|].
  intros u s1 [-> HP]. apply wp_bind. unfold wp at 1. rewrite vsign_ok by lia.
  rewrite <- kpa_to_kva_sext by lia. apply wp_bind, wp_ASSERT; [apply Z.eqb_refl|]. apply wp_bind.
  eapply wp_mono; [eapply (push_rva_reserves reserve_malloc raw_kfree Inv); try done|].
  { apply Z.divide_add_r; [done|by exists (2 ^ 35)]. }
  intros q s2 HR. apply wp_ret. by exists q.
Qed.

Lemma memregs_loop_spec mregs : forall s T O U V ch n,
  vm_inv KMAP_LIST s T O U V ch (2 * length mregs + n) -> memregs_ok mregs ->
  (forall x, in_use mregs x -> covers T.*2 x) ->
  wp (memregs_loop reserve_malloc raw_kfree mregs) (fun _ s' => mm_addr_space s' = mm_addr_space s /\ exists T' U' ch',
    vm_inv KMAP_LIST s' T' O U' V ch' n /\
    (forall x, covers T'.*2 x <-> covers T.*2 x /\ ~ in_use mregs x) /\
    (forall e, e ∈ U -> e ∈ U') /\
    forall mb, mb ∈ mregs -> mr_free mb = false ->
      exists q, (q, ((mr_addr mb + 2 ^ 47, mr_pages mb * PAGE_SIZE), memreg_mdt mb)) ∈ U') s.
Proof.
  induction mregs as [|mb mregs IH]; intros s T O U V ch n HI Hok Hin; cbn [memregs_loop].
  - apply wp_ret. split; [done|]. exists T, U, ch. split; [done|]. split; [|set_solver].
    intros x. split; [|tauto]. intros Hx. split; [done|]. intros (mb & Hmb & _). set_solver.
  - destruct Hok as [Hmb Hok]. apply wp_bind.
    pose proof (in_use_cons mb mregs) as Huse.
    assert (2 * length (mb :: mregs) + n = S (S (2 * length mregs + n)))%nat as En by (cbn; lia). rewrite En in HI.
    destruct (mr_free mb) eqn:Ef.
    + apply wp_ret. eapply wp_mono; [apply (IH s T O U V ch n); [by do 2 apply vm_inv_mono|done|]|].
      { intros x Hx. apply Hin, Huse. by right. }
      intros _ s' (E & T' & U' & ch' & H1 & H2 & H3 & H4). split; [done|]. exists T', U', ch'. split; [done|].
      split; [intros x; rewrite H2, Huse; intuition congruence|]. split; [done|].
      intros mb' [->|?]%elem_of_cons; [congruence|by apply H4].
    + destruct Hmb as (Hp & Ha & Hal & Hlim & Hdis); [done|].
      eapply wp_mono; [apply (memreg_spec s T O U V ch _ mb HI Ef); try done|].
      { intros x Hx. apply Hin, Huse. by left. }
      intros _ s1 (q & Hsub & T1 & U1 & U2 & EU & E1 & HI1 & Hc1).
      eapply wp_mono; [apply (IH s1 T1 O _ V _ n HI1 Hok)|].
      { intros x Hx. apply Hc1. split; [apply Hin, Huse; by right|]. destruct Hx as (mb' & Hm' & Hf' & Hx').
        intros Hx. by apply (Hdis mb' x). }
      intros _ s' (E & T' & U' & ch' & H1 & H2 & H3 & H4). split; [congruence|]. exists T', U', ch'. split; [done|].
      split; [|split].
      * intros x. rewrite H2, Hc1, Huse. unfold in_memreg. tauto.
      * intros e He. apply H3. subst U. revert He. rewrite !elem_of_app, elem_of_cons. tauto.
      * intros mb' [->|?]%elem_of_cons Hf'; [|by apply H4]. exists q. apply H3. rewrite elem_of_app, elem_of_cons. auto.
Qed.

Lemma last_fva_spec s T p a : forall h fuel,
  seg f_next fdat (pnodes (fpool s)) h (T ++ [(p, a)]) 0 -> (length T < fuel)%nat -> last_fva fuel h s = Ok (p, s).
Proof.
  induction T as [|[q b] T IH]; intros h fuel Hs Hf; (destruct fuel as [|fuel]; [cbn in Hf; lia|]);
    cbn [last_fva app seg] in *; destruct Hs as (-> & Hq & v & Hv & Hd & Hs).
  - destruct (Z.eqb_spec p 0); [done|]. erewrite bind_ok; [|by apply fva_get_ok].
    destruct (Z.eqb_spec (f_next v) 0); done.
  - destruct (Z.eqb_spec q 0); [done|]. erewrite bind_ok; [|by apply fva_get_ok].
    destruct (Z.eqb_spec (f_next v) 0) as [E|]; [|apply IH; [done|cbn in Hf; lia]].
    exfalso. rewrite E in Hs. destruct T as [|[r c] T]; cbn in Hs; by destruct Hs as (<- & ? & _).
Qed.

Lemma vmalloc_update_memregs_spec s k ka d da U V ch n mregs :
  vm_inv KMAP_LIST s [(k, ka)] [(d, da)] U V ch (2 * length mregs + n) -> memregs_ok mregs ->
  (forall x, in_use mregs x -> in_area x ka) -> (exists x, in_area x ka /\ ~ in_use mregs x) ->
  wp (vmalloc_update_memregs reserve_malloc raw_kfree mregs) (fun r s' => mm_addr_space s' = mm_addr_space s /\ exists T' U' ch' a,
    vm_inv KMAP_LIST s' T' [(d, da)] U' V ch' n /\ last T'.*2 = Some a /\ r = sext a.1 48 /\
    (forall x, covers T'.*2 x <-> in_area x ka /\ ~ in_use mregs x) /\
    (forall e, e ∈ U -> e ∈ U') /\
    forall mb, mb ∈ mregs -> mr_free mb = false ->
      exists q, (q, ((mr_addr mb + 2 ^ 47, mr_pages mb * PAGE_SIZE), memreg_mdt mb)) ∈ U') s.
Proof.
  intros HI Hok Hin (x0 & Hx0 & Hn0). pose proof (vi_f _ _ _ _ _ _ _ _ _ HI) as Hf.
  destruct (fo_T _ _ _ _ _ _ _ _ Hf) as (Ek & Hk0 & vk & Hvk & _ & Hk1).
  destruct (fo_O _ _ _ _ _ _ _ _ Hf) as (Ed & Hd0 & vd & Hvd & _ & Hd1).
  cbn in Ek, Ed, Hk1, Hd1. unfold vmalloc_update_memregs.
  assert (forall x, covers [(k, ka)].*2 x <-> in_area x ka) as Hcov.
  { intros x. cbn. rewrite covers_cons, covers_nil. tauto. }
  apply wp_bind, wp_gets, wp_bind, wp_gets. rewrite Ek, Ed. apply wp_bind, wp_ASSERT.
  { destruct (Z.eqb_spec k 0), (Z.eqb_spec d 0); done. }
  apply wp_bind. eapply fva_get_wp; [done|]. apply wp_bind. eapply fva_get_wp; [done|]. apply wp_bind, wp_ASSERT.
  { by rewrite Hk1, Hd1. }
  apply wp_bind. eapply wp_mono; [apply (memregs_loop_spec mregs s _ _ _ _ _ n HI Hok)|].
  { intros x Hx. by apply Hcov, Hin. }
  intros _ s' (E & T' & U' & ch' & H1 & H2 & H3 & H4). apply wp_bind, wp_gets, wp_bind, wp_gets.
  setoid_rewrite Hcov in H2. destruct T' as [|[p a] T' _] using rev_ind.
  { exfalso. by apply (covers_nil x0), H2. }
  pose proof (vi_f _ _ _ _ _ _ _ _ _ H1) as Hf'. pose proof (fo_T _ _ _ _ _ _ _ _ Hf') as HT. cbn [fva_head] in HT.
  apply wp_bind. unfold wp at 1. erewrite last_fva_spec; [|exact HT|].
  2: { apply f_fuel_ok in Hf'. rewrite length_app in Hf'. cbn in Hf'. lia. }
  apply seg_middle in HT as (v & Hv & Hd & _). apply wp_bind. eapply fva_get_wp; [done|].
  assert (f_start v = a.1) as -> by by subst a.
  assert (2 ^ 47 <= a.1 < 2 ^ 48) as Hw.
  { pose proof (vi_l _ _ _ _ _ _ _ _ _ H1) as Hl. apply (win_bounds _ (vi_sp _ _ _ _ _ _ _ _ _ H1) KMAP_LIST).
    apply (wo_cover _ _ _ _ Hl). left. rewrite fmap_app. apply (covers_elem _ a); [set_solver|].
    destruct (area_bounds _ a (wo_free _ _ _ _ Hl)) as (_ & ? & _); [rewrite fmap_app; set_solver|]. unfold in_area. lia. }
  unfold wp. rewrite vsign_ok by done. split; [done|]. exists (T' ++ [(p, a)]), U', ch', a. split; [done|].
  split; [rewrite fmap_app; cbn; by rewrite last_snoc|]. done.
Qed.
End Memregs.
