(* ===== verification/VmallocCorrect.v ===== *)
(** * VmallocCorrect: what vmalloc promises

    The theorems about vmalloc.c, stated against any page source that obeys
    [PageSource], with a page source that hands out ever higher addresses as
    the instance on which they are tried. *)

From Stdlib Require Import ZArith Lia.
From stdpp Require Import base tactics numbers gmap list.
From S2P Require Import Prelude KMath PageAllocator VmContainers VmContainersSpec Vmalloc VmLists VmallocSpec VmallocReserved VmallocBlocks VmallocInv VmallocOps VmallocQueries VmallocBoot.

Open Scope Z_scope.

(** ** A page source *)

Definition bump_reserve (a : Z) : res (Z * Z) := Ok (a, a + PAGE_SIZE).
Definition bump_kfree (va a : Z) : res Z := Ok a.

Definition bump_inv (a : Z) (live : gset Z) (n : nat) : Prop :=
  0 < a /\ (PAGE_SIZE | a) /\ a + Z.of_nat n * PAGE_SIZE <= 2 ^ 64 /\ forall x, x ∈ live -> x < a.

#[export] Instance bump_source : PageSource bump_reserve bump_kfree bump_inv.
Proof.
  split.
  - intros a live n (H1 & H2 & H3 & H4). exists a, (a + PAGE_SIZE). unfold PAGE_SIZE in *. split; [done|].
    split; [intros ?%H4; lia|]. split; [split; [done|split; [unfold PAGE_SIZE; lia|done]]|].
    split; [lia|]. split; [apply Z.divide_add_r; [done|by exists 1]|]. split; [unfold PAGE_SIZE; lia|].
    intros x [->%elem_of_singleton|?%H4]%elem_of_union; lia.
  - intros a live n va (H1 & H2 & H3 & H4) Hva. exists a. split; [done|]. split_and!; try done.
    intros x [? _]%elem_of_difference. by apply H4.
  - intros a live n (H1 & H2 & H3 & H4). unfold PAGE_SIZE in *. split_and!; try done. unfold PAGE_SIZE. lia.
Qed.

(** An address space of 8 GiB, three container pages, and what
    [vmalloc_init] makes of them. *)
Definition space : Z := 2 ^ 33.
Definition no_pool {N} : pool (N := N) := MkPool 0 ∅ ∅.
Definition raw_state : vm_state (A := Z) :=
  MkVm no_pool no_pool no_pool 0 0 0 0 space (kpa_to_kva (2 ^ 30)).
Definition boot_pages : Z * Z * Z := (kpa_to_kva (2 ^ 29), kpa_to_kva (2 ^ 29 + 4096), kpa_to_kva (2 ^ 29 + 8192)).
Definition boot (s : vm_state) (f r m : Z) : vm_state (A := Z) :=
  match vmalloc_init bump_reserve f r m s with Ok (_, s') => s' | Err _ => s end.
Definition boot_state : vm_state := boot raw_state boot_pages.1.1 boot_pages.1.2 boot_pages.2.

Lemma boot_ok s f r m n :
  page_ok f -> page_ok r -> page_ok m -> f <> r -> f <> m -> r <> m -> bump_inv (pages s) {[f; r; m]} (S (S n)) ->
  space_ok (mm_addr_space s) ->
  exists k d, vm_inv bump_inv KMAP_LIST (boot s f r m) [(k, (2 ^ 47, mm_addr_space s))]
    [(d, (2 ^ 47 + mm_addr_space s, 2 ^ 47 - mm_addr_space s))] [] [] (fun _ => []) n.
Proof.
  intros. pose proof (vmalloc_init_spec bump_reserve bump_kfree bump_inv s f r m n) as HI.
  apply wp_ok in HI as (x & s' & E & _ & k & d & HI); [|done..].
  exists k, d. unfold boot. by rewrite E.
Qed.

Lemma raw_source : bump_inv (pages raw_state) {[boot_pages.1.1; boot_pages.1.2; boot_pages.2]} 100.
Proof.
  split; [done|]. split; [by exists 4503565267894272|]. split; [done|]. intros x Hx.
  rewrite !elem_of_union, !elem_of_singleton in Hx. by destruct Hx as [[->| ->]| ->].
Qed.

Lemma boot_page_ok : page_ok boot_pages.1.1 /\ page_ok boot_pages.1.2 /\ page_ok boot_pages.2.
Proof.
  split; [|split]; (split; [done|]; split; [done|]).
  - by exists 4503565267763200.
  - by exists 4503565267763201.
  - by exists 4503565267763202.
Qed.

Lemma space_is_ok : space_ok space.
Proof. split; [done|]. by exists (2 ^ 21). Qed.

Lemma boot_inv : exists k d,
  vm_inv bump_inv KMAP_LIST boot_state [(k, (2 ^ 47, space))] [(d, (2 ^ 47 + space, 2 ^ 47 - space))] [] [] (fun _ => []) 98.
Proof.
  destruct boot_page_ok as (H1 & H2 & H3).
  assert (boot_pages.1.1 <> boot_pages.1.2 /\ boot_pages.1.1 <> boot_pages.2 /\ boot_pages.1.2 <> boot_pages.2)
    as (D1 & D2 & D3) by (split_and!; by apply Z.eqb_neq).
  exact (boot_ok raw_state _ _ _ 98 H1 H2 H3 D1 D2 D3 raw_source space_is_ok).
Qed.

Lemma boot_inv_dynamic : exists k d,
  vm_inv bump_inv DYNAMIC_LIST boot_state [(d, (2 ^ 47 + space, 2 ^ 47 - space))] [(k, (2 ^ 47, space))] [] [] (fun _ => []) 98.
Proof.
  destruct boot_inv as (k & d & HI). exists k, d. exact (vm_inv_swap bump_reserve bump_kfree bump_inv KMAP_LIST _ _ _ _ _ _ _ HI).
Qed.

(** ** Theorems *)

Section Claims.
Context {A : Type} (reserve_malloc : A -> res (Z * A)) (raw_kfree : Z -> A -> res A).
Context (Inv : A -> gset Z -> nat -> Prop) `{PS : !PageSource reserve_malloc raw_kfree Inv}.
Implicit Types (s : vm_state (A := A)) (T O : list (Z * area)) (U V : list (Z * (area * vmalloc_mdt))).

(** [vmalloc_init] on three fresh pages returns, and establishes the
    invariant: one free area for each of the two windows, nothing reserved. *)
Theorem vmalloc_init_ok s f r m n
    (Hf : page_ok f) (Hr : page_ok r) (Hm : page_ok m) (Hd : NoDup [f; r; m])
    (HA : Inv (pages s) {[f; r; m]} (S (S n))) (Hsp : space_ok (mm_addr_space s)) :
  wp (vmalloc_init reserve_malloc f r m) (fun _ s' => mm_addr_space s' = mm_addr_space s /\ exists k d,
    vm_inv Inv KMAP_LIST s' [(k, (2 ^ 47, mm_addr_space s))]
      [(d, (2 ^ 47 + mm_addr_space s, 2 ^ 47 - mm_addr_space s))] [] [] (fun _ => []) n) s.
Proof.
  rewrite !NoDup_cons in Hd. destruct Hd as (H1 & H2 & _). rewrite !not_elem_of_cons in *.
  apply (vmalloc_init_spec reserve_malloc raw_kfree Inv); naive_solver.
Qed.

(** C18: [vmalloc_update_memregs] on page-aligned, disjoint regions inside the
    KMAP window returns the canonical start of the last free area, reserves
    every region that is in use with its metadata, takes exactly those
    addresses out of the free areas, and keeps the invariant. *)
Theorem vmalloc_update_memregs_ok s k ka d da U V ch n mregs
    (HI : vm_inv Inv KMAP_LIST s [(k, ka)] [(d, da)] U V ch (2 * length mregs + n)) (Hok : memregs_ok mregs)
    (Hin : forall x, in_use mregs x -> in_area x ka) (Hrest : exists x, in_area x ka /\ ~ in_use mregs x) :
  wp (vmalloc_update_memregs reserve_malloc raw_kfree mregs) (fun r s' => mm_addr_space s' = mm_addr_space s /\ exists T' U' ch' a,
    vm_inv Inv KMAP_LIST s' T' [(d, da)] U' V ch' n /\ last T'.*2 = Some a /\ r = sext a.1 48 /\
    (forall x, covers T'.*2 x <-> in_area x ka /\ ~ in_use mregs x) /\
    (forall e, e ∈ U -> e ∈ U') /\
    forall mb, mb ∈ mregs -> mr_free mb = false ->
      exists q, (q, ((mr_addr mb + 2 ^ 47, mr_pages mb * PAGE_SIZE), memreg_mdt mb)) ∈ U') s.
Proof. by apply (vmalloc_update_memregs_spec reserve_malloc raw_kfree Inv s k ka d da U V ch). Qed.

(** C5: a DYNAMIC [vmalloc] for which some free area is large enough returns
    the canonical address of the start of such an area; the range becomes a
    reserved area with the caller's tag and flags and no blocks, every other
    area stays as it was, and the invariant holds again. *)
Theorem vmalloc_dynamic_ok s T O U V ch n pgs tag cfg
    (HI : vm_inv Inv DYNAMIC_LIST s T O U V ch (S (S n))) (Hk : vc_use_kmap cfg = false) (Hp : 0 < pgs)
    (Hlim : pgs * PAGE_SIZE < 2 ^ 64) (Hfit : fits_free T (pgs * PAGE_SIZE)) :
  wp (vmalloc reserve_malloc raw_kfree pgs tag cfg) (fun r s' => exists u a,
    a ∈ T.*2 /\ a.1 = u /\ pgs * PAGE_SIZE <= a.2 /\ r.1 = sext u 48 /\
    reserved_at Inv DYNAMIC_LIST s T O U V ch n u (pgs * PAGE_SIZE) (area_mdt tag cfg) r.2 s') s.
Proof. by apply (vmalloc_dynamic_spec reserve_malloc raw_kfree Inv). Qed.

(** C10: a KMAP [vmalloc] of a power-of-two number of pages whose kernel alias
    is free returns exactly that alias, reserves exactly that range and keeps
    the invariant. *)
Theorem vmalloc_kmap_ok s T O U V ch n pgs tag cfg
    (HI : vm_inv Inv KMAP_LIST s T O U V ch (S (S n))) (Hk : vc_use_kmap cfg = true) (Has : vc_assign_pa cfg = true)
    (Hpow : is_pow2 pgs = true) (Hp : 0 < pgs) (Hlim : pgs * PAGE_SIZE < 2 ^ 64)
    (Hpa : 0 <= vc_kmap_pa cfg) (Hal : (PAGE_SIZE | vc_kmap_pa cfg))
    (Hfree : forall x, in_range (vc_kmap_pa cfg + 2 ^ 47) (pgs * PAGE_SIZE) x -> covers T.*2 x) :
  wp (vmalloc reserve_malloc raw_kfree pgs tag cfg) (fun r s' =>
    r.1 = kpa_to_kva (vc_kmap_pa cfg) /\
    reserved_at Inv KMAP_LIST s T O U V ch n (vc_kmap_pa cfg + 2 ^ 47) (pgs * PAGE_SIZE) (area_mdt tag cfg) r.2 s') s.
Proof. by apply (vmalloc_kmap_spec reserve_malloc raw_kfree Inv). Qed.

(** [vmalloc] panics, and does not return a wrong range, when no DYNAMIC
    area is large enough, and when part of the KMAP range asked for is not
    free. *)
Theorem vmalloc_exhausted s T O U V ch n pgs tag cfg
    (HI : vm_inv Inv (if vc_use_kmap cfg then KMAP_LIST else DYNAMIC_LIST) s T O U V ch n) (Hp : 0 < pgs)
    (Hlim : pgs * PAGE_SIZE < 2 ^ 64)
    (Hno : if vc_use_kmap cfg
           then 0 <= vc_kmap_pa cfg /\ vc_kmap_pa cfg + pgs * PAGE_SIZE <= 2 ^ 47 /\
             exists x, in_range (vc_kmap_pa cfg + 2 ^ 47) (pgs * PAGE_SIZE) x /\ ~ covers T.*2 x
           else ~ fits_free T (pgs * PAGE_SIZE)) :
  vmalloc reserve_malloc raw_kfree pgs tag cfg s = Err EPanic.
Proof.
  destruct (vc_use_kmap cfg) eqn:E.
  - destruct Hno as (H1 & H2 & H3). by apply (vmalloc_kmap_panics reserve_malloc raw_kfree Inv s T O U V ch n).
  - by apply (vmalloc_dynamic_panics reserve_malloc raw_kfree Inv s T O U V ch n).
Qed.

(** C6: freeing a non-permanent reserved area by its token returns its size
    and metadata, makes exactly its addresses free again (joined with the
    free neighbours), removes it from the reserved areas and keeps the
    invariant. *)
Theorem vfree_ok l s T O U1 q d U2 V ch n
    (HI : vm_inv Inv l s T O (U1 ++ (q, d) :: U2) V ch (S n)) (Hperm : vi_permanent (mdt_info d.2) = false) :
  wp (vmalloc_token_vfree reserve_malloc raw_kfree q) (fun r s' => r = (d.1.2, mdt_info d.2) /\
    mm_addr_space s' = mm_addr_space s /\ exists T', vm_inv Inv l s' T' O (U1 ++ U2) V ch n /\
      forall x, covers T'.*2 x <-> covers T.*2 x \/ in_range d.1.1 d.1.2 x) s.
Proof. by apply (vmalloc_token_vfree_spec reserve_malloc raw_kfree Inv l s T O U1 q d U2). Qed.

(** Allocating a DYNAMIC range and freeing it by its address restores the
    lists of areas: the same free areas in the same order (coalescing undoes
    the split) and the same reserved areas. *)
Theorem vmalloc_vfree_roundtrip s T O U V ch n pgs tag cfg
    (HI : vm_inv Inv DYNAMIC_LIST s T O U V ch (S (S (S n)))) (Hk : vc_use_kmap cfg = false)
    (Hperm : vc_permanent cfg = false) (Hp : 0 < pgs)
    (Hlim : pgs * PAGE_SIZE < 2 ^ 64) (Hfit : fits_free T (pgs * PAGE_SIZE)) :
  wp (let* r := vmalloc reserve_malloc raw_kfree pgs tag cfg in voidptr_vfree reserve_malloc raw_kfree r.1)
     (fun r s' => r = (pgs * PAGE_SIZE, mdt_info (area_mdt tag cfg)) /\
        exists T' ch', vm_inv Inv DYNAMIC_LIST s' T' O U V ch' n /\ T'.*2 = T.*2) s.
Proof.
  pose proof (vi_l _ _ _ _ _ _ _ _ _ HI) as Hl. apply wp_bind.
  eapply wp_mono; [by eapply (vmalloc_dynamic_spec reserve_malloc raw_kfree Inv s T O U V ch (S n))|].
  intros [va q] s1 (u & a & Ha & Hau & Hle & Eva & Hsub & T1 & U1 & U2 & -> & Esp & HI1 & Hc1). cbn [fst snd] in *.
  unfold voidptr_vfree, vmalloc_get_token. apply wp_bind, wp_bind. unfold wp at 1.
  rewrite (find_rva_ok reserve_malloc raw_kfree Inv _ _ _ _ _ _ _ _ _ _ _ va HI1) by (by right).
  apply wp_ret. cbn [fst].
  eapply wp_mono; [by apply (vmalloc_token_vfree_spec reserve_malloc raw_kfree Inv _ _ _ _ _ _ _ _ _ _ _ HI1)|].
  intros r s2 (-> & _ & T2 & HI2 & Hc2). split; [done|]. exists T2, (set_chain ch q []). split; [done|].
  apply (spaced_canonical (-1)); [apply (vi_l _ _ _ _ _ _ _ _ _ HI2)|apply Hl|].
  intros x. rewrite Hc2, Hc1. cbn [fst snd]. specialize (Hsub x).
  assert (in_range u (pgs * PAGE_SIZE) x \/ ~ in_range u (pgs * PAGE_SIZE) x) by (unfold in_range; lia). tauto.
Qed.

(** [vmalloc_get_addr_info] gives the right answer for every canonical
    address of the upper half: the free area that contains it, or else the
    reserved area with its metadata; it never says "unregistered". *)
Theorem vmalloc_get_addr_info_ok l s T O U V ch n u
    (HI : vm_inv Inv l s T O U V ch n)
    (Hu : win_lo (mm_addr_space s) l <= u < win_hi (mm_addr_space s) l) :
  (exists a, a ∈ T.*2 /\ in_area u a /\
     vmalloc_get_addr_info (sext u 48) s = Ok (VMALLOC_VA_INFO_FREE (sext a.1 48) a.2, s)) \/
  (exists d, d ∈ U.*2 /\ in_area u d.1 /\
     vmalloc_get_addr_info (sext u 48) s = Ok (VMALLOC_VA_INFO_RESERVED (sext d.1.1 48) d.1.2 d.2, s)).
Proof. by eapply vmalloc_get_addr_info_spec. Qed.

(** Whatever has been allocated and freed, the two byte counters do not
    overflow and add up to the 2^47 bytes of the upper half. *)
Theorem vmalloc_bytes_conserved s T O U V ch n
    (HI : vm_inv Inv KMAP_LIST s T O U V ch n) :
  exists f r, vmalloc_get_free_bytes s = Ok (f, s) /\ vmalloc_get_reserved_bytes s = Ok (r, s) /\ f + r = 2 ^ 47.
Proof.
  destruct (free_bytes_spec Inv s T O U V ch n HI) as (H1 & H2 & H3).
  exists (total T.*2 + total O.*2), (total (areas U) + total (areas V)). done.
Qed.

(** A block recorded with [vmalloc_push_pa] is inserted at its place by
    virtual address behind the blocks recorded before it, and
    [vmalloc_get_pa_info] into a large enough buffer reads all blocks back in
    that order; the lists of areas do not change. *)
Theorem push_pa_roundtrip l s T O U1 q d U2 V ch n o pa va buf_size
    (HI : vm_inv Inv l s T O (U1 ++ (q, d) :: U2) V ch (S n)) (Hs : va_sorted 0 (ch q).*2) (Hva : 0 <= va)
    (Hlim : Z.of_nat (length (ch q)) + 1 < 2 ^ 32) (Hbuf : Z.of_nat (length (ch q)) + 1 <= buf_size) :
  wp (vmalloc_push_pa reserve_malloc q o pa va ;; vmalloc_get_pa_info q buf_size)
     (fun r s' => r = (true, insert_block (MkPaInfo pa va o) (ch q).*2) /\ va_sorted 0 r.2 /\
        exists m ch', vm_inv Inv l s' T O (U1 ++ (q, (d.1, m)) :: U2) V ch' n /\ mdt_info m = mdt_info d.2) s.
Proof.
  apply wp_bind. eapply wp_mono; [by eapply (vmalloc_push_pa_spec reserve_malloc raw_kfree Inv)|].
  intros _ s1 (_ & m & C & HI1 & Em & EC).
  assert (length C = S (length (ch q))) as EL.
  { rewrite <- (length_fmap snd C), EC, length_insert_block, length_fmap. done. }
  unfold wp. rewrite (vmalloc_pa_info_ok reserve_malloc raw_kfree Inv _ _ _ _ _ _ _ _ _ _ _ _ HI1) by (rewrite set_chain_eq; lia).
  rewrite set_chain_eq, EC, EL. destruct (Z.ltb_spec buf_size (Z.of_nat (S (length (ch q))))); [lia|].
  split; [done|]. split; [by apply insert_block_sorted|]. by exists m, (set_chain ch q C).
Qed.

(** Looking up an address of the upper half that is not the start of a
    reserved area, while the list has areas, dereferences the null link at
    the end of the list instead of reporting the miss. *)
Theorem find_rva_miss_faults l s T O U V ch n u
    (HI : vm_inv Inv l s T O U V ch n) (HU : U <> [])
    (Hu : win_lo (mm_addr_space s) l <= u < win_hi (mm_addr_space s) l) (Hno : forall a, a ∈ areas U -> a.1 <> u) :
  vmalloc_get_token (sext u 48) s = Err EFault /\ voidptr_vfree reserve_malloc raw_kfree (sext u 48) s = Err EFault.
Proof.
  assert (vmalloc_get_token (sext u 48) s = Err EFault) as E.
  { unfold vmalloc_get_token. erewrite bind_err; [done|].
    erewrite (find_rva_absent reserve_malloc raw_kfree Inv) by (done || by right). by rewrite decide_False. }
  split; [done|]. unfold voidptr_vfree. by erewrite bind_err.
Qed.

End Claims.

(** ** The theorems on the booted state *)

Definition dyn_cfg : vmalloc_cfg := MkCfg false 0 true false false.
Definition kmap_cfg (pa : Z) : vmalloc_cfg := MkCfg true pa true false false.

Lemma vmalloc_init_ok_witness :
  exists x s', vmalloc_init bump_reserve boot_pages.1.1 boot_pages.1.2 boot_pages.2 raw_state = Ok (x, s').
Proof.
  destruct boot_page_ok as (H1 & H2 & H3).
  assert (NoDup [boot_pages.1.1; boot_pages.1.2; boot_pages.2]) as D by (apply (bool_decide_unpack _); vm_compute; exact I).
  destruct (wp_returns _ _ _ (vmalloc_init_ok bump_reserve bump_kfree bump_inv raw_state _ _ _ 98 H1 H2 H3 D raw_source
    space_is_ok)) as (x & s' & E & _).
  exists x, s'. exact E.
Defined.

(** Two regions in use and a free one. *)
Definition some_regs : list early_memreg :=
  [MkMemreg 0 16 false 0 true false; MkMemreg 65536 8 true 0 false false; MkMemreg 131072 2 false 0 false true].

Lemma some_regs_ok : memregs_ok some_regs.
Proof.
  cbn. split; [|split; [done|split; [|done]]].
  - intros _. split; [done|]. split; [done|]. split; [by exists 0|]. split; [done|].
    intros mb x [->|[->|Hn]%elem_of_cons]%elem_of_cons Hf H1 H2; [done| |set_solver].
    unfold in_memreg, in_range, PAGE_SIZE in *. cbn in H1, H2. lia.
  - intros _. split; [done|]. split; [done|]. split; [by exists 32|]. split; [done|]. intros mb x Hn. set_solver.
Qed.

Lemma some_regs_use x : in_use some_regs x -> 2 ^ 47 <= x < 2 ^ 47 + 139264.
Proof.
  intros (mb & Hmb & Hf & Hx). unfold some_regs in Hmb. rewrite !elem_of_cons in Hmb.
  unfold in_memreg, in_range, PAGE_SIZE in Hx.
  destruct Hmb as [->|[->|[->|Hn]]]; [cbn in Hx; lia|done|cbn in Hx; lia|set_solver].
Qed.

Lemma vmalloc_update_memregs_ok_witness :
  exists r s', vmalloc_update_memregs bump_reserve bump_kfree some_regs boot_state = Ok (r, s').
Proof.
  destruct boot_inv as (k & d & HI).
  destruct (wp_returns _ _ _ (vmalloc_update_memregs_ok bump_reserve bump_kfree bump_inv boot_state k _ d _ [] [] _ 92
    some_regs HI some_regs_ok
    ltac:(intros x Hx%some_regs_use; unfold in_area, space; cbn [fst snd]; lia)
    ltac:(exists (2 ^ 47 + 2 ^ 20); split; [unfold in_area, space; cbn [fst snd]; lia|intros Hx%some_regs_use; lia])))
    as (r & s' & E & _).
  exists r, s'. exact E.
Defined.

Lemma boot_fits d pgs : pgs * PAGE_SIZE <= 2 ^ 46 -> fits_free [(d, (2 ^ 47 + space, 2 ^ 47 - space))] (pgs * PAGE_SIZE).
Proof. intros H. eexists. split; [by apply list_elem_of_singleton|]. unfold space. cbn [snd]. lia. Qed.

Lemma vmalloc_dynamic_ok_witness :
  exists r s', vmalloc bump_reserve bump_kfree 3 7 dyn_cfg boot_state = Ok (r, s') /\ r.1 = sext (2 ^ 47 + space) 48.
Proof.
  destruct boot_inv_dynamic as (k & d & HI).
  destruct (wp_returns _ _ _ (vmalloc_dynamic_ok bump_reserve bump_kfree bump_inv boot_state _ _ _ _ _ 96 3 7 dyn_cfg HI
    eq_refl ltac:(lia) ltac:(unfold PAGE_SIZE; lia) (boot_fits d 3 ltac:(unfold PAGE_SIZE; lia))))
    as (r & s' & E & u & a & Ha & Hu & _ & Er & _).
  exists r, s'. split; [exact E|]. cbn in Ha. apply list_elem_of_singleton in Ha as ->. cbn in Hu. by rewrite Er, <- Hu.
Defined.

Lemma boot_kmap_free (k : Z) : forall x, in_range (2 ^ 32 + 2 ^ 47) (4 * PAGE_SIZE) x -> covers [(k, (2 ^ 47, space))].*2 x.
Proof.
  intros x Hx. eexists. split; [by apply list_elem_of_singleton|].
  unfold in_area, in_range, space, PAGE_SIZE in *. cbn [fst snd]. lia.
Qed.

Lemma vmalloc_kmap_ok_witness :
  exists r s', vmalloc bump_reserve bump_kfree 4 7 (kmap_cfg (2 ^ 32)) boot_state = Ok (r, s') /\ r.1 = kpa_to_kva (2 ^ 32).
Proof.
  destruct boot_inv as (k & d & HI).
  destruct (wp_returns _ _ _ (vmalloc_kmap_ok bump_reserve bump_kfree bump_inv boot_state _ _ _ _ _ 96 4 7 (kmap_cfg (2 ^ 32)) HI
    eq_refl eq_refl eq_refl ltac:(lia) ltac:(unfold PAGE_SIZE; lia) ltac:(cbn; lia) ltac:(by exists (2 ^ 20)) (boot_kmap_free k)))
    as (r & s' & E & Er & _).
  exists r, s'. split; [exact E|exact Er].
Defined.

Lemma vmalloc_exhausted_witness :
  vmalloc bump_reserve bump_kfree (2 ^ 35) 7 dyn_cfg boot_state = Err EPanic.
Proof.
  destruct boot_inv_dynamic as (k & d & HI).
  apply (vmalloc_exhausted bump_reserve bump_kfree bump_inv boot_state _ _ _ _ _ 98 (2 ^ 35) 7 dyn_cfg HI);
    [lia|unfold PAGE_SIZE; lia|].
  intros (a & Ha & Hle). cbn in Ha. apply list_elem_of_singleton in Ha as ->.
  unfold PAGE_SIZE, space in Hle. cbn [snd] in Hle. lia.
Defined.

Lemma vmalloc_vfree_roundtrip_witness :
  exists r s', (let* r := vmalloc bump_reserve bump_kfree 3 7 dyn_cfg in voidptr_vfree bump_reserve bump_kfree r.1) boot_state
    = Ok (r, s') /\ r.1 = 3 * PAGE_SIZE.
Proof.
  destruct boot_inv_dynamic as (k & d & HI).
  destruct (wp_returns _ _ _ (vmalloc_vfree_roundtrip bump_reserve bump_kfree bump_inv boot_state _ _ _ _ _ 95 3 7 dyn_cfg HI
    eq_refl eq_refl ltac:(lia) ltac:(unfold PAGE_SIZE; lia) (boot_fits d 3 ltac:(unfold PAGE_SIZE; lia))))
    as (r & s' & E & Er & _).
  exists r, s'. split; [exact E|]. by rewrite Er.
Defined.

Lemma vmalloc_get_addr_info_ok_witness :
  exists i, vmalloc_get_addr_info (sext (2 ^ 47 + 4096) 48) boot_state = Ok (i, boot_state).
Proof.
  destruct boot_inv as (k & d & HI).
  destruct (vmalloc_get_addr_info_ok bump_inv KMAP_LIST boot_state _ _ _ _ _ _ (2 ^ 47 + 4096) HI) as [(a & _ & _ & E)|(a & _ & _ & E)].
  - split; [vm_compute; discriminate|vm_compute; reflexivity].
  - eexists. exact E.
  - eexists. exact E.
Defined.

Lemma vmalloc_bytes_conserved_witness :
  exists f r, vmalloc_get_free_bytes boot_state = Ok (f, boot_state) /\
    vmalloc_get_reserved_bytes boot_state = Ok (r, boot_state) /\ f + r = 2 ^ 47.
Proof.
  destruct boot_inv as (k & d & HI).
  exact (vmalloc_bytes_conserved bump_inv boot_state _ _ _ _ _ _ HI).
Defined.

(** The booted state with one allocation. *)
Definition alloc (pgs tag : Z) (cfg : vmalloc_cfg) (s : vm_state) : Z * vm_state :=
  match vmalloc bump_reserve bump_kfree pgs tag cfg s with Ok (r, s') => (r.2, s') | Err _ => (0, s) end.
Definition one_area : Z * vm_state := alloc 3 7 dyn_cfg boot_state.

Lemma alloc_ok s T O V ch n pgs tag cfg :
  vm_inv bump_inv DYNAMIC_LIST s T O [] V ch (S (S n)) -> vc_use_kmap cfg = false -> 0 < pgs ->
  pgs * PAGE_SIZE < 2 ^ 64 -> fits_free T (pgs * PAGE_SIZE) ->
  exists u T', vm_inv bump_inv DYNAMIC_LIST (alloc pgs tag cfg s).2 T' O
    [((alloc pgs tag cfg s).1, ((u, pgs * PAGE_SIZE), area_mdt tag cfg))] V
    (set_chain ch (alloc pgs tag cfg s).1 []) n /\ mm_addr_space (alloc pgs tag cfg s).2 = mm_addr_space s /\
    exists a, a ∈ T.*2 /\ a.1 = u.
Proof.
  intros HI Hk Hp Hlim Hfit.
  destruct (wp_returns _ _ _ (vmalloc_dynamic_spec bump_reserve bump_kfree bump_inv _ _ _ _ _ _ _ _ tag _ HI Hk Hp Hlim Hfit))
    as (r & s' & E & u & a & Ha & Hu & _ & _ & _ & T' & U1 & U2 & EU & Esp & HI' & _).
  unfold alloc. rewrite E. symmetry in EU. apply app_eq_nil in EU as [-> ->]. exists u, T'. eauto.
Qed.

Lemma one_area_inv : exists T' O, vm_inv bump_inv DYNAMIC_LIST one_area.2 T' O
    ([] ++ (one_area.1, ((2 ^ 47 + space, 3 * PAGE_SIZE), area_mdt 7 dyn_cfg)) :: []) []
    (set_chain (fun _ => []) one_area.1 []) 96 /\ mm_addr_space one_area.2 = mm_addr_space boot_state.
Proof.
  destruct boot_inv_dynamic as (k & d & HI).
  destruct (alloc_ok _ _ _ _ _ 96 3 7 dyn_cfg HI eq_refl ltac:(lia) ltac:(unfold PAGE_SIZE; lia)
    (boot_fits d 3 ltac:(unfold PAGE_SIZE; lia))) as (u & T' & HI' & Esp & a & Ha & Hu).
  cbn in Ha. apply list_elem_of_singleton in Ha as ->. cbn in Hu. subst u. exists T', [(k, (2 ^ 47, space))].
  split; [exact HI'|exact Esp].
Qed.

Lemma vfree_ok_witness :
  exists r s', vmalloc_token_vfree bump_reserve bump_kfree one_area.1 one_area.2 = Ok (r, s') /\ r.1 = 3 * PAGE_SIZE.
Proof.
  destruct one_area_inv as (T' & O & HI & _).
  destruct (wp_returns _ _ _ (vfree_ok bump_reserve bump_kfree bump_inv DYNAMIC_LIST one_area.2 _ _ _ _ _ _ _ _ 95 HI eq_refl))
    as (r & s' & E & Er & _).
  exists r, s'. split; [exact E|]. by rewrite Er.
Defined.

Lemma push_pa_roundtrip_witness :
  exists r s', (vmalloc_push_pa bump_reserve one_area.1 0 4096 (kpa_to_kva 4096) ;; vmalloc_get_pa_info one_area.1 1) one_area.2
    = Ok (r, s') /\ r = (true, [MkPaInfo 4096 (kpa_to_kva 4096) 0]).
Proof.
  destruct one_area_inv as (T' & O & HI & _).
  destruct (wp_returns _ _ _ (push_pa_roundtrip bump_reserve bump_kfree bump_inv DYNAMIC_LIST one_area.2 _ _ _ _ _ _ _ _ 95
    0 4096 (kpa_to_kva 4096) 1 HI ltac:(by rewrite set_chain_eq) ltac:(done) ltac:(by rewrite set_chain_eq)
    ltac:(by rewrite set_chain_eq))) as (r & s' & E & Er & _).
  exists r, s'. split; [exact E|]. rewrite Er, set_chain_eq. reflexivity.
Defined.

Lemma find_rva_miss_faults_witness :
  vmalloc_get_token (sext (2 ^ 47 + space + 4096) 48) one_area.2 = Err EFault.
Proof.
  destruct one_area_inv as (T' & O & HI & Esp).
  assert (mm_addr_space boot_state = space) as E0 by (vm_compute; reflexivity).
  apply (find_rva_miss_faults bump_reserve bump_kfree bump_inv DYNAMIC_LIST one_area.2 _ _ _ _ _ _ (2 ^ 47 + space + 4096) HI).
  - discriminate.
  - rewrite Esp, E0. unfold win_lo, win_hi, space. lia.
  - intros a Ha. cbn in Ha. apply list_elem_of_singleton in Ha as ->. cbn [fst]. lia.
Defined.

(** A DYNAMIC request of 2 MiB is placed right behind a small one, at an
    address that is not 2 MiB aligned, although the test that selected the
    area was that the request fits at a 2 MiB aligned address. *)
Theorem dynamic_pop_not_huge_aligned :
  exists va q, result (vmalloc bump_reserve bump_kfree 512 7 dyn_cfg) one_area.2 = Ok (va, q) /\
    page_align_for (512 * PAGE_SIZE) = PAGE_L2 /\
    dynamic_fits_page_aligned PAGE_L2 (512 * PAGE_SIZE) (2 ^ 47 + space + 3 * PAGE_SIZE) (2 ^ 48) = true /\
    is_aligned va PAGE_L2 = false.
Proof. eexists _, _. split; [vm_compute; reflexivity|]. split; [reflexivity|]. split; reflexivity. Qed.

(** ** Node containers *)

Section Pools.
Context {N A : Type} (L : layout) (HL : lay_ok L) (zero : N).
Context (reserve_malloc : A -> res (Z * A)) (raw_kfree : Z -> A -> res A).
Context (Inv : A -> gset Z -> nat -> Prop) `{PS : !PageSource reserve_malloc raw_kfree Inv}.

(** Taking a node from the containers (growing them by a page when all
    are full) returns a non-null node that was not reserved, marks exactly
    that node, and leaves the contents of the reserved nodes alone. *)
Theorem node_new_ok O (s : pool (N := N) * A) R n (HP : pool_ok L Inv O s R (S n)) :
  wp (vmaloc_node_new L zero reserve_malloc) (fun q s' => q ∉ R /\ q <> 0 /\ pool_ok L Inv O s' ({[q]} ∪ R) n /\
    forall r, r ∈ R -> pnodes s'.1 !! r = pnodes s.1 !! r) s.
Proof. by apply (node_new_spec L HL zero reserve_malloc raw_kfree Inv). Qed.

(** freeing a reserved node, in the way of containers.c and in the way
    of mdt.c, releases exactly that node, unlinks and gives back its container
    when it ran empty, and leaves the contents of the others alone. *)
Theorem node_free_ok O (s : pool (N := N) * A) R n q (HP : pool_ok L Inv O s R n) (Hq : q ∈ R) :
  wp (free_node L raw_kfree q) (fun _ s' => pool_ok L Inv O s' (R ∖ {[q]}) n /\
    forall r, r ∈ R ∖ {[q]} -> pnodes s'.1 !! r = pnodes s.1 !! r) s /\
  wp (free_mdt_node L raw_kfree q) (fun _ s' => pool_ok L Inv O s' (R ∖ {[q]}) n /\
    forall r, r ∈ R ∖ {[q]} -> pnodes s'.1 !! r = pnodes s.1 !! r) s.
Proof.
  split.
  - by apply (free_node_spec L HL reserve_malloc raw_kfree Inv).
  - by apply (free_mdt_node_spec L HL reserve_malloc raw_kfree Inv).
Qed.
End Pools.

(** A pool of one container. *)
Definition fresh_pool (va a : Z) : pool (N := vmalloc_pa_mdt) * Z :=
  match pool_init mdt_layout pa_mdt_zero va (no_pool, a) with Ok (_, s) => s | Err _ => (no_pool, a) end.

Lemma fresh_pool_ok va a n :
  page_ok va -> bump_inv a {[va]} n -> pool_ok mdt_layout bump_inv ∅ (fresh_pool va a) ∅ n.
Proof.
  intros Hp Hi. destruct (wp_returns _ _ _ (pool_init_spec mdt_layout mdt_layout_ok pa_mdt_zero bump_reserve bump_kfree bump_inv
    ∅ (no_pool, a) va n Hp ltac:(set_solver) ltac:(by replace ({[va]} ∪ ∅) with ({[va]} : gset Z) by set_solver)))
    as (x & s & E & H & _). unfold fresh_pool. by rewrite E.
Qed.

Lemma small_source : page_ok 4096 /\ bump_inv 8192 {[4096]} 10.
Proof.
  split; [split; [done|]; split; [done|by exists 1]|].
  split; [done|]. split; [by exists 2|]. split; [done|]. by intros x ->%elem_of_singleton.
Qed.

Lemma node_new_ok_witness :
  exists q s', vmaloc_node_new mdt_layout pa_mdt_zero bump_reserve (fresh_pool 4096 8192) = Ok (q, s').
Proof.
  destruct small_source as [H1 H2].
  destruct (wp_returns _ _ _ (node_new_ok mdt_layout mdt_layout_ok pa_mdt_zero bump_reserve bump_kfree bump_inv ∅ _ ∅ 9
    (fresh_pool_ok 4096 8192 10 H1 H2))) as (q & s' & E & _).
  exists q, s'. exact E.
Defined.

Definition taken_node (s : pool (N := vmalloc_pa_mdt) * Z) : Z * (pool (N := vmalloc_pa_mdt) * Z) :=
  match vmaloc_node_new mdt_layout pa_mdt_zero bump_reserve s with Ok r => r | Err _ => (0, s) end.

Lemma taken_node_ok s n :
  pool_ok mdt_layout bump_inv ∅ s ∅ (S n) ->
  pool_ok mdt_layout bump_inv ∅ (taken_node s).2 ({[(taken_node s).1]} ∪ ∅) n.
Proof.
  intros H. destruct (wp_returns _ _ _ (node_new_spec mdt_layout mdt_layout_ok pa_mdt_zero bump_reserve bump_kfree bump_inv
    ∅ s ∅ n H)) as (q & s' & E & _ & _ & HP & _). unfold taken_node. by rewrite E.
Qed.

Lemma node_free_ok_witness :
  exists x s', free_node mdt_layout bump_kfree (taken_node (fresh_pool 4096 8192)).1 (taken_node (fresh_pool 4096 8192)).2
    = Ok (x, s').
Proof.
  destruct small_source as [H1 H2]. pose proof (taken_node_ok _ 9 (fresh_pool_ok 4096 8192 10 H1 H2)) as HP.
  destruct (node_free_ok mdt_layout mdt_layout_ok bump_reserve bump_kfree bump_inv ∅ _ _ 9 _ HP
    (elem_of_union_l _ _ _ (elem_of_singleton_2 _ _ eq_refl))) as [H _].
  destruct (wp_returns _ _ _ H) as (x & s' & E & _). exists x, s'. exact E.
Defined.
