(* ===== verification/EarlyKalloc.v ===== *)
(** * EarlyKalloc: the memory map and the early allocator

    src/kernel/mm/mm_info.c, src/kernel/mm/init/mem_regions/.  The early
    allocator keeps the physical memory as a list of regions; its nodes are
    written downwards from the end of the DDR memory.  An allocation takes
    the first free region that is large enough and splits it.  At the end the
    regions are copied out for the page allocator and for vmalloc.

    The linker's section bounds, the address of [_start] and the contents of
    memory that has not been written are arguments. *)

From Stdlib Require Import ZArith Lia.
From stdpp Require Import base tactics numbers gmap list.
From S2P Require Import Prelude KMath PageAllocator.

Open Scope Z_scope.

(** ** mem_regions.h *)

Inductive mem_regions_type : Type := MEM_REGION_RESERVED | MEM_REGION_DDR | MEM_REGION_MMIO.

#[export] Instance mem_regions_type_eq_dec : EqDecision mem_regions_type.
Proof. solve_decision. Defined.

Record mem_region : Type := MkRegion {
  rg_tag : Z;
  rg_start : Z;
  rg_size : Z;
  rg_type : mem_regions_type
}.

(** The table of the board; [tags] are the addresses of its three strings. *)
Definition REGIONS_ (tags : Z * Z * Z) : list mem_region :=
  [MkRegion tags.1.1 0 0x40000000 MEM_REGION_MMIO;
   MkRegion tags.1.2 0x40000000 0x100000000 MEM_REGION_DDR;
   MkRegion tags.2 0x56000000 0x2000000 MEM_REGION_RESERVED].

(** ** mm_info.h, mm_info.c *)

Record mm_ksection : Type := MkSection { ks_start : Z; ks_end : Z; ks_size : Z }.

Record mm_ksections : Type := MkSections {
  ks_text : mm_ksection;
  ks_rodata : mm_ksection;
  ks_data : mm_ksection;
  ks_bss : mm_ksection;
  ks_stacks : mm_ksection
}.

Record mm_info : Type := MkInfo {
  mm_ddr_size_ : Z;
  mm_ddr_start_ : Z;
  mm_ddr_end_ : Z;
  mm_kernel_start_ : Z;
  mm_page_count_ : Z;
  mm_addr_space_ : Z
}.

Definition is_valid_ksection (space : Z) (k : mm_ksection) : bool :=
  if negb (wrap64 (ks_start k + ks_size k) =? ks_end k) then false
  else if space <? as_kpa (ks_end k) then false
  else true.

(** The loop over the table; [ddr_declared] is a local of [mm_info_init]. *)
Fixpoint info_loop (regions : list mem_region) (ddr_declared : bool) (i : mm_info) : mm_info :=
  match regions with
  | [] => i
  | r :: regions =>
      let top := wrap64 (rg_start r + rg_size r) in
      match rg_type r with
      | MEM_REGION_RESERVED => info_loop regions ddr_declared i
      | MEM_REGION_DDR =>
          info_loop regions true
            (MkInfo (wrap64 (mm_ddr_size_ i + rg_size r))
               (if negb ddr_declared then rg_start r else kmin (mm_ddr_start_ i) (rg_start r))
               (kmax (mm_ddr_end_ i) top) (mm_kernel_start_ i) (mm_page_count_ i) (kmax top (mm_addr_space_ i)))
      | MEM_REGION_MMIO =>
          info_loop regions ddr_declared
            (MkInfo (mm_ddr_size_ i) (mm_ddr_start_ i) (mm_ddr_end_ i) (mm_kernel_start_ i) (mm_page_count_ i)
               (kmax top (mm_addr_space_ i)))
      end
  end.

Definition mm_info_init (regions : list mem_region) (start : Z) (ks : mm_ksections) : res mm_info :=
  let i := info_loop regions false (MkInfo 0 0 0 0 0 0) in
  if negb ((mm_ddr_start_ i <=? start) && (start <? mm_ddr_end_ i)) then Err EPanic
  else
    let sp := mm_addr_space_ i in
    if is_valid_ksection sp (ks_text ks) && is_valid_ksection sp (ks_rodata ks) && is_valid_ksection sp (ks_data ks) &&
       is_valid_ksection sp (ks_bss ks) && is_valid_ksection sp (ks_stacks ks)
    then Ok (MkInfo (mm_ddr_size_ i) (mm_ddr_start_ i) (mm_ddr_end_ i) start (div_ceil sp PAGE_SIZE) sp)
    else Err EPanic.

(** ** early_kalloc.c *)

Record ek_node : Type := MkEk { ek_next : Z; memreg : early_memreg }.

Definition sizeof_early_memreg : Z := 6 * 16.
Definition sizeof_ek_node : Z := 16 + sizeof_early_memreg.
Definition alignof_ek_node : Z := 16.

Record ek_state : Type := MkEkS {
  ek_nodes : gmap Z ek_node;      (* the node memory, by address *)
  first_node : Z;
  next_allocation_node : Z;
  early_kalloc_ended : bool;
  memregs_buf : Z * list early_memreg;   (* address and contents *)
  memreg_count : Z;
  info : mm_info
}.

Abbreviation EK := (M ek_state).

Definition set_nodes (m : gmap Z ek_node) (s : ek_state) : ek_state :=
  MkEkS m (first_node s) (next_allocation_node s) (early_kalloc_ended s) (memregs_buf s) (memreg_count s) (info s).

Definition get_ek (p : Z) : EK ek_node := let* s := gets (fun s => s) in deref (ek_nodes s !! p).
Definition put_ek (p : Z) (n : ek_node) : EK unit := modify (fun s => set_nodes (<[p := n]> (ek_nodes s)) s).

Definition node_start (n : ek_node) : Z := as_kpa (mr_addr (memreg n)).
Definition node_end (n : ek_node) : Z := wrap64 (as_kpa (mr_addr (memreg n)) + wrap64 (mr_pages (memreg n) * PAGE_SIZE)).

Definition alloc_node : EK Z :=
  let* n := gets next_allocation_node in
  modify (fun s => MkEkS (ek_nodes s) (first_node s) (wrap64 (n - sizeof_ek_node)) (early_kalloc_ended s)
                     (memregs_buf s) (wrap64 (memreg_count s + 1)) (info s)) ;;
  let* i := gets info in
  ASSERT (mm_ddr_start_ i <=? n) ;;
  ret n.

Definition with_addr (a : Z) (e : early_memreg) : early_memreg :=
  MkMemreg a (mr_pages e) (mr_free e) (mr_tag e) (mr_permanent e) (mr_device_memory e).
Definition with_pages (p : Z) (e : early_memreg) : early_memreg :=
  MkMemreg (mr_addr e) p (mr_free e) (mr_tag e) (mr_permanent e) (mr_device_memory e).
Definition with_tag (t : Z) (e : early_memreg) : early_memreg :=
  MkMemreg (mr_addr e) (mr_pages e) (mr_free e) t (mr_permanent e) (mr_device_memory e).

(** The region behind [e]: [.device_memory = c->memreg.tag] *)
Definition tail_of (c : early_memreg) (e_end c_end : Z) : early_memreg :=
  MkMemreg e_end (wrap64 (c_end - e_end) / PAGE_SIZE) (mr_free c) (mr_tag c) (mr_permanent c) (negb (mr_tag c =? 0)).

(** The body of the loop for the node [c] that contains [e]. *)
Definition split_node (c : Z) (n : ek_node) (e : early_memreg) (e_end : Z) : EK unit :=
  let c_start := node_start n in
  let c_end := node_end n in
  if (c_start =? mr_addr e) && (c_end =? e_end) then put_ek c (MkEk (ek_next n) e)
  else if c_start =? mr_addr e then
    let* tail := alloc_node in
    put_ek tail (MkEk (ek_next n) (tail_of (memreg n) e_end c_end)) ;;
    put_ek c (MkEk tail e)
  else if c_end =? e_end then
    let* m := alloc_node in
    put_ek m (MkEk (ek_next n) e) ;;
    put_ek c (MkEk m (with_pages (wrap64 (mr_addr e - c_start) / PAGE_SIZE) (memreg n)))
  else
    let* mid := alloc_node in
    let* tail := alloc_node in
    put_ek tail (MkEk (ek_next n) (tail_of (memreg n) e_end c_end)) ;;
    put_ek mid (MkEk tail e) ;;
    put_ek c (MkEk mid (with_pages (wrap64 (mr_addr e - c_start) / PAGE_SIZE) (memreg n))).

Fixpoint reserve_loop (fuel : nat) (c : Z) (e : early_memreg) (e_end : Z) (replace_all : bool) : EK unit :=
  match fuel with
  | O => nofuel
  | S fuel =>
      if c =? 0 then panic
      else
        let* n := get_ek c in
        if (replace_all || mr_free (memreg n)) && (node_start n <=? mr_addr e) && (e_end <=? node_end n)
        then split_node c n e e_end
        else reserve_loop fuel (ek_next n) e e_end replace_all
  end.

(** No list has more nodes than there is node memory. *)
Definition ek_fuel (s : ek_state) : nat := S (size (ek_nodes s)).

Definition reserve_memreg (e : early_memreg) (replace_all : bool) : EK unit :=
  ASSERT (negb (mr_free e)) ;;
  let e := with_addr (as_kpa (mr_addr e)) e in
  let e_end := wrap64 (mr_addr e + wrap64 (mr_pages e * PAGE_SIZE)) in
  let* c := gets first_node in
  let* fuel := gets ek_fuel in
  reserve_loop fuel c e e_end replace_all.

(** First pass over the table: [i] counts the entries, [prev] is the node
    written last. *)
Fixpoint first_pass (regions : list mem_region) (i prev : Z) : EK unit :=
  match regions with
  | [] => ret tt
  | r :: regions =>
      match rg_type r with
      | MEM_REGION_RESERVED => first_pass regions (i + 1) prev
      | _ =>
          let* n := (if i =? 0 then gets first_node else alloc_node) in
          ASSERT (rg_size r mod PAGE_SIZE =? 0) ;;
          put_ek n (MkEk 0 (MkMemreg (rg_start r) (div_ceil (rg_size r) PAGE_SIZE)
            (bool_decide (rg_type r = MEM_REGION_DDR)) (as_kpa (rg_tag r)) true
            (bool_decide (rg_type r = MEM_REGION_MMIO)))) ;;
          (if negb (prev =? 0) then let* p := get_ek prev in put_ek prev (MkEk n (memreg p)) else ret tt) ;;
          first_pass regions (i + 1) n
      end
  end.

Fixpoint second_pass (regions : list mem_region) : EK unit :=
  match regions with
  | [] => ret tt
  | r :: regions =>
      (if bool_decide (rg_type r = MEM_REGION_RESERVED)
       then reserve_memreg (MkMemreg (rg_start r) (div_ceil (rg_size r) PAGE_SIZE) false (as_kpa (rg_tag r)) true false) true
       else ret tt) ;;
      second_pass regions
  end.

Definition RESERVE_SECTION (k : mm_ksection) (tag : Z) : EK unit :=
  ASSERT ((ks_start k mod PAGE_ALIGN =? 0) && (ks_size k mod PAGE_SIZE =? 0) &&
          (ks_end k =? wrap64 (ks_start k + ks_size k))) ;;
  reserve_memreg (MkMemreg (as_kpa (ks_start k)) (ks_size k / PAGE_SIZE) false tag true false) false.

(** [junk]: what the memory of the first node holds before; [tags]: the
    addresses of the five section names. *)
Definition early_kalloc_init (junk : early_memreg) (regions : list mem_region) (ks : mm_ksections) (tags : list Z) : EK unit :=
  modify (fun s => MkEkS (ek_nodes s) (first_node s)
    (wrap64 (align_down (mm_ddr_end_ (info s)) alignof_ek_node - sizeof_ek_node)) (early_kalloc_ended s)
    (memregs_buf s) (memreg_count s) (info s)) ;;
  let* f := alloc_node in
  modify (fun s => MkEkS (ek_nodes s) f (next_allocation_node s) (early_kalloc_ended s) (memregs_buf s)
    (memreg_count s) (info s)) ;;
  put_ek f (MkEk 0 junk) ;;
  first_pass regions 0 0 ;;
  second_pass regions ;;
  RESERVE_SECTION (ks_text ks) (nth 0 tags 0) ;;
  RESERVE_SECTION (ks_rodata ks) (nth 1 tags 0) ;;
  RESERVE_SECTION (ks_data ks) (nth 2 tags 0) ;;
  RESERVE_SECTION (ks_bss ks) (nth 3 tags 0) ;;
  RESERVE_SECTION (ks_stacks ks) (nth 4 tags 0).

Fixpoint kalloc_loop (fuel : nat) (c bytes tag : Z) (permanent device_memory : bool) : EK pv_ptr :=
  match fuel with
  | O => nofuel
  | S fuel =>
      if c =? 0 then panic
      else
        let* n := get_ek c in
        let pages := div_ceil bytes PAGE_SIZE in
        if negb (mr_free (memreg n)) || (mr_pages (memreg n) <? pages)
        then kalloc_loop fuel (ek_next n) bytes tag permanent device_memory
        else
          let addr := mr_addr (memreg n) in
          reserve_memreg (MkMemreg addr pages false (as_kva tag) permanent device_memory) false ;;
          ret (pv_ptr_new addr (as_kva addr))
  end.

Definition early_kalloc (bytes tag : Z) (permanent device_memory : bool) : EK pv_ptr :=
  let* ended := gets early_kalloc_ended in
  ASSERT (negb ended) ;;
  (if negb permanent then ASSERT (is_pow2 (bytes / PAGE_SIZE)) else ret tt) ;;
  let* c := gets first_node in
  let* fuel := gets ek_fuel in
  kalloc_loop fuel c bytes tag permanent device_memory.

(** The copying loop; [room] is the size of the buffer, [acc] its entries so
    far.  An entry that does not fit is a write outside of the buffer. *)
Fixpoint copy_loop (fuel : nat) (c room : Z) (acc : list early_memreg) : EK (list early_memreg) :=
  match fuel with
  | O => nofuel
  | S fuel =>
      if c =? 0 then ret acc
      else
        let* n := get_ek c in
        if room <? (Z.of_nat (length acc) + 1) * sizeof_early_memreg then fault
        else copy_loop fuel (ek_next n) room (acc ++ [memreg n])
  end.

(** [tag]: the address of the string literal of the buffer. *)
Definition early_kalloc_get_memregs (tag : Z) : EK (list early_memreg) :=
  let* ended := gets early_kalloc_ended in
  (if negb ended then
     let* count := gets memreg_count in
     let bytes := wrap64 (count * sizeof_early_memreg) in
     let* pv := early_kalloc bytes tag false false in
     let* c := gets first_node in
     let* fuel := gets ek_fuel in
     let* l := copy_loop fuel c (div_ceil bytes PAGE_SIZE * PAGE_SIZE) [] in
     modify (fun s => MkEkS (ek_nodes s) (first_node s) (next_allocation_node s) true (va pv, l) (memreg_count s) (info s))
   else ret tt) ;;
  modify (fun s => MkEkS (ek_nodes s) (first_node s) (next_allocation_node s) (early_kalloc_ended s)
    (fst (memregs_buf s), (fun e => with_tag (as_kva (mr_tag e)) e) <$> snd (memregs_buf s)) (memreg_count s) (info s)) ;;
  let* b := gets memregs_buf in
  ret (snd b).
