(* ===== verification/EarlyKallocSpec.v ===== *)
(** * EarlyKallocSpec: the early allocator as edits of a list of regions

    [reserve_list] is the list operation that [reserve_memreg] performs on
    linked nodes; the regions stay disjoint, and only the attributes of the
    reserved addresses change. *)

From Stdlib Require Import ZArith Lia.
From stdpp Require Import base tactics numbers gmap list.
From S2P Require Import Prelude KMath PageAllocator VmLists EarlyKalloc.

Open Scope Z_scope.

(** ** Regions *)

Definition reg_end (r : early_memreg) : Z := mr_addr r + mr_pages r * PAGE_SIZE.
Definition in_reg (r : early_memreg) (x : Z) : Prop := mr_addr r <= x < reg_end r.

Record reg_ok (r : early_memreg) : Prop := {
  ro_addr : 0 <= mr_addr r;
  ro_align : (PAGE_SIZE | mr_addr r);
  ro_pages : 0 < mr_pages r;
  ro_end : reg_end r <= 2 ^ 47
}.

Definition apart (r r' : early_memreg) : Prop := reg_end r <= mr_addr r' \/ reg_end r' <= mr_addr r.

Fixpoint disjoint_regs (L : list early_memreg) : Prop :=
  match L with
  | [] => True
  | r :: L => (forall r', r' ∈ L -> apart r r') /\ disjoint_regs L
  end.

Definition regs_ok (L : list early_memreg) : Prop := Forall reg_ok L /\ disjoint_regs L.

Lemma disjoint_app L1 L2 :
  disjoint_regs (L1 ++ L2) <-> disjoint_regs L1 /\ disjoint_regs L2 /\ forall r r', r ∈ L1 -> r' ∈ L2 -> apart r r'.
Proof.
  induction L1 as [|r L1 IH]; cbn [app disjoint_regs].
  - split; [intros H; split_and!; [done|done|set_solver]|naive_solver].
  - rewrite IH. setoid_rewrite elem_of_app. setoid_rewrite elem_of_cons. naive_solver.
Qed.

(** ** Splitting *)

Definition encloses (replace_all : bool) (c e : early_memreg) : bool :=
  (replace_all || mr_free c) && (mr_addr c <=? mr_addr e) && (reg_end e <=? reg_end c).

Definition split_reg (c e : early_memreg) : list early_memreg :=
  (if mr_addr c =? mr_addr e then [] else [with_pages ((mr_addr e - mr_addr c) / PAGE_SIZE) c]) ++ [e] ++
  (if reg_end c =? reg_end e then [] else [tail_of c (reg_end e) (reg_end c)]).

Fixpoint reserve_list (replace_all : bool) (e : early_memreg) (L : list early_memreg) : option (list early_memreg) :=
  match L with
  | [] => None
  | c :: L => if encloses replace_all c e then Some (split_reg c e ++ L) else cons c <$> reserve_list replace_all e L
  end.

Lemma reserve_list_split all e L L' :
  reserve_list all e L = Some L' ->
  exists L1 c L2, L = L1 ++ c :: L2 /\ encloses all c e = true /\ (forall r, r ∈ L1 -> encloses all r e = false) /\
    L' = L1 ++ split_reg c e ++ L2.
Proof.
  revert L'. induction L as [|c L IH]; intros L'; cbn [reserve_list]; [done|].
  destruct (encloses all c e) eqn:E.
  - intros [= <-]. exists [], c, L. split; [done|]. split; [done|]. split; [set_solver|done].
  - intros (L0 & H0 & ->)%fmap_Some_1. destruct (IH L0 H0) as (L1 & c' & L2 & -> & H1 & H2 & ->).
    exists (c :: L1), c', L2. split; [done|]. split; [done|]. split; [|done].
    intros r [->|Hr]%elem_of_cons; [done|by apply H2].
Qed.

(** What is recorded of an address, and what of the addresses behind a split
    of the region [c]: the tag stands where the device flag was meant to. *)
Definition attrs (r : early_memreg) : bool * Z * bool * bool := (mr_free r, mr_tag r, mr_permanent r, mr_device_memory r).
Definition tail_attrs (c : early_memreg) : bool * Z * bool * bool := (mr_free c, mr_tag c, mr_permanent c, negb (mr_tag c =? 0)).

(** The pieces, as addresses. *)
Lemma encloses_bounds all c e : encloses all c e = true -> mr_addr c <= mr_addr e /\ reg_end e <= reg_end c.
Proof. unfold encloses. rewrite !andb_true_iff, !Z.leb_le. tauto. Qed.

Lemma split_head_end c e : reg_ok c -> reg_ok e -> mr_addr c <= mr_addr e ->
  (mr_addr e - mr_addr c) / PAGE_SIZE * PAGE_SIZE = mr_addr e - mr_addr c.
Proof.
  intros [_ [i Hi] _ _] [_ [j Hj] _ _] _. rewrite Hi, Hj. unfold PAGE_SIZE.
  replace (j * 4096 - i * 4096) with ((j - i) * 4096) by lia. by rewrite Z.div_mul.
Qed.

Lemma reg_end_page c : reg_ok c -> (PAGE_SIZE | reg_end c).
Proof. intros [_ H _ _]. apply Z.divide_add_r; [done|]. apply Z.divide_factor_r. Qed.

Lemma tail_end c e : reg_ok c -> reg_ok e -> mr_addr c <= mr_addr e -> reg_end e <= reg_end c ->
  mr_pages (tail_of c (reg_end e) (reg_end c)) * PAGE_SIZE = reg_end c - reg_end e.
Proof.
  intros Hc He H1 H2. pose proof (reg_end_page _ Hc) as [i Hi]. pose proof (reg_end_page _ He) as [j Hj].
  pose proof (ro_end _ Hc). pose proof (ro_addr _ He). pose proof (ro_pages _ He).
  assert (0 <= reg_end e) by (unfold reg_end, PAGE_SIZE; lia).
  cbn. rewrite wrap_small by (unfold u_range; lia). rewrite Hi, Hj. unfold PAGE_SIZE.
  replace (i * 4096 - j * 4096) with ((i - j) * 4096) by lia. by rewrite Z.div_mul.
Qed.

Lemma reg_end_head c e : reg_ok c -> reg_ok e -> mr_addr c <= mr_addr e ->
  reg_end (with_pages ((mr_addr e - mr_addr c) / PAGE_SIZE) c) = mr_addr e.
Proof. intros Hc He H. unfold reg_end. cbn. rewrite split_head_end by done. lia. Qed.

Lemma reg_end_tail c e : reg_ok c -> reg_ok e -> mr_addr c <= mr_addr e -> reg_end e <= reg_end c ->
  reg_end (tail_of c (reg_end e) (reg_end c)) = reg_end c.
Proof.
  intros Hc He H1 H2. pose proof (tail_end c e Hc He H1 H2) as E. set (t := tail_of _ _ _) in *.
  assert (mr_addr t = reg_end e) as Ea by done. change (reg_end t) with (mr_addr t + mr_pages t * PAGE_SIZE). lia.
Qed.

Lemma split_pieces all c e r :
  reg_ok c -> reg_ok e -> encloses all c e = true -> r ∈ split_reg c e ->
  (r = e) \/
  (mr_addr r = mr_addr c /\ reg_end r = mr_addr e /\ mr_addr c < mr_addr e /\ attrs r = attrs c) \/
  (mr_addr r = reg_end e /\ reg_end r = reg_end c /\ reg_end e < reg_end c /\ attrs r = tail_attrs c).
Proof.
  intros Hc He Henc%encloses_bounds Hr. destruct Henc as [B1 B2]. unfold split_reg in Hr.
  rewrite !elem_of_app in Hr. destruct Hr as [Hr|[->%list_elem_of_singleton|Hr]]; [|by left|].
  - destruct (Z.eqb_spec (mr_addr c) (mr_addr e)); [set_solver|]. apply list_elem_of_singleton in Hr as ->.
    right. left. rewrite reg_end_head by done. split_and!; (done || lia).
  - destruct (Z.eqb_spec (reg_end c) (reg_end e)); [set_solver|]. apply list_elem_of_singleton in Hr as ->.
    right. right. rewrite reg_end_tail by done. split_and!; (done || lia).
Qed.

Lemma split_regs_ok all c e : reg_ok c -> reg_ok e -> encloses all c e = true -> regs_ok (split_reg c e).
Proof.
  intros Hc He Henc. pose proof (split_pieces all c e) as HP. destruct (encloses_bounds _ _ _ Henc) as [B1 B2].
  pose proof (ro_pages _ He) as Hpe. split.
  - apply Forall_forall. intros r Hr. specialize (HP r Hc He Henc Hr).
    pose proof (ro_addr _ Hc) as A1. pose proof (ro_end _ Hc) as A2. pose proof (reg_end_page _ He) as A3.
    assert (forall p, 0 < p * PAGE_SIZE -> 0 < p) as Hpos by (intros p; unfold PAGE_SIZE; lia).
    destruct HP as [->|[(H1 & H2 & H3 & _)|(H1 & H2 & H3 & _)]]; [done|..].
    + split; rewrite ?H1, ?H2; [done|apply Hc| |].
      * apply Hpos. unfold reg_end in H2. lia.
      * unfold reg_end, PAGE_SIZE in *. lia.
    + split; rewrite ?H1, ?H2; [unfold reg_end, PAGE_SIZE; pose proof (ro_addr _ He); lia|done| |done].
      apply Hpos. unfold reg_end at 1 in H2. lia.
  - assert (reg_end e > mr_addr e) by (unfold reg_end, PAGE_SIZE; lia). unfold split_reg.
    rewrite disjoint_app. split; [by destruct (_ =? _); cbn; [|split; [set_solver|done]]|]. rewrite disjoint_app.
    split; [split; [cbn; split; [set_solver|done]|split; [by destruct (_ =? _); cbn; [|split; [set_solver|done]]|]]|].
    + intros r r' ->%list_elem_of_singleton Hr'. left. destruct (_ =? _); [set_solver|].
      apply list_elem_of_singleton in Hr' as ->. cbn. lia.
    + intros r r' Hr Hr'. left. destruct (_ =? _) eqn:E; [set_solver|]. apply list_elem_of_singleton in Hr as ->.
      rewrite reg_end_head by done. apply elem_of_app in Hr' as [->%list_elem_of_singleton|Hr']; [lia|].
      destruct (reg_end c =? reg_end e); [set_solver|]. apply list_elem_of_singleton in Hr' as ->. cbn. lia.
Qed.

(** A piece stays apart from whatever its region was apart from. *)
Lemma split_apart all c e r r' :
  reg_ok c -> reg_ok e -> encloses all c e = true -> r ∈ split_reg c e -> apart c r' -> apart r r'.
Proof.
  intros Hc He Henc Hr Ha. destruct (encloses_bounds _ _ _ Henc) as [B1 B2]. pose proof (ro_pages _ He) as Hpp.
  assert (reg_end e > mr_addr e) as Hgt by (unfold reg_end, PAGE_SIZE; lia). unfold apart in *.
  destruct (split_pieces _ _ _ _ Hc He Henc Hr) as [->|[(H1 & H2 & H3 & _)|(H1 & H2 & H3 & _)]]; lia.
Qed.

Lemma apart_sym r r' : apart r r' -> apart r' r.
Proof. unfold apart. tauto. Qed.

Lemma reserve_list_ok all e L L' : regs_ok L -> reg_ok e -> reserve_list all e L = Some L' -> regs_ok L'.
Proof.
  intros [HL HD] He HR. apply reserve_list_split in HR as (L1 & c & L2 & -> & Henc & _ & ->).
  apply Forall_app in HL as [HL1 HL2]. apply Forall_cons in HL2 as [Hc HL2].
  destruct (split_regs_ok all c e Hc He Henc) as [HS1 HS2].
  rewrite disjoint_app in HD. destruct HD as (D1 & D2 & D3). destruct D2 as [D2 D4].
  split; [by rewrite !Forall_app|]. rewrite !disjoint_app. split; [done|]. split.
  - split; [done|]. split; [done|]. intros r r' Hr Hr'. apply (split_apart all c e); auto.
  - intros r r' Hr [Hr'|Hr']%elem_of_app; [|apply D3; set_solver].
    apply apart_sym, (split_apart all c e); auto. apply apart_sym, D3; set_solver.
Qed.

(** ** Attributes of addresses *)

Definition has (L : list early_memreg) (x : Z) (a : bool * Z * bool * bool) : Prop :=
  exists r, r ∈ L /\ in_reg r x /\ attrs r = a.

Lemma has_app L1 L2 x a : has (L1 ++ L2) x a <-> has L1 x a \/ has L2 x a.
Proof. unfold has. setoid_rewrite elem_of_app. naive_solver. Qed.

(** The addresses of [c] behind [e]. *)
Definition behind (c e : early_memreg) (x : Z) : Prop := in_reg c x /\ reg_end e <= x.

Lemma split_has all c e x a :
  reg_ok c -> reg_ok e -> encloses all c e = true ->
  has (split_reg c e) x a <->
    (in_reg e x /\ a = attrs e) \/ (behind c e x /\ a = tail_attrs c) \/ (~ in_reg e x /\ ~ behind c e x /\ has [c] x a).
Proof.
  intros Hc He Henc. destruct (encloses_bounds _ _ _ Henc) as [B1 B2]. pose proof (ro_pages _ He).
  assert (reg_end e > mr_addr e) as Hpe by (unfold reg_end, PAGE_SIZE; lia). unfold behind. split.
  - intros (r & Hr & Hx & <-). unfold in_reg in *.
    destruct (split_pieces _ _ _ _ Hc He Henc Hr) as [->|[(H1 & H2 & H3 & E)|(H1 & H2 & H3 & E)]]; [by left|right; right|right; left].
    + split; [lia|]. split; [lia|]. exists c. split; [set_solver|]. split; [unfold in_reg; lia|done].
    + split; [lia|done].
  - intros [[Hx ->]|[[[Hc' Hx] ->]|(Hx & Hb & r & ->%list_elem_of_singleton & Hr & <-)]].
    + exists e. split; [unfold split_reg; set_solver|done].
    + unfold in_reg in *. exists (tail_of c (reg_end e) (reg_end c)). unfold split_reg.
      destruct (Z.eqb_spec (reg_end c) (reg_end e)); [lia|]. split; [set_solver|]. split; [|done].
      unfold in_reg. rewrite reg_end_tail by done. cbn. lia.
    + unfold in_reg in *. exists (with_pages ((mr_addr e - mr_addr c) / PAGE_SIZE) c). unfold split_reg.
      destruct (Z.eqb_spec (mr_addr c) (mr_addr e)); [lia|]. split; [set_solver|]. split; [|done].
      unfold in_reg. rewrite reg_end_head by done. cbn. lia.
Qed.

Lemma reserve_has all L1 c L2 e x a :
  regs_ok (L1 ++ c :: L2) -> reg_ok e -> encloses all c e = true ->
  has (L1 ++ split_reg c e ++ L2) x a <->
    (in_reg e x /\ a = attrs e) \/ (behind c e x /\ a = tail_attrs c) \/ (~ in_reg e x /\ ~ behind c e x /\ has (L1 ++ c :: L2) x a).
Proof.
  intros [HL HD] He Henc. apply Forall_app in HL as [HL1 HL2]. apply Forall_cons in HL2 as [Hc HL2].
  destruct (encloses_bounds _ _ _ Henc) as [B1 B2]. rewrite disjoint_app in HD. destruct HD as (_ & [D2 _] & D3).
  assert (forall r, r ∈ L1 ++ L2 -> in_reg r x -> ~ in_reg c x) as Hout.
  { intros r Hr Hx Hxe. assert (apart c r) as Ha.
    { apply elem_of_app in Hr as [Hr|Hr]; [apply apart_sym, D3; set_solver|by apply D2]. }
    unfold apart, in_reg in *. lia. }
  assert (in_reg e x -> in_reg c x) as Hin by (unfold in_reg; lia).
  change (c :: L2) with ([c] ++ L2). rewrite !has_app, (split_has all c e x a Hc He Henc). unfold behind.
  assert (has L1 x a -> ~ in_reg c x) by (intros (r & Hr & Hx & _); apply (Hout r); set_solver).
  assert (has L2 x a -> ~ in_reg c x) by (intros (r & Hr & Hx & _); apply (Hout r); set_solver). tauto.
Qed.

(** ** The nodes *)

(** The list of the early allocator holds [T]; node memory is left for [k]
    more nodes. *)
Record ek_rep (s : ek_state) (T : list (Z * early_memreg)) (k : nat) : Prop := {
  er_seg : seg ek_next memreg (ek_nodes s) (first_node s) T 0;
  er_nd : NoDup T.*1;
  er_fresh p : p ∈ T.*1 -> next_allocation_node s < p;
  er_count : memreg_count s = Z.of_nat (length T);
  er_lim : Z.of_nat (length T) + Z.of_nat k < 2 ^ 32;
  er_ddr : sizeof_ek_node <= mm_ddr_start_ (info s);
  er_room : mm_ddr_start_ (info s) + Z.of_nat k * sizeof_ek_node <= next_allocation_node s + sizeof_ek_node;
  er_top : next_allocation_node s < 2 ^ 64
}.

Definition ek_same (s s' : ek_state) : Prop :=
  early_kalloc_ended s' = early_kalloc_ended s /\ memregs_buf s' = memregs_buf s /\ info s' = info s.

#[export] Instance ek_same_preorder : PreOrder ek_same.
Proof. split; [done|]. intros s1 s2 s3 (? & ? & ?) (? & ? & ?). unfold ek_same. split_and!; congruence. Qed.

Lemma ek_rep_mono s T j k : ek_rep s T (j + k) -> ek_rep s T k.
Proof. intros []. split; try done; unfold sizeof_ek_node, sizeof_early_memreg in *; lia. Qed.

(** [j] nodes allocated, node memory [nodes]. *)
Definition grow (j : Z) (nodes : gmap Z ek_node) (s : ek_state) : ek_state :=
  MkEkS nodes (first_node s) (next_allocation_node s - j * sizeof_ek_node) (early_kalloc_ended s)
    (memregs_buf s) (memreg_count s + j) (info s).

Lemma alloc_node_wp s T k nodes j (Q : Z -> ek_state -> Prop) :
  ek_rep s T (j + S k) ->
  Q (next_allocation_node s - Z.of_nat j * sizeof_ek_node) (grow (Z.of_nat j + 1) nodes s) ->
  wp alloc_node Q (grow (Z.of_nat j) nodes s).
Proof.
  intros [_ _ _ Hc Hl Hd Hr Ht] HQ. unfold alloc_node. apply wp_bind, wp_gets, wp_bind, wp_modify, wp_bind, wp_gets, wp_bind.
  unfold grow, sizeof_ek_node, sizeof_early_memreg in *. cbn in *.
  apply wp_ASSERT; [apply Z.leb_le; lia|]. apply wp_ret. revert HQ.
  rewrite !wrap_small by (unfold u_range; lia).
  match goal with |- Q _ ?a -> Q _ ?b => replace a with b; [done|f_equal; lia] end.
Qed.

Lemma ek_grow s T1 p d Q T2 j k nodes n' :
  ek_rep s (T1 ++ (p, d) :: T2) (j + k) -> length Q = j -> NoDup Q.*1 ->
  (forall q, q ∈ Q.*1 -> next_allocation_node s - Z.of_nat j * sizeof_ek_node < q <= next_allocation_node s) ->
  (forall r, r ∈ T1.*1 ++ T2.*1 -> nodes !! r = ek_nodes s !! r) -> nodes !! p = Some n' ->
  seg ek_next memreg nodes (ek_next n') Q (head_ptr T2 0) ->
  ek_rep (grow (Z.of_nat j) nodes s) (T1 ++ (p, memreg n') :: Q ++ T2) k.
Proof.
  intros [Hs Hnd Hfr Hc Hl Hd Hr Ht] HQ HQn HQf Hk Hp HQs.
  assert ((T1 ++ (p, memreg n') :: Q ++ T2).*1 ≡ₚ Q.*1 ++ (T1 ++ (p, d) :: T2).*1) as EP.
  { rewrite !fmap_app. cbn. rewrite fmap_app, <- !Permutation_middle. f_equiv. rewrite !app_assoc. f_equiv.
    apply Permutation_app_comm. }
  split; unfold grow, sizeof_ek_node, sizeof_early_memreg in *; cbn in *; try done; try lia.
  - by eapply seg_splice.
  - rewrite EP. apply NoDup_app. split; [done|]. split; [|done]. intros x Hx Hx'. specialize (HQf x Hx). specialize (Hfr x Hx'). lia.
  - intros x. rewrite EP, elem_of_app. intros [Hx|Hx]; [apply HQf in Hx; lia|apply Hfr in Hx; lia].
  - rewrite Hc, !length_app. cbn. rewrite length_app. lia.
  - rewrite !length_app in *. cbn in *. rewrite length_app. lia.
Qed.

Lemma get_ek_wp s p v (Q : ek_node -> ek_state -> Prop) : ek_nodes s !! p = Some v -> Q v s -> wp (get_ek p) Q s.
Proof. intros Hv HQ. unfold get_ek. apply wp_bind, wp_gets. by eapply wp_deref. Qed.

Lemma put_ek_wp s p v (Q : unit -> ek_state -> Prop) : Q tt (set_nodes (<[p := v]> (ek_nodes s)) s) -> wp (put_ek p v) Q s.
Proof. intros HQ. by apply wp_modify. Qed.

Lemma as_kpa_low a : 0 <= a <= 2 ^ 47 -> as_kpa a = a.
Proof. intros Ha. unfold as_kpa, is_kva_uintptr_t. rewrite KERNEL_BASE_val. destruct (Z.leb_spec 0xFFFF800000000000 a); [lia|done]. Qed.

Lemma reg_ok_bounds r : reg_ok r -> 0 <= mr_addr r < reg_end r /\ reg_end r <= 2 ^ 47 /\ 0 < mr_pages r * PAGE_SIZE <= 2 ^ 47.
Proof. intros [H1 H2 H3 H4]. unfold reg_end, PAGE_SIZE in *. lia. Qed.

Lemma node_bounds n : reg_ok (memreg n) -> node_start n = mr_addr (memreg n) /\ node_end n = reg_end (memreg n).
Proof.
  intros Hr. destruct (reg_ok_bounds _ Hr) as (H1 & H2 & H3). unfold node_start, node_end.
  rewrite as_kpa_low by lia. split; [done|]. rewrite (wrap_small 64 (mr_pages _ * _)) by (unfold u_range; lia).
  by rewrite wrap_small by (unfold u_range, reg_end in *; lia).
Qed.

(** What a node of the list knows about the others. *)
Lemma ek_middle s T1 c n T2 j k :
  ek_rep s (T1 ++ (c, memreg n) :: T2) (j + k) -> ek_nodes s !! c = Some n ->
  ek_next n = head_ptr T2 0 /\ next_allocation_node s < c /\
  (forall p, p ∈ T1.*1 ++ T2.*1 -> next_allocation_node s < p /\ c <> p) /\
  Z.of_nat j * sizeof_ek_node <= next_allocation_node s /\ s = grow (Z.of_nat 0) (ek_nodes s) s.
Proof.
  intros [Hs Hnd Hfr _ _ Hd Hr _] Hn. rewrite fmap_app in Hnd. cbn in Hnd.
  rewrite <- Permutation_middle in Hnd. apply NoDup_cons in Hnd as [Hc _].
  apply seg_middle in Hs as (n0 & Hn0 & _ & _ & _ & Hs2). rewrite Hn in Hn0. injection Hn0 as <-.
  split; [by apply seg_head in Hs2|]. split; [apply Hfr; rewrite fmap_app; set_solver|]. split.
  - intros p Hp. split; [apply Hfr; rewrite fmap_app; set_solver|]. by intros ->.
  - split; [unfold sizeof_ek_node, sizeof_early_memreg in *; lia|]. destruct s. unfold grow. cbn. f_equal; lia.
Qed.

Lemma ek_set_spec s T1 c n T2 k r :
  ek_rep s (T1 ++ (c, memreg n) :: T2) (2 + k) -> ek_nodes s !! c = Some n ->
  wp (put_ek c (MkEk (ek_next n) r)) (fun _ s' => ek_same s s' /\ ek_rep s' (T1 ++ (c, r) :: T2) k) s.
Proof.
  intros HR Hn. destruct (ek_middle _ _ _ _ _ _ _ HR Hn) as (Hnx & _ & Hft & _ & _).
  apply put_ek_wp. split; [done|]. apply (ek_rep_mono _ _ 2). set (m := <[c := _]> _).
  replace (set_nodes m s) with (grow (Z.of_nat 0) m s) by (destruct s; unfold grow, set_nodes; cbn; f_equal; lia).
  apply (ek_grow s T1 c _ [] T2 0 (2 + k) m (MkEk (ek_next n) r) HR); try done; [constructor|set_solver| |].
  - intros p Hp. apply lookup_insert_ne. by apply Hft.
  - apply lookup_insert_eq.
Qed.

(** One new node with [r2] behind [c], which now holds [r1]. *)
Lemma ek_insert_one s T1 c n T2 k r1 r2 :
  ek_rep s (T1 ++ (c, memreg n) :: T2) (2 + k) -> ek_nodes s !! c = Some n ->
  wp (let* m := alloc_node in put_ek m (MkEk (ek_next n) r2) ;; put_ek c (MkEk m r1))
     (fun _ s' => ek_same s s' /\ exists q, ek_rep s' (T1 ++ (c, r1) :: (q, r2) :: T2) k) s.
Proof.
  intros HR Hn. destruct (ek_middle _ _ _ _ _ _ _ HR Hn) as (Hnx & Hfc & Hft & Hpos & Eg).
  rewrite Eg. apply wp_bind. apply (alloc_node_wp s _ (S k) (ek_nodes s) 0 _ HR).
  set (na := next_allocation_node s) in *. replace (na - Z.of_nat 0 * sizeof_ek_node) with na by lia.
  unfold sizeof_ek_node, sizeof_early_memreg in Hpos.
  apply wp_bind, put_ek_wp, put_ek_wp. split; [done|]. exists na. apply (ek_rep_mono _ _ 1).
  apply (ek_grow s T1 c _ [(na, r2)] T2 1 (1 + k) (<[c := MkEk na r1]> (<[na := MkEk (ek_next n) r2]> (ek_nodes s))) (MkEk na r1) HR);
    try done.
  - apply NoDup_singleton.
  - intros q ->%list_elem_of_singleton. unfold sizeof_ek_node, sizeof_early_memreg. cbn [fst]. unfold na. lia.
  - intros p Hp. destruct (Hft p Hp). rewrite !lookup_insert_ne by lia. done.
  - apply lookup_insert_eq.
  - cbn. split; [done|]. split; [lia|]. exists (MkEk (ek_next n) r2).
    rewrite lookup_insert_ne, lookup_insert_eq by lia. done.
Qed.

(** Two new nodes. *)
Lemma ek_insert_two s T1 c n T2 k r1 r2 r3 :
  ek_rep s (T1 ++ (c, memreg n) :: T2) (2 + k) -> ek_nodes s !! c = Some n ->
  wp (let* mid := alloc_node in let* tail := alloc_node in
      put_ek tail (MkEk (ek_next n) r3) ;; put_ek mid (MkEk tail r2) ;; put_ek c (MkEk mid r1))
     (fun _ s' => ek_same s s' /\ exists p q, ek_rep s' (T1 ++ (c, r1) :: (p, r2) :: (q, r3) :: T2) k) s.
Proof.
  intros HR Hn. destruct (ek_middle _ _ _ _ _ _ _ HR Hn) as (Hnx & Hfc & Hft & Hpos & Eg).
  rewrite Eg. apply wp_bind. apply (alloc_node_wp s _ (S k) (ek_nodes s) 0 _ HR).
  set (na := next_allocation_node s) in *. replace (na - Z.of_nat 0 * sizeof_ek_node) with na by lia.
  apply wp_bind. apply (alloc_node_wp s _ k (ek_nodes s) 1 _ HR). fold na.
  replace (na - Z.of_nat 1 * sizeof_ek_node) with (na - sizeof_ek_node) by lia. set (nb := na - sizeof_ek_node).
  assert (nb < na /\ 0 < nb) as [Hb1 Hb2] by (unfold nb, sizeof_ek_node, sizeof_early_memreg in *; lia).
  apply wp_bind, put_ek_wp, wp_bind, put_ek_wp, put_ek_wp. split; [done|]. exists na, nb.
  apply (ek_grow s T1 c _ [(na, r2); (nb, r3)] T2 2 k
    (<[c := MkEk na r1]> (<[na := MkEk nb r2]> (<[nb := MkEk (ek_next n) r3]> (ek_nodes s)))) (MkEk na r1) HR); try done.
  - cbn. apply NoDup_cons. split; [|apply NoDup_singleton]. intros ?%list_elem_of_singleton. lia.
  - cbn. intros q. rewrite !elem_of_cons. unfold nb, na, sizeof_ek_node, sizeof_early_memreg in *.
    intros [->|[->|?]]; [lia|lia|set_solver].
  - intros p Hp. destruct (Hft p Hp). rewrite !lookup_insert_ne by lia. done.
  - apply lookup_insert_eq.
  - cbn. split; [done|]. split; [lia|]. exists (MkEk nb r2).
    rewrite lookup_insert_ne, lookup_insert_eq by lia. split; [done|]. split; [done|]. cbn. split; [done|]. split; [lia|].
    exists (MkEk (ek_next n) r3). rewrite !lookup_insert_ne, lookup_insert_eq by lia. done.
Qed.

Lemma split_node_spec s T1 c n T2 e all k :
  ek_rep s (T1 ++ (c, memreg n) :: T2) (2 + k) -> ek_nodes s !! c = Some n ->
  reg_ok (memreg n) -> reg_ok e -> encloses all (memreg n) e = true ->
  wp (split_node c n e (reg_end e)) (fun _ s' => ek_same s s' /\ exists T', ek_rep s' T' k /\
    T'.*2 = T1.*2 ++ split_reg (memreg n) e ++ T2.*2) s.
Proof.
  intros HR Hn Hr He Henc. destruct (encloses_bounds _ _ _ Henc) as [B1 B2].
  destruct (node_bounds n Hr) as [E1 E2]. destruct (reg_ok_bounds _ Hr) as (R1 & R2 & _).
  destruct (reg_ok_bounds _ He) as (R3 & R4 & _). unfold split_node. rewrite E1, E2. unfold split_reg.
  rewrite (wrap_small 64 (mr_addr e - mr_addr (memreg n))) by (unfold u_range; lia).
  destruct (Z.eqb_spec (mr_addr (memreg n)) (mr_addr e)) as [Ea|Ea],
    (Z.eqb_spec (reg_end (memreg n)) (reg_end e)) as [Ee|Ee]; cbn [andb app].
  - eapply wp_mono; [by eapply ek_set_spec|]. intros _ s' [HF HR']. split; [done|]. eexists. split; [done|]. by rewrite fmap_app.
  - eapply wp_mono; [by eapply ek_insert_one|]. intros _ s' (HF & q & HR'). split; [done|]. eexists. split; [done|]. by rewrite fmap_app.
  - eapply wp_mono; [by eapply ek_insert_one|]. intros _ s' (HF & q & HR'). split; [done|]. eexists. split; [done|]. by rewrite fmap_app.
  - eapply wp_mono; [by eapply ek_insert_two|]. intros _ s' (HF & p & q & HR'). split; [done|]. eexists. split; [done|]. by rewrite fmap_app.
Qed.

(** ** reserve_memreg *)

Lemma get_ek_ok s p v : ek_nodes s !! p = Some v -> get_ek p s = Ok (v, s).
Proof. intros Hv. unfold get_ek, bind, gets, deref. by rewrite Hv. Qed.

Lemma reserve_loop_spec s e all k rest : forall seen fuel,
  ek_rep s (seen ++ rest) (2 + k) -> Forall reg_ok rest.*2 -> reg_ok e -> (length rest < fuel)%nat ->
  match reserve_list all e rest.*2 with
  | Some L' => wp (reserve_loop fuel (head_ptr rest 0) e (reg_end e) all) (fun _ s' => ek_same s s' /\
      exists T', ek_rep s' T' k /\ T'.*2 = seen.*2 ++ L') s
  | None => reserve_loop fuel (head_ptr rest 0) e (reg_end e) all s = Err EPanic
  end.
Proof.
  induction rest as [|[c r] rest IH]; intros seen fuel HR HL He Hf;
    (destruct fuel as [|fuel]; [cbn in Hf; lia|]); cbn [reserve_loop head_ptr fmap list_fmap snd reserve_list]; [done|].
  pose proof (seg_middle _ _ _ _ _ _ _ _ _ (er_seg _ _ _ HR)) as (n & Hn & Hd & Hc & _ & Hs2).
  apply Forall_cons in HL as [Hr HL]. cbn in Hr. subst r. destruct (Z.eqb_spec c 0); [done|].
  destruct (node_bounds n Hr) as [E1 E2].
  assert ((all || mr_free (memreg n)) && (node_start n <=? mr_addr e) && (reg_end e <=? node_end n) =
    encloses all (memreg n) e) as Eenc by by rewrite E1, E2.
  destruct (encloses all (memreg n) e) eqn:Henc.
  - apply wp_bind. eapply get_ek_wp; [done|]. rewrite Eenc.
    eapply wp_mono; [by eapply (split_node_spec s seen c n rest)|]. intros _ s' (HF & T' & HR' & ET). split; [done|]. by exists T'.
  - apply seg_head in Hs2. specialize (IH (seen ++ [(c, memreg n)]) fuel).
    rewrite <- !app_assoc in IH. specialize (IH HR HL He ltac:(cbn in Hf; lia)).
    destruct (reserve_list all e rest.*2) as [L'|]; cbn [fmap option_fmap option_map].
    + apply wp_bind. eapply get_ek_wp; [done|]. rewrite Eenc, Hs2.
      eapply wp_mono; [exact IH|]. intros _ s' (HF & T' & HR' & ET). split; [done|]. exists T'. split; [done|].
      by rewrite ET, fmap_app, <- app_assoc.
    + erewrite bind_ok; [|by apply get_ek_ok]. by rewrite Eenc, Hs2.
Qed.

Lemma ek_fuel_ok s T k : ek_rep s T k -> (length T < ek_fuel s)%nat.
Proof. intros HR. pose proof (seg_length _ _ _ _ _ _ (er_nd _ _ _ HR) (er_seg _ _ _ HR)). unfold ek_fuel. lia. Qed.

Lemma with_addr_same e : with_addr (mr_addr e) e = e.
Proof. by destruct e. Qed.

(** The list operation decides, also about the panic. *)
Lemma reserve_memreg_spec s T e all k :
  ek_rep s T (2 + k) -> regs_ok T.*2 -> reg_ok e -> mr_free e = false ->
  match reserve_list all e T.*2 with
  | Some L' => wp (reserve_memreg e all) (fun _ s' => ek_same s s' /\ exists T', ek_rep s' T' k /\ T'.*2 = L') s
  | None => reserve_memreg e all s = Err EPanic
  end.
Proof.
  intros HR [HL HD] He Hfree. destruct (reg_ok_bounds _ He) as (B1 & B2 & B3).
  pose proof (reserve_loop_spec s e all k T [] (ek_fuel s) HR HL He (ek_fuel_ok _ _ _ HR)) as HS. cbn [app fmap list_fmap] in HS.
  assert (forall c fuel, reserve_loop fuel c (with_addr (as_kpa (mr_addr e)) e)
     (wrap64 (mr_addr (with_addr (as_kpa (mr_addr e)) e) + wrap64 (mr_pages (with_addr (as_kpa (mr_addr e)) e) * PAGE_SIZE))) all
     = reserve_loop fuel c e (reg_end e) all) as E.
  { intros c fuel. rewrite as_kpa_low, with_addr_same by lia. rewrite (wrap_small 64 (mr_pages e * PAGE_SIZE)) by (unfold u_range; lia).
    by rewrite wrap_small by (unfold u_range, reg_end in *; lia). }
  unfold reserve_memreg. rewrite Hfree. rewrite <- (seg_head _ _ _ _ _ _ (er_seg _ _ _ HR)) in HS.
  destruct (reserve_list all e T.*2) as [L'|].
  - apply wp_bind, wp_ret, wp_bind, wp_gets, wp_bind, wp_gets. rewrite E. exact HS.
  - erewrite bind_ok; [|done]. do 2 (erewrite bind_ok; [|done]). rewrite E. exact HS.
Qed.

(** ** early_kalloc *)

(** The request fits into the free region [c]. *)
Definition fits (pages : Z) (c : early_memreg) : bool := mr_free c && (pages <=? mr_pages c).

(** The list after the first region that fits gave its start away. *)
Fixpoint kalloc_list (pages tag : Z) (permanent device_memory : bool) (L : list early_memreg) : option (Z * list early_memreg) :=
  match L with
  | [] => None
  | c :: L =>
      if fits pages c then
        Some (mr_addr c, split_reg c (MkMemreg (mr_addr c) pages false tag permanent device_memory) ++ L)
      else (fun r => (r.1, c :: r.2)) <$> kalloc_list pages tag permanent device_memory L
  end.

Lemma fits_ok c pages tag perm dev :
  reg_ok c -> 0 < pages -> fits pages c = true -> reg_ok (MkMemreg (mr_addr c) pages false tag perm dev) /\
  encloses false c (MkMemreg (mr_addr c) pages false tag perm dev) = true.
Proof.
  intros [H1 H2 H3 H4] Hp [Hf Hle]%andb_true_iff. apply Z.leb_le in Hle. unfold reg_end, PAGE_SIZE in *.
  split; [split; cbn; try done; unfold reg_end, PAGE_SIZE; cbn; lia|]. unfold encloses, reg_end, PAGE_SIZE. cbn. rewrite Hf. cbn.
  apply andb_true_iff. rewrite !Z.leb_le. lia.
Qed.

(** Reserving the start of a region of disjoint regions hits that region. *)
Lemma reserve_start L1 c L2 e :
  regs_ok (L1 ++ c :: L2) -> reg_ok e -> mr_addr e = mr_addr c -> encloses false c e = true ->
  reserve_list false e (L1 ++ c :: L2) = Some (L1 ++ split_reg c e ++ L2).
Proof.
  intros [HL HD] He Ea Henc. apply disjoint_app in HD as (_ & _ & HD). apply Forall_app in HL as [HL1 HL2].
  apply Forall_cons in HL2 as [Hc _]. destruct (encloses_bounds _ _ _ Henc) as [_ B2].
  destruct (reg_ok_bounds _ Hc) as (B3 & _). destruct (reg_ok_bounds _ He) as (B4 & _).
  induction L1 as [|r L1 IH]; cbn [app reserve_list]; [by rewrite Henc|].
  apply Forall_cons in HL1 as [Hr HL1]. destruct (encloses false r e) eqn:E.
  - exfalso. apply encloses_bounds in E as [E1 E2]. destruct (HD r c) as [H|H]; [set_solver..|lia|].
    destruct (reg_ok_bounds _ Hr) as (B5 & _). lia.
  - rewrite IH; [done|done|]. intros r1 r2 H1 H2. apply HD; set_solver.
Qed.

Lemma kalloc_loop_spec s k bytes tag perm dev pages rest : forall seen fuel,
  ek_rep s (seen ++ rest) (2 + k) -> regs_ok (seen ++ rest).*2 -> div_ceil bytes PAGE_SIZE = pages -> 0 < pages ->
  (length rest < fuel)%nat ->
  match kalloc_list pages (as_kva tag) perm dev rest.*2 with
  | Some (a, L') => wp (kalloc_loop fuel (head_ptr rest 0) bytes tag perm dev) (fun pv s' =>
      pv = pv_ptr_new a (as_kva a) /\ ek_same s s' /\ exists T', ek_rep s' T' k /\ T'.*2 = seen.*2 ++ L') s
  | None => kalloc_loop fuel (head_ptr rest 0) bytes tag perm dev s = Err EPanic
  end.
Proof.
  induction rest as [|[c r] rest IH]; intros seen fuel HR HL Hpg Hp Hf;
    (destruct fuel as [|fuel]; [cbn in Hf; lia|]); cbn [kalloc_loop head_ptr fmap list_fmap snd kalloc_list]; [done|].
  pose proof (seg_middle _ _ _ _ _ _ _ _ _ (er_seg _ _ _ HR)) as (n & Hn & Hd & Hc & _ & Hs2). subst r.
  destruct (Z.eqb_spec c 0); [done|].
  assert (negb (mr_free (memreg n)) || (mr_pages (memreg n) <? pages) = negb (fits pages (memreg n))) as Efit.
  { unfold fits. rewrite negb_andb. by rewrite Z.leb_antisym, negb_involutive. }
  destruct (fits pages (memreg n)) eqn:Hfit.
  - apply wp_bind. eapply get_ek_wp; [done|]. rewrite Hpg, Efit. cbn [negb].
    assert (reg_ok (memreg n)) as Hr.
    { destruct HL as [HL _]. rewrite fmap_app in HL. apply Forall_app in HL as [_ HL]. by apply Forall_cons in HL as [? _]. }
    destruct (fits_ok (memreg n) pages (as_kva tag) perm dev Hr Hp Hfit) as [He Henc].
    pose proof (reserve_memreg_spec s _ _ false k HR HL He eq_refl) as HS.
    rewrite fmap_app in HS, HL. cbn [fmap list_fmap snd] in HS, HL. rewrite reserve_start in HS by done.
    apply wp_bind. eapply wp_mono; [exact HS|]. intros _ s' (HF & T' & HR' & ET). by apply wp_ret; eauto.
  - apply seg_head in Hs2. specialize (IH (seen ++ [(c, memreg n)]) fuel). rewrite <- !app_assoc in IH.
    specialize (IH HR HL Hpg Hp ltac:(cbn in Hf; lia)).
    destruct (kalloc_list pages (as_kva tag) perm dev rest.*2) as [[a L']|]; cbn [fmap option_fmap option_map fst snd].
    + apply wp_bind. eapply get_ek_wp; [done|]. rewrite Hpg, Efit. cbn [negb]. rewrite Hs2.
      eapply wp_mono; [exact IH|]. intros pv s' (-> & HF & T' & HR' & ET). split; [done|]. split; [done|].
      exists T'. split; [done|]. by rewrite ET, fmap_app, <- app_assoc.
    + erewrite bind_ok; [|by apply get_ek_ok]. by rewrite Hpg, Efit, Hs2.
Qed.

Lemma pages_of bytes : 0 < bytes <= 2 ^ 47 -> 0 < div_ceil bytes PAGE_SIZE <= 2 ^ 35.
Proof.
  intros H. unfold div_ceil, PAGE_SIZE. rewrite wrap_small by (unfold u_range; lia).
  split; [apply Z.div_str_pos; lia|]. apply Z.lt_succ_r, Z.div_lt_upper_bound; lia.
Qed.

Lemma early_kalloc_spec s T k bytes tag perm dev :
  ek_rep s T (2 + k) -> regs_ok T.*2 -> early_kalloc_ended s = false -> 0 < bytes <= 2 ^ 47 ->
  perm = true \/ is_pow2 (bytes / PAGE_SIZE) = true ->
  match kalloc_list (div_ceil bytes PAGE_SIZE) (as_kva tag) perm dev T.*2 with
  | Some (a, L') => wp (early_kalloc bytes tag perm dev) (fun pv s' =>
      pv = pv_ptr_new a (as_kva a) /\ ek_same s s' /\ exists T', ek_rep s' T' k /\ T'.*2 = L') s
  | None => early_kalloc bytes tag perm dev s = Err EPanic
  end.
Proof.
  intros HR HL Hend Hb Hperm. pose proof (pages_of bytes Hb) as [Hp _].
  pose proof (kalloc_loop_spec s k bytes tag perm dev _ T [] (ek_fuel s) HR HL eq_refl Hp (ek_fuel_ok _ _ _ HR)) as HS.
  cbn [app fmap list_fmap] in HS. rewrite <- (seg_head _ _ _ _ _ _ (er_seg _ _ _ HR)) in HS.
  assert ((if negb perm then ASSERT (is_pow2 (bytes / PAGE_SIZE)) else ret tt) s = Ok (tt, s)) as EP.
  { destruct perm; [done|]. destruct Hperm as [?| ->]; done. }
  assert (early_kalloc bytes tag perm dev s = kalloc_loop (ek_fuel s) (first_node s) bytes tag perm dev s) as E.
  { unfold early_kalloc. erewrite bind_ok; [|done]. rewrite Hend. erewrite bind_ok; [|done]. erewrite bind_ok; [|exact EP].
    do 2 (erewrite bind_ok; [|done]). done. }
  destruct (kalloc_list _ _ _ _ T.*2) as [[a L']|]; [|by rewrite E]. unfold wp in *. by rewrite E.
Qed.

(** What [kalloc_list] does. *)
Lemma kalloc_list_split pages tag perm dev L a L' :
  kalloc_list pages tag perm dev L = Some (a, L') ->
  exists L1 c L2, L = L1 ++ c :: L2 /\ fits pages c = true /\ (forall r, r ∈ L1 -> fits pages r = false) /\ a = mr_addr c /\
    L' = L1 ++ split_reg c (MkMemreg (mr_addr c) pages false tag perm dev) ++ L2.
Proof.
  revert a L'. induction L as [|c L IH]; intros a L'; cbn [kalloc_list]; [done|]. destruct (fits pages c) eqn:E.
  - intros [= <- <-]. exists [], c, L. split; [done|]. split; [done|]. split; [set_solver|done].
  - intros ([a0 L0] & H0 & [= -> ->])%fmap_Some_1. destruct (IH a0 L0 H0) as (L1 & c' & L2 & -> & H1 & H2 & -> & ->).
    exists (c :: L1), c', L2. split; [done|]. split; [done|]. split; [|done].
    intros r [->|Hr]%elem_of_cons; [done|by apply H2].
Qed.

Lemma kalloc_list_some pages tag perm dev L :
  (exists r, r ∈ L /\ fits pages r = true) <-> is_Some (kalloc_list pages tag perm dev L).
Proof.
  induction L as [|c L IH]; cbn [kalloc_list].
  - split; [intros (r & Hr & _); set_solver|by intros [? ?]].
  - setoid_rewrite elem_of_cons. destruct (fits pages c) eqn:E; [split; [by eexists|eauto]|].
    rewrite fmap_is_Some, <- IH. split; [|naive_solver]. intros (r & [->|Hr] & Hf); [congruence|eauto].
Qed.
