(* ===== verification/EarlyKallocBoot.v ===== *)
(** * EarlyKallocBoot: building the list of regions and handing it over

    [early_kalloc_init] against a list program, [early_kalloc] as a first-fit
    allocator, and [early_kalloc_get_memregs] as the producer of the regions
    that the page allocator and vmalloc take over. *)

From Stdlib Require Import ZArith Lia.
From stdpp Require Import base tactics numbers gmap list.
From S2P Require Import Prelude KMath PageAllocator PageAllocatorBoot VmLists VmallocBoot EarlyKalloc EarlyKallocSpec.

Open Scope Z_scope.

(** ** Programs on the list of regions *)

(** [P] edits the list as [f] says, with at most [c] new nodes, and panics
    where [f] is undefined. *)
Definition ek_refines (c : nat) (P : EK unit) (f : list early_memreg -> option (list early_memreg)) : Prop :=
  forall s T k, ek_rep s T (c + k) -> regs_ok T.*2 ->
  match f T.*2 with
  | Some L' => regs_ok L' /\ wp P (fun _ s' => ek_same s s' /\ exists T', ek_rep s' T' k /\ T'.*2 = L') s
  | None => P s = Err EPanic
  end.

Lemma refines_ret : ek_refines 0 (ret tt) Some.
Proof. intros s T k HR HL. split; [done|]. apply wp_ret. split; [done|]. by exists T. Qed.

Lemma refines_bind c1 c2 P1 P2 f1 f2 :
  ek_refines c1 P1 f1 -> ek_refines c2 P2 f2 -> ek_refines (c1 + c2) (P1 ;; P2) (fun L => f1 L ≫= f2).
Proof.
  intros H1 H2 s T k HR HL. rewrite <- Nat.add_assoc in HR. specialize (H1 s T _ HR HL).
  destruct (f1 T.*2) as [L1|]; cbn; [|by apply bind_err]. destruct H1 as [HL1 (x & s1 & E1 & HF1 & T1 & HR1 & ET1)%wp_ok].
  subst L1. specialize (H2 s1 T1 k HR1 HL1). destruct (f2 T1.*2) as [L2|].
  - destruct H2 as [HL2 H2]. split; [done|]. apply wp_bind. unfold wp at 1. rewrite E1.
    eapply wp_mono; [exact H2|]. intros _ s2 [HF2 HT2]. split; [by etransitivity|done].
  - erewrite bind_ok; [|exact E1]. done.
Qed.

Lemma refines_reserve e all : reg_ok e -> mr_free e = false -> ek_refines 2 (reserve_memreg e all) (reserve_list all e).
Proof.
  intros He Hf s T k HR HL. pose proof (reserve_memreg_spec s T e all k HR HL He Hf) as HS.
  destruct (reserve_list all e T.*2) as [L'|] eqn:E; [|done]. split; [by eapply reserve_list_ok|done].
Qed.

Lemma refines_ext c P f g : (forall L, f L = g L) -> ek_refines c P f -> ek_refines c P g.
Proof. intros E H s T k HR HL. rewrite <- E. by apply H. Qed.

(** ** The list that early_kalloc_init builds *)

Definition region_reg (r : mem_region) : early_memreg :=
  MkMemreg (rg_start r) (div_ceil (rg_size r) PAGE_SIZE) (bool_decide (rg_type r = MEM_REGION_DDR)) (as_kpa (rg_tag r)) true
    (bool_decide (rg_type r = MEM_REGION_MMIO)).
Definition reserved_reg (r : mem_region) : early_memreg :=
  MkMemreg (rg_start r) (div_ceil (rg_size r) PAGE_SIZE) false (as_kpa (rg_tag r)) true false.
Definition section_reg (k : mm_ksection) (tag : Z) : early_memreg :=
  MkMemreg (as_kpa (ks_start k)) (ks_size k / PAGE_SIZE) false tag true false.

Definition plain_regs (regions : list mem_region) : list early_memreg :=
  region_reg <$> filter (fun r => rg_type r <> MEM_REGION_RESERVED) regions.

Fixpoint reserve_regions (regions : list mem_region) (L : list early_memreg) : option (list early_memreg) :=
  match regions with
  | [] => Some L
  | r :: regions =>
      (if bool_decide (rg_type r = MEM_REGION_RESERVED) then reserve_list true (reserved_reg r) L else Some L)
      ≫= reserve_regions regions
  end.

(** One edit after the other. *)
Definition edits := list early_memreg -> option (list early_memreg).
Definition after (f g : edits) : edits := fun L => f L ≫= g.

Definition init_edits (regions : list mem_region) (ks : mm_ksections) (tags : list Z) : edits :=
  after (reserve_regions regions)
  (after (reserve_list false (section_reg (ks_text ks) (nth 0 tags 0)))
  (after (reserve_list false (section_reg (ks_rodata ks) (nth 1 tags 0)))
  (after (reserve_list false (section_reg (ks_data ks) (nth 2 tags 0)))
  (after (reserve_list false (section_reg (ks_bss ks) (nth 3 tags 0)))
         (reserve_list false (section_reg (ks_stacks ks) (nth 4 tags 0))))))).

Definition init_list (regions : list mem_region) (ks : mm_ksections) (tags : list Z) : option (list early_memreg) :=
  init_edits regions ks tags (plain_regs regions).

(** Whole pages below the kernel window. *)
Record region_ok (r : mem_region) : Prop := {
  gr_start : 0 <= rg_start r /\ (PAGE_SIZE | rg_start r);
  gr_size : 0 < rg_size r /\ (PAGE_SIZE | rg_size r);
  gr_end : rg_start r + rg_size r <= 2 ^ 47
}.

Definition section_ok (k : mm_ksection) : Prop :=
  ks_start k mod PAGE_ALIGN = 0 /\ ks_size k mod PAGE_SIZE = 0 /\ ks_end k = wrap64 (ks_start k + ks_size k) /\
  reg_ok (section_reg k 0).

Lemma region_pages r : region_ok r -> div_ceil (rg_size r) PAGE_SIZE * PAGE_SIZE = rg_size r /\ 0 < div_ceil (rg_size r) PAGE_SIZE.
Proof.
  intros [[H1 _] [H2 [q Hq]] H3]. unfold div_ceil, PAGE_SIZE in *. rewrite wrap_small by (unfold u_range; lia).
  replace ((rg_size r + 4096 - 1) / 4096) with q by (apply Z.div_unique with 4095; lia). lia.
Qed.

Lemma region_reg_ok r t f p d : region_ok r -> reg_ok (MkMemreg (rg_start r) (div_ceil (rg_size r) PAGE_SIZE) f t p d).
Proof.
  intros Hr. destruct (region_pages r Hr) as [E Hp]. destruct Hr as [[H1 H2] _ H3].
  split; cbn; try done. unfold reg_end. cbn. lia.
Qed.

Lemma refines_second regions :
  Forall region_ok regions -> ek_refines (2 * length regions) (second_pass regions) (reserve_regions regions).
Proof.
  induction regions as [|r regions IH]; intros HF; cbn [second_pass reserve_regions length]; [apply refines_ret|].
  apply Forall_cons in HF as [Hr HF]. replace (2 * S (length regions))%nat with (2 + 2 * length regions)%nat by lia.
  apply (refines_bind 2 _ _ _ (fun L => if bool_decide (rg_type r = MEM_REGION_RESERVED) then reserve_list true (reserved_reg r) L else Some L));
    [|by apply IH].
  case_bool_decide.
  - apply refines_reserve; [by apply region_reg_ok|done].
  - intros s T k HR HL. apply (refines_ret s T k); [|done]. by apply (ek_rep_mono _ _ 2).
Qed.

Lemma refines_section k tag : section_ok k -> ek_refines 2 (RESERVE_SECTION k tag) (reserve_list false (section_reg k tag)).
Proof.
  intros (H1 & H2 & H3 & H4) s T n HR HL.
  assert (RESERVE_SECTION k tag s = reserve_memreg (section_reg k tag) false s) as E.
  { unfold RESERVE_SECTION. rewrite H1, H2, H3, !Z.eqb_refl. done. }
  assert (reg_ok (section_reg k tag)) as Hok by (destruct H4; split; done).
  pose proof (refines_reserve (section_reg k tag) false Hok eq_refl s T n HR HL) as HS.
  unfold wp in *. by rewrite E.
Qed.

(** ** First pass *)

Lemma first_pass_step s T prev d i r regions k (Q : unit -> ek_state -> Prop) :
  ek_rep s (T ++ [(prev, d)]) (1 + k) -> 0 < i -> rg_type r <> MEM_REGION_RESERVED -> region_ok r ->
  (forall n s', ek_same s s' -> ek_rep s' ((T ++ [(prev, d)]) ++ [(n, region_reg r)]) k ->
     wp (first_pass regions (i + 1) n) Q s') ->
  wp (first_pass (r :: regions) i prev) Q s.
Proof.
  intros HR Hi Hty [_ [_ Hsz%Z.mod_divide] _] HQ; [|done].
  pose proof (seg_middle _ _ _ _ _ _ _ _ _ (er_seg _ _ _ HR)) as (n0 & Hn0 & Hd & Hp0 & _ & _). subst d.
  destruct (ek_middle _ _ _ _ _ _ _ HR Hn0) as (Hnx & Hfc & Hft & Hpos & Eg).
  set (na := next_allocation_node s) in *. unfold sizeof_ek_node, sizeof_early_memreg in Hpos.
  assert (wp (let* n := alloc_node in ASSERT (rg_size r mod PAGE_SIZE =? 0) ;;
    put_ek n (MkEk 0 (region_reg r)) ;;
    (if negb (prev =? 0) then let* p := get_ek prev in put_ek prev (MkEk n (memreg p)) else ret tt) ;;
    first_pass regions (i + 1) n) Q s) as HW.
  { rewrite Eg. apply wp_bind. apply (alloc_node_wp s _ k (ek_nodes s) 0 _ HR). fold na.
    replace (na - Z.of_nat 0 * sizeof_ek_node) with na by lia.
    apply wp_bind, wp_ASSERT; [by apply Z.eqb_eq|]. apply wp_bind, put_ek_wp.
    destruct (Z.eqb_spec prev 0); [done|]. cbn [negb]. apply wp_bind, wp_bind.
    eapply get_ek_wp; [cbn; rewrite lookup_insert_ne by lia; exact Hn0|]. apply put_ek_wp. apply HQ; [done|].
    rewrite <- app_assoc.
    apply (ek_grow s T prev _ [(na, region_reg r)] [] 1 k
      (<[prev := MkEk na (memreg n0)]> (<[na := MkEk 0 (region_reg r)]> (ek_nodes s))) (MkEk na (memreg n0)) HR); try done.
    - apply NoDup_singleton.
    - intros q ->%list_elem_of_singleton. unfold sizeof_ek_node, sizeof_early_memreg. cbn [fst]. fold na. lia.
    - intros p Hp. destruct (Hft p Hp). rewrite !lookup_insert_ne by lia. done.
    - apply lookup_insert_eq.
    - cbn. split; [done|]. split; [lia|]. exists (MkEk 0 (region_reg r)). rewrite lookup_insert_ne, lookup_insert_eq by lia. done. }
  cbn [first_pass]. destruct (Z.eqb_spec i 0); [lia|].
  unfold region_reg in HW. revert HW. by destruct (rg_type r).
Qed.

Lemma first_pass_spec regions : forall s T prev d i k,
  ek_rep s (T ++ [(prev, d)]) (length regions + k) -> 0 < i -> Forall region_ok regions ->
  wp (first_pass regions i prev) (fun _ s' => ek_same s s' /\ exists T', ek_rep s' T' k /\
    T'.*2 = (T ++ [(prev, d)]).*2 ++ plain_regs regions) s.
Proof.
  induction regions as [|r regions IH]; intros s T prev d i k HR Hi HF.
  - apply wp_ret. split; [done|]. eexists. split; [exact HR|]. by rewrite app_nil_r.
  - apply Forall_cons in HF as [Hr HF]. unfold plain_regs. rewrite filter_cons.
    destruct (decide (rg_type r = MEM_REGION_RESERVED)) as [E|E].
    + rewrite decide_False by tauto. cbn [first_pass]. rewrite E. apply IH; [|lia|done].
      apply (ek_rep_mono _ _ 1). exact HR.
    + rewrite decide_True by done. eapply first_pass_step; [exact HR|done|done|done|]. intros n s' HF' HR'.
      eapply wp_mono; [apply (IH s' (T ++ [(prev, d)]) n (region_reg r)); [exact HR'|lia|done]|].
      intros _ s2 (HF2 & T' & HR2 & ET). split; [by etransitivity|]. exists T'. split; [done|].
      rewrite ET, fmap_app, <- app_assoc. done.
Qed.

(** ** early_kalloc_init *)

Lemma refines_sections regions ks tags :
  Forall region_ok regions ->
  Forall section_ok [ks_text ks; ks_rodata ks; ks_data ks; ks_bss ks; ks_stacks ks] ->
  ek_refines (2 * length regions + 10) (second_pass regions ;;
    RESERVE_SECTION (ks_text ks) (nth 0 tags 0) ;; RESERVE_SECTION (ks_rodata ks) (nth 1 tags 0) ;;
    RESERVE_SECTION (ks_data ks) (nth 2 tags 0) ;; RESERVE_SECTION (ks_bss ks) (nth 3 tags 0) ;;
    RESERVE_SECTION (ks_stacks ks) (nth 4 tags 0)) (init_edits regions ks tags).
Proof.
  intros Hr Hk. rewrite !Forall_cons in Hk. destruct Hk as (H1 & H2 & H3 & H4 & H5 & _).
  apply refines_bind; [by apply refines_second|]. change 10%nat with (2 + (2 + (2 + (2 + 2))))%nat.
  repeat (apply refines_bind; [by apply refines_section|]). by apply refines_section.
Qed.

(** The state that [early_kalloc_init] starts from: [DDR] memory for [k]
    nodes, nothing allocated. *)
Record ek_boot (s : ek_state) (k : nat) : Prop := {
  eb_count : memreg_count s = 0;
  eb_ddr : sizeof_ek_node <= mm_ddr_start_ (info s);
  eb_room : mm_ddr_start_ (info s) + (Z.of_nat k + 2) * sizeof_ek_node <= mm_ddr_end_ (info s);
  eb_top : mm_ddr_end_ (info s) < 2 ^ 48;
  eb_lim : Z.of_nat k < 2 ^ 31
}.

Lemma align_down_16 x : 0 <= x < 2 ^ 48 -> x - 15 <= align_down x alignof_ek_node <= x.
Proof.
  intros Hx. pose proof (align_down_pow2 x 4 ltac:(unfold u_range; lia) ltac:(lia)) as E. change (2 ^ 4) with 16 in E.
  unfold alignof_ek_node. rewrite E. pose proof (Z.mod_pos_bound x 16). lia.
Qed.

Lemma first_pass_first r regions s :
  rg_type r <> MEM_REGION_RESERVED -> rg_size r mod PAGE_SIZE = 0 ->
  first_pass (r :: regions) 0 0 s =
    first_pass regions 1 (first_node s) (set_nodes (<[first_node s := MkEk 0 (region_reg r)]> (ek_nodes s)) s).
Proof. intros Hty Hsz. cbn [first_pass]. unfold region_reg, bind, gets, ASSERT. rewrite Hsz. by destruct (rg_type r). Qed.

(** [early_kalloc_init] starts with the node of the first region. *)
Lemma init_head junk r regions ks tags s k :
  ek_boot s k -> region_ok r -> rg_type r <> MEM_REGION_RESERVED ->
  exists a s', ek_same s s' /\ ek_rep s' [(a, region_reg r)] k /\
    early_kalloc_init junk (r :: regions) ks tags s = (first_pass regions 1 a ;; second_pass (r :: regions) ;;
      RESERVE_SECTION (ks_text ks) (nth 0 tags 0) ;; RESERVE_SECTION (ks_rodata ks) (nth 1 tags 0) ;;
      RESERVE_SECTION (ks_data ks) (nth 2 tags 0) ;; RESERVE_SECTION (ks_bss ks) (nth 3 tags 0) ;;
      RESERVE_SECTION (ks_stacks ks) (nth 4 tags 0)) s'.
Proof.
  intros [Hc Hd Hr Ht Hl] [_ [_ Hsz%Z.mod_divide] _] Hty; [|done]. unfold sizeof_ek_node, sizeof_early_memreg in *.
  pose proof (align_down_16 (mm_ddr_end_ (info s)) ltac:(lia)) as Ha. set (a := align_down (mm_ddr_end_ (info s)) alignof_ek_node - (16 + 6 * 16)).
  assert (0 < a) as Ha0 by (unfold a; lia).
  exists a, (MkEkS (<[a := MkEk 0 (region_reg r)]> (<[a := MkEk 0 junk]> (ek_nodes s))) a (a - (16 + 6 * 16)) (early_kalloc_ended s)
    (memregs_buf s) 1 (info s)).
  split; [done|]. split.
  { split; cbn.
    - split; [done|]. split; [lia|]. eexists. rewrite lookup_insert_eq. done.
    - apply NoDup_singleton.
    - intros p ->%list_elem_of_singleton. lia.
    - done.
    - lia.
    - done.
    - unfold a, sizeof_ek_node, sizeof_early_memreg. lia.
    - unfold a. lia. }
  unfold early_kalloc_init. erewrite bind_ok; [|done].
  erewrite bind_ok; [|unfold alloc_node; erewrite bind_ok; [|done]; erewrite bind_ok; [|done]; erewrite bind_ok; [|done]; cbn]. 
  2: { unfold sizeof_ek_node, sizeof_early_memreg. fold a. rewrite (wrap_small 64 a) by (unfold u_range, a; lia).
       destruct (Z.leb_spec (mm_ddr_start_ (info s)) a); [done|unfold a in *; lia]. }
  erewrite bind_ok; [|done]. erewrite bind_ok; [|done]. unfold bind at 1 7. rewrite first_pass_first by done.
  unfold set_nodes. cbn [ek_nodes first_node next_allocation_node early_kalloc_ended memregs_buf memreg_count info].
  rewrite Hc, (wrap_small 64 (a - _)) by (unfold u_range, a; lia). done.
Qed.

(** Building the list: the list program decides, also about the panic. *)
Lemma early_kalloc_init_spec junk r regions ks tags s k :
  ek_boot s (length regions + (2 * length (r :: regions) + 10 + k)) ->
  Forall region_ok (r :: regions) -> rg_type r <> MEM_REGION_RESERVED -> disjoint_regs (plain_regs (r :: regions)) ->
  Forall section_ok [ks_text ks; ks_rodata ks; ks_data ks; ks_bss ks; ks_stacks ks] ->
  match init_list (r :: regions) ks tags with
  | Some L => regs_ok L /\ wp (early_kalloc_init junk (r :: regions) ks tags)
      (fun _ s' => ek_same s s' /\ exists T, ek_rep s' T k /\ T.*2 = L) s
  | None => early_kalloc_init junk (r :: regions) ks tags s = Err EPanic
  end.
Proof.
  intros Hb Hrs Hty Hdis Hks. apply Forall_cons in Hrs as Hr'. destruct Hr' as [Hr HF].
  destruct (init_head junk r regions ks tags s _ Hb Hr Hty) as (a & s1 & HF1 & HR1 & E).
  pose proof (first_pass_spec regions s1 [] a (region_reg r) 1 _ HR1 ltac:(lia) HF) as HP.
  apply wp_ok in HP as (x & s2 & E2 & HF2 & T2 & HR2 & ET2).
  assert (T2.*2 = plain_regs (r :: regions)) as EP.
  { rewrite ET2. unfold plain_regs. rewrite (filter_cons_True _ r) by done. done. }
  assert (regs_ok (plain_regs (r :: regions))) as Hok.
  { split; [|done]. apply Forall_fmap, Forall_forall. intros r' [_ Hr']%list_elem_of_filter.
    apply region_reg_ok. by eapply Forall_forall in Hrs. }
  pose proof (refines_sections (r :: regions) ks tags Hrs Hks s2 T2 k HR2) as HS. rewrite EP in HS. specialize (HS Hok).
  unfold init_list. erewrite bind_ok in E; [|exact E2].
  destruct (init_edits (r :: regions) ks tags (plain_regs (r :: regions))) as [L|]; [|by rewrite E].
  destruct HS as [HL HS]. split; [done|]. apply wp_ok in HS as (y & s3 & E3 & HF3 & HT).
  unfold wp. rewrite E, E3. split; [|done].
  etransitivity; [exact HF1|]. by etransitivity.
Qed.

(** ** early_kalloc_get_memregs *)

Lemma copy_loop_spec s k rest : forall seen acc fuel room,
  ek_rep s (seen ++ rest) k -> (length rest < fuel)%nat ->
  (Z.of_nat (length acc) + Z.of_nat (length rest)) * sizeof_early_memreg <= room ->
  copy_loop fuel (head_ptr rest 0) room acc s = Ok (acc ++ rest.*2, s).
Proof.
  induction rest as [|[c r] rest IH]; intros seen acc fuel room HR Hf Hroom;
    (destruct fuel as [|fuel]; [cbn in Hf; lia|]); cbn [copy_loop head_ptr fmap list_fmap snd]; [by rewrite app_nil_r|].
  pose proof (seg_middle _ _ _ _ _ _ _ _ _ (er_seg _ _ _ HR)) as (n & Hn & Hd & Hc & _ & Hs2). subst r.
  destruct (Z.eqb_spec c 0); [done|]. erewrite bind_ok; [|by apply get_ek_ok]. apply seg_head in Hs2. rewrite Hs2.
  cbn [length] in *. unfold sizeof_early_memreg in *.
  destruct (Z.ltb_spec room ((Z.of_nat (length acc) + 1) * (6 * 16))); [lia|].
  rewrite (IH (seen ++ [(c, memreg n)])); [by rewrite <- app_assoc|by rewrite <- app_assoc|lia|].
  rewrite length_app. cbn. unfold sizeof_early_memreg. lia.
Qed.

Definition retag (e : early_memreg) : early_memreg := with_tag (as_kva (mr_tag e)) e.

(** The start of a region gives at most one more region. *)
Lemma kalloc_list_length pages tag perm dev L a L' :
  kalloc_list pages tag perm dev L = Some (a, L') -> (length L <= length L' <= S (length L))%nat.
Proof.
  intros (L1 & c & L2 & -> & _ & _ & -> & ->)%kalloc_list_split. rewrite !length_app. unfold split_reg. cbn [mr_addr].
  rewrite Z.eqb_refl, !length_app. cbn. destruct (_ =? _); cbn; lia.
Qed.

Lemma as_kva_ge p : 0 <= p -> KERNEL_BASE <= as_kva p.
Proof.
  intros Hp. unfold as_kva, is_kva_uintptr_t. destruct (Z.leb_spec KERNEL_BASE p) as [?|_]; [done|].
  unfold kpa_to_kva. assert (Z.lor p KERNEL_BASE = KERNEL_BASE + Z.ldiff p KERNEL_BASE) as ->.
  { assert (Z.land KERNEL_BASE (Z.ldiff p KERNEL_BASE) = 0) as E.
    { apply Z.bits_inj'. intros i Hi. rewrite Z.land_spec, Z.ldiff_spec, Z.bits_0. by destruct (Z.testbit KERNEL_BASE i), (Z.testbit p i). }
    rewrite Z.add_nocarry_lxor by done. rewrite Z.lxor_lor by done. apply Z.bits_inj'. intros i Hi.
    rewrite !Z.lor_spec, Z.ldiff_spec. by destruct (Z.testbit KERNEL_BASE i), (Z.testbit p i). }
  assert (0 <= Z.ldiff p KERNEL_BASE) by (apply Z.ldiff_nonneg; lia). lia.
Qed.

Lemma as_kva_idem p : 0 <= p -> as_kva (as_kva p) = as_kva p.
Proof.
  intros Hp%as_kva_ge. unfold as_kva at 1. unfold is_kva_uintptr_t at 1.
  by destruct (Z.leb_spec KERNEL_BASE (as_kva p)); [|lia].
Qed.

Lemma retag_idem (L : list early_memreg) : (forall r, r ∈ L -> 0 <= mr_tag r) -> retag <$> (retag <$> L) = retag <$> L.
Proof.
  intros HL. rewrite <- list_fmap_compose. apply list_fmap_ext. intros i r Hr%list_elem_of_lookup_2. cbn.
  unfold retag. cbn. by rewrite as_kva_idem by auto.
Qed.

Lemma retag_regs L : regs_ok L -> regs_ok (retag <$> L).
Proof.
  intros [HF HD]. split; [apply Forall_fmap; eapply Forall_impl; [exact HF|]; intros r []; by split|]. clear HF.
  induction L as [|r L IH]; [done|]. destruct HD as [H1 H2]. split; [|by apply IH].
  intros r' (r0 & -> & Hr0)%list_elem_of_fmap. exact (H1 r0 Hr0).
Qed.

(** ... what vmalloc asks for ... *)
Lemma memregs_ok_of L : regs_ok L -> memregs_ok L.
Proof.
  intros [HF HD]. induction L as [|r L IH]; [done|]. apply Forall_cons in HF as [[H1 H2 H3 H4] HF]. destruct HD as [D1 D2].
  split; [|by apply IH]. intros _. split_and!; try done. intros r' x Hr' _. specialize (D1 r' Hr').
  unfold in_memreg, in_range, apart, reg_end in *. lia.
Qed.

(** ... and what the page allocator asks for. *)
Lemma regions_ok_of n L : regs_ok L -> (forall r, r ∈ L -> reg_end r <= n * PAGE_SIZE) -> regions_ok n L.
Proof.
  intros [HF HD] Hn. induction L as [|r L IH]; [done|]. apply Forall_cons in HF as [[H1 [q Hq] H3 H4] HF]. destruct HD as [D1 D2].
  assert (region_first r = q) as Eq by (unfold region_first; rewrite Hq; by apply Z.div_mul).
  split; [|apply IH; [done|done|]; intros r' Hr'; apply Hn; set_solver].
  intros _. specialize (Hn r ltac:(set_solver)). unfold in_region. rewrite Eq. unfold reg_end, PAGE_SIZE in *.
  split_and!; try lia. intros x Hx (r' & Hr' & _ & Hx').
  assert (exists q', mr_addr r' = q' * 4096) as [q' Hq'] by (eapply Forall_forall in HF as [_ [q' ?] _ _]; eauto).
  specialize (D1 r' Hr'). unfold in_region, region_first, apart, reg_end, PAGE_SIZE in *.
  rewrite Hq', Z.div_mul in Hx' by done. lia.
Qed.

Lemma kalloc_list_bound pages tag perm dev L a L' b :
  regs_ok L -> 0 < pages -> kalloc_list pages tag perm dev L = Some (a, L') -> (forall r, r ∈ L -> reg_end r <= b) ->
  forall r, r ∈ L' -> reg_end r <= b.
Proof.
  intros [HF HD] Hp (L1 & c & L2 & -> & Hfit & _ & -> & ->)%kalloc_list_split Hb r Hr.
  apply Forall_app in HF as [_ [Hc _]%Forall_cons]. destruct (fits_ok c pages tag perm dev Hc Hp Hfit) as [He Henc].
  assert (reg_end c <= b) as Hcb by (apply Hb; set_solver).
  rewrite !elem_of_app in Hr. destruct Hr as [Hr|[Hr|Hr]]; [apply Hb; set_solver| |apply Hb; set_solver].
  destruct (encloses_bounds _ _ _ Henc) as [B1 B2]. destruct (reg_ok_bounds _ He) as (B3 & _).
  destruct (split_pieces _ _ _ _ Hc He Henc Hr) as [->|[(_ & H2 & _)|(_ & H2 & _)]]; lia.
Qed.

Lemma kalloc_list_tags pages tag perm dev L a L' :
  0 <= tag -> kalloc_list pages tag perm dev L = Some (a, L') -> (forall r, r ∈ L -> 0 <= mr_tag r) ->
  forall r, r ∈ L' -> 0 <= mr_tag r.
Proof.
  intros Ht (L1 & c & L2 & -> & _ & _ & -> & ->)%kalloc_list_split Hb r Hr.
  assert (0 <= mr_tag c) as Hc by (apply Hb; set_solver).
  rewrite !elem_of_app in Hr. destruct Hr as [Hr|[Hr|Hr]]; [apply Hb; set_solver| |apply Hb; set_solver].
  unfold split_reg in Hr. rewrite !elem_of_app in Hr. destruct Hr as [Hr|[->%list_elem_of_singleton|Hr]]; [|done|].
  all: destruct (_ =? _); [set_solver|]; by apply list_elem_of_singleton in Hr as ->.
Qed.

Lemma kalloc_list_ok pages tag perm dev L a L' :
  regs_ok L -> 0 < pages -> kalloc_list pages tag perm dev L = Some (a, L') -> regs_ok L'.
Proof.
  intros HL Hp (L1 & c & L2 & -> & Hfit & _ & -> & ->)%kalloc_list_split.
  assert (reg_ok c) as Hc by (destruct HL as [[_ [Hc _]%Forall_cons]%Forall_app _]; done).
  destruct (fits_ok c pages tag perm dev Hc Hp Hfit) as [He Henc].
  eapply (reserve_list_ok false); [exact HL|exact He|]. by rewrite reserve_start.
Qed.

(** What a call hands over, and what it leaves behind. *)
Definition handed_over (a : Z) (l : list early_memreg) (s : ek_state) : Prop :=
  early_kalloc_ended s = true /\ memregs_buf s = (as_kva a, l) /\ memreg_count s = Z.of_nat (length l).

Lemma get_memregs_spec tag s T k a L' :
  ek_rep s T (2 + k) -> regs_ok T.*2 -> early_kalloc_ended s = false ->
  (forall r, r ∈ T.*2 -> 0 <= mr_tag r) -> 0 <= tag ->
  let bytes := Z.of_nat (length T) * sizeof_early_memreg in
  is_pow2 (bytes / PAGE_SIZE) = true -> bytes + sizeof_early_memreg <= div_ceil bytes PAGE_SIZE * PAGE_SIZE ->
  kalloc_list (div_ceil bytes PAGE_SIZE) (as_kva tag) false false T.*2 = Some (a, L') ->
  wp (early_kalloc_get_memregs tag) (fun l s' => l = retag <$> L' /\ handed_over a l s') s.
Proof.
  intros HR HL Hend Htags Htag bytes Hpow Hroom Hk. pose proof (er_lim _ _ _ HR) as Hlim.
  assert (wrap64 (memreg_count s * sizeof_early_memreg) = bytes) as Eb.
  { rewrite (er_count _ _ _ HR). apply wrap_small. unfold u_range, bytes, sizeof_early_memreg. clear -Hlim.
    lia. }
  assert (0 < bytes <= 2 ^ 47) as Hbytes.
  { split; [|unfold bytes, sizeof_early_memreg; lia]. destruct (decide (bytes = 0)) as [E|]; [by rewrite E in Hpow|].
    unfold bytes, sizeof_early_memreg in *. lia. }
  pose proof (early_kalloc_spec s T k bytes tag false false HR HL Hend Hbytes (or_intror Hpow)) as HS. rewrite Hk in HS.
  unfold early_kalloc_get_memregs. apply wp_bind, wp_gets. rewrite Hend. cbn [negb].
  apply wp_bind, wp_bind, wp_gets. rewrite Eb. apply wp_bind. eapply wp_mono; [exact HS|].
  intros pv s1 (-> & HF1 & T1 & HR1 & ET1). apply wp_bind, wp_gets, wp_bind, wp_gets, wp_bind.
  assert (length T1 = length L') as El by (by rewrite <- ET1, length_fmap).
  pose proof (kalloc_list_length _ _ _ _ _ _ _ Hk) as Hlen. rewrite length_fmap in Hlen.
  rewrite (seg_head _ _ _ _ _ _ (er_seg _ _ _ HR1)).
  unfold wp at 1. rewrite (copy_loop_spec s1 k T1 [] [] _ _ HR1 (ek_fuel_ok _ _ _ HR1)).
  2: { cbn [length]. unfold bytes, sizeof_early_memreg in *. lia. }
  apply wp_modify, wp_bind, wp_modify, wp_bind, wp_gets, wp_ret. cbn [memregs_buf fst snd app]. rewrite ET1.
  split; [done|]. split; [done|]. split; [done|]. cbn. rewrite (er_count _ _ _ HR1), length_fmap. lia.
Qed.

(** Later calls return the same table. *)
Lemma get_memregs_again tag a l s :
  handed_over a (retag <$> l) s -> (forall r, r ∈ l -> 0 <= mr_tag r) ->
  early_kalloc_get_memregs tag s = Ok (retag <$> l, s).
Proof.
  intros (He & Hb & Hc) Ht. unfold early_kalloc_get_memregs. erewrite bind_ok; [|done]. rewrite He. cbn [negb].
  erewrite bind_ok; [|done]. erewrite bind_ok; [|done]. erewrite bind_ok; [|done]. rewrite Hb. cbn [fst snd memregs_buf].
  change (fun e : early_memreg => with_tag (as_kva (mr_tag e)) e) with retag. rewrite retag_idem by done.
  destruct s. cbn in *. subst. done.
Qed.
