(* ===== verification/EarlyKallocCorrect.v ===== *)
(** * EarlyKallocCorrect: what the early allocator promises

    The theorems about building the region list, allocating from it and
    handing it over, with the board's table as the instance. *)

From Stdlib Require Import ZArith Lia.
From stdpp Require Import base tactics numbers gmap list.
From S2P Require Import Prelude KMath PageAllocator PageAllocatorBoot VmLists VmallocBoot EarlyKalloc EarlyKallocSpec EarlyKallocBoot.

Open Scope Z_scope.

(** The attributes that an allocation gives to its addresses. *)
Definition taken (addr pages tag : Z) (permanent dev : bool) : early_memreg := MkMemreg addr pages false tag permanent dev.

(** C19: when a free region is large enough, [early_kalloc] returns the
    start of the first such region, in physical and in kernel virtual form;
    the regions stay aligned and disjoint, and exactly the addresses of the
    request become reserved with the tag, permanence and device flag asked
    for.  The rest of that region keeps its state, tag and permanence but is
    marked as device memory when its tag is not null; all other addresses
    keep everything.  Without such a region it panics.  A request that is not
    permanent has a power of two as bytes / PAGE_SIZE (otherwise it panics),
    and node memory is left for two nodes. *)
Theorem early_kalloc_ok s T k bytes tag perm dev
    (HR : ek_rep s T (2 + k)) (HL : regs_ok T.*2) (Hend : early_kalloc_ended s = false) (Hb : 0 < bytes <= 2 ^ 47)
    (Hperm : perm = true \/ is_pow2 (bytes / PAGE_SIZE) = true) :
  let pages := div_ceil bytes PAGE_SIZE in
  ((exists r, r ∈ T.*2 /\ fits pages r = true) ->
     wp (early_kalloc bytes tag perm dev) (fun pv s' => exists L1 c L2 T',
       T.*2 = L1 ++ c :: L2 /\ fits pages c = true /\ (forall r, r ∈ L1 -> fits pages r = false) /\
       pv = pv_ptr_new (mr_addr c) (as_kva (mr_addr c)) /\ ek_rep s' T' k /\ regs_ok T'.*2 /\
       let e := taken (mr_addr c) pages (as_kva tag) perm dev in
       forall x att, has T'.*2 x att <->
         (in_reg e x /\ att = (false, as_kva tag, perm, dev)) \/
         (behind c e x /\ att = (true, mr_tag c, mr_permanent c, negb (mr_tag c =? 0))) \/
         (~ in_reg e x /\ ~ behind c e x /\ has T.*2 x att)) s) /\
  ((forall r, r ∈ T.*2 -> fits pages r = false) -> early_kalloc bytes tag perm dev s = Err EPanic).
Proof.
  intros pages. pose proof (early_kalloc_spec s T k bytes tag perm dev HR HL Hend Hb Hperm) as HS. fold pages in HS.
  pose proof (pages_of bytes Hb) as [Hp _]. fold pages in Hp. pose proof (kalloc_list_some pages (as_kva tag) perm dev T.*2) as HK.
  split; intros Hfit.
  - apply HK in Hfit as [[a L'] E]. rewrite E in HS. eapply wp_mono; [exact HS|]. intros pv s' (-> & _ & T' & HR' & ET).
    pose proof (kalloc_list_ok _ _ _ _ _ _ _ HL Hp E) as HL'.
    apply kalloc_list_split in E as (L1 & c & L2 & EL & Hf & Hno & -> & EL').
    exists L1, c, L2, T'. rewrite ET. split_and!; try done. intros e x att. rewrite EL in HL |- *.
    assert (reg_ok c) as Hc by (destruct HL as [[_ [Hc _]%Forall_cons]%Forall_app _]; done).
    destruct (fits_ok c pages (as_kva tag) perm dev Hc Hp Hf) as [He Henc].
    rewrite EL'. unfold e, taken. rewrite (reserve_has false L1 c L2 _ x att HL He Henc). unfold attrs, tail_attrs.
    apply andb_true_iff in Hf as [Hf _]. by rewrite Hf.
  - destruct (kalloc_list pages (as_kva tag) perm dev T.*2) as [[a L']|]; [|done].
    destruct (proj2 HK ltac:(by eexists)) as (r & Hr & Hf). by rewrite Hfit in Hf.
Qed.

(** C20: [early_kalloc_init] is the list program [init_list]: the regions of
    the table that are not reserved, then each reserved region and each kernel
    section cut out of the region that encloses it.  Where that program is
    defined the code returns with this list in its nodes, aligned and
    disjoint; where it is not (a section outside of free memory) it panics. *)
Theorem early_kalloc_init_ok junk r regions ks tags s k
    (Hb : ek_boot s (length regions + (2 * length (r :: regions) + 10 + k)))
    (Hrs : Forall region_ok (r :: regions)) (Hty : rg_type r <> MEM_REGION_RESERVED)
    (Hdis : disjoint_regs (plain_regs (r :: regions)))
    (Hks : Forall section_ok [ks_text ks; ks_rodata ks; ks_data ks; ks_bss ks; ks_stacks ks]) :
  match init_list (r :: regions) ks tags with
  | Some L => regs_ok L /\ wp (early_kalloc_init junk (r :: regions) ks tags)
      (fun _ s' => ek_same s s' /\ exists T, ek_rep s' T k /\ T.*2 = L) s
  | None => early_kalloc_init junk (r :: regions) ks tags s = Err EPanic
  end.
Proof. by apply early_kalloc_init_spec. Qed.

(** With a buffer that has room for one more region than there are,
    [early_kalloc_get_memregs] takes the buffer from the first region that is
    large enough, returns all regions, the buffer's own included, with tags
    in kernel virtual form, and ends the early phase: a later call returns
    the same table and a later [early_kalloc] panics.  The table is what
    vmalloc and, for a memory of [n] pages, the page allocator ask for. *)
Theorem early_kalloc_get_memregs_ok tag s T k n
    (HR : ek_rep s T (2 + k)) (HL : regs_ok T.*2) (Hend : early_kalloc_ended s = false)
    (Htags : forall r, r ∈ T.*2 -> 0 <= mr_tag r) (Htag : 0 <= tag)
    (Hn : forall r, r ∈ T.*2 -> reg_end r <= n * PAGE_SIZE)
    (bytes := Z.of_nat (length T) * sizeof_early_memreg)
    (Hpow : is_pow2 (bytes / PAGE_SIZE) = true)
    (Hroom : bytes + sizeof_early_memreg <= div_ceil bytes PAGE_SIZE * PAGE_SIZE)
    (Hfit : exists r, r ∈ T.*2 /\ fits (div_ceil bytes PAGE_SIZE) r = true) :
  wp (early_kalloc_get_memregs tag) (fun l s' => exists a L',
    kalloc_list (div_ceil bytes PAGE_SIZE) (as_kva tag) false false T.*2 = Some (a, L') /\
    l = retag <$> L' /\ handed_over a l s' /\ memregs_ok l /\ regions_ok n l /\
    (forall tag', early_kalloc_get_memregs tag' s' = Ok (l, s')) /\
    (forall b t p d, early_kalloc b t p d s' = Err EPanic)) s.
Proof.
  apply (kalloc_list_some _ (as_kva tag) false false) in Hfit as [[a L'] E].
  assert (0 < div_ceil bytes PAGE_SIZE) as Hp.
  { unfold PAGE_SIZE, bytes, sizeof_early_memreg in *. lia. }
  pose proof (kalloc_list_ok _ _ _ _ _ _ _ HL Hp E) as HL'.
  assert (0 <= as_kva tag) as Hkt by (apply as_kva_ge in Htag; rewrite KERNEL_BASE_val in Htag; lia).
  pose proof (kalloc_list_tags _ _ _ _ _ _ _ Hkt E Htags) as Ht'.
  eapply wp_mono; [by eapply get_memregs_spec|]. intros l s' [-> HH]. exists a, L'.
  split; [done|]. split; [done|]. split; [done|]. split; [by apply memregs_ok_of, retag_regs|]. split.
  { apply regions_ok_of; [by apply retag_regs|]. intros r0 (r1 & -> & Hr1)%list_elem_of_fmap.
    exact (kalloc_list_bound _ _ _ _ _ _ _ _ HL Hp E Hn r1 Hr1). }
  split; [intros tag'; by eapply get_memregs_again|]. intros b t p d. unfold early_kalloc.
  destruct HH as [He _]. erewrite bind_ok; [|done]. by rewrite He.
Qed.

(** ** The board *)

Definition sec (a n : Z) : mm_ksection := MkSection (kpa_to_kva a) (kpa_to_kva (a + n * 4096)) (n * 4096).
Definition board_sections : mm_ksections :=
  MkSections (sec 0x40200000 20) (sec 0x40214000 5) (sec 0x40219000 3) (sec 0x4021C000 8) (sec 0x40224000 16).
Definition string_addrs : Z * Z * Z := (0x40214000, 0x40214010, 0x40214020).
Definition first_region : mem_region := nth 0 (REGIONS_ string_addrs) (MkRegion 0 0 0 MEM_REGION_DDR).
Definition more_regions : list mem_region := tl (REGIONS_ string_addrs).
Abbreviation board_regions := (first_region :: more_regions).
Definition board_tags : list Z := [0x40214030; 0x40214038; 0x40214040; 0x40214048; 0x40214050].
Definition board_info : mm_info :=
  match mm_info_init board_regions 0x40200000 board_sections with Ok i => i | Err _ => MkInfo 0 0 0 0 0 0 end.

Definition board_raw : ek_state := MkEkS ∅ 0 0 false (0, []) 0 board_info.
Definition board_junk : early_memreg := MkMemreg 1 2 true 3 true true.

Definition board_list : list early_memreg := default [] (init_list board_regions board_sections board_tags).

Definition board_state : ek_state :=
  match early_kalloc_init board_junk board_regions board_sections board_tags board_raw with Ok (_, s) => s | Err _ => board_raw end.

(** The conditions on regions, decided. *)
Definition pages_okb (start pages : Z) : bool :=
  (0 <=? start) && (start mod PAGE_SIZE =? 0) && (0 <? pages) && (start + pages * PAGE_SIZE <=? 2 ^ 47).

Lemma pages_okb_spec start pages : pages_okb start pages = true ->
  0 <= start /\ (PAGE_SIZE | start) /\ 0 < pages /\ start + pages * PAGE_SIZE <= 2 ^ 47.
Proof.
  unfold pages_okb. rewrite !andb_true_iff, !Z.leb_le, Z.ltb_lt, Z.eqb_eq. intros [[[H1 H2] H3] H4].
  split_and!; try done. by apply Z.mod_divide.
Qed.

Definition region_okb (r : mem_region) : bool :=
  pages_okb (rg_start r) (rg_size r / PAGE_SIZE) && (rg_size r mod PAGE_SIZE =? 0).

Lemma region_okb_spec r : region_okb r = true -> region_ok r.
Proof.
  intros [(H1 & H2 & H3 & H4)%pages_okb_spec H5%Z.eqb_eq]%andb_true_iff.
  assert (rg_size r = rg_size r / PAGE_SIZE * PAGE_SIZE) as E by (pose proof (Z.div_mod (rg_size r) PAGE_SIZE); unfold PAGE_SIZE in *; lia).
  split; [done| |lia]. split; [unfold PAGE_SIZE in *; lia|]. by exists (rg_size r / PAGE_SIZE).
Qed.

Definition section_okb (k : mm_ksection) : bool :=
  (ks_start k mod PAGE_ALIGN =? 0) && (ks_size k mod PAGE_SIZE =? 0) && (ks_end k =? wrap64 (ks_start k + ks_size k)) &&
  pages_okb (as_kpa (ks_start k)) (ks_size k / PAGE_SIZE).

Lemma section_okb_spec k : section_okb k = true -> section_ok k.
Proof.
  unfold section_okb. rewrite !andb_true_iff, !Z.eqb_eq. intros [[[H1 H2] H3] (H4 & H5 & H6 & H7)%pages_okb_spec].
  by split_and!.
Qed.

Lemma forallb_Forall {A} (f : A -> bool) (P : A -> Prop) l :
  (forall x, f x = true -> P x) -> forallb f l = true -> Forall P l.
Proof. intros HP. induction l as [|x l IH]; cbn; [constructor|]. intros [H1 H2]%andb_true_iff. constructor; auto. Qed.

Lemma board_boot : ek_boot board_raw (2 + (2 * 3 + 10 + 120)).
Proof. split; vm_compute; done. Qed.

Lemma board_regions_ok : Forall region_ok board_regions.
Proof. apply (forallb_Forall region_okb _ _ region_okb_spec). vm_compute. done. Qed.

Lemma board_sections_ok :
  Forall section_ok [ks_text board_sections; ks_rodata board_sections; ks_data board_sections; ks_bss board_sections; ks_stacks board_sections].
Proof. apply (forallb_Forall section_okb _ _ section_okb_spec). vm_compute. done. Qed.

Lemma board_disjoint : disjoint_regs (plain_regs board_regions).
Proof.
  change (plain_regs board_regions) with
    [MkMemreg 0 0x40000 false 0x40214000 true true; MkMemreg 0x40000000 0x100000 true 0x40214010 true false].
  split; [|split; [by intros r ?%elem_of_nil|done]]. intros r ->%list_elem_of_singleton. left. done.
Qed.

Lemma early_kalloc_init_ok_witness :
  exists x s, early_kalloc_init board_junk board_regions board_sections board_tags board_raw = Ok (x, s).
Proof.
  pose proof (early_kalloc_init_ok board_junk first_region more_regions board_sections board_tags board_raw 120 board_boot board_regions_ok ltac:(done) board_disjoint
    board_sections_ok) as H.
  destruct (init_list _ _ _) as [L|] eqn:E; [|vm_compute in E; discriminate E]. destruct H as [_ H].
  destruct (wp_returns _ _ _ H) as (x & s & Es & _). exists x, s. exact Es.
Defined.

Lemma board_rep : regs_ok board_list /\ early_kalloc_ended board_state = false /\
  exists T, ek_rep board_state T 120 /\ T.*2 = board_list.
Proof.
  pose proof (early_kalloc_init_spec board_junk first_region more_regions board_sections board_tags board_raw 120 board_boot board_regions_ok ltac:(done) board_disjoint
    board_sections_ok) as H. unfold board_list, board_state.
  destruct (init_list board_regions _ _) as [L|] eqn:E; [|vm_compute in E; discriminate E]. destruct H as [HL H]. split; [done|].
  destruct (wp_returns _ _ _ H) as (x & s & Es & (E1 & _) & T & HT). rewrite Es. split; [exact E1|]. by exists T.
Qed.

Lemma board_fits pages : (pages <=? 512) = true -> exists r, r ∈ board_list /\ fits pages r = true.
Proof.
  intros H%Z.leb_le. exists (nth 1 board_list board_junk). split.
  - apply list_elem_of_In, nth_In. vm_compute. lia.
  - set (r := nth 1 board_list board_junk). assert (mr_free r = true) as E1 by (vm_compute; done).
    assert (mr_pages r = 512) as E2 by (vm_compute; done). unfold fits. rewrite E1, E2. by apply Z.leb_le.
Qed.

Lemma early_kalloc_ok_witness : exists pv s, early_kalloc 8192 0x40214060 true false board_state = Ok (pv, s).
Proof.
  destruct board_rep as (HL & He & T & HR & ET). rewrite <- ET in HL.
  assert (0 < 8192 <= 2 ^ 47) as Hb by lia.
  destruct (early_kalloc_ok board_state T 118 8192 0x40214060 true false HR HL He Hb (or_introl eq_refl)) as [H _].
  rewrite ET in H. specialize (H (board_fits (div_ceil 8192 PAGE_SIZE) eq_refl)).
  destruct (wp_returns _ _ _ H) as (pv & s & E & _). exists pv, s. exact E.
Defined.

(** *** The board with more allocations *)

Fixpoint allocs (n : nat) (L : list early_memreg) : option (list early_memreg) :=
  match n with
  | O => Some L
  | S n => kalloc_list 1 (as_kva 0x40214070) true false L ≫= fun r => allocs n r.2
  end.

Lemma allocs_state n : forall s T k L,
  ek_rep s T (2 * n + k) -> regs_ok T.*2 -> early_kalloc_ended s = false -> allocs n T.*2 = Some L ->
  regs_ok L /\ exists s' T', ek_rep s' T' k /\ T'.*2 = L /\ early_kalloc_ended s' = false.
Proof.
  induction n as [|n IH]; intros s T k L HR HL He; cbn [allocs]; [intros [= <-]; split; [done|by exists s, T]|].
  replace (2 * S n + k)%nat with (2 + (2 * n + k))%nat in HR by lia.
  destruct (kalloc_list 1 (as_kva 0x40214070) true false T.*2) as [[a L1]|] eqn:E; [|done]. cbn.
  pose proof (kalloc_list_ok 1 _ _ _ _ _ _ HL ltac:(lia) E) as HL1.
  pose proof (early_kalloc_spec s T _ 4096 0x40214070 true false HR HL He ltac:(lia) (or_introl eq_refl)) as HS.
  change (div_ceil 4096 PAGE_SIZE) with 1 in HS. rewrite E in HS.
  destruct (wp_returns _ _ _ HS) as (pv & s1 & _ & _ & (E1 & _) & T1 & HR1 & <-).
  apply (IH s1 T1); [done|done|congruence].
Qed.

Definition busy_list : list early_memreg := default [] (allocs 40 board_list).

Lemma busy_rep : regs_ok busy_list /\ exists s T, ek_rep s T 40 /\ T.*2 = busy_list /\ early_kalloc_ended s = false.
Proof.
  destruct board_rep as (HL & He & T & HR & ET). unfold busy_list.
  destruct (allocs 40 board_list) as [L|] eqn:E; [|vm_compute in E; discriminate E].
  rewrite <- ET in HL, E. by apply (allocs_state 40 board_state T).
Qed.

Lemma busy_facts : length busy_list = 50%nat /\ forallb (fun r => 0 <=? mr_tag r) busy_list = true /\
  forallb (fun r => reg_end r <=? 0x140000 * PAGE_SIZE) busy_list = true /\
  existsb (fits 2) busy_list = true.
Proof. vm_compute. done. Qed.

Lemma forallb_elem {A} (f : A -> bool) l x : forallb f l = true -> x ∈ l -> f x = true.
Proof. intros H Hx. apply forallb_forall with (x := x) in H; [done|]. by apply list_elem_of_In. Qed.

Lemma early_kalloc_get_memregs_ok_witness :
  exists s l s', length l = 51%nat /\ early_kalloc_get_memregs 0x40214080 s = Ok (l, s') /\ memregs_ok l /\ regions_ok 0x140000 l.
Proof.
  destruct busy_rep as (HL & s & T & HR & ET & He). destruct busy_facts as (H1 & H2 & H3 & H4).
  pose proof H1 as El. rewrite <- ET, length_fmap in El.
  assert (exists r, r ∈ busy_list /\ fits 2 r = true) as Hfit.
  { apply existsb_exists in H4 as (r & Hr & Hf). exists r. split; [apply list_elem_of_In; exact Hr|exact Hf]. }
  pose proof (early_kalloc_get_memregs_ok 0x40214080 s T 38 0x140000 HR) as H. rewrite ET, El in H.
  specialize (H HL He ltac:(intros r Hr; apply Z.leb_le; exact (forallb_elem _ _ _ H2 Hr)) ltac:(lia)
    ltac:(intros r Hr; apply Z.leb_le; exact (forallb_elem _ _ _ H3 Hr)) eq_refl ltac:(apply Z.leb_le; reflexivity) Hfit).
  destruct (wp_returns _ _ _ H) as (l & s' & E & a & L' & EL & -> & _ & Hm & Hr & _).
  exists s, (retag <$> L'), s'. split; [|exact (conj E (conj Hm Hr))].
  rewrite length_fmap. vm_compute in EL. injection EL as _ <-. reflexivity.
Defined.

(** With fewer than 43 regions the table is smaller than a page, its size in
    whole pages is zero, and the check for a power of two fails. *)
Lemma few_regions_panic tag s T k :
  ek_rep s T k -> early_kalloc_ended s = false -> (length T < 43)%nat -> early_kalloc_get_memregs tag s = Err EPanic.
Proof.
  intros HR He Hl. unfold early_kalloc_get_memregs. erewrite bind_ok; [|done]. rewrite He. cbn [negb].
  apply bind_err. erewrite bind_ok; [|done]. apply bind_err. rewrite (er_count _ _ _ HR).
  unfold early_kalloc. erewrite bind_ok; [|done]. rewrite He. erewrite bind_ok; [|done]. cbn [negb]. apply bind_err.
  rewrite (wrap_small 64) by (unfold u_range, sizeof_early_memreg; lia).
  rewrite Z.div_small by (unfold sizeof_early_memreg, PAGE_SIZE; lia). done.
Qed.
