(* ===== verification/HeapLogic.v ===== *)
(** * HeapLogic: a separation logic for the state-and-error monad

    Assertions about a finite memory of cells, as a BI of the Iris proof mode:
    an assertion holds of a memory and of every larger one, [P ∗ Q] of a
    memory that splits into disjoint parts for [P] and [Q].  The weakest
    precondition of a program on memories has framing built in; [hwp_sound]
    leads from it to the total-correctness triple of the prelude. *)

From Stdlib Require Import ZArith Lia.
From stdpp Require Import base gmap.
From iris.proofmode Require Import proofmode.
From S2P Require Import Prelude.

Open Scope Z_scope.

Section Logic.
Context {C : Type}.
Implicit Types (m h : gmap Z C).

Record heapProp : Type := HeapProp {
  holds : gmap Z C -> Prop;
  holds_mono m1 m2 : holds m1 -> m1 ⊆ m2 -> holds m2
}.

Record hp_equiv (P Q : heapProp) : Prop := Equivalent { equiv_at m : holds P m <-> holds Q m }.
Local Instance heapProp_equiv : Equiv heapProp := hp_equiv.
Local Instance heapProp_equivalence : Equivalence (≡@{heapProp}).
Proof.
  split; [by intros P; split|by intros P Q [H]; split; intros m; rewrite (H m)|].
  intros P Q R [H1] [H2]. split. intros m. by rewrite (H1 m).
Qed.

Canonical Structure heapPropO := discreteO heapProp.

Record hp_entails (P Q : heapProp) : Prop := Entails { entails_at m : holds P m -> holds Q m }.

Program Definition hp_pure (φ : Prop) : heapProp := HeapProp (fun _ => φ) _.
Next Obligation. done. Qed.
Definition hp_emp : heapProp := hp_pure True.
Program Definition hp_and (P Q : heapProp) : heapProp := HeapProp (fun m => holds P m /\ holds Q m) _.
Next Obligation. intros P Q m1 m2 [H1 H2] Hs. split; by eapply holds_mono. Qed.
Program Definition hp_or (P Q : heapProp) : heapProp := HeapProp (fun m => holds P m \/ holds Q m) _.
Next Obligation. intros P Q m1 m2 [H|H] Hs; [left|right]; by eapply holds_mono. Qed.
Program Definition hp_impl (P Q : heapProp) : heapProp :=
  HeapProp (fun m => forall m', m ⊆ m' -> holds P m' -> holds Q m') _.
Next Obligation. intros P Q m1 m2 H Hs m' Hs'. apply H. by etransitivity. Qed.
Program Definition hp_forall A (Ψ : A -> heapProp) : heapProp := HeapProp (fun m => forall a, holds (Ψ a) m) _.
Next Obligation. intros A Ψ m1 m2 H Hs a. by eapply holds_mono. Qed.
Program Definition hp_exist A (Ψ : A -> heapProp) : heapProp := HeapProp (fun m => exists a, holds (Ψ a) m) _.
Next Obligation. intros A Ψ m1 m2 [a H] Hs. exists a. by eapply holds_mono. Qed.
Program Definition hp_sep (P Q : heapProp) : heapProp :=
  HeapProp (fun m => exists m1 m2, m = m1 ∪ m2 /\ m1 ##ₘ m2 /\ holds P m1 /\ holds Q m2) _.
Next Obligation.
  intros P Q m m' (m1 & m2 & -> & Hd & HP & HQ) Hs. exists m1, (m' ∖ m1).
  assert (m1 ⊆ m') by (etransitivity; [apply map_union_subseteq_l|done]).
  split; [by rewrite map_difference_union|]. split; [by apply map_disjoint_difference_r1|]. split; [done|].
  eapply holds_mono; [exact HQ|]. apply map_subseteq_spec. intros i x Hx. apply lookup_difference_Some.
  split; [eapply lookup_weaken; [|exact Hs]; by apply lookup_union_Some_r|]. by eapply map_disjoint_Some_l.
Qed.
Program Definition hp_wand (P Q : heapProp) : heapProp :=
  HeapProp (fun m => forall m', m ##ₘ m' -> holds P m' -> holds Q (m ∪ m')) _.
Next Obligation.
  intros P Q m1 m2 H Hs m' Hd HP. eapply holds_mono; [apply (H m'); [|done]|].
  - by eapply map_disjoint_weaken_l.
  - by apply map_union_mono_r.
Qed.
Definition hp_persistently (P : heapProp) : heapProp := hp_pure (hp_entails hp_emp P).
Definition hp_later (P : heapProp) : heapProp := P.

Lemma hp_bi_mixin : BiMixin hp_entails hp_emp hp_pure hp_and hp_or hp_impl hp_forall hp_exist hp_sep hp_wand.
Proof.
  split.
  - split; [by intros P; split|]. intros P Q R [H1] [H2]. split. auto.
  - intros P Q. split; [intros [E]; split; split; intros m; apply E|]. intros [[H1] [H2]]. split. intros m. split; auto.
  - intros n φ ψ E. split. intros m. exact E.
  - intros n P P' [EP] Q Q' [EQ]. split. intros m. cbn. by rewrite (EP m) (EQ m).
  - intros n P P' [EP] Q Q' [EQ]. split. intros m. cbn. by rewrite (EP m) (EQ m).
  - intros n P P' [EP] Q Q' [EQ]. split. intros m. cbn. setoid_rewrite EP. by setoid_rewrite EQ.
  - intros A n Ψ Ψ' E. split. intros m. cbn. split; intros H a; apply (equiv_at _ _ (E a)), H.
  - intros A n Ψ Ψ' E. split. intros m. cbn. split; intros [a H]; exists a; by apply (equiv_at _ _ (E a)).
  - intros n P P' [EP] Q Q' [EQ]. split. intros m. cbn. setoid_rewrite EP. by setoid_rewrite EQ.
  - intros n P P' [EP] Q Q' [EQ]. split. intros m. cbn. setoid_rewrite EP. by setoid_rewrite EQ.
  - by intros φ P H; split; intros m _.
  - by intros φ P H; split; intros m Hφ; apply (entails_at _ _ (H Hφ)).
  - by intros P Q; split; intros m [? _].
  - by intros P Q; split; intros m [_ ?].
  - intros P Q R [H1] [H2]. split. intros m HP. split; auto.
  - by intros P Q; split; intros m ?; left.
  - by intros P Q; split; intros m ?; right.
  - intros P Q R [H1] [H2]. split. intros m [?|?]; auto.
  - intros P Q R [H]. split. intros m HP m' Hs HQ. apply H. split; [by eapply holds_mono|done].
  - intros P Q R [H]. split. intros m [HP HQ]. by apply (H m HP m).
  - intros A P Ψ H. split. intros m HP a. by apply (H a).
  - intros A Ψ a. split. intros m H. apply H.
  - intros A Ψ a. split. intros m H. by exists a.
  - intros A Φ Q H. split. intros m [a Ha]. by apply (H a).
  - intros P P' Q Q' [H1] [H2]. split. intros m (m1 & m2 & -> & Hd & HP & HQ). exists m1, m2. auto.
  - intros P. split. intros m HP. exists ∅, m. split; [by rewrite map_empty_union|]. split; [apply map_disjoint_empty_l|done].
  - intros P. split. intros m (m1 & m2 & -> & Hd & _ & HP). eapply holds_mono; [exact HP|]. by apply map_union_subseteq_r.
  - intros P Q. split. intros m (m1 & m2 & -> & Hd & HP & HQ). exists m2, m1.
    split; [by apply map_union_comm|]. split; [by symmetry|done].
  - intros P Q R. split. intros m (m12 & m3 & -> & Hd & (m1 & m2 & -> & Hd' & HP & HQ) & HR).
    apply map_disjoint_union_l in Hd as [Hd1 Hd2]. exists m1, (m2 ∪ m3). rewrite map_union_assoc.
    split; [done|]. split; [by apply map_disjoint_union_r|]. split; [done|]. by exists m2, m3.
  - intros P Q R [H]. split. intros m HP m' Hd HQ. apply H. by exists m, m'.
  - intros P Q R [H]. split. intros m (m1 & m2 & -> & Hd & HP & HQ). by apply H.
Qed.

Lemma hp_persistently_mixin : BiPersistentlyMixin hp_entails hp_emp hp_and hp_exist hp_sep hp_persistently.
Proof.
  eapply bi_persistently_mixin_discrete; [done| |done|apply hp_bi_mixin].
  intros A Φ [H]. destruct (H ∅ I) as [x Hx]. exists x. split. intros m _. eapply holds_mono; [exact Hx|]. apply map_empty_subseteq.
Qed.

Lemma hp_later_mixin :
  BiLaterMixin hp_entails hp_pure hp_or hp_impl hp_forall hp_exist hp_sep hp_persistently hp_later.
Proof. eapply bi_later_mixin_id; [done|apply hp_bi_mixin]. Qed.

End Logic.
Arguments heapProp C : clear implicits.
Arguments heapPropO C : clear implicits.

Canonical Structure heapPropI (C : Type) : bi :=
  {| bi_ofe_mixin := ofe_mixin_of (heapProp C);
     bi_bi_mixin := hp_bi_mixin;
     bi_bi_persistently_mixin := hp_persistently_mixin;
     bi_bi_later_mixin := hp_later_mixin |}.

#[export] Instance heapProp_affine C : BiAffine (heapPropI C).
Proof. intros P. split. intros m _. exact I. Qed.

(** ** Cells and programs *)

Program Definition points_to {C} (p : Z) (c : C) : heapProp C := HeapProp (fun m => m !! p = Some c) _.
Next Obligation. intros C p c m1 m2 H Hs. cbn in *. exact (lookup_weaken _ _ _ _ H Hs). Qed.

Infix "↦" := points_to (at level 20) : bi_scope.

(** From every memory that the assertion describes, whatever else there is,
    the program returns, leaves everything else alone and makes no new cell. *)
Program Definition hwp {C A} (e : M (gmap Z C) A) (Φ : A -> heapProp C) : heapProp C :=
  HeapProp (fun m => forall f, m ##ₘ f -> exists a m', e (m ∪ f) = Ok (a, m' ∪ f) /\ m' ##ₘ f /\ dom m' ⊆ dom m /\ holds (Φ a) m') _.
Next Obligation.
  intros C A e Φ m1 m2 H Hs f Hd. rewrite -(map_difference_union _ _ Hs) in Hd |- *.
  apply map_disjoint_union_l in Hd as [Hd1 Hd2].
  assert (m1 ##ₘ m2 ∖ m1) as Hd0 by by apply map_disjoint_difference_r1.
  destruct (H ((m2 ∖ m1) ∪ f)) as (a & m' & E & Hd' & Hdom & HΦ); [by apply map_disjoint_union_r|].
  apply map_disjoint_union_r in Hd' as [Hd3 Hd4]. exists a, (m' ∪ (m2 ∖ m1)). rewrite -!map_union_assoc.
  split; [done|]. split; [by apply map_disjoint_union_l|]. split; [rewrite !dom_union_L; by apply union_mono_r|]. eapply holds_mono; [exact HΦ|]. apply map_union_subseteq_l.
Qed.

(** Cells that a program reads and writes. *)
Definition load {C} (p : Z) : M (gmap Z C) C := let* m := gets (fun m => m) in deref (m !! p).
Definition store {C} (p : Z) (c : C) : M (gmap Z C) unit := load p ;; modify (fun m => <[p := c]> m).

Section Rules.
Context {C : Type}.
Implicit Types (P Q R : heapProp C) (c : C).

Lemma hwp_sound {A} (e : M (gmap Z C) A) (Φ : A -> heapProp C) P m :
  (P ⊢ hwp e Φ) -> holds P m -> wp e (fun a m' => holds (Φ a) m') m.
Proof.
  intros [H] HP. destruct (H m HP ∅) as (a & m' & E & _ & _ & HΦ); [apply map_disjoint_empty_r|].
  rewrite !map_union_empty in E. unfold wp. by rewrite E.
Qed.

Lemma hwp_ret {A} (a : A) (Φ : A -> heapProp C) : Φ a ⊢ hwp (ret a) Φ.
Proof. split. intros m H f Hd. by exists a, m. Qed.

Lemma hwp_bind {A B} (e : M (gmap Z C) A) (k : A -> M (gmap Z C) B) Φ :
  hwp e (fun a => hwp (k a) Φ) ⊢ hwp (bind e k) Φ.
Proof.
  split. intros m H f Hd. destruct (H f Hd) as (a & m1 & E1 & Hd1 & Hs1 & H1).
  destruct (H1 f Hd1) as (b & m2 & E2 & Hd2 & Hs2 & H2).
  exists b, m2. unfold bind. rewrite E1. split; [done|]. split; [done|]. split; [by etransitivity|done].
Qed.

Lemma hwp_wand {A} (e : M (gmap Z C) A) (Φ Ψ : A -> heapProp C) :
  hwp e Φ ⊢ (∀ a, Φ a -∗ Ψ a) -∗ hwp e Ψ.
Proof.
  apply bi.wand_intro_r. split. intros m (m1 & m2 & -> & Hd & H & HW) f Hdf. apply map_disjoint_union_l in Hdf as [Hf1 Hf2].
  destruct (H (m2 ∪ f)) as (a & m' & E & Hd' & Hdom & HΦ); [by apply map_disjoint_union_r|].
  apply map_disjoint_union_r in Hd' as [Hd1 Hd2]. exists a, (m2 ∪ m').
  split; [by rewrite -map_union_assoc E map_union_assoc (map_union_comm m2 m')|].
  split; [by apply map_disjoint_union_l|]. split; [rewrite !dom_union_L (union_comm_L (dom m2)); by apply union_mono_r|]. by apply HW.
Qed.

Lemma hwp_load (p : Z) c (Φ : C -> heapProp C) : p ↦ c ⊢ (p ↦ c -∗ Φ c) -∗ hwp (load p) Φ.
Proof.
  apply bi.wand_intro_r. split. intros m (m1 & m2 & -> & Hd & H & HW) f Hdf. cbn in H.
  exists c, (m1 ∪ m2). unfold load, bind, gets, deref.
  assert ((m1 ∪ m2 ∪ f) !! p = Some c) as -> by (by do 2 apply lookup_union_Some_l).
  split; [done|]. split; [done|]. split; [done|]. rewrite map_union_comm //. apply HW; [by symmetry|done].
Qed.

Lemma hwp_store (p : Z) c c' (Φ : unit -> heapProp C) : p ↦ c ⊢ (p ↦ c' -∗ Φ tt) -∗ hwp (store p c') Φ.
Proof.
  apply bi.wand_intro_r. split. intros m (m1 & m2 & -> & Hd & H & HW) f Hdf. cbn in H.
  apply map_disjoint_union_l in Hdf as [Hf1 Hf2].
  exists tt, (m2 ∪ <[p := c']> m1). unfold store, load, bind, gets, deref, modify.
  assert ((m1 ∪ m2 ∪ f) !! p = Some c) as -> by (by do 2 apply lookup_union_Some_l).
  assert (m2 ##ₘ <[p := c']> m1) as Hd'.
  { apply map_disjoint_insert_r. split; [by eapply map_disjoint_Some_l|by symmetry]. }
  assert (<[p := c']> m1 ##ₘ f) as Hf'.
  { apply map_disjoint_insert_l. split; [exact (map_disjoint_Some_l _ _ _ _ Hf1 H)|done]. }
  split; [by rewrite (map_union_comm m2) // -!insert_union_l|].
  split; [by apply map_disjoint_union_l|]. split; [rewrite !dom_union_L dom_insert_lookup_L //; by rewrite union_comm_L|].
  apply HW; [done|]. cbn. apply lookup_insert_eq.
Qed.

Lemma points_to_ne (p q : Z) c c' : p ↦ c ⊢ q ↦ c' -∗ ⌜p <> q⌝.
Proof.
  apply bi.wand_intro_r. split. intros m (m1 & m2 & -> & Hd & H1 & H2). cbn in *. intros ->.
  rewrite map_disjoint_spec in Hd. exact (Hd _ _ _ H1 H2).
Qed.

End Rules.

(** ** Memory and another state

    Programs on the memory and a state [X] beside it, such as that of the
    allocator the cells come from.  [ok x d] relates that state to the set of
    addresses in use; it says nothing about addresses that are not. *)

Record mst (C X : Type) : Type := MkSt { mem : gmap Z C; ext : X }.
Arguments MkSt {C X} mem ext.
Arguments mem {C X} m.
Arguments ext {C X} m.

Definition on_mem {C X A} (e : M (gmap Z C) A) : M (mst C X) A :=
  fun s => match e (mem s) with Ok (a, m) => Ok (a, MkSt m (ext s)) | Err e => Err e end.
Definition on_ext {C X A} (e : M X A) : M (mst C X) A :=
  fun s => match e (ext s) with Ok (a, x) => Ok (a, MkSt (mem s) x) | Err e => Err e end.

(** A cell is made at an address or goes away. *)
Definition new_cell {C} (p : Z) (c : C) : M (gmap Z C) unit := modify (fun m => <[p := c]> m).
Definition drop_cell {C} (p : Z) : M (gmap Z C) unit := load p ;; modify (fun m => delete p m).

Class Antitone {X} (ok : X -> gset Z -> Prop) : Prop := antitone x d d' : ok x d -> d' ⊆ d -> ok x d'.

Program Definition uwp {C X A} (ok : X -> gset Z -> Prop) (e : M (mst C X) A) (x : X) (Φ : A -> X -> heapProp C) : heapProp C :=
  HeapProp (fun m => forall f, m ##ₘ f -> ok x (dom (m ∪ f)) ->
    exists a m' x', e (MkSt (m ∪ f) x) = Ok (a, MkSt (m' ∪ f) x') /\ m' ##ₘ f /\ ok x' (dom (m' ∪ f)) /\ holds (Φ a x') m') _.
Next Obligation.
  intros C X A ok e x Φ m1 m2 H Hs f Hd. rewrite -(map_difference_union _ _ Hs) in Hd |- *.
  apply map_disjoint_union_l in Hd as [Hd1 Hd2]. intros Hok.
  assert (m1 ##ₘ m2 ∖ m1) as Hd0 by by apply map_disjoint_difference_r1.
  destruct (H ((m2 ∖ m1) ∪ f)) as (a & m' & x' & E & Hd' & Hok' & HΦ); [by apply map_disjoint_union_r|by rewrite map_union_assoc|].
  apply map_disjoint_union_r in Hd' as [Hd3 Hd4]. exists a, (m' ∪ (m2 ∖ m1)), x'. rewrite -!map_union_assoc.
  split; [done|]. split; [by apply map_disjoint_union_l|]. split; [done|]. eapply holds_mono; [exact HΦ|]. apply map_union_subseteq_l.
Qed.

Section Rules2.
Context {C X : Type} (ok : X -> gset Z -> Prop) `{!Antitone ok}.
Implicit Types (P Q R : heapProp C) (x : X).
Abbreviation U := (M (mst C X)).

Lemma uwp_sound {A} (e : U A) x (Φ : A -> X -> heapProp C) P m :
  (P ⊢ uwp ok e x Φ) -> holds P m -> ok x (dom m) ->
  wp e (fun a s => ok (ext s) (dom (mem s)) /\ holds (Φ a (ext s)) (mem s)) (MkSt m x).
Proof.
  intros [H] HP Hok. destruct (H m HP ∅) as (a & m' & x' & E & _ & Hok' & HΦ); [apply map_disjoint_empty_r|by rewrite map_union_empty|].
  rewrite !map_union_empty in E, Hok'. unfold wp. by rewrite E.
Qed.

Lemma uwp_ret {A} (a : A) x (Φ : A -> X -> heapProp C) : Φ a x ⊢ uwp ok (ret a) x Φ.
Proof. split. intros m H f Hd Hok. by exists a, m, x. Qed.

Lemma uwp_bind {A B} (e : U A) (k : A -> U B) x Φ :
  uwp ok e x (fun a x' => uwp ok (k a) x' Φ) ⊢ uwp ok (bind e k) x Φ.
Proof.
  split. intros m H f Hd Hok. destruct (H f Hd Hok) as (a & m1 & x1 & E1 & Hd1 & Hok1 & H1).
  destruct (H1 f Hd1 Hok1) as (b & m2 & x2 & E2 & Hd2 & Hok2 & H2). exists b, m2, x2. unfold bind. by rewrite E1.
Qed.

Lemma uwp_wand {A} (e : U A) x (Φ Ψ : A -> X -> heapProp C) :
  uwp ok e x Φ ⊢ (∀ a x', Φ a x' -∗ Ψ a x') -∗ uwp ok e x Ψ.
Proof.
  apply bi.wand_intro_r. split. intros m (m1 & m2 & -> & Hd & H & HW) f Hdf Hok. apply map_disjoint_union_l in Hdf as [Hf1 Hf2].
  destruct (H (m2 ∪ f)) as (a & m' & x' & E & Hd' & Hok' & HΦ); [by apply map_disjoint_union_r|by rewrite map_union_assoc|].
  apply map_disjoint_union_r in Hd' as [Hd1 Hd2]. exists a, (m2 ∪ m'), x'.
  assert (m2 ∪ m' ∪ f = m' ∪ (m2 ∪ f)) as Eq by (by rewrite map_union_assoc (map_union_comm m2 m')).
  rewrite Eq. split; [by rewrite -map_union_assoc E|]. split; [by apply map_disjoint_union_l|]. split; [done|]. by apply HW.
Qed.

(** A program on the memory alone. *)
Lemma uwp_mem {A} (e : M (gmap Z C) A) x (Φ : A -> X -> heapProp C) : hwp e (fun a => Φ a x) ⊢ uwp ok (on_mem e) x Φ.
Proof.
  split. intros m H f Hd Hok. destruct (H f Hd) as (a & m' & E & Hd' & Hdom & HΦ). exists a, m', x. unfold on_mem. cbn.
  rewrite E. split; [done|]. split; [done|]. split; [|done]. eapply antitone; [exact Hok|]. rewrite !dom_union_L. by apply union_mono_r.
Qed.

(** A program that only reads what [P] describes. *)
Lemma uwp_reads {A} (e : U A) x P (Q : A -> Prop) (Φ : A -> X -> heapProp C) :
  (forall m, holds P m -> ok x (dom m) -> exists a, e (MkSt m x) = Ok (a, MkSt m x) /\ Q a) ->
  P ⊢ (∀ a, ⌜Q a⌝ -∗ P -∗ Φ a x) -∗ uwp ok e x Φ.
Proof.
  intros H. apply bi.wand_intro_r. split. intros m (m1 & m2 & -> & Hd & HP & HW) f Hdf Hok.
  destruct (H (m1 ∪ m2 ∪ f)) as (a & E & HQ); [|done|].
  { eapply holds_mono; [exact HP|]. etransitivity; apply map_union_subseteq_l. }
  exists a, (m1 ∪ m2), x. split; [exact E|]. split; [done|]. split; [done|].
  specialize (HW a ∅ ltac:(apply map_disjoint_empty_r) HQ). rewrite map_union_empty in HW. rewrite map_union_comm //.
  apply HW; [by symmetry|done].
Qed.

(** A program on the other state that does not take addresses. *)
Lemma uwp_ext {A} (e : M X A) x a x' (Φ : A -> X -> heapProp C) :
  e x = Ok (a, x') -> (forall d, ok x d -> ok x' d) -> Φ a x' ⊢ uwp ok (on_ext e) x Φ.
Proof. intros E Hmono. split. intros m H f Hd Hok. exists a, m, x'. unfold on_ext. cbn. rewrite E. auto. Qed.

(** The other state hands out an address that is not in use. *)
Lemma uwp_new (e : M X Z) p c x x' (Φ : Z -> X -> heapProp C) :
  e x = Ok (p, x') -> (forall d, ok x d -> p ∉ d /\ ok x' ({[p]} ∪ d)) ->
  (p ↦ c -∗ Φ p x') ⊢ uwp ok (let* p := on_ext e in on_mem (new_cell p c) ;; ret p) x Φ.
Proof.
  intros E Hnew. split. intros m H f Hd Hok. destruct (Hnew _ Hok) as [Hp Hok']. rewrite not_elem_of_dom in Hp.
  apply lookup_union_None in Hp as [Hpm Hpf]. exists p, (m ∪ {[p := c]}), x'. unfold bind, on_ext, on_mem. cbn. rewrite E. cbn.
  assert (m ##ₘ {[p := c]}) as Hdp by (by apply map_disjoint_singleton_r).
  split; [by rewrite (map_union_comm m {[p := c]}) // -insert_union_singleton_l -insert_union_l|].
  split; [apply map_disjoint_union_l; split; [done|by apply map_disjoint_singleton_l]|].
  split; [|apply H; [done|apply lookup_singleton_eq]].
  eapply antitone; [exact Hok'|]. rewrite !dom_union_L dom_singleton_L. set_solver.
Qed.

(** A cell is given back. *)
Lemma uwp_drop {A} (e : M X A) p c x a x' (Φ : A -> X -> heapProp C) :
  e x = Ok (a, x') -> (forall d, ok x d -> p ∈ d -> ok x' (d ∖ {[p]})) ->
  p ↦ c ⊢ Φ a x' -∗ uwp ok (on_mem (drop_cell p) ;; on_ext e) x Φ.
Proof.
  intros E Hdrop. apply bi.wand_intro_r. split. intros m (m1 & m2 & -> & Hd & H & HW) f Hdf Hok. cbn in H.
  apply map_disjoint_union_l in Hdf as [Hf1 Hf2].
  assert (m2 !! p = None /\ f !! p = None) as [Hp2 Hpf]
    by (split; [exact (map_disjoint_Some_l _ _ _ _ Hd H)|exact (map_disjoint_Some_l _ _ _ _ Hf1 H)]).
  exists a, (m2 ∪ delete p m1), x'. assert ((m1 ∪ m2 ∪ f) !! p = Some c) as Hl by (by do 2 apply lookup_union_Some_l).
  assert (m2 ##ₘ delete p m1) as Hd' by (apply map_disjoint_delete_r; by symmetry).
  assert (delete p (m1 ∪ m2 ∪ f) = m2 ∪ delete p m1 ∪ f) as Edel.
  { rewrite (map_union_comm m2) // !delete_union. by rewrite (delete_id m2) // (delete_id f). }
  split; [|split; [apply map_disjoint_union_l; split; [done|by apply map_disjoint_delete_l]|split]].
  - unfold bind, on_mem, on_ext, drop_cell, load, bind, gets, deref. cbn. rewrite Hl. cbn. by rewrite E Edel.
  - rewrite -Edel dom_delete_L. apply Hdrop; [done|]. by apply elem_of_dom_2 in Hl.
  - eapply holds_mono; [exact HW|]. apply map_union_subseteq_l.
Qed.

End Rules2.
