(* ===== verification/Rbtree.v ===== *)
(** * Rbtree: the kernel's red-black tree

    src/lib/data_structures/rbtree.c.  Nodes and tree headers are cells of a
    memory; a node packs the address of its parent and its color into one
    word.  What follows the header of a node is its [data], and the callers'
    comparison functions are functions of that data.

    insert_rebalance and erase_color treat the two sides by two copies of the
    same code with left and right exchanged; here a side [d] is an argument,
    and [d = L] is the first copy. *)

From Stdlib Require Import ZArith Lia.
From stdpp Require Import base gmap.
From S2P Require Import Prelude HeapLogic.

Open Scope Z_scope.

Inductive color_e : Type := BLACK | RED.

#[export] Instance color_eq_dec : EqDecision color_e.
Proof. solve_decision. Defined.

Definition color_bit (c : color_e) : Z := match c with BLACK => 0 | RED => 1 end.

Inductive side : Type := L | R.

#[export] Instance side_eq_dec : EqDecision side.
Proof. solve_decision. Defined.

Definition opp (d : side) : side := match d with L => R | R => L end.

Record rbtnode (V : Type) : Type := MkRb { left : Z; right : Z; packed : Z; data : V }.
Arguments MkRb {V} left right packed data.
Arguments left {V} r.
Arguments right {V} r.
Arguments packed {V} r.
Arguments data {V} r.

Inductive cell (V : Type) : Type := Node (n : rbtnode V) | Tree (root : Z).
Arguments Node {V} n.
Arguments Tree {V} root.

(** A tree header is an object of its own or a field of the data of a node,
    which is then named by the address of that node. *)
Class TreeField (V : Type) : Type := {
  field_root : V -> option Z;
  set_field_root : Z -> V -> V;
  field_root_set v q : is_Some (field_root v) -> field_root (set_field_root q v) = Some q;
  set_field_twice v q q' : set_field_root q (set_field_root q' v) = set_field_root q v
}.

(** Data without a tree inside. *)
Program Definition no_tree_field (V : Type) : TreeField V :=
  {| field_root _ := None; set_field_root _ v := v |}.
Next Obligation. by intros V v q [? [=]]. Qed.
Next Obligation. done. Qed.

Definition root_of {V} `{!TreeField V} (c : cell V) : option Z :=
  match c with Tree r => Some r | Node n => field_root (data n) end.
Definition with_root {V} `{!TreeField V} (r : Z) (c : cell V) : cell V :=
  match c with
  | Tree _ => Tree r
  | Node n => Node (MkRb (left n) (right n) (packed n) (set_field_root r (data n)))
  end.

Definition RBT_LESS_THAN : Z := 0.
Definition RBT_GREATER_THAN : Z := 1.
Definition RBT_EQUALS : Z := 2.
Definition RBT_INSERT_OK : Z := 0.
Definition RBT_INSERT_EXISTS : Z := RBT_EQUALS.
Definition RBT_FIND_OK : Z := 0.
Definition RBT_FIND_NOT_FOUND : Z := 1.

(** ** The packed word *)

Definition get_color {V} (n : rbtnode V) : color_e := if Z.land (packed n) 1 =? 0 then BLACK else RED.
Definition get_parent {V} (n : rbtnode V) : Z := Z.land (packed n) (not64 1).
Definition is_black {V} (n : rbtnode V) : bool := Z.land (packed n) 1 =? 0.
Definition is_red {V} (n : rbtnode V) : bool := Z.land (packed n) 1 =? 1.

Definition with_packed {V} (w : Z) (n : rbtnode V) : rbtnode V := MkRb (left n) (right n) w (data n).
Definition child {V} (d : side) (n : rbtnode V) : Z := match d with L => left n | R => right n end.
Definition with_child {V} (d : side) (x : Z) (n : rbtnode V) : rbtnode V :=
  match d with L => MkRb x (right n) (packed n) (data n) | R => MkRb (left n) x (packed n) (data n) end.

Section Operations.
Context {V : Type} `{!TreeField V}.
Abbreviation RB := (M (gmap Z (cell V))).

Definition get_node (p : Z) : RB (rbtnode V) :=
  let* c := load p in match c with Node n => ret n | Tree _ => fault end.
Definition upd_node (p : Z) (f : rbtnode V -> rbtnode V) : RB unit :=
  let* n := get_node p in store p (Node (f n)).

Definition get_root (tree : Z) : RB Z := let* c := load tree in deref (root_of c).
Definition set_root (tree r : Z) : RB unit :=
  get_root tree ;;
  let* c := load tree in
  store tree (with_root r c).

Definition parent_of (p : Z) : RB Z := let* n := get_node p in ret (get_parent n).
Definition child_of (d : side) (p : Z) : RB Z := let* n := get_node p in ret (child d n).
Definition set_child (d : side) (p x : Z) : RB unit := upd_node p (with_child d x).

Definition set_color (p : Z) (color : color_e) : RB unit :=
  upd_node p (fun n => with_packed (match color with
                                    | BLACK => Z.land (packed n) (not64 1)
                                    | RED => Z.lor (packed n) 1
                                    end) n).

Definition set_parent (p parent : Z) : RB unit :=
  upd_node p (fun n => with_packed (Z.lor (Z.land (packed n) 1) (Z.land parent (not64 1))) n).

Definition set_parent_color (p parent : Z) (color : color_e) : RB unit :=
  upd_node p (with_packed (Z.lor (Z.land parent (not64 1)) (color_bit color))).

(** [if (parent) ... parent->left == old ...; else root->root = new] *)
Definition replace_child (tree parent old new : Z) : RB unit :=
  if parent =? 0 then set_root tree new
  else let* l := child_of L parent in set_child (if l =? old then L else R) parent new.

Definition rotate_set_parents (old new tree : Z) (color : color_e) : RB unit :=
  let* parent := parent_of old in
  let* p := parent_of old in
  set_parent new p ;;
  let* n := get_node old in
  set_color new (get_color n) ;;
  set_parent_color old new color ;;
  replace_child tree parent old new.

(** Enough for any path in the memory. *)
Definition rb_fuel (m : gmap Z (cell V)) : nat := S (size m).

(** ** Lookup *)

(** The key is the word behind the header, read with or without sign. *)
Definition signed64 (k : Z) : Z := if k <? 2 ^ 63 then k else k - 2 ^ 64.

Fixpoint find_key_loop (view : V -> Z) (fuel : nat) (node key : Z) : RB Z :=
  match fuel with
  | O => nofuel
  | S fuel =>
      if node =? 0 then ret node
      else
        let* n := get_node node in
        if negb (negb (view (data n) =? key)) then ret node
        else find_key_loop view fuel (if key <? view (data n) then left n else right n) key
  end.

Definition rbt_find_i64 (key_unsigned : V -> Z) (tree key : Z) : RB Z :=
  let* node := get_root tree in
  let* fuel := gets rb_fuel in
  find_key_loop (fun v => signed64 (key_unsigned v)) fuel node key.

Definition rbt_find_u64 (key_unsigned : V -> Z) (tree key : Z) : RB Z :=
  let* node := get_root tree in
  let* fuel := gets rb_fuel in
  find_key_loop key_unsigned fuel node key.

(** The result code and what is written to [*node_out]. *)
Fixpoint find_loop (fuel : nat) (cond : V -> Z) (node_b : Z) : RB (Z * option Z) :=
  match fuel with
  | O => nofuel
  | S fuel =>
      if node_b =? 0 then ret (RBT_FIND_NOT_FOUND, None)
      else
        let* b := get_node node_b in
        let cmp := cond (data b) in
        if cmp =? RBT_EQUALS then ret (RBT_FIND_OK, Some node_b)
        else if cmp =? RBT_LESS_THAN then find_loop fuel cond (left b)
        else if cmp =? RBT_GREATER_THAN then find_loop fuel cond (right b)
        else ret (cmp, Some node_b)
  end.

Definition rbt_find (tree : Z) (cond : V -> Z) : RB (Z * option Z) :=
  let* node_b := get_root tree in
  let* fuel := gets rb_fuel in
  find_loop fuel cond node_b.

(** ** Insertion *)

Inductive bst_insert_res_e : Type := COND_OK | COND_REBALANCE | COND_EQUALS.

(** The descent: [None] when an equal node is met, otherwise the last node
    and the last comparison. *)
Fixpoint bst_descend (fuel : nat) (cond : V -> V -> Z) (node parent cur cmp : Z) : RB (option (Z * Z)) :=
  match fuel with
  | O => nofuel
  | S fuel =>
      if cur =? 0 then ret (Some (parent, cmp))
      else
        let* a := get_node node in
        let* b := get_node cur in
        let cmp := cond (data a) (data b) in
        if cmp =? RBT_EQUALS then ret None
        else bst_descend fuel cond node cur (if cmp =? RBT_LESS_THAN then left b else right b) cmp
  end.

(** What follows the loop; [is_left] is evaluated on the last node. *)
Definition bst_attach (tree node parent : Z) (is_left : RB bool) : RB bst_insert_res_e :=
  set_child L node 0 ;;
  set_child R node 0 ;;
  set_parent_color node parent RED ;;
  if parent =? 0 then
    set_root tree node ;;
    set_color node BLACK ;;
    ret COND_OK
  else
    let* l := is_left in
    set_child (if l : bool then L else R) parent node ;;
    ret COND_REBALANCE.

Definition bst_insert_conditional (tree node : Z) (cond : V -> V -> Z) : RB bst_insert_res_e :=
  let* cur := get_root tree in
  let* fuel := gets rb_fuel in
  let* r := bst_descend fuel cond node 0 cur 0 in
  match r with
  | None => ret COND_EQUALS
  | Some (parent, cmp) => bst_attach tree node parent (ret (cmp =? RBT_LESS_THAN))
  end.

(** [==] and [<] on the keys, in the order of the two tests of the loop *)
Definition key_cond (view : V -> Z) (a b : V) : Z :=
  if view a =? view b then RBT_EQUALS else if view a <? view b then RBT_LESS_THAN else RBT_GREATER_THAN.

Definition key_is_left (view : V -> Z) (node parent : Z) : RB bool :=
  let* a := get_node node in
  let* b := get_node parent in
  ret (view (data a) <? view (data b)).

Definition bst_insert_unsigned (key_unsigned : V -> Z) (tree node : Z) : RB bst_insert_res_e :=
  let* cur := get_root tree in
  let* fuel := gets rb_fuel in
  let* r := bst_descend fuel (key_cond key_unsigned) node 0 cur 0 in
  match r with
  | None => ret COND_EQUALS
  | Some (parent, _) => bst_attach tree node parent (key_is_left key_unsigned node parent)
  end.

Definition bst_insert_signed (key_unsigned : V -> Z) (tree node : Z) : RB bst_insert_res_e :=
  let key_signed v := signed64 (key_unsigned v) in
  let* cur := get_root tree in
  let* fuel := gets rb_fuel in
  let* r := bst_descend fuel (key_cond key_signed) node 0 cur 0 in
  match r with
  | None => ret COND_EQUALS
  | Some (parent, _) => bst_attach tree node parent (key_is_left key_signed node parent)
  end.

(** [parent] is the child of [gparent] on side [d] and its uncle is black. *)
Definition insert_rotate (tree : Z) (d : side) (node parent gparent : Z) : RB unit :=
  let* tmp := child_of (opp d) parent in
  let* pt := (if node =? tmp then
      let* tmp := child_of d node in
      set_child (opp d) parent tmp ;;
      set_child d node parent ;;
      (if negb (tmp =? 0) then set_parent_color tmp parent BLACK else ret tt) ;;
      set_parent_color parent node RED ;;
      let* tmp := child_of (opp d) node in
      ret (node, tmp)
    else ret (parent, tmp)) in
  let '(parent, tmp) := pt in
  set_child d gparent tmp ;;
  set_child (opp d) parent gparent ;;
  (if negb (tmp =? 0) then set_parent_color tmp gparent BLACK else ret tt) ;;
  rotate_set_parents gparent parent tree RED.

Definition is_red_ptr (p : Z) : RB bool :=
  if p =? 0 then ret false else let* n := get_node p in ret (is_red n).

(** The side of [p] on which its child [x] is, and the other child:
    [tmp = p->right; if (x != tmp) ... else { tmp = p->left; ... }] *)
Definition side_of (p x : Z) : RB (side * Z) :=
  let* tmp := child_of R p in
  if negb (x =? tmp) then ret (L, tmp)
  else
    let* tmp := child_of L p in
    ret (R, tmp).

Fixpoint insert_rebalance_loop (fuel : nat) (tree node parent : Z) : RB unit :=
  match fuel with
  | O => nofuel
  | S fuel =>
      if parent =? 0 then set_parent_color node 0 BLACK
      else
        let* pn := get_node parent in
        if is_black pn then ret tt
        else
          let* gparent := parent_of parent in
          let* dt := side_of gparent parent in
          let '(d, tmp) := dt in
          let* red := is_red_ptr tmp in
          if red : bool then
            set_parent_color tmp gparent BLACK ;;
            set_parent_color parent gparent BLACK ;;
            let* parent := parent_of gparent in
            set_parent_color gparent parent RED ;;
            insert_rebalance_loop fuel tree gparent parent
          else insert_rotate tree d node parent gparent
  end.

Definition insert_rebalance (tree node : Z) : RB unit :=
  let* parent := parent_of node in
  let* fuel := gets rb_fuel in
  insert_rebalance_loop fuel tree node parent.

Definition insert_result (tree node : Z) (r : bst_insert_res_e) : RB Z :=
  match r with
  | COND_OK => ret RBT_INSERT_OK
  | COND_REBALANCE => insert_rebalance tree node ;; ret RBT_INSERT_OK
  | COND_EQUALS => ret RBT_INSERT_EXISTS
  end.

Definition rbt_insert_i64 (key_unsigned : V -> Z) (tree node : Z) : RB Z :=
  ASSERT (negb (tree =? 0) && negb (node =? 0)) ;;
  let* r := bst_insert_signed key_unsigned tree node in
  insert_result tree node r.

Definition rbt_insert_u64 (key_unsigned : V -> Z) (tree node : Z) : RB Z :=
  ASSERT (negb (tree =? 0) && negb (node =? 0)) ;;
  let* r := bst_insert_unsigned key_unsigned tree node in
  insert_result tree node r.

Definition rbt_insert (tree node : Z) (cond : V -> V -> Z) : RB Z :=
  ASSERT (negb (tree =? 0) && negb (node =? 0)) ;;
  let* r := bst_insert_conditional tree node cond in
  insert_result tree node r.

(** ** Removal *)

Definition is_black_ptr (p : Z) : RB bool :=
  if p =? 0 then ret true else let* n := get_node p in ret (is_black n).

(** Case 1: the sibling is red; it is rotated above [parent], and the new
    sibling is black. *)
Definition erase_red_sibling (tree : Z) (d : side) (parent sibling : Z) : RB Z :=
  let* n := get_node sibling in
  if is_red n then
    let* tmp1 := child_of d sibling in
    set_child (opp d) parent tmp1 ;;
    set_child d sibling parent ;;
    set_parent_color tmp1 parent BLACK ;;
    rotate_set_parents parent sibling tree RED ;;
    ret tmp1
  else ret sibling.

(** Case 4: the outer child [tmp1] of the sibling is (made) red. *)
Definition erase_rotate (tree : Z) (d : side) (parent sibling tmp1 : Z) : RB unit :=
  let* tmp2 := child_of d sibling in
  set_child (opp d) parent tmp2 ;;
  set_child d sibling parent ;;
  set_parent_color tmp1 sibling BLACK ;;
  (if negb (tmp2 =? 0) then set_parent tmp2 parent else ret tt) ;;
  rotate_set_parents parent sibling tree BLACK.

(** Case 3: only the inner child [tmp2] of the sibling is red. *)
Definition erase_inner (d : side) (parent sibling tmp2 : Z) : RB unit :=
  let* tmp1 := child_of (opp d) tmp2 in
  set_child d sibling tmp1 ;;
  set_child (opp d) tmp2 sibling ;;
  set_child (opp d) parent tmp2 ;;
  if negb (tmp1 =? 0) then set_parent_color tmp1 sibling BLACK else ret tt.

(** One round; the result is the node and its parent when the loop goes on. *)
Definition erase_round (tree node parent : Z) : RB (option (Z * Z)) :=
  let* ds := side_of parent node in
  let '(d, sibling) := ds in
  let* sibling := erase_red_sibling tree d parent sibling in
  let* tmp1 := child_of (opp d) sibling in
  let* black1 := is_black_ptr tmp1 in
  if black1 : bool then
    let* tmp2 := child_of d sibling in
    let* black2 := is_black_ptr tmp2 in
    if black2 : bool then
      set_parent_color sibling parent RED ;;
      let* pn := get_node parent in
      if is_red pn then set_color parent BLACK ;; ret None
      else
        let* gparent := parent_of parent in
        ret (if negb (gparent =? 0) then Some (parent, gparent) else None)
    else
      erase_inner d parent sibling tmp2 ;;
      erase_rotate tree d parent tmp2 sibling ;;
      ret None
  else
    erase_rotate tree d parent sibling tmp1 ;;
    ret None.

Fixpoint erase_color_loop (fuel : nat) (tree node parent : Z) : RB unit :=
  match fuel with
  | O => nofuel
  | S fuel =>
      let* r := erase_round tree node parent in
      match r with
      | Some (node, parent) => erase_color_loop fuel tree node parent
      | None => ret tt
      end
  end.

Definition erase_color (tree parent : Z) : RB unit :=
  let* fuel := gets rb_fuel in
  erase_color_loop fuel tree 0 parent.

(** The [do ... while] loop: from [successor] and its left child [tmp] to the
    leftmost node and its parent. *)
Fixpoint successor_loop (fuel : nat) (successor tmp : Z) : RB (Z * Z) :=
  match fuel with
  | O => nofuel
  | S fuel =>
      let parent := successor in
      let successor := tmp in
      let* tmp := child_of L tmp in
      if tmp =? 0 then ret (parent, successor) else successor_loop fuel successor tmp
  end.

(** The three cases of a node; the result is [rebalance]. *)
Definition remove_no_left (tree node child_ : Z) : RB Z :=
  let* parent := parent_of node in
  replace_child tree parent node child_ ;;
  let* n := get_node node in
  if negb (child_ =? 0) then set_parent_color child_ parent (get_color n) ;; ret 0
  else ret (if is_black n then parent else 0).

Definition remove_no_right (tree node tmp : Z) : RB Z :=
  let* parent := parent_of node in
  let* n := get_node node in
  set_parent_color tmp parent (get_color n) ;;
  replace_child tree parent node tmp ;;
  ret 0.

(** The successor is unlinked from its place in the right subtree. *)
Definition unlink_successor (child_ : Z) : RB (Z * Z * Z) :=
  let* tmp := child_of L child_ in
  if tmp =? 0 then
    let* child2 := child_of R child_ in
    ret (child_, child_, child2)
  else
    let* fuel := gets rb_fuel in
    let* r := successor_loop fuel child_ tmp in
    let '(parent, successor) := r in
    let* child2 := child_of R successor in
    set_child L parent child2 ;;
    set_child R successor child_ ;;
    set_parent child_ successor ;;
    ret (successor, parent, child2).

Definition remove_two (tree node child_ : Z) : RB Z :=
  let* r := unlink_successor child_ in
  let '(successor, parent, child2) := r in
  let* l := child_of L node in
  set_child L successor l ;;
  let* l := child_of L node in
  set_parent l successor ;;
  let* node_parent := parent_of node in
  replace_child tree node_parent node successor ;;
  let* rebalance := (if negb (child2 =? 0) then set_parent_color child2 parent BLACK ;; ret 0
                     else let* s := get_node successor in ret (if is_black s then parent else 0)) in
  let* n := get_node node in
  set_parent_color successor node_parent (get_color n) ;;
  ret rebalance.

Definition rbt_remove (tree node : Z) : RB Z :=
  let* child_ := child_of R node in
  let* tmp := child_of L node in
  let* rebalance := (if tmp =? 0 then remove_no_left tree node child_
                     else if child_ =? 0 then remove_no_right tree node tmp
                     else remove_two tree node child_) in
  (if negb (rebalance =? 0) then erase_color tree rebalance else ret tt) ;;
  ret node.

(** ** Traversal *)

Fixpoint extreme_loop (fuel : nat) (d : side) (node : Z) : RB Z :=
  match fuel with
  | O => nofuel
  | S fuel =>
      let* c := child_of d node in
      if c =? 0 then ret node else extreme_loop fuel d c
  end.

Definition rbt_rightmost (tree : Z) : RB Z :=
  let* node := get_root tree in
  let* fuel := gets rb_fuel in
  if node =? 0 then ret node else extreme_loop fuel R node.

Definition rbt_leftmost (tree : Z) : RB Z :=
  let* node := get_root tree in
  let* fuel := gets rb_fuel in
  if node =? 0 then ret node else extreme_loop fuel L node.

(** [while (parent && node == parent->right)], for the side [d] *)
Fixpoint climb_loop (fuel : nat) (d : side) (node parent : Z) : RB Z :=
  match fuel with
  | O => nofuel
  | S fuel =>
      if parent =? 0 then ret parent
      else
        let* c := child_of d parent in
        if node =? c then let* pp := parent_of parent in climb_loop fuel d parent pp
        else ret parent
  end.

(** [d = R]: the successor, [d = L]: the predecessor *)
Definition inorder_neighbour (d : side) (node : Z) : RB Z :=
  let* fuel := gets rb_fuel in
  let* c := child_of d node in
  if negb (c =? 0) then extreme_loop fuel (opp d) c
  else
    let* parent := parent_of node in
    climb_loop fuel d node parent.

Definition inorder_successor (node : Z) : RB Z := inorder_neighbour R node.
Definition inorder_predecessor (node : Z) : RB Z := inorder_neighbour L node.

(** [visit] sees the node and its data and updates the context. *)
Fixpoint for_each_loop {X} (fuel : nat) (next : Z -> RB Z) (visit : Z -> V -> X -> bool * X) (node : Z) (ctx : X) : RB X :=
  match fuel with
  | O => nofuel
  | S fuel =>
      if node =? 0 then ret ctx
      else
        let* n := get_node node in
        let '(go_on, ctx) := visit node (data n) ctx in
        if negb go_on then ret ctx
        else
          let* node := next node in
          for_each_loop fuel next visit node ctx
  end.

Definition rbt_for_each {X} (tree : Z) (visit : Z -> V -> X -> bool * X) (ctx : X) : RB X :=
  let* node := rbt_leftmost tree in
  let* fuel := gets rb_fuel in
  for_each_loop fuel inorder_successor visit node ctx.

Definition rbt_for_each_rev {X} (tree : Z) (visit : Z -> V -> X -> bool * X) (ctx : X) : RB X :=
  let* node := rbt_rightmost tree in
  let* fuel := gets rb_fuel in
  for_each_loop fuel inorder_predecessor visit node ctx.

End Operations.

(** ** Destruction

    [free_fn] acts on the state of the caller, of which the memory is a part,
    and gives the node back. *)

Section Destruction.
Context {V : Type} `{!TreeField V} {S : Type} (on_mem : forall A, M (gmap Z (cell V)) A -> M S A).

Definition unlink_leaf (parent node : Z) : M (gmap Z (cell V)) unit :=
  if negb (parent =? 0) then
    let* l := child_of L parent in
    set_child (if l =? node then L else R) parent 0
  else ret tt.

Fixpoint destroy_loop (fuel : nat) (free_fn : Z -> M S unit) (node : Z) : M S unit :=
  match fuel with
  | O => nofuel
  | Datatypes.S fuel =>
      if node =? 0 then ret tt
      else
        let* n := on_mem _ (get_node node) in
        if negb (left n =? 0) then destroy_loop fuel free_fn (left n)
        else if negb (right n =? 0) then destroy_loop fuel free_fn (right n)
        else
          let parent := get_parent n in
          on_mem _ (unlink_leaf parent node) ;;
          free_fn node ;;
          destroy_loop fuel free_fn parent
  end.

Definition rbt_destroy (tree : Z) (free_fn : option (Z -> M S unit)) : M S unit :=
  if tree =? 0 then ret tt
  else
    match free_fn with
    | None => ret tt
    | Some free_fn =>
        let* root := on_mem _ (get_root tree) in
        if root =? 0 then ret tt
        else
          let* fuel := on_mem _ (gets rb_fuel) in
          destroy_loop (2 * fuel) free_fn root ;;
          on_mem _ (set_root tree 0)
    end.
End Destruction.
