(* ===== verification/RbtreeTree.v ===== *)
(** * RbtreeTree: red-black trees and their contexts

    The trees that the nodes of Rbtree.v represent.  A position in a tree is a
    subtree with its context, the path up to the root; rebalancing edits the
    two.  [elems] lists the nodes in order, [rb] is the red-black invariant of
    a subtree with its black height, [ctx_rb] that of a context. *)

From Stdlib Require Import ZArith Lia.
From stdpp Require Import base tactics list.
From S2P Require Import Prelude Rbtree.

Open Scope Z_scope.

Section Trees.
Context {V : Type}.

Inductive tree : Type := E | T (c : color_e) (l : tree) (p : Z) (v : V) (r : tree).

(** A node whose child on side [d] is [a]. *)
Definition node (d : side) (c : color_e) (a : tree) (p : Z) (v : V) (b : tree) : tree :=
  match d with L => T c a p v b | R => T c b p v a end.

Definition ptr (t : tree) : Z := match t with E => 0 | T _ _ p _ _ => p end.
Definition color (t : tree) : color_e := match t with E => BLACK | T c _ _ _ _ => c end.
Definition paint (c : color_e) (t : tree) : tree := match t with E => E | T _ l p v r => T c l p v r end.

Fixpoint elems (t : tree) : list (Z * V) :=
  match t with E => [] | T _ l p v r => elems l ++ (p, v) :: elems r end.

Fixpoint depth (t : tree) : nat :=
  match t with E => 0 | T _ l _ _ r => S (Nat.max (depth l) (depth r)) end.

Lemma depth_length t : (depth t <= length (elems t))%nat.
Proof. induction t; cbn; [lia|]. rewrite length_app. cbn. lia. Qed.

(** The list with [a] towards side [d]. *)
Definition beside {A} (d : side) (a b : list A) : list A := match d with L => a ++ b | R => b ++ a end.

Lemma elems_node d c a p v b : elems (node d c a p v b) = beside d (elems a) (beside d [(p, v)] (elems b)).
Proof. destruct d; cbn; [done|]. by rewrite <- app_assoc. Qed.

Lemma beside_assoc {A} d (a b c : list A) : beside d (beside d a b) c = beside d a (beside d b c).
Proof. destruct d; cbn; [symmetry|]; apply app_assoc. Qed.

Lemma beside_opp {A} d (a b : list A) : beside (opp d) a b = beside d b a.
Proof. by destruct d. Qed.

Lemma elems_paint c t : elems (paint c t) = elems t.
Proof. by destruct t. Qed.

Lemma ptr_node d c a p v b : ptr (node d c a p v b) = p.
Proof. by destruct d. Qed.

Lemma ptr_paint c t : ptr (paint c t) = ptr t.
Proof. by destruct t. Qed.

Lemma node_opp d c a p v b : node (opp d) c a p v b = node d c b p v a.
Proof. by destruct d. Qed.

Lemma opp_opp d : opp (opp d) = d.
Proof. by destruct d. Qed.

(** Every node, seen from a side. *)
Lemma node_view d t : t = E \/ exists c a p v b, t = node d c a p v b.
Proof. destruct t as [|c l p v r]; [by left|right]. destruct d; [by exists c, l, p, v, r|by exists c, r, p, v, l]. Qed.

(** ** Contexts *)

Record frame : Type := MkFrame { fd : side; fc : color_e; fp : Z; fv : V; fs : tree }.

Definition plug1 (f : frame) (t : tree) : tree := node (fd f) (fc f) t (fp f) (fv f) (fs f).
Fixpoint plug (k : list frame) (t : tree) : tree := match k with [] => t | f :: k => plug k (plug1 f t) end.

(** The nodes around the hole. *)
Definition around1 (f : frame) (l : list (Z * V)) : list (Z * V) :=
  beside (fd f) l (beside (fd f) [(fp f, fv f)] (elems (fs f))).
Fixpoint around (k : list frame) (l : list (Z * V)) : list (Z * V) :=
  match k with [] => l | f :: k => around k (around1 f l) end.

Lemma elems_plug k t : elems (plug k t) = around k (elems t).
Proof. revert t. induction k as [|f k IH]; intros t; [done|]. cbn. rewrite IH. unfold plug1. by rewrite elems_node. Qed.

Lemma around_split k : exists l1 l2, forall l, around k l = l1 ++ l ++ l2.
Proof.
  induction k as [|f k (l1 & l2 & IH)]; [exists [], []; intros l; by rewrite app_nil_r|].
  destruct f as [[] c p v s]; cbn.
  - exists l1, ((p, v) :: elems s ++ l2). intros l. rewrite IH. unfold around1. cbn. by rewrite <- !app_assoc.
  - exists (l1 ++ elems s ++ [(p, v)]), l2. intros l. rewrite IH. unfold around1. cbn. by rewrite <- !app_assoc.
Qed.

Definition cpar (k : list frame) : Z := match k with [] => 0 | f :: _ => fp f end.

(** ** The invariant *)

Inductive rb : color_e -> nat -> tree -> Prop :=
  | rb_E : rb BLACK 0 E
  | rb_R n l p v r : rb BLACK n l -> rb BLACK n r -> rb RED n (T RED l p v r)
  | rb_B n cl cr l p v r : rb cl n l -> rb cr n r -> rb BLACK (S n) (T BLACK l p v r).

(** [red]: the hole may be red; [n]: the black height it needs. *)
Inductive ctx_rb : bool -> nat -> list frame -> Prop :=
  | ctx_top n : ctx_rb false n []
  | ctx_R n d p v s k : rb BLACK n s -> ctx_rb true n k -> ctx_rb false n (MkFrame d RED p v s :: k)
  | ctx_B n b c d p v s k : rb c n s -> ctx_rb b (S n) k -> ctx_rb true n (MkFrame d BLACK p v s :: k).

Definition rbtree (t : tree) : Prop := exists n, rb BLACK n t.

Lemma rb_color c n t : rb c n t -> color t = c.
Proof. by destruct 1. Qed.

Lemma rb_node_R d n a p v b : rb BLACK n a -> rb BLACK n b -> rb RED n (node d RED a p v b).
Proof. intros. destruct d; by constructor. Qed.

Lemma rb_node_B d n ca cb a p v b : rb ca n a -> rb cb n b -> rb BLACK (S n) (node d BLACK a p v b).
Proof. intros. destruct d; econstructor; eauto. Qed.

Lemma rb_node_R_inv d n c a p v b : rb c n (node d RED a p v b) -> c = RED /\ rb BLACK n a /\ rb BLACK n b.
Proof. intros H. destruct d; inversion H; subst; auto. Qed.

Lemma rb_node_B_inv d n c a p v b :
  rb c n (node d BLACK a p v b) -> c = BLACK /\ exists n' ca cb, n = S n' /\ rb ca n' a /\ rb cb n' b.
Proof. intros H. destruct d; inversion H; subst; split; eauto 10. Qed.

Lemma rb_paint n t : rb RED n t -> rb BLACK (S n) (paint BLACK t).
Proof. inversion 1; subst. cbn. econstructor; eauto. Qed.

Lemma rb_height c n t : rb c (S n) t -> t <> E.
Proof. by inversion 1. Qed.

(** A context that takes a red hole also takes a black one. *)
Lemma plug_rb b n k t : ctx_rb b n k -> (rb BLACK n t \/ (b = true /\ exists c, rb c n t)) -> rbtree (plug k t).
Proof.
  intros H. revert t. induction H as [n|n d p v s k Hs Hk IH|n b c d p v s k Hs Hk IH]; intros t Ht; cbn.
  - destruct Ht as [Ht|[[=] _]]. by exists n.
  - apply IH. right. split; [done|]. exists RED. destruct Ht as [Ht|[[=] _]]. by apply rb_node_R.
  - apply IH. left. destruct Ht as [Ht|[_ [c' Ht]]]; by eapply rb_node_B.
Qed.

(** Taking a tree apart at a position. *)
Lemma rb_plug_inv n k t : rb BLACK n (plug k t) -> exists b m c, ctx_rb b m k /\ rb c m t /\ (c = RED -> b = true).
Proof.
  revert t. induction k as [|[d fc p v s] k IH]; intros t H.
  - exists false, n, BLACK. split; [constructor|done].
  - cbn in H. destruct (IH _ H) as (b & m & c & Hk & Ht & Hc). unfold plug1 in Ht. cbn in Ht. destruct fc.
    + apply rb_node_B_inv in Ht as (-> & m' & ca & cb & -> & Ha & Hb). exists true, m', ca. split; [by econstructor|done].
    + apply rb_node_R_inv in Ht as (-> & Ha & Hb). exists false, m, BLACK. rewrite (Hc eq_refl) in Hk. split; [by constructor|done].
Qed.

Lemma plug_app k1 k2 t : plug (k1 ++ k2) t = plug k2 (plug k1 t).
Proof. revert t. induction k1 as [|f k1 IH]; intros t; [done|]. apply IH. Qed.

Lemma around_app k1 k2 l : around (k1 ++ k2) l = around k2 (around k1 l).
Proof. revert l. induction k1 as [|f k1 IH]; intros l; [done|]. apply IH. Qed.

Lemma plug_elem (t : tree) p v : (p, v) ∈ elems t -> exists k c l r, t = plug k (T c l p v r).
Proof.
  induction t as [|c l IHl q w r IHr]; cbn; [by intros ?%elem_of_nil|].
  rewrite elem_of_app, elem_of_cons. intros [H|[[= -> ->]|H]].
  - destruct (IHl H) as (k & c' & l' & r' & ->). exists (k ++ [MkFrame L c q w r]), c', l', r'. by rewrite plug_app.
  - by exists [], c, l, r.
  - destruct (IHr H) as (k & c' & l' & r' & ->). exists (k ++ [MkFrame R c q w l]), c', l', r'. by rewrite plug_app.
Qed.

Lemma plug_length k t : (length k <= length (elems (plug k t)))%nat.
Proof.
  rewrite elems_plug. generalize (elems t). induction k as [|f k IH]; intros l; cbn; [lia|].
  destruct (around_split k) as (l1 & l2 & Ha). specialize (IH (elems (fs f))). rewrite Ha in IH |- *.
  revert IH. rewrite !length_app. unfold around1. destruct (fd f); cbn; rewrite ?length_app; cbn; rewrite ?length_app; cbn; lia.
Qed.

End Trees.
Arguments tree V : clear implicits.
Arguments frame V : clear implicits.

(** ** Packed words *)

(** An even 64-bit address, the null pointer included. *)
Definition word_ptr (p : Z) : Prop := is_u64 p /\ Z.land p 1 = 0.
Definition node_ptr (p : Z) : Prop := p <> 0 /\ word_ptr p.

Definition pack (par : Z) (c : color_e) : Z := Z.lor par (color_bit c).

Lemma word_ptr_0 : word_ptr 0.
Proof. by split. Qed.

Lemma color_bit_range c : is_u64 (color_bit c).
Proof. destruct c; unfold u_range; cbn; lia. Qed.

Lemma ptr_mask p : word_ptr p -> Z.land p (not64 1) = p.
Proof.
  intros [Hr He]. rewrite land_not_w by (done || lia). apply Z.bits_inj'. intros i Hi.
  assert (Z.testbit (Z.land p 1) i = false) as Hb by (by rewrite He, Z.bits_0).
  rewrite Z.land_spec in Hb. rewrite Z.ldiff_spec. destruct (Z.testbit p i); [|done]. cbn in *. by rewrite Hb.
Qed.

Lemma pack_range p c : word_ptr p -> is_u64 (pack p c).
Proof. intros [Hr _]. apply lor_range; [lia|done|apply color_bit_range]. Qed.

Lemma pack_parent p c : word_ptr p -> Z.land (pack p c) (not64 1) = p.
Proof.
  intros Hp. rewrite land_not_w by (by apply pack_range || lia). unfold pack.
  rewrite <- (ptr_mask p Hp) at 2. rewrite land_not_w by (apply Hp || lia).
  apply Z.bits_inj'. intros i Hi. rewrite !Z.ldiff_spec, Z.lor_spec.
  destruct c; cbn; [by rewrite Z.bits_0, orb_false_r|]. by destruct (Z.testbit p i), (Z.testbit 1 i).
Qed.

Lemma pack_bit p c : word_ptr p -> Z.land (pack p c) 1 = color_bit c.
Proof.
  intros [_ He]. unfold pack. rewrite Z.land_lor_distr_l, He. by destruct c.
Qed.

(** The operations on a packed word. *)
Section Words.
Context {V : Type} (n : rbtnode V) (par : Z) (c : color_e).
Hypotheses (Hpar : word_ptr par) (Hn : packed n = pack par c).

Lemma get_parent_pack : get_parent n = par.
Proof. unfold get_parent. rewrite Hn. by apply pack_parent. Qed.

Lemma get_color_pack : get_color n = c.
Proof. unfold get_color. rewrite Hn, pack_bit by done. by destruct c. Qed.

Lemma is_red_pack : is_red n = bool_decide (c = RED).
Proof. unfold is_red. rewrite Hn, pack_bit by done. by destruct c. Qed.

Lemma is_black_pack : is_black n = bool_decide (c = BLACK).
Proof. unfold is_black. rewrite Hn, pack_bit by done. by destruct c. Qed.

Lemma set_color_pack c' :
  match c' with BLACK => Z.land (packed n) (not64 1) | RED => Z.lor (packed n) 1 end = pack par c'.
Proof.
  rewrite Hn. destruct c'; [rewrite pack_parent by done; unfold pack; by rewrite Z.lor_0_r|].
  unfold pack. rewrite <- Z.lor_assoc. by destruct c.
Qed.

Lemma set_parent_pack par' : word_ptr par' -> Z.lor (Z.land (packed n) 1) (Z.land par' (not64 1)) = pack par' c.
Proof. intros Hp. rewrite Hn, pack_bit, ptr_mask by done. apply Z.lor_comm. Qed.
End Words.

Lemma set_parent_color_pack par c : word_ptr par -> Z.lor (Z.land par (not64 1)) (color_bit c) = pack par c.
Proof. intros Hp. by rewrite ptr_mask by done. Qed.
