(* ===== verification/RbtreeRep.v ===== *)
(** * RbtreeRep: red-black trees in memory

    [tree_at par t]: the nodes of [t], linked to a parent [par]; [ctx_at]: the
    nodes of a context up to the tree header.  The small operations of
    Rbtree.v as rules of the heap logic. *)

From Stdlib Require Import ZArith Lia.
From stdpp Require Import base gmap list.
From iris.proofmode Require Import proofmode.
From S2P Require Import Prelude HeapLogic Rbtree RbtreeTree.

Open Scope Z_scope.

(** Where a tree header is and what its cell holds besides the root. *)
Record header (V : Type) `{!TreeField V} : Type := MkHeader {
  haddr :> Z;
  hcell : cell V;
  hcell_root : is_Some (root_of hcell)
}.
Arguments MkHeader {V _} haddr hcell hcell_root.
Arguments haddr {V _} h.
Arguments hcell {V _} h.
Arguments hcell_root {V _} h.

Section Rep.
Context {V : Type} `{!TreeField V}.
Implicit Types (tree : header V) (t a b : tree V) (k : list (frame V)) (d : side) (c : color_e) (n : rbtnode V) (v : V).

Abbreviation prop := (heapProp (cell V)).

(** A node with [x] on side [d] and [y] on the other. *)
Definition mk d (x y w : Z) v : rbtnode V := match d with L => MkRb x y w v | R => MkRb y x w v end.

Fixpoint tree_at (par : Z) (t : tree V) : prop :=
  match t with
  | E => emp
  | T c l p v r => ⌜node_ptr p⌝ ∗ p ↦ Node (MkRb (ptr l) (ptr r) (pack par c) v) ∗ tree_at p l ∗ tree_at p r
  end%I.

Fixpoint ctx_at (tree : header V) (k : list (frame V)) (q : Z) : prop :=
  match k with
  | [] => tree ↦ with_root q (hcell tree)
  | f :: k => ⌜node_ptr (fp f)⌝ ∗ fp f ↦ Node (mk (fd f) q (ptr (fs f)) (pack (cpar k) (fc f)) (fv f)) ∗
      tree_at (fp f) (fs f) ∗ ctx_at tree k (fp f)
  end%I.

Lemma tree_at_node par d c a p v b :
  tree_at par (node d c a p v b) ⊣⊢
    ⌜node_ptr p⌝ ∗ p ↦ Node (mk d (ptr a) (ptr b) (pack par c) v) ∗ tree_at p a ∗ tree_at p b.
Proof. destruct d; cbn; [done|]. by rewrite (comm bi_sep (tree_at p b)). Qed.

Lemma ctx_at_cons tree d c p v s k q :
  ctx_at tree (MkFrame d c p v s :: k) q ⊣⊢
    ⌜node_ptr p⌝ ∗ p ↦ Node (mk d q (ptr s) (pack (cpar k) c) v) ∗ tree_at p s ∗ ctx_at tree k p.
Proof. done. Qed.

Lemma ctx_at_plug tree k t :
  ctx_at tree k (ptr t) ∗ tree_at (cpar k) t ⊣⊢ tree ↦ with_root (ptr (plug k t)) (hcell tree) ∗ tree_at 0 (plug k t).
Proof.
  revert t. induction k as [|[d c p v s] k IH]; intros t; [done|]. rewrite ctx_at_cons.
  cbn [plug]. rewrite -IH. unfold plug1. cbn [fd fc fp fv fs]. rewrite ptr_node tree_at_node. cbn [cpar fp].
  iSplit; [iIntros "((% & Hp & Hs & Hk) & Ht)"|iIntros "(Hk & % & Hp & Ht & Hs)"]; by iFrame.
Qed.

Lemma plug_close tree k t :
  ctx_at tree k (ptr t) ⊢ tree_at (cpar k) t -∗ tree ↦ with_root (ptr (plug k t)) (hcell tree) ∗ tree_at 0 (plug k t).
Proof. iIntros "Hk Ht". rewrite -ctx_at_plug. iFrame. Qed.

Lemma plug_open tree k t :
  tree ↦ with_root (ptr (plug k t)) (hcell tree) ⊢ tree_at 0 (plug k t) -∗ ctx_at tree k (ptr t) ∗ tree_at (cpar k) t.
Proof. iIntros "Hk Ht". rewrite ctx_at_plug. iFrame. Qed.

(** ** What the assertions say about pointers *)

Lemma cpar_word tree k q : ctx_at tree k q ⊢ ⌜word_ptr (cpar k)⌝.
Proof. destruct k as [|f k]; cbn; [iIntros "_"; iPureIntro; apply word_ptr_0|]. iIntros "([_ %] & _)". done. Qed.

Lemma ptr_word par t : tree_at par t ⊢ ⌜word_ptr (ptr t)⌝.
Proof. destruct t; cbn; [iIntros "_"; iPureIntro; apply word_ptr_0|]. iIntros "([_ %] & _)". done. Qed.

Lemma tree_at_ne par t q cq : q <> 0 -> tree_at par t ⊢ q ↦ cq -∗ ⌜ptr t <> q⌝.
Proof.
  intros Hq. destruct t as [|c l p v r]; cbn; [by iIntros "_ _"; auto|].
  iIntros "(_ & Hp & _) Hq". iApply (points_to_ne with "Hp Hq").
Qed.

(** ** Reading and writing nodes *)

Lemma hwp_get_node p n (Φ : rbtnode V -> prop) : p ↦ Node n ⊢ (p ↦ Node n -∗ Φ n) -∗ hwp (get_node p) Φ.
Proof.
  iIntros "Hp HΦ". iApply hwp_bind. iApply (hwp_load with "Hp"). iIntros "Hp". iApply hwp_ret. by iApply "HΦ".
Qed.

Lemma hwp_upd_node p n f (Φ : unit -> prop) : p ↦ Node n ⊢ (p ↦ Node (f n) -∗ Φ tt) -∗ hwp (upd_node p f) Φ.
Proof.
  iIntros "Hp HΦ". iApply hwp_bind. iApply (hwp_get_node with "Hp"). iIntros "Hp". by iApply (hwp_store with "Hp").
Qed.

Lemma root_of_with q (c : cell V) : is_Some (root_of c) -> root_of (with_root q c) = Some q.
Proof. destruct c as [n|r]; cbn; [apply field_root_set|done]. Qed.

Lemma with_root_twice q q' (c : cell V) : with_root q (with_root q' c) = with_root q c.
Proof. destruct c as [n|r]; cbn; [by rewrite set_field_twice|done]. Qed.

Lemma hwp_get_root (tree : header V) r (Φ : Z -> prop) :
  tree ↦ with_root r (hcell tree) ⊢ (tree ↦ with_root r (hcell tree) -∗ Φ r) -∗ hwp (get_root tree) Φ.
Proof.
  iIntros "Hp HΦ". iApply hwp_bind. iApply (hwp_load with "Hp"). iIntros "Hp".
  rewrite root_of_with; [|apply hcell_root]. iApply hwp_ret. by iApply "HΦ".
Qed.

Lemma hwp_set_root (tree : header V) r r' (Φ : unit -> prop) :
  tree ↦ with_root r (hcell tree) ⊢ (tree ↦ with_root r' (hcell tree) -∗ Φ tt) -∗ hwp (set_root tree r') Φ.
Proof.
  iIntros "Hp HΦ". iApply hwp_bind. iApply (hwp_get_root with "Hp"). iIntros "Hp". iApply hwp_bind.
  iApply (hwp_load with "Hp"). iIntros "Hp". rewrite with_root_twice. by iApply (hwp_store with "Hp").
Qed.

Lemma child_mk d x y w v : child d (mk d x y w v) = x.
Proof. by destruct d. Qed.
Lemma child_mk_opp d x y w v : child (opp d) (mk d x y w v) = y.
Proof. by destruct d. Qed.
Lemma packed_mk d x y w v : packed (mk d x y w v) = w.
Proof. by destruct d. Qed.
Lemma with_child_mk d x y w v x' : with_child d x' (mk d x y w v) = mk d x' y w v.
Proof. by destruct d. Qed.
Lemma with_child_mk_opp d x y w v y' : with_child (opp d) y' (mk d x y w v) = mk d x y' w v.
Proof. by destruct d. Qed.
Lemma with_packed_mk d x y w v w' : with_packed w' (mk d x y w v) = mk d x y w' v.
Proof. by destruct d. Qed.
Lemma data_mk d x y w v : data (mk d x y w v) = v.
Proof. by destruct d. Qed.
Lemma mk_opp d x y w v : mk (opp d) x y w v = mk d y x w v.
Proof. by destruct d. Qed.

Lemma hwp_child p n d (Φ : Z -> prop) : p ↦ Node n ⊢ (p ↦ Node n -∗ Φ (child d n)) -∗ hwp (child_of d p) Φ.
Proof.
  iIntros "Hp HΦ". iApply hwp_bind. iApply (hwp_get_node with "Hp"). iIntros "Hp". iApply hwp_ret. by iApply "HΦ".
Qed.

Lemma hwp_child_mk p d x y w v (Φ : Z -> prop) :
  p ↦ Node (mk d x y w v) ⊢ (p ↦ Node (mk d x y w v) -∗ Φ x) -∗ hwp (child_of d p) Φ.
Proof. iIntros "Hp HΦ". iApply (hwp_child with "Hp"). by rewrite child_mk. Qed.

Lemma hwp_child_opp p d x y w v (Φ : Z -> prop) :
  p ↦ Node (mk d x y w v) ⊢ (p ↦ Node (mk d x y w v) -∗ Φ y) -∗ hwp (child_of (opp d) p) Φ.
Proof. iIntros "Hp HΦ". iApply (hwp_child with "Hp"). by rewrite child_mk_opp. Qed.

Lemma hwp_set_mk p d x y w v x' (Φ : unit -> prop) :
  p ↦ Node (mk d x y w v) ⊢ (p ↦ Node (mk d x' y w v) -∗ Φ tt) -∗ hwp (set_child d p x') Φ.
Proof. iIntros "Hp HΦ". iApply (hwp_upd_node with "Hp"). by rewrite with_child_mk. Qed.

Lemma hwp_set_opp p d x y w v y' (Φ : unit -> prop) :
  p ↦ Node (mk d x y w v) ⊢ (p ↦ Node (mk d x y' w v) -∗ Φ tt) -∗ hwp (set_child (opp d) p y') Φ.
Proof. iIntros "Hp HΦ". iApply (hwp_upd_node with "Hp"). by rewrite with_child_mk_opp. Qed.

Lemma hwp_parent p n par c (Φ : Z -> prop) :
  word_ptr par -> packed n = pack par c -> p ↦ Node n ⊢ (p ↦ Node n -∗ Φ par) -∗ hwp (parent_of p) Φ.
Proof.
  intros Hw Hn. iIntros "Hp HΦ". iApply hwp_bind. iApply (hwp_get_node with "Hp"). iIntros "Hp". iApply hwp_ret.
  rewrite (get_parent_pack n par c) //. by iApply "HΦ".
Qed.

Lemma hwp_set_parent_color p n par c (Φ : unit -> prop) :
  word_ptr par -> p ↦ Node n ⊢ (p ↦ Node (with_packed (pack par c) n) -∗ Φ tt) -∗ hwp (set_parent_color p par c) Φ.
Proof. intros Hw. iIntros "Hp HΦ". iApply (hwp_upd_node with "Hp"). by rewrite set_parent_color_pack. Qed.

Lemma hwp_set_parent p n par c par' (Φ : unit -> prop) :
  word_ptr par -> packed n = pack par c -> word_ptr par' ->
  p ↦ Node n ⊢ (p ↦ Node (with_packed (pack par' c) n) -∗ Φ tt) -∗ hwp (set_parent p par') Φ.
Proof. intros Hw Hn Hw'. iIntros "Hp HΦ". iApply (hwp_upd_node with "Hp"). by rewrite (set_parent_pack n par c). Qed.

Lemma hwp_set_color p n par c c' (Φ : unit -> prop) :
  word_ptr par -> packed n = pack par c ->
  p ↦ Node n ⊢ (p ↦ Node (with_packed (pack par c') n) -∗ Φ tt) -∗ hwp (set_color p c') Φ.
Proof. intros Hw Hn. iIntros "Hp HΦ". iApply (hwp_upd_node with "Hp"). by rewrite (set_color_pack n par c). Qed.

(** ** Subtrees *)

Lemma hwp_paint par t q c (Φ : unit -> prop) :
  word_ptr q -> t <> E -> tree_at par t ⊢ (tree_at q (paint c t) -∗ Φ tt) -∗ hwp (set_parent_color (ptr t) q c) Φ.
Proof.
  intros Hq Ht. destruct t as [|c0 l p v r]; [done|]. cbn. iIntros "(% & Hp & Hl & Hr) HΦ".
  iApply (hwp_set_parent_color with "Hp"); [done|]. iIntros "Hp". iApply "HΦ". by iFrame.
Qed.

Lemma hwp_paint_opt par t q c (Φ : unit -> prop) :
  word_ptr q -> tree_at par t ⊢ (tree_at q (paint c t) -∗ Φ tt) -∗
    hwp (if negb (ptr t =? 0) then set_parent_color (ptr t) q c else ret tt) Φ.
Proof.
  intros Hq. destruct t as [|c0 l p v r]; [iIntros "H HΦ"; iApply hwp_ret; by iApply "HΦ"|].
  iIntros "H HΦ". iAssert (⌜p <> 0⌝)%I as %Hp; [iDestruct "H" as "([% _] & _)"; done|].
  destruct (Z.eqb_spec (ptr (T c0 l p v r)) 0); [done|]. by iApply (hwp_paint with "H").
Qed.

Lemma hwp_move par t q (Φ : unit -> prop) :
  word_ptr par -> word_ptr q -> t <> E -> tree_at par t ⊢ (tree_at q t -∗ Φ tt) -∗ hwp (set_parent (ptr t) q) Φ.
Proof.
  intros Hpar Hq Ht. destruct t as [|c0 l p v r]; [done|]. cbn. iIntros "(% & Hp & Hl & Hr) HΦ".
  iApply (hwp_set_parent with "Hp"); [exact Hpar|done|done|]. iIntros "Hp". iApply "HΦ". by iFrame.
Qed.

Lemma hwp_move_opt par t q (Φ : unit -> prop) :
  word_ptr par -> word_ptr q -> tree_at par t ⊢ (tree_at q t -∗ Φ tt) -∗
    hwp (if negb (ptr t =? 0) then set_parent (ptr t) q else ret tt) Φ.
Proof.
  intros Hpar Hq. destruct t as [|c0 l p v r]; [iIntros "H HΦ"; iApply hwp_ret; by iApply "HΦ"|].
  iIntros "H HΦ". iAssert (⌜p <> 0⌝)%I as %Hp; [iDestruct "H" as "([% _] & _)"; done|].
  destruct (Z.eqb_spec (ptr (T c0 l p v r)) 0); [done|]. by iApply (hwp_move with "H").
Qed.

Lemma hwp_is_red_ptr par t (Φ : bool -> prop) :
  word_ptr par -> tree_at par t ⊢ (tree_at par t -∗ Φ (bool_decide (color t = RED))) -∗ hwp (is_red_ptr (ptr t)) Φ.
Proof.
  intros Hpar. destruct t as [|c l p v r]; cbn; [iIntros "H HΦ"; iApply hwp_ret; by iApply "HΦ"|].
  iIntros "(%Hp & H & Ht) HΦ". unfold is_red_ptr. destruct (Z.eqb_spec p 0); [by destruct Hp|].
  iApply hwp_bind. iApply (hwp_get_node with "H"). iIntros "H". iApply hwp_ret.
  rewrite (is_red_pack _ par c) //. iApply "HΦ". by iFrame.
Qed.

Lemma hwp_is_black_ptr par t (Φ : bool -> prop) :
  word_ptr par -> tree_at par t ⊢ (tree_at par t -∗ Φ (bool_decide (color t = BLACK))) -∗ hwp (is_black_ptr (ptr t)) Φ.
Proof.
  intros Hpar. destruct t as [|c l p v r]; cbn; [iIntros "H HΦ"; iApply hwp_ret; by iApply "HΦ"|].
  iIntros "(%Hp & H & Ht) HΦ". unfold is_black_ptr. destruct (Z.eqb_spec p 0); [by destruct Hp|].
  iApply hwp_bind. iApply (hwp_get_node with "H"). iIntros "H". iApply hwp_ret.
  rewrite (is_black_pack _ par c) //. iApply "HΦ". by iFrame.
Qed.

(** ** Contexts *)

Lemma hwp_replace_child tree k old new cold (Φ : unit -> prop) :
  old <> 0 -> ctx_at tree k old ⊢ old ↦ cold -∗ (ctx_at tree k new -∗ old ↦ cold -∗ Φ tt) -∗
    hwp (replace_child tree (cpar k) old new) Φ.
Proof.
  intros Hold. destruct k as [|[d c p v s] k].
  - iIntros "Hk Ho HΦ". iApply (hwp_set_root with "Hk"). iIntros "Hk". by iApply ("HΦ" with "Hk").
  - rewrite ctx_at_cons. iIntros "(%Hp & Hpn & Hs & Hk) Ho HΦ". unfold replace_child. cbn [cpar fp].
    destruct (Z.eqb_spec p 0); [by destruct Hp|].
    iDestruct (tree_at_ne with "Hs Ho") as %Hne; [done|]. iApply hwp_bind. iApply (hwp_child with "Hpn"). iIntros "Hpn".
    iAssert (hwp (set_child d p new) Φ) with "[-]" as "H".
    { iApply (hwp_set_mk with "Hpn"). iIntros "Hpn". iApply ("HΦ" with "[-Ho] Ho"). rewrite ctx_at_cons. by iFrame. }
    destruct d; cbn; [by rewrite Z.eqb_refl|]. by destruct (Z.eqb_spec (ptr s) old).
Qed.

Lemma hwp_rotate_set_parents tree k old new nold nnew par' c c' color (Φ : unit -> prop) :
  node_ptr old -> node_ptr new -> packed nold = pack (cpar k) c -> packed nnew = pack par' c' -> word_ptr par' ->
  ctx_at tree k old ⊢ old ↦ Node nold -∗ new ↦ Node nnew -∗
    (ctx_at tree k new -∗ old ↦ Node (with_packed (pack new color) nold) -∗
       new ↦ Node (with_packed (pack (cpar k) c) nnew) -∗ Φ tt) -∗
    hwp (rotate_set_parents old new tree color) Φ.
Proof.
  intros [Ho0 Ho] [Hn0 Hn] Epo Epn Hw. iIntros "Hk Ho Hn HΦ". iDestruct (cpar_word with "Hk") as %Hpar.
  unfold rotate_set_parents.
  iApply hwp_bind. iApply (hwp_parent with "Ho"); [done..|]. iIntros "Ho".
  iApply hwp_bind. iApply (hwp_parent with "Ho"); [done..|]. iIntros "Ho".
  iApply hwp_bind. iApply (hwp_set_parent with "Hn"); [exact Hw|done|done|]. iIntros "Hn".
  iApply hwp_bind. iApply (hwp_get_node with "Ho"). iIntros "Ho". rewrite (get_color_pack nold (cpar k) c) //.
  iApply hwp_bind. iApply (hwp_set_color with "Hn"); [exact Hpar|done|]. iIntros "Hn".
  iApply hwp_bind. iApply (hwp_set_parent_color with "Ho"); [done|]. iIntros "Ho".
  iApply (hwp_replace_child with "Hk Ho"); [done|]. iIntros "Hk Ho". iApply ("HΦ" with "Hk Ho Hn").
Qed.

Lemma hwp_side_of p x d y w v (Φ : side * Z -> prop) :
  x <> y -> p ↦ Node (mk d x y w v) ⊢ (p ↦ Node (mk d x y w v) -∗ Φ (d, y)) -∗ hwp (side_of p x) Φ.
Proof.
  intros Hxy. iIntros "Hp HΦ". iApply hwp_bind. iApply (hwp_child with "Hp"). iIntros "Hp". destruct d; cbn.
  - destruct (Z.eqb_spec x y); [done|]. iApply hwp_ret. by iApply "HΦ".
  - rewrite Z.eqb_refl. cbn. iApply hwp_bind. iApply (hwp_child with "Hp"). iIntros "Hp". iApply hwp_ret. by iApply "HΦ".
Qed.

(** ** Fuel *)

(** An assertion that needs at least [n] cells. *)
Definition needs (n : nat) (P : prop) : Prop := forall m, holds P m -> (n <= size m)%nat.

Lemma needs_sep (n1 n2 : nat) (P Q : prop) : needs n1 P -> needs n2 Q -> needs (n1 + n2) (P ∗ Q)%I.
Proof.
  intros HP HQ m (m1 & m2 & -> & Hd & H1%HP & H2%HQ). rewrite map_size_disj_union //. lia.
Qed.

Lemma needs_any (P : prop) : needs 0 P.
Proof. intros m _. lia. Qed.

Lemma needs_points_to (p : Z) (c : cell V) : needs 1 (p ↦ c)%I.
Proof. intros m Hm. cbn in Hm. assert (size m <> 0%nat); [|lia]. apply (map_size_ne_0_lookup_2 m p). by exists c. Qed.

Lemma needs_mono (n n' : nat) (P : prop) : (n' <= n)%nat -> needs n P -> needs n' P.
Proof. intros Hn HP m Hm%HP. lia. Qed.

Lemma needs_tree par t : needs (length (elems t)) (tree_at par t).
Proof.
  revert par. induction t as [|c l IHl p v r IHr]; intros par; cbn; [apply needs_any|].
  eapply needs_mono; [|apply needs_sep; [apply needs_any|apply needs_sep; [apply needs_points_to|apply needs_sep; [apply IHl|apply IHr]]]].
  rewrite length_app. cbn. lia.
Qed.

Lemma needs_ctx tree k q : needs (length k) (ctx_at tree k q).
Proof.
  revert q. induction k as [|f k IH]; intros q; cbn; [apply needs_any|].
  eapply needs_mono; [|apply needs_sep; [apply needs_any|apply needs_sep; [apply needs_points_to|apply needs_sep; [apply needs_any|apply IH]]]].
  lia.
Qed.

Lemma hwp_fuel (n : nat) (P : prop) (Φ : nat -> prop) :
  needs n P -> P ⊢ (∀ fuel, ⌜(n < fuel)%nat⌝ -∗ P -∗ Φ fuel) -∗ hwp (gets rb_fuel) Φ.
Proof.
  intros Hn. apply bi.wand_intro_r. split. intros m (m1 & m2 & -> & Hd & HP & HW) f Hf.
  exists (rb_fuel (m1 ∪ m2 ∪ f)), (m1 ∪ m2). split; [done|]. split; [done|]. split; [done|].
  assert (n < rb_fuel (m1 ∪ m2 ∪ f))%nat as Hlt.
  { apply Hn in HP. unfold rb_fuel. rewrite !map_size_disj_union //. lia. }
  specialize (HW (rb_fuel (m1 ∪ m2 ∪ f)) ∅ ltac:(apply map_disjoint_empty_r) Hlt m1). rewrite map_union_empty in HW.
  rewrite (map_union_comm m1 m2) // in HW |- *. apply HW; [by symmetry|done].
Qed.

End Rep.
