(* ===== verification/RbtreeInsert.v ===== *)
(** * RbtreeInsert: insertion keeps the tree balanced and ordered

    [insert_rebalance] on a position whose subtree is red: the loop moves the
    position up by two levels or finishes with one of two rotations. *)

From Stdlib Require Import ZArith Lia.
From stdpp Require Import base gmap list.
From iris.proofmode Require Import proofmode.
From S2P Require Import Prelude HeapLogic Rbtree RbtreeTree RbtreeRep.

Open Scope Z_scope.

Section Insert.
Context {V : Type} `{!TreeField V}.
Implicit Types (tree : header V) (t s u : tree V) (k : list (frame V)) (d : side) (c : color_e) (v : V).
Abbreviation prop := (heapProp (cell V)).

(** [node] is the outer child of [parent]. *)
Lemma insert_rotate_outer tree k d t p pv s g gv u (Φ : unit -> prop) :
  t <> E ->
  ctx_at tree k g ⊢ tree_at (cpar k) (node d BLACK (node d RED t p pv s) g gv u) -∗
    (∀ t', ⌜t' = node d BLACK t p pv (node d RED (paint BLACK s) g gv u)⌝ -∗
       ctx_at tree k (ptr t') -∗ tree_at (cpar k) t' -∗ Φ tt) -∗
    hwp (insert_rotate tree d (ptr t) p g) Φ.
Proof.
  intros Ht. rewrite !tree_at_node ptr_node. iIntros "Hk (%Hg & Hg & (%Hp & Hp & Ht & Hs) & Hu) HΦ".
  iDestruct (cpar_word with "Hk") as %Hpar. unfold insert_rotate.
  iApply hwp_bind. iApply (hwp_child_opp with "Hp"). iIntros "Hp".
  iAssert (⌜ptr t <> ptr s⌝)%I as %Hne.
  { destruct t as [|ct tl tp tv tr]; [done|]. cbn [ptr tree_at]. iDestruct "Ht" as "([% _] & Ht & _)".
    iDestruct (tree_at_ne with "Hs Ht") as %?; [done|]. iPureIntro. auto. }
  destruct (Z.eqb_spec (ptr t) (ptr s)); [done|].
  iApply hwp_bind. iApply hwp_ret.
  iApply hwp_bind. iApply (hwp_set_mk with "Hg"). iIntros "Hg".
  iApply hwp_bind. iApply (hwp_set_opp with "Hp"). iIntros "Hp".
  iApply hwp_bind. iApply (hwp_paint_opt with "Hs"); [apply Hg|]. iIntros "Hs".
  iApply (hwp_rotate_set_parents with "Hk Hg Hp"); [done|done|apply packed_mk|apply packed_mk|apply Hg|].
  rewrite !with_packed_mk. iIntros "Hk Hg Hp". iApply ("HΦ" with "[//] [Hk]"); rewrite ?ptr_node; [done|].
  rewrite !tree_at_node ptr_node ptr_paint. by iFrame.
Qed.

(** [node] is the inner child of [parent]. *)
Lemma insert_rotate_inner tree k d t1 q qv t2 p pv s g gv u (Φ : unit -> prop) :
  ctx_at tree k g ⊢ tree_at (cpar k) (node d BLACK (node d RED s p pv (node d RED t1 q qv t2)) g gv u) -∗
    (∀ t', ⌜t' = node d BLACK (node d RED s p pv (paint BLACK t1)) q qv (node d RED (paint BLACK t2) g gv u)⌝ -∗
       ctx_at tree k (ptr t') -∗ tree_at (cpar k) t' -∗ Φ tt) -∗
    hwp (insert_rotate tree d q p g) Φ.
Proof.
  rewrite !tree_at_node !ptr_node. iIntros "Hk (%Hg & Hg & (%Hp & Hp & Hs & (%Hq & Hq & H1 & H2)) & Hu) HΦ".
  iDestruct (cpar_word with "Hk") as %Hpar. unfold insert_rotate.
  iApply hwp_bind. iApply (hwp_child_opp with "Hp"). iIntros "Hp". rewrite Z.eqb_refl.
  iApply hwp_bind. iApply hwp_bind. iApply (hwp_child_mk with "Hq"). iIntros "Hq".
  iApply hwp_bind. iApply (hwp_set_opp with "Hp"). iIntros "Hp".
  iApply hwp_bind. iApply (hwp_set_mk with "Hq"). iIntros "Hq".
  iApply hwp_bind. iApply (hwp_paint_opt with "H1"); [apply Hp|]. iIntros "H1".
  iApply hwp_bind. iApply (hwp_set_parent_color with "Hp"); [apply Hq|]. iIntros "Hp". rewrite with_packed_mk.
  iApply hwp_bind. iApply (hwp_child_opp with "Hq"). iIntros "Hq". iApply hwp_ret.
  iApply hwp_bind. iApply (hwp_set_mk with "Hg"). iIntros "Hg".
  iApply hwp_bind. iApply (hwp_set_opp with "Hq"). iIntros "Hq".
  iApply hwp_bind. iApply (hwp_paint_opt with "H2"); [apply Hg|]. iIntros "H2".
  iApply (hwp_rotate_set_parents with "Hk Hg Hq"); [done|done|apply packed_mk|apply packed_mk|apply Hp|].
  rewrite !with_packed_mk. iIntros "Hk Hg Hq". iApply ("HΦ" with "[//] [Hk]"); rewrite ?ptr_node; [done|].
  rewrite !tree_at_node !ptr_node !ptr_paint. by iFrame.
Qed.

(** Finished: a valid tree with the nodes [l] in order. *)
Definition whole (tree : header V) (l : list (Z * V)) : prop :=
  (∃ t, tree ↦ with_root (ptr t) (hcell tree) ∗ tree_at 0 t ∗ ⌜rbtree t⌝ ∗ ⌜elems t = l⌝)%I.

Lemma whole_plug tree k t l : rbtree (plug k t) -> l = around k (elems t) ->
  ctx_at tree k (ptr t) ⊢ tree_at (cpar k) t -∗ whole tree l.
Proof.
  intros Hrb ->. iIntros "Hk Ht". iDestruct (plug_close with "Hk Ht") as "[Htr Ht]".
  iExists _. iFrame. iPureIntro. by rewrite elems_plug.
Qed.

Lemma around1_elems f t : around1 f (elems t) = elems (plug1 f t).
Proof. unfold plug1. by rewrite elems_node. Qed.

Lemma elems_rot d c c' c1 c1' t p pv s g gv u :
  elems (node d c t p pv (node d c' (paint BLACK s) g gv u)) = elems (node d c1 (node d c1' t p pv s) g gv u : tree V).
Proof. by rewrite !elems_node elems_paint !beside_assoc. Qed.

Lemma elems_rot2 d c c' c'' c1 c1' c1'' t1 q qv t2 p pv s g gv u :
  elems (node d c (node d c' s p pv (paint BLACK t1)) q qv (node d c'' (paint BLACK t2) g gv u)) =
  elems (node d c1 (node d c1' s p pv (node d c1'' t1 q qv t2)) g gv u : tree V).
Proof. by rewrite !elems_node !elems_paint !beside_assoc. Qed.

(** The rotations give a valid black subtree. *)
Lemma paint_black (n : nat) t : rb BLACK n t -> paint BLACK t = t.
Proof. destruct 1; done. Qed.

(** One round below a red parent: with a black uncle a rotation, with a red
    one a new round two levels up. *)
Lemma red_parent_step tree fuel k d t p pv s gd g gv u (Φ : unit -> prop) :
  t <> E ->
  ctx_at tree (MkFrame d RED p pv s :: MkFrame gd BLACK g gv u :: k) (ptr t) ⊢ tree_at p t -∗
  (match color u with
   | BLACK => ctx_at tree k g -∗ tree_at (cpar k) (node gd BLACK (node d RED t p pv s) g gv u) -∗
       hwp (insert_rotate tree gd (ptr t) p g) Φ
   | RED => ctx_at tree k g -∗ tree_at (cpar k) (node gd RED (node d BLACK t p pv s) g gv (paint BLACK u)) -∗
       hwp (insert_rebalance_loop fuel tree g (cpar k)) Φ
   end) -∗
  hwp (insert_rebalance_loop (S fuel) tree (ptr t) p) Φ.
Proof.
  intros Ht. rewrite !ctx_at_cons. cbn [cpar fp]. iIntros "(%Hp & Hp & Hs & %Hg & Hg & Hu & Hk) Ht HΦ".
  iDestruct (cpar_word with "Hk") as %Hpar. cbn [insert_rebalance_loop]. destruct (Z.eqb_spec p 0); [by destruct Hp|].
  iApply hwp_bind. iApply (hwp_get_node with "Hp"). iIntros "Hp".
  erewrite is_black_pack; [|apply Hg|apply packed_mk]. cbn.
  iApply hwp_bind. iApply (hwp_parent with "Hp"); [apply Hg|apply packed_mk|]. iIntros "Hp".
  iDestruct (tree_at_ne with "Hu Hp") as %Hne; [apply Hp|].
  iApply hwp_bind. iApply (hwp_side_of with "Hg"); [done|]. iIntros "Hg".
  iApply hwp_bind. iApply (hwp_is_red_ptr with "Hu"); [apply Hg|]. iIntros "Hu". destruct (color u) eqn:Ecu; cbn.
  - iApply ("HΦ" with "Hk"). rewrite !tree_at_node ptr_node. by iFrame.
  - iApply hwp_bind. iApply (hwp_paint with "Hu"); [apply Hg|by destruct u|]. iIntros "Hu".
    iApply hwp_bind. iApply (hwp_set_parent_color with "Hp"); [apply Hg|]. iIntros "Hp".
    iApply hwp_bind. iApply (hwp_parent with "Hg"); [exact Hpar|apply packed_mk|]. iIntros "Hg".
    iApply hwp_bind. iApply (hwp_set_parent_color with "Hg"); [exact Hpar|]. iIntros "Hg".
    iApply ("HΦ" with "Hk"). rewrite !with_packed_mk !tree_at_node ptr_node ptr_paint. by iFrame.
Qed.

Lemma insert_rebalance_loop_spec tree fuel : forall k t (b : bool) (n : nat),
  ctx_rb b n k -> rb RED n t -> (length k < fuel)%nat ->
  ctx_at tree k (ptr t) ⊢ tree_at (cpar k) t -∗
    hwp (insert_rebalance_loop fuel tree (ptr t) (cpar k)) (fun _ => whole tree (around k (elems t))).
Proof.
  induction fuel as [|fuel IH]; [lia|]. intros k t b n Hk Ht Hf. cbn [insert_rebalance_loop].
  iIntros "Hk Ht". destruct Hk as [n|n d p v s k Hs Hk|n b c d p v s k Hs Hk].
  - (* the root *)
    cbn [cpar]. iApply (hwp_paint with "Ht"); [apply word_ptr_0|by inversion Ht|]. iIntros "Ht".
    iApply (whole_plug tree [] (paint BLACK t) with "[Hk] Ht").
    + exists (S n). cbn. by apply rb_paint.
    + by rewrite elems_paint.
    + by rewrite ptr_paint.
  - (* a red parent has a black parent *)
    inversion Hk as [| |n0 b cu gd g gv u k' Hu Hk']; subst.
    iApply (red_parent_step with "Hk Ht"); [by inversion Ht|]. cbn [length] in Hf. destruct (color u) eqn:Ecu.
    + (* black uncle *)
      pose proof (rb_color _ _ _ Hu) as Eu. rewrite Ecu in Eu. subst cu. destruct (decide (d = gd)) as [->|Hd].
      * iIntros "Hk Ht". iApply (insert_rotate_outer with "Hk Ht"); [by inversion Ht|]. iIntros (t' ->) "Hk Ht".
        iApply (whole_plug with "Hk Ht").
        -- eapply plug_rb; [exact Hk'|left]. eapply rb_node_B; [exact Ht|]. apply rb_node_R; [by rewrite (paint_black n)|done].
        -- cbn [around]. rewrite !around1_elems (elems_rot _ _ _ BLACK RED). done.
      * assert (d = opp gd) as -> by (by destruct d, gd).
        destruct (node_view gd t) as [->|(ct & t1 & q & qv & t2 & ->)]; [by inversion Ht|].
        rewrite node_opp ptr_node. iIntros "Hk Ht".
        assert (ct = RED) as -> by (pose proof (rb_color _ _ _ Ht) as Ec; by destruct gd).
        apply rb_node_R_inv in Ht as (_ & Ht1 & Ht2).
        iApply (insert_rotate_inner with "Hk Ht"). iIntros (t' ->) "Hk Ht". iApply (whole_plug with "Hk Ht").
        -- eapply plug_rb; [exact Hk'|left]. rewrite !(paint_black n) //. eapply rb_node_B; by apply rb_node_R.
        -- cbn [around]. rewrite !around1_elems (elems_rot2 _ _ _ _ BLACK RED RED) /plug1 /= node_opp. done.
    + (* red uncle *)
      pose proof (rb_color _ _ _ Hu) as Eu. rewrite Ecu in Eu. subst cu.
      set (t' := node gd RED (node d BLACK t p v s) g gv (paint BLACK u)). iIntros "Hk Ht".
      replace (around _ (elems t)) with (around k' (elems t')).
      2: { cbn [around]. rewrite !around1_elems /plug1 /= !elems_node elems_paint. done. }
      replace g with (ptr t') by apply ptr_node. iApply (IH k' t' b (S n) with "Hk Ht"); [done| |lia].
      apply rb_node_R; [by eapply rb_node_B|by apply rb_paint].
  - (* a black parent *)
    rewrite ctx_at_cons. iDestruct "Hk" as "(%Hp & Hp & Hs & Hk)". iDestruct (cpar_word with "Hk") as %Hpar. cbn [cpar fp].
    destruct (Z.eqb_spec p 0); [by destruct Hp|].
    iApply hwp_bind. iApply (hwp_get_node with "Hp"). iIntros "Hp". erewrite is_black_pack; [|done|apply packed_mk]. cbn.
    iApply hwp_ret. iApply (whole_plug tree (MkFrame d BLACK p v s :: k) t with "[Hp Hs Hk] Ht"); [|done|by iFrame].
    eapply plug_rb; [by econstructor|]. right. split; [done|]. by exists RED.
Qed.

(** ** The descent *)

Lemma split_three {A} (a b el er : list A) x y :
  a ++ x :: b = el ++ y :: er ->
  (exists b' : list A, el = a ++ x :: b' /\ b = b' ++ y :: er) \/ (x = y /\ a = el /\ b = er) \/
  (exists a' : list A, a = el ++ y :: a' /\ er = a' ++ x :: b).
Proof.
  intros E. apply app_eq_inv in E as [([|z l] & -> & Ex)|([|z l] & -> & Ex)]; injection Ex as -> ->.
  - right. left. by rewrite app_nil_r.
  - right. right. eauto.
  - right. left. by rewrite app_nil_r.
  - left. eauto.
Qed.

Section Descent.
Context (cond : V -> V -> Z) (p : Z) (n0 : rbtnode V).

(** The nodes to the left and to the right of the new one.  The loop goes to
    the right on every code that is neither RBT_LESS_THAN nor RBT_EQUALS,
    codes of the caller's own included, which rbtree.h says are returned
    without an insertion; [goes_right] is the documented case. *)
Definition goes_right (l : list (Z * V)) : Prop := forall q w, (q, w) ∈ l -> cond (data n0) w = RBT_GREATER_THAN.
Definition descends_right (l : list (Z * V)) : Prop :=
  forall q w, (q, w) ∈ l -> cond (data n0) w <> RBT_LESS_THAN /\ cond (data n0) w <> RBT_EQUALS.
Definition goes_left (l : list (Z * V)) : Prop := forall q w, (q, w) ∈ l -> cond (data n0) w = RBT_LESS_THAN.

Lemma goes_right_descends l : goes_right l -> descends_right l.
Proof. intros H q w Hq. by rewrite (H q w Hq). Qed.

(** The position was reached by comparing with its parent. *)
Definition side_ok k : Prop :=
  match k with [] => True | f :: _ => fd f = if cond (data n0) (fv f) =? RBT_LESS_THAN then L else R end.

Definition last_cmp k (cmp : Z) : Prop := match k with [] => True | f :: _ => cmp = cond (data n0) (fv f) end.

Lemma split_around (a b el er : list (Z * V)) q w :
  a ++ b = el ++ (q, w) :: er -> descends_right a -> goes_left b ->
  (cond (data n0) w = RBT_LESS_THAN /\ exists b' : list (Z * V), el = a ++ b' /\ b = b' ++ (q, w) :: er) \/
  (cond (data n0) w <> RBT_LESS_THAN /\ cond (data n0) w <> RBT_EQUALS /\ exists a' : list (Z * V), a = el ++ (q, w) :: a' /\ er = a' ++ b).
Proof.
  intros E Ha Hb. apply app_eq_inv in E as [(x & -> & Ex)|(x & -> & ->)].
  - destruct x as [|[q' w'] x]; cbn in Ex.
    + subst b. left. split; [apply (Hb q); set_solver|]. exists []. by rewrite !app_nil_r.
    + injection Ex as <- <- ->. right. destruct (Ha q w) as [H1 H2]; [set_solver|]. eauto 10.
  - left. split; [apply (Hb q); set_solver|]. by exists x.
Qed.

(** Going down from the position [k], [T c l q w r] to one of its children. *)
Lemma descend_step tree k c l q w r (Φ : option (Z * Z) -> prop) fuel cmp :
  cond (data n0) w <> RBT_EQUALS ->
  ctx_at tree k q ⊢ tree_at (cpar k) (T c l q w r) -∗ p ↦ Node n0 -∗
    (let d := if cond (data n0) w =? RBT_LESS_THAN then L else R in
     let k' := MkFrame d c q w (match d with L => r | R => l end) :: k in
     let t' := match d with L => l | R => r end in
     ctx_at tree k' (ptr t') -∗ tree_at (cpar k') t' -∗ p ↦ Node n0 -∗
       hwp (bst_descend fuel cond p q (ptr t') (cond (data n0) w)) Φ) -∗
    hwp (bst_descend (S fuel) cond p (cpar k) q cmp) Φ.
Proof.
  intros Hne. iIntros "Hk (%Hq & Hq & Hl & Hr) Hp HΦ". cbn [bst_descend]. destruct (Z.eqb_spec q 0); [by destruct Hq|].
  iApply hwp_bind. iApply (hwp_get_node with "Hp"). iIntros "Hp".
  iApply hwp_bind. iApply (hwp_get_node with "Hq"). iIntros "Hq". cbn [data left right].
  destruct (Z.eqb_spec (cond (data n0) w) RBT_EQUALS); [done|].
  destruct (cond (data n0) w =? RBT_LESS_THAN).
  - iApply ("HΦ" with "[Hk Hq Hr] Hl Hp"). rewrite ctx_at_cons. by iFrame.
  - iApply ("HΦ" with "[Hk Hq Hl] Hr Hp"). rewrite ctx_at_cons. by iFrame.
Qed.

Lemma descend_miss tree (Φ : option (Z * Z) -> prop) fuel : forall k t (a b : list (Z * V)) cmp,
  elems t = a ++ b -> descends_right a -> goes_left b -> side_ok k -> last_cmp k cmp -> (length (elems t) < fuel)%nat ->
  ctx_at tree k (ptr t) ⊢ tree_at (cpar k) t -∗ p ↦ Node n0 -∗
    (∀ k' cmp', ⌜plug k' E = plug k t⌝ -∗ ⌜forall x, around k' x = around k (a ++ x ++ b)⌝ -∗ ⌜side_ok k'⌝ -∗
       ⌜last_cmp k' cmp'⌝ -∗ ctx_at tree k' 0 -∗ p ↦ Node n0 -∗ Φ (Some (cpar k', cmp'))) -∗
    hwp (bst_descend fuel cond p (cpar k) (ptr t) cmp) Φ.
Proof.
  induction fuel as [|fuel IH]; [lia|]. intros k t a b cmp He Ha Hb Hs Hc Hf. destruct t as [|c l q w r].
  - symmetry in He. apply app_eq_nil in He as [-> ->]. cbn. iIntros "Hk _ Hp HΦ". iApply hwp_ret.
    iApply ("HΦ" $! k cmp with "[//] [] [//] [//] Hk Hp"). iPureIntro. intros x. by rewrite app_nil_r.
  - cbn [elems] in He, Hf. rewrite length_app in Hf. cbn in Hf. iIntros "Hk Ht Hp HΦ".
    destruct (split_around _ _ _ _ _ _ (eq_sym He) Ha Hb) as [(Hl & b' & El & Eb)|(Hl & Heq & a' & Ea & Er)].
    + iApply (descend_step with "Hk Ht Hp"); [by rewrite Hl|]. rewrite Hl /=. iIntros "Hk Ht Hp".
      iApply (IH (MkFrame L c q w r :: k) l a b' with "Hk Ht Hp");
        [done|done|intros q' w' ?; apply (Hb q'); set_solver|by rewrite /= Hl|done|lia|].
      iIntros (k' cmp') "%H1 %H2 %H3 %H4 Hk Hp". iApply ("HΦ" with "[//] [] [//] [//] Hk Hp").
      iPureIntro. intros x. rewrite H2 Eb. cbn. rewrite /around1 /=. by rewrite -!app_assoc.
    + iApply (descend_step with "Hk Ht Hp"); [done|].
      assert ((cond (data n0) w =? RBT_LESS_THAN) = false) as -> by (by apply Z.eqb_neq). cbn zeta. iIntros "Hk Ht Hp".
      iApply (IH (MkFrame R c q w l :: k) r a' b with "Hk Ht Hp");
        [done|intros q' w' ?; apply (Ha q'); set_solver|done| |done|lia|].
      { cbn. assert ((cond (data n0) w =? RBT_LESS_THAN) = false) as -> by (by apply Z.eqb_neq). done. }
      iIntros (k' cmp') "%H1 %H2 %H3 %H4 Hk Hp". iApply ("HΦ" with "[//] [] [//] [//] Hk Hp").
      iPureIntro. intros x. rewrite H2 Ea. cbn. rewrite /around1 /=. by rewrite -!app_assoc.
Qed.

Definition all_equal (l : list (Z * V)) : Prop := forall q w, (q, w) ∈ l -> cond (data n0) w = RBT_EQUALS.

Lemma split_middle (a mid b el er : list (Z * V)) x :
  a ++ mid ++ b = el ++ x :: er ->
  (exists b' : list (Z * V), el = a ++ mid ++ b' /\ b = b' ++ x :: er) \/ x ∈ mid \/
  (exists a' : list (Z * V), a = el ++ x :: a' /\ er = a' ++ mid ++ b).
Proof.
  intros E. apply app_eq_inv in E as [([|y a'] & -> & Ex)|(m1 & -> & Em)].
  - cbn in Ex. destruct mid as [|y mid]; [|right; left; injection Ex as -> _; by left].
    left. exists []. cbn in *. by rewrite !app_nil_r.
  - injection Ex as <- ->. right. right. by exists a'.
  - apply app_eq_inv in Em as [([|y m2] & -> & Ex)|(b' & -> & ->)].
    + left. exists []. cbn in Ex. by rewrite !app_nil_r.
    + right. left. injection Ex as <- _. apply elem_of_app. right. by left.
    + left. exists b'. done.
Qed.

Lemma descend_found tree (Φ : option (Z * Z) -> prop) fuel : forall k t (a mid b : list (Z * V)) cmp,
  elems t = a ++ mid ++ b -> descends_right a -> goes_left b -> all_equal mid -> mid <> [] ->
  (length (elems t) < fuel)%nat ->
  ctx_at tree k (ptr t) ⊢ tree_at (cpar k) t -∗ p ↦ Node n0 -∗
    (∀ k' t', ⌜plug k' t' = plug k t⌝ -∗ ctx_at tree k' (ptr t') -∗ tree_at (cpar k') t' -∗ p ↦ Node n0 -∗ Φ None) -∗
    hwp (bst_descend fuel cond p (cpar k) (ptr t) cmp) Φ.
Proof.
  induction fuel as [|fuel IH]; [lia|]. intros k t a mid b cmp He Ha Hb Hm Hne Hf.
  destruct t as [|c l q' w' r]; [by destruct a, mid|]. cbn [elems] in He, Hf. rewrite length_app in Hf. cbn in Hf.
  iIntros "Hk Ht Hp HΦ". destruct (split_middle _ _ _ _ _ _ (eq_sym He)) as [(b' & El & Eb)|[Hin|(a' & Ea & Er)]].
  - assert (cond (data n0) w' = RBT_LESS_THAN) as Hl by (apply (Hb q'); rewrite Eb elem_of_app elem_of_cons; tauto).
    iApply (descend_step with "Hk Ht Hp"); [by rewrite Hl|]. rewrite Hl /=. iIntros "Hk Ht Hp".
    iApply (IH (MkFrame L c q' w' r :: k) l a mid b' with "Hk Ht Hp HΦ"); [done|done| |done|done|lia].
    intros q2 w2 ?. apply (Hb q2). rewrite Eb elem_of_app. tauto.
  - cbn [bst_descend ptr]. iDestruct "Ht" as "(%Hq & Hq & Hlr)". destruct (Z.eqb_spec q' 0); [by destruct Hq|].
    iApply hwp_bind. iApply (hwp_get_node with "Hp"). iIntros "Hp".
    iApply hwp_bind. iApply (hwp_get_node with "Hq"). iIntros "Hq". cbn [data]. rewrite (Hm _ _ Hin) Z.eqb_refl. iApply hwp_ret.
    iApply ("HΦ" $! k (T c l q' w' r) with "[//] Hk [-Hp] Hp"). by iFrame.
  - destruct (Ha q' w') as [Hl Heq]; [rewrite Ea elem_of_app elem_of_cons; tauto|]. iApply (descend_step with "Hk Ht Hp"); [done|].
    assert ((cond (data n0) w' =? RBT_LESS_THAN) = false) as -> by (by apply Z.eqb_neq). cbn zeta. iIntros "Hk Ht Hp".
    iApply (IH (MkFrame R c q' w' l :: k) r a' mid b with "Hk Ht Hp HΦ"); [done| |done|done|done|lia].
    intros q2 w2 ?. apply (Ha q2). rewrite Ea elem_of_app elem_of_cons. tauto.
Qed.
End Descent.

(** ** Attaching the node *)

(** [is_left] answers on which side of its parent the hole is. *)
Definition tells_side k (p : Z) (n0 : rbtnode V) (is_left : M (gmap Z (cell V)) bool) : Prop :=
  match k with
  | [] => True
  | f :: _ => forall nf np (Ψ : bool -> prop), data nf = fv f -> data np = data n0 ->
      fp f ↦ Node nf ⊢ p ↦ Node np -∗ (fp f ↦ Node nf -∗ p ↦ Node np -∗ Ψ (bool_decide (fd f = L))) -∗ hwp is_left Ψ
  end.

Lemma attach_spec tree k p n0 is_left (Φ : bst_insert_res_e -> prop) :
  node_ptr p -> tells_side k p n0 is_left ->
  ctx_at tree k 0 ⊢ p ↦ Node n0 -∗
    (match k with
     | [] => ctx_at tree k p -∗ tree_at 0 (T BLACK E p (data n0) E) -∗ Φ COND_OK
     | _ => ctx_at tree k p -∗ tree_at (cpar k) (T RED E p (data n0) E) -∗ Φ COND_REBALANCE
     end) -∗
    hwp (bst_attach tree p (cpar k) is_left) Φ.
Proof.
  intros Hp Hleft. iIntros "Hk Hp HΦ". iDestruct (cpar_word with "Hk") as %Hpar. unfold bst_attach.
  iApply hwp_bind. iApply (hwp_upd_node with "Hp"). iIntros "Hp".
  iApply hwp_bind. iApply (hwp_upd_node with "Hp"). iIntros "Hp".
  iApply hwp_bind. iApply (hwp_set_parent_color with "Hp"); [exact Hpar|]. iIntros "Hp". cbn.
  destruct k as [|f k]; cbn [cpar].
  - cbn. iApply hwp_bind. iApply (hwp_set_root with "Hk"). iIntros "Hk".
    iApply hwp_bind. iApply (hwp_set_color with "Hp"); [apply word_ptr_0|done|]. iIntros "Hp". iApply hwp_ret.
    iApply ("HΦ" with "Hk"). by iFrame.
  - cbn [ctx_at]. iDestruct "Hk" as "(%Hf & Hf & Hs & Hk)". destruct (Z.eqb_spec (fp f) 0); [by destruct Hf|].
    iApply hwp_bind. iApply (Hleft with "Hf Hp"); [apply data_mk|done|]. iIntros "Hf Hp".
    iApply hwp_bind. replace (if bool_decide (fd f = L) then L else R) with (fd f) by by destruct (fd f).
    iApply (hwp_set_mk with "Hf"). iIntros "Hf". iApply hwp_ret. iApply ("HΦ" with "[Hf Hs Hk]"); by iFrame.
Qed.

Lemma tells_side_cmp cond p n0 k cmp :
  side_ok cond n0 k -> last_cmp cond n0 k cmp -> tells_side k p n0 (ret (cmp =? RBT_LESS_THAN)).
Proof.
  destruct k as [|f k]; [done|]. cbn. intros Hs -> nf np Ψ _ _. iIntros "Hf Hp HΨ". iApply hwp_ret. rewrite Hs.
  destruct (cond (data n0) (fv f) =? RBT_LESS_THAN); iApply ("HΨ" with "Hf Hp").
Qed.

Lemma tells_side_key view p n0 k : side_ok (key_cond view) n0 k -> tells_side k p n0 (key_is_left view p (cpar k)).
Proof.
  destruct k as [|f k]; [done|]. cbn. intros Hs nf np Ψ Ef Ep. iIntros "Hf Hp HΨ". unfold key_is_left.
  iApply hwp_bind. iApply (hwp_get_node with "Hp"). iIntros "Hp".
  iApply hwp_bind. iApply (hwp_get_node with "Hf"). iIntros "Hf". iApply hwp_ret. rewrite Hs Ef Ep /key_cond.
  destruct (Z.eqb_spec (view (data n0)) (view (fv f))) as [->|]; [rewrite Z.ltb_irrefl|destruct (_ <? _)]; iApply ("HΨ" with "Hf Hp").
Qed.

(** ** Insertion *)

Lemma insert_finish tree k p n0 is_left a b n :
  node_ptr p -> rb BLACK n (plug k E) -> tells_side k p n0 is_left -> (forall x, around k x = a ++ x ++ b) ->
  ctx_at tree k 0 ⊢ p ↦ Node n0 -∗
    hwp (bst_attach tree p (cpar k) is_left)
      (fun r => hwp (insert_result tree p r) (fun r => ⌜r = RBT_INSERT_OK⌝ ∗ whole tree (a ++ (p, data n0) :: b))).
Proof.
  intros Hp Hrb Hleft Ha. iIntros "Hk Hp". iApply (attach_spec with "Hk Hp"); [done|done|].
  destruct (rb_plug_inv _ _ _ Hrb) as (bb & m & c & Hk & Hm & _). inversion Hm; subst.
  destruct k as [|f k].
  - iIntros "Hk Ht". iApply hwp_ret. iSplit; [done|]. iApply (whole_plug tree [] (T BLACK E p (data n0) E) with "Hk Ht").
    + exists 1%nat. cbn. econstructor; constructor.
    + by rewrite (Ha [(p, data n0)]).
  - iIntros "Hk Ht". unfold insert_result, insert_rebalance. iApply hwp_bind. iApply hwp_bind. cbn [tree_at].
    iDestruct "Ht" as "(_ & Hp & HE)". iDestruct (cpar_word with "Hk") as %Hpar.
    iApply (hwp_parent with "Hp"); [exact Hpar|done|]. iIntros "Hp". iApply hwp_bind.
    iApply (hwp_fuel _ _ _ (needs_ctx tree (f :: k) p) with "Hk"). iIntros (fuel Hf) "Hk".
    iApply (hwp_wand with "[-]").
    + iApply (insert_rebalance_loop_spec tree fuel (f :: k) (T RED E p (data n0) E) with "Hk"); [exact Hk| |done|by iFrame].
      repeat constructor.
    + iIntros (_) "H". iApply hwp_ret. iSplit; [done|]. cbn [elems app]. by rewrite Ha.
Qed.

Lemma hwp_ASSERT (x : bool) (Φ : unit -> prop) : x = true -> Φ tt ⊢ hwp (ASSERT x) Φ.
Proof. intros ->. apply hwp_ret. Qed.

(** The variants of the insertion differ in how they compare and how they
    find the side of the new node. *)
Definition insert_with (cond : V -> V -> Z) (is_left : Z -> Z -> M (gmap Z (cell V)) bool) (tree p : Z) :
    M (gmap Z (cell V)) Z :=
  ASSERT (negb (tree =? 0) && negb (p =? 0)) ;;
  let* r := (let* cur := get_root tree in
    let* fuel := gets rb_fuel in
    let* r := bst_descend fuel cond p 0 cur 0 in
    match r with
    | None => ret COND_EQUALS
    | Some (parent, cmp) => bst_attach tree p parent (is_left parent cmp)
    end) in
  insert_result tree p r.

Lemma insert_with_spec cond is_left tree p n0 a b :
  haddr tree <> 0 -> node_ptr p -> descends_right cond n0 a -> goes_left cond n0 b ->
  (forall k cmp, side_ok cond n0 k -> last_cmp cond n0 k cmp -> tells_side k p n0 (is_left (cpar k) cmp)) ->
  whole tree (a ++ b) ⊢ p ↦ Node n0 -∗
    hwp (insert_with cond is_left tree p) (fun r => ⌜r = RBT_INSERT_OK⌝ ∗ whole tree (a ++ (p, data n0) :: b)).
Proof.
  intros Htree Hp Ha Hb Hleft. iIntros "(%t & Hr & Ht & [%n %Hrb] & %He) Hp". unfold insert_with.
  iApply hwp_bind. iApply hwp_ASSERT.
  { destruct Hp. destruct (Z.eqb_spec (haddr tree) 0), (Z.eqb_spec p 0); done. }
  iApply hwp_bind. iApply hwp_bind. iApply (hwp_get_root with "Hr"). iIntros "Hr".
  iApply hwp_bind. iApply (hwp_fuel _ _ _ (needs_tree 0 t) with "Ht"). iIntros (fuel Hf) "Ht". iApply hwp_bind.
  iApply (descend_miss cond p n0 tree _ fuel [] t a b 0 with "Hr Ht Hp"); [done..|].
  iIntros (k cmp) "%Hk %Har %Hs %Hl Hk Hp". cbn [plug] in Hk. subst t.
  iApply (insert_finish with "Hk Hp"); [done|exact Hrb|by apply Hleft|done].
Qed.

Lemma insert_with_exists cond is_left tree p n0 a mid b :
  haddr tree <> 0 -> p <> 0 -> descends_right cond n0 a -> goes_left cond n0 b -> all_equal cond n0 mid -> mid <> [] ->
  whole tree (a ++ mid ++ b) ⊢ p ↦ Node n0 -∗
    hwp (insert_with cond is_left tree p)
      (fun r => ⌜r = RBT_INSERT_EXISTS⌝ ∗ whole tree (a ++ mid ++ b) ∗ p ↦ Node n0).
Proof.
  intros Htree Hp Ha Hb Hw Hne. iIntros "(%t & Hr & Ht & %Hrb & %He) Hp". unfold insert_with.
  iApply hwp_bind. iApply hwp_ASSERT; [by destruct (Z.eqb_spec (haddr tree) 0), (Z.eqb_spec p 0)|].
  iApply hwp_bind. iApply hwp_bind. iApply (hwp_get_root with "Hr"). iIntros "Hr".
  iApply hwp_bind. iApply (hwp_fuel _ _ _ (needs_tree 0 t) with "Ht"). iIntros (fuel Hf) "Ht". iApply hwp_bind.
  iApply (descend_found cond p n0 tree _ fuel [] t a mid b 0 with "Hr Ht Hp"); [done..|].
  iIntros (k t') "%Hk Hk Ht Hp". iApply hwp_ret. iApply hwp_ret. iFrame "Hp". iSplit; [done|].
  iApply (whole_plug with "Hk Ht"); [by rewrite Hk|]. rewrite -elems_plug Hk. done.
Qed.

End Insert.
