(* ===== verification/RbtreeErase.v ===== *)
(** * RbtreeErase: rebalancing after a removal

    [erase_color] on a position whose subtree is black and one level too
    short: a red sibling is rotated away first, then the sibling is recolored
    and the position moves up, or one or two rotations finish. *)

From Stdlib Require Import ZArith Lia.
From stdpp Require Import base gmap list.
From iris.proofmode Require Import proofmode.
From S2P Require Import Prelude HeapLogic Rbtree RbtreeTree RbtreeRep RbtreeInsert.

Open Scope Z_scope.

Section Erase.
Context {V : Type} `{!TreeField V}.
Implicit Types (tree : header V) (t s u : tree V) (k : list (frame V)) (d : side) (c : color_e) (v : V).
Abbreviation prop := (heapProp (cell V)).

(** ** The rotations *)

Lemma hwp_erase_rotate tree k d p z y c v sib x tmp1 par' c' sv nt (Φ : unit -> prop) :
  node_ptr p -> node_ptr sib -> word_ptr par' ->
  ctx_at tree k p ⊢ p ↦ Node (mk d z y (pack (cpar k) c) v) -∗ sib ↦ Node (mk d (ptr x) tmp1 (pack par' c') sv) -∗
    tmp1 ↦ Node nt -∗ tree_at sib x -∗
    (ctx_at tree k sib -∗ p ↦ Node (mk d z (ptr x) (pack sib BLACK) v) -∗
       sib ↦ Node (mk d p tmp1 (pack (cpar k) c) sv) -∗ tmp1 ↦ Node (with_packed (pack sib BLACK) nt) -∗ tree_at p x -∗ Φ tt) -∗
    hwp (erase_rotate tree d p sib tmp1) Φ.
Proof.
  intros Hp Hs Hpar'. iIntros "Hk Hp Hs Hn Hx HΦ". unfold erase_rotate.
  iApply hwp_bind. iApply (hwp_child_mk with "Hs"). iIntros "Hs".
  iApply hwp_bind. iApply (hwp_set_opp with "Hp"). iIntros "Hp".
  iApply hwp_bind. iApply (hwp_set_mk with "Hs"). iIntros "Hs".
  iApply hwp_bind. iApply (hwp_set_parent_color with "Hn"); [apply Hs|]. iIntros "Hn".
  iApply hwp_bind. iApply (hwp_move_opt with "Hx"); [apply Hs|apply Hp|]. iIntros "Hx".
  iApply (hwp_rotate_set_parents with "Hk Hp Hs"); [done|done|apply packed_mk|apply packed_mk|done|].
  rewrite !with_packed_mk. iIntros "Hk Hp Hs". iApply ("HΦ" with "Hk Hp Hs Hn Hx").
Qed.

(** Case 4: the outer child [s2] of the sibling [q] is red. *)
Lemma erase_outer tree k d c t p v s1 q qv s2 (Φ : unit -> prop) :
  s2 <> E ->
  ctx_at tree k p ⊢ tree_at (cpar k) (node d c t p v (node d BLACK s1 q qv s2)) -∗
    (∀ t', ⌜t' = node d c (node d BLACK t p v s1) q qv (paint BLACK s2)⌝ -∗
       ctx_at tree k (ptr t') -∗ tree_at (cpar k) t' -∗ Φ tt) -∗
    hwp (erase_rotate tree d p q (ptr s2)) Φ.
Proof.
  intros Hs2. rewrite !tree_at_node ptr_node. iIntros "Hk (%Hp & Hp & Ht & (%Hq & Hq & H1 & H2)) HΦ".
  destruct s2 as [|c2 l2 p2 v2 r2]; [done|]. cbn [tree_at ptr paint]. iDestruct "H2" as "(%Hp2 & Hp2 & H2)".
  iApply (hwp_erase_rotate with "Hk Hp Hq Hp2 H1"); [done|done|apply Hp|]. iIntros "Hk Hp Hq Hp2 H1".
  iApply ("HΦ" with "[//] [Hk]"); rewrite ?ptr_node; [done|]. rewrite !tree_at_node ptr_node. by iFrame.
Qed.

(** Case 3: only the inner child [r] is red. *)
Lemma erase_inner_outer tree k d c t p v x r rv y q qv s2 (Φ : unit -> prop) :
  ctx_at tree k p ⊢ tree_at (cpar k) (node d c t p v (node d BLACK (node d RED x r rv y) q qv s2)) -∗
    (∀ t', ⌜t' = node d c (node d BLACK t p v x) r rv (node d BLACK (paint BLACK y) q qv s2)⌝ -∗
       ctx_at tree k (ptr t') -∗ tree_at (cpar k) t' -∗ Φ tt) -∗
    hwp (erase_inner d p q r) (fun _ => hwp (erase_rotate tree d p r q) Φ).
Proof.
  rewrite !tree_at_node !ptr_node. iIntros "Hk (%Hp & Hp & Ht & (%Hq & Hq & (%Hr & Hr & Hx & Hy) & H2)) HΦ".
  unfold erase_inner.
  iApply hwp_bind. iApply (hwp_child_opp with "Hr"). iIntros "Hr".
  iApply hwp_bind. iApply (hwp_set_mk with "Hq"). iIntros "Hq".
  iApply hwp_bind. iApply (hwp_set_opp with "Hr"). iIntros "Hr".
  iApply hwp_bind. iApply (hwp_set_opp with "Hp"). iIntros "Hp".
  iApply (hwp_paint_opt with "Hy"); [apply Hq|]. iIntros "Hy".
  iApply (hwp_erase_rotate with "Hk Hp Hr Hq Hx"); [done|done|apply Hq|]. rewrite with_packed_mk. iIntros "Hk Hp Hr Hq Hx".
  iApply ("HΦ" with "[//] [Hk]"); rewrite ?ptr_node; [done|]. rewrite !tree_at_node !ptr_node ptr_paint. by iFrame.
Qed.

(** Case 1: the sibling is red. *)
Lemma erase_red_sibling_spec tree k d p v s1 q qv s2 z (Φ : Z -> prop) :
  s1 <> E ->
  ctx_at tree (MkFrame d BLACK p v (node d RED s1 q qv s2) :: k) z ⊢
    (ctx_at tree (MkFrame d RED p v (paint BLACK s1) :: MkFrame d BLACK q qv s2 :: k) z -∗ Φ (ptr s1)) -∗
    hwp (erase_red_sibling tree d p q) Φ.
Proof.
  intros Hs1. rewrite !ctx_at_cons tree_at_node ptr_node. iIntros "(%Hp & Hp & (%Hq & Hq & H1 & H2) & Hk) HΦ".
  unfold erase_red_sibling. iApply hwp_bind. iApply (hwp_get_node with "Hq"). iIntros "Hq".
  erewrite is_red_pack; [|apply Hp|apply packed_mk]. cbn.
  iApply hwp_bind. iApply (hwp_child_mk with "Hq"). iIntros "Hq".
  iApply hwp_bind. iApply (hwp_set_opp with "Hp"). iIntros "Hp".
  iApply hwp_bind. iApply (hwp_set_mk with "Hq"). iIntros "Hq".
  iApply hwp_bind. iApply (hwp_paint with "H1"); [apply Hp|done|]. iIntros "H1". iApply hwp_bind.
  iApply (hwp_rotate_set_parents with "Hk Hp Hq"); [done|done|apply packed_mk|apply packed_mk|apply Hp|].
  rewrite !with_packed_mk. iIntros "Hk Hp Hq". iApply hwp_ret. iApply "HΦ".
  rewrite ptr_paint. cbn [cpar fp]. by iFrame.
Qed.

(** ** One round with a black sibling *)

Lemma elems_outer d c c1 c2 c3 c4 t p v s1 q qv s2 :
  elems (node d c (node d c1 t p v s1) q qv (paint c2 s2)) = elems (node d c3 t p v (node d c4 s1 q qv s2) : tree V).
Proof. by rewrite !elems_node elems_paint !beside_assoc. Qed.

Lemma elems_inner d c c1 c2 c3 c4 c5 c6 t p v x r rv y q qv s2 :
  elems (node d c (node d c1 t p v x) r rv (node d c2 (paint c3 y) q qv s2)) =
  elems (node d c4 t p v (node d c5 (node d c6 x r rv y) q qv s2) : tree V).
Proof. by rewrite !elems_node elems_paint !beside_assoc. Qed.

(** What remains to do after a round: nothing, or the same one level up. *)
Definition erased (tree : header V) (P : list (frame V) -> Prop) (l : list (Z * V)) (r : option (Z * Z)) : prop :=
  match r with
  | None => whole tree l
  | Some (node_, parent) => ∃ k t b n, ⌜P k /\ ctx_rb b (S n) k /\ k <> [] /\ rb BLACK n t⌝ ∗ ⌜around k (elems t) = l⌝ ∗
      ⌜node_ = ptr t /\ parent = cpar k⌝ ∗ ctx_at tree k (ptr t) ∗ tree_at (cpar k) t
  end%I.

(** The part of a round that follows the red-sibling case. *)
Definition erase_black_sibling (tree : Z) d (parent sibling : Z) : M (gmap Z (cell V)) (option (Z * Z)) :=
  let* tmp1 := child_of (opp d) sibling in
  let* black1 := is_black_ptr tmp1 in
  if black1 : bool then
    let* tmp2 := child_of d sibling in
    let* black2 := is_black_ptr tmp2 in
    if black2 : bool then
      set_parent_color sibling parent RED ;;
      let* pn := get_node parent in
      if is_red pn then set_color parent BLACK ;; ret None
      else
        let* gparent := parent_of parent in
        ret (if negb (gparent =? 0) then Some (parent, gparent) else None)
    else
      erase_inner d parent sibling tmp2 ;;
      erase_rotate tree d parent tmp2 sibling ;;
      ret None
  else
    erase_rotate tree d parent sibling tmp1 ;;
    ret None.

(** The subtree that replaces the one at [p], black again to its full height. *)
Lemma finish_rb b n c d p v s k t' :
  ctx_rb b (S n) (MkFrame d c p v s :: k) ->
  (c = RED -> rb RED (S n) t') -> (c = BLACK -> rb BLACK (S (S n)) t') -> rbtree (plug k t').
Proof.
  intros Hk HR HB. inversion Hk; subst; (eapply plug_rb; [eassumption|]); [right|left]; eauto.
Qed.

Lemma erase_black_sibling_spec tree k d c p v s1 q qv s2 t b n :
  ctx_rb b (S n) (MkFrame d c p v (node d BLACK s1 q qv s2) :: k) -> rb BLACK n t ->
  ctx_at tree k p ⊢ tree_at (cpar k) (node d c t p v (node d BLACK s1 q qv s2)) -∗
    hwp (erase_black_sibling tree d p q) (erased tree (fun k' => k' = k /\ c = BLACK) (around k (elems (node d c t p v (node d BLACK s1 q qv s2))))).
Proof.
  intros Hk Ht.
  assert (exists c1 c2, rb c1 n s1 /\ rb c2 n s2) as (c1 & c2 & Hs1 & Hs2).
  { assert (exists cs, rb cs (S n) (node d BLACK s1 q qv s2)) as [cs Hs] by (inversion Hk; subst; eauto).
    apply rb_node_B_inv in Hs as (_ & n' & ca & cb & [= ->] & H1 & H2). eauto. }
  pose proof (rb_color _ _ _ Hs1) as E1. pose proof (rb_color _ _ _ Hs2) as E2.
  iIntros "Hk Ht". unfold erase_black_sibling. rewrite !tree_at_node ptr_node.
  iDestruct "Ht" as "(%Hp & Hp & Ht & (%Hq & Hq & H1 & H2))".
  iApply hwp_bind. iApply (hwp_child_opp with "Hq"). iIntros "Hq".
  iApply hwp_bind. iApply (hwp_is_black_ptr with "H2"); [apply Hq|]. iIntros "H2". rewrite E2. destruct c2; cbn.
  - iApply hwp_bind. iApply (hwp_child_mk with "Hq"). iIntros "Hq".
    iApply hwp_bind. iApply (hwp_is_black_ptr with "H1"); [apply Hq|]. iIntros "H1". rewrite E1. destruct c1; cbn.
    + iApply hwp_bind. iApply (hwp_set_parent_color with "Hq"); [apply Hp|]. iIntros "Hq". rewrite with_packed_mk.
      iApply hwp_bind. iApply (hwp_get_node with "Hp"). iIntros "Hp". iDestruct (cpar_word with "Hk") as %Hpar.
      erewrite is_red_pack; [|exact Hpar|apply packed_mk].
      assert (rb RED n (node d RED s1 q qv s2)) as Hs by by apply rb_node_R.
      assert (rb BLACK (S n) (node d BLACK t p v (node d RED s1 q qv s2))) as Ht' by by eapply rb_node_B.
      destruct c; cbn.
      * iApply hwp_bind. iApply (hwp_parent with "Hp"); [exact Hpar|apply packed_mk|]. iIntros "Hp". iApply hwp_ret.
        iAssert (tree_at (cpar k) (node d BLACK t p v (node d RED s1 q qv s2))) with "[-Hk]" as "Ht".
        { rewrite !tree_at_node ptr_node. by iFrame. }
        destruct k as [|f k].
        -- iApply (whole_plug tree [] with "[Hk] Ht"); [by exists (S n)|by rewrite /= !elems_node|by rewrite ptr_node].
        -- cbn [cpar]. iAssert (⌜node_ptr (fp f)⌝)%I as %Hf; [iDestruct "Hk" as "($ & _)"|].
           destruct (Z.eqb_spec (fp f) 0); [by destruct Hf|]. cbn [negb erased].
           assert (exists b', ctx_rb b' (S (S n)) (f :: k)) as [b' Hk'] by (inversion Hk; subst; eauto).
           iExists (f :: k), (node d BLACK t p v (node d RED s1 q qv s2)), b', (S n). rewrite !ptr_node. iFrame "Hk Ht".
           iPureIntro. split; [done|]. split; [by rewrite !elems_node|done].
      * iApply hwp_bind. iApply (hwp_set_color with "Hp"); [exact Hpar|apply packed_mk|]. iIntros "Hp". rewrite with_packed_mk.
        iApply hwp_ret.
        iApply (whole_plug tree k (node d BLACK t p v (node d RED s1 q qv s2)) with "[Hk] [-]").
        -- inversion Hk; subst. eapply plug_rb; [eassumption|]. left. done.
        -- by rewrite !elems_node.
        -- by rewrite ptr_node.
        -- rewrite !tree_at_node ptr_node. by iFrame.
    + destruct (node_view d s1) as [->|(cr & x & r & rv & y & ->)]; [by inversion Hs1|].
      assert (cr = RED) as -> by (by destruct d). apply rb_node_R_inv in Hs1 as (_ & Hx & Hy). rewrite ptr_node.
      iApply hwp_bind. iApply (hwp_wand with "[-]").
      { iApply (erase_inner_outer tree k d c t p v x r rv y q qv s2
          (fun _ => hwp (ret None) (erased tree (fun k' => k' = k /\ c = BLACK) (around k (elems (node d c t p v (node d BLACK (node d RED x r rv y) q qv s2)))))) with "Hk [-]").
        - rewrite !tree_at_node !ptr_node. by iFrame.
        - iIntros (t' ->) "Hk Ht". iApply hwp_ret. iApply (whole_plug with "Hk Ht").
          + rewrite (paint_black n) //. eapply finish_rb; [exact Hk|intros ->|intros ->].
            * apply rb_node_R; by eapply rb_node_B.
            * eapply rb_node_B; by eapply rb_node_B.
          + f_equal. apply eq_sym, elems_inner. }
      iIntros (_) "H". iApply hwp_bind. done.
  - iApply hwp_bind. iApply (erase_outer tree k d c t p v s1 q qv s2 with "Hk [-]"); [by destruct s2|..].
    { rewrite !tree_at_node ptr_node. by iFrame. }
    iIntros (t' ->) "Hk Ht". iApply hwp_ret. iApply (whole_plug with "Hk Ht").
    + eapply finish_rb; [exact Hk|intros ->|intros ->].
      * apply rb_node_R; [by eapply rb_node_B|by apply rb_paint].
      * eapply rb_node_B; [by eapply rb_node_B|by apply rb_paint].
    + f_equal. apply eq_sym, elems_outer.
Qed.

(** ** The loop *)

Lemma erased_mono tree (P Q : list (frame V) -> Prop) l r :
  (forall k, P k -> Q k) -> erased tree P l r ⊢ erased tree Q l r.
Proof.
  intros H. destruct r as [[x y]|]; [|done]. cbn. iIntros "(%k & %t & %b & %n & [% %] & H)".
  iExists k, t, b, n. iFrame. iPureIntro. auto.
Qed.

Lemma ptr_ne par par' t s : s <> E -> tree_at par t ⊢ tree_at par' s -∗ ⌜ptr t <> ptr s⌝.
Proof.
  intros Hs. destruct s as [|c l p v r]; [done|]. cbn [tree_at ptr]. iIntros "Ht (%Hp & Hp & _)".
  iApply (tree_at_ne with "Ht Hp"). apply Hp.
Qed.

Lemma erase_round_spec tree k t b n :
  ctx_rb b (S n) k -> k <> [] -> rb BLACK n t ->
  ctx_at tree k (ptr t) ⊢ tree_at (cpar k) t -∗
    hwp (erase_round tree (ptr t) (cpar k)) (erased tree (fun k' => length k' < length k)%nat (around k (elems t))).
Proof.
  intros Hk Hne Ht. destruct k as [|[d c p v s] k]; [done|]. iIntros "Hk Ht". cbn [cpar fp].
  assert (exists cs, rb cs (S n) s) as [cs Hs] by (inversion Hk; subst; eauto).
  assert (s <> E) as HsE by (by eapply rb_height).
  change (erase_round tree (ptr t) p) with (let* ds := side_of p (ptr t) in
    let '(d, sibling) := ds in
    let* sibling := erase_red_sibling tree d p sibling in
    erase_black_sibling tree d p sibling).
  rewrite ctx_at_cons. iDestruct "Hk" as "(%Hp & Hp & Hs & Hk)". iDestruct (ptr_ne with "Ht Hs") as %Hne'; [done|].
  iApply hwp_bind. iApply (hwp_side_of with "Hp"); [done|]. iIntros "Hp". iApply hwp_bind.
  destruct (node_view d s) as [->|(c' & s1 & q & qv & s2 & ->)]; [done|]. rewrite ptr_node.
  assert (c' = cs) as -> by (pose proof (rb_color _ _ _ Hs) as <-; by destruct d). destruct cs.
  - unfold erase_red_sibling. rewrite tree_at_node. iDestruct "Hs" as "(%Hq & Hq & H1 & H2)".
    iApply hwp_bind. iApply (hwp_get_node with "Hq"). iIntros "Hq". erewrite is_red_pack; [|apply Hp|apply packed_mk]. cbn.
    iApply hwp_ret. iApply (hwp_wand with "[-]").
    + iApply (erase_black_sibling_spec with "Hk [-]"); [exact Hk|exact Ht|]. rewrite !tree_at_node ptr_node. by iFrame.
    + iIntros (r) "H". cbn [around]. rewrite around1_elems /plug1 /=. iApply (erased_mono with "H"). cbn. intros k' [-> _]. lia.
  - pose proof (rb_node_R_inv _ _ _ _ _ _ _ Hs) as (_ & H1 & H2). assert (s1 <> E) as Hs1 by (by eapply rb_height).
    assert (c = BLACK) as ->.
    { inversion Hk as [|n0 d0 p0 v0 s0 k0 Hs0|]; subst; [|done].
      apply rb_color in Hs0. by destruct d. }
    iApply (erase_red_sibling_spec tree k d p v s1 q qv s2 (ptr t) with "[Hp Hs Hk]"); [done|..].
    { rewrite ctx_at_cons ptr_node. by iFrame. }
    iIntros "Hk". rewrite (paint_black (S n)) // !ctx_at_cons. cbn [cpar fp].
    iDestruct "Hk" as "(_ & Hp & H1 & %Hq & Hq & H2 & Hk)".
    destruct (node_view d s1) as [->|(c1 & x & r & rv & y & ->)]; [done|]. rewrite ptr_node.
    assert (c1 = BLACK) as -> by (pose proof (rb_color _ _ _ H1); by destruct d).
    inversion Hk as [| |n0 b0 c0 d0 p0 v0 s0 k0 _ Hk0]; subst.
    iApply (hwp_wand with "[-]").
    + iApply (erase_black_sibling_spec tree (MkFrame d BLACK q qv s2 :: k) d RED p v x r rv y t false n with "[Hq H2 Hk] [-]").
      * constructor; [exact H1|]. by econstructor.
      * exact Ht.
      * rewrite ctx_at_cons. by iFrame.
      * rewrite !tree_at_node ptr_node. by iFrame.
    + iIntros (res) "H". rewrite (erased_mono _ _ (fun k' => length k' < length (MkFrame d BLACK p v (node d RED (node d BLACK x r rv y) q qv s2) :: k))%nat);
        [|by intros k' [_ [=]]].
      cbn [around]. rewrite !around1_elems /plug1 /=.
      rewrite !elems_node !beside_assoc. done.
Qed.

Lemma erase_color_loop_spec tree fuel : forall k t b n,
  ctx_rb b (S n) k -> k <> [] -> rb BLACK n t -> (length k < fuel)%nat ->
  ctx_at tree k (ptr t) ⊢ tree_at (cpar k) t -∗
    hwp (erase_color_loop fuel tree (ptr t) (cpar k)) (fun _ => whole tree (around k (elems t))).
Proof.
  induction fuel as [|fuel IH]; [lia|]. intros k t b n Hk Hne Ht Hf. iIntros "Hk Ht". cbn [erase_color_loop].
  iApply hwp_bind. iApply (hwp_wand with "[-]"); [by iApply (erase_round_spec with "Hk Ht")|].
  iIntros ([[x y]|]) "H"; cbn [erased]; [|by iApply hwp_ret].
  iDestruct "H" as "(%k' & %t' & %b' & %n' & (%Hlen & %Hk' & %Hne' & %Ht') & %El & [-> ->] & Hk & Ht)". rewrite -El.
  iApply (IH with "Hk Ht"); [done..|lia].
Qed.

End Erase.
