(* ===== verification/RbtreeRemove.v ===== *)
(** * RbtreeRemove: removing a node

    A node with at most one child is replaced by that child; a node with two
    children by its in-order successor, which is unlinked from the right
    subtree.  The place where a node is missing afterwards is rebalanced. *)

From Stdlib Require Import ZArith Lia.
From stdpp Require Import base gmap list.
From iris.proofmode Require Import proofmode.
From S2P Require Import Prelude HeapLogic Rbtree RbtreeTree RbtreeRep RbtreeInsert RbtreeErase.

Open Scope Z_scope.

Section Remove.
Context {V : Type} `{!TreeField V}.
Implicit Types (tree : header V) (t s u l r : tree V) (k ks : list (frame V)) (d : side) (c : color_e) (v : V).
Abbreviation prop := (heapProp (cell V)).

(** ** Positions *)

Lemma plug_at t a p v b :
  elems t = a ++ (p, v) :: b ->
  exists k c l r, t = plug k (T c l p v r) /\ forall x, around k (elems l ++ x ++ elems r) = a ++ x ++ b.
Proof.
  revert a b. induction t as [|c l IHl q w r IHr]; intros a b E; cbn in E; [by destruct a|].
  destruct (split_three _ _ _ _ _ _ (eq_sym E)) as [(b' & El & ->)|[([= -> ->] & -> & ->)|(a' & -> & Er)]].
  - destruct (IHl _ _ El) as (k & c' & l' & r' & -> & Hx). exists (k ++ [MkFrame L c q w r]), c', l', r'.
    split; [by rewrite plug_app|]. intros x. rewrite around_app Hx. cbn. rewrite /around1 /=. by rewrite -!app_assoc.
  - by exists [], c, l, r.
  - destruct (IHr _ _ Er) as (k & c' & l' & r' & -> & Hx). exists (k ++ [MkFrame R c q w l]), c', l', r'.
    split; [by rewrite plug_app|]. intros x. rewrite around_app Hx. cbn. rewrite /around1 /=. by rewrite -!app_assoc.
Qed.

(** The part of a context inside of a subtree whose parent is [par]. *)
Definition lpar (par : Z) ks : Z := match ks with [] => par | f :: _ => fp f end.
Definition top ks (q : Z) : Z := match last ks with None => q | Some f => fp f end.

Fixpoint pctx (par : Z) ks (q : Z) : prop :=
  match ks with
  | [] => emp
  | f :: ks => ⌜node_ptr (fp f)⌝ ∗ fp f ↦ Node (mk (fd f) q (ptr (fs f)) (pack (lpar par ks) (fc f)) (fv f)) ∗
      tree_at (fp f) (fs f) ∗ pctx par ks (fp f)
  end%I.

Lemma top_cons f ks q : top (f :: ks) q = top ks (fp f).
Proof.
  unfold top. destruct ks as [|g ks]; [done|]. change (last (f :: g :: ks)) with (last (g :: ks)).
  destruct (last (g :: ks)) eqn:E; [done|]. by apply last_None in E.
Qed.

Lemma tree_at_plug par ks t : tree_at par (plug ks t) ⊣⊢ pctx par ks (ptr t) ∗ tree_at (lpar par ks) t.
Proof.
  revert t. induction ks as [|[d c p v s] ks IH]; intros t; cbn [plug pctx lpar]; [by rewrite left_id|].
  rewrite IH /plug1 /= tree_at_node ptr_node. iSplit.
  - iIntros "(Hk & % & Hp & Ht & Hs)". by iFrame.
  - iIntros "((% & Hp & Hs & Hk) & Ht)". by iFrame.
Qed.

Lemma ctx_at_app tree ks k q : ctx_at tree (ks ++ k) q ⊣⊢ pctx (cpar k) ks q ∗ ctx_at tree k (top ks q).
Proof.
  revert q. induction ks as [|f ks IH]; intros q; cbn [app pctx]; [by rewrite left_id|].
  cbn [ctx_at]. rewrite IH top_cons. assert (cpar (ks ++ k) = lpar (cpar k) ks) as -> by by destruct ks.
  iSplit; [iIntros "(% & Hp & Hs & Hk & Hc)"|iIntros "((% & Hp & Hs & Hk) & Hc)"]; by iFrame.
Qed.

Lemma lpar_word par ks q : word_ptr par -> pctx par ks q ⊢ ⌜word_ptr (lpar par ks)⌝.
Proof. intros Hp. destruct ks as [|f ks]; cbn; [by iIntros "_"|]. iIntros "([_ %] & _)". done. Qed.

(** Moving the subtree below another parent. *)
Lemma hwp_move_pctx par par' ks q (Φ : unit -> prop) :
  ks <> [] -> word_ptr par -> word_ptr par' ->
  pctx par ks q ⊢ (pctx par' ks q -∗ Φ tt) -∗ hwp (set_parent (top ks q) par') Φ.
Proof.
  intros Hne Hw Hw'. revert q Φ. induction ks as [|f ks IH]; intros q Φ; [done|]. rewrite top_cons. cbn [pctx].
  iIntros "(%Hf & Hf & Hs & Hk) HΦ". destruct ks as [|g ks].
  - iApply (hwp_set_parent with "Hf"); [exact Hw|apply packed_mk|done|]. rewrite with_packed_mk. iIntros "Hf".
    iApply "HΦ". by iFrame.
  - iApply (IH with "Hk"); [done|]. iIntros "Hk". iApply "HΦ". by iFrame.
Qed.

(** Contexts that run along the left edge. *)
Definition left_edge ks : Prop := Forall (fun f => fd f = L) ks.

Lemma left_edge_around ks x y : left_edge ks -> around ks (x ++ y) = x ++ around ks y.
Proof.
  revert x y. induction ks as [|f ks IH]; intros x y; [done|]. intros [Hf Hks]%Forall_cons. cbn.
  rewrite /around1 Hf /= -app_assoc. by apply IH.
Qed.

(** ** The successor *)

Lemma successor_loop_spec par fuel (Φ : Z * Z -> prop) : forall ks t,
  word_ptr par -> left_edge ks -> ks <> [] -> t <> E -> (length (elems t) < fuel)%nat ->
  pctx par ks (ptr t) ⊢ tree_at (lpar par ks) t -∗
    (∀ ks' c p v r, ⌜plug ks' (T c E p v r) = plug ks t /\ left_edge ks' /\ ks' <> []⌝ -∗
       pctx par ks' p -∗ tree_at (lpar par ks') (T c E p v r) -∗ Φ (lpar par ks', p)) -∗
    hwp (successor_loop fuel (lpar par ks) (ptr t)) Φ.
Proof.
  induction fuel as [|fuel IH]; [lia|]. intros ks t Hpar Hl Hne Ht Hf. destruct t as [|c l p v r]; [done|].
  cbn [elems] in Hf. rewrite length_app in Hf. cbn in Hf. cbn [successor_loop ptr tree_at].
  iIntros "Hk (%Hp & Hp & Hl & Hr) HΦ". iApply hwp_bind. iApply (hwp_child with "Hp"). iIntros "Hp". cbn [child left].
  destruct l as [|cl ll lp lv lr].
  - cbn. iApply hwp_ret. iApply ("HΦ" $! ks c p v r with "[//] Hk"). by iFrame.
  - iAssert (⌜lp <> 0⌝)%I as %Hlp; [iDestruct "Hl" as "([% _] & _)"; done|].
    destruct (Z.eqb_spec (ptr (T cl ll lp lv lr)) 0); [done|].
    iApply (IH (MkFrame L c p v r :: ks) with "[Hp Hr Hk] Hl"); [done|by constructor|done|done|lia| |].
    + cbn [pctx fp fd fs fc fv]. by iFrame.
    + iIntros (ks' c' p' v' r') "(%E & %Hl' & %Hne')". rewrite /= in E. iApply "HΦ". by iPureIntro.
Qed.

(** ** The end: filling the hole, and rebalancing when a black node is gone *)

Definition rebalance_at (tree reb : Z) : M (gmap Z (cell V)) unit :=
  if negb (reb =? 0) then erase_color tree reb else ret tt.

(** Where [T c E p v r] was there is now [r], painted black. *)
Lemma after_unlink tree k c p v r b n c0 reb :
  ctx_rb b n k -> rb c0 n (T c E p v r) ->
  reb = (if negb (ptr r =? 0) then 0 else if bool_decide (c = BLACK) then cpar k else 0) ->
  ctx_at tree k (ptr r) ⊢ tree_at (cpar k) (paint BLACK r) -∗
    hwp (rebalance_at tree reb) (fun _ => whole tree (around k (elems r))).
Proof.
  intros Hk Hrb ->. iIntros "Hk Hr".
  assert (forall t', ptr t' = ptr r -> elems t' = elems r -> rbtree (plug k t') ->
    ctx_at tree k (ptr r) ⊢ tree_at (cpar k) t' -∗ hwp (ret tt) (fun _ => whole tree (around k (elems r)))) as Hdone.
  { intros t' Ep Ee Ht'. iIntros "Hk Ht". iApply hwp_ret. rewrite -Ep. iApply (whole_plug with "Hk Ht"); [done|by rewrite Ee]. }
  destruct r as [|cr rl rp rv rr]; cbn [ptr paint negb Z.eqb].
  - destruct c; cbn.
    + inversion Hrb as [| |n' cl cr l0 p0 v0 r0 HlE HrE]; subst. inversion HlE; subst.
      rewrite bool_decide_true //. unfold rebalance_at. destruct k as [|f k]; cbn [cpar].
      * iApply (Hdone E with "Hk Hr"); [done|done|]. exists 0%nat. constructor.
      * iAssert (⌜node_ptr (fp f)⌝)%I as %Hf; [iDestruct "Hk" as "($ & _)"|].
        destruct (Z.eqb_spec (fp f) 0); [by destruct Hf|]. cbn [negb].
        unfold erase_color. iApply hwp_bind.
        iApply (hwp_fuel _ _ _ (needs_ctx tree (f :: k) 0) with "Hk"). iIntros (fuel Hfu) "Hk".
        iApply (erase_color_loop_spec tree fuel (f :: k) E with "Hk Hr"); [exact Hk|done|constructor|done].
    + inversion Hrb; subst. iApply (Hdone E with "Hk Hr"); [done|done|]. eapply plug_rb; [exact Hk|]. by left.
  - iAssert (⌜rp <> 0⌝)%I as %Hrp; [iDestruct "Hr" as "([% _] & _)"; done|]. destruct (Z.eqb_spec rp 0); [done|]. cbn.
    iApply (Hdone (T BLACK rl rp rv rr) with "Hk Hr"); [done|done|]. eapply plug_rb; [exact Hk|]. left.
    inversion Hrb as [|n' l0 p0 v0 r0 HlE HrE|n' cl cr' l0 p0 v0 r0 HlE HrE]; subst.
    + inversion HlE; subst. inversion HrE.
    + inversion HlE; subst. inversion HrE; subst. by apply (rb_paint 0 (T RED rl rp rv rr)).
Qed.

(** ** The three cases *)

Definition reb_of c r k : Z := if negb (ptr r =? 0) then 0 else if bool_decide (c = BLACK) then cpar k else 0.

Lemma remove_no_left_spec tree k c p v r (Φ : Z -> prop) :
  ctx_at tree k p ⊢ tree_at (cpar k) (T c E p v r) -∗
    (∀ n, ⌜data n = v⌝ -∗ ctx_at tree k (ptr r) -∗ tree_at (cpar k) (paint c r) -∗ p ↦ Node n -∗ Φ (reb_of c r k)) -∗
    hwp (remove_no_left tree p (ptr r)) Φ.
Proof.
  iIntros "Hk (%Hp & Hp & _ & Hr) HΦ". iDestruct (cpar_word with "Hk") as %Hpar. unfold remove_no_left.
  iApply hwp_bind. iApply (hwp_parent with "Hp"); [exact Hpar|done|]. iIntros "Hp".
  iApply hwp_bind. iApply (hwp_replace_child with "Hk Hp"); [apply Hp|]. iIntros "Hk Hp".
  iApply hwp_bind. iApply (hwp_get_node with "Hp"). iIntros "Hp".
  rewrite (get_color_pack _ (cpar k) c) // (is_black_pack _ (cpar k) c) //. unfold reb_of.
  destruct r as [|cr rl rp rv rr]; cbn [ptr Z.eqb negb].
  - iApply hwp_ret. iApply ("HΦ" with "[] Hk Hr Hp"); done.
  - iAssert (⌜rp <> 0⌝)%I as %Hrp; [iDestruct "Hr" as "([% _] & _)"; done|]. destruct (Z.eqb_spec rp 0); [done|]. cbn [negb].
    iApply hwp_bind. iApply (hwp_paint p (T cr rl rp rv rr) with "Hr"); [done|done|]. iIntros "Hr". iApply hwp_ret.
    iApply ("HΦ" with "[] Hk Hr Hp"). done.
Qed.

Lemma remove_no_right_spec tree k c p v l (Φ : Z -> prop) :
  l <> E ->
  ctx_at tree k p ⊢ tree_at (cpar k) (T c l p v E) -∗
    (∀ n, ⌜data n = v⌝ -∗ ctx_at tree k (ptr l) -∗ tree_at (cpar k) (paint c l) -∗ p ↦ Node n -∗ Φ 0) -∗
    hwp (remove_no_right tree p (ptr l)) Φ.
Proof.
  intros Hl. iIntros "Hk (%Hp & Hp & Hl & _) HΦ". iDestruct (cpar_word with "Hk") as %Hpar. unfold remove_no_right.
  iApply hwp_bind. iApply (hwp_parent with "Hp"); [exact Hpar|done|]. iIntros "Hp".
  iApply hwp_bind. iApply (hwp_get_node with "Hp"). iIntros "Hp". rewrite (get_color_pack _ (cpar k) c) //.
  iApply hwp_bind. iApply (hwp_paint with "Hl"); [done|done|]. iIntros "Hl".
  iApply hwp_bind. iApply (hwp_replace_child with "Hk Hp"); [apply Hp|]. iIntros "Hk Hp".
  iApply hwp_ret. iApply ("HΦ" with "[] Hk Hl Hp"). done.
Qed.

(** The successor [sp] out of the right subtree; its child [sr] still has it
    as its parent. *)
Lemma unlink_successor_spec p r (Φ : Z * Z * Z -> prop) :
  node_ptr p -> r <> E ->
  tree_at p r ⊢
    (∀ ks cs sp sv sr par w, ⌜r = plug ks (T cs E sp sv sr) /\ left_edge ks⌝ -∗ ⌜node_ptr sp /\ word_ptr par /\ w = pack par cs⌝ -∗
       sp ↦ Node (MkRb 0 (top ks (ptr sr)) w sv) -∗ pctx sp ks (ptr sr) -∗ tree_at sp sr -∗ Φ (sp, lpar sp ks, ptr sr)) -∗
    hwp (unlink_successor (ptr r)) Φ.
Proof.
  intros Hp Hr. destruct r as [|cr rl rp rv rr]; [done|]. cbn [ptr].
  iIntros "Ht HΦ". unfold unlink_successor. destruct rl as [|cl ll lp lv lr].
  - cbn [tree_at ptr]. iDestruct "Ht" as "(%Hrp & Hrp & _ & Hrr)".
    iApply hwp_bind. iApply (hwp_child with "Hrp"). iIntros "Hrp". cbn [child left Z.eqb].
    iApply hwp_bind. iApply (hwp_child with "Hrp"). iIntros "Hrp". cbn [child right]. iApply hwp_ret.
    iApply ("HΦ" $! [] cr rp rv rr p _ with "[] [] Hrp [] Hrr"); [by iPureIntro; repeat constructor| |done].
    iPureIntro. split; [done|]. split; [apply Hp|done].
  - iAssert (⌜lp <> 0⌝)%I as %Hlp; [iDestruct "Ht" as "(_ & _ & ([% _] & _) & _)"; done|].
    assert (ptr (T cl ll lp lv lr) <> 0) as Hl0 by done. revert Hl0. assert (T cl ll lp lv lr <> E) as HlE by done. revert HlE.
    generalize (T cl ll lp lv lr). intros rl HlE Hl0.
    iDestruct (tree_at_node p L cr rl rp rv rr with "Ht") as "(%Hrp & Hrp & Hrl & Hrr)".
    iApply hwp_bind. iApply (hwp_child with "Hrp"). iIntros "Hrp". cbn [mk child left]. destruct (Z.eqb_spec (ptr rl) 0); [done|].
    iApply hwp_bind. iApply (hwp_fuel _ _ _ (needs_tree rp rl) with "Hrl"). iIntros (fuel Hfu) "Hrl". iApply hwp_bind.
    iApply (successor_loop_spec p fuel _ [MkFrame L cr rp rv rr] rl with "[Hrp Hrr] Hrl"); [apply Hp|by repeat constructor|done|done|done| |].
    { cbn [pctx fp fd fc fv fs lpar]. by iFrame. }
    iIntros (ks cs sp sv sr) "(%Epl & %Hle & %Hne) Hk (%Hsp & Hsp & _ & Hsr)". cbn [plug] in Epl.
    iApply hwp_bind. iApply (hwp_child with "Hsp"). iIntros "Hsp". cbn [child right].
    destruct ks as [|f ks]; [done|]. cbn [lpar]. iEval (cbn [pctx]) in "Hk". iDestruct "Hk" as "(%Hf & Hf & Hfs & Hk)".
    assert (fd f = L) as Ed by (by apply Forall_cons in Hle as [? _]).
    iApply hwp_bind. iEval (rewrite Ed) in "Hf". iApply (hwp_set_mk with "Hf"). iIntros "Hf".
    iAssert (pctx p (f :: ks) (ptr sr)) with "[Hf Hfs Hk]" as "Hk"; [cbn [pctx]; rewrite Ed; by iFrame|].
    iApply hwp_bind. iApply (hwp_upd_node with "Hsp"). iIntros "Hsp". cbn [with_child left packed data].
    assert (rp = top (f :: ks) (ptr sr)) as ->.
    { assert (ptr (plug (f :: ks) (T cs E sp sv sr)) = rp) as <- by (by rewrite Epl). clear.
      generalize (T cs E sp sv sr). generalize (ptr sr). revert f. induction ks as [|g ks IH]; intros f q t; [by rewrite /= ptr_node|].
      rewrite top_cons. apply (IH g). }
    iApply hwp_bind. iApply (hwp_move_pctx with "Hk"); [done|apply Hp|apply Hsp|]. iIntros "Hk". iApply hwp_ret.
    iApply ("HΦ" $! (f :: ks) cs sp sv sr _ _ with "[] [] Hsp Hk Hsr"); [by rewrite Epl|].
    iPureIntro. split; [done|]. split; [apply Hf|done].
Qed.

(** The successor takes the place of the removed node. *)
Definition succ_ctx ks c sp sv l k : list (frame V) := ks ++ MkFrame R c sp sv l :: k.

Lemma cpar_succ ks c sp sv l k : cpar (succ_ctx ks c sp sv l k) = lpar sp ks.
Proof. by destruct ks. Qed.

Lemma remove_two_spec tree k c p v l r (Φ : Z -> prop) :
  l <> E -> r <> E ->
  ctx_at tree k p ⊢ tree_at (cpar k) (T c l p v r) -∗
    (∀ n ks cs sp sv sr, ⌜data n = v⌝ -∗ ⌜r = plug ks (T cs E sp sv sr) /\ left_edge ks⌝ -∗
       ctx_at tree (succ_ctx ks c sp sv l k) (ptr sr) -∗ tree_at (cpar (succ_ctx ks c sp sv l k)) (paint BLACK sr) -∗
       p ↦ Node n -∗ Φ (reb_of cs sr (succ_ctx ks c sp sv l k))) -∗
    hwp (remove_two tree p (ptr r)) Φ.
Proof.
  intros Hl Hr. iIntros "Hk Ht HΦ". iDestruct (tree_at_node (cpar k) L c l p v r with "Ht") as "(%Hp & Hp & Hl & Hr)".
  iDestruct (cpar_word with "Hk") as %Hpar. unfold remove_two. iApply hwp_bind.
  iApply (unlink_successor_spec with "Hr"); [done|done|].
  iIntros (ks cs sp sv sr par w) "(%Epl & %Hle) (%Hsp & %Hw & ->) Hsp Hks Hsr".
  iDestruct (lpar_word with "Hks") as %Hlp; [apply Hsp|].
  iApply hwp_bind. iApply (hwp_child with "Hp"). iIntros "Hp". cbn [mk child left].
  iApply hwp_bind. iApply (hwp_upd_node with "Hsp"). iIntros "Hsp". cbn [with_child left right packed data].
  iApply hwp_bind. iApply (hwp_child with "Hp"). iIntros "Hp". cbn [mk child left].
  iApply hwp_bind. iApply (hwp_move with "Hl"); [apply Hp|apply Hsp|done|]. iIntros "Hl".
  iApply hwp_bind. iApply (hwp_parent with "Hp"); [exact Hpar|done|]. iIntros "Hp".
  iApply hwp_bind. iApply (hwp_replace_child with "Hk Hp"); [apply Hp|]. iIntros "Hk Hp".
  iAssert (∀ reb, ⌜reb = reb_of cs sr (succ_ctx ks c sp sv l k)⌝ -∗ sp ↦ Node (MkRb (ptr l) (top ks (ptr sr)) (pack par cs) sv) -∗
    tree_at (lpar sp ks) (paint BLACK sr) -∗
    hwp (let* n := get_node p in set_parent_color sp (cpar k) (get_color n) ;; ret reb) Φ)%I with "[-Hsp Hsr]" as "Hend".
  { iIntros (reb ->) "Hsp Hsr". iApply hwp_bind. iApply (hwp_get_node with "Hp"). iIntros "Hp".
    rewrite (get_color_pack _ (cpar k) c) //. iApply hwp_bind. iApply (hwp_set_parent_color with "Hsp"); [exact Hpar|].
    iIntros "Hsp". iApply hwp_ret. iApply ("HΦ" with "[] [//] [Hsp Hk Hks Hl] [Hsr] Hp"); [done| |by rewrite cpar_succ].
    unfold succ_ctx. rewrite ctx_at_app ctx_at_cons. cbn [cpar fp]. by iFrame. }
  unfold reb_of. rewrite cpar_succ. iApply hwp_bind.
  destruct sr as [|cr rl rp rv rr]; cbn [ptr Z.eqb negb].
  - iApply hwp_bind. iApply (hwp_get_node with "Hsp"). iIntros "Hsp". rewrite (is_black_pack _ par cs) //.
    iApply hwp_ret. by iApply ("Hend" with "[//] Hsp").
  - iAssert (⌜rp <> 0⌝)%I as %Hrp; [iDestruct "Hsr" as "([% _] & _)"; done|]. destruct (Z.eqb_spec rp 0); [done|]. cbn [negb].
    iApply hwp_bind. iApply (hwp_paint sp (T cr rl rp rv rr) with "Hsr"); [done|done|]. iIntros "Hsr". iApply hwp_ret.
    by iApply ("Hend" with "[//] Hsp").
Qed.

(** The frames of the invariant do not see the addresses and the data. *)
Lemma ctx_rb_relabel b n ks d c p v p' v' s k :
  ctx_rb b n (ks ++ MkFrame d c p v s :: k) -> ctx_rb b n (ks ++ MkFrame d c p' v' s :: k).
Proof.
  revert b n. induction ks as [|f ks IH]; intros b n H; cbn in *; inversion H; subst; econstructor; eauto.
Qed.

Lemma plug_rb_inv k t : rbtree (plug k t) -> exists b m c, ctx_rb b m k /\ rb c m t.
Proof. intros [n H]. destruct (rb_plug_inv _ _ _ H) as (b & m & c & Hk & Ht & _). eauto. Qed.

(** A node with one child is black and the child red. *)
Lemma rb_only_right c n c0 p v r : rb c0 n (T c E p v r) -> paint c r = paint BLACK r.
Proof. inversion 1 as [|n' l' p' v' r' Hl Hr|]; subst; [|done]. inversion Hl; subst. by inversion Hr. Qed.

Lemma rb_only_left c n c0 p v l : rb c0 n (T c l p v E) -> l <> E -> rb BLACK n (paint c l).
Proof.
  intros H Hne. inversion H as [|n' l' p' v' r' Hl Hr|n' cl cr l' p' v' r' Hl Hr]; subst.
  - inversion Hr; subst. by inversion Hl; subst.
  - inversion Hr; subst. inversion Hl; subst; [done|]. cbn. by econstructor.
Qed.

Definition removed tree p v (xs : list (Z * V)) : Z -> prop :=
  fun z => (⌜z = p⌝ ∗ whole tree xs ∗ ∃ n, p ↦ Node n ∗ ⌜data n = v⌝)%I.

Lemma remove_finish tree p v xs n reb :
  data n = v ->
  hwp (rebalance_at tree reb) (fun _ => whole tree xs) ⊢ p ↦ Node n -∗
    hwp (rebalance_at tree reb ;; ret p) (removed tree p v xs).
Proof.
  intros Hv. iIntros "H Hp". iApply hwp_bind. iApply (hwp_wand with "H"). iIntros ([]) "Hw". iApply hwp_ret.
  unfold removed. by iFrame.
Qed.

Lemma rbt_remove_spec tree p v a b : whole tree (a ++ (p, v) :: b) ⊢ hwp (rbt_remove tree p) (removed tree p v (a ++ b)).
Proof.
  iIntros "(%t & Htr & Ht & %Hrb & %He)". destruct (plug_at _ _ _ _ _ He) as (k & c & l & r & -> & Hx).
  specialize (Hx []). cbn in Hx. destruct (plug_rb_inv _ _ Hrb) as (b0 & n & c0 & Hk & Hn).
  iDestruct (plug_open with "Htr Ht") as "[Hk Ht]". cbn [ptr]. unfold rbt_remove.
  iDestruct (tree_at_node (cpar k) L c l p v r with "Ht") as "(%Hp & Hp & Hl & Hr)".
  iApply hwp_bind. iApply (hwp_child with "Hp"). iIntros "Hp". iApply hwp_bind. iApply (hwp_child with "Hp"). iIntros "Hp".
  cbn [mk child left right].
  iAssert (⌜(ptr l = 0 <-> l = E) /\ (ptr r = 0 <-> r = E)⌝)%I as %[Zl Zr].
  { iSplit; [destruct l; [done|iDestruct "Hl" as "([% _] & _)"]|destruct r; [done|iDestruct "Hr" as "([% _] & _)"]]; by iPureIntro. }
  iAssert (tree_at (cpar k) (T c l p v r)) with "[Hp Hl Hr]" as "Ht"; [by iFrame|]. iApply hwp_bind.
  destruct (Z.eqb_spec (ptr l) 0) as [->%Zl|Hl]; [|destruct (Z.eqb_spec (ptr r) 0) as [->%Zr|Hr]].
  - iApply (remove_no_left_spec with "Hk Ht"). iIntros (n1 Hn1) "Hk Hr Hp". iApply (remove_finish with "[Hk Hr] Hp"); [done|].
    rewrite (rb_only_right _ _ _ _ _ _ Hn) -Hx. by iApply (after_unlink with "Hk Hr").
  - iApply (remove_no_right_spec with "Hk Ht"); [by intros ->|]. iIntros (n1 Hn1) "Hk Hl Hp".
    iApply (remove_finish _ _ _ _ _ 0 with "[Hk Hl] Hp"); [done|]. iApply hwp_ret. rewrite -(ptr_paint c l).
    iApply (whole_plug with "Hk Hl"); [|by rewrite elems_paint -Hx app_nil_r].
    eapply plug_rb; [exact Hk|]. left. apply (rb_only_left _ _ _ _ _ _ Hn). by intros ->.
  - iApply (remove_two_spec with "Hk Ht"); [by intros ->|by intros ->|].
    iIntros (n1 ks cs sp sv sr Hn1) "(%Er & %Hle) Hk Hsr Hp". iApply (remove_finish with "[Hk Hsr] Hp"); [done|].
    rewrite Er in Hrb. change (T c l p v (plug ks (T cs E sp sv sr))) with (plug [MkFrame R c p v l] (plug ks (T cs E sp sv sr))) in Hrb.
    rewrite -!plug_app in Hrb. destruct (plug_rb_inv _ _ Hrb) as (b1 & m & c1 & Hk1 & Hm).
    iPoseProof (after_unlink tree _ _ _ _ _ _ _ _ _ (ctx_rb_relabel _ _ _ _ _ _ _ sp sv _ _ Hk1) Hm eq_refl with "Hk Hsr") as "H".
    assert (around (ks ++ MkFrame R c sp sv l :: k) (elems sr) = a ++ b) as ->; [|done].
    rewrite -Hx Er elems_plug around_app. cbn [around elems app].
    rewrite (left_edge_around ks [(sp, sv)]) //. by rewrite /around1 /= -app_assoc.
Qed.

End Remove.
