(* ===== verification/RbtreeTraverse.v ===== *)
(** * RbtreeTraverse: lookup, traversal and destruction

    Reading operations keep the tree.  The order of a traversal is a side:
    [R] is ascending, [L] descending. *)

From Stdlib Require Import ZArith Lia.
From stdpp Require Import base gmap list.
From iris.proofmode Require Import proofmode.
From S2P Require Import Prelude HeapLogic Rbtree RbtreeTree RbtreeRep RbtreeInsert.

Open Scope Z_scope.

Section Traverse.
Context {V : Type} `{!TreeField V}.
Implicit Types (tree : header V) (t s u l r : tree V) (k ks : list (frame V)) (d : side) (c : color_e) (v w : V) (a b xs : list (Z * V)).
Abbreviation prop := (heapProp (cell V)).

(** A tree with its header. *)
Definition rep (tree : header V) t : prop := (tree ↦ with_root (ptr t) (hcell tree) ∗ tree_at 0 t)%I.

Definition first xs : Z := match xs with [] => 0 | (p, _) :: _ => p end.

(** ** The order of a traversal *)

Definition order d t : list (Z * V) := match d with R => elems t | L => rev (elems t) end.
Fixpoint after d k : list (Z * V) :=
  match k with
  | [] => []
  | f :: k => if decide (fd f = d) then after d k else (fp f, fv f) :: order d (fs f) ++ after d k
  end.
Fixpoint before d k : list (Z * V) :=
  match k with
  | [] => []
  | f :: k => before d k ++ if decide (fd f = d) then order d (fs f) ++ [(fp f, fv f)] else []
  end.

Lemma order_node d c x p v y : order d (node (opp d) c x p v y) = order d x ++ (p, v) :: order d y.
Proof. destruct d; cbn; [|done]. rewrite rev_app_distr /=. by rewrite -app_assoc. Qed.

Lemma order_plug d k t : order d (plug k t) = before d k ++ order d t ++ after d k.
Proof.
  revert t. induction k as [|f k IH]; intros t; cbn; [by rewrite app_nil_r|]. rewrite IH. unfold plug1.
  destruct (decide (fd f = d)) as [->|Hd].
  - rewrite -node_opp order_node. by rewrite -!app_assoc.
  - assert (fd f = opp d) as -> by (by destruct (fd f), d). rewrite order_node. by rewrite app_nil_r -!app_assoc.
Qed.

Lemma order_length d t : length (order d t) = length (elems t).
Proof. destruct d; cbn; [apply length_rev|done]. Qed.

Lemma order_nil d t : order d t = [] -> t = E.
Proof. intros H%(f_equal length). rewrite order_length in H. destruct t; [done|]. cbn in H. rewrite length_app in H. cbn in H. lia. Qed.

(** A node of the order, as a position. *)
Lemma order_at d t a p v b :
  order d t = a ++ (p, v) :: b ->
  exists k c x y, t = plug k (node (opp d) c x p v y) /\ b = order d y ++ after d k.
Proof.
  revert a b. induction t as [|c l IHl q w r IHr]; intros a b E; [by destruct d, a|].
  rewrite -/(node L c l q w r) in E. set (x := match d with R => l | L => r end). set (y := match d with R => r | L => l end).
  assert (T c l q w r = node (opp d) c x q w y) as Et by (by destruct d). rewrite Et.
  change (node L c l q w r) with (T c l q w r) in E. rewrite Et order_node in E.
  assert (forall a' b', order d x = a' ++ (p, v) :: b' -> exists k c' x' y', x = plug k (node (opp d) c' x' p v y') /\ b' = order d y' ++ after d k) as IHx
    by (subst x; by destruct d).
  assert (forall a' b', order d y = a' ++ (p, v) :: b' -> exists k c' x' y', y = plug k (node (opp d) c' x' p v y') /\ b' = order d y' ++ after d k) as IHy
    by (subst y; by destruct d).
  clearbody x y. clear Et IHl IHr. destruct (split_three _ _ _ _ _ _ (eq_sym E)) as [(b' & Ex & ->)|[([= -> ->] & -> & ->)|(a' & -> & Ey)]].
  - destruct (IHx _ _ Ex) as (k & c' & x' & y' & -> & ->). exists (k ++ [MkFrame (opp d) c q w y]), c', x', y'.
    split; [by rewrite plug_app|]. rewrite -app_assoc. f_equal. clear. induction k as [|f k IH]; cbn.
    + rewrite decide_False; [by rewrite app_nil_r|by destruct d].
    + destruct (decide _); [done|]. by rewrite -IH /= -app_assoc.
  - exists [], c, x, y. split; [done|]. by rewrite app_nil_r.
  - destruct (IHy _ _ Ey) as (k & c' & x' & y' & -> & ->). exists (k ++ [MkFrame d c q w x]), c', x', y'.
    split; [by rewrite plug_app node_opp|]. f_equal. clear. induction k as [|f k IH]; cbn.
    + by rewrite decide_True.
    + destruct (decide _); [done|]. by rewrite IH.
Qed.

(** ** Going to the end of a subtree and up again *)

Lemma tree_at_opp par d c x p v y :
  tree_at par (node (opp d) c x p v y) ⊣⊢
    ⌜node_ptr p⌝ ∗ p ↦ Node (mk d (ptr y) (ptr x) (pack par c) v) ∗ tree_at p x ∗ tree_at p y.
Proof. by rewrite tree_at_node mk_opp. Qed.

Lemma tree_at_0 par t : tree_at par t ⊢ ⌜ptr t = 0 <-> t = E⌝.
Proof. destruct t; [by iIntros "_"|]. iIntros "([% _] & _)". by iPureIntro. Qed.

Lemma order_first d c x p v y : first (order d (node (opp d) c x p v y)) = match x with E => p | _ => first (order d x) end.
Proof.
  rewrite order_node. destruct (order d x) as [|[]] eqn:Ex; [by rewrite (order_nil _ _ Ex)|]. by destruct x; [destruct d|].
Qed.

Lemma extreme_loop_spec d fuel (Φ : Z -> prop) : forall par t,
  t <> E -> (length (elems t) < fuel)%nat ->
  tree_at par t ⊢ (tree_at par t -∗ Φ (first (order d t))) -∗ hwp (extreme_loop fuel (opp d) (ptr t)) Φ.
Proof.
  induction fuel as [|fuel IH]; [lia|]. intros par t Hne Hf.
  destruct (node_view (opp d) t) as [->|(c & x & p & v & y & ->)]; [done|].
  rewrite -(order_length d) order_node length_app order_length in Hf. cbn in Hf. rewrite order_first ptr_node.
  iIntros "Ht HΦ". iDestruct (tree_at_opp with "Ht") as "(%Hp & Hp & Hx & Hy)". cbn [extreme_loop].
  iApply hwp_bind. iApply (hwp_child_opp with "Hp"). iIntros "Hp". iDestruct (tree_at_0 with "Hx") as %Hx0.
  destruct (Z.eqb_spec (ptr x) 0) as [->%Hx0|Hx].
  - iApply hwp_ret. iApply "HΦ". rewrite tree_at_opp. by iFrame.
  - iApply (IH with "Hx"); [by intros ->|lia|]. iIntros "Hx". destruct x; [done|]. iApply "HΦ". rewrite tree_at_opp. by iFrame.
Qed.

Lemma climb_loop_spec d tree fuel (Φ : Z -> prop) : forall k t,
  t <> E -> (length k < fuel)%nat ->
  ctx_at tree k (ptr t) ⊢ tree_at (cpar k) t -∗
    (ctx_at tree k (ptr t) -∗ tree_at (cpar k) t -∗ Φ (first (after d k))) -∗
    hwp (climb_loop fuel d (ptr t) (cpar k)) Φ.
Proof.
  induction fuel as [|fuel IH]; [lia|]. intros k t Hne Hf. destruct k as [|f k]; cbn [climb_loop cpar length] in *.
  - iIntros "Hk Ht HΦ". iApply hwp_ret. iApply ("HΦ" with "Hk Ht").
  - destruct f as [d' c p v s]. rewrite ctx_at_cons. iIntros "(%Hp & Hp & Hs & Hk) Ht HΦ". cbn [fp]. destruct (Z.eqb_spec p 0); [by destruct Hp|].
    iAssert (⌜ptr s <> ptr t⌝)%I as %Hst.
    { destruct t as [|ct lt pt vt rt]; [done|]. iDestruct "Ht" as "(%Hpt & Hpt & _)".
      iApply (tree_at_ne with "Hs Hpt"). apply Hpt. }
    iDestruct (cpar_word with "Hk") as %Hpar. iApply hwp_bind. cbn [after fd fp fv fs]. destruct (decide (d' = d)) as [->|Hd].
    + iApply (hwp_child_mk with "Hp"). iIntros "Hp". rewrite Z.eqb_refl. iApply hwp_bind.
      iApply (hwp_parent with "Hp"); [exact Hpar|apply packed_mk|]. iIntros "Hp".
      pose proof (IH k (plug1 (MkFrame d c p v s) t)) as IHk. rewrite /plug1 /= ptr_node tree_at_node in IHk.
      iApply (IHk with "Hk [Hp Ht Hs]"); [by destruct d|lia|by iFrame|].
      iIntros "Hk (_ & Hp & Ht & Hs)". iApply ("HΦ" with "[Hk Hp Hs] Ht"). by iFrame.
    + assert (d = opp d') as -> by (by destruct d, d'). iApply (hwp_child_opp with "Hp"). iIntros "Hp".
      destruct (Z.eqb_spec (ptr t) (ptr s)); [by destruct Hst|]. iApply hwp_ret. iApply ("HΦ" with "[Hk Hp Hs] Ht"). by iFrame.
Qed.

Lemma neighbour_spec d tree t a p v b (Φ : Z -> prop) :
  order d t = a ++ (p, v) :: b ->
  rep tree t ⊢ (rep tree t -∗ Φ (first b)) -∗ hwp (inorder_neighbour d p) Φ.
Proof.
  intros (k & c & x & y & -> & ->)%order_at. iIntros "[Htr Ht] HΦ".
  iDestruct (plug_open with "Htr Ht") as "[Hk Ht]". rewrite ptr_node. unfold inorder_neighbour.
  iApply hwp_bind. iApply (hwp_fuel (length k + length (elems y)) (ctx_at tree k p ∗ tree_at (cpar k) (node (opp d) c x p v y))%I with "[$Hk $Ht]").
  { apply needs_sep; [apply needs_ctx|]. eapply needs_mono; [|apply needs_tree].
    rewrite -!(order_length d) order_node length_app /=. lia. }
  iIntros (fuel Hf) "[Hk Ht]". iDestruct (tree_at_opp with "Ht") as "(%Hp & Hp & Hx & Hy)".
  iDestruct (cpar_word with "Hk") as %Hpar.
  iApply hwp_bind. iApply (hwp_child_mk with "Hp"). iIntros "Hp". iDestruct (tree_at_0 with "Hy") as %Hy0.
  iAssert (ctx_at tree k p -∗ p ↦ Node (mk d (ptr y) (ptr x) (pack (cpar k) c) v) -∗ tree_at p x -∗ tree_at p y -∗
    Φ (first (order d y ++ after d k)))%I with "[HΦ]" as "HΦ".
  { iIntros "Hk Hp Hx Hy". iApply "HΦ". iApply (plug_close with "[Hk] [Hp Hx Hy]"); [by rewrite ptr_node|].
    rewrite tree_at_opp. by iFrame. }
  destruct (Z.eqb_spec (ptr y) 0) as [->%Hy0|Hy]; cbn [negb].
  - iApply hwp_bind. iApply (hwp_parent with "Hp"); [exact Hpar|apply packed_mk|]. iIntros "Hp".
    pose proof (climb_loop_spec d tree fuel Φ k (node (opp d) c x p v E)) as Hc. rewrite ptr_node tree_at_opp in Hc.
    iApply (Hc with "Hk [Hp Hx]"); [by destruct d|lia|by iFrame|]. iIntros "Hk (_ & Hp & Hx & HE)".
    iSpecialize ("HΦ" with "Hk Hp Hx HE"). by destruct d.
  - iApply (extreme_loop_spec with "Hy"); [by intros ->|lia|]. iIntros "Hy". iSpecialize ("HΦ" with "Hk Hp Hx Hy").
    destruct (order d y) as [|[]] eqn:Ey; [|done]. apply order_nil in Ey. by rewrite Ey in Hy.
Qed.

(** ** Visiting *)

Fixpoint visit_all {X} (visit : Z -> V -> X -> bool * X) xs (ctx : X) : X :=
  match xs with
  | [] => ctx
  | (p, v) :: xs => let '(go_on, ctx) := visit p v ctx in if go_on : bool then visit_all visit xs ctx else ctx
  end.

Lemma for_each_loop_spec {X} d (visit : Z -> V -> X -> bool * X) tree t b (Φ : X -> prop) fuel : forall a ctx,
  order d t = a ++ b -> (length b < fuel)%nat ->
  rep tree t ⊢ (rep tree t -∗ Φ (visit_all visit b ctx)) -∗
    hwp (for_each_loop fuel (inorder_neighbour d) visit (first b) ctx) Φ.
Proof.
  revert fuel. induction b as [|[p v] b IH]; intros fuel a ctx Ho Hf; (destruct fuel as [|fuel]; [lia|]); cbn [for_each_loop first length] in *.
  - iIntros "Ht HΦ". iApply hwp_ret. by iApply "HΦ".
  - iIntros "[Htr Ht] HΦ". destruct (order_at _ _ _ _ _ _ Ho) as (k & c & x & y & Et & Eb).
    iAssert (∃ n, ⌜data n = v /\ p <> 0⌝ ∗ p ↦ Node n ∗ (p ↦ Node n -∗ rep tree t))%I with "[Htr Ht]" as (n) "((%Hn & %Hp) & Hp & Hback)".
    { rewrite Et. iDestruct (plug_open with "Htr Ht") as "[Hk Ht]". rewrite ptr_node.
      iDestruct (tree_at_opp with "Ht") as "(%Hp & Hp & Hx & Hy)". iExists _. iFrame "Hp".
      iSplit; [iPureIntro; split; [apply data_mk|apply Hp]|]. iIntros "Hp". iApply (plug_close with "[Hk] [Hp Hx Hy]"); [by rewrite ptr_node|].
      rewrite tree_at_opp. by iFrame. }
    destruct (Z.eqb_spec p 0); [done|]. iApply hwp_bind. iApply (hwp_get_node with "Hp"). iIntros "Hp".
    iDestruct ("Hback" with "Hp") as "Ht". rewrite Hn. cbn [visit_all]. destruct (visit p v ctx) as [[] ctx'].
    + iApply hwp_bind. iApply (neighbour_spec with "Ht"); [exact Ho|]. iIntros "Ht".
      iApply (IH with "Ht HΦ"); [by rewrite Ho cons_middle app_assoc|lia].
    + iApply hwp_ret. by iApply "HΦ".
Qed.

Definition rbt_extreme d (tree : Z) : M (gmap Z (cell V)) Z :=
  let* node := get_root tree in
  let* fuel := gets rb_fuel in
  if node =? 0 then ret node else extreme_loop fuel (opp d) node.

Lemma extreme_spec d tree t (Φ : Z -> prop) :
  rep tree t ⊢ (rep tree t -∗ Φ (first (order d t))) -∗ hwp (rbt_extreme d tree) Φ.
Proof.
  iIntros "[Htr Ht] HΦ". unfold rbt_extreme. iApply hwp_bind. iApply (hwp_get_root with "Htr"). iIntros "Htr".
  iApply hwp_bind. iApply (hwp_fuel _ _ _ (needs_tree 0 t) with "Ht"). iIntros (fuel Hf) "Ht".
  iDestruct (tree_at_0 with "Ht") as %H0. destruct (Z.eqb_spec (ptr t) 0) as [->%H0|Hne].
  - iApply hwp_ret. iSpecialize ("HΦ" with "[$Htr $Ht]"). by destruct d.
  - iApply (extreme_loop_spec with "Ht"); [by intros ->|done|]. iIntros "Ht". iApply "HΦ". iFrame.
Qed.

(** [rbt_for_each] for [R], [rbt_for_each_rev] for [L] *)
Lemma for_each_spec {X} d (visit : Z -> V -> X -> bool * X) tree t ctx (Φ : X -> prop) :
  rep tree t ⊢ (rep tree t -∗ Φ (visit_all visit (order d t) ctx)) -∗
    hwp (let* node := rbt_extreme d tree in
         let* fuel := gets rb_fuel in
         for_each_loop fuel (inorder_neighbour d) visit node ctx) Φ.
Proof.
  iIntros "Ht HΦ". iApply hwp_bind. iApply (extreme_spec with "Ht"). iIntros "[Htr Ht]".
  iApply hwp_bind. iApply (hwp_fuel _ _ _ (needs_tree 0 t) with "Ht"). iIntros (fuel Hf) "Ht".
  iApply (for_each_loop_spec d visit tree t (order d t) _ fuel [] with "[$Htr $Ht] HΦ"); [done|by rewrite order_length].
Qed.

(** ** Lookup *)

Fixpoint tree_find (cond : V -> Z) t : Z * option Z :=
  match t with
  | E => (RBT_FIND_NOT_FOUND, None)
  | T _ l p v r =>
      if cond v =? RBT_EQUALS then (RBT_FIND_OK, Some p)
      else if cond v =? RBT_LESS_THAN then tree_find cond l
      else if cond v =? RBT_GREATER_THAN then tree_find cond r
      else (cond v, Some p)
  end.

Lemma find_loop_spec cond t (Φ : Z * option Z -> prop) : forall par fuel, (depth t < fuel)%nat ->
  tree_at par t ⊢ (tree_at par t -∗ Φ (tree_find cond t)) -∗ hwp (find_loop fuel cond (ptr t)) Φ.
Proof.
  induction t as [|c l IHl p v r IHr]; intros par fuel Hf; (destruct fuel as [|fuel]; [lia|]); cbn [find_loop ptr].
  - iIntros "Ht HΦ". iApply hwp_ret. by iApply "HΦ".
  - cbn [depth] in Hf. iIntros "(%Hp & Hp & Hl & Hr) HΦ". destruct (Z.eqb_spec p 0); [by destruct Hp|].
    iApply hwp_bind. iApply (hwp_get_node with "Hp"). iIntros "Hp". cbn [data left right tree_find].
    destruct (cond v =? RBT_EQUALS); [|destruct (cond v =? RBT_LESS_THAN); [|destruct (cond v =? RBT_GREATER_THAN)]].
    + iApply hwp_ret. iApply "HΦ". by iFrame.
    + iApply (IHl with "Hl"); [lia|]. iIntros "Hl". iApply "HΦ". by iFrame.
    + iApply (IHr with "Hr"); [lia|]. iIntros "Hr". iApply "HΦ". by iFrame.
    + iApply hwp_ret. iApply "HΦ". by iFrame.
Qed.

(** The comparison that a lookup by key makes. *)
Definition key_find (view : V -> Z) (key : Z) v : Z :=
  if view v =? key then RBT_EQUALS else if key <? view v then RBT_LESS_THAN else RBT_GREATER_THAN.

Definition found (r : Z * option Z) : Z := default 0 (snd r).

Lemma find_key_loop_spec view key t (Φ : Z -> prop) : forall par fuel, (length (elems t) < fuel)%nat ->
  tree_at par t ⊢ (tree_at par t -∗ Φ (found (tree_find (key_find view key) t))) -∗ hwp (find_key_loop view fuel (ptr t) key) Φ.
Proof.
  induction t as [|c l IHl p v r IHr]; intros par fuel Hf; (destruct fuel as [|fuel]; [lia|]); cbn [find_key_loop ptr].
  - iIntros "Ht HΦ". iApply hwp_ret. by iApply "HΦ".
  - cbn [elems] in Hf. rewrite length_app /= in Hf. iIntros "(%Hp & Hp & Hl & Hr) HΦ". destruct (Z.eqb_spec p 0); [by destruct Hp|].
    iApply hwp_bind. iApply (hwp_get_node with "Hp"). iIntros "Hp". cbn [data left right tree_find]. rewrite negb_involutive.
    unfold key_find at 1 2 3 4. destruct (view v =? key); [|destruct (key <? view v)]; cbn.
    + iApply hwp_ret. iApply "HΦ". by iFrame.
    + iApply (IHl with "Hl"); [lia|]. iIntros "Hl". iApply "HΦ". by iFrame.
    + iApply (IHr with "Hr"); [lia|]. iIntros "Hr". iApply "HΦ". by iFrame.
Qed.

(** [cond] sends the search to the right of [a] and to the left of [b]. *)
Definition cuts (cond : V -> Z) a b : Prop :=
  (forall q w, (q, w) ∈ a -> cond w = RBT_GREATER_THAN) /\ (forall q w, (q, w) ∈ b -> cond w = RBT_LESS_THAN).

Local Ltac here := rewrite ?elem_of_app ?elem_of_cons; tauto.

Lemma cuts_weaken cond a b a' b' : cuts cond a b -> a' ⊆ a -> b' ⊆ b -> cuts cond a' b'.
Proof. intros [Ha Hb] Sa Sb. split; intros q w Hq; [by apply (Ha q), Sa|by apply (Hb q), Sb]. Qed.

Lemma tree_find_hit cond t a p v b :
  elems t = a ++ (p, v) :: b -> cuts cond a b -> cond v <> RBT_LESS_THAN -> cond v <> RBT_GREATER_THAN ->
  tree_find cond t = (if cond v =? RBT_EQUALS then RBT_FIND_OK else cond v, Some p).
Proof.
  intros He Hcut Hl Hg. revert a b He Hcut. induction t as [|c l IHl q w r IHr]; intros a b He Hcut; [by destruct a|]. cbn in He |- *.
  pose proof Hcut as [Ha Hb].
  destruct (split_three _ _ _ _ _ _ (eq_sym He)) as [(b' & El & ->)|[([= -> ->] & -> & ->)|(a' & -> & Er)]].
  - assert (cond w = RBT_LESS_THAN) as -> by (apply (Hb q); here). cbn. apply (IHl a b'); [done|].
    apply (cuts_weaken _ _ _ _ _ Hcut); [done|]. intros z Hz. here.
  - apply Z.eqb_neq in Hl, Hg. rewrite Hl Hg. by destruct (cond w =? RBT_EQUALS).
  - assert (cond w = RBT_GREATER_THAN) as -> by (apply (Ha q); here). cbn. apply (IHr a' b); [done|].
    apply (cuts_weaken _ _ _ _ _ Hcut); [|done]. intros z Hz. here.
Qed.

Lemma tree_find_miss cond t a b :
  elems t = a ++ b -> cuts cond a b -> tree_find cond t = (RBT_FIND_NOT_FOUND, None).
Proof.
  revert a b. induction t as [|c l IHl q w r IHr]; intros a b He Hcut; [done|]. cbn in He |- *. pose proof Hcut as [Ha Hb].
  apply app_eq_inv in He as [(x & Ex & ->)|([|y x] & Ex & Eb)].
  - assert (cond w = RBT_LESS_THAN) as -> by (apply (Hb q); here). cbn. apply (IHl a x); [done|].
    apply (cuts_weaken _ _ _ _ _ Hcut); [done|]. intros z Hz. here.
  - cbn in Eb. assert (cond w = RBT_LESS_THAN) as -> by (apply (Hb q); rewrite -Eb; here). cbn.
    apply (IHl (elems l) []); [by rewrite app_nil_r|]. apply (cuts_weaken _ _ _ _ _ Hcut); [|intros z Hz; by apply elem_of_nil in Hz].
    intros z Hz. rewrite Ex. here.
  - injection Eb as <- Er. assert (cond w = RBT_GREATER_THAN) as -> by (apply (Ha q); rewrite Ex; here). cbn.
    apply (IHr x b); [done|]. apply (cuts_weaken _ _ _ _ _ Hcut); [|done]. intros z Hz. rewrite Ex. here.
Qed.

Lemma rbt_find_spec cond tree t (Φ : Z * option Z -> prop) :
  rep tree t ⊢ (rep tree t -∗ Φ (tree_find cond t)) -∗ hwp (rbt_find tree cond) Φ.
Proof.
  iIntros "[Htr Ht] HΦ". iApply hwp_bind. iApply (hwp_get_root with "Htr"). iIntros "Htr".
  iApply hwp_bind. iApply (hwp_fuel _ _ _ (needs_tree 0 t) with "Ht"). iIntros (fuel Hf) "Ht".
  pose proof (depth_length t). iApply (find_loop_spec with "Ht"); [lia|]. iIntros "Ht". iApply "HΦ". iFrame.
Qed.

Lemma find_key_spec view key tree t (Φ : Z -> prop) :
  rep tree t ⊢ (rep tree t -∗ Φ (found (tree_find (key_find view key) t))) -∗
    hwp (let* node := get_root tree in let* fuel := gets rb_fuel in find_key_loop view fuel node key) Φ.
Proof.
  iIntros "[Htr Ht] HΦ". iApply hwp_bind. iApply (hwp_get_root with "Htr"). iIntros "Htr".
  iApply hwp_bind. iApply (hwp_fuel _ _ _ (needs_tree 0 t) with "Ht"). iIntros (fuel Hf) "Ht".
  iApply (find_key_loop_spec with "Ht"); [done|]. iIntros "Ht". iApply "HΦ". iFrame.
Qed.

End Traverse.
