(* ===== verification/RbtreeDestroy.v ===== *)
(** * RbtreeDestroy: rbt_destroy frees every node once and ends

    The loop walks down to a leaf, unlinks and frees it and goes on with its
    parent, so that the nodes are freed in postorder.  What the free function
    does is described by an assertion [I] about the nodes freed so far. *)

From Stdlib Require Import ZArith Lia.
From stdpp Require Import base gmap list.
From iris.proofmode Require Import proofmode.
From S2P Require Import Prelude HeapLogic Rbtree RbtreeTree RbtreeRep RbtreeTraverse.

Open Scope Z_scope.

Fixpoint postorder {V} (t : tree V) : list (Z * V) :=
  match t with E => [] | T _ l p v r => postorder l ++ postorder r ++ [(p, v)] end.

Lemma postorder_elems {V} (t : tree V) : postorder t ≡ₚ elems t.
Proof.
  induction t as [|c l IHl p v r IHr]; cbn; [done|]. rewrite IHl IHr. f_equiv. by rewrite -Permutation_cons_append.
Qed.

(** Twice the number of nodes. *)
Fixpoint rounds {V} (t : tree V) : nat := match t with E => 0 | T _ l _ _ r => S (S (rounds l + rounds r)) end.

Lemma rounds_elems {V} (t : tree V) : rounds t = (2 * length (elems t))%nat.
Proof. induction t; cbn; [done|]. rewrite length_app /=. lia. Qed.

Section Destroy.
Context {V X : Type} `{!TreeField V} (ok : X -> gset Z -> Prop) `{!Antitone ok}.
Context (free_fn : Z -> M (mst (cell V) X) unit) (I : list (Z * V) -> X -> heapProp (cell V)) (all : list (Z * V)).
Implicit Types (tree : header V) (t l r : tree V) (d : side) (c : color_e) (v : V) (xs gone rest : list (Z * V)).
Abbreviation prop := (heapProp (cell V)).
Abbreviation destroy_loop := (destroy_loop (@on_mem (cell V) X)).
Abbreviation uwp := (uwp ok).

Hypothesis Hfree : forall gone p v rest n x,
  all = gone ++ (p, v) :: rest -> data n = v ->
  I gone x ∗ p ↦ Node n ⊢ uwp (free_fn p) x (fun _ x' => I (gone ++ [(p, v)]) x').

(** The link from the parent [q] to the subtree at [x]; the right subtree is
    walked when the left one is gone. *)
Definition hook (q : Z) d (x y w : Z) v : prop :=
  (if q =? 0 then emp else ⌜word_ptr q /\ (d = L \/ y = 0)⌝ ∗ q ↦ Node (mk d x y w v))%I.

Lemma hwp_unlink_leaf q d x y w v (Φ : unit -> prop) :
  x <> 0 -> hook q d x y w v ⊢ (hook q d 0 y w v -∗ Φ tt) -∗ hwp (unlink_leaf q x) Φ.
Proof.
  intros Hx. unfold hook, unlink_leaf. destruct (Z.eqb_spec q 0) as [|Hq]; cbn [negb]; [iIntros "H HΦ"; iApply hwp_ret; by iApply "HΦ"|].
  iIntros "((%Hw & %Hd) & Hq) HΦ". iApply hwp_bind. iApply (hwp_child with "Hq"). iIntros "Hq".
  assert ((if child L (mk d x y w v) =? x then L else R) = d) as ->.
  { destruct d; cbn; [by rewrite Z.eqb_refl|]. destruct Hd as [[=]| ->]. by destruct (Z.eqb_spec 0 x). }
  iApply (hwp_set_mk with "Hq"). iIntros "Hq". iApply "HΦ". by iFrame.
Qed.

Lemma hook_node p d x y w v : node_ptr p -> (d = L \/ y = 0) -> hook p d x y w v ⊣⊢ p ↦ Node (mk d x y w v).
Proof.
  intros [Hp Hw] Hd. unfold hook. destruct (Z.eqb_spec p 0); [done|]. iSplit; [by iIntros "[_ $]"|by iIntros "$"].
Qed.

(** A leaf. *)
Lemma destroy_leaf c p v q d y w u gone rest x fuel (Φ : unit -> X -> prop) :
  word_ptr q -> all = gone ++ (p, v) :: rest ->
  tree_at q (T c E p v E) ⊢ hook q d p y w u -∗ I gone x -∗
    (∀ x', hook q d 0 y w u -∗ I (gone ++ [(p, v)]) x' -∗ uwp (destroy_loop fuel free_fn q) x' Φ) -∗
    uwp (destroy_loop (S fuel) free_fn p) x Φ.
Proof.
  intros Hq Hall. iIntros "(%Hp & Hp & _) Hh HI HΦ". cbn [Rbtree.destroy_loop]. destruct (Z.eqb_spec p 0); [by destruct Hp|].
  iApply uwp_bind. iApply uwp_mem. iApply (hwp_get_node with "Hp"). iIntros "Hp". cbn [left right data ptr Z.eqb negb].
  rewrite (get_parent_pack _ q c) //. iApply uwp_bind. iApply uwp_mem. iApply (hwp_unlink_leaf with "Hh"); [done|]. iIntros "Hh".
  iApply uwp_bind. iApply (uwp_wand with "[HI Hp]"); [by iApply (Hfree with "[$HI $Hp]")|]. iIntros ([] x') "HI".
  iApply ("HΦ" with "Hh HI").
Qed.

(** Down to a child. *)
Lemma destroy_down q c l r p v fuel x d (Φ : unit -> X -> prop) :
  (d = L \/ l = E) -> match d with L => l | R => r end <> E ->
  tree_at q (T c l p v r) ⊢
    (p ↦ Node (MkRb (ptr l) (ptr r) (pack q c) v) -∗ tree_at p l -∗ tree_at p r -∗
       uwp (destroy_loop fuel free_fn (ptr (match d with L => l | R => r end))) x Φ) -∗
    uwp (destroy_loop (S fuel) free_fn p) x Φ.
Proof.
  intros Hd Hne. iIntros "Ht HΦ". iDestruct (tree_at_node q L c l p v r with "Ht") as "(%Hp & Hp & Hl & Hr)".
  iDestruct (tree_at_0 with "Hl") as %H0l. iDestruct (tree_at_0 with "Hr") as %H0r. cbn [Rbtree.destroy_loop].
  destruct (Z.eqb_spec p 0); [by destruct Hp|]. iApply uwp_bind. iApply uwp_mem. iApply (hwp_get_node with "Hp"). iIntros "Hp". cbn [mk left right].
  destruct d; [destruct (Z.eqb_spec (ptr l) 0) as [?%H0l|]; [done|]|destruct Hd as [[=]| ->]; cbn [ptr Z.eqb negb];
    destruct (Z.eqb_spec (ptr r) 0) as [?%H0r|]; [done|]]; cbn [negb]; iApply ("HΦ" with "Hp Hl Hr").
Qed.

(** The whole of a subtree: one round down the link to it and one for its
    root, [rounds t - 1] in all from its root on. *)
Definition destroys t : Prop :=
  forall q d (y w : Z) (u : V) gone rest (x : X) (fuel : nat) (Φ : unit -> X -> prop),
  t <> E -> word_ptr q -> all = gone ++ postorder t ++ rest ->
  tree_at q t ⊢ hook q d (ptr t) y w u -∗ I gone x -∗
    (∀ x', hook q d 0 y w u -∗ I (gone ++ postorder t) x' -∗ uwp (destroy_loop fuel free_fn q) x' Φ) -∗
    uwp (destroy_loop (pred (rounds t) + fuel) free_fn (ptr t)) x Φ.

(** When the left subtree is gone. *)
Lemma destroy_right c p v r q d y w u gone rest x fuel (Φ : unit -> X -> prop) :
  destroys r -> word_ptr q -> all = gone ++ postorder r ++ (p, v) :: rest ->
  tree_at q (T c E p v r) ⊢ hook q d p y w u -∗ I gone x -∗
    (∀ x', hook q d 0 y w u -∗ I (gone ++ postorder r ++ [(p, v)]) x' -∗ uwp (destroy_loop fuel free_fn q) x' Φ) -∗
    uwp (destroy_loop (S (rounds r + fuel)) free_fn p) x Φ.
Proof.
  intros IHr Hq Hall. iIntros "Ht Hh HI HΦ". iAssert (⌜node_ptr p⌝)%I as %Hp; [by iDestruct "Ht" as "($ & _)"|].
  destruct r as [|cr rl rp rv rr]; [iApply (destroy_leaf with "Ht Hh HI HΦ"); [exact Hq|exact Hall]|].
  iApply (destroy_down q c E (T cr rl rp rv rr) p v (rounds (T cr rl rp rv rr) + fuel) _ R with "Ht"); [by right|done|]. iIntros "Hp _ Hr".
  change (rounds (T cr rl rp rv rr) + fuel)%nat with (S (pred (rounds (T cr rl rp rv rr)) + fuel)). rewrite plus_n_Sm.
  iApply (IHr p R 0 (pack q c) v with "Hr [Hp] HI"); [done|apply Hp|exact Hall|rewrite (hook_node p); [done|done|by right]|].
  iIntros (x') "Hp HI". rewrite (hook_node p); [|done|by right].
  iApply (destroy_leaf c p v q d y w u with "[Hp] Hh HI [HΦ]"); [done|by rewrite Hall app_assoc|by iFrame|].
  iIntros (x2) "Hh HI". iApply ("HΦ" with "Hh"). by rewrite app_assoc.
Qed.

Lemma destroy_subtree t : destroys t.
Proof.
  induction t as [|c l IHl p v r IHr]; intros q d y w u gone rest x fuel Φ Hne Hq Hall; [done|]. cbn [postorder rounds pred ptr].
  cbn [postorder] in Hall. rewrite -!app_assoc in Hall. iIntros "Ht Hh HI HΦ".
  iAssert (⌜node_ptr p⌝)%I as %Hp; [by iDestruct "Ht" as "($ & _)"|].
  destruct l as [|cl ll lp lv lr]; [iApply (destroy_right with "Ht Hh HI HΦ"); [exact IHr|exact Hq|exact Hall]|].
  iApply (destroy_down q c (T cl ll lp lv lr) r p v (rounds (T cl ll lp lv lr) + rounds r + fuel) _ L with "Ht"); [by left|done|]. iIntros "Hp Hl Hr".
  assert (rounds (T cl ll lp lv lr) + rounds r + fuel = pred (rounds (T cl ll lp lv lr)) + S (rounds r + fuel))%nat as -> by (cbn; lia).
  iApply (IHl p L (ptr r) (pack q c) v with "Hl [Hp] HI"); [done|apply Hp|exact Hall|rewrite (hook_node p); [done|done|by left]|].
  iIntros (x') "Hp HI". rewrite (hook_node p); [|done|by left].
  iApply (destroy_right c p v r q d y w u with "[Hp Hr] Hh HI [HΦ]"); [done|done|by rewrite Hall app_assoc|by iFrame|].
  iIntros (x2) "Hh HI". iApply ("HΦ" with "Hh"). by rewrite -app_assoc.
Qed.

Lemma rbt_destroy_spec tree t x :
  haddr tree <> 0 -> all = postorder t ->
  rep tree t ∗ I [] x ⊢ uwp (rbt_destroy (@on_mem (cell V) X) tree (Some free_fn)) x (fun _ x' => I all x' ∗ rep tree E)%I.
Proof.
  intros Htree Hall. iIntros "[[Htr Ht] HI]". unfold rbt_destroy. destruct (Z.eqb_spec (haddr tree) 0); [done|].
  iApply uwp_bind. iApply uwp_mem. iApply (hwp_get_root with "Htr"). iIntros "Htr". iDestruct (tree_at_0 with "Ht") as %H0.
  destruct (Z.eqb_spec (ptr t) 0) as [->%H0|Hne].
  - iApply uwp_ret. rewrite Hall. by iFrame.
  - iApply uwp_bind. iApply uwp_mem. iApply (hwp_fuel _ _ _ (needs_tree 0 t) with "Ht"). iIntros (fuel Hf) "Ht". iApply uwp_bind.
    pose proof (rounds_elems t) as Hr. assert (exists v : V, t <> E) as [v HtE] by (destruct t as [|? ? ? v]; [done|by exists v]).
    replace (2 * fuel)%nat with (pred (rounds t) + S (2 * fuel - rounds t))%nat by (destruct t; [done|cbn in *; lia]).
    iApply (destroy_subtree t 0 L 0 0 v [] [] with "Ht [] HI"); [done|apply word_ptr_0|by rewrite app_nil_r|done|].
    iIntros (x') "_ HI". cbn [Rbtree.destroy_loop Z.eqb app]. iApply uwp_ret. iApply uwp_mem. iApply (hwp_set_root with "Htr"). iIntros "Htr".
    rewrite Hall. by iFrame.
Qed.

End Destroy.
