(* ===== verification/RbtreeKeys.v ===== *)
(** * RbtreeKeys: memories of trees, trees ordered by a key, the height

    What the theorems about the red-black tree are stated with: programs that
    run in a part of the memory, lists of nodes sorted by a key, and the
    logarithmic bound on the height. *)

From Stdlib Require Import ZArith Lia Sorted.
From stdpp Require Import base gmap list.
From iris.proofmode Require Import proofmode.
From S2P Require Import Prelude HeapLogic Rbtree RbtreeTree RbtreeRep RbtreeInsert RbtreeErase RbtreeRemove RbtreeTraverse RbtreeDestroy.

Open Scope Z_scope.

(** ** Running in a part of the memory *)

Definition runs {C A} (e : M (gmap Z C) A) (m f : gmap Z C) (Q : A -> gmap Z C -> Prop) : Prop :=
  exists a m', e (m ∪ f) = Ok (a, m' ∪ f) /\ m' ##ₘ f /\ dom m' ⊆ dom m /\ Q a m'.

Lemma runs_hwp {C A} (e : M (gmap Z C) A) P (Φ : A -> heapProp C) m f :
  (P ⊢ hwp e Φ) -> m ##ₘ f -> holds P m -> runs e m f (fun a m' => holds (Φ a) m').
Proof. intros [H] Hd HP. exact (H m HP f Hd). Qed.

Lemma runs_mono {C A} (e : M (gmap Z C) A) m f (Q Q' : A -> gmap Z C -> Prop) :
  (forall a m', Q a m' -> Q' a m') -> runs e m f Q -> runs e m f Q'.
Proof. intros HQ (a & m' & E & Hd & Hs & H). exists a, m'. auto. Qed.

Lemma holds_pure_sep {C} (φ : Prop) (P : heapProp C) m : holds (⌜φ⌝ ∗ P)%I m -> φ /\ holds P m.
Proof.
  intros (m1 & m2 & -> & Hd & H1 & H2). split; [exact H1|]. eapply holds_mono; [exact H2|]. by apply map_union_subseteq_r.
Qed.

Lemma holds_sep_pure {C} (φ : Prop) (P : heapProp C) m : holds (P ∗ ⌜φ⌝)%I m -> holds P m /\ φ.
Proof.
  intros (m1 & m2 & -> & Hd & H1 & H2). split; [|exact H2]. eapply holds_mono; [exact H1|]. by apply map_union_subseteq_l.
Qed.

(** A result with a pure fact about it. *)
Lemma runs_pure {C A} (e : M (gmap Z C) A) P (φ : A -> Prop) (Φ : A -> heapProp C) m f :
  (P ⊢ hwp e (fun a => ⌜φ a⌝ ∗ Φ a)%I) -> m ##ₘ f -> holds P m -> runs e m f (fun a m' => φ a /\ holds (Φ a) m').
Proof. intros H Hd HP. eapply runs_mono; [|exact (runs_hwp _ _ _ _ _ H Hd HP)]. intros a m'. apply holds_pure_sep. Qed.

(** [ordered tree xs m]: [m] has a red-black tree with the nodes [xs] in order. *)
Definition ordered {V} `{!TreeField V} (tree : header V) (xs : list (Z * V)) (m : gmap Z (cell V)) : Prop := holds (whole tree xs) m.

(** The same and a node [n] at [p] apart from it. *)
Definition ordered_and {V} `{!TreeField V} (tree : header V) (xs : list (Z * V)) (p : Z) (n : rbtnode V) (m : gmap Z (cell V)) : Prop :=
  holds (whole tree xs ∗ p ↦ Node n)%I m.

(** ** Memories of trees *)

Section Cells.
Context {V : Type} `{!TreeField V}.
Implicit Types (t : tree V) (par : Z) (tree : header V).

Fixpoint cells par t : list (Z * cell V) :=
  match t with
  | E => []
  | T c l p v r => (p, Node (MkRb (ptr l) (ptr r) (pack par c) v)) :: cells p l ++ cells p r
  end.

Lemma list_to_map_sep (l1 l2 : list (Z * cell V)) (P Q : heapProp (cell V)) :
  NoDup (l1 ++ l2).*1 -> holds P (list_to_map l1) -> holds Q (list_to_map l2) -> holds (P ∗ Q)%I (list_to_map (l1 ++ l2)).
Proof.
  intros Hn HP HQ. exists (list_to_map l1), (list_to_map l2). split; [apply list_to_map_app|]. split; [|done].
  rewrite fmap_app in Hn. apply NoDup_app in Hn as (_ & Hd & _). apply map_disjoint_list_to_map_l. apply Forall_forall.
  intros [p c] Hp. apply not_elem_of_list_to_map. apply Hd. exact (list_elem_of_fmap_2 fst _ _ Hp).
Qed.

Lemma holds_cell (p : Z) (c : cell V) : holds (p ↦ c)%I (list_to_map [(p, c)]).
Proof. cbn. apply lookup_insert_eq. Qed.

Lemma holds_tree_at par t :
  NoDup (cells par t).*1 -> Forall node_ptr (cells par t).*1 -> holds (tree_at par t) (list_to_map (cells par t)).
Proof.
  revert par. induction t as [|c l IHl p v r IHr]; intros par Hn Hp; [done|].
  cbn [cells tree_at] in *. rewrite fmap_cons fmap_app in Hn, Hp. apply Forall_cons in Hp as [Hp Hlr]. apply Forall_app in Hlr as [Hpl Hpr].
  exists ∅, (list_to_map ((p, Node (MkRb (ptr l) (ptr r) (pack par c) v)) :: cells p l ++ cells p r)).
  split; [by rewrite map_empty_union|]. split; [apply map_disjoint_empty_l|]. split; [exact Hp|].
  pose proof Hn as Hn'. apply NoDup_cons in Hn as [_ Hlr]. pose proof Hlr as (Hl & _ & Hr)%NoDup_app.
  apply (list_to_map_sep [_]); [by rewrite fmap_cons fmap_app|apply holds_cell|].
  apply list_to_map_sep; [by rewrite fmap_app|by apply IHl|by apply IHr].
Qed.

Lemma holds_whole tree t :
  NoDup (haddr tree :: (cells 0 t).*1) -> Forall node_ptr (cells 0 t).*1 -> rbtree t ->
  ordered tree (elems t) (list_to_map ((haddr tree, with_root (ptr t) (hcell tree)) :: cells 0 t)).
Proof.
  intros Hn Hp Hrb. exists t. rewrite -(app_nil_r (cells 0 t)).
  apply (list_to_map_sep [_] (cells 0 t ++ [])); [by rewrite app_nil_r|apply holds_cell|].
  apply list_to_map_sep; [apply NoDup_cons in Hn as [_ Hn]; by rewrite app_nil_r|apply NoDup_cons in Hn as [_ Hn]; by apply holds_tree_at|].
  exists ∅, ∅. split; [done|]. split; [apply map_disjoint_empty_l|done].
Qed.

Lemma holds_and tree t p n :
  NoDup (p :: haddr tree :: (cells 0 t).*1) -> Forall node_ptr (cells 0 t).*1 -> rbtree t ->
  ordered_and tree (elems t) p n (list_to_map (((haddr tree, with_root (ptr t) (hcell tree)) :: cells 0 t) ++ [(p, Node n)])).
Proof.
  intros Hn Hp Hrb. pose proof Hn as (Hn1 & Hn2)%NoDup_cons. apply list_to_map_sep; [|by apply holds_whole|apply holds_cell].
  rewrite fmap_app. cbn [fmap list_fmap fst]. by rewrite -Permutation_cons_append.
Qed.
End Cells.

(** ** Keys in order *)

Section Keys.
Context {V : Type} (view : V -> Z).
Implicit Types (xs a b : list (Z * V)) (n : rbtnode V).

Definition keys_sorted xs : Prop := StronglySorted (fun x y => view x.2 < view y.2) xs.

(** The place of a key. *)
Definition splits (key : Z) a b : Prop :=
  (forall q w, (q, w) ∈ a -> view w < key) /\ (forall q w, (q, w) ∈ b -> key < view w).

Lemma sorted_split key xs :
  keys_sorted xs -> (forall q w, (q, w) ∈ xs -> view w <> key) -> exists a b, xs = a ++ b /\ splits key a b.
Proof.
  induction 1 as [|[q w] xs Hs IH Hle]; intros Hk; [exists [], []; split; [done|]; split; by intros ?? ?%elem_of_nil|].
  assert (view w <> key) as Hw by (apply (Hk q); by left). destruct (decide (view w < key)) as [Hlt|Hge].
  - destruct IH as (a & b & -> & Ha & Hb); [intros q' w' ?; apply (Hk q'); by right|]. exists ((q, w) :: a), b.
    split; [done|]. split; [|done]. intros q' w' [[= -> ->]|H]%elem_of_cons; [done|exact (Ha q' w' H)].
  - exists [], ((q, w) :: xs). split; [done|]. split; [by intros ?? ?%elem_of_nil|].
    rewrite Forall_forall in Hle. intros q' w' [[= -> ->]|H]%elem_of_cons; [lia|]. specialize (Hle _ H). cbn in Hle. lia.
Qed.

Lemma sorted_app a b : keys_sorted (a ++ b) <-> keys_sorted a /\ keys_sorted b /\ (forall x y, x ∈ a -> y ∈ b -> view x.2 < view y.2).
Proof.
  unfold keys_sorted. induction a as [|x a IH]; cbn.
  - split; [intros H; split; [constructor|split; [done|by intros ?? ?%elem_of_nil]]|tauto].
  - split.
    + intros H. apply StronglySorted_inv in H as [H1 H2]. rewrite Forall_app in H2. destruct H2 as [H2 H3].
      apply IH in H1 as (H4 & H5 & H6). split; [by constructor|]. split; [done|]. intros y z [->|Hy]%elem_of_cons Hz; [|by apply H6].
      rewrite Forall_forall in H3. by apply H3.
    + intros (H1 & H2 & H3). apply StronglySorted_inv in H1 as [H1 H4]. constructor.
      * apply IH. split; [done|]. split; [done|]. intros y z Hy Hz. apply H3; [by right|done].
      * apply Forall_app. split; [done|]. apply Forall_forall. intros y Hy. apply H3; [by left|done].
Qed.

Lemma sorted_insert key a b p v : keys_sorted (a ++ b) -> splits key a b -> view v = key -> keys_sorted (a ++ (p, v) :: b).
Proof.
  intros (Ha & Hb & Hab)%sorted_app [H1 H2] Hv. apply sorted_app. split; [done|]. split.
  - constructor; [done|]. apply Forall_forall. intros [q w] Hq. cbn. rewrite Hv. by apply (H2 q).
  - intros [q w] y Hx [->|Hy]%elem_of_cons; [cbn; rewrite Hv; by apply (H1 q)|by apply Hab].
Qed.

Lemma sorted_remove a x b : keys_sorted (a ++ x :: b) -> keys_sorted (a ++ b).
Proof.
  intros (Ha & Hb & Hab)%sorted_app. apply StronglySorted_inv in Hb as [Hb _]. apply sorted_app.
  split; [done|]. split; [done|]. intros y z Hy Hz. apply Hab; [done|by right].
Qed.

Lemma sorted_around a p v b : keys_sorted (a ++ (p, v) :: b) -> splits (view v) a b.
Proof.
  intros (_ & Hb & Hab)%sorted_app. apply StronglySorted_inv in Hb as [_ Hb]. rewrite Forall_forall in Hb.
  split; intros q w Hq; [apply (Hab (q, w) (p, v) Hq); by left|exact (Hb _ Hq)].
Qed.

Lemma splits_goes n a b : splits (view (data n)) a b -> descends_right (key_cond view) n a /\ goes_left (key_cond view) n b.
Proof.
  intros [Ha Hb]. split.
  - intros q w Hq. apply Ha in Hq. unfold key_cond. destruct (Z.eqb_spec (view (data n)) (view w)); [lia|].
    destruct (Z.ltb_spec (view (data n)) (view w)); [lia|done].
  - intros q w Hq. apply Hb in Hq. unfold key_cond. destruct (Z.eqb_spec (view (data n)) (view w)); [lia|].
    destruct (Z.ltb_spec (view (data n)) (view w)); [done|lia].
Qed.

Lemma splits_cuts key a b : splits key a b -> cuts (key_find view key) a b.
Proof.
  intros [Ha Hb]. split; intros q w Hq; unfold key_find.
  - apply Ha in Hq. destruct (Z.eqb_spec (view w) key); [lia|]. destruct (Z.ltb_spec key (view w)); [lia|done].
  - apply Hb in Hq. destruct (Z.eqb_spec (view w) key); [lia|]. destruct (Z.ltb_spec key (view w)); [done|lia].
Qed.

Lemma find_key_present t p v :
  keys_sorted (elems t) -> (p, v) ∈ elems t -> found (tree_find (key_find view (view v)) t) = p.
Proof.
  intros Hs (a & b & He)%list_elem_of_split. rewrite He in Hs. apply sorted_around in Hs.
  rewrite (tree_find_hit _ _ _ _ _ _ He (splits_cuts _ _ _ Hs)); [done| |]; unfold key_find; by rewrite Z.eqb_refl.
Qed.

Lemma find_key_absent t key :
  keys_sorted (elems t) -> (forall q w, (q, w) ∈ elems t -> view w <> key) -> found (tree_find (key_find view key) t) = 0.
Proof.
  intros Hs Hk. destruct (sorted_split _ _ Hs Hk) as (a & b & He & Hab). by rewrite (tree_find_miss _ _ _ _ He (splits_cuts _ _ _ Hab)).
Qed.

End Keys.

(** ** The height *)

Section Height.
Context {V : Type}.
Implicit Types (t : tree V).

Lemma rb_size c n t : rb c n t -> (2 ^ n <= S (length (elems t)))%nat.
Proof.
  induction 1 as [|n l p v r Hl IHl Hr IHr|n cl cr l p v r Hl IHl Hr IHr]; cbn [elems Nat.pow]; [done| |];
    rewrite length_app; cbn [length]; lia.
Qed.

Lemma rb_depth c n t : rb c n t -> (depth t <= 2 * n + (if decide (c = RED) then 1 else 0))%nat.
Proof.
  induction 1 as [|n l p v r Hl IHl Hr IHr|n cl cr l p v r Hl IHl Hr IHr]; cbn [depth] in *; [done| |].
  - destruct (decide (BLACK = RED)) as [[=]|_], (decide (RED = RED)); [lia|done].
  - destruct (decide (BLACK = RED)) as [[=]|_]. destruct (decide (cl = RED)), (decide (cr = RED)); lia.
Qed.

Lemma rbtree_depth t : rbtree t -> (depth t <= 2 * Nat.log2 (S (length (elems t))))%nat.
Proof.
  intros [n H]. pose proof (rb_depth _ _ _ H) as Hd. destruct (decide (BLACK = RED)) as [[=]|_].
  apply rb_size in H. apply Nat.log2_le_mono in H. rewrite Nat.log2_pow2 in H; lia.
Qed.
End Height.

(** ** Programs that only read *)

Definition reads {S A} (e : M S A) : Prop := forall m a m', e m = Ok (a, m') -> m' = m.

Lemma reads_ret {S A} (a : A) : reads (ret (S := S) a).
Proof. by intros m a' m' [= _ ->]. Qed.
Lemma reads_bind {S A B} (e : M S A) (k : A -> M S B) : reads e -> (forall a, reads (k a)) -> reads (bind e k).
Proof.
  intros He Hk m b m'. unfold bind. destruct (e m) as [[a m1]|] eqn:E; [|done]. intros H.
  rewrite -(He _ _ _ E). by eapply Hk.
Qed.
Lemma reads_gets {S A} (g : S -> A) : reads (gets g).
Proof. by intros m a' m' [= _ ->]. Qed.
Lemma reads_nofuel {S A} : reads (nofuel (S := S) (A := A)).
Proof. done. Qed.
Lemma reads_load {C} (p : Z) : reads (load (C := C) p).
Proof. apply reads_bind; [apply reads_gets|]. intros m. unfold deref. by destruct (m !! p); [apply reads_ret|]. Qed.

Create HintDb reads.
#[export] Hint Resolve reads_ret reads_bind reads_gets reads_nofuel reads_load : reads.

Section Reads.
Context {V : Type} `{!TreeField V}.

Lemma reads_get_node p : reads (get_node (V := V) p).
Proof. apply reads_bind; [apply reads_load|]. by intros []; [apply reads_ret|]. Qed.
Lemma reads_get_root p : reads (get_root (V := V) p).
Proof. apply reads_bind; [apply reads_load|]. intros c. unfold deref. by destruct (root_of c); [apply reads_ret|]. Qed.
Hint Resolve reads_get_node reads_get_root : reads.

Lemma reads_child_of d p : reads (child_of (V := V) d p).
Proof. unfold child_of. auto with reads. Qed.
Lemma reads_parent_of p : reads (parent_of (V := V) p).
Proof. unfold parent_of. auto with reads. Qed.
Hint Resolve reads_child_of reads_parent_of : reads.

Lemma reads_find tree (cond : V -> Z) : reads (rbt_find tree cond).
Proof.
  apply reads_bind; [auto with reads|]. intros root. apply reads_bind; [auto with reads|]. intros fuel.
  revert root. induction fuel as [|fuel IH]; intros root; cbn [find_loop]; [auto with reads|].
  destruct (root =? 0); [auto with reads|]. apply reads_bind; [auto with reads|]. intros n.
  repeat case_match; auto with reads.
Qed.

Lemma reads_find_key view tree key :
  reads (let* node := get_root (V := V) tree in let* fuel := gets rb_fuel in find_key_loop view fuel node key).
Proof.
  apply reads_bind; [auto with reads|]. intros root. apply reads_bind; [auto with reads|]. intros fuel.
  revert root. induction fuel as [|fuel IH]; intros root; cbn [find_key_loop]; [auto with reads|].
  destruct (root =? 0); [auto with reads|]. apply reads_bind; [auto with reads|]. intros n.
  repeat case_match; auto with reads.
Qed.

Lemma reads_extreme_loop fuel d node : reads (extreme_loop (V := V) fuel d node).
Proof.
  revert node. induction fuel as [|fuel IH]; intros node; cbn [extreme_loop]; [auto with reads|].
  apply reads_bind; [auto with reads|]. intros c. destruct (c =? 0); auto with reads.
Qed.

Lemma reads_climb_loop fuel d node parent : reads (climb_loop (V := V) fuel d node parent).
Proof.
  revert node parent. induction fuel as [|fuel IH]; intros node parent; cbn [climb_loop]; [auto with reads|].
  destruct (parent =? 0); [auto with reads|]. apply reads_bind; [auto with reads|]. intros c. destruct (node =? c); auto with reads.
Qed.
Hint Resolve reads_extreme_loop reads_climb_loop : reads.

Lemma reads_neighbour d node : reads (inorder_neighbour (V := V) d node).
Proof.
  apply reads_bind; [auto with reads|]. intros fuel. apply reads_bind; [auto with reads|]. intros c.
  destruct (negb (c =? 0)); auto with reads.
Qed.
Hint Resolve reads_neighbour : reads.

Lemma reads_for_each {X} d tree (visit : Z -> V -> X -> bool * X) ctx :
  reads (let* node := rbt_extreme d tree in let* fuel := gets rb_fuel in for_each_loop fuel (inorder_neighbour d) visit node ctx).
Proof.
  apply reads_bind.
  - apply reads_bind; [auto with reads|]. intros node. apply reads_bind; [auto with reads|]. intros fuel.
    destruct (node =? 0); auto with reads.
  - intros node. apply reads_bind; [auto with reads|]. intros fuel. revert node ctx.
    induction fuel as [|fuel IH]; intros node ctx; cbn [for_each_loop]; [auto with reads|].
    destruct (node =? 0); [auto with reads|]. apply reads_bind; [auto with reads|]. intros n.
    destruct (visit node (data n) ctx) as [[] ctx']; cbn; auto with reads.
Qed.
End Reads.

(** A reading program that meets its specification returns the memory as it was. *)
Lemma reads_run {C A} (e : M (gmap Z C) A) P (x : A) m :
  reads e -> (P ⊢ hwp e (fun a => ⌜a = x⌝)%I) -> holds P m -> e m = Ok (x, m).
Proof.
  intros Hr H HP. destruct (wp_returns _ _ _ (hwp_sound _ _ _ _ H HP)) as (a & m' & E & Ha). change (a = x) in Ha. subst a.
  by rewrite E (Hr _ _ _ E).
Qed.
