(* ===== verification/RbtreeCorrect.v ===== *)
(** * RbtreeCorrect: the red-black tree refines an ordered list

    Each operation from a memory that holds a red-black tree whose nodes are,
    in order, a list; the rest [f] of the memory is arbitrary and left alone.
    The operations that only read return the memory as it was. *)

From Stdlib Require Import ZArith Lia Sorted.
From stdpp Require Import base gmap list.
From iris.proofmode Require Import proofmode.
From S2P Require Import Prelude HeapLogic Rbtree RbtreeTree RbtreeRep RbtreeInsert RbtreeErase RbtreeRemove RbtreeTraverse RbtreeDestroy RbtreeKeys.

Open Scope Z_scope.

Section Theorems.
Context {V : Type} `{!TreeField V}.
Implicit Types (tree : header V) (xs a b : list (Z * V)) (m f : gmap Z (cell V)) (n : rbtnode V).

Lemma whole_rep tree xs : whole tree xs ⊣⊢ ∃ t, ⌜rbtree t /\ elems t = xs⌝ ∗ rep tree t.
Proof.
  iSplit; [iIntros "(%t & Hr & Ht & % & %)"|iIntros "(%t & (% & %) & Hr & Ht)"]; iExists t; by iFrame.
Qed.

Lemma insert_spec cond tree p n a b :
  haddr tree <> 0 -> node_ptr p -> descends_right cond n a -> goes_left cond n b ->
  whole tree (a ++ b) ∗ p ↦ Node n ⊢
    hwp (rbt_insert tree p cond) (fun r => ⌜r = RBT_INSERT_OK⌝ ∗ whole tree (a ++ (p, data n) :: b)).
Proof.
  intros Ht Hp Ha Hb. iIntros "[Hw Hp]".
  iApply (insert_with_spec cond (fun _ cmp => ret (cmp =? RBT_LESS_THAN)) with "Hw Hp"); [done..|].
  intros k cmp. apply tells_side_cmp.
Qed.

(** C21: rbt_insert, for a comparison that answers RBT_GREATER_THAN on the nodes
    [a] and RBT_LESS_THAN on the nodes [b] of the tree, returns OK and leaves a red-black tree (same black height on every path, no red node
    with a red child) with the nodes a, the new one, b in order; the memory
    outside of the tree and the node is unchanged. *)
Theorem rbt_insert_ok cond tree p n a b m f :
  haddr tree <> 0 -> node_ptr p -> goes_right cond n a -> goes_left cond n b ->
  m ##ₘ f -> ordered_and tree (a ++ b) p n m ->
  runs (rbt_insert tree p cond) m f (fun r m' => r = RBT_INSERT_OK /\ ordered tree (a ++ (p, data n) :: b) m').
Proof.
  intros Ht Hp Ha Hb Hd Hm. exact (runs_pure _ _ _ _ _ _ (insert_spec cond tree p n a b Ht Hp (goes_right_descends _ _ _ Ha) Hb) Hd Hm).
Qed.

(** rbt_insert of a node that compares equal to some nodes of the tree returns
    EXISTS and changes neither the nodes of the tree nor the new node. *)
Theorem rbt_insert_exists cond tree p n a mid b m f :
  haddr tree <> 0 -> p <> 0 -> goes_right cond n a -> goes_left cond n b -> all_equal cond n mid -> mid <> [] ->
  m ##ₘ f -> ordered_and tree (a ++ mid ++ b) p n m ->
  runs (rbt_insert tree p cond) m f
    (fun r m' => r = RBT_INSERT_EXISTS /\ ordered_and tree (a ++ mid ++ b) p n m').
Proof.
  intros Ht Hp Ha Hb Hw Hne Hd Hm. refine (runs_pure _ _ _ _ _ _ _ Hd Hm). iIntros "[Hw Hp]".
  iApply (insert_with_exists cond (fun _ cmp => ret (cmp =? RBT_LESS_THAN)) with "Hw Hp"); [done|done|by apply goes_right_descends|done..].
Qed.

(** C22: rbt_remove of a node of the tree returns it and leaves a red-black
    tree with the other nodes in the same order; the removed node keeps its
    data and is no longer part of the tree, and the memory outside of the
    tree is unchanged. *)
Theorem rbt_remove_ok tree p v a b m f :
  m ##ₘ f -> ordered tree (a ++ (p, v) :: b) m ->
  runs (rbt_remove tree p) m f (fun r m' => r = p /\ exists n, data n = v /\ ordered_and tree (a ++ b) p n m').
Proof.
  intros Hd Hm. eapply runs_mono; [|exact (runs_pure _ _ _ _ _ _ (rbt_remove_spec tree p v a b) Hd Hm)].
  intros r m' [Hr (m1 & m2 & -> & Hd' & H1 & n & H2)]. split; [done|]. apply holds_sep_pure in H2 as [H2 Hn].
  exists n. split; [done|]. by exists m1, m2.
Qed.

(** What a lookup answers when it stops at [x]: the node for EQUALS, the code
    of the caller with the node for any other one. *)
Definition find_answer (cond : V -> Z) (x : option (Z * V)) : Z * option Z :=
  match x with
  | None => (RBT_FIND_NOT_FOUND, None)
  | Some (p, v) => (if cond v =? RBT_EQUALS then RBT_FIND_OK else cond v, Some p)
  end.

Definition stops (cond : V -> Z) (x : option (Z * V)) : Prop :=
  match x with None => True | Some (_, v) => cond v <> RBT_LESS_THAN /\ cond v <> RBT_GREATER_THAN end.

Definition middle (x : option (Z * V)) : list (Z * V) := match x with None => [] | Some y => [y] end.

Lemma tree_find_answer cond t a x b :
  elems t = a ++ middle x ++ b -> cuts cond a b -> stops cond x -> tree_find cond t = find_answer cond x.
Proof. destruct x as [[p v]|]; cbn; [intros He Hc [Hl Hg]; by apply (tree_find_hit _ _ a p v b)|intros He Hc _; by apply (tree_find_miss _ _ a b)]. Qed.

(** Rbt_find with a condition that is GREATER on the first nodes and LESS
    on the last ones finds the node between them, with FIND_OK or with the
    caller's own code, and FIND_NOT_FOUND with the output untouched when there
    is none; the memory is not changed. *)
Theorem rbt_find_ok cond tree a x b m :
  cuts cond a b -> stops cond x -> ordered tree (a ++ middle x ++ b) m ->
  rbt_find tree cond m = Ok (find_answer cond x, m).
Proof.
  intros Hc Hs Hm. refine (reads_run _ _ _ _ (reads_find tree cond) _ Hm). rewrite whole_rep.
  iIntros "(%t & (%Hrb & %He) & Ht)". iApply (rbt_find_spec with "Ht"). iIntros "_". iPureIntro. by apply (tree_find_answer cond t a x b).
Qed.

(** C24: a lookup in a red-black tree of [n] nodes takes at most
    [2 * log2 (n + 1)] steps down: the loop returns its answer with that many
    iterations and one for the end. *)
Theorem rbt_find_steps cond tree a x b m :
  cuts cond a b -> stops cond x -> ordered tree (a ++ middle x ++ b) m ->
  result (let* root := get_root tree in find_loop (S (2 * Nat.log2 (S (length (a ++ middle x ++ b))))) cond root) m =
    Ok (find_answer cond x).
Proof.
  intros Hc Hs Hm. unfold result. set (fuel := S _).
  assert (whole tree (a ++ middle x ++ b) ⊢ hwp (let* root := get_root tree in find_loop fuel cond root) (fun r => ⌜r = find_answer cond x⌝)%I) as H.
  { rewrite whole_rep. iIntros "(%t & (%Hrb & %He) & Htr & Ht)". iApply hwp_bind. iApply (hwp_get_root with "Htr"). iIntros "_".
    iApply (find_loop_spec with "Ht"); [subst fuel; rewrite -He; pose proof (rbtree_depth t Hrb); lia|].
    iIntros "_". iPureIntro. by apply (tree_find_answer cond t a x b). }
  destruct (wp_returns _ _ _ (hwp_sound _ _ _ _ H Hm)) as (r & m' & -> & Hr). change (r = find_answer cond x) in Hr. by rewrite Hr.
Qed.

(** Rbt_for_each visits the nodes in ascending order and
    rbt_for_each_rev in descending order, each exactly once, until the visitor
    returns false; the memory is not changed. *)
Theorem rbt_for_each_ok {X} tree (visit : Z -> V -> X -> bool * X) ctx xs m :
  ordered tree xs m ->
  rbt_for_each tree visit ctx m = Ok (visit_all visit xs ctx, m) /\
  rbt_for_each_rev tree visit ctx m = Ok (visit_all visit (rev xs) ctx, m).
Proof.
  intros Hm. split.
  - refine (reads_run _ _ _ _ (reads_for_each R tree visit ctx) _ Hm). rewrite whole_rep. iIntros "(%t & (%Hrb & <-) & Ht)".
    iApply (for_each_spec with "Ht"). by iIntros "_".
  - refine (reads_run _ _ _ _ (reads_for_each L tree visit ctx) _ Hm). rewrite whole_rep. iIntros "(%t & (%Hrb & <-) & Ht)".
    iApply (for_each_spec with "Ht"). by iIntros "_".
Qed.

(** A free function that gives the node back and reports it to [step]; the
    state beside the memory is that of [step] and the addresses given back. *)
Definition free_with {X} (step : Z -> V -> X -> res X) (node : Z) : M (mst (cell V) (X * list Z)) unit :=
  let* n := on_mem (get_node node) in
  on_mem (drop_cell node) ;;
  on_ext (fun xl => match step node (data n) xl.1 with Ok x => Ok (tt, (x, node :: xl.2)) | Err e => Err e end).

Fixpoint free_all {X} (step : Z -> V -> X -> res X) xs (x : X) : res X :=
  match xs with
  | [] => Ok x
  | (p, v) :: xs => match step p v x with Ok x => free_all step xs x | Err e => Err e end
  end.

Lemma free_all_app {X} (step : Z -> V -> X -> res X) xs ys x :
  free_all step (xs ++ ys) x = match free_all step xs x with Ok x => free_all step ys x | Err e => Err e end.
Proof. revert x. induction xs as [|[p v] xs IH]; intros x; [done|]. cbn. by destruct (step p v x). Qed.

Lemma free_all_prefix {X} (step : Z -> V -> X -> res X) xs p v ys x x' :
  free_all step (xs ++ (p, v) :: ys) x = Ok x' ->
  exists x1 x2, free_all step xs x = Ok x1 /\ step p v x1 = Ok x2 /\ free_all step (xs ++ [(p, v)]) x = Ok x2.
Proof.
  rewrite !free_all_app. destruct (free_all step xs x) as [x1|]; [|done]. cbn. destruct (step p v x1) as [x2|] eqn:E; [|done].
  intros _. exists x1, x2. by rewrite E.
Qed.

(** The addresses given back are not in use. *)
Definition given_back {X} (xl : X * list Z) (d : gset Z) : Prop := forall p, p ∈ xl.2 -> p ∉ d.
#[local] Instance given_back_antitone {X} : Antitone (@given_back X).
Proof. intros x d d' H Hs p Hp Hd. apply (H p Hp). by apply Hs. Qed.

Lemma free_with_spec {X} (step : Z -> V -> X -> res X) all x x' gone p v rest n xl :
  free_all step all x = Ok x' -> all = gone ++ (p, v) :: rest -> data n = v ->
  ⌜free_all step gone x = Ok xl.1 /\ xl.2 = rev gone.*1⌝ ∗ p ↦ Node n ⊢
    uwp given_back (free_with step p) xl (fun _ xl' => ⌜free_all step (gone ++ [(p, v)]) x = Ok xl'.1 /\ xl'.2 = rev (gone ++ [(p, v)]).*1⌝)%I.
Proof.
  intros Hall -> Hn. iIntros "[[%Hx %Hl] Hp]". iApply uwp_bind. iApply uwp_mem. iApply (hwp_get_node with "Hp"). iIntros "Hp". rewrite Hn.
  destruct (free_all_prefix _ _ _ _ _ _ _ Hall) as (x1 & x2 & E1 & E2 & E3). rewrite Hx in E1. injection E1 as E1.
  iApply (uwp_drop _ _ _ _ _ tt (x2, p :: xl.2) with "Hp").
  - by rewrite E1 E2.
  - intros d Hok Hp q [->|Hq]%elem_of_cons; [set_solver|]. specialize (Hok q Hq). set_solver.
  - iPureIntro. split; [done|]. rewrite fmap_app rev_app_distr /= Hl. done.
Qed.

(** C23: rbt_destroy ends, calls the free function exactly once on each
    node of the tree, which is then given back, and leaves the tree empty and
    the memory outside of it unchanged. *)
Theorem rbt_destroy_ok {X} tree (step : Z -> V -> X -> res X) x xs m f :
  haddr tree <> 0 -> (forall p v x, (p, v) ∈ xs -> exists x', step p v x = Ok x') ->
  m ##ₘ f -> ordered tree xs m ->
  exists ys x' l m', ys ≡ₚ xs /\ free_all step ys x = Ok x' /\
    rbt_destroy (@on_mem _ _) tree (Some (free_with step)) (MkSt (m ∪ f) (x, [])) = Ok (tt, MkSt (m' ∪ f) (x', l)) /\
    m' ##ₘ f /\ ordered tree [] m' /\ (forall p v, (p, v) ∈ xs -> (m' ∪ f) !! p = None).
Proof.
  intros Ht Hfree Hd (t & Hm). destruct Hm as (m1 & m23 & -> & Hd1 & Hr & m2 & m3 & -> & Hd2 & Hta & Hp).
  destruct Hp as (m4 & m5 & -> & _ & Hrb & He). change (rbtree t) in Hrb. change (elems t = xs) in He.
  assert (exists x', free_all step (postorder t) x = Ok x') as [x' Hall].
  { assert (forall p v x, (p, v) ∈ postorder t -> exists x', step p v x = Ok x') as H.
    { intros p v x1. rewrite postorder_elems He. apply Hfree. }
    clear -H. revert x. induction (postorder t) as [|[p v] ys IH]; intros x; [by exists x|]. cbn.
    destruct (H p v x) as [x' ->]; [by left|]. apply IH. intros p' v' x1 Hx. apply H. by right. }
  set (I := fun (gone : list (Z * V)) (xl : X * list Z) => (⌜free_all step gone x = Ok xl.1 /\ xl.2 = rev gone.*1⌝ : heapProp (cell V))%I).
  assert (rep tree t ⊢ uwp given_back (rbt_destroy (@on_mem _ _) tree (Some (free_with step))) (x, []) (fun _ xl => I (postorder t) xl ∗ rep tree E)%I) as H.
  { iIntros "Ht". iApply (rbt_destroy_spec given_back (free_with step) I (postorder t) with "[$Ht]"); [|done|done|by iPureIntro].
    intros gone p v rest n xl Ea En. by apply (free_with_spec step (postorder t) x x' gone p v rest n xl). }
  assert (holds (rep tree t) (m1 ∪ (m2 ∪ (m4 ∪ m5)))) as Hrep.
  { exists m1, (m2 ∪ (m4 ∪ m5)). split; [done|]. split; [done|]. split; [done|]. eapply holds_mono; [exact Hta|]. apply map_union_subseteq_l. }
  destruct H as [H]. destruct (H _ Hrep f Hd) as ([] & m' & [x2 l] & Erun & Hd' & Hok & Hpost); [by intros p ?%elem_of_nil|].
  apply holds_pure_sep in Hpost as [[Hx2 Hl] Hpost]. cbn in Hx2, Hl. rewrite Hall in Hx2. injection Hx2 as <-.
  exists (postorder t), x', l, m'. split; [by rewrite postorder_elems He|]. split; [done|]. split; [done|]. split; [done|]. split.
  - exists E. destruct Hpost as (m6 & m7 & -> & Hd67 & H6 & H7). exists m6, m7. split; [done|]. split; [done|]. split; [done|].
    exists m7, ∅. split; [by rewrite map_union_empty|]. split; [apply map_disjoint_empty_r|]. split; [done|].
    exists ∅, ∅. split; [done|]. split; [apply map_disjoint_empty_l|]. split; [by exists 0%nat; constructor|done].
  - intros p v Hpv. apply not_elem_of_dom. apply Hok. cbn. rewrite Hl. apply list_elem_of_In, in_rev. rewrite rev_involutive.
    apply list_elem_of_In, (list_elem_of_fmap_2 fst _ (p, v)). by rewrite postorder_elems He.
Qed.

(** ** Trees ordered by a key *)

Definition insert_key (signed : bool) (key : V -> Z) := if signed then rbt_insert_i64 key else rbt_insert_u64 key.
Definition find_key (signed : bool) (key : V -> Z) := if signed then rbt_find_i64 key else rbt_find_u64 key.
Definition key_view (signed : bool) (key : V -> Z) (v : V) : Z := if signed then signed64 (key v) else key v.

Lemma insert_key_ok signed key tree p n xs :
  let view := key_view signed key in
  haddr tree <> 0 -> node_ptr p -> keys_sorted view xs -> (forall q w, (q, w) ∈ xs -> view w <> view (data n)) ->
  whole tree xs ∗ p ↦ Node n ⊢ hwp (insert_key signed key tree p)
    (fun r => ⌜r = RBT_INSERT_OK⌝ ∗ ∃ a b, ⌜xs = a ++ b /\ splits view (view (data n)) a b⌝ ∗ whole tree (a ++ (p, data n) :: b))%I.
Proof.
  intros view Ht Hp Hs Hk. destruct (sorted_split view _ _ Hs Hk) as (a & b & -> & Hab). destruct (splits_goes view n a b Hab) as [Hr Hl].
  iIntros "[Hw Hp]". iApply (hwp_wand _ (fun r => ⌜r = RBT_INSERT_OK⌝ ∗ whole tree (a ++ (p, data n) :: b))%I with "[Hw Hp]").
  - destruct signed.
    + iApply (insert_with_spec (key_cond view) (fun parent _ => key_is_left view p parent) with "Hw Hp"); [done..|].
      intros k cmp Hside _. by apply tells_side_key.
    + iApply (insert_with_spec (key_cond view) (fun parent _ => key_is_left view p parent) with "Hw Hp"); [done..|].
      intros k cmp Hside _. by apply tells_side_key.
  - iIntros (r) "[$ Hw]". iExists a, b. by iFrame.
Qed.

Lemma find_key_ok signed key tree xs k (q : Z) (Φ : Z -> heapProp (cell V)) :
  let view := key_view signed key in
  keys_sorted view xs ->
  ((exists v, (q, v) ∈ xs /\ view v = k) \/ (q = 0 /\ forall p v, (p, v) ∈ xs -> view v <> k)) ->
  whole tree xs ⊢ (whole tree xs -∗ Φ q) -∗ hwp (find_key signed key tree k) Φ.
Proof.
  intros view Hs Hq. rewrite whole_rep. iIntros "(%t & (%Hrb & %He) & Ht) HΦ".
  assert (found (tree_find (key_find view k) t) = q) as Hf.
  { rewrite -He in Hs, Hq. destruct Hq as [(v & Hv & <-)|[-> Hk]]; [by apply find_key_present|by apply find_key_absent]. }
  iAssert (rep tree t -∗ Φ (found (tree_find (key_find view k) t)))%I with "[HΦ]" as "HΦ".
  { iIntros "Ht". rewrite Hf. iApply "HΦ". iExists t. by iFrame. }
  destruct signed; iApply (find_key_spec view k with "Ht HΦ").
Qed.

(** rbt_insert_u64 and rbt_insert_i64 keep a tree sorted by its keys, read
    as unsigned or as signed words: with a new key the result is OK and the
    nodes are the old ones and the new one, still sorted. *)
Theorem rbt_insert_key_sorted signed key tree p n xs m f :
  haddr tree <> 0 -> node_ptr p -> keys_sorted (key_view signed key) xs ->
  (forall q w, (q, w) ∈ xs -> key_view signed key w <> key_view signed key (data n)) ->
  m ##ₘ f -> ordered_and tree xs p n m ->
  runs (insert_key signed key tree p) m f (fun r m' => r = RBT_INSERT_OK /\
    exists ys, keys_sorted (key_view signed key) ys /\ ys ≡ₚ (p, data n) :: xs /\ ordered tree ys m').
Proof.
  intros Ht Hp Hs Hk Hd Hm. eapply runs_mono; [|exact (runs_pure _ _ _ _ _ _ (insert_key_ok signed key tree p n xs Ht Hp Hs Hk) Hd Hm)].
  intros r m' [Hr (a & b & H)]. split; [done|]. apply holds_pure_sep in H as [[-> Hab] H]. exists (a ++ (p, data n) :: b).
  split; [by eapply sorted_insert|]. split; [by rewrite Permutation_middle|done].
Qed.

(** Insert a node, look its key up, remove the node and look the key up again. *)
Definition key_session (signed : bool) (key : V -> Z) (tree p k : Z) : M (gmap Z (cell V)) (Z * Z * Z * Z) :=
  let* r := insert_key signed key tree p in
  let* q1 := find_key signed key tree k in
  let* x := rbt_remove tree p in
  let* q2 := find_key signed key tree k in
  ret (r, q1, x, q2).

(** After the insertion of a node with a new key the lookup finds it,
    after its removal the lookup finds nothing, and the tree has its old
    nodes in their old order. *)
Theorem rbt_key_roundtrip signed key tree p n xs m f :
  haddr tree <> 0 -> node_ptr p -> keys_sorted (key_view signed key) xs ->
  (forall q w, (q, w) ∈ xs -> key_view signed key w <> key_view signed key (data n)) ->
  m ##ₘ f -> ordered_and tree xs p n m ->
  runs (key_session signed key tree p (key_view signed key (data n))) m f
    (fun r m' => r = (RBT_INSERT_OK, p, p, 0) /\ ordered tree xs m').
Proof.
  intros Ht Hp Hs Hk Hd Hm. refine (runs_pure _ _ _ _ _ _ _ Hd Hm). iIntros "H". unfold key_session. iApply hwp_bind.
  iApply (hwp_wand with "[H]"); [by iApply insert_key_ok|]. iIntros (r) "(-> & %a & %b & (-> & %Hab) & Hw)". iApply hwp_bind.
  iApply (find_key_ok signed key tree (a ++ (p, data n) :: b) _ p with "Hw").
  { by eapply sorted_insert. } { left. exists (data n). split; [|done]. apply elem_of_app. right. by left. }
  iIntros "Hw". iApply hwp_bind. iApply (hwp_wand with "[Hw]"); [by iApply rbt_remove_spec|]. iIntros (x) "(-> & Hw & _)".
  iApply hwp_bind. iApply (find_key_ok signed key tree (a ++ b) _ 0 with "Hw"); [done|right; split; [done|exact Hk]|].
  iIntros "Hw". iApply hwp_ret. by iFrame.
Qed.

(** A comparison code of the caller's own, which rbtree.h says prevents
    the insertion and is returned, is treated as GREATER: rbt_insert returns
    OK and the node is inserted after the nodes of the tree. *)
Theorem rbt_insert_custom_code_inserts cond tree p n xs m f :
  haddr tree <> 0 -> node_ptr p -> (forall q w, (q, w) ∈ xs -> cond (data n) w > RBT_EQUALS) ->
  m ##ₘ f -> ordered_and tree xs p n m ->
  runs (rbt_insert tree p cond) m f (fun r m' => r = RBT_INSERT_OK /\ ordered tree (xs ++ [(p, data n)]) m').
Proof.
  intros Ht Hp Hc Hd Hm. refine (runs_pure _ _ _ _ _ _ (insert_spec cond tree p n xs [] Ht Hp _ _) Hd _).
  - intros q w Hq. apply Hc in Hq. cbn in Hq. unfold RBT_LESS_THAN, RBT_EQUALS in *. lia.
  - by intros q w ?%elem_of_nil.
  - by rewrite app_nil_r.
Qed.

End Theorems.

(** ** Concrete trees *)

(** Three nodes with the data 1, 2 and 3. *)
Definition three : tree Z := T BLACK (T RED E 16 1 E) 32 2 (T RED E 48 3 E).
#[local] Instance Z_no_tree : TreeField Z := no_tree_field Z.
Definition at8 : header Z := MkHeader 8 (Tree 0) (mk_is_Some _ _ eq_refl).
Definition three_mem : gmap Z (cell Z) := list_to_map ((8, Tree (ptr three)) :: cells 0 three).
Definition fresh (k : Z) : rbtnode Z := MkRb 0 0 0 k.
Definition three_and (k : Z) : gmap Z (cell Z) := list_to_map (((8, Tree (ptr three)) :: cells 0 three) ++ [(64, Node (fresh k))]).

Lemma three_rb : rbtree three.
Proof. exists 1%nat. repeat econstructor. Qed.

Lemma node_ptr_even p : bool_decide (p <> 0 /\ 0 <= p < 2 ^ 64 /\ Z.land p 1 = 0) = true -> node_ptr p.
Proof. intros H%bool_decide_eq_true. unfold node_ptr, word_ptr, u_range. tauto. Qed.

Lemma three_ptrs : Forall node_ptr (cells 0 three).*1.
Proof. repeat constructor; by apply node_ptr_even. Qed.

Lemma three_ordered : ordered at8 [(16, 1); (32, 2); (48, 3)] three_mem.
Proof. apply (holds_whole at8 three); [apply (bool_decide_unpack _); by vm_compute|apply three_ptrs|apply three_rb]. Qed.

Lemma three_and_ordered k : ordered_and at8 [(16, 1); (32, 2); (48, 3)] 64 (fresh k) (three_and k).
Proof. apply (holds_and at8 three); [apply (bool_decide_unpack _); by vm_compute|apply three_ptrs|apply three_rb]. Qed.


Ltac in_list H := repeat (apply elem_of_cons in H as [[= -> ->]|H]; [by vm_compute|]); by apply elem_of_nil in H.

Abbreviation by_value := (key_cond (fun v : Z => v)).

Lemma rbt_insert_ok_witness :
  runs (rbt_insert 8 64 by_value) (three_and 4) ∅
    (fun r m' => r = RBT_INSERT_OK /\ ordered at8 [(16, 1); (32, 2); (48, 3); (64, 4)] m').
Proof.
  apply (rbt_insert_ok by_value at8 64 (fresh 4) [(16, 1); (32, 2); (48, 3)] []);
    [done|by apply node_ptr_even|intros q w H; in_list H|intros q w H; in_list H|apply map_disjoint_empty_r|exact (three_and_ordered 4)].
Defined.

Lemma rbt_insert_exists_witness :
  runs (rbt_insert 8 64 by_value) (three_and 2) ∅
    (fun r m' => r = RBT_INSERT_EXISTS /\ ordered_and at8 [(16, 1); (32, 2); (48, 3)] 64 (fresh 2) m').
Proof.
  apply (rbt_insert_exists by_value at8 64 (fresh 2) [(16, 1)] [(32, 2)] [(48, 3)]);
    [done|done|intros q w H; in_list H|intros q w H; in_list H|intros q w H; in_list H|done|apply map_disjoint_empty_r|exact (three_and_ordered 2)].
Defined.

Lemma rbt_remove_ok_witness :
  runs (rbt_remove 8 32) three_mem ∅ (fun r m' => r = 32 /\ exists n, data n = 2 /\ ordered_and at8 [(16, 1); (48, 3)] 32 n m').
Proof. apply (rbt_remove_ok at8 32 2 [(16, 1)] [(48, 3)]); [apply map_disjoint_empty_r|exact three_ordered]. Defined.

Lemma rbt_find_ok_witness :
  rbt_find 8 (key_find (fun v : Z => v) 3) three_mem = Ok ((RBT_FIND_OK, Some 48), three_mem).
Proof.
  apply (rbt_find_ok (key_find (fun v : Z => v) 3) at8 [(16, 1); (32, 2)] (Some (48, 3)) []);
    [split; intros q w H; in_list H|done|exact three_ordered].
Defined.

Lemma rbt_find_steps_witness :
  result (let* root := get_root 8 in find_loop (S (2 * Nat.log2 4)) (key_find (fun v : Z => v) 7) root) three_mem =
    Ok (RBT_FIND_NOT_FOUND, None).
Proof.
  apply (rbt_find_steps (key_find (fun v : Z => v) 7) at8 [(16, 1); (32, 2); (48, 3)] None []);
    [split; intros q w H; in_list H|done|exact three_ordered].
Defined.

Lemma rbt_for_each_ok_witness :
  rbt_for_each 8 (fun p v l => (v <? 2, v :: l)) [] three_mem = Ok ([2; 1], three_mem) /\
  rbt_for_each_rev 8 (fun p v l => (v <? 2, v :: l)) [] three_mem = Ok ([3], three_mem).
Proof. exact (rbt_for_each_ok at8 (fun p v l => (v <? 2, v :: l)) [] _ three_mem three_ordered). Defined.

Lemma rbt_destroy_ok_witness :
  let log p v l : res (list Z) := Ok (v :: l) in
  exists ys x' l m', ys ≡ₚ [(16, 1); (32, 2); (48, 3)] /\ free_all log ys [] = Ok x' /\
    rbt_destroy (@on_mem _ _) 8 (Some (free_with log)) (MkSt (three_mem ∪ ∅) ([], [])) = Ok (tt, MkSt (m' ∪ ∅) (x', l)) /\
    m' ##ₘ ∅ /\ ordered at8 [] m' /\ (forall p v, (p, v) ∈ [(16, 1); (32, 2); (48, 3)] -> (m' ∪ ∅) !! p = None).
Proof.
  apply (rbt_destroy_ok at8 (fun p v l => Ok (v :: l))); [done|by intros p v x _; exists (v :: x)|apply map_disjoint_empty_r|exact three_ordered].
Defined.

Lemma three_sorted signed : keys_sorted (key_view signed (fun v : Z => v)) [(16, 1); (32, 2); (48, 3)].
Proof. destruct signed; repeat constructor. Qed.

(** [2 ^ 64 - 1] is the last unsigned key and, as -1, the first signed one. *)
Lemma rbt_insert_key_sorted_witness :
  runs (insert_key true (fun v => v) 8 64) (three_and (2 ^ 64 - 1)) ∅ (fun r m' => r = RBT_INSERT_OK /\
    exists ys, keys_sorted (key_view true (fun v => v)) ys /\ ys ≡ₚ [(64, 2 ^ 64 - 1); (16, 1); (32, 2); (48, 3)] /\ ordered at8 ys m').
Proof.
  apply (rbt_insert_key_sorted true (fun v => v) at8 64 (fresh (2 ^ 64 - 1)) [(16, 1); (32, 2); (48, 3)]);
    [done|by apply node_ptr_even|apply three_sorted|intros q w H; in_list H|apply map_disjoint_empty_r|exact (three_and_ordered _)].
Defined.

Lemma rbt_key_roundtrip_witness :
  runs (key_session false (fun v => v) 8 64 4) (three_and 4) ∅
    (fun r m' => r = (RBT_INSERT_OK, 64, 64, 0) /\ ordered at8 [(16, 1); (32, 2); (48, 3)] m').
Proof.
  apply (rbt_key_roundtrip false (fun v => v) at8 64 (fresh 4) [(16, 1); (32, 2); (48, 3)]);
    [done|by apply node_ptr_even|apply three_sorted|intros q w H; in_list H|apply map_disjoint_empty_r|exact (three_and_ordered 4)].
Defined.

Lemma rbt_insert_custom_code_inserts_witness :
  runs (rbt_insert 8 64 (fun _ _ => 3)) (three_and 2) ∅
    (fun r m' => r = RBT_INSERT_OK /\ ordered at8 [(16, 1); (32, 2); (48, 3); (64, 2)] m').
Proof.
  apply (rbt_insert_custom_code_inserts (fun _ _ => 3) at8 64 (fresh 2) [(16, 1); (32, 2); (48, 3)]);
    [done|by apply node_ptr_even|intros q w H; in_list H|apply map_disjoint_empty_r|exact (three_and_ordered 2)].
Defined.
