(* ===== verification/Uregion.v ===== *)
(** * Uregion: the memory regions of a user task

    src/kernel/mm/malloc/uregion.c: the regions of a task in a red-black tree
    ordered by address, and in each region the tree of the physical blocks
    that are mapped into it and a bitfield of its committed pages.

    The nodes of both trees and the bitfields larger than a word are blocks
    from kmalloc, cells of one memory; the header of the inner tree is a field
    of its region.  The kernel's allocators, the MMU and the byte copies are
    parameters ([Kernel]). *)

From Stdlib Require Import ZArith Lia.
From stdpp Require Import base gmap list.
From S2P Require Import Prelude KMath MmuDc VmContainers HeapLogic Rbtree.

Open Scope Z_scope.

(** ** Data *)

Definition UREGION_OK : Z := 0.
Definition UREGION_OVERLAPS : Z := 1.

Definition UREGION_ACCESS_OK : Z := 0.
Definition UREGION_ACCESS_NOT_RESERVED : Z := 1.
Definition UREGION_ACCESS_NOT_COMMITTED : Z := 2.
Definition UREGION_ACCESS_NO_PERMISSION : Z := 3.
Definition UREGION_ACCESS_TRUNCATED : Z := 4.

Definition F_READ : Z := 1.
Definition F_WRITE : Z := 2.
Definition F_EXEC : Z := 4.
Definition F_STATIC_LIFETIME : Z := 8.
Definition F_FULL_MAPPED : Z := 16.
Definition F_PARTIALLY_MAPPED : Z := 32.
Definition F_HAS_PHYS : Z := 64.

Record physdata_t : Type := MkPhys { physical_address : Z; user_address : Z; page_count : Z }.

(** [committed] is the union: the bitfield itself up to 64 pages, the address
    of an array of words beyond. *)
Record uregion_t : Type := MkRegion {
  usr_start : Z;
  pages : Z;
  flags : Z;
  physical_data : Z;
  committed : Z
}.

(** What follows the header of a node, or the array of a bitfield (whose cell
    has no header). *)
Inductive udata : Type := URegion (r : uregion_t) | UPhys (p : physdata_t) | UWords (ws : list Z).

Definition with_physical_data (q : Z) (r : uregion_t) := MkRegion (usr_start r) (pages r) (flags r) q (committed r).
Definition with_flags (w : Z) (r : uregion_t) := MkRegion (usr_start r) (pages r) w (physical_data r) (committed r).
Definition with_committed (w : Z) (r : uregion_t) := MkRegion (usr_start r) (pages r) (flags r) (physical_data r) w.

#[export] Instance udata_tree : TreeField udata.
Proof.
  refine {| field_root v := match v with URegion r => Some (physical_data r) | _ => None end;
            set_field_root q v := match v with URegion r => URegion (with_physical_data q r) | _ => v end |}.
  - intros [r|p|ws] q; [done|..]; by intros [? [=]].
  - by intros [r|p|ws] q q'.
Defined.

Definition region_end (r : uregion_t) : Z := wrap64 (usr_start r + wrap64 (pages r * PAGE_SIZE)).
Definition phys_end (p : physdata_t) : Z := wrap64 (user_address p + wrap64 (page_count p * PAGE_SIZE)).

(** The nodes of a tree are all of one kind; the other kinds read as zero. *)
Definition region_of (v : udata) : uregion_t := match v with URegion r => r | _ => MkRegion 0 0 0 0 0 end.
Definition phys_of (v : udata) : physdata_t := match v with UPhys p => p | _ => MkPhys 0 0 0 end.

(** ** Comparisons *)

Definition find_region_condition (usrva : Z) (node : udata) : Z :=
  let r := region_of node in
  if usrva <? usr_start r then RBT_LESS_THAN
  else if region_end r <=? usrva then RBT_GREATER_THAN
  else RBT_EQUALS.

Definition insert_region_condition (node_a node_b : udata) : Z :=
  let a := region_of node_a in
  let b := region_of node_b in
  if region_end a <=? usr_start b then RBT_LESS_THAN
  else if region_end b <=? usr_start a then RBT_GREATER_THAN
  else RBT_EQUALS.

Definition PDATA_CONDITION_OVERLAPS : Z := 3.

Definition pdata_insert_condition (node_a node_b : udata) : Z :=
  let a := phys_of node_a in
  let b := phys_of node_b in
  if user_address a <? user_address b then
    if user_address b <? phys_end a then PDATA_CONDITION_OVERLAPS else RBT_LESS_THAN
  else if user_address b <? user_address a then
    if user_address a <? phys_end b then PDATA_CONDITION_OVERLAPS else RBT_GREATER_THAN
  else RBT_EQUALS.

Definition pdata_find_condition (target : Z) (tree_node : udata) : Z :=
  let p := phys_of tree_node in
  if target <? user_address p then RBT_LESS_THAN
  else if phys_end p <=? target then RBT_GREATER_THAN
  else RBT_EQUALS.

(** ** The user's page configuration *)

(** [None] where the code panics *)
Definition usr_mmu_cfg_from_flags (fl : Z) : option mmu_pg_cfg :=
  let RW := mmu_pg_cfg_new 0 MMU_AP_EL0_RW_EL1_RW MMU_SH_INNER_SHAREABLE false true true true 0 in
  let R := mmu_pg_cfg_new 0 MMU_AP_EL0_RO_EL1_RO MMU_SH_INNER_SHAREABLE false true true true 0 in
  let RX := mmu_pg_cfg_new 0 MMU_AP_EL0_RO_EL1_RO MMU_SH_INNER_SHAREABLE false true true false 0 in
  let k := Z.land fl 7 in
  if k =? Z.lor F_READ F_WRITE then Some RW
  else if k =? F_READ then Some R
  else if k =? Z.lor F_READ F_EXEC then Some RX
  else None.

Definition MMU_MAP_OK : Z := 0.
Definition MMU_UNMAP_OK : Z := 1.

(** ** The kernel below *)

(** The state [E] of the allocators, of the task's address space and of the
    bytes behind the kernel's mappings.  [raw_kmalloc n zeroed] is the physical
    address of [n] pages with a kernel mapping. *)
Class Kernel (E : Type) : Type := {
  kmalloc : Z -> M E Z;
  kfree : Z -> M E unit;
  raw_kmalloc : Z -> bool -> M E Z;
  raw_kfree : Z -> M E unit;
  k_mmu_map : Z -> Z -> Z -> mmu_pg_cfg -> M E Z;
  k_mmu_unmap : Z -> Z -> M E Z;
  k_memcpy : Z -> Z -> Z -> M E unit;
  k_memzero : Z -> Z -> M E unit;
  get_byte : Z -> M E Z;
  put_byte : Z -> Z -> M E unit;
  cache_flush_range : Z -> Z -> M E unit
}.

Section Regions.
Context {E : Type} `{!Kernel E}.
Abbreviation U := (M (mst (cell udata) E)).

(** A block from kmalloc, which becomes a cell, and back. *)
Definition malloc_cell (bytes : Z) (v : udata) : U Z :=
  let* p := on_ext (kmalloc bytes) in
  on_mem (new_cell p (Node (MkRb 0 0 0 v))) ;;
  ret p.
Definition free_cell (p : Z) : U unit := on_mem (drop_cell p) ;; on_ext (kfree p).

Definition sizeof_uregion_node : Z := 56.
Definition sizeof_physdata_node : Z := 48.

Definition with_data (v : udata) (n : rbtnode udata) : rbtnode udata := MkRb (left n) (right n) (packed n) v.

Definition get_region (node : Z) : U uregion_t :=
  on_mem (let* n := get_node node in match data n with URegion r => ret r | _ => fault end).
Definition upd_region (node : Z) (f : uregion_t -> uregion_t) : U unit :=
  on_mem (let* n := get_node node in
          match data n with URegion r => store node (Node (with_data (URegion (f r)) n)) | _ => fault end).

Definition get_phys (node : Z) : U physdata_t :=
  on_mem (let* n := get_node node in match data n with UPhys p => ret p | _ => fault end).

Definition get_words (a : Z) : U (list Z) :=
  on_mem (let* n := get_node a in match data n with UWords ws => ret ws | _ => fault end).

(** ** The bitfield of committed pages *)

(** [bf[j]], with [bf] the array or the address of the union *)
Definition bf_get (node j : Z) : U Z :=
  let* r := get_region node in
  if 64 <? pages r then let* ws := get_words (committed r) in deref (ws !! Z.to_nat j)
  else if j =? 0 then ret (committed r) else fault.

Definition bf_put (node j w : Z) : U unit :=
  let* r := get_region node in
  bf_get node j ;;
  if 64 <? pages r then
    let* ws := get_words (committed r) in
    on_mem (upd_node (committed r) (with_data (UWords (<[Z.to_nat j := w]> ws))))
  else upd_region node (with_committed w).

Definition kzalloc_words (bytes : Z) : U Z := malloc_cell bytes (UWords (replicate (Z.to_nat (bytes / 8)) 0)).

Definition committed_init (node : Z) : U unit :=
  let* r := get_region node in
  if (pages r <=? 64) || negb (committed r =? 0) then ret tt
  else
    let* a := kzalloc_words (div_ceil (pages r) 64 * 8) in
    upd_region node (with_committed a).

Fixpoint committed_set (node page_idx : Z) (n : nat) : U unit :=
  match n with
  | O => ret tt
  | S n =>
      let* w := bf_get node (page_idx / 64) in
      bf_put node (page_idx / 64) (bitfield_set_high 64 w (page_idx mod 64)) ;;
      committed_set node (page_idx + 1) n
  end.

(** [__builtin_popcountll] *)
Definition popcount (w : Z) : Z := Z.of_nat (length (filter (fun i => Z.testbit w i = true) (seqZ 0 64))).

Inductive commited_state_e : Type := COMMITED_NONE | COMMITED_PARTIALLY | COMMITED_FULLY.

Fixpoint count_words (node words pgs w : Z) (n : nat) : U Z :=
  match n with
  | O => ret 0
  | S n =>
      let bits_in_word := if (w =? words - 1) && negb (pgs mod 64 =? 0) then pgs mod 64 else 64 in
      let mask := if bits_in_word =? 64 then 2 ^ 64 - 1 else Z.shiftl 1 bits_in_word - 1 in
      let* b := bf_get node w in
      let* rest := count_words node words pgs (w + 1) n in
      ret (popcount (Z.land b mask) + rest)
  end.

Definition get_commited_state (node : Z) : U commited_state_e :=
  let* r := get_region node in
  let words := div_ceil (pages r) 64 in
  let* total_set := count_words node words (pages r) 0 (Z.to_nat words) in
  ret (if total_set =? 0 then COMMITED_NONE
       else if total_set =? pages r then COMMITED_FULLY else COMMITED_PARTIALLY).

(** ** Regions *)

Definition region_find_usrva (regions usrva : Z) : U Z :=
  let* r := on_mem (rbt_find regions (find_region_condition usrva)) in
  if r.1 =? RBT_FIND_OK then deref r.2 else ret 0.

Definition region_insert (regions node : Z) : U bool :=
  let* r := on_mem (rbt_insert regions node insert_region_condition) in
  ret (r =? RBT_INSERT_OK).

Definition node_flags (read write exec static_lifetime : bool) : Z :=
  let fl := if read then Z.lor 0 F_READ else 0 in
  let fl := if write then Z.lor fl F_WRITE else fl in
  let fl := if exec then Z.lor fl F_EXEC else fl in
  if static_lifetime then Z.lor fl F_STATIC_LIFETIME else fl.

Definition node_malloc (usr_va pgs : Z) (read write exec static_lifetime : bool) : U Z :=
  malloc_cell sizeof_uregion_node (URegion (MkRegion usr_va pgs (node_flags read write exec static_lifetime) 0 0)).

(** The inner tree is named by the node of its region. *)
Definition region_insert_user_physdata (node usr_va pa n : Z) : U Z :=
  let* p := malloc_cell sizeof_physdata_node (UPhys (MkPhys pa usr_va n)) in
  on_mem (rbt_insert node p pdata_insert_condition).

Fixpoint map_user_loop (fuel : nat) (node usr_va pgs fl : Z) (zeroed : bool) (rem : Z) : U unit :=
  match fuel with
  | O => nofuel
  | S fuel =>
      if rem <=? 0 then ret tt
      else
        let order := log2_floor_u64 rem in
        let n := power_of2 order in
        let* pa := on_ext (raw_kmalloc n zeroed) in
        let ua := wrap64 (usr_va + wrap64 (wrap64 (pgs - rem) * PAGE_SIZE)) in
        let* ires := region_insert_user_physdata node ua pa n in
        ASSERT (ires =? RBT_INSERT_OK) ;;
        let* cfg := match usr_mmu_cfg_from_flags fl with Some cfg => ret cfg | None => panic end in
        let* mmu_res := on_ext (k_mmu_map ua pa (wrap64 (n * PAGE_SIZE)) cfg) in
        ASSERT (mmu_res =? MMU_MAP_OK) ;;
        map_user_loop fuel node usr_va pgs fl zeroed (rem - n)
  end.

(** Each round takes the highest bit of [rem]. *)
Definition map_user_region (node usr_va pgs fl : Z) (zeroed : bool) : U unit :=
  map_user_loop 65 node usr_va pgs fl zeroed pgs.

Definition commit (node usrva pgs : Z) (zeroed : bool) : U unit :=
  let* r := get_region node in
  let abs_region_end := region_end r in
  if abs_region_end <? wrap64 (usrva + wrap64 (pgs * PAGE_SIZE)) then panic
  else
    (if Z.land (flags r) F_HAS_PHYS =? 0 then
       committed_init node ;;
       upd_region node (fun r => with_flags (Z.lor (flags r) F_HAS_PHYS) r)
     else ret tt) ;;
    let* r := get_region node in
    map_user_region node usrva pgs (flags r) zeroed ;;
    committed_set node (wrap64 (usrva - usr_start r) / PAGE_SIZE) (Z.to_nat pgs) ;;
    let* st := get_commited_state node in
    match st with
    | COMMITED_PARTIALLY =>
        upd_region node (fun r => with_flags (Z.lor (flags r) F_PARTIALLY_MAPPED) r) ;;
        upd_region node (fun r => with_flags (Z.land (flags r) (not32 F_FULL_MAPPED)) r)
    | COMMITED_FULLY =>
        upd_region node (fun r => with_flags (Z.lor (flags r) F_FULL_MAPPED) r) ;;
        upd_region node (fun r => with_flags (Z.land (flags r) (not32 F_PARTIALLY_MAPPED)) r)
    | COMMITED_NONE => panic
    end.

(** [regions] is the address of the task's tree. *)
Definition uregion_reserve (regions usr_va pgs : Z) (read write exec : bool) : U Z :=
  let* node := node_malloc usr_va pgs read write exec false in
  let* inserted := region_insert regions node in
  let overlaps := negb inserted in
  if overlaps : bool then free_cell node ;; ret UREGION_OVERLAPS
  else ret UREGION_OK.

Definition uregion_reserve_static (regions usr_va pgs : Z) (read write exec zeroed : bool) : U Z :=
  let* node := node_malloc usr_va pgs read write exec true in
  let* inserted := region_insert regions node in
  let overlaps := negb inserted in
  if overlaps : bool then free_cell node ;; ret UREGION_OVERLAPS
  else
    let* r := get_region node in
    map_user_region node usr_va pgs (flags r) zeroed ;;
    committed_init node ;;
    let* r := get_region node in
    committed_set node 0 (Z.to_nat (pages r)) ;;
    upd_region node (fun r => with_flags (Z.lor (flags r) (Z.lor F_HAS_PHYS F_FULL_MAPPED)) r) ;;
    ret UREGION_OK.

Definition uregion_commit (regions usrva pgs : Z) (zeroed : bool) : U unit :=
  let* node := region_find_usrva regions usrva in
  if node =? 0 then panic
  else
    let* r := get_region node in
    let abs_region_end := region_end r in
    if abs_region_end <? wrap64 (usrva + wrap64 (pgs * PAGE_SIZE)) then panic
    else commit node usrva pgs zeroed.

Definition physdata_destroy (node : Z) : U unit :=
  let* p := get_phys node in
  on_ext (raw_kfree (kpa_to_kva (physical_address p))) ;;
  let* ures := on_ext (k_mmu_unmap (user_address p) (wrap64 (page_count p * PAGE_SIZE))) in
  ASSERT (ures =? MMU_UNMAP_OK) ;;
  free_cell node.

Definition region_destroy (regions node : Z) : U unit :=
  rbt_destroy (@on_mem (cell udata) E) node (Some physdata_destroy) ;;
  let* r := get_region node in
  (if 64 <? pages r then free_cell (committed r) else ret tt) ;;
  let* n := on_mem (rbt_remove regions node) in
  free_cell n.

Definition uregion_free (regions usrva pgs : Z) : U bool :=
  let* node := region_find_usrva regions usrva in
  if node =? 0 then ret false
  else
    let* r := get_region node in
    let reg_start := usr_start r in
    let reg_end := region_end r in
    let fr_start := usrva in
    let fr_end := wrap64 (fr_start + wrap64 (pgs * PAGE_SIZE)) in
    if reg_end <? fr_end then ret false
    else
      let trims_start := fr_start =? reg_start in
      let trims_end := fr_end =? reg_end in
      if trims_start && trims_end then region_destroy regions node ;; ret true
      else panic.

(** ** Queries *)

(** The node of the region, when the range is in one. *)
Definition uregion_is_reserved (regions start size : Z) : U (option Z) :=
  if size =? 0 then ret None
  else
    let* node := region_find_usrva regions start in
    if node =? 0 then ret None
    else
      let* r := get_region node in
      let reg_end := region_end r in
      let range_end := wrap64 (start + size) in
      if reg_end <? range_end then ret None else ret (Some node).

Fixpoint all_committed (node idx : Z) (n : nat) : U bool :=
  match n with
  | O => ret true
  | S n =>
      let* w := bf_get node (idx / 64) in
      if negb (bitfield_get w (idx mod 64)) then ret false else all_committed node (idx + 1) n
  end.

Definition uregion_is_committed (regions start size : Z) : U bool :=
  let* o := uregion_is_reserved regions start size in
  match o with
  | None => ret false
  | Some node =>
      let* r := get_region node in
      if negb (Z.land (flags r) F_FULL_MAPPED =? 0) then ret true
      else if Z.land (flags r) F_HAS_PHYS =? 0 then ret false
      else
        let first_page := wrap64 (start - usr_start r) / PAGE_SIZE in
        let n := div_ceil size PAGE_SIZE in
        all_committed node first_page (Z.to_nat n)
  end.

(** An area to commit: region, address, pages. *)
Definition uma_t : Type := Z * Z * Z.

(** The code, and on success the end of the chunk and the area to commit. *)
Definition unode_check_access (regions unode start end_ required forbidden : Z) (commit_on_demand : bool) :
    U (Z * Z * list uma_t) :=
  if unode =? 0 then ret (UREGION_ACCESS_NOT_RESERVED, 0, [])
  else
    let* r := get_region unode in
    if negb (Z.land (flags r) required =? required) || negb (Z.land (flags r) forbidden =? 0)
    then ret (UREGION_ACCESS_NO_PERMISSION, 0, [])
    else
      let chunk_end := Z.min end_ (region_end r) in
      let chunk_size := wrap64 (chunk_end - start) in
      let* com := uregion_is_committed regions start chunk_size in
      if com : bool then ret (UREGION_ACCESS_OK, chunk_end, [])
      else if negb commit_on_demand then ret (UREGION_ACCESS_NOT_COMMITTED, 0, [])
      else ret (UREGION_ACCESS_OK, chunk_end, [(unode, start, chunk_size / PAGE_SIZE)]).

Fixpoint check_access_loop (fuel : nat) (regions cursor end_ required forbidden : Z) (commit_on_demand : bool)
    (to_commit : list uma_t) : U (Z * list uma_t) :=
  match fuel with
  | O => nofuel
  | S fuel =>
      if end_ <=? cursor then ret (UREGION_ACCESS_OK, to_commit)
      else
        let* unode := region_find_usrva regions cursor in
        let* a := unode_check_access regions unode cursor end_ required forbidden commit_on_demand in
        let '(uaccess, chunk_end, areas) := a in
        if negb (uaccess =? UREGION_ACCESS_OK) then ret (uaccess, [])
        else check_access_loop fuel regions chunk_end end_ required forbidden commit_on_demand (to_commit ++ areas)
  end.

Fixpoint commit_areas (areas : list uma_t) : U unit :=
  match areas with
  | [] => ret tt
  | (node, ua, n) :: areas => commit node ua (wrap32 n) true ;; commit_areas areas
  end.

(** Every chunk but the last ends at the end of a region. *)
Definition uregions_check_access (regions start size required forbidden : Z) (commit_on_demand : bool) : U Z :=
  let end_ := align_up (wrap64 (start + size)) PAGE_ALIGN in
  let start := align_down start PAGE_ALIGN in
  let* a := check_access_loop (S (Z.to_nat ((end_ - start) / PAGE_SIZE))) regions start end_ required forbidden commit_on_demand [] in
  let '(uaccess, areas) := a in
  if negb (uaccess =? UREGION_ACCESS_OK) then ret uaccess
  else commit_areas areas ;; ret UREGION_ACCESS_OK.

Definition USR_ADDRSPACE_END : Z := Z.land KERNEL_BASE (not64 0xFFFF000000000000).

(** [find_free_ctx_t]: the size is fixed; what is written to [*out], if
    anything, with [found]. *)
Record find_free_ctx_t : Type := MkFree { prev_start : Z; out : option Z }.

Definition find_free_visitor (size : Z) (_ : Z) (node : udata) (ctx : find_free_ctx_t) : bool * find_free_ctx_t :=
  let r := region_of node in
  let curr_end := region_end r in
  let gap := wrap64 (prev_start ctx - curr_end) in
  if size <=? gap then (false, MkFree (prev_start ctx) (Some (align_down (wrap64 (prev_start ctx - size)) PAGE_SIZE)))
  else (true, MkFree (usr_start r) (out ctx)).

Definition uregion_find_free (regions pgs : Z) : U (option Z) :=
  if pgs =? 0 then ret None
  else
    let size := wrap64 (pgs * PAGE_SIZE) in
    let* ctx := on_mem (rbt_for_each_rev regions (find_free_visitor size) (MkFree USR_ADDRSPACE_END None)) in
    match out ctx with
    | Some a => ret (Some a)
    | None => ret (if size <=? prev_start ctx then Some (align_down (wrap64 (prev_start ctx - size)) PAGE_SIZE) else None)
    end.

Definition uregion_get_flags (region : Z) : U Z :=
  if region =? 0 then ret 0
  else let* r := get_region region in ret (Z.land (flags r) (Z.lor (Z.lor F_READ F_WRITE) F_EXEC)).

(** ** Copies between the kernel and a task *)

(** The kernel address behind [usr_ptr] and how many bytes follow it in its
    physical block. *)
Definition usr_block (regions usr_ptr : Z) : U (Z * Z) :=
  let* unode := region_find_usrva regions usr_ptr in
  let* r := on_mem (rbt_find unode (pdata_find_condition usr_ptr)) in
  let* pnode := deref r.2 in
  let* p := get_phys pnode in
  let node_offset := wrap64 (usr_ptr - user_address p) in
  let block_remain := wrap64 (wrap64 (page_count p * PAGE_SIZE) - node_offset) in
  ret (kpa_to_kva (wrap64 (physical_address p + node_offset)), block_remain).

Fixpoint usr_loop (fuel : nat) (regions usr_start_ size : Z) (body : Z -> Z -> Z -> M E unit) (off : Z) : U unit :=
  match fuel with
  | O => nofuel
  | S fuel =>
      if size <=? off then ret tt
      else
        let* b := usr_block regions (wrap64 (usr_start_ + off)) in
        let '(knl_ptr, block_remain) := b in
        let chunk := Z.min block_remain (size - off) in
        on_ext (body knl_ptr off chunk) ;;
        usr_loop fuel regions usr_start_ size body (off + chunk)
  end.

Definition umemcpy (regions dst src size required forbidden : Z) (commit_on_demand knl_to_usr : bool) : U Z :=
  let usr_start_ := if knl_to_usr then dst else src in
  let* access := uregions_check_access regions usr_start_ size required forbidden commit_on_demand in
  if negb (access =? UREGION_ACCESS_OK) then ret access
  else
    usr_loop (S (Z.to_nat size)) regions usr_start_ size
      (fun knl_ptr off chunk => if knl_to_usr then k_memcpy knl_ptr (wrap64 (src + off)) chunk
                                else k_memcpy (wrap64 (dst + off)) knl_ptr chunk) 0 ;;
    ret UREGION_ACCESS_OK.

Definition umemzero (regions usr_dst size required forbidden : Z) (commit_on_demand : bool) : U Z :=
  let* access := uregions_check_access regions usr_dst size required forbidden commit_on_demand in
  if negb (access =? UREGION_ACCESS_OK) then ret access
  else
    usr_loop (S (Z.to_nat size)) regions usr_dst size (fun knl_ptr _ chunk => k_memzero knl_ptr chunk) 0 ;;
    ret UREGION_ACCESS_OK.

(** The bytes of one block, up to the terminator: whether it was seen. *)
Fixpoint copy_string (n : nat) (dst src : Z) : M E bool :=
  match n with
  | O => ret false
  | S n =>
      let* b := get_byte src in
      put_byte dst b ;;
      if b =? 0 then ret true else copy_string n (wrap64 (dst + 1)) (wrap64 (src + 1))
  end.

Fixpoint ustrncpy_loop (fuel : nat) (regions kernel_buf usr_start_ required forbidden max off : Z) : U Z :=
  match fuel with
  | O => nofuel
  | S fuel =>
      if max <=? off then
        on_ext (put_byte (wrap64 (kernel_buf + (max - 1))) 0) ;;
        ret UREGION_ACCESS_TRUNCATED
      else
        let usr_ptr := wrap64 (usr_start_ + off) in
        let* unode := region_find_usrva regions usr_ptr in
        let* a := unode_check_access regions unode usr_ptr (wrap64 (usr_start_ + max)) required forbidden false in
        let '(uaccess, _, _) := a in
        if negb (uaccess =? UREGION_ACCESS_OK) then ret uaccess
        else
          let* b := usr_block regions usr_ptr in
          let '(knl_ptr, block_remain) := b in
          let chunk := Z.min block_remain (max - off) in
          let* seen := on_ext (copy_string (Z.to_nat chunk) (wrap64 (kernel_buf + off)) knl_ptr) in
          if seen : bool then ret UREGION_ACCESS_OK
          else ustrncpy_loop fuel regions kernel_buf usr_start_ required forbidden max (off + chunk)
  end.

Definition ustrncpy (regions kernel_buf usr_string required forbidden max : Z) : U Z :=
  ustrncpy_loop (S (Z.to_nat max)) regions kernel_buf usr_string required forbidden max 0.

(** [chunk] is bounded by [size - off], which wraps when the range is not
    page aligned and the last page is flushed. *)
Fixpoint flush_loop (fuel : nat) (regions cursor end_ size off : Z) : U unit :=
  match fuel with
  | O => nofuel
  | S fuel =>
      if end_ <=? cursor then ret tt
      else
        let* b := usr_block regions cursor in
        let '(knl_ptr, block_remain) := b in
        let chunk := Z.min block_remain (wrap64 (size - off)) in
        on_ext (cache_flush_range knl_ptr (wrap64 (knl_ptr + chunk))) ;;
        flush_loop fuel regions (wrap64 (cursor + chunk)) end_ size (wrap64 (off + chunk))
  end.

Definition uregion_flush_icache (regions usr_start_ size : Z) (fuel : nat) : U unit :=
  let end_ := align_up (wrap64 (usr_start_ + size)) PAGE_ALIGN in
  let cursor := align_down usr_start_ PAGE_ALIGN in
  flush_loop fuel regions cursor end_ size 0.

End Regions.
