(* ===== verification/UregionSpec.v ===== *)
(** * UregionSpec: the tree of regions

    The regions of a task as a list ordered by address.  [kernel_laws] is what
    uregion.c relies on from the allocators and the MMU, as equations on an
    observation of their state. *)

From Stdlib Require Import ZArith Lia Sorted.
From stdpp Require Import base gmap list.
From iris.proofmode Require Import proofmode.
From S2P Require Import Prelude KMath MmuDc VmContainers HeapLogic Rbtree RbtreeTree RbtreeRep RbtreeInsert RbtreeErase RbtreeRemove RbtreeTraverse RbtreeDestroy RbtreeKeys Uregion.

Open Scope Z_scope.

(** ** What the kernel below promises *)

(** The blocks that kmalloc can hand out, a number of page frames that can be
    had in blocks of powers of two whatever the fragmentation, the blocks of
    frames in use with their sizes, the pages of the user's address space with
    their frames and attributes. *)
Record kobs : Type := MkObs {
  chunks : gset Z;
  frames : Z;
  pblocks : gmap Z Z;
  upages : gmap Z (Z * mmu_pg_cfg)
}.

Definition with_chunks (c : gset Z) (o : kobs) : kobs := MkObs c (frames o) (pblocks o) (upages o).
Definition take_block (pa n fr : Z) (o : kobs) : kobs := MkObs (chunks o) fr (<[pa := n]> (pblocks o)) (upages o).
Definition give_block (pa fr : Z) (o : kobs) : kobs := MkObs (chunks o) fr (delete pa (pblocks o)) (upages o).
Definition with_upages (g : gmap Z (Z * mmu_pg_cfg)) (o : kobs) : kobs := MkObs (chunks o) (frames o) (pblocks o) g.

(** The pages of [n] frames from [pa] mapped from [va] on. *)
Definition page_map (va pa : Z) (n : nat) (cfg : mmu_pg_cfg) : gmap Z (Z * mmu_pg_cfg) :=
  list_to_map ((fun i => (va + i * PAGE_SIZE, (pa + i * PAGE_SIZE, cfg))) <$> seqZ 0 (Z.of_nat n)).

Definition page_aligned (a : Z) : Prop := a mod PAGE_SIZE = 0.
Definition user_range (va : Z) (n : Z) : Prop := page_aligned va /\ 0 <= va /\ 0 < n /\ va + n * PAGE_SIZE <= USR_ADDRSPACE_END.

(** The number of pages of a block of the buddy allocator that raw_kmalloc
    serves at the fixed offset and the MMU maps without freeing a table: a
    power of two, at most 256. *)
Definition block_size (n : Z) : Prop := exists o, 0 <= o <= 8 /\ n = 2 ^ o.

(** What is asked of raw_kmalloc, raw_kfree and the MMU is what their own
    theorems say ([raw_kmalloc_kmap_ok], [raw_kmalloc_kfree_kmap_roundtrip],
    [mmu_map_ok], [mmu_unmap_ok]): a request is a power of two of at most 256
    pages; [frames] is a lower bound, so a request takes at most its pages
    from it and giving a block back does not lower it; a range of fewer than
    512 pages contains no last-level table.  Blocks can be given back
    wherever they are, as in a memory of a power-of-two number of pages. *)
Class KernelLaws (E : Type) `{!Kernel E} : Type := {
  obs : E -> kobs;
  chunks_ptr e p : p ∈ chunks (obs e) -> node_ptr p;
  kmalloc_ok e bytes : chunks (obs e) <> ∅ ->
    exists p e', kmalloc bytes e = Ok (p, e') /\ p ∈ chunks (obs e) /\ obs e' = with_chunks (chunks (obs e) ∖ {[p]}) (obs e);
  kfree_ok e p : node_ptr p -> p ∉ chunks (obs e) ->
    exists e', kfree p e = Ok (tt, e') /\ obs e' = with_chunks ({[p]} ∪ chunks (obs e)) (obs e);
  raw_kmalloc_ok e n zeroed : block_size n -> n <= frames (obs e) ->
    exists pa fr e', raw_kmalloc n zeroed e = Ok (pa, e') /\ page_aligned pa /\ 0 <= pa /\ pa + n * PAGE_SIZE <= 2 ^ 47 /\ pblocks (obs e) !! pa = None /\
      frames (obs e) - n <= fr /\ obs e' = take_block pa n fr (obs e);
  raw_kfree_ok e pa n : pblocks (obs e) !! pa = Some n ->
    exists fr e', raw_kfree (kpa_to_kva pa) e = Ok (tt, e') /\ frames (obs e) <= fr /\ obs e' = give_block pa fr (obs e);
  mmu_map_law e va pa n cfg :
    user_range va (Z.of_nat n) -> Z.of_nat n < 512 -> page_aligned pa ->
    (forall i, 0 <= i < Z.of_nat n -> upages (obs e) !! (va + i * PAGE_SIZE) = None) ->
    exists e', k_mmu_map va pa (Z.of_nat n * PAGE_SIZE) cfg e = Ok (MMU_MAP_OK, e') /\
      obs e' = with_upages (page_map va pa n cfg ∪ upages (obs e)) (obs e);
  mmu_unmap_law e va n :
    user_range va (Z.of_nat n) -> Z.of_nat n < 512 ->
    (forall i, 0 <= i < Z.of_nat n -> is_Some (upages (obs e) !! (va + i * PAGE_SIZE))) ->
    exists e', k_mmu_unmap va (Z.of_nat n * PAGE_SIZE) e = Ok (MMU_UNMAP_OK, e') /\
      obs e' = with_upages (filter (fun x => ~ (va <= x.1 < va + Z.of_nat n * PAGE_SIZE)) (upages (obs e))) (obs e)
}.

(** A block in use is not handed out. *)
Definition fresh {E} `{!Kernel E} `{!KernelLaws E} (e : E) (d : gset Z) : Prop := chunks (obs e) ## d.

#[export] Instance fresh_antitone {E} `{!Kernel E} `{!KernelLaws E} : Antitone (fresh (E := E)).
Proof. intros e d d' H Hs. unfold fresh in *. set_solver. Qed.

Section Cells.
Context {E : Type} `{!Kernel E} `{!KernelLaws E}.
Abbreviation prop := (heapProp (cell udata)).
Abbreviation uwp := (uwp (fresh (E := E))).

Lemma uwp_malloc_cell bytes v e (Φ : Z -> E -> prop) :
  chunks (obs e) <> ∅ ->
  (∀ p e', ⌜p ∈ chunks (obs e) /\ node_ptr p /\ obs e' = with_chunks (chunks (obs e) ∖ {[p]}) (obs e)⌝ -∗ p ↦ Node (MkRb 0 0 0 v) -∗ Φ p e') ⊢
    uwp (malloc_cell bytes v) e Φ.
Proof.
  intros Hne. destruct (kmalloc_ok e bytes Hne) as (p & e' & Ek & Hp & Eo). iIntros "HΦ". unfold malloc_cell.
  iApply (uwp_new _ _ p _ e e' _ Ek).
  - intros d Hd. unfold fresh in *. rewrite Eo. cbn. split; set_solver.
  - iApply "HΦ". iPureIntro. split; [done|]. split; [by eapply chunks_ptr|done].
Qed.

Lemma uwp_free_cell p c e (Φ : unit -> E -> prop) :
  node_ptr p ->
  p ↦ c ⊢ (∀ e', ⌜obs e' = with_chunks ({[p]} ∪ chunks (obs e)) (obs e)⌝ -∗ Φ tt e') -∗ uwp (free_cell p) e Φ.
Proof.
  intros Hp. apply bi.wand_intro_r. split. intros m Hm f Hd Hok.
  assert (p ∉ chunks (obs e)) as Hpc.
  { destruct Hm as (m1 & m2 & -> & _ & Hp1 & _). cbn in Hp1. intros Hc. apply (Hok p Hc). apply elem_of_dom.
    exists c. apply lookup_union_Some_l, lookup_union_Some_l, Hp1. }
  destruct (kfree_ok e p Hp Hpc) as (e' & Ek & Eo).
  assert (p ↦ c ∗ (∀ e', ⌜obs e' = with_chunks ({[p]} ∪ chunks (obs e)) (obs e)⌝ -∗ Φ tt e') ⊢ uwp (free_cell p) e Φ) as H.
  { iIntros "[Hp HΦ]". iApply (uwp_drop _ _ _ _ _ tt e' _ Ek with "Hp"); [|by iApply "HΦ"].
    intros d Hd' Hpd. unfold fresh in *. rewrite Eo. cbn. set_solver. }
  destruct H as [H]. by apply (H m).
Qed.
End Cells.

(** ** Opening a node of a tree *)

Section Open.
Context {V : Type} `{!TreeField V}.
Implicit Types (tree : header V) (t l r : tree V) (k : list (frame V)) (v : V).

Definition set_data v (n : rbtnode V) : rbtnode V := MkRb (left n) (right n) (packed n) v.

Lemma rb_set_data c0 n c l p v v' r : rb c0 n (T c l p v r) -> rb c0 n (T c l p v' r).
Proof. inversion 1; subst; econstructor; eauto. Qed.

Lemma whole_open tree a p v b :
  whole tree (a ++ (p, v) :: b) ⊢ ∃ n, ⌜data n = v /\ node_ptr p⌝ ∗ p ↦ Node n ∗
    (∀ v', p ↦ Node (set_data v' n) -∗ whole tree (a ++ (p, v') :: b)).
Proof.
  iIntros "(%t & Htr & Ht & %Hrb & %He)". destruct (plug_at _ _ _ _ _ He) as (k & c & l & r & -> & Hx).
  destruct (plug_rb_inv _ _ Hrb) as (b0 & n & c0 & Hk & Hn).
  iDestruct (plug_open with "Htr Ht") as "[Hk Ht]". cbn [ptr].
  iDestruct (tree_at_node (cpar k) L c l p v r with "Ht") as "(%Hp & Hp & Hl & Hr)".
  iExists _. iFrame "Hp". iSplit; [by iPureIntro|]. iIntros (v') "Hp".
  iApply (whole_plug tree k (T c l p v' r) with "Hk [Hp Hl Hr]"); [|by rewrite -(Hx [(p, v')])|by iFrame].
  destruct Hrb as [m Hm]. destruct (rb_plug_inv _ _ _ Hm) as (b1 & m1 & c1 & Hk1 & Hm1 & Hc).
  eapply plug_rb; [exact Hk1|]. destruct c1; [left; by eapply rb_set_data|right].
  split; [by apply Hc|]. exists RED. by eapply rb_set_data.
Qed.
End Open.

(** ** Lists of intervals in order *)

Section Intervals.
Context {A : Type} (lo hi : A -> Z).
Implicit Types (x y : Z * A) (xs a b : list (Z * A)) (i : A).

Definition apart i j : Prop := hi i <= lo j.
Definition meets i j : Prop := ~ apart i j /\ ~ apart j i.
Definition in_order xs : Prop := Forall (fun x => lo x.2 < hi x.2) xs /\ StronglySorted (fun x y => apart x.2 y.2) xs.

Lemma in_order_cons x xs : in_order (x :: xs) <-> lo x.2 < hi x.2 /\ in_order xs /\ forall y, y ∈ xs -> apart x.2 y.2.
Proof.
  unfold in_order. rewrite Forall_cons. split.
  - intros [[Hx Hf] Hs]. apply StronglySorted_inv in Hs as [Hs Hle]. rewrite Forall_forall in Hle. auto.
  - intros (Hx & [Hf Hs] & Hle). split; [done|]. constructor; [done|]. by apply Forall_forall.
Qed.

Lemma in_order_app a b : in_order (a ++ b) <-> in_order a /\ in_order b /\ (forall x y, x ∈ a -> y ∈ b -> apart x.2 y.2).
Proof.
  induction a as [|x a IH]; cbn.
  - split; [intros H; split; [by split; constructor|split; [done|by intros ?? ?%elem_of_nil]]|tauto].
  - rewrite !in_order_cons IH. split.
    + intros (Hx & (Ha & Hb & Hab) & Hle). split; [|split; [done|]].
      * split; [done|]. split; [done|]. intros y Hy. apply Hle. apply elem_of_app. by left.
      * intros y z [->|Hy]%elem_of_cons Hz; [apply Hle; apply elem_of_app; by right|by apply Hab].
    + intros ((Hx & Ha & Hle) & Hb & Hab). split; [done|]. split; [split; [done|]; split; [done|]|].
      * intros y z Hy Hz. apply Hab; [by right|done].
      * intros y [Hy|Hy]%elem_of_app; [by apply Hle|apply Hab; [by left|done]].
Qed.

Lemma in_order_insert a b p i :
  in_order (a ++ b) -> lo i < hi i -> (forall x, x ∈ a -> apart x.2 i) -> (forall x, x ∈ b -> apart i x.2) ->
  in_order (a ++ (p, i) :: b).
Proof.
  intros (Ha & Hb & Hab)%in_order_app Hi H1 H2. apply in_order_app. split; [done|]. split; [by apply in_order_cons|].
  intros x y Hx [->|Hy]%elem_of_cons; [by apply H1|by apply Hab].
Qed.

Lemma in_order_remove a x b : in_order (a ++ x :: b) -> in_order (a ++ b).
Proof.
  intros (Ha & (_ & Hb & _)%in_order_cons & Hab)%in_order_app. apply in_order_app. split; [done|]. split; [done|].
  intros y z Hy Hz. apply Hab; [done|by right].
Qed.

(** The intervals below, meeting and above another one. *)
Lemma in_order_split i xs :
  lo i < hi i -> in_order xs ->
  exists a mid b, xs = a ++ mid ++ b /\ (forall x, x ∈ a -> apart x.2 i) /\ (forall x, x ∈ mid -> meets i x.2) /\ (forall x, x ∈ b -> apart i x.2).
Proof.
  intros Hi. induction xs as [|x xs IH]; [|rewrite in_order_cons]; intros Hs.
  { exists [], [], []. split; [done|]. split; [|split]; by intros y ?%elem_of_nil. }
  destruct Hs as (Hx & Hs & Hle). destruct (decide (hi x.2 <= lo i)) as [Hb|Hnb]; [|destruct (decide (hi i <= lo x.2)) as [Ha|Hna]].
  - destruct IH as (a & mid & b & -> & H1 & H2 & H3); [done|]. exists (x :: a), mid, b. split; [done|].
    split; [|done]. intros y [->|Hy]%elem_of_cons; [done|by apply H1].
  - exists [], [], (x :: xs). split; [done|]. split; [by intros y ?%elem_of_nil|]. split; [by intros y ?%elem_of_nil|].
    intros y [->|Hy]%elem_of_cons; [done|]. specialize (Hle y Hy). unfold apart in *. lia.
  - destruct IH as (a & mid & b & Exs & H1 & H2 & H3); [done|]. destruct a as [|z a].
    + exists [], (x :: mid), b. split; [by rewrite Exs|]. split; [done|]. split; [|done].
      intros y [->|Hy]%elem_of_cons; [unfold meets, apart; lia|by apply H2].
    + exfalso. assert (z ∈ xs) as Hz by (rewrite Exs; by left). specialize (H1 z ltac:(by left)). specialize (Hle z Hz).
      destruct Hs as [Hf _]. rewrite Forall_forall in Hf. specialize (Hf z Hz). unfold apart in *. lia.
Qed.

(** The interval around a point. *)
Lemma in_order_at v xs :
  in_order xs ->
  (exists a p i b, xs = a ++ (p, i) :: b /\ lo i <= v < hi i /\ (forall x, x ∈ a -> hi x.2 <= v) /\ (forall x, x ∈ b -> v < lo x.2)) \/
  (exists a b, xs = a ++ b /\ (forall x, x ∈ a -> hi x.2 <= v) /\ (forall x, x ∈ b -> v < lo x.2)).
Proof.
  induction xs as [|[p i] xs IH]; [|rewrite in_order_cons]; intros Hs.
  { right. exists [], []. split; [done|]. split; by intros x ?%elem_of_nil. }
  destruct Hs as (Hi & Hs & Hle). cbn in Hi, Hle.
  assert (v < hi i -> forall x, x ∈ xs -> v < lo x.2) as Hlt by (intros ? x Hx; specialize (Hle x Hx); unfold apart in Hle; lia).
  destruct (decide (hi i <= v)) as [Hb|Hnb]; [|destruct (decide (v < lo i)) as [Ha|Hna]].
  - destruct IH as [(a & q & j & b & -> & H1 & H2 & H3)|(a & b & -> & H2 & H3)]; [done| |].
    + left. exists ((p, i) :: a), q, j, b. split; [done|]. split; [done|]. split; [|done]. intros x [->|Hx]%elem_of_cons; [done|by apply H2].
    + right. exists ((p, i) :: a), b. split; [done|]. split; [|done]. intros x [->|Hx]%elem_of_cons; [done|by apply H2].
  - right. exists [], ((p, i) :: xs). split; [done|]. split; [by intros x ?%elem_of_nil|].
    intros x [->|Hx]%elem_of_cons; [done|]. apply Hlt; [lia|done].
  - left. exists [], p, i, xs. split; [done|]. split; [lia|]. split; [by intros x ?%elem_of_nil|]. apply Hlt. lia.
Qed.

End Intervals.

(** ** Regions in order *)

Definition rend (r : uregion_t) : Z := usr_start r + pages r * PAGE_SIZE.

Definition region_ok (r : uregion_t) : Prop := user_range (usr_start r) (pages r) /\ pages r < 2 ^ 32.

Abbreviation rlist := (list (Z * uregion_t)).
Definition nodes_of (rs : rlist) : list (Z * udata) := (fun x => (x.1, URegion x.2)) <$> rs.

Abbreviation before := (apart usr_start rend).
Abbreviation overlaps := (meets usr_start rend).
Definition regions_ok (rs : rlist) : Prop := Forall (fun x => region_ok x.2) rs /\ in_order usr_start rend rs.

Lemma USR_ADDRSPACE_END_val : USR_ADDRSPACE_END = 2 ^ 47.
Proof. reflexivity. Qed.

Lemma region_end_ok r : region_ok r -> region_end r = rend r /\ 0 <= usr_start r < rend r /\ rend r <= 2 ^ 47.
Proof.
  intros [(_ & Hs & Hp & He) Hp']. unfold region_end, rend, PAGE_SIZE in *. rewrite USR_ADDRSPACE_END_val in He.
  rewrite (wrap_small 64 (pages r * 4096)); [|unfold u_range; lia]. rewrite wrap_small; unfold u_range; lia.
Qed.

Lemma nodes_of_app rs rs' : nodes_of (rs ++ rs') = nodes_of rs ++ nodes_of rs'.
Proof. apply fmap_app. Qed.

Lemma elem_of_nodes p v rs : (p, v) ∈ nodes_of rs <-> exists r, v = URegion r /\ (p, r) ∈ rs.
Proof.
  unfold nodes_of. rewrite list_elem_of_fmap. split.
  - intros ([q r] & [= -> ->] & H). eauto.
  - intros (r & -> & H). by exists (p, r).
Qed.

Lemma regions_ok_elem rs p r : regions_ok rs -> (p, r) ∈ rs -> region_ok r.
Proof. intros [H _] Hp. rewrite Forall_forall in H. exact (H _ Hp). Qed.

Lemma regions_ok_app a b :
  regions_ok (a ++ b) <-> regions_ok a /\ regions_ok b /\ (forall x y, x ∈ a -> y ∈ b -> before x.2 y.2).
Proof. unfold regions_ok. rewrite Forall_app in_order_app. tauto. Qed.

Lemma regions_insert a b p r :
  regions_ok (a ++ b) -> region_ok r -> (forall x, x ∈ a -> before x.2 r) -> (forall x, x ∈ b -> before r x.2) ->
  regions_ok (a ++ (p, r) :: b).
Proof.
  intros [(Ha & Hb)%Forall_app Ho] Hr H1 H2. split; [apply Forall_app; split; [done|by constructor]|].
  apply in_order_insert; [done| |done|done]. apply region_end_ok in Hr as (_ & ? & _). lia.
Qed.

Lemma regions_remove a x b : regions_ok (a ++ x :: b) -> regions_ok (a ++ b).
Proof.
  intros [(Ha & Hb)%Forall_app Ho]. apply Forall_cons in Hb as [_ Hb]. split; [by apply Forall_app|]. by eapply in_order_remove.
Qed.

(** ** Comparisons on regions in range *)

Lemma insert_condition_eq r w :
  region_ok r -> region_ok w ->
  insert_region_condition (URegion r) (URegion w) =
    if rend r <=? usr_start w then RBT_LESS_THAN else if rend w <=? usr_start r then RBT_GREATER_THAN else RBT_EQUALS.
Proof.
  intros (Er & _)%region_end_ok (Ew & _)%region_end_ok. unfold insert_region_condition. cbn. by rewrite Er Ew.
Qed.

Section Placed.
Context (n : rbtnode udata) (r : uregion_t) (Hn : data n = URegion r) (Hr : region_ok r).

Lemma placed_right a : regions_ok a -> (forall x, x ∈ a -> before x.2 r) -> descends_right insert_region_condition n (nodes_of a).
Proof.
  intros Hok Ha q v (w & -> & Hq)%elem_of_nodes. rewrite Hn insert_condition_eq //; [|by eapply regions_ok_elem].
  specialize (Ha _ Hq). unfold apart in Ha. cbn in Ha. apply regions_ok_elem in Hq as (_ & Hw & _)%region_end_ok; [|done].
  pose proof (region_end_ok r Hr) as (_ & Hr' & _). destruct (Z.leb_spec (rend r) (usr_start w)); [lia|].
  destruct (Z.leb_spec (rend w) (usr_start r)); [done|lia].
Qed.

Lemma placed_left b : regions_ok b -> (forall x, x ∈ b -> before r x.2) -> goes_left insert_region_condition n (nodes_of b).
Proof.
  intros Hok Hb q v (w & -> & Hq)%elem_of_nodes. rewrite Hn insert_condition_eq //; [|by eapply regions_ok_elem].
  specialize (Hb _ Hq). unfold apart in Hb. cbn in Hb. by destruct (Z.leb_spec (rend r) (usr_start w)); [|lia].
Qed.

Lemma placed_equal mid : regions_ok mid -> (forall x, x ∈ mid -> overlaps r x.2) -> all_equal insert_region_condition n (nodes_of mid).
Proof.
  intros Hok Hm q v (w & -> & Hq)%elem_of_nodes. rewrite Hn insert_condition_eq //; [|by eapply regions_ok_elem].
  destruct (Hm _ Hq) as [H1 H2]. unfold apart in *. cbn in *.
  destruct (Z.leb_spec (rend r) (usr_start w)); [lia|]. destruct (Z.leb_spec (rend w) (usr_start r)); [lia|done].
Qed.
End Placed.

(** [rbt_insert] is [insert_with] for a comparison. *)
Lemma insert_cond_spec {V} `{!TreeField V} cond (tree : header V) p (n : rbtnode V) a b :
  haddr tree <> 0 -> node_ptr p -> descends_right cond n a -> goes_left cond n b ->
  whole tree (a ++ b) ∗ p ↦ Node n ⊢
    hwp (rbt_insert tree p cond) (fun r => ⌜r = RBT_INSERT_OK⌝ ∗ whole tree (a ++ (p, data n) :: b)).
Proof.
  intros Ht Hp Ha Hb. iIntros "[Hw Hp]".
  iApply (insert_with_spec cond (fun _ cmp => ret (cmp =? RBT_LESS_THAN)) with "Hw Hp"); [done..|].
  intros k cmp. apply tells_side_cmp.
Qed.

Lemma insert_cond_exists {V} `{!TreeField V} cond (tree : header V) p (n : rbtnode V) a mid b :
  haddr tree <> 0 -> p <> 0 -> descends_right cond n a -> goes_left cond n b -> all_equal cond n mid -> mid <> [] ->
  whole tree (a ++ mid ++ b) ∗ p ↦ Node n ⊢
    hwp (rbt_insert tree p cond) (fun r => ⌜r = RBT_INSERT_EXISTS⌝ ∗ whole tree (a ++ mid ++ b) ∗ p ↦ Node n).
Proof.
  intros Ht Hp Ha Hb Hm Hne. iIntros "[Hw Hp]".
  by iApply (insert_with_exists cond (fun _ cmp => ret (cmp =? RBT_LESS_THAN)) with "Hw Hp").
Qed.

Section Reserve.
Context {E : Type} `{!Kernel E} `{!KernelLaws E}.
Implicit Types (regions : header udata) (rs a b : rlist) (r : uregion_t) (e : E).
Abbreviation prop := (heapProp (cell udata)).
Abbreviation uwp := (uwp (fresh (E := E))).

(** What inserting a new region does. *)
Lemma region_insert_spec regions rs p n r e (Φ : bool -> E -> prop) :
  haddr regions <> 0 -> node_ptr p -> data n = URegion r -> region_ok r -> regions_ok rs ->
  whole regions (nodes_of rs) ∗ p ↦ Node n ⊢
    (∀ a b, ⌜rs = a ++ b /\ regions_ok (a ++ (p, r) :: b)⌝ -∗ whole regions (nodes_of (a ++ (p, r) :: b)) -∗ Φ true e) ∧
    (⌜exists x, x ∈ rs /\ overlaps r x.2⌝ -∗ whole regions (nodes_of rs) -∗ p ↦ Node n -∗ Φ false e) -∗
    uwp (region_insert regions p) e Φ.
Proof.
  intros Ht Hp Hn Hr Hrs. assert (usr_start r < rend r) as Hlt by (apply region_end_ok in Hr as (_ & ? & _); lia).
  destruct (in_order_split usr_start rend r rs Hlt (proj2 Hrs)) as (a & mid & b & -> & Ha & Hm & Hb).
  pose proof Hrs as (Hoka & Hmb & Hab)%regions_ok_app. pose proof Hmb as (Hokm & Hokb & _)%regions_ok_app.
  iIntros "H HΦ". unfold region_insert. iApply uwp_bind. iApply uwp_mem.
  pose proof (placed_right n r Hn Hr a Hoka Ha) as Gr. pose proof (placed_left n r Hn Hr b Hokb Hb) as Gl.
  destruct mid as [|x mid].
  - iApply (hwp_wand with "[H]").
    { rewrite nodes_of_app. iApply (insert_cond_spec with "H"); done. }
    iIntros (res) "[-> Hw]". iApply uwp_ret. iDestruct "HΦ" as "[HΦ _]". iApply ("HΦ" $! a b with "[] [Hw]").
    + iPureIntro. split; [done|]. by apply regions_insert.
    + rewrite (nodes_of_app a ((p, r) :: b)) Hn. done.
  - iApply (hwp_wand with "[H]").
    { rewrite nodes_of_app nodes_of_app. iApply (insert_cond_exists with "H"); [done|apply Hp|done|done| |done].
      by apply (placed_equal n r Hn Hr (x :: mid)). }
    iIntros (res) "(-> & Hw & Hp)". iApply uwp_ret. iDestruct "HΦ" as "[_ HΦ]". iApply ("HΦ" with "[] [Hw] Hp").
    + iPureIntro. exists x. split; [|apply Hm; by left]. rewrite elem_of_app elem_of_cons. tauto.
    + by rewrite !nodes_of_app.
Qed.

Definition new_region va pgs rd wr ex : uregion_t := MkRegion va pgs (node_flags rd wr ex false) 0 0.

(** The two outcomes of a reservation. *)
Definition reserved regions rs r e : Z -> E -> prop := fun res e' =>
  ((⌜res = UREGION_OK⌝ ∗ ∃ a b p, ⌜rs = a ++ b /\ regions_ok (a ++ (p, r) :: b) /\ p ∈ chunks (obs e) /\
       obs e' = with_chunks (chunks (obs e) ∖ {[p]}) (obs e)⌝ ∗ whole regions (nodes_of (a ++ (p, r) :: b))) ∨
   (⌜res = UREGION_OVERLAPS /\ (exists x, x ∈ rs /\ overlaps r x.2) /\ obs e' = obs e⌝ ∗ whole regions (nodes_of rs)))%I.

Lemma uregion_reserve_spec regions rs va pgs rd wr ex e :
  let r := new_region va pgs rd wr ex in
  haddr regions <> 0 -> regions_ok rs -> region_ok r -> chunks (obs e) <> ∅ ->
  whole regions (nodes_of rs) ⊢ uwp (uregion_reserve regions va pgs rd wr ex) e (reserved regions rs r e).
Proof.
  intros r Ht Hrs Hr Hc. iIntros "Hw". unfold uregion_reserve. iApply uwp_bind. iApply uwp_malloc_cell; [done|].
  iIntros (p e1) "(%Hp & %Hptr & %He1) Hp". iApply uwp_bind.
  iApply (region_insert_spec with "[$Hw $Hp]"); [done|done|done|exact Hr|done|]. iSplit.
  - iIntros (a b) "(-> & %Hok) Hw". cbn [negb]. iApply uwp_ret. iLeft. iSplit; [done|]. iExists a, b, p. by iFrame.
  - iIntros "%Hov Hw Hp". cbn [negb]. iApply uwp_bind. iApply (uwp_free_cell with "Hp"); [done|]. iIntros (e2) "%He2".
    iApply uwp_ret. iRight. iFrame. iPureIntro. split; [done|]. split; [done|]. rewrite He2 He1. cbn.
    destruct (obs e) as [c0 f0 b0 u0]. unfold with_chunks. cbn. f_equal. rewrite -union_difference_L; [done|]. cbn in Hp. set_solver.
Qed.

End Reserve.

(** ** Looking regions up *)

Definition contains (r : uregion_t) (va : Z) : Prop := usr_start r <= va < rend r.

Lemma find_condition_eq va r :
  region_ok r -> find_region_condition va (URegion r) =
    if va <? usr_start r then RBT_LESS_THAN else if rend r <=? va then RBT_GREATER_THAN else RBT_EQUALS.
Proof. intros (Er & _)%region_end_ok. unfold find_region_condition. cbn. by rewrite Er. Qed.

Lemma cuts_regions va a b :
  regions_ok a -> regions_ok b -> (forall x, x ∈ a -> rend x.2 <= va) -> (forall x, x ∈ b -> va < usr_start x.2) ->
  cuts (find_region_condition va) (nodes_of a) (nodes_of b).
Proof.
  intros Hoka Hokb Ha Hb. split; intros q v (w & -> & Hq)%elem_of_nodes; (rewrite find_condition_eq; [|by eapply regions_ok_elem; [|exact Hq]]).
  - pose proof (Ha _ Hq). apply regions_ok_elem in Hq as (_ & Hw & _)%region_end_ok; [|done]. cbn in *.
    destruct (Z.ltb_spec va (usr_start w)); [lia|]. by destruct (Z.leb_spec (rend w) va); [|lia].
  - specialize (Hb _ Hq). cbn in Hb. by destruct (Z.ltb_spec va (usr_start w)); [|lia].
Qed.

Section Find.
Context {E : Type} `{!Kernel E}.
Implicit Types (regions : header udata) (rs a b : rlist) (r : uregion_t).

Lemma on_mem_reads {A} (c : M (gmap Z (cell udata)) A) (s : mst (cell udata) E) x :
  c (mem s) = Ok (x, mem s) -> on_mem c s = Ok (x, s).
Proof. intros H. unfold on_mem. rewrite H. by destruct s. Qed.

(** The node of the region around [va], or null. *)
Definition region_around rs va (node : Z) : Prop :=
  (exists r, (node, r) ∈ rs /\ contains r va) \/ (node = 0 /\ forall p r, (p, r) ∈ rs -> ~ contains r va).

Lemma whole_tree regions xs m :
  holds (whole regions xs) m -> exists t, rbtree t /\ elems t = xs /\ holds (rep regions t) m.
Proof.
  intros (t & m1 & m2 & -> & Hd & H1 & m3 & m4 & -> & Hd2 & H3 & m5 & m6 & -> & _ & Hrb & He). exists t.
  split; [exact Hrb|]. split; [exact He|]. exists m1, (m3 ∪ (m5 ∪ m6)). split; [done|]. split; [done|]. split; [done|].
  eapply holds_mono; [exact H3|]. apply map_union_subseteq_l.
Qed.

Lemma find_reads regions t cond m :
  holds (rep regions t) m -> rbt_find regions cond m = Ok (tree_find cond t, m).
Proof.
  intros H. refine (reads_run _ _ _ _ (reads_find regions cond) _ H). iIntros "Ht". iApply (rbt_find_spec with "Ht"). by iIntros "_".
Qed.

Lemma region_find_spec regions rs va (s : mst (cell udata) E) :
  regions_ok rs -> holds (whole regions (nodes_of rs)) (mem s) ->
  exists node, region_find_usrva regions va s = Ok (node, s) /\ region_around rs va node.
Proof.
  intros Hok (t & Hrb & He & Hm)%whole_tree. unfold region_find_usrva, bind.
  rewrite (on_mem_reads _ s (tree_find (find_region_condition va) t)); [|by apply find_reads].
  destruct (in_order_at usr_start rend va rs (proj2 Hok)) as [(a & p & r & b & -> & Hc & Ha & Hb)|(a & b & -> & Ha & Hb)].
  - pose proof Hok as (Hoka & Hrb' & _)%regions_ok_app. pose proof Hrb' as (Hr1 & Hokb & _)%(regions_ok_app [(p, r)]).
    rewrite nodes_of_app in He. assert (region_ok r) as Hr by (apply (regions_ok_elem _ p r Hrb'); by left).
    assert (find_region_condition va (URegion r) = RBT_EQUALS) as Heq.
    { rewrite find_condition_eq //. destruct Hc. destruct (Z.ltb_spec va (usr_start r)); [lia|]. destruct (Z.leb_spec (rend r) va); [lia|done]. }
    rewrite (tree_find_hit _ _ _ _ _ _ He); [|by apply cuts_regions|by rewrite Heq|by rewrite Heq]. rewrite Heq. cbn.
    exists p. split; [done|]. left. exists r. split; [|done]. rewrite elem_of_app elem_of_cons. tauto.
  - pose proof Hok as (Hoka & Hokb & _)%regions_ok_app. rewrite nodes_of_app in He.
    rewrite (tree_find_miss _ _ _ _ He); [|by apply cuts_regions]. cbn. exists 0. split; [done|]. right. split; [done|].
    intros p r [Hp|Hp]%elem_of_app [H1 H2]; [specialize (Ha _ Hp); cbn in Ha; lia|specialize (Hb _ Hp); cbn in Hb; lia].
Qed.

End Find.

(** ** Free ranges, from the top *)

Definition range_free (rs : rlist) (x size : Z) : Prop := forall p r, (p, r) ∈ rs -> rend r <= x \/ x + size <= usr_start r.

(** [x] is the highest place for [size] bytes below [top]. *)
Definition highest_free (rs : rlist) (top size x : Z) : Prop :=
  range_free rs x size /\ x + size <= top /\ forall y, x < y -> y + size <= top -> ~ range_free rs y size.

Lemma align_down_page x : is_u64 x -> page_aligned x -> align_down x PAGE_SIZE = x.
Proof.
  intros Hx Ha. change PAGE_SIZE with (2 ^ 12). rewrite align_down_pow2 //. change (x mod 2 ^ 12 = 0) in Ha. lia.
Qed.

Lemma page_aligned_end r : region_ok r -> page_aligned (usr_start r) /\ page_aligned (rend r).
Proof.
  intros [(Ha & _) _]. split; [done|]. unfold page_aligned, rend in *. by rewrite Z.mod_add.
Qed.

Lemma page_aligned_sub x n : page_aligned x -> page_aligned (x - n * PAGE_SIZE).
Proof. unfold page_aligned. intros H. replace (x - n * PAGE_SIZE) with (x + (- n) * PAGE_SIZE) by lia. by rewrite Z.mod_add. Qed.

(** Where the search stands below the regions it has passed. *)
Definition lowest (rs : rlist) (top : Z) : Z := match rs with [] => top | (_, r) :: _ => usr_start r end.

Lemma lowest_snoc rs x top : lowest (rs ++ [x]) top = lowest rs (usr_start x.2).
Proof. destruct rs as [|[p r] rs]; [by destruct x|done]. Qed.

Lemma find_free_fold rs n top :
  let size := n * PAGE_SIZE in
  regions_ok rs -> 0 < n -> page_aligned top -> 0 <= top <= 2 ^ 47 -> (forall p r, (p, r) ∈ rs -> rend r <= top) ->
  let ctx := visit_all (find_free_visitor size) (rev (nodes_of rs)) (MkFree top None) in
  match out ctx with
  | Some x => page_aligned x /\ 0 <= x /\ highest_free rs top size x
  | None => prev_start ctx = lowest rs top /\ page_aligned (lowest rs top) /\ 0 <= lowest rs top <= 2 ^ 47 /\
      forall y, lowest rs top < y + size -> y + size <= top -> ~ range_free rs y size
  end.
Proof.
  intros size. revert top. induction rs as [|[p r] rs IH] using rev_ind; intros top Hok Hn Hat Ht Htop;
    (assert (0 < size) as Hsz by (unfold size, PAGE_SIZE; lia)).
  { cbn. split; [done|]. split; [done|]. split; [done|]. intros y. lia. }
  pose proof Hok as (Hoks & Hokr & Hbef)%regions_ok_app. assert (region_ok r) as Hr by (apply (regions_ok_elem _ p r Hokr); by left).
  pose proof (region_end_ok r Hr) as (Er & Hr' & Hr2). pose proof (page_aligned_end r Hr) as [Has Hae].
  assert (rend r <= top) as Hrt by (apply (Htop p); apply elem_of_app; right; by left).
  rewrite nodes_of_app rev_app_distr. cbn [nodes_of fmap list_fmap rev app visit_all fst snd].
  assert (find_free_visitor size p (URegion r) (MkFree top None) =
    if size <=? top - rend r then (false, MkFree top (Some (align_down (wrap64 (top - size)) PAGE_SIZE)))
    else (true, MkFree (usr_start r) None)) as ->.
  { unfold find_free_visitor. cbn [region_of prev_start out]. rewrite Er (wrap_small 64 (top - rend r)); [done|unfold u_range; lia]. }
  destruct (Z.leb_spec size (top - rend r)) as [Hfit|Hno]; cbn [out].
  - rewrite (wrap_small 64 (top - size)); [|unfold u_range; lia]. rewrite align_down_page; [|unfold u_range; lia|by apply page_aligned_sub].
    split; [by apply page_aligned_sub|]. split; [lia|]. split; [|split; [lia|intros y; lia]].
    intros q w [Hq|[[= -> ->]|Hq%elem_of_nil]%elem_of_cons]%elem_of_app; [|left; lia|done].
    left. specialize (Hbef (q, w) (p, r) Hq ltac:(by left)). unfold apart in Hbef. cbn in Hbef. lia.
  - assert (forall y, usr_start r < y + size -> y + size <= top -> ~ range_free (rs ++ [(p, r)]) y size) as Hnot.
    { intros y H1 H2 Hf. destruct (Hf p r); [apply elem_of_app; right; by left|lia|lia]. }
    assert (forall y, range_free (rs ++ [(p, r)]) y size -> range_free rs y size) as Hsub.
    { intros y Hf q w Hq. apply (Hf q). apply elem_of_app. by left. }
    specialize (IH (usr_start r) Hoks Hn Has ltac:(lia)). cbn zeta in IH.
    assert (forall q w, (q, w) ∈ rs -> rend w <= usr_start r) as Hrs.
    { intros q w Hq. specialize (Hbef (q, w) (p, r) Hq ltac:(by left)). exact Hbef. }
    specialize (IH Hrs). destruct (out _) as [x|].
    + destruct IH as (Hx & Hx0 & Hfree & Hxt & Hmax). split; [done|]. split; [done|]. split; [|split; [lia|]].
      * intros q w [Hq|[[= -> ->]|Hq%elem_of_nil]%elem_of_cons]%elem_of_app; [by apply (Hfree q)|right; lia|done].
      * intros y Hy Hyt Hf. destruct (decide (y + size <= usr_start r)) as [Hle|]; [exact (Hmax y Hy Hle (Hsub y Hf))|]. apply (Hnot y); [lia|done|done].
    + rewrite lowest_snoc. destruct IH as (H1 & H2 & H3 & H4). split; [done|]. split; [done|]. split; [done|].
      intros y Hy1 Hy2 Hf. destruct (decide (y + size <= usr_start r)) as [Hle|]; [exact (H4 y Hy1 Hle (Hsub y Hf))|]. apply (Hnot y); [lia|done|done].
Qed.
