(* ===== verification/UregionBlocks.v ===== *)
(** * UregionBlocks: the physical blocks of a region

    A region with the tree of its physical blocks ([region_at]), and the loop
    that maps a range of pages with blocks of powers of two. *)

From Stdlib Require Import ZArith Lia.
From stdpp Require Import base gmap list.
From iris.proofmode Require Import proofmode.
From S2P Require Import Prelude KMath MmuDc VmContainers HeapLogic Rbtree RbtreeTree RbtreeRep RbtreeInsert RbtreeTraverse RbtreeKeys Uregion UregionSpec.

Open Scope Z_scope.

(** ** Physical blocks *)

Definition pend (b : physdata_t) : Z := user_address b + page_count b * PAGE_SIZE.
Definition phys_ok (b : physdata_t) : Prop :=
  user_range (user_address b) (page_count b) /\ block_size (page_count b) /\ page_aligned (physical_address b) /\
  0 <= physical_address b /\ physical_address b + page_count b * PAGE_SIZE <= 2 ^ 47.
Abbreviation plist := (list (Z * physdata_t)).
Definition phys_nodes (pds : plist) : list (Z * udata) := (fun x => (x.1, UPhys x.2)) <$> pds.
Definition blocks_ok (pds : plist) : Prop := Forall (fun x => phys_ok x.2) pds /\ in_order user_address pend pds.

Lemma phys_end_ok b : phys_ok b -> phys_end b = pend b /\ 0 <= user_address b < pend b /\ pend b <= 2 ^ 47.
Proof.
  intros [(_ & Hs & Hp & He) _]. unfold phys_end, pend, PAGE_SIZE in *. rewrite USR_ADDRSPACE_END_val in He.
  rewrite (wrap_small 64 (page_count b * 4096)); [|unfold u_range; lia]. rewrite wrap_small; unfold u_range; lia.
Qed.

Lemma phys_nodes_app pds pds' : phys_nodes (pds ++ pds') = phys_nodes pds ++ phys_nodes pds'.
Proof. apply fmap_app. Qed.

Lemma elem_of_phys p v pds : (p, v) ∈ phys_nodes pds <-> exists b, v = UPhys b /\ (p, b) ∈ pds.
Proof.
  unfold phys_nodes. rewrite list_elem_of_fmap. split.
  - intros ([q b] & [= -> ->] & H). eauto.
  - intros (b & -> & H). by exists (p, b).
Qed.

Lemma blocks_elem pds p b : blocks_ok pds -> (p, b) ∈ pds -> phys_ok b.
Proof. intros [H _] Hp. rewrite Forall_forall in H. exact (H _ Hp). Qed.

Lemma blocks_ok_app xs ys :
  blocks_ok (xs ++ ys) <-> blocks_ok xs /\ blocks_ok ys /\ (forall x y, x ∈ xs -> y ∈ ys -> apart user_address pend x.2 y.2).
Proof. unfold blocks_ok. rewrite Forall_app in_order_app. tauto. Qed.

Lemma blocks_insert xs ys p b :
  blocks_ok (xs ++ ys) -> phys_ok b -> (forall x, x ∈ xs -> apart user_address pend x.2 b) ->
  (forall x, x ∈ ys -> apart user_address pend b x.2) -> blocks_ok (xs ++ (p, b) :: ys).
Proof.
  intros [(Hx & Hy)%Forall_app Ho] Hb H1 H2. split; [apply Forall_app; split; [done|by constructor]|].
  apply in_order_insert; [done| |done|done]. apply phys_end_ok in Hb as (_ & ? & _). lia.
Qed.

(** The new block compared with a block below and with one above. *)
Lemma pdata_condition_below b x :
  phys_ok b -> phys_ok x -> apart user_address pend x b -> pdata_insert_condition (UPhys b) (UPhys x) = RBT_GREATER_THAN.
Proof.
  intros Hb Hx H. apply phys_end_ok in Hb as (Eb & Hb & _), Hx as (Ex & Hx & _). unfold apart in H.
  unfold pdata_insert_condition. cbn. rewrite Ex. destruct (Z.ltb_spec (user_address b) (user_address x)); [lia|].
  destruct (Z.ltb_spec (user_address x) (user_address b)); [|lia]. by destruct (Z.ltb_spec (user_address b) (pend x)); [lia|].
Qed.

Lemma pdata_condition_above b x :
  phys_ok b -> phys_ok x -> apart user_address pend b x -> pdata_insert_condition (UPhys b) (UPhys x) = RBT_LESS_THAN.
Proof.
  intros Hb Hx H. apply phys_end_ok in Hb as (Eb & Hb & _), Hx as (Ex & Hx & _). unfold apart in H.
  unfold pdata_insert_condition. cbn. rewrite Eb. destruct (Z.ltb_spec (user_address b) (user_address x)); [|lia].
  by destruct (Z.ltb_spec (user_address x) (pend b)); [lia|].
Qed.

(** ** A region with its blocks *)

Abbreviation prop := (heapProp (cell udata)).

Definition inner (node : Z) (h : rbtnode udata) (r : uregion_t) : header udata :=
  MkHeader node (Node (set_data (URegion r) h)) (mk_is_Some (root_of (Node (set_data (URegion r) h))) (physical_data r) eq_refl).

(** The links of the region's node are those of [h]; the root of its tree in
    [r] does not matter. *)
Definition region_at (node : Z) (h : rbtnode udata) (r : uregion_t) (pds : plist) : prop :=
  whole (inner node h r) (phys_nodes pds).

Lemma region_at_root node h r pds q : region_at node h (with_physical_data q r) pds = region_at node h r pds.
Proof. done. Qed.

Lemma region_at_cell node h r pds :
  region_at node h r pds ⊣⊢ ∃ t, ⌜rbtree t /\ elems t = phys_nodes pds⌝ ∗
    node ↦ Node (set_data (URegion (with_physical_data (ptr t) r)) h) ∗ tree_at 0 t.
Proof. iSplit; [iIntros "(%t & H & Ht & % & %)"|iIntros "(%t & (% & %) & H & Ht)"]; iExists t; by iFrame. Qed.

Section Access.
Context {E : Type} `{!Kernel E} `{!KernelLaws E}.
Implicit Types (node : Z) (h : rbtnode udata) (r : uregion_t) (pds : plist) (e : E).
Abbreviation uwp := (uwp (fresh (E := E))).

Lemma uwp_get_region node h r pds e (Φ : uregion_t -> E -> prop) :
  region_at node h r pds ⊢ (∀ q, region_at node h r pds -∗ Φ (with_physical_data q r) e) -∗ uwp (get_region node) e Φ.
Proof.
  iIntros "H HΦ". iDestruct (region_at_cell with "H") as (t) "((%Hrb & %He) & Hp & Ht)". iApply uwp_mem.
  iApply hwp_bind. iApply (hwp_get_node with "Hp"). iIntros "Hp". cbn [set_data data]. iApply hwp_ret. iApply "HΦ".
  iApply region_at_cell. iExists t. by iFrame.
Qed.

Lemma uwp_upd_region node h r pds f e (Φ : unit -> E -> prop) :
  (forall q, f (with_physical_data q r) = with_physical_data q (f r)) ->
  region_at node h r pds ⊢ (region_at node h (f r) pds -∗ Φ tt e) -∗ uwp (upd_region node f) e Φ.
Proof.
  intros Hf. iIntros "H HΦ". iDestruct (region_at_cell with "H") as (t) "((%Hrb & %He) & Hp & Ht)". iApply uwp_mem.
  iApply hwp_bind. iApply (hwp_get_node with "Hp"). iIntros "Hp". cbn [set_data data]. rewrite Hf.
  iApply (hwp_store with "Hp"). iIntros "Hp". iApply "HΦ". iApply region_at_cell. iExists t. by iFrame.
Qed.

(** Inserting a block that is apart from the others. *)
Lemma uwp_insert_phys node h r pds p n b e (Φ : Z -> E -> prop) :
  node_ptr node -> node_ptr p -> data n = UPhys b -> phys_ok b -> blocks_ok pds ->
  (forall x, x ∈ pds -> ~ meets user_address pend b x.2) ->
  region_at node h r pds ∗ p ↦ Node n ⊢
    (∀ pds', ⌜pds' ≡ₚ (p, b) :: pds /\ blocks_ok pds'⌝ -∗ region_at node h r pds' -∗ Φ RBT_INSERT_OK e) -∗
    uwp (on_mem (rbt_insert node p pdata_insert_condition)) e Φ.
Proof.
  intros Hnode Hp Hn Hb Hpds Hfree. assert (user_address b < pend b) as Hlt by (apply phys_end_ok in Hb as (_ & ? & _); lia).
  destruct (in_order_split user_address pend b pds Hlt (proj2 Hpds)) as (xs & mid & ys & -> & Hx & Hm & Hy).
  destruct mid as [|z mid].
  2:{ exfalso. apply (Hfree z); [rewrite elem_of_app elem_of_app elem_of_cons; tauto|]. apply Hm, elem_of_cons. by left. }
  cbn [app] in *.
  pose proof Hpds as (Hokx & Hoky & _)%blocks_ok_app. iIntros "[Hw Hp] HΦ". iApply uwp_mem. iApply (hwp_wand with "[Hw Hp]").
  - unfold region_at. rewrite phys_nodes_app.
    iApply (insert_cond_spec pdata_insert_condition (inner node h r) p n (phys_nodes xs) (phys_nodes ys) with "[$Hw $Hp]"); [apply Hnode|done| |].
    + intros q v (w & -> & Hq)%elem_of_phys. by rewrite Hn (pdata_condition_below b w Hb (blocks_elem _ _ _ Hokx Hq) (Hx _ Hq)).
    + intros q v (w & -> & Hq)%elem_of_phys. by rewrite Hn (pdata_condition_above b w Hb (blocks_elem _ _ _ Hoky Hq) (Hy _ Hq)).
  - iIntros (res) "[-> Hw]". iApply ("HΦ" $! (xs ++ (p, b) :: ys) with "[]").
    + iPureIntro. split; [by rewrite Permutation_middle|by apply blocks_insert].
    + unfold region_at. by rewrite phys_nodes_app Hn.
Qed.

End Access.

(** ** Mapping a range *)

Lemma page_map_in va pa n cfg i :
  0 <= i < Z.of_nat n -> page_map va pa n cfg !! (va + i * PAGE_SIZE) = Some (pa + i * PAGE_SIZE, cfg).
Proof.
  intros Hi. unfold page_map. apply elem_of_list_to_map_1.
  - rewrite -list_fmap_compose. apply NoDup_fmap_2_strong; [|apply NoDup_seqZ]. intros x y _ _. unfold compose, PAGE_SIZE. cbn. lia.
  - apply list_elem_of_fmap. exists i. split; [done|]. by apply elem_of_seqZ.
Qed.

Lemma page_map_out va pa n cfg a : ~ (va <= a < va + Z.of_nat n * PAGE_SIZE) -> page_map va pa n cfg !! a = None.
Proof.
  intros Ha. unfold page_map. apply not_elem_of_list_to_map_1. rewrite -list_fmap_compose.
  intros (i & -> & Hi%elem_of_seqZ)%list_elem_of_fmap. unfold compose, PAGE_SIZE in *. cbn in Ha. lia.
Qed.

(** The blocks [new] cover exactly the pages of a range. *)
Definition covers (new : plist) (lo n : Z) : Prop :=
  forall a, (exists q b, (q, b) ∈ new /\ user_address b <= a < pend b) <-> lo <= a < lo + n * PAGE_SIZE.

(** The pages of the blocks are mapped to their frames. *)
Definition maps (pds : plist) (cfg : mmu_pg_cfg) (g : gmap Z (Z * mmu_pg_cfg)) : Prop :=
  forall q b i, (q, b) ∈ pds -> 0 <= i < page_count b ->
    g !! (user_address b + i * PAGE_SIZE) = Some (physical_address b + i * PAGE_SIZE, cfg).

(** The frames of some blocks. *)
Definition total (pds : plist) : Z := foldr (fun x n => page_count x.2 + n) 0 pds.

Lemma total_app xs ys : total (xs ++ ys) = total xs + total ys.
Proof. induction xs as [|x xs IH]; [done|]. cbn in *. unfold total in IH. rewrite IH. unfold total. lia. Qed.

#[export] Instance total_proper : Proper ((≡ₚ) ==> eq) total.
Proof. intros xs ys H. unfold total. induction H; cbn in *; lia. Qed.

(** The frames of the blocks [new] were free and are in use. *)
Record taken (new : plist) (g g' : gmap Z Z) : Prop := {
  t_nodup : NoDup ((fun x => physical_address x.2) <$> new);
  t_new q b : (q, b) ∈ new -> g !! physical_address b = None /\ g' !! physical_address b = Some (page_count b);
  t_other a : a ∉ (fun x => physical_address x.2) <$> new -> g' !! a = g !! a
}.

Lemma taken_nil g : taken [] g g.
Proof. split; [apply NoDup_nil_2|by intros q b ?%elem_of_nil|done]. Qed.

Lemma taken_one q b g : g !! physical_address b = None -> taken [(q, b)] g (<[physical_address b := page_count b]> g).
Proof.
  intros Hn. split.
  - apply NoDup_singleton.
  - intros q' b' [[= -> ->]|?%elem_of_nil]%elem_of_cons; [|done]. by rewrite lookup_insert_eq.
  - intros a Ha. apply lookup_insert_ne. intros <-. apply Ha. by left.
Qed.

Lemma elem_of_pa q b (l : plist) : (q, b) ∈ l -> physical_address b ∈ (fun x => physical_address x.2) <$> l.
Proof. intros H. apply list_elem_of_fmap. by exists (q, b). Qed.

Lemma taken_trans new1 new2 g g1 g2 : taken new1 g g1 -> taken new2 g1 g2 -> taken (new2 ++ new1) g g2.
Proof.
  intros [N1 F1 O1] [N2 F2 O2].
  assert (forall a, a ∈ (fun x => physical_address x.2) <$> new2 -> a ∉ (fun x => physical_address x.2) <$> new1) as Hd.
  { intros a ([q b] & -> & H2)%list_elem_of_fmap ([q' b'] & E1 & H1)%list_elem_of_fmap. cbn in E1.
    destruct (F2 _ _ H2) as [Hn _]. destruct (F1 _ _ H1) as [_ Hs]. rewrite E1 in Hn. congruence. }
  split.
  - rewrite fmap_app. apply NoDup_app. done.
  - intros q b [H|H]%elem_of_app.
    + destruct (F2 _ _ H) as [Hn Hs]. split; [|done]. rewrite -O1; [done|]. apply Hd. by eapply elem_of_pa.
    + destruct (F1 _ _ H) as [Hn Hs]. split; [done|]. rewrite O2; [done|]. intros H2. apply (Hd _ H2). by eapply elem_of_pa.
  - intros a Ha. rewrite fmap_app elem_of_app in Ha. rewrite O2; [apply O1|]; tauto.
Qed.

Record mapped (k : nat) (lo n : Z) (cfg : mmu_pg_cfg) (pds pds' : plist) (o o' : kobs) : Prop := {
  m_new : exists new, pds' ≡ₚ new ++ pds /\ covers new lo n /\ maps new cfg (upages o') /\ taken new (pblocks o) (pblocks o') /\ total new = n;
  m_ok : blocks_ok pds';
  m_other a : ~ (lo <= a < lo + n * PAGE_SIZE) -> upages o' !! a = upages o !! a;
  m_frames : frames o - n <= frames o';
  m_chunks : chunks o' ⊆ chunks o;
  m_room : (size (chunks o) <= size (chunks o') + k)%nat
}.

Lemma mapped_none lo cfg pds o : blocks_ok pds -> mapped 0 lo 0 cfg pds pds o o.
Proof.
  intros Hok. split; [|done|done|lia|done|lia]. exists []. split; [done|]. split; [|split; [by intros q b i ?%elem_of_nil|split; [apply taken_nil|done]]].
  intros a. split; [by intros (q & b & ?%elem_of_nil & _)|lia].
Qed.

Lemma mapped_trans k1 k2 lo n m cfg pds pds1 pds2 o o1 o2 :
  0 <= n -> 0 <= m ->
  mapped k1 lo n cfg pds pds1 o o1 -> mapped k2 (lo + n * PAGE_SIZE) m cfg pds1 pds2 o1 o2 ->
  mapped (k1 + k2) lo (n + m) cfg pds pds2 o o2.
Proof.
  intros Hn Hm [(new1 & E1 & C1 & M1 & T1 & S1) ok1 other1 fr1 ch1 room1] [(new2 & E2 & C2 & M2 & T2 & S2) ok2 other2 fr2 ch2 room2].
  split; [|done| |lia|set_solver|lia].
  - exists (new2 ++ new1). split; [by rewrite E2 E1 app_assoc|]. split.
    + intros a. specialize (C1 a). specialize (C2 a). unfold PAGE_SIZE in *. split.
      * intros (q & b & [Hq|Hq]%elem_of_app & Ha); [apply proj1 in C2; specialize (C2 (ex_intro _ q (ex_intro _ b (conj Hq Ha))))|
          apply proj1 in C1; specialize (C1 (ex_intro _ q (ex_intro _ b (conj Hq Ha))))]; lia.
      * intros Ha. destruct (decide (a < lo + n * 4096)) as [H|H].
        -- destruct (proj2 C1 ltac:(lia)) as (q & b & Hq & Hb). exists q, b. split; [apply elem_of_app; by right|done].
        -- destruct (proj2 C2 ltac:(lia)) as (q & b & Hq & Hb). exists q, b. split; [apply elem_of_app; by left|done].
    + split; [|split; [by eapply taken_trans|rewrite total_app; lia]]. intros q b i [Hq|Hq]%elem_of_app Hi; [by apply (M2 q)|]. rewrite other2; [by apply (M1 q)|].
      assert (lo <= user_address b + i * PAGE_SIZE < lo + n * PAGE_SIZE) as Hin.
      { apply C1. exists q, b. split; [done|]. unfold pend, PAGE_SIZE. lia. }
      unfold PAGE_SIZE in *. lia.
  - intros a Ha. unfold PAGE_SIZE in *. rewrite other2; [|lia]. apply other1. lia.
Qed.

Lemma mapped_one q b pds pds' cfg o o' :
  0 < page_count b -> pds' ≡ₚ (q, b) :: pds -> blocks_ok pds' -> q ∈ chunks o ->
  chunks o' = chunks o ∖ {[q]} -> frames o - page_count b <= frames o' ->
  upages o' = page_map (user_address b) (physical_address b) (Z.to_nat (page_count b)) cfg ∪ upages o ->
  pblocks o !! physical_address b = None -> pblocks o' = <[physical_address b := page_count b]> (pblocks o) ->
  mapped 1 (user_address b) (page_count b) cfg pds pds' o o'.
Proof.
  intros Hn Ep Hok Hq Ec Ef Eu Hb Eb. split; [|done| |done|rewrite Ec; set_solver|].
  - exists [(q, b)]. split; [done|]. split.
    + intros a. split; [intros (q' & b' & [[= -> ->]|?%elem_of_nil]%elem_of_cons & Ha); [exact Ha|done]|].
      intros Ha. exists q, b. split; [by left|exact Ha].
    + split; [|split; [rewrite Eb; by apply taken_one|cbn; lia]]. intros q' b' i [[= -> ->]|?%elem_of_nil]%elem_of_cons Hi; [|done]. rewrite Eu. apply lookup_union_Some_l, page_map_in. lia.
  - intros a Ha. rewrite Eu lookup_union_r; [done|]. apply page_map_out. lia.
  - rewrite Ec size_difference; [|set_solver]. rewrite size_singleton. lia.
Qed.

(** The highest bit of what remains. *)
Lemma top_bit rem k :
  0 < rem < 2 ^ Z.of_nat (S k) -> rem < 2 ^ 63 ->
  power_of2 (log2_floor_u64 rem) = 2 ^ Z.log2 rem /\ 0 < 2 ^ Z.log2 rem <= rem /\ rem - 2 ^ Z.log2 rem < 2 ^ Z.of_nat k.
Proof.
  intros Hr Hb. destruct (Z.log2_spec rem) as [Hlo Hhi]; [lia|]. pose proof (Z.log2_nonneg rem).
  assert (Z.log2 rem < 63) by (apply Z.log2_lt_pow2; lia).
  rewrite log2_floor_u64_eq; [|lia]. rewrite power_of2_eq; [|lia].
  assert (Z.log2 rem < Z.of_nat (S k)) by (apply Z.log2_lt_pow2; lia).
  assert (2 ^ Z.log2 rem <= 2 ^ Z.of_nat k) by (apply Z.pow_le_mono_r; lia). rewrite Z.pow_succ_r in Hhi; [|done]. lia.
Qed.

Section Map.
Context {E : Type} `{!Kernel E} `{!KernelLaws E}.
Implicit Types (node : Z) (h : rbtnode udata) (r : uregion_t) (pds : plist) (e : E).
Abbreviation uwp := (uwp (fresh (E := E))).

Lemma map_user_loop_spec node h r usr_va pgs fl zeroed cfg k : forall fuel rem pds e,
  (k < fuel)%nat -> node_ptr node -> usr_mmu_cfg_from_flags fl = Some cfg -> user_range usr_va pgs ->
  0 <= rem <= pgs -> pgs < 512 -> rem < 2 ^ Z.of_nat k -> rem <= frames (obs e) -> (k <= size (chunks (obs e)))%nat -> blocks_ok pds ->
  (forall x, x ∈ pds -> pend x.2 <= usr_va + (pgs - rem) * PAGE_SIZE \/ usr_va + pgs * PAGE_SIZE <= user_address x.2) ->
  (forall a, usr_va + (pgs - rem) * PAGE_SIZE <= a < usr_va + pgs * PAGE_SIZE -> upages (obs e) !! a = None) ->
  forall Φ : unit -> E -> prop,
  region_at node h r pds ⊢
    (∀ pds' e', ⌜mapped k (usr_va + (pgs - rem) * PAGE_SIZE) rem cfg pds pds' (obs e) (obs e')⌝ -∗ region_at node h r pds' -∗ Φ tt e') -∗
    uwp (map_user_loop fuel node usr_va pgs fl zeroed rem) e Φ.
Proof.
  induction k as [|k IH]; intros fuel rem pds e Hfuel Hnode Hcfg Hva Hrem H512 Hk Hfr Hch Hok Hfree Hun Φ; iIntros "H HΦ"; (destruct fuel as [|fuel]; [lia|]).
  - assert (rem = 0) as -> by lia. cbn. iApply uwp_ret. iApply ("HΦ" with "[] H"). iPureIntro. by apply mapped_none.
  - cbn [map_user_loop]. destruct (Z.leb_spec rem 0) as [Hle|Hpos].
    { assert (rem = 0) as -> by lia. iApply uwp_ret. iApply ("HΦ" with "[] H"). iPureIntro.
      destruct (mapped_none (usr_va + (pgs - 0) * PAGE_SIZE) cfg pds (obs e) Hok). split; try done. lia. }
    pose proof Hva as (Hal & Hva0 & Hpg & Hend). rewrite USR_ADDRSPACE_END_val in Hend.
    assert (pgs <= 2 ^ 35 /\ usr_va < 2 ^ 47) as [Hpgs Hvab] by (unfold PAGE_SIZE in Hend; lia).
    destruct (top_bit rem k) as (Hpow & Hn & Hrest); [lia|lia|]. rewrite Hpow.
    assert (block_size (2 ^ Z.log2 rem)) as Hsz.
    { exists (Z.log2 rem). split; [|done]. pose proof (Z.log2_nonneg rem). assert (Z.log2 rem < 9) by (apply Z.log2_lt_pow2; lia). lia. }
    set (n := 2 ^ Z.log2 rem) in *. clearbody n.
    assert (wrap64 (usr_va + wrap64 (wrap64 (pgs - rem) * PAGE_SIZE)) = usr_va + (pgs - rem) * PAGE_SIZE) as ->.
    { unfold PAGE_SIZE in *. rewrite (wrap_small 64 (pgs - rem)); [|unfold u_range; lia].
      rewrite (wrap_small 64 ((pgs - rem) * 4096)); [|unfold u_range; lia]. rewrite wrap_small; unfold u_range; lia. }
    assert (wrap64 (n * PAGE_SIZE) = n * PAGE_SIZE) as -> by (rewrite wrap_small; unfold u_range, PAGE_SIZE in *; lia).
    set (lo := usr_va + (pgs - rem) * PAGE_SIZE) in *.
    assert (user_range lo n) as Hlo.
    { split; [|unfold lo, PAGE_SIZE in *; rewrite USR_ADDRSPACE_END_val; lia]. unfold page_aligned, lo. by rewrite Z.mod_add. }
    iApply uwp_bind. destruct (raw_kmalloc_ok e n zeroed) as (pa & fr & e1 & Ek & Hpa & Hpa0 & Hpa1 & Hpb & Hfr1 & Eo1); [done|lia|].
    iApply (uwp_ext _ _ e pa e1); [exact Ek|intros d; unfold fresh; by rewrite Eo1|].
    iApply uwp_bind. unfold region_insert_user_physdata. iApply uwp_bind.
    iApply uwp_malloc_cell; [rewrite Eo1; cbn; intros H0; rewrite H0 size_empty in Hch; lia|].
    iIntros (q e2) "(%Hq & %Hqp & %Eo2) Hq". rewrite Eo1 in Hq, Eo2. cbn in Hq.
    iApply (uwp_insert_phys node h r pds q _ (MkPhys pa lo n) with "[$H $Hq]"); [done|done|done|by split|done| |].
    { intros x Hx [H1 H2]. unfold apart, pend in H1, H2. cbn in H1, H2. destruct (Hfree x Hx) as [H3|H3]; [by apply H2|].
      apply H1. unfold lo in *. unfold PAGE_SIZE in *. lia. }
    iIntros (pds1) "(%Ep & %Hok1) H". iApply uwp_bind. iApply uwp_ret. rewrite Hcfg.
    iApply uwp_bind. iApply uwp_ret. iApply uwp_bind.
    destruct (mmu_map_law e2 lo pa (Z.to_nat n) cfg) as (e3 & Em & Eo3); [by rewrite Z2Nat.id; [|lia]|lia|done| |].
    { intros i Hi. rewrite Eo2. cbn. apply Hun. unfold lo, PAGE_SIZE in *. lia. }
    rewrite Z2Nat.id in Em; [|lia]. iApply (uwp_ext _ _ e2 MMU_MAP_OK e3); [exact Em|intros d; unfold fresh; by rewrite Eo3|].
    iApply uwp_bind. iApply uwp_ret.
    assert (mapped 1 lo n cfg pds pds1 (obs e) (obs e3)) as Hm1.
    { apply (mapped_one q (MkPhys pa lo n)); [cbn; lia|done|done|done|by rewrite Eo3 Eo2|by rewrite Eo3 Eo2; cbn|by rewrite Eo3 Eo2|done|by rewrite Eo3 Eo2]. }
    assert (usr_va + (pgs - (rem - n)) * PAGE_SIZE = lo + n * PAGE_SIZE) as Elo by (unfold lo; lia).
    iApply (IH fuel (rem - n) pds1 e3 with "H"); [lia|done|done|done|lia|lia|lia| | |done| | |].
    + pose proof (m_frames _ _ _ _ _ _ _ _ Hm1). lia.
    + pose proof (m_room _ _ _ _ _ _ _ _ Hm1). lia.
    + rewrite Elo. intros x. rewrite Ep. intros [->|Hx]%elem_of_cons; [left; done|]. destruct (Hfree x Hx); [left|by right]. unfold PAGE_SIZE; lia.
    + rewrite Elo. intros a Ha. rewrite (m_other _ _ _ _ _ _ _ _ Hm1); [|lia]. apply Hun. unfold PAGE_SIZE in *. lia.
    + rewrite Elo. iIntros (pds' e') "%Hm2 H". iApply ("HΦ" with "[] H"). iPureIntro.
      replace rem with (n + (rem - n)) by lia. apply (mapped_trans 1 k lo n (rem - n) cfg pds pds1 pds' _ (obs e3)); [lia|lia|done|done].
Qed.
End Map.
