(* ===== verification/UregionCommit.v ===== *)
(** * UregionCommit: committing pages of a region

    The bitfield of committed pages, inline or in an array of words, its state
    after a commit, and the commit itself. *)

From Stdlib Require Import ZArith Lia.
From stdpp Require Import base gmap list.
From iris.proofmode Require Import proofmode.
From S2P Require Import Prelude KMath MmuDc VmContainers VmContainersSpec HeapLogic Rbtree RbtreeTree RbtreeRep RbtreeInsert RbtreeTraverse RbtreeKeys Uregion UregionSpec UregionBlocks.

Open Scope Z_scope.

(** ** Bits and words *)

Definition bit (ws : list Z) (i : Z) : bool := Z.testbit (ws !!! Z.to_nat (i / 64)) (i mod 64).

Definition word_count (pgs : Z) : Z := (pgs + 63) / 64.

Lemma div_ceil_64 pgs : 0 <= pgs < 2 ^ 32 -> div_ceil pgs 64 = word_count pgs.
Proof. intros H. unfold div_ceil, word_count. rewrite wrap_small; [f_equal; lia|unfold u_range; lia]. Qed.

Definition words_ok (pgs : Z) (ws : list Z) : Prop := length ws = Z.to_nat (word_count pgs) /\ Forall is_u64 ws.

(** The bits of [n] pages from [i] on are set. *)
Fixpoint set_bits (ws : list Z) (i : Z) (n : nat) : list Z :=
  match n with
  | O => ws
  | S n => set_bits (<[Z.to_nat (i / 64) := bitfield_set_high 64 (ws !!! Z.to_nat (i / 64)) (i mod 64)]> ws) (i + 1) n
  end.

Lemma word_index pgs ws i : words_ok pgs ws -> 0 <= i < pgs -> (Z.to_nat (i / 64) < length ws)%nat.
Proof. intros [-> _] Hi. unfold word_count. apply Z2Nat.inj_lt; [apply Z.div_pos; lia|apply Z.div_pos; lia|].
  apply Z.div_lt_upper_bound; [lia|]. pose proof (Z.div_mod (pgs + 63) 64). pose proof (Z.mod_pos_bound (pgs + 63) 64). lia.
Qed.

Lemma words_ok_get pgs ws j : words_ok pgs ws -> (j < length ws)%nat -> is_u64 (ws !!! j).
Proof. intros [_ H] Hj. rewrite Forall_forall in H. apply H. by apply list_elem_of_lookup_total_2. Qed.

Lemma words_ok_put pgs ws j w : words_ok pgs ws -> is_u64 w -> words_ok pgs (<[j := w]> ws).
Proof. intros [Hl Hf] Hw. split; [by rewrite length_insert|]. by apply Forall_insert. Qed.

Lemma bit_set_one pgs ws i j :
  words_ok pgs ws -> 0 <= i < pgs -> 0 <= j < pgs ->
  bit (<[Z.to_nat (i / 64) := bitfield_set_high 64 (ws !!! Z.to_nat (i / 64)) (i mod 64)]> ws) j = (j =? i) || bit ws j.
Proof.
  intros Hok Hi Hj. unfold bit. pose proof (word_index _ _ _ Hok Hi) as Li. pose proof (Z.mod_pos_bound i 64). pose proof (Z.mod_pos_bound j 64).
  destruct (decide (i / 64 = j / 64)) as [Eq|Ne].
  - rewrite Eq list_lookup_total_insert_eq; [|by rewrite -Eq]. rewrite bitfield_set_bit; [|lia|by apply (words_ok_get pgs); [|rewrite -Eq]|lia].
    f_equal. pose proof (Z.div_mod i 64). pose proof (Z.div_mod j 64). destruct (Z.eqb_spec (j mod 64) (i mod 64)), (Z.eqb_spec j i); lia.
  - rewrite list_lookup_total_insert_ne.
    + destruct (Z.eqb_spec j i) as [->|]; [done|done].
    + intros H1. apply Ne. assert (0 <= i / 64 /\ 0 <= j / 64) by (split; apply Z.div_pos; lia). lia.
Qed.

Lemma set_bits_ok pgs ws i n : words_ok pgs ws -> words_ok pgs (set_bits ws i n).
Proof.
  revert ws i. induction n as [|n IH]; intros ws i Hok; [done|]. cbn. apply IH. apply words_ok_put; [done|].
  apply bitfield_set_range. lia.
Qed.

Lemma bit_set_bits pgs n : forall ws i j,
  words_ok pgs ws -> 0 <= i -> i + Z.of_nat n <= pgs -> 0 <= j < pgs ->
  bit (set_bits ws i n) j = (i <=? j) && (j <? i + Z.of_nat n) || bit ws j.
Proof.
  induction n as [|n IH]; intros ws i j Hok Hi Hn Hj; cbn [set_bits].
  - destruct (Z.leb_spec i j), (Z.ltb_spec j (i + Z.of_nat 0)); cbn; (lia || done).
  - rewrite IH; [|apply words_ok_put; [done|apply bitfield_set_range; lia]|lia|lia|done].
    rewrite (bit_set_one pgs); [|done|lia|done].
    destruct (bit ws j); [by rewrite !orb_true_r|]. rewrite !orb_false_r.
    destruct (Z.leb_spec (i + 1) j), (Z.ltb_spec j (i + 1 + Z.of_nat n)), (Z.eqb_spec j i), (Z.leb_spec i j), (Z.ltb_spec j (i + Z.of_nat (S n))); cbn; (lia || done).
Qed.

(** ** Counting *)

Fixpoint count (P : Z -> bool) (l : list Z) : Z := match l with [] => 0 | i :: l => (if P i then 1 else 0) + count P l end.

Lemma count_app P l l' : count P (l ++ l') = count P l + count P l'.
Proof. induction l as [|i l IH]; cbn; [done|]. rewrite IH. lia. Qed.

Lemma count_le P l : 0 <= count P l <= Z.of_nat (length l).
Proof. induction l as [|i l IH]; cbn; [done|]. destruct (P i); lia. Qed.

Lemma count_ext P Q l : (forall i, i ∈ l -> P i = Q i) -> count P l = count Q l.
Proof.
  induction l as [|i l IH]; intros H; cbn; [done|]. rewrite (H i); [|by left]. rewrite IH; [done|]. intros j Hj. apply H. by right.
Qed.

Lemma count_pos P l i : i ∈ l -> P i = true -> 0 < count P l.
Proof.
  induction l as [|j l IH]; [by intros ?%elem_of_nil|]. cbn. pose proof (count_le P l).
  intros [<-|Hi]%elem_of_cons HP; [rewrite HP; lia|]. specialize (IH Hi HP). destruct (P j); lia.
Qed.

Lemma count_false l : count (fun _ => false) l = 0.
Proof. induction l; cbn; lia. Qed.

Lemma count_shift P k n : count (fun i => P (k + i)) (seqZ 0 n) = count P (seqZ k n).
Proof.
  unfold seqZ. induction (seq 0 (Z.to_nat n)) as [|i l IH]; [done|]. cbn [fmap list_fmap count]. rewrite -IH.
  by replace (k + (Z.of_nat i + 0)) with (Z.of_nat i + k) by lia.
Qed.

Lemma popcount_count w : popcount w = count (Z.testbit w) (seqZ 0 64).
Proof.
  unfold popcount. induction (seqZ 0 64) as [|i l IH]; [done|]. cbn [count]. rewrite filter_cons.
  destruct (decide (Z.testbit w i = true)) as [Ht|Hf%not_true_iff_false]; [rewrite Ht|rewrite Hf]; cbn [length]; lia.
Qed.

(** The bits of a word up to [b]. *)
Lemma popcount_mask w b : 0 <= b <= 64 -> popcount (Z.land w (2 ^ b - 1)) = count (Z.testbit w) (seqZ 0 b).
Proof.
  intros Hb. rewrite popcount_count -ones_sub; [|lia]. replace 64 with (b + (64 - b)) by lia. rewrite seqZ_app; [|lia|lia]. rewrite count_app.
  rewrite (count_ext (Z.testbit (Z.land w (Z.ones b))) (Z.testbit w) (seqZ 0 b)); [rewrite (count_ext _ (fun _ => false) (seqZ _ (64 - b))); [rewrite count_false; lia|]|].
  - intros i Hi%elem_of_seqZ. rewrite Z.land_spec testbit_ones'; [|lia|lia]. destruct (Z.ltb_spec i b); [lia|]. by rewrite andb_false_r.
  - intros i Hi%elem_of_seqZ. rewrite Z.land_spec testbit_ones'; [|lia|lia]. destruct (Z.ltb_spec i b); [|lia]. by rewrite andb_true_r.
Qed.

Definition bits_in_word (words pgs w : Z) : Z := if (w =? words - 1) && negb (pgs mod 64 =? 0) then pgs mod 64 else 64.

Lemma mask_eq b : 0 <= b <= 64 -> (if b =? 64 then 2 ^ 64 - 1 else Z.shiftl 1 b - 1) = 2 ^ b - 1.
Proof. intros Hb. destruct (Z.eqb_spec b 64) as [->|]; [done|]. rewrite Z.shiftl_1_l. done. Qed.

Lemma bits_in_word_eq pgs w : 0 < pgs -> 0 <= w < word_count pgs -> bits_in_word (word_count pgs) pgs w = Z.min 64 (pgs - 64 * w).
Proof.
  intros Hp Hw. unfold bits_in_word, word_count in *. pose proof (Z.div_mod (pgs + 63) 64). pose proof (Z.mod_pos_bound (pgs + 63) 64).
  pose proof (Z.div_mod pgs 64). pose proof (Z.mod_pos_bound pgs 64).
  destruct (Z.eqb_spec w ((pgs + 63) / 64 - 1)), (Z.eqb_spec (pgs mod 64) 0); cbn; lia.
Qed.

(** One word's share of the count. *)
Lemma count_step ws pgs w :
  0 < pgs -> 0 <= w < word_count pgs ->
  count (bit ws) (seqZ (64 * w) (pgs - 64 * w)) =
    popcount (Z.land (ws !!! Z.to_nat w) (2 ^ bits_in_word (word_count pgs) pgs w - 1)) + count (bit ws) (seqZ (64 * (w + 1)) (pgs - 64 * (w + 1))).
Proof.
  intros Hp Hw. rewrite bits_in_word_eq; [|done|done]. set (b := Z.min 64 (pgs - 64 * w)).
  assert (0 < b <= 64 /\ (b = 64 \/ b = pgs - 64 * w)) as [Hb Hb'].
  { unfold b, word_count in *. pose proof (Z.div_mod (pgs + 63) 64). pose proof (Z.mod_pos_bound (pgs + 63) 64). lia. }
  rewrite popcount_mask; [|lia]. replace (pgs - 64 * w) with (b + (pgs - 64 * w - b)) by lia. rewrite seqZ_app; [|lia|lia]. rewrite count_app. f_equal.
  - rewrite -count_shift. apply count_ext. intros i Hi%elem_of_seqZ. unfold bit.
    rewrite (Z.mul_comm 64) Z.div_add_l; [|lia]. rewrite Z.div_small; [|lia]. rewrite Z.add_0_r Z.add_comm Z.mod_add; [|lia]. by rewrite Z.mod_small; [|lia].
  - destruct Hb' as [->| ->]; [f_equal; f_equal; lia|]. rewrite !seqZ_nil; [done|lia|lia].
Qed.

(** ** The bitfield in memory *)

(** The array of a bitfield. *)
Definition words_at (a : Z) (ws : list Z) : prop := (⌜node_ptr a⌝ ∗ ∃ hw, a ↦ Node (set_data (UWords ws) hw))%I.

Definition bits_at (node : Z) (h : rbtnode udata) (r : uregion_t) (pds : plist) (ws : list Z) : prop :=
  (⌜words_ok (pages r) ws⌝ ∗
   if 64 <? pages r then region_at node h r pds ∗ words_at (committed r) ws
   else region_at node h (with_committed (ws !!! 0%nat) r) pds)%I.

Section Bits.
Context {E : Type} `{!Kernel E} `{!KernelLaws E}.
Implicit Types (node : Z) (h : rbtnode udata) (r : uregion_t) (pds : plist) (ws : list Z) (e : E).
Abbreviation uwp := (uwp (fresh (E := E))).

(** The fields of a region other than the root of its tree and the union. *)
Definition same_region r r' : Prop := usr_start r' = usr_start r /\ pages r' = pages r /\ flags r' = flags r.

Lemma uwp_get_region_bits node h r pds ws e (Φ : uregion_t -> E -> prop) :
  bits_at node h r pds ws ⊢ (∀ r', ⌜same_region r r'⌝ -∗ bits_at node h r pds ws -∗ Φ r' e) -∗ uwp (get_region node) e Φ.
Proof.
  iIntros "[%Hok H] HΦ". destruct (64 <? pages r) eqn:Hp.
  - iDestruct "H" as "[H Hw]". iApply (uwp_get_region with "H"). iIntros (q) "H". iApply ("HΦ" $! (with_physical_data q r) with "[//]"). iSplit; [done|]. rewrite Hp. iFrame.
  - iApply (uwp_get_region with "H"). iIntros (q) "H". iApply ("HΦ" $! (with_physical_data q (with_committed _ r)) with "[//]"). iSplit; [done|]. by rewrite Hp.
Qed.

Lemma uwp_get_words a ws e (Φ : list Z -> E -> prop) :
  words_at a ws ⊢ (words_at a ws -∗ Φ ws e) -∗ uwp (get_words a) e Φ.
Proof.
  iIntros "(%Ha & %hw & H) HΦ". iApply uwp_mem. iApply hwp_bind. iApply (hwp_get_node with "H"). iIntros "H". iApply hwp_ret.
  iApply "HΦ". iSplit; [done|]. by iExists hw.
Qed.

Lemma uwp_put_words a ws ws' e (Φ : unit -> E -> prop) :
  words_at a ws ⊢ (words_at a ws' -∗ Φ tt e) -∗ uwp (on_mem (upd_node a (with_data (UWords ws')))) e Φ.
Proof.
  iIntros "(%Ha & %hw & H) HΦ". iApply uwp_mem. iApply (hwp_upd_node with "H"). iIntros "H". iApply "HΦ". iSplit; [done|]. by iExists hw.
Qed.

Lemma bf_get_spec node h r pds ws j e (Φ : Z -> E -> prop) :
  0 <= j -> (Z.to_nat j < length ws)%nat ->
  bits_at node h r pds ws ⊢ (bits_at node h r pds ws -∗ Φ (ws !!! Z.to_nat j) e) -∗ uwp (bf_get node j) e Φ.
Proof.
  intros Hj Hl. iIntros "[%Hok H] HΦ". unfold bf_get. iApply uwp_bind. destruct (64 <? pages r) eqn:Hp.
  - iDestruct "H" as "[H Hw]". iApply (uwp_get_region with "H"). iIntros (q) "H". cbn [pages committed with_physical_data]. rewrite Hp.
    iApply uwp_bind. iApply (uwp_get_words with "Hw"). iIntros "Hw". rewrite (list_lookup_lookup_total_lt ws) //. iApply uwp_ret.
    iApply "HΦ". iSplit; [done|]. rewrite Hp. iFrame.
  - assert (length ws = 1%nat) as Hl1.
    { destruct Hok as [Hk _]. apply Z.ltb_ge in Hp. rewrite Hk in Hl |- *. unfold word_count in *.
      assert ((pages r + 63) / 64 < 2) by (apply Z.div_lt_upper_bound; lia). lia. }
    assert (j = 0) as -> by lia. iApply (uwp_get_region with "H"). iIntros (q) "H". cbn [pages committed with_physical_data with_committed]. rewrite Hp.
    cbn [Z.eqb]. iApply uwp_ret. iApply "HΦ". iSplit; [done|]. by rewrite Hp.
Qed.

Lemma bf_put_spec node h r pds ws j w e (Φ : unit -> E -> prop) :
  0 <= j -> (Z.to_nat j < length ws)%nat -> is_u64 w ->
  bits_at node h r pds ws ⊢ (bits_at node h r pds (<[Z.to_nat j := w]> ws) -∗ Φ tt e) -∗ uwp (bf_put node j w) e Φ.
Proof.
  intros Hj Hl Hw. iIntros "H HΦ". iAssert (⌜words_ok (pages r) ws⌝)%I as %Hok; [by iDestruct "H" as "[$ _]"|].
  unfold bf_put. iApply uwp_bind. iDestruct "H" as "[_ H]". destruct (64 <? pages r) eqn:Hp.
  - iDestruct "H" as "[H Hw]". iApply (uwp_get_region with "H"). iIntros (q) "H". cbn [pages committed with_physical_data]. rewrite Hp.
    iApply uwp_bind. iApply (bf_get_spec node h r pds ws with "[H Hw]"); [done|done|iSplit; [done|]; rewrite Hp; iFrame|].
    iIntros "[_ H]". rewrite Hp. iDestruct "H" as "[H Hw]". iApply uwp_bind. iApply (uwp_get_words with "Hw"). iIntros "Hw".
    iApply (uwp_put_words with "Hw"). iIntros "Hw". iApply "HΦ". iSplit; [iPureIntro; by apply words_ok_put|]. rewrite Hp. iFrame.
  - assert (Z.to_nat j = 0%nat) as Hj0.
    { destruct Hok as [Hk _]. apply Z.ltb_ge in Hp. rewrite Hk in Hl. unfold word_count in *.
      assert ((pages r + 63) / 64 < 2) by (apply Z.div_lt_upper_bound; lia). lia. }
    iApply (uwp_get_region with "H"). iIntros (q) "H". cbn [pages committed with_physical_data with_committed]. rewrite Hp.
    iApply uwp_bind. iApply (bf_get_spec node h r pds ws with "[H]"); [done|done|iSplit; [done|]; by rewrite Hp|].
    iIntros "[_ H]". rewrite Hp. iApply (uwp_upd_region with "H"); [done|]. iIntros "H". iApply "HΦ". iSplit; [iPureIntro; by apply words_ok_put|].
    rewrite Hp Hj0 list_lookup_total_insert_eq; [done|lia].
Qed.

Lemma committed_set_spec node h r pds n : forall ws i e (Φ : unit -> E -> prop),
  0 <= i -> i + Z.of_nat n <= pages r ->
  bits_at node h r pds ws ⊢ (bits_at node h r pds (set_bits ws i n) -∗ Φ tt e) -∗ uwp (committed_set node i n) e Φ.
Proof.
  induction n as [|n IH]; intros ws i e Φ Hi Hn; iIntros "H HΦ"; cbn [committed_set set_bits].
  - iApply uwp_ret. by iApply "HΦ".
  - iAssert (⌜words_ok (pages r) ws⌝)%I as %Hok; [by iDestruct "H" as "[$ _]"|].
    pose proof (word_index _ _ i Hok ltac:(lia)) as Hl. assert (0 <= i / 64) by (apply Z.div_pos; lia).
    iApply uwp_bind. iApply (bf_get_spec with "H"); [done|done|]. iIntros "H". iApply uwp_bind.
    iApply (bf_put_spec with "H"); [done|done|apply bitfield_set_range; lia|]. iIntros "H". iApply (IH with "H HΦ"); lia.
Qed.

Lemma count_words_spec node h r pds ws n : forall w e (Φ : Z -> E -> prop),
  0 < pages r -> 0 <= w -> w + Z.of_nat n = word_count (pages r) ->
  bits_at node h r pds ws ⊢ (bits_at node h r pds ws -∗ Φ (count (bit ws) (seqZ (64 * w) (pages r - 64 * w))) e) -∗
    uwp (count_words node (word_count (pages r)) (pages r) w n) e Φ.
Proof.
  induction n as [|n IH]; intros w e Φ Hp Hw Hn; iIntros "H HΦ"; cbn [count_words].
  - iApply uwp_ret. rewrite seqZ_nil; [by iApply "HΦ"|]. unfold word_count in Hn.
    pose proof (Z.div_mod (pages r + 63) 64). pose proof (Z.mod_pos_bound (pages r + 63) 64). lia.
  - iAssert (⌜words_ok (pages r) ws⌝)%I as %Hok; [by iDestruct "H" as "[$ _]"|].
    fold (bits_in_word (word_count (pages r)) (pages r) w). rewrite mask_eq; [|rewrite bits_in_word_eq; [|done|lia]].
    2:{ unfold word_count in Hn. pose proof (Z.div_mod (pages r + 63) 64). pose proof (Z.mod_pos_bound (pages r + 63) 64). lia. }
    iApply uwp_bind. iApply (bf_get_spec with "H"); [done|destruct Hok as [-> _]; lia|]. iIntros "H". iApply uwp_bind.
    iApply (IH with "H"); [done|lia|lia|]. iIntros "H". iApply uwp_ret. rewrite (count_step ws (pages r) w); [|done|lia]. by iApply "HΦ".
Qed.

(** What the flags say after a commit. *)
Definition commited_state (pgs : Z) (ws : list Z) : commited_state_e :=
  let total := count (bit ws) (seqZ 0 pgs) in
  if total =? 0 then COMMITED_NONE else if total =? pgs then COMMITED_FULLY else COMMITED_PARTIALLY.

Lemma get_commited_state_spec node h r pds ws e (Φ : commited_state_e -> E -> prop) :
  0 < pages r < 2 ^ 32 ->
  bits_at node h r pds ws ⊢ (bits_at node h r pds ws -∗ Φ (commited_state (pages r) ws) e) -∗ uwp (get_commited_state node) e Φ.
Proof.
  intros Hp. iIntros "H HΦ". unfold get_commited_state. iApply uwp_bind. iApply (uwp_get_region_bits with "H").
  iIntros (r') "(_ & -> & _) H". rewrite div_ceil_64; [|lia]. assert (0 <= word_count (pages r)) by (apply Z.div_pos; lia).
  iApply uwp_bind. iApply (count_words_spec with "H"); [lia|lia|lia|]. iIntros "H". iApply uwp_ret. rewrite Z.mul_0_r Z.sub_0_r. by iApply "HΦ".
Qed.
End Bits.

(** ** Committing *)

(** Before its first commit a region has no bitfield. *)
Definition region_rep (node : Z) (h : rbtnode udata) (r : uregion_t) (pds : plist) (ws : list Z) : prop :=
  (if Z.land (flags r) F_HAS_PHYS =? 0
   then ⌜committed r = 0 /\ ws = replicate (Z.to_nat (word_count (pages r))) 0⌝ ∗ region_at node h r pds
   else bits_at node h r pds ws)%I.

Definition flags_after (fl : Z) (st : commited_state_e) : Z :=
  match st with
  | COMMITED_FULLY => Z.land (Z.lor (Z.lor fl F_HAS_PHYS) F_FULL_MAPPED) (not32 F_PARTIALLY_MAPPED)
  | _ => Z.land (Z.lor (Z.lor fl F_HAS_PHYS) F_PARTIALLY_MAPPED) (not32 F_FULL_MAPPED)
  end.

Lemma cfg_has_phys fl : usr_mmu_cfg_from_flags (Z.lor fl F_HAS_PHYS) = usr_mmu_cfg_from_flags fl.
Proof.
  unfold usr_mmu_cfg_from_flags. assert (Z.land (Z.lor fl F_HAS_PHYS) 7 = Z.land fl 7) as ->; [|done].
  rewrite Z.land_lor_distr_l. change (Z.land F_HAS_PHYS 7) with 0. apply Z.lor_0_r.
Qed.

Lemma has_phys_set fl : (Z.land (Z.lor fl F_HAS_PHYS) F_HAS_PHYS =? 0) = false.
Proof.
  apply Z.eqb_neq. intros H. assert (Z.testbit (Z.land (Z.lor fl F_HAS_PHYS) F_HAS_PHYS) 6 = false) as Hb by (by rewrite H).
  rewrite Z.land_spec Z.lor_spec in Hb. change (Z.testbit F_HAS_PHYS 6) with true in Hb. by rewrite orb_true_r in Hb.
Qed.

Lemma has_phys_id fl : Z.land fl F_HAS_PHYS <> 0 -> Z.lor fl F_HAS_PHYS = fl.
Proof.
  intros H. change F_HAS_PHYS with (2 ^ 6) in *. destruct (Z.testbit fl 6) eqn:Hb.
  - apply Z.bits_inj'. intros i Hi. rewrite Z.lor_spec testbit_pow2'; [|lia]. destruct (Z.eqb_spec i 6) as [->|]; [by rewrite Hb|by rewrite orb_false_r].
  - exfalso. apply H. apply Z.bits_inj'. intros i Hi. rewrite Z.land_spec testbit_pow2' ?Z.bits_0; [|lia].
    destruct (Z.eqb_spec i 6) as [->|]; [by rewrite Hb|by rewrite andb_false_r].
Qed.

Section Commit.
Context {E : Type} `{!Kernel E} `{!KernelLaws E}.
Implicit Types (node : Z) (h : rbtnode udata) (r : uregion_t) (pds : plist) (ws : list Z) (e : E).
Abbreviation uwp := (uwp (fresh (E := E))).

Lemma bits_at_open node h r pds ws :
  bits_at node h r pds ws ⊢ ∃ r0, region_at node h r0 pds ∗ (∀ pds', region_at node h r0 pds' -∗ bits_at node h r pds' ws).
Proof.
  iIntros "[%Hok H]". unfold bits_at. destruct (64 <? pages r).
  - iDestruct "H" as "[H Hw]". iExists r. iFrame. iIntros (pds') "H". by iFrame.
  - iExists _. iFrame. iIntros (pds') "H". by iFrame.
Qed.

Lemma uwp_upd_flags node h r pds ws g e (Φ : unit -> E -> prop) :
  bits_at node h r pds ws ⊢ (bits_at node h (with_flags (g (flags r)) r) pds ws -∗ Φ tt e) -∗
    uwp (upd_region node (fun r => with_flags (g (flags r)) r)) e Φ.
Proof.
  iIntros "[%Hok H] HΦ". unfold bits_at. cbn [pages with_flags]. destruct (64 <? pages r).
  - iDestruct "H" as "[H Hw]". iApply (uwp_upd_region with "H"); [done|]. iIntros "H". iApply "HΦ". by iFrame.
  - iApply (uwp_upd_region with "H"); [done|]. iIntros "H". iApply "HΦ". by iFrame.
Qed.

Lemma replicate_words_ok pgs : words_ok pgs (replicate (Z.to_nat (word_count pgs)) 0).
Proof. split; [apply length_replicate|]. apply Forall_replicate. unfold u_range. lia. Qed.

(** At most one block of kmalloc is taken. *)
Definition spent (o o1 : kobs) : Prop :=
  frames o1 = frames o /\ pblocks o1 = pblocks o /\ upages o1 = upages o /\ chunks o1 ⊆ chunks o /\
  (size (chunks o) <= size (chunks o1) + 1)%nat.

Lemma spent_none o : spent o o.
Proof. unfold spent. auto with lia. Qed.

Lemma spent_one a o o1 : a ∈ chunks o -> o1 = with_chunks (chunks o ∖ {[a]}) o -> spent o o1.
Proof.
  intros Ha ->. unfold spent. cbn. split; [done|]. split; [done|]. split; [done|]. split; [set_solver|].
  rewrite size_difference; [|set_solver]. rewrite size_singleton. lia.
Qed.

(** The first commit makes the bitfield. *)
Lemma committed_init_spec node h r pds e (Φ : unit -> E -> prop) :
  0 < pages r < 2 ^ 32 -> committed r = 0 -> chunks (obs e) <> ∅ ->
  region_at node h r pds ⊢
    (∀ r' e', ⌜same_region r r' /\ spent (obs e) (obs e')⌝ -∗
       bits_at node h r' pds (replicate (Z.to_nat (word_count (pages r))) 0) -∗ Φ tt e') -∗
    uwp (committed_init node) e Φ.
Proof.
  intros Hp Hc Hch. iIntros "H HΦ". unfold committed_init. iApply uwp_bind. iApply (uwp_get_region with "H"). iIntros (q) "H".
  cbn [pages committed with_physical_data]. rewrite Hc orb_false_r. destruct (Z.leb_spec (pages r) 64) as [Hsm|Hbig].
  - iApply uwp_ret. iApply ("HΦ" $! r e with "[]"); [iPureIntro; split; [done|apply spent_none]|].
    iSplit; [iPureIntro; apply replicate_words_ok|]. destruct (Z.ltb_spec 64 (pages r)); [lia|].
    assert (Z.to_nat (word_count (pages r)) = 1%nat) as ->.
    { unfold word_count. assert ((pages r + 63) / 64 = 1); [|lia]. symmetry. apply (Z.div_unique_pos _ 64 1 (pages r - 1)); lia. }
    cbn. destruct r as [us pg fl pd cm]. cbn in Hc. by subst cm.
  - iApply uwp_bind. unfold kzalloc_words. iApply uwp_malloc_cell; [done|]. iIntros (a e1) "(%Ha & %Hptr & %Eo) Hw".
    iApply (uwp_upd_region with "H"); [done|]. iIntros "H". iApply ("HΦ" $! (with_committed a r) e1 with "[]").
    + iPureIntro. split; [done|by eapply spent_one].
    + iSplit; [iPureIntro; apply replicate_words_ok|]. cbn [pages with_committed committed]. destruct (Z.ltb_spec 64 (pages r)); [|lia].
      iFrame "H". iSplit; [done|]. iExists (MkRb 0 0 0 (UWords [])). rewrite div_ceil_64; [|lia]. rewrite Z.div_mul; [|done]. done.
Qed.

(** What a commit of the pages from [usrva] on needs, besides the region. *)
Record can_commit r pds ws usrva pgs cfg (k : nat) e : Prop := {
  cc_region : region_ok r;
  cc_words : words_ok (pages r) ws;
  cc_cfg : usr_mmu_cfg_from_flags (flags r) = Some cfg;
  cc_range : page_aligned usrva /\ usr_start r <= usrva /\ 0 < pgs /\ usrva + pgs * PAGE_SIZE <= rend r;
  cc_blocks : blocks_ok pds;
  cc_apart x : x ∈ pds -> pend x.2 <= usrva \/ usrva + pgs * PAGE_SIZE <= user_address x.2;
  cc_unmapped a : usrva <= a < usrva + pgs * PAGE_SIZE -> upages (obs e) !! a = None;
  cc_size : pgs < 2 ^ Z.of_nat k /\ (k <= 64)%nat /\ pgs < 512;
  cc_frames : pgs <= frames (obs e);
  cc_chunks : (S k <= size (chunks (obs e)))%nat
}.

Definition first_page r usrva : Z := (usrva - usr_start r) / PAGE_SIZE.
Definition words_after r ws usrva pgs : list Z := set_bits ws (first_page r usrva) (Z.to_nat pgs).

Record committed_region r pds ws usrva pgs cfg k e (r' : uregion_t) (pds' : plist) (e' : E) : Prop := {
  cr_mapped : mapped (S k) usrva pgs cfg pds pds' (obs e) (obs e');
  cr_start : usr_start r' = usr_start r;
  cr_pages : pages r' = pages r;
  cr_flags : flags r' = flags_after (flags r) (commited_state (pages r) (words_after r ws usrva pgs))
}.

Lemma mapped_pre k lo n cfg pds pds' o o1 o2 :
  spent o o1 -> mapped k lo n cfg pds pds' o1 o2 -> mapped (S k) lo n cfg pds pds' o o2.
Proof.
  intros (Hf & Hb & Hu & Hc & Hs) [Hnew Hok Hother Hfr Hch Hroom]. rewrite Hb in Hnew. split; [done|done| |lia|set_solver|lia]. intros a Ha. by rewrite Hother // Hu.
Qed.

Lemma range_facts r pds ws usrva pgs cfg k e :
  can_commit r pds ws usrva pgs cfg k e ->
  user_range usrva pgs /\ wrap64 (usrva + wrap64 (pgs * PAGE_SIZE)) = usrva + pgs * PAGE_SIZE /\
  wrap64 (usrva - usr_start r) / PAGE_SIZE = first_page r usrva /\ 0 <= first_page r usrva /\ first_page r usrva + pgs <= pages r /\
  0 < pages r < 2 ^ 32.
Proof.
  intros [Hr _ _ (Ha & Hlo & Hp & Hhi) _ _ _ _ _ _]. pose proof (region_end_ok r Hr) as (_ & Hs & He). destruct Hr as [(Hal & _ & Hp0 & _) Hp32].
  unfold rend in *. split; [split; [done|]; rewrite USR_ADDRSPACE_END_val; unfold PAGE_SIZE in *; lia|].
  split; [unfold PAGE_SIZE in *; rewrite (wrap_small 64 (pgs * 4096)); [rewrite wrap_small; unfold u_range; lia|unfold u_range; lia]|].
  split; [rewrite wrap_small; [done|unfold u_range, PAGE_SIZE in *; lia]|]. unfold first_page.
  assert (0 <= (usrva - usr_start r) / PAGE_SIZE) by (apply Z.div_pos; unfold PAGE_SIZE; lia). split; [done|]. split; [|done].
  unfold page_aligned in *. assert ((usrva - usr_start r) mod PAGE_SIZE = 0) as Hm by (rewrite Zminus_mod Ha Hal; done).
  pose proof (Z.div_mod (usrva - usr_start r) PAGE_SIZE). unfold PAGE_SIZE in *. lia.
Qed.

(** Some page is committed afterwards. *)
Lemma commited_not_none r pds ws usrva pgs cfg k e :
  can_commit r pds ws usrva pgs cfg k e -> commited_state (pages r) (words_after r ws usrva pgs) <> COMMITED_NONE.
Proof.
  intros Hcc. pose proof (range_facts _ _ _ _ _ _ _ _ Hcc) as (_ & _ & _ & H0 & Hle & Hp). destruct (cc_range _ _ _ _ _ _ _ _ Hcc) as (_ & _ & Hpos & _).
  unfold commited_state. assert (0 < count (bit (words_after r ws usrva pgs)) (seqZ 0 (pages r))) as Hc.
  { apply (count_pos _ _ (first_page r usrva)); [apply elem_of_seqZ; lia|]. unfold words_after.
    rewrite (bit_set_bits (pages r)); [|by eapply cc_words|done|lia|lia].
    destruct (Z.leb_spec (first_page r usrva) (first_page r usrva)); [|lia].
    by destruct (Z.ltb_spec (first_page r usrva) (first_page r usrva + Z.of_nat (Z.to_nat pgs))); [|lia]. }
  destruct (Z.eqb_spec (count (bit (words_after r ws usrva pgs)) (seqZ 0 (pages r))) 0); [lia|]. by destruct (_ =? _).
Qed.

(** From the bitfield on: mapping, bits, flags. *)
Lemma commit_tail node h r0 r pds ws usrva pgs zeroed cfg k e0 e (Φ : unit -> E -> prop) :
  node_ptr node -> can_commit r pds ws usrva pgs cfg k e0 -> same_region (with_flags (Z.lor (flags r) F_HAS_PHYS) r) r0 ->
  spent (obs e0) (obs e) ->
  bits_at node h r0 pds ws ⊢
    (∀ r' pds' e', ⌜committed_region r pds ws usrva pgs cfg k e0 r' pds' e'⌝ -∗ bits_at node h r' pds' (words_after r ws usrva pgs) -∗ Φ tt e') -∗
    uwp (let* r := get_region node in
         map_user_region node usrva pgs (flags r) zeroed ;;
         committed_set node (wrap64 (usrva - usr_start r) / PAGE_SIZE) (Z.to_nat pgs) ;;
         let* st := get_commited_state node in
         match st with
         | COMMITED_PARTIALLY =>
             upd_region node (fun r => with_flags (Z.lor (flags r) F_PARTIALLY_MAPPED) r) ;;
             upd_region node (fun r => with_flags (Z.land (flags r) (not32 F_FULL_MAPPED)) r)
         | COMMITED_FULLY =>
             upd_region node (fun r => with_flags (Z.lor (flags r) F_FULL_MAPPED) r) ;;
             upd_region node (fun r => with_flags (Z.land (flags r) (not32 F_PARTIALLY_MAPPED)) r)
         | COMMITED_NONE => panic
         end) e Φ.
Proof.
  intros Hnode Hcc (Es & Ep & Ef) Hsp. pose proof Hsp as (Hfr & _ & Hup & Hch & Hsz). cbn in Es, Ep, Ef.
  pose proof (range_facts _ _ _ _ _ _ _ _ Hcc) as (Hur & _ & Efp & H0 & Hle & Hp). pose proof Hcc as [Hr Hws Hcfg Hrange Hblocks Hapart Hun Hk Hframes Hchunks].
  iIntros "H HΦ". iApply uwp_bind. iApply (uwp_get_region_bits with "H"). iIntros (r1) "(%Es1 & %Ep1 & %Ef1) H".
  rewrite Es1 Es Efp Ef1 Ef. iApply uwp_bind. unfold map_user_region. iDestruct (bits_at_open with "H") as (r2) "[H Hback]".
  iApply (map_user_loop_spec node h r2 usrva pgs _ zeroed cfg k with "H");
    [lia|done|by rewrite cfg_has_phys|done|lia|lia|lia|lia|lia|done| | |].
  { intros x Hx. rewrite Z.sub_diag Z.mul_0_l Z.add_0_r. by apply Hapart. }
  { intros a Ha. rewrite Hup. apply Hun. lia. }
  rewrite Z.sub_diag Z.mul_0_l Z.add_0_r. iIntros (pds' e1) "%Hm H". iDestruct ("Hback" with "H") as "H".
  apply (mapped_pre k _ _ _ _ _ (obs e0) (obs e)) in Hm; [|done..].
  iApply uwp_bind. iApply (committed_set_spec with "H"); [lia|rewrite Ep Z2Nat.id; lia|]. iIntros "H". iApply uwp_bind.
  iApply (get_commited_state_spec with "H"); [by rewrite Ep|]. iIntros "H". rewrite Ep. fold (words_after r ws usrva pgs).
  pose proof (commited_not_none _ _ _ _ _ _ _ _ Hcc) as Hnn. destruct (commited_state (pages r) (words_after r ws usrva pgs)) eqn:Hst; [done| |].
  - iApply uwp_bind. iApply (uwp_upd_flags _ _ _ _ _ (fun fl => Z.lor fl F_PARTIALLY_MAPPED) with "H"). iIntros "H".
    iApply (uwp_upd_flags _ _ _ _ _ (fun fl => Z.land fl (not32 F_FULL_MAPPED)) with "H"). iIntros "H". iApply ("HΦ" with "[] H").
    iPureIntro. split; [done|done|done|]. rewrite Hst. cbn. by rewrite Ef.
  - iApply uwp_bind. iApply (uwp_upd_flags _ _ _ _ _ (fun fl => Z.lor fl F_FULL_MAPPED) with "H"). iIntros "H".
    iApply (uwp_upd_flags _ _ _ _ _ (fun fl => Z.land fl (not32 F_PARTIALLY_MAPPED)) with "H"). iIntros "H". iApply ("HΦ" with "[] H").
    iPureIntro. split; [done|done|done|]. rewrite Hst. cbn. by rewrite Ef.
Qed.

Lemma flags_after_phys fl st : (Z.land (flags_after fl st) F_HAS_PHYS =? 0) = false.
Proof.
  assert (forall x y, Z.testbit x 6 = true -> Z.testbit y 6 = true -> (Z.land (Z.land x y) F_HAS_PHYS =? 0) = false) as H.
  { intros x y Hx Hy. apply Z.eqb_neq. intros H0. assert (Z.testbit (Z.land (Z.land x y) F_HAS_PHYS) 6 = false) as Hb by (by rewrite H0).
    rewrite !Z.land_spec Hx Hy in Hb. done. }
  destruct st; apply H; try done; rewrite !Z.lor_spec; change (Z.testbit F_HAS_PHYS 6) with true; by rewrite orb_true_r.
Qed.

Lemma cfg_flags_after fl st : usr_mmu_cfg_from_flags (flags_after fl st) = usr_mmu_cfg_from_flags fl.
Proof.
  unfold usr_mmu_cfg_from_flags. assert (Z.land (flags_after fl st) 7 = Z.land fl 7) as ->; [|done].
  assert (forall x y m, Z.land x 7 = 0 -> Z.land m 7 = 7 -> Z.land y 7 = Z.land fl 7 -> Z.land (Z.land (Z.lor y x) m) 7 = Z.land fl 7) as H.
  { intros x y m Hx Hm Hy. by rewrite -Z.land_assoc Hm Z.land_lor_distr_l Hx Hy Z.lor_0_r. }
  assert (Z.land (Z.lor fl F_HAS_PHYS) 7 = Z.land fl 7) as Hp.
  { rewrite Z.land_lor_distr_l. change (Z.land F_HAS_PHYS 7) with 0. apply Z.lor_0_r. }
  destruct st; by apply H.
Qed.

Lemma commit_spec node h r pds ws usrva pgs zeroed cfg k e (Φ : unit -> E -> prop) :
  node_ptr node -> can_commit r pds ws usrva pgs cfg k e ->
  region_rep node h r pds ws ⊢
    (∀ r' pds' e', ⌜committed_region r pds ws usrva pgs cfg k e r' pds' e'⌝ -∗ bits_at node h r' pds' (words_after r ws usrva pgs) -∗ Φ tt e') -∗
    uwp (commit node usrva pgs zeroed) e Φ.
Proof.
  intros Hnode Hcc. pose proof (range_facts _ _ _ _ _ _ _ _ Hcc) as (_ & Ew & _ & _ & _ & Hp). pose proof Hcc as [Hr Hws Hcfg Hrange Hblocks Hapart Hun Hk Hframes Hchunks].
  pose proof (region_end_ok r Hr) as (Er & _ & _). iIntros "H HΦ". unfold commit, region_rep.
  destruct (Z.land (flags r) F_HAS_PHYS =? 0) eqn:Hph.
  - iDestruct "H" as "[(%Hc0 & ->) H]". iApply uwp_bind. iApply (uwp_get_region with "H"). iIntros (q) "H". cbn [flags with_physical_data].
    change (region_end (with_physical_data q r)) with (region_end r). rewrite Er Ew. destruct (Z.ltb_spec (rend r) (usrva + pgs * PAGE_SIZE)); [lia|].
    rewrite Hph. iApply uwp_bind. iApply uwp_bind. iApply (committed_init_spec with "H"); [done|done|intros H0; rewrite H0 size_empty in Hchunks; lia|].
    iIntros (r1 e1) "(%Hsame & %Hsp) H". iApply (uwp_upd_flags _ _ _ _ _ (fun fl => Z.lor fl F_HAS_PHYS) with "H"). iIntros "H".
    iApply (commit_tail with "H HΦ"); [done|done| |done]. destruct Hsame as (? & ? & Ef). repeat split; [done|done|]. cbn. by rewrite Ef.
  - iApply uwp_bind. iApply (uwp_get_region_bits with "H"). iIntros (r1) "(%Es & %Ep & %Ef) H".
    assert (region_end r1 = rend r) as -> by (rewrite -Er; unfold region_end; by rewrite Es Ep).
    rewrite Ew Ef Hph. destruct (Z.ltb_spec (rend r) (usrva + pgs * PAGE_SIZE)); [lia|]. iApply uwp_bind. iApply uwp_ret.
    iApply (commit_tail with "H HΦ"); [done|done| |apply spent_none]. apply Z.eqb_neq, has_phys_id in Hph. repeat split. cbn. by rewrite Hph.
Qed.

End Commit.
