(* ===== verification/UregionTask.v ===== *)
(** * UregionTask: all the regions of a task

    The tree of the regions with, for every region, its tree of blocks and its
    bitfield ([task]), what relates them to each other and to the user's
    address space ([task_ok]), and uregion_commit on them. *)

From Stdlib Require Import ZArith Lia Sorted.
From stdpp Require Import base gmap list.
From iris.proofmode Require Import proofmode.
From S2P Require Import Prelude KMath MmuDc VmContainers VmContainersSpec HeapLogic Rbtree RbtreeTree RbtreeRep RbtreeInsert RbtreeTraverse RbtreeKeys Uregion UregionSpec UregionBlocks UregionCommit.

Open Scope Z_scope.

(** ** A region, its blocks and its bits *)

Record ustate : Type := MkU { u_region : uregion_t; u_blocks : plist; u_words : list Z }.
Abbreviation ulist := (list (Z * ustate)).

Definition regs (us : ulist) : rlist := (fun x => (x.1, u_region x.2)) <$> us.

Definition has_phys (r : uregion_t) : bool := negb (Z.land (flags r) F_HAS_PHYS =? 0).
Definition no_words (r : uregion_t) : list Z := replicate (Z.to_nat (word_count (pages r))) 0.

(** What hangs off the node of a region. *)
Definition words_rep (r : uregion_t) (ws : list Z) : prop :=
  (if Z.land (flags r) F_HAS_PHYS =? 0 then ⌜committed r = 0 /\ ws = no_words r⌝
   else ⌜words_ok (pages r) ws⌝ ∗ if 64 <? pages r then words_at (committed r) ws else ⌜committed r = ws !!! 0%nat⌝)%I.

Definition contents (u : ustate) : prop :=
  let 'MkU r pds ws := u in
  ((∃ t, ⌜rbtree t /\ elems t = phys_nodes pds /\ ptr t = physical_data r⌝ ∗ tree_at 0 t) ∗ words_rep r ws)%I.

Definition task (regions : header udata) (us : ulist) : prop :=
  (whole regions (nodes_of (regs us)) ∗ [∗ list] x ∈ us, contents x.2)%I.

Lemma regs_app us us' : regs (us ++ us') = regs us ++ regs us'.
Proof. apply fmap_app. Qed.

Lemma elem_of_regs p r us : (p, r) ∈ regs us <-> exists u, r = u_region u /\ (p, u) ∈ us.
Proof.
  unfold regs. rewrite list_elem_of_fmap. split; [intros ([q u] & [= -> ->] & H); eauto|intros (u & -> & H); by exists (p, u)].
Qed.

(** ** Coherence *)

Definition held (pds : plist) (b : physdata_t) : Prop := exists q, (q, b) ∈ pds.
Definition within (b : physdata_t) (a : Z) : Prop := user_address b <= a < pend b.

(** The bits tell which pages have a block; these pages are mapped to its
    frames, the others are not mapped; the frames are in use. *)
Record coherent (u : ustate) (o : kobs) : Prop := {
  co_region : region_ok (u_region u);
  co_words : words_ok (pages (u_region u)) (u_words u);
  co_blocks : blocks_ok (u_blocks u);
  co_in b : held (u_blocks u) b -> usr_start (u_region u) <= user_address b /\ pend b <= rend (u_region u);
  co_bits a : contains (u_region u) a ->
    bit (u_words u) (first_page (u_region u) a) = true <-> exists b, held (u_blocks u) b /\ within b a;
  co_mapped b i : held (u_blocks u) b -> 0 <= i < page_count b ->
    exists cfg, usr_mmu_cfg_from_flags (flags (u_region u)) = Some cfg /\
      upages o !! (user_address b + i * PAGE_SIZE) = Some (physical_address b + i * PAGE_SIZE, cfg);
  co_unmapped a : contains (u_region u) a -> bit (u_words u) (first_page (u_region u) a) = false -> upages o !! a = None;
  co_held b : held (u_blocks u) b -> pblocks o !! physical_address b = Some (page_count b);
  co_total : total (u_blocks u) = count (bit (u_words u)) (seqZ 0 (pages (u_region u)));
  co_full i : Z.land (flags (u_region u)) F_FULL_MAPPED <> 0 -> 0 <= i < pages (u_region u) -> bit (u_words u) i = true
}.

Definition all_blocks (us : ulist) : plist := mjoin ((fun x => u_blocks x.2) <$> us).
Definition addresses (pds : plist) : list Z := (fun x => physical_address x.2) <$> pds.

Record task_ok (us : ulist) (o : kobs) : Prop := {
  to_regions : regions_ok (regs us);
  to_coherent x : x ∈ us -> coherent x.2 o;
  to_frames : NoDup (addresses (all_blocks us));
  to_only a : is_Some (upages o !! a) -> exists x, x ∈ us /\ contains (u_region x.2) a
}.

Lemma all_blocks_app us us' : all_blocks (us ++ us') = all_blocks us ++ all_blocks us'.
Proof. unfold all_blocks. rewrite fmap_app. apply join_app. Qed.

Lemma all_blocks_cons p u us : all_blocks ((p, u) :: us) = u_blocks u ++ all_blocks us.
Proof. done. Qed.

Lemma addresses_app pds pds' : addresses (pds ++ pds') = addresses pds ++ addresses pds'.
Proof. apply fmap_app. Qed.

#[export] Instance addresses_proper : Proper ((≡ₚ) ==> (≡ₚ)) addresses.
Proof. intros xs ys H. by apply fmap_Permutation. Qed.

Lemma held_address pds b : held pds b -> physical_address b ∈ addresses pds.
Proof. intros [q Hq]. apply list_elem_of_fmap. by exists (q, b). Qed.

Lemma elem_of_all_blocks x us y : x ∈ us -> y ∈ u_blocks x.2 -> y ∈ all_blocks us.
Proof. intros Hx Hy. apply list_elem_of_join. exists (u_blocks x.2). split; [done|]. apply list_elem_of_fmap. eauto. Qed.

(** Pages and addresses. *)
Lemma first_page_range r a : contains r a -> 0 <= first_page r a < pages r.
Proof.
  unfold contains, rend, first_page, PAGE_SIZE. intros H. split; [apply Z.div_pos; lia|]. apply Z.div_lt_upper_bound; lia.
Qed.

Lemma first_page_in r lo n a :
  page_aligned (usr_start r) -> page_aligned lo -> usr_start r <= lo -> 
  (lo <= a < lo + n * PAGE_SIZE <-> first_page r lo <= first_page r a < first_page r lo + n).
Proof.
  unfold page_aligned, first_page. intros Hr Hlo Hle.
  assert ((lo - usr_start r) mod PAGE_SIZE = 0) as Hm by (rewrite Zminus_mod Hr Hlo; done).
  pose proof (Z.div_mod (lo - usr_start r) PAGE_SIZE). pose proof (Z.div_mod (a - usr_start r) PAGE_SIZE).
  pose proof (Z.mod_pos_bound (a - usr_start r) PAGE_SIZE). unfold PAGE_SIZE in *. lia.
Qed.

(** What does not concern a region keeps it coherent. *)
Lemma coherent_frame u o o' :
  coherent u o -> (forall a, contains (u_region u) a -> upages o' !! a = upages o !! a) ->
  (forall b, held (u_blocks u) b -> pblocks o' !! physical_address b = pblocks o !! physical_address b) -> coherent u o'.
Proof.
  intros [Hr Hws Hb Hin Hbits Hm Hun Hh Ht Hfull] Hu Hp. split; try done.
  - intros b i Hbl Hi. destruct (Hm b i Hbl Hi) as (cfg & Hc & Hl). exists cfg. split; [done|]. rewrite Hu; [done|].
    destruct (Hin b Hbl). unfold contains. unfold pend, PAGE_SIZE in *. lia.
  - intros a Ha Hf. rewrite Hu; [|done]. by apply Hun.
  - intros b Hbl. rewrite Hp; [|done]. by apply Hh.
Qed.

(** Regions are apart. *)
Lemma in_order_unique {A} (lo hi : A -> Z) xs x y a :
  in_order lo hi xs -> x ∈ xs -> y ∈ xs -> lo x.2 <= a < hi x.2 -> lo y.2 <= a < hi y.2 -> x = y.
Proof.
  induction xs as [|z xs IH]; [by intros _ ?%elem_of_nil|]. rewrite in_order_cons. intros (Hz & Ho & Hle).
  intros [->|Hx]%elem_of_cons [->|Hy]%elem_of_cons Ha Hb; [done|specialize (Hle _ Hy); unfold apart in Hle; lia|
    specialize (Hle _ Hx); unfold apart in Hle; lia|by apply IH].
Qed.

Lemma in_order_apart {A} (lo hi : A -> Z) xs x ys y a :
  in_order lo hi (xs ++ x :: ys) -> y ∈ xs ++ ys -> lo x.2 <= a < hi x.2 -> ~ (lo y.2 <= a < hi y.2).
Proof.
  intros (_ & (_ & _ & Hy2)%in_order_cons & Hxy)%in_order_app Hy Ha Hb. apply elem_of_app in Hy as [Hy|Hy].
  - specialize (Hxy _ x Hy ltac:(by left)). unfold apart in Hxy. lia.
  - specialize (Hy2 _ Hy). unfold apart in Hy2. lia.
Qed.

Lemma regs_apart us1 p u us2 x a :
  regions_ok (regs (us1 ++ (p, u) :: us2)) -> x ∈ us1 ++ us2 -> contains (u_region u) a -> ~ contains (u_region x.2) a.
Proof.
  intros [_ Ho] Hx Ha. rewrite regs_app in Ho. destruct x as [q w].
  apply (in_order_apart usr_start rend (regs us1) (p, u_region u) (regs us2) (q, u_region w)); [exact Ho| |exact Ha].
  rewrite -regs_app. apply elem_of_regs. by exists w.
Qed.

(** ** Committing pages of a region *)

Lemma count_true P l : (forall i, i ∈ l -> P i = true) -> count P l = Z.of_nat (length l).
Proof.
  induction l as [|i l IH]; intros H; cbn; [done|]. rewrite (H i); [|by left]. rewrite IH; [lia|]. intros j Hj. apply H. by right.
Qed.

Lemma count_full P l i : count P l = Z.of_nat (length l) -> i ∈ l -> P i = true.
Proof.
  induction l as [|j l IH]; [by intros _ ?%elem_of_nil|]. cbn. pose proof (count_le P l).
  intros Hc [->|Hi]%elem_of_cons; destruct (P j) eqn:Hj; [done|lia|apply IH; [lia|done]|lia].
Qed.

(** The flag of a fully mapped region is set for all pages only. *)
Lemma flags_after_full fl st : Z.land (flags_after fl st) F_FULL_MAPPED <> 0 -> st = COMMITED_FULLY.
Proof.
  assert (forall x, Z.land (Z.land x (not32 F_FULL_MAPPED)) F_FULL_MAPPED = 0) as H.
  { intros x. rewrite -Z.land_assoc. change (Z.land (not32 F_FULL_MAPPED) F_FULL_MAPPED) with 0. apply Z.land_0_r. }
  by destruct st; cbn; rewrite ?H.
Qed.

Lemma fully_bits pgs ws i : 0 <= pgs -> commited_state pgs ws = COMMITED_FULLY -> 0 <= i < pgs -> bit ws i = true.
Proof.
  intros Hp Hst Hi. unfold commited_state in Hst. destruct (_ =? 0); [done|].
  destruct (Z.eqb_spec (count (bit ws) (seqZ 0 pgs)) pgs) as [Hc|]; [|done].
  apply (count_full (bit ws) (seqZ 0 pgs)); [rewrite length_seqZ; lia|apply elem_of_seqZ; lia].
Qed.

Lemma count_set_bits pgs ws i n :
  words_ok pgs ws -> 0 <= i -> 0 <= n -> i + n <= pgs -> (forall j, i <= j < i + n -> bit ws j = false) ->
  count (bit (set_bits ws i (Z.to_nat n))) (seqZ 0 pgs) = count (bit ws) (seqZ 0 pgs) + n.
Proof.
  intros Hok Hi Hn Hp Hclear. replace pgs with (i + (n + (pgs - i - n))) by lia. rewrite !(seqZ_app 0 i) ?(seqZ_app (0 + i) n); [|lia..].
  rewrite !count_app. rewrite Z.add_0_l.
  assert (forall j, 0 <= j < pgs -> bit (set_bits ws i (Z.to_nat n)) j = (i <=? j) && (j <? i + n) || bit ws j) as Hb.
  { intros j Hj. rewrite (bit_set_bits pgs) // Z2Nat.id; lia || done. }
  rewrite (count_ext _ (bit ws) (seqZ 0 i)); [rewrite (count_ext _ (bit ws) (seqZ (i + n) _))|].
  - rewrite (count_true _ (seqZ i n)); [rewrite (count_ext _ (fun _ => false) (seqZ i n))|].
    + rewrite count_false length_seqZ. lia.
    + intros j Hj%elem_of_seqZ. apply Hclear. lia.
    + intros j Hj%elem_of_seqZ. rewrite Hb; [|lia]. by destruct (Z.leb_spec i j), (Z.ltb_spec j (i + n)); cbn; lia || done.
  - intros j Hj%elem_of_seqZ. rewrite Hb; [|lia]. by destruct (Z.leb_spec i j), (Z.ltb_spec j (i + n)); cbn; lia || done.
  - intros j Hj%elem_of_seqZ. rewrite Hb; [|lia]. by destruct (Z.leb_spec i j), (Z.ltb_spec j (i + n)); cbn; lia || done.
Qed.

(** A range of pages of the region that has no committed page, and the
    memory to commit it: at most one block for every bit of its length. The
    region is readable ([cm_cfg]: otherwise there is no page configuration and
    the commit panics) and the range shorter than a last-level table. *)
Record committable (u : ustate) (lo pgs : Z) (cfg : mmu_pg_cfg) (o : kobs) : Prop := {
  cm_range : page_aligned lo /\ usr_start (u_region u) <= lo /\ 0 < pgs /\ lo + pgs * PAGE_SIZE <= rend (u_region u);
  cm_cfg : usr_mmu_cfg_from_flags (flags (u_region u)) = Some cfg;
  cm_clear a : lo <= a < lo + pgs * PAGE_SIZE -> bit (u_words u) (first_page (u_region u) a) = false;
  cm_small : pgs < 512;
  cm_frames : pgs <= frames o;
  cm_chunks : Z.log2 pgs + 2 <= Z.of_nat (size (chunks o))
}.

Definition rounds_of (pgs : Z) : nat := S (Z.to_nat (Z.log2 pgs)).

Section Commit.
Context {E : Type} `{!Kernel E} `{!KernelLaws E}.
Implicit Types (regions : header udata) (u : ustate) (us : ulist) (e : E).
Abbreviation uwp := (uwp (fresh (E := E))).

Lemma clear_apart u lo pgs cfg o b :
  coherent u o -> committable u lo pgs cfg o -> held (u_blocks u) b -> pend b <= lo \/ lo + pgs * PAGE_SIZE <= user_address b.
Proof.
  intros Hco [(_ & Hlo & Hp & Hhi) _ Hclear _ _ _] Hb. destruct (decide (pend b <= lo)) as [|H1]; [by left|].
  destruct (decide (lo + pgs * PAGE_SIZE <= user_address b)) as [|H2]; [by right|]. exfalso.
  assert (user_address b < pend b) as Hlt.
  { destruct Hb as [q Hq]. pose proof (blocks_elem _ _ _ (co_blocks _ _ Hco) Hq) as (_ & ? & _)%phys_end_ok. lia. }
  set (a := Z.max lo (user_address b)).
  assert (bit (u_words u) (first_page (u_region u) a) = true) as Ht.
  { apply (co_bits _ _ Hco); [unfold contains, a, PAGE_SIZE in *; lia|]. exists b. split; [done|]. unfold within, a. lia. }
  rewrite Hclear in Ht; [done|]. unfold a, PAGE_SIZE in *. lia.
Qed.

Lemma committable_can u lo pgs cfg e :
  coherent u (obs e) -> committable u lo pgs cfg (obs e) ->
  can_commit (u_region u) (u_blocks u) (u_words u) lo pgs cfg (rounds_of pgs) e.
Proof.
  intros Hco Hcm. pose proof Hcm as [Hr Hcfg Hclear H512 Hf Hch]. pose proof Hr as (Ha & Hlo & Hp & Hhi).
  assert (pgs < 2 ^ 36) as Hp36.
  { pose proof (region_end_ok _ (co_region _ _ Hco)) as (_ & ? & ?). unfold PAGE_SIZE in *. lia. }
  pose proof (Z.log2_nonneg pgs).
  assert (Z.log2 pgs < 36) by (apply Z.log2_lt_pow2; lia). unfold rounds_of.
  split; [apply (co_region _ _ Hco)|apply (co_words _ _ Hco)|done|done|apply (co_blocks _ _ Hco)| | | |lia|lia].
  - intros x Hx. apply (clear_apart u lo pgs cfg (obs e)); [done|done|]. exists x.1. by destruct x.
  - intros a Ha'. apply (co_unmapped _ _ Hco); [|by apply Hclear]. unfold contains. lia.
  - split; [|lia]. pose proof (Z.log2_spec pgs Hp) as [_ H2]. replace (Z.of_nat (S (Z.to_nat (Z.log2 pgs)))) with (Z.succ (Z.log2 pgs)) by lia. done.
Qed.

(** The bits afterwards. *)
Lemma bit_words_after u lo pgs cfg e a :
  coherent u (obs e) -> committable u lo pgs cfg (obs e) -> contains (u_region u) a ->
  bit (words_after (u_region u) (u_words u) lo pgs) (first_page (u_region u) a) = true <->
    lo <= a < lo + pgs * PAGE_SIZE \/ bit (u_words u) (first_page (u_region u) a) = true.
Proof.
  intros Hco Hcm Ha. pose proof (range_facts _ _ _ _ _ _ _ _ (committable_can _ _ _ _ _ Hco Hcm)) as (_ & _ & _ & H0 & Hle & _).
  pose proof (first_page_range _ _ Ha). destruct (cm_range _ _ _ _ _ Hcm) as (Hal & Hlo & Hp & Hhi).
  pose proof (co_region _ _ Hco) as [(Hs & _) _]. unfold words_after.
  rewrite (bit_set_bits (pages (u_region u))); [|by eapply co_words|lia|rewrite Z2Nat.id; lia|lia].
  rewrite orb_true_iff andb_true_iff Z.leb_le Z.ltb_lt Z2Nat.id; [|lia]. by rewrite (first_page_in (u_region u) lo pgs a).
Qed.

Lemma held_perm new pds pds' b : pds' ≡ₚ new ++ pds -> held pds' b <-> held new b \/ held pds b.
Proof.
  intros Hp. split.
  - intros [q Hq]. rewrite Hp in Hq. apply elem_of_app in Hq as [Hq|Hq]; [left|right]; by exists q.
  - intros [[q Hq]|[q Hq]]; exists q; rewrite Hp; apply elem_of_app; auto.
Qed.

Lemma committed_coherent u lo pgs cfg e r' pds' e' :
  coherent u (obs e) -> committable u lo pgs cfg (obs e) ->
  committed_region (u_region u) (u_blocks u) (u_words u) lo pgs cfg (rounds_of pgs) e r' pds' e' ->
  coherent (MkU r' pds' (words_after (u_region u) (u_words u) lo pgs)) (obs e').
Proof.
  intros Hco Hcm [[(new & Hperm & Hcov & Hmaps & Htaken & Htot) Hok Hother Hfr Hch Hroom] Es Ep Ef].
  pose proof (committable_can _ _ _ _ _ Hco Hcm) as Hcc. pose proof (range_facts _ _ _ _ _ _ _ _ Hcc) as (_ & _ & _ & H0 & Hle & Hpg).
  destruct (cm_range _ _ _ _ _ Hcm) as (Hal & Hlo & Hp & Hhi). pose proof (co_region _ _ Hco) as Hr.
  pose proof (fun b => held_perm new (u_blocks u) pds' b Hperm) as Hheld.
  assert (forall b, held new b -> forall a, within b a -> lo <= a < lo + pgs * PAGE_SIZE) as Hnew.
  { intros b [q Hq] a Ha. apply Hcov. eauto. }
  assert (forall b, held pds' b -> user_address b < pend b) as Hpos.
  { intros b [q Hq]. pose proof (blocks_elem _ _ _ Hok Hq) as (_ & ? & _)%phys_end_ok. lia. }
  assert (rend r' = rend (u_region u)) as Er by (unfold rend; by rewrite Es Ep).
  assert (forall a, contains r' a <-> contains (u_region u) a) as Hct by (intros a; unfold contains; by rewrite Es Er).
  assert (forall a, first_page r' a = first_page (u_region u) a) as Hfp by (intros a; unfold first_page; by rewrite Es).
  split; cbn [u_region u_blocks u_words].
  - unfold region_ok. by rewrite Es Ep.
  - rewrite Ep. apply set_bits_ok, (co_words _ _ Hco).
  - done.
  - intros b Hb. rewrite Es Er. specialize (Hpos b Hb). apply Hheld in Hb as [Hb|Hb]; [|by apply (co_in _ _ Hco)].
    pose proof (Hnew b Hb (user_address b) ltac:(unfold within; lia)). pose proof (Hnew b Hb (pend b - 1) ltac:(unfold within; lia)). lia.
  - intros a Ha. rewrite Hct in Ha. rewrite Hfp (bit_words_after _ _ _ cfg e) // (co_bits _ _ Hco) //. split.
    + intros [Hin|(b & Hb & Hw)]; [apply Hcov in Hin as (q & b & Hq & Hw); exists b|exists b]; (split; [apply Hheld|done]).
      * left. by exists q.
      * by right.
    + intros (b & Hb & Hw). apply Hheld in Hb as [Hb|Hb]; [left; by apply (Hnew b)|right; eauto].
  - intros b i Hb Hi. rewrite Ef cfg_flags_after. apply Hheld in Hb as [[q Hq]|Hb]; [|destruct (co_mapped _ _ Hco b i Hb Hi) as (c & Hc & Hl)].
    + exists cfg. split; [by eapply cm_cfg|]. by apply (Hmaps q).
    + exists c. split; [done|]. rewrite Hother; [done|]. destruct (clear_apart _ _ _ _ _ _ Hco Hcm Hb); unfold pend, PAGE_SIZE in *; lia.
  - intros a Ha Hf. rewrite Hct in Ha. rewrite Hfp in Hf.
    assert (~ (lo <= a < lo + pgs * PAGE_SIZE \/ bit (u_words u) (first_page (u_region u) a) = true)) as Hn.
    { rewrite -(bit_words_after _ _ _ cfg e) // Hf. done. }
    rewrite Hother; [|tauto]. apply (co_unmapped _ _ Hco); [done|]. apply not_true_iff_false. tauto.
  - intros b Hb. apply Hheld in Hb as [[q Hq]|Hb]; [by apply (t_new _ _ _ Htaken q)|].
    rewrite (t_other _ _ _ Htaken); [by apply (co_held _ _ Hco)|]. intros ([q c] & Heq & Hq)%list_elem_of_fmap.
    destruct (t_new _ _ _ Htaken q c Hq) as [Hn _]. cbn in Heq. rewrite -Heq (co_held _ _ Hco) in Hn; [|done]. done.
  - rewrite Hperm total_app Htot Ep (co_total _ _ Hco). unfold words_after. rewrite count_set_bits; [lia|apply (co_words _ _ Hco)|done|lia|done|].
    intros j Hj. assert (first_page (u_region u) (usr_start (u_region u) + j * PAGE_SIZE) = j) as Ej.
    { unfold first_page. replace (usr_start (u_region u) + j * PAGE_SIZE - usr_start (u_region u)) with (j * PAGE_SIZE) by lia. by rewrite Z.div_mul. }
    rewrite -{1}Ej. apply (cm_clear _ _ _ _ _ Hcm). apply (first_page_in (u_region u)); [by destruct Hr as [(? & _) _]|done|done|]. by rewrite Ej.
  - intros i. rewrite Ef Ep. intros Hst%flags_after_full. apply fully_bits; [lia|done].
Qed.

(** *** The node and what hangs off it *)

Lemma with_root_id r : with_physical_data (physical_data r) r = r.
Proof. by destruct r. Qed.

Lemma set_data_id (n : rbtnode udata) v : data n = v -> set_data v n = n.
Proof. intros <-. by destruct n. Qed.

Lemma region_at_open p n r pds t :
  data n = URegion r -> rbtree t -> elems t = phys_nodes pds -> ptr t = physical_data r ->
  p ↦ Node n ∗ tree_at 0 t ⊢ region_at p n r pds.
Proof.
  intros Hn Hrb He Hr. iIntros "[Hp Ht]". iApply region_at_cell. iExists t. iSplit; [done|]. rewrite Hr with_root_id set_data_id //. iFrame.
Qed.

Lemma rep_open p n r pds ws : data n = URegion r -> p ↦ Node n ∗ contents (MkU r pds ws) ⊢ region_rep p n r pds ws.
Proof.
  intros Hn. iIntros "(Hp & (%t & (%Hrb & %He & %Hr) & Ht) & Hw)". unfold region_rep, bits_at, words_rep.
  iDestruct (region_at_open with "[$Hp $Ht]") as "H"; [done..|]. destruct (Z.land (flags r) F_HAS_PHYS =? 0); [by iFrame|].
  iDestruct "Hw" as "[$ Hw]". destruct (64 <? pages r); [by iFrame|]. iDestruct "Hw" as %<-. by destruct r.
Qed.

Lemma rep_close p n r pds ws :
  has_phys r = true ->
  bits_at p n r pds ws ⊢ ∃ r', ⌜same_region r r'⌝ ∗ p ↦ Node (set_data (URegion r') n) ∗ contents (MkU r' pds ws).
Proof.
  unfold has_phys. intros Hph%negb_true_iff. iIntros "[%Hok H]". unfold bits_at, contents, words_rep. destruct (64 <? pages r) eqn:Hp.
  - iDestruct "H" as "[H Hw]". iDestruct (region_at_cell with "H") as (t) "((%Hrb & %He) & Hp & Ht)".
    iExists (with_physical_data (ptr t) r). iSplit; [done|]. iFrame "Hp". iSplitL "Ht"; [iExists t; by iFrame|]. cbn. rewrite Hph Hp. by iFrame.
  - iDestruct (region_at_cell with "H") as (t) "((%Hrb & %He) & Hp & Ht)".
    iExists (with_physical_data (ptr t) (with_committed (ws !!! 0%nat) r)). iSplit; [done|]. iFrame "Hp". iSplitL "Ht"; [iExists t; by iFrame|].
    cbn. by rewrite Hph Hp.
Qed.

Lemma uwp_get_region_rep node h r pds ws e (Φ : uregion_t -> E -> prop) :
  region_rep node h r pds ws ⊢ (∀ r', ⌜same_region r r'⌝ -∗ region_rep node h r pds ws -∗ Φ r' e) -∗ uwp (get_region node) e Φ.
Proof.
  unfold region_rep. destruct (_ =? 0).
  - iIntros "[% H] HΦ". iApply (uwp_get_region with "H"). iIntros (q) "H". iApply "HΦ"; [done|]. by iFrame.
  - iApply uwp_get_region_bits.
Qed.

(** The region around an address. *)
Lemma region_find_hit regions us1 p u us2 va (s : mst (cell udata) E) :
  regions_ok (regs (us1 ++ (p, u) :: us2)) -> contains (u_region u) va ->
  holds (whole regions (nodes_of (regs (us1 ++ (p, u) :: us2)))) (mem s) -> region_find_usrva regions va s = Ok (p, s).
Proof.
  intros Hok Hc Hm. destruct (region_find_spec regions _ va s Hok Hm) as (node & -> & Ha).
  assert ((p, u_region u) ∈ regs (us1 ++ (p, u) :: us2)) as Hp by (apply elem_of_regs; exists u; split; [done|]; rewrite elem_of_app elem_of_cons; tauto).
  destruct Ha as [(r & Hr & Hc')|[_ Hno]]; [|by destruct (Hno p (u_region u))].
  by pose proof (in_order_unique _ _ _ _ _ va (proj2 Hok) Hr Hp Hc' Hc) as [= ->].
Qed.

Lemma uwp_region_find regions us1 p u us2 va e (Φ : Z -> E -> prop) :
  regions_ok (regs (us1 ++ (p, u) :: us2)) -> contains (u_region u) va ->
  whole regions (nodes_of (regs (us1 ++ (p, u) :: us2))) ⊢
    (whole regions (nodes_of (regs (us1 ++ (p, u) :: us2))) -∗ Φ p e) -∗ uwp (region_find_usrva regions va) e Φ.
Proof.
  intros Hok Hc. iIntros "Hw HΦ".
  iApply (uwp_reads _ _ _ _ (fun node => node = p) with "Hw"); [|iIntros (node) "-> Hw"; by iApply "HΦ"].
  intros m Hm _. exists p. split; [by eapply region_find_hit|done].
Qed.

(** One region of the task. *)
Lemma task_open regions us1 p u us2 :
  task regions (us1 ++ (p, u) :: us2) ⊢ ∃ n, ⌜data n = URegion (u_region u) /\ node_ptr p⌝ ∗ p ↦ Node n ∗ contents u ∗
    (∀ u', p ↦ Node (set_data (URegion (u_region u')) n) -∗ contents u' -∗ task regions (us1 ++ (p, u') :: us2)).
Proof.
  unfold task. rewrite regs_app nodes_of_app big_sepL_app. iIntros "(Hw & H1 & Hu & H2)".
  iDestruct (whole_open with "Hw") as (n) "(%Hn & Hp & Hw)". iExists n. iSplit; [done|]. iFrame "Hp Hu". iIntros (u') "Hp Hu".
  iDestruct ("Hw" with "Hp") as "Hw". rewrite regs_app nodes_of_app big_sepL_app. iFrame.
Qed.

(** The blocks [new] that serve a commit: they cover the range, each is a power
    of two of pages that was not in use, and exactly they are in use now. *)
Definition served_by (new : plist) lo pgs (o o' : kobs) : Prop :=
  covers new lo pgs /\ total new = pgs /\ taken new (pblocks o) (pblocks o') /\ Forall (fun x => block_size (page_count x.2)) new.

(** What a commit does to its region, to the free memory and to the pages
    outside of its range. *)
Record commits u lo pgs (o : kobs) u' (o' : kobs) : Prop := {
  cs_start : usr_start (u_region u') = usr_start (u_region u);
  cs_pages : pages (u_region u') = pages (u_region u);
  cs_flags : flags (u_region u') = flags_after (flags (u_region u)) (commited_state (pages (u_region u)) (u_words u'));
  cs_bits a : contains (u_region u) a ->
    bit (u_words u') (first_page (u_region u) a) = true <->
      lo <= a < lo + pgs * PAGE_SIZE \/ bit (u_words u) (first_page (u_region u) a) = true;
  cs_new : exists new, u_blocks u' ≡ₚ new ++ u_blocks u /\ served_by new lo pgs o o';
  cs_frames : frames o - pgs <= frames o';
  cs_other a : ~ (lo <= a < lo + pgs * PAGE_SIZE) -> upages o' !! a = upages o !! a;
  cs_chunks : chunks o' ⊆ chunks o
}.

Lemma regs_replace us1 p u u' us2 :
  usr_start (u_region u') = usr_start (u_region u) -> pages (u_region u') = pages (u_region u) ->
  regions_ok (regs (us1 ++ (p, u) :: us2)) -> regions_ok (regs (us1 ++ (p, u') :: us2)).
Proof.
  intros Hs Hp. rewrite !regs_app. intros (H1 & Hu & H12)%regions_ok_app. apply regions_ok_app. split; [done|].
  destruct Hu as [(Hr & H2)%Forall_cons (Hlt & Ho & Hle)%in_order_cons]. cbn in Hr, Hlt.
  assert (rend (u_region u') = rend (u_region u)) as He by (unfold rend; by rewrite Hs Hp). split; [split|].
  - apply Forall_cons. split; [|done]. cbn. unfold region_ok. by rewrite Hs Hp.
  - apply in_order_cons. cbn. rewrite He Hs. split; [done|]. split; [done|]. intros y Hy. specialize (Hle y Hy).
    unfold apart in *. cbn in *. by rewrite He.
  - intros x y Hx [->|Hy]%elem_of_cons; [|apply H12; [done|by right]]. specialize (H12 x (p, u_region u) Hx ltac:(by left)).
    unfold apart in *. cbn in *. by rewrite Hs.
Qed.

Lemma commit_task_ok us1 p u us2 lo pgs cfg e r r' pds' e' :
  task_ok (us1 ++ (p, u) :: us2) (obs e) -> committable u lo pgs cfg (obs e) ->
  committed_region (u_region u) (u_blocks u) (u_words u) lo pgs cfg (rounds_of pgs) e r pds' e' -> same_region r r' ->
  let u' := MkU r' pds' (words_after (u_region u) (u_words u) lo pgs) in
  task_ok (us1 ++ (p, u') :: us2) (obs e') /\ commits u lo pgs (obs e) u' (obs e').
Proof.
  intros [Hreg Hcoh Hnd Honly] Hcm Hcr (Es & Ep & Ef) u'. assert (coherent u (obs e)) as Hu by (apply (Hcoh (p, u)); rewrite elem_of_app elem_of_cons; tauto).
  pose proof Hcr as [Hm Es0 Ep0 Ef0]. pose proof Hm as [(new & Hperm & Hcov & Hmaps & Htaken & Htot) Hok Hother Hfr Hch Hroom].
  assert (committed_region (u_region u) (u_blocks u) (u_words u) lo pgs cfg (rounds_of pgs) e r' pds' e') as Hcr'
    by (split; [done|congruence..]).
  assert (forall x b, x ∈ us1 ++ us2 -> held (u_blocks x.2) b -> physical_address b ∉ addresses new) as Hold.
  { intros x b Hx Hb ([q c] & Heq & Hq)%list_elem_of_fmap. destruct (t_new _ _ _ Htaken q c Hq) as [Hn _]. cbn in Heq.
    rewrite -Heq (co_held x.2 (obs e)) in Hn; [done|apply Hcoh; rewrite elem_of_app in Hx; rewrite elem_of_app elem_of_cons; tauto|done]. }
  split; [split|split]; cbn [u_region u_blocks u_words u'].
  - apply (regs_replace us1 p u); [cbn; congruence|cbn; congruence|done].
  - intros x Hx. assert (x ∈ us1 ++ us2 \/ x = (p, u')) as [Hx'| ->] by (rewrite elem_of_app elem_of_cons in Hx; rewrite elem_of_app; tauto).
    + apply (coherent_frame _ (obs e)).
      * apply Hcoh. rewrite elem_of_app in Hx'. rewrite elem_of_app elem_of_cons. tauto.
      * intros a Ha. apply Hother. intros Hin. destruct (cm_range _ _ _ _ _ Hcm) as (_ & ? & _ & ?).
        apply (regs_apart us1 p u us2 x a Hreg Hx'); [unfold contains; lia|done].
      * intros b Hb. apply (t_other _ _ _ Htaken). by apply (Hold x).
    + by apply (committed_coherent u lo pgs cfg e).
  - assert (addresses (all_blocks (us1 ++ (p, u') :: us2)) ≡ₚ addresses new ++ addresses (all_blocks (us1 ++ (p, u) :: us2))) as ->.
    { rewrite !all_blocks_app !all_blocks_cons !addresses_app. cbn [u_blocks u']. rewrite Hperm addresses_app. solve_Permutation. }
    apply NoDup_app. split; [apply Htaken|]. split; [|done]. intros a ([q c] & -> & Hq)%list_elem_of_fmap ([q' c'] & Heq & Hq')%list_elem_of_fmap.
    apply list_elem_of_join in Hq' as (l & Hl & ([q2 x] & -> & Hx)%list_elem_of_fmap).
    destruct (t_new _ _ _ Htaken q c Hq) as [Hn _]. cbn in Heq. rewrite Heq (co_held x (obs e)) in Hn; [done|by apply (Hcoh (q2, x))|by exists q'].
  - intros a Hs. destruct (decide (lo <= a < lo + pgs * PAGE_SIZE)) as [Hin|Hout].
    + exists (p, u'). split; [rewrite elem_of_app elem_of_cons; tauto|]. destruct (cm_range _ _ _ _ _ Hcm) as (_ & ? & _ & ?).
      cbn. unfold contains, rend in *. rewrite Es Ep Es0 Ep0. lia.
    + rewrite Hother // in Hs. destruct (Honly a Hs) as (x & Hx & Hc). rewrite elem_of_app elem_of_cons in Hx.
      destruct Hx as [Hx|[->|Hx]]; [exists x|exists (p, u')|exists x]; (split; [rewrite elem_of_app elem_of_cons; tauto|]); [done| |done].
      cbn in *. unfold contains, rend in *. by rewrite Es Ep Es0 Ep0.
  - congruence.
  - congruence.
  - congruence.
  - intros a Ha. by apply (bit_words_after u lo pgs cfg e).
  - exists new. split; [done|]. split; [done|]. split; [done|]. split; [done|]. destruct Hok as [Hok _]. rewrite Hperm in Hok.
    apply Forall_app in Hok as [Hok _]. eapply Forall_impl; [exact Hok|]. by intros x (_ & ? & _).
  - done.
  - done.
  - done.
Qed.

Lemma uwp_task_get_region regions us1 p u us2 e (Φ : uregion_t -> E -> prop) :
  task regions (us1 ++ (p, u) :: us2) ⊢ (⌜node_ptr p⌝ -∗ task regions (us1 ++ (p, u) :: us2) -∗ Φ (u_region u) e) -∗ uwp (get_region p) e Φ.
Proof.
  iIntros "H HΦ". iDestruct (task_open with "H") as (n) "((%Hn & %Hptr) & Hp & Hu & Hback)". iApply uwp_mem. iApply hwp_bind.
  iApply (hwp_get_node with "Hp"). iIntros "Hp". rewrite Hn. iApply hwp_ret. iApply ("HΦ" with "[//]"). iApply ("Hback" $! u with "[Hp] Hu"). by rewrite set_data_id.
Qed.

Lemma task_node_ptr regions us1 p u us2 : task regions (us1 ++ (p, u) :: us2) ⊢ ⌜node_ptr p⌝.
Proof. iIntros "H". iDestruct (task_open with "H") as (n) "((_ & $) & _)". Qed.

(** [commit], with the node of the region. *)
Lemma commit_task_spec regions us1 p u us2 lo pgs zeroed cfg e :
  task_ok (us1 ++ (p, u) :: us2) (obs e) -> committable u lo pgs cfg (obs e) ->
  task regions (us1 ++ (p, u) :: us2) ⊢ uwp (commit p lo pgs zeroed) e (fun _ e' =>
    ∃ u', ⌜task_ok (us1 ++ (p, u') :: us2) (obs e') /\ commits u lo pgs (obs e) u' (obs e')⌝ ∗ task regions (us1 ++ (p, u') :: us2))%I.
Proof.
  intros Hok Hcm. assert (coherent u (obs e)) as Hu by (apply (to_coherent _ _ Hok (p, u)); rewrite elem_of_app elem_of_cons; tauto).
  pose proof (committable_can _ _ _ _ _ Hu Hcm) as Hcc.
  iIntros "H". iDestruct (task_open with "H") as (n) "((%Hn & %Hptr) & Hp & Hu & Hback)".
  destruct u as [r pds ws]. cbn [u_region u_blocks u_words] in *. iDestruct (rep_open with "[$Hp $Hu]") as "H"; [done|].
  iApply (commit_spec with "H"); [done|exact Hcc|]. iIntros (r2 pds2 e2) "%Hcr H".
  iDestruct (rep_close with "H") as (r3) "(%Hsame & Hp & Hu)".
  { unfold has_phys. rewrite (cr_flags _ _ _ _ _ _ _ _ _ _ _ Hcr) flags_after_phys. done. }
  destruct (commit_task_ok us1 p _ us2 lo pgs cfg e r2 r3 pds2 e2 Hok Hcm Hcr Hsame) as [Hok' Hcs].
  iExists _. iSplit; [iPureIntro; split; [exact Hok'|exact Hcs]|]. iApply ("Hback" $! (MkU r3 pds2 _) with "Hp Hu").
Qed.

Lemma uregion_commit_spec regions us1 p u us2 lo pgs zeroed cfg e :
  task_ok (us1 ++ (p, u) :: us2) (obs e) -> committable u lo pgs cfg (obs e) ->
  task regions (us1 ++ (p, u) :: us2) ⊢ uwp (uregion_commit regions lo pgs zeroed) e (fun _ e' =>
    ∃ u', ⌜task_ok (us1 ++ (p, u') :: us2) (obs e') /\ commits u lo pgs (obs e) u' (obs e')⌝ ∗ task regions (us1 ++ (p, u') :: us2))%I.
Proof.
  intros Hok Hcm. assert (coherent u (obs e)) as Hu by (apply (to_coherent _ _ Hok (p, u)); rewrite elem_of_app elem_of_cons; tauto).
  pose proof (range_facts _ _ _ _ _ _ _ _ (committable_can _ _ _ _ _ Hu Hcm)) as (_ & Ew & _).
  destruct (cm_range _ _ _ _ _ Hcm) as (_ & Hlo & Hp & Hhi). pose proof (region_end_ok _ (co_region _ _ Hu)) as (Er & _ & _).
  iIntros "[Hw Hc]". unfold uregion_commit. iApply uwp_bind. iApply (uwp_region_find with "Hw"); [apply Hok|unfold contains, PAGE_SIZE in *; lia|]. iIntros "Hw".
  iAssert (task regions (us1 ++ (p, u) :: us2)) with "[$Hw $Hc]" as "H". iDestruct (task_node_ptr with "H") as %[Hp0 _].
  destruct (Z.eqb_spec p 0) as [|_]; [done|]. iApply uwp_bind. iApply (uwp_task_get_region with "H"). iIntros "_ H".
  rewrite Er Ew. destruct (Z.ltb_spec (rend (u_region u)) (lo + pgs * PAGE_SIZE)); [lia|]. by iApply (commit_task_spec with "H").
Qed.

End Commit.
