(* ===== verification/UregionFree.v ===== *)
(** * UregionFree: reserving and freeing the regions of a task *)

From Stdlib Require Import ZArith Lia Sorted.
From stdpp Require Import base gmap list.
From iris.proofmode Require Import proofmode.
From S2P Require Import Prelude KMath MmuDc VmContainers VmContainersSpec HeapLogic Rbtree RbtreeTree RbtreeRep RbtreeInsert RbtreeRemove RbtreeTraverse RbtreeDestroy RbtreeKeys Uregion UregionSpec UregionBlocks UregionCommit UregionTask.

Open Scope Z_scope.

(** ** Reserving *)

Lemma bit_no_words r i : 0 <= i < pages r -> bit (no_words r) i = false.
Proof.
  intros Hi. unfold bit. pose proof (word_index _ _ i (replicate_words_ok (pages r)) Hi) as Hl. rewrite length_replicate in Hl.
  unfold no_words. rewrite lookup_total_replicate_2; [apply Z.bits_0|done].
Qed.

Definition new_ustate (r : uregion_t) : ustate := MkU r [] (no_words r).

Lemma new_coherent r o : region_ok r -> Z.land (flags r) F_FULL_MAPPED = 0 -> (forall a, contains r a -> upages o !! a = None) -> coherent (new_ustate r) o.
Proof.
  intros Hr Hfl Hun. split; cbn; try (by intros b [q ?%elem_of_nil]); try (by intros b i [q ?%elem_of_nil]).
  - done.
  - apply replicate_words_ok.
  - by repeat constructor.
  - intros a Ha. rewrite bit_no_words; [|by apply first_page_range]. split; [done|]. by intros (b & [q ?%elem_of_nil] & _).
  - intros a Ha _. by apply Hun.
  - rewrite (count_ext _ (fun _ => false)); [by rewrite count_false|]. intros i Hi%elem_of_seqZ. apply bit_no_words. lia.
  - done.
Qed.

Lemma node_flags_no_phys rd wr ex : Z.land (node_flags rd wr ex false) F_HAS_PHYS = 0 /\ Z.land (node_flags rd wr ex false) F_FULL_MAPPED = 0.
Proof. by destruct rd, wr, ex. Qed.

Lemma regs_split us a b : regs us = a ++ b -> exists us1 us2, us = us1 ++ us2 /\ regs us1 = a /\ regs us2 = b.
Proof. intros H. apply fmap_app_inv in H as (us1 & us2 & -> & -> & ->). eauto. Qed.

Section Reserve.
Context {E : Type} `{!Kernel E} `{!KernelLaws E}.
Implicit Types (regions : header udata) (us : ulist) (r : uregion_t) (e : E).
Abbreviation uwp := (uwp (fresh (E := E))).

Lemma reserve_task_ok us1 us2 p r o c :
  task_ok (us1 ++ us2) o -> region_ok r -> Z.land (flags r) F_FULL_MAPPED = 0 -> regions_ok (regs us1 ++ (p, r) :: regs us2) ->
  task_ok (us1 ++ (p, new_ustate r) :: us2) (with_chunks c o).
Proof.
  intros [Hreg Hcoh Hnd Honly] Hr Hfl Hok. split.
  - by rewrite regs_app.
  - intros x Hx. assert (x ∈ us1 ++ us2 \/ x = (p, new_ustate r)) as [Hx'| ->] by (rewrite elem_of_app elem_of_cons in Hx; rewrite elem_of_app; tauto).
    + apply (coherent_frame _ o); [by apply Hcoh|done|done].
    + apply new_coherent; [done|done|]. intros a Ha. cbn. destruct (upages o !! a) eqn:Hl; [|done]. exfalso.
      destruct (Honly a ltac:(eauto)) as (x & Hx2 & Hc).
      apply (regs_apart us1 p (new_ustate r) us2 x a); [by rewrite regs_app|done|done|done].
  - rewrite all_blocks_app all_blocks_cons. by rewrite all_blocks_app in Hnd.
  - intros a Ha. destruct (Honly a Ha) as (x & Hx & Hc). exists x. split; [|done]. rewrite elem_of_app in Hx. rewrite elem_of_app elem_of_cons. tauto.
Qed.

(** The region is added, or it overlaps one and nothing changes. *)
Lemma uregion_reserve_task regions us va pgs rd wr ex e :
  let r := new_region va pgs rd wr ex in
  haddr regions <> 0 -> task_ok us (obs e) -> region_ok r -> chunks (obs e) <> ∅ ->
  task regions us ⊢ uwp (uregion_reserve regions va pgs rd wr ex) e (fun res e' =>
    (⌜res = UREGION_OK⌝ ∗ ∃ us1 us2 p, ⌜us = us1 ++ us2 /\ p ∈ chunks (obs e) /\ obs e' = with_chunks (chunks (obs e) ∖ {[p]}) (obs e) /\
        task_ok (us1 ++ (p, new_ustate r) :: us2) (obs e')⌝ ∗ task regions (us1 ++ (p, new_ustate r) :: us2)) ∨
    (⌜res = UREGION_OVERLAPS /\ (exists x, x ∈ us /\ overlaps r (u_region x.2)) /\ obs e' = obs e⌝ ∗ task regions us))%I.
Proof.
  intros r Ht Hok Hr Hch. iIntros "[Hw Hc]". iApply (uwp_wand with "[Hw]"); [iApply (uregion_reserve_spec with "Hw"); [done|apply Hok|exact Hr|done]|].
  iIntros (res e') "[(-> & %a & %b & %p & (%Hab & %Hok' & %Hp & %Eo) & Hw)|((-> & (%x & %Hx & %Hov) & %Eo) & Hw)]".
  - apply regs_split in Hab as (us1 & us2 & -> & <- & <-). iLeft. iSplit; [done|]. iExists us1, us2, p. iSplit.
    { iPureIntro. split; [done|]. split; [done|]. split; [done|]. rewrite Eo. apply reserve_task_ok; [done|done|apply node_flags_no_phys|done]. }
    unfold task. rewrite regs_app !big_sepL_app. cbn [big_opL]. iDestruct "Hc" as "[$ $]". iFrame "Hw".
    cbn [snd new_ustate contents]. iSplitR; [iExists RbtreeTree.E|].
    + iSplit; [iPureIntro|done]. split; [exists 0%nat; constructor|done].
    + unfold words_rep. cbn. by rewrite (proj2 (Z.eqb_eq _ _) (proj1 (node_flags_no_phys rd wr ex))).
  - iRight. iFrame. iPureIntro. split; [done|]. split; [|done]. destruct x as [q w].
    apply elem_of_regs in Hx as (u & -> & Hu). by exists (q, u).
Qed.
End Reserve.

(** ** Freeing *)

(** The blocks [l] and the nodes [extra] were given back. *)
Record freed (l : plist) (extra : gset Z) (o o' : kobs) : Prop := {
  f_chunks : chunks o' = extra ∪ list_to_set (l.*1) ∪ chunks o;
  f_frames : frames o <= frames o' /\ (l = [] -> frames o' = frames o);
  f_blocks b : held l b -> pblocks o' !! physical_address b = None;
  f_blocks_other a : a ∉ addresses l -> pblocks o' !! a = pblocks o !! a;
  f_pages a b : held l b -> within b a -> upages o' !! a = None;
  f_pages_other a : (forall b, held l b -> ~ within b a) -> upages o' !! a = upages o !! a
}.

Lemma freed_nil o : freed [] ∅ o o.
Proof.
  split; [set_solver|done|by intros b [q ?%elem_of_nil]|done|by intros a b [q ?%elem_of_nil]|done].
Qed.

Lemma freed_chunk l extra c o o1 o2 :
  freed l extra o o1 -> o2 = with_chunks ({[c]} ∪ chunks o1) o1 -> freed l ({[c]} ∪ extra) o o2.
Proof. intros [Hc Hf Hb Hbo Hp Hpo] ->. split; try done. cbn. rewrite Hc. set_solver. Qed.

Lemma held_snoc l p b c : held (l ++ [(p, b)]) c <-> held l c \/ c = b.
Proof.
  unfold held. split.
  - intros [q [Hq|[[= -> ->]|?%elem_of_nil]%elem_of_cons]%elem_of_app]; [left; eauto|by right|done].
  - intros [[q Hq]| ->]; [exists q; apply elem_of_app; by left|exists p; apply elem_of_app; right; by left].
Qed.

(** One block more. *)
Lemma freed_snoc l p b fr o o1 o2 :
  freed l ∅ o o1 -> frames o1 <= fr -> pblocks o1 !! physical_address b = Some (page_count b) ->
  o2 = with_chunks ({[p]} ∪ chunks o1) (with_upages (filter (fun x => ~ within b x.1) (upages o1)) (give_block (physical_address b) fr o1)) ->
  freed (l ++ [(p, b)]) ∅ o o2.
Proof.
  intros [Hc [Hf _] Hb Hbo Hp Hpo] Hfr Hh ->. split; cbn.
  - rewrite Hc fmap_app list_to_set_app_L. cbn. set_solver.
  - split; [lia|]. by destruct l.
  - intros c [Hl| ->]%held_snoc; [|apply lookup_delete_eq]. destruct (decide (physical_address b = physical_address c)) as [->|Hne]; [apply lookup_delete_eq|].
    rewrite lookup_delete_ne //. by apply Hb.
  - intros a Ha. rewrite addresses_app elem_of_app in Ha. rewrite lookup_delete_ne; [apply Hbo; tauto|]. intros <-. apply Ha. right. by left.
  - intros a c Hc2 Hw. apply map_lookup_filter_None. apply held_snoc in Hc2 as [Hl| ->]; [left; by apply (Hp a c)|right; by intros x _ []].
  - intros a Ha. rewrite -Hpo; [|intros c Hl; apply Ha, held_snoc; by left]. 
    destruct (upages o1 !! a) as [x|] eqn:Hx; [|apply map_lookup_filter_None; by left].
    apply map_lookup_filter_Some. split; [done|]. cbn. apply Ha, held_snoc. by right.
Qed.

Section Free.
Context {E : Type} `{!Kernel E} `{!KernelLaws E}.
Implicit Types (regions : header udata) (u : ustate) (us : ulist) (e : E).
Abbreviation uwp := (uwp (fresh (E := E))).

Lemma uwp_get_phys p n b e (Φ : physdata_t -> E -> prop) :
  data n = UPhys b -> p ↦ Node n ⊢ (p ↦ Node n -∗ Φ b e) -∗ uwp (get_phys p) e Φ.
Proof.
  intros Hn. iIntros "H HΦ". iApply uwp_mem. iApply hwp_bind. iApply (hwp_get_node with "H"). iIntros "H". rewrite Hn. iApply hwp_ret. by iApply "HΦ".
Qed.

(** One block: its frames, its pages, its node. *)
Lemma physdata_destroy_spec p n b e (Φ : unit -> E -> prop) :
  node_ptr p -> data n = UPhys b -> phys_ok b -> pblocks (obs e) !! physical_address b = Some (page_count b) ->
  (forall i, 0 <= i < page_count b -> is_Some (upages (obs e) !! (user_address b + i * PAGE_SIZE))) ->
  p ↦ Node n ⊢
    (∀ e' fr, ⌜frames (obs e) <= fr /\ obs e' = with_chunks ({[p]} ∪ chunks (obs e)) (with_upages (filter (fun x => ~ within b x.1) (upages (obs e)))
              (give_block (physical_address b) fr (obs e)))⌝ -∗ Φ tt e') -∗
    uwp (physdata_destroy p) e Φ.
Proof.
  intros Hp Hn Hb Hpb Hup. iIntros "H HΦ". unfold physdata_destroy. iApply uwp_bind. iApply (uwp_get_phys with "H"); [done|]. iIntros "H".
  destruct (raw_kfree_ok e _ _ Hpb) as (fr & e1 & E1 & Hfr & O1). iApply uwp_bind.
  iApply (uwp_ext _ _ e tt e1); [exact E1|intros d; unfold fresh; by rewrite O1|].
  pose proof Hb as [(Hal & Ha0 & Hn0 & Hend) [(o & Ho & Eo) _]]. assert (2 ^ o <= 2 ^ 8) as H256 by (apply Z.pow_le_mono_r; lia). rewrite USR_ADDRSPACE_END_val in Hend.
  assert (wrap64 (page_count b * PAGE_SIZE) = page_count b * PAGE_SIZE) as -> by (apply wrap_small; unfold u_range, PAGE_SIZE in *; lia).
  destruct (mmu_unmap_law e1 (user_address b) (Z.to_nat (page_count b))) as (e2 & E2 & O2);
    [rewrite Z2Nat.id; [apply Hb|lia]|lia|rewrite O1 Z2Nat.id; [done|lia]|]. rewrite Z2Nat.id in E2, O2; [|lia].
  iApply uwp_bind. iApply (uwp_ext _ _ e1 MMU_UNMAP_OK e2); [exact E2|intros d; unfold fresh; by rewrite O2|].
  iApply uwp_bind. iApply uwp_ret. iApply (uwp_free_cell with "H"); [done|]. iIntros (e3) "%O3". iApply "HΦ". iPureIntro. split; [exact Hfr|]. by rewrite O3 O2 O1.
Qed.

Lemma tree_ptrs (t : tree udata) q : tree_at q t ⊢ ⌜forall p v, (p, v) ∈ elems t -> node_ptr p⌝.
Proof.
  revert q. induction t as [|c l IHl p v r IHr]; intros q; [iIntros "_ !%"; by intros p v ?%elem_of_nil|].
  iIntros "(%Hp & _ & Hl & Hr)". iDestruct (IHl with "Hl") as %Hl. iDestruct (IHr with "Hr") as %Hr. iPureIntro.
  intros p' v' [H|[[= -> ->]|H]%elem_of_cons]%elem_of_app; eauto.
Qed.

(** The block that comes next still has its frames and its pages. *)
Lemma next_block u g q b rest o o' :
  coherent u o -> NoDup (addresses (u_blocks u)) -> g ++ (q, b) :: rest ≡ₚ u_blocks u -> freed g ∅ o o' ->
  phys_ok b /\ pblocks o' !! physical_address b = Some (page_count b) /\
  (forall i, 0 <= i < page_count b -> is_Some (upages o' !! (user_address b + i * PAGE_SIZE))).
Proof.
  intros Hco Hnd Hperm Hfr. assert ((q, b) ∈ u_blocks u) as Hq by (rewrite -Hperm elem_of_app elem_of_cons; tauto).
  assert (held (u_blocks u) b) as Hb by (by exists q).
  rewrite -Hperm addresses_app in Hnd. apply NoDup_app in Hnd as (_ & Hgone & _).
  assert (physical_address b ∉ addresses g) as Hna by (intros H; apply (Hgone _ H); by left).
  split; [by apply (blocks_elem _ _ _ (co_blocks _ _ Hco) Hq)|]. split; [rewrite (f_blocks_other _ _ _ _ Hfr) //; by apply (co_held _ _ Hco)|].
  intros i Hi. destruct (co_mapped _ _ Hco b i Hb Hi) as (cfg & _ & Hm). rewrite (f_pages_other _ _ _ _ Hfr); [eauto|].
  intros c [q' Hc] Hw. assert ((q', c) = (q, b)) as [= -> ->].
  { apply (in_order_unique user_address pend (u_blocks u) _ _ (user_address b + i * PAGE_SIZE) (proj2 (co_blocks _ _ Hco)));
      [rewrite -Hperm elem_of_app; tauto|done|exact Hw|]. cbn. unfold pend, PAGE_SIZE. lia. }
  apply Hna, held_address. by exists q.
Qed.

#[local] Instance phys_nodes_inj : Inj (=) (=) phys_nodes.
Proof. apply list_fmap_eq_inj. by intros [q b] [q' b'] [= -> ->]. Qed.

(** All the blocks of a region. *)
Lemma blocks_destroy_spec p h u e :
  node_ptr p -> coherent u (obs e) -> NoDup (addresses (u_blocks u)) ->
  region_at p h (u_region u) (u_blocks u) ⊢ uwp (rbt_destroy (@on_mem (cell udata) E) p (Some physdata_destroy)) e (fun _ e' =>
    ∃ l, ⌜l ≡ₚ u_blocks u /\ freed l ∅ (obs e) (obs e')⌝ ∗ region_at p h (u_region u) [])%I.
Proof.
  intros Hp Hco Hnd. iIntros "(%t & Htr & Ht & %Hrb & %He)". iDestruct (tree_ptrs with "Ht") as %Hptr. pose proof (postorder_elems t) as Hpo.
  assert (exists l, postorder t = phys_nodes l /\ u_blocks u ≡ₚ l) as (l & Hl & Hperm) by (rewrite He in Hpo; by apply Permutation_map_inv in Hpo).
  iApply (uwp_wand with "[Htr Ht]").
  - iApply (rbt_destroy_spec (fresh (E := E)) physdata_destroy
      (fun gone e' => ⌜exists g, gone = phys_nodes g /\ freed g ∅ (obs e) (obs e')⌝)%I (postorder t) _ (inner p h (u_region u)) with "[$Htr $Ht]"); [apply Hp|done|].
    iPureIntro. exists []. split; [done|apply freed_nil].
  - iIntros ([] e') "[(%g & %Hg & %Hfr) [Htr Ht]]". rewrite Hl in Hg. apply (inj phys_nodes) in Hg as <-. iExists l. iSplit; [by iPureIntro|].
    iExists RbtreeTree.E. iFrame. iPureIntro. split; [exists 0%nat; constructor|done].
  Unshelve.
  intros gone q v rest n e1 Hall Hv. iIntros "[(%g & -> & %Hfr) Hq]".
  assert (node_ptr q) as Hqp by (apply (Hptr q v); rewrite -Hpo Hall elem_of_app elem_of_cons; tauto).
  rewrite Hl in Hall. apply fmap_app_inv in Hall as (g' & l2 & Hg & Hl2 & ->). apply (inj phys_nodes) in Hg as <-.
  destruct l2 as [|[q' b] l2]; [done|]. injection Hl2 as -> -> ->. symmetry in Hperm.
  destruct (next_block u g q' b l2 (obs e) (obs e1) Hco Hnd Hperm Hfr) as (Hb & Hpb & Hup).
  iApply (physdata_destroy_spec with "Hq"); [done|done|done|done|done|]. iIntros (e2 fr) "(%Hle & %Eo)". iPureIntro. exists (g ++ [(q', b)]).
  split; [by rewrite phys_nodes_app|]. by eapply freed_snoc.
Qed.
(** The array of the bitfield, if there is one. *)
Definition word_chunk (r : uregion_t) : gset Z := if 64 <? pages r then {[committed r]} else ∅.

(** A large region has its array from the first commit on. *)
Definition destroyable (r : uregion_t) : Prop := pages r <= 64 \/ has_phys r = true.

Lemma words_free_spec r ws e (Φ : unit -> E -> prop) :
  destroyable r ->
  words_rep r ws ⊢
    (∀ e', ⌜obs e' = with_chunks (word_chunk r ∪ chunks (obs e)) (obs e)⌝ -∗ Φ tt e') -∗
    uwp (if 64 <? pages r then free_cell (committed r) else ret tt) e Φ.
Proof.
  intros Hd. iIntros "Hw HΦ". unfold word_chunk, words_rep. destruct (Z.ltb_spec 64 (pages r)) as [Hp|Hp].
  - destruct Hd as [|Hph]; [lia|]. unfold has_phys in Hph. apply negb_true_iff in Hph. rewrite Hph. iDestruct "Hw" as "(_ & %Ha & %hw & Hw)".
    iApply (uwp_free_cell with "Hw"); [done|done].
  - iApply uwp_ret. iApply "HΦ". iPureIntro. rewrite union_empty_l_L. by destruct (obs e).
Qed.

(** Freeing a region: its nodes and its array go back to kmalloc, its blocks to
    raw_kmalloc, and no others; its pages are unmapped. *)
Record releases p u (o o' : kobs) : Prop := {
  rl_chunks : chunks o' = {[p]} ∪ word_chunk (u_region u) ∪ list_to_set ((u_blocks u).*1) ∪ chunks o;
  rl_blocks b : held (u_blocks u) b -> pblocks o' !! physical_address b = None;
  rl_blocks_other a : a ∉ addresses (u_blocks u) -> pblocks o' !! a = pblocks o !! a;
  rl_frames : frames o <= frames o' /\ (u_blocks u = [] -> frames o' = frames o);
  rl_pages a : contains (u_region u) a -> upages o' !! a = None;
  rl_other a : ~ contains (u_region u) a -> upages o' !! a = upages o !! a
}.

Lemma freed_releases us1 p u us2 l o o1 o2 o3 :
  task_ok (us1 ++ (p, u) :: us2) o -> l ≡ₚ u_blocks u -> freed l ∅ o o1 ->
  o2 = with_chunks (word_chunk (u_region u) ∪ chunks o1) o1 -> o3 = with_chunks ({[p]} ∪ chunks o2) o2 ->
  task_ok (us1 ++ us2) o3 /\ releases p u o o3.
Proof.
  intros [Hreg Hcoh Hnd Honly] Hperm [Hc Hf Hb Hbo Hp Hpo] E2 E3. assert (coherent u o) as Hu by (apply (Hcoh (p, u)); rewrite elem_of_app elem_of_cons; tauto).
  assert (forall b, held l b <-> held (u_blocks u) b) as Hheld by (intros b; unfold held; by setoid_rewrite Hperm).
  assert (forall a, ~ contains (u_region u) a -> upages o3 !! a = upages o !! a) as Hout.
  { intros a Ha. rewrite E3 E2. cbn. apply Hpo. intros b Hbl%Hheld Hw. apply Ha. destruct (co_in _ _ Hu b Hbl). unfold contains, within in *. lia. }
  assert (forall a, contains (u_region u) a -> upages o3 !! a = None) as Hin.
  { intros a Ha. rewrite E3 E2. cbn. destruct (bit (u_words u) (first_page (u_region u) a)) eqn:Hbit.
    - apply (co_bits _ _ Hu) in Hbit as (b & Hbl & Hw); [|done]. by apply (Hp a b); [apply Hheld|].
    - rewrite Hpo; [by apply (co_unmapped _ _ Hu)|]. intros b Hbl%Hheld Hw.
      assert (bit (u_words u) (first_page (u_region u) a) = true) by (apply (co_bits _ _ Hu); eauto). congruence. }
  rewrite all_blocks_app all_blocks_cons !addresses_app in Hnd.
  assert (forall x b, x ∈ us1 ++ us2 -> held (u_blocks x.2) b -> physical_address b ∉ addresses l) as Hold.
  { intros x b Hx [q Hq]. rewrite Hperm. pose proof (elem_of_all_blocks _ _ _ Hx Hq) as Hq'. rewrite all_blocks_app in Hq'.
    assert (physical_address b ∈ addresses (all_blocks us1 ++ all_blocks us2)) as Ha by (apply held_address; by exists q). rewrite addresses_app elem_of_app in Ha. intros Hbad.
    assert (addresses (all_blocks us1) ++ addresses (u_blocks u) ++ addresses (all_blocks us2) ≡ₚ
      addresses (u_blocks u) ++ addresses (all_blocks us1) ++ addresses (all_blocks us2)) as Hpp by solve_Permutation.
    rewrite Hpp in Hnd. apply NoDup_app in Hnd as (_ & Hd & _). apply (Hd _ Hbad). rewrite elem_of_app. tauto. }
  split; [split|split; [| | | |exact Hin|exact Hout]].
  - rewrite regs_app in Hreg. rewrite regs_app. by eapply (regions_remove _ (p, u_region u)).
  - intros x Hx. apply (coherent_frame _ o).
    + apply Hcoh. rewrite elem_of_app in Hx. rewrite elem_of_app elem_of_cons. tauto.
    + intros a Ha. apply Hout. intros Ha'. exact (regs_apart us1 p u us2 x a Hreg Hx Ha' Ha).
    + intros b Hbl. rewrite E3 E2. cbn. apply Hbo. by apply (Hold x).
  - rewrite all_blocks_app addresses_app. apply NoDup_app in Hnd as (H1 & Hd & (_ & _ & H2)%NoDup_app). apply NoDup_app.
    split; [done|]. split; [|done]. intros a Ha Ha2. apply (Hd a Ha). apply elem_of_app. by right.
  - intros a Ha. destruct (decide (usr_start (u_region u) <= a < rend (u_region u))) as [Hc'|Hc'].
    { rewrite Hin in Ha; [|done]. by destruct Ha. }
    rewrite Hout in Ha; [|done]. destruct (Honly a Ha) as (x & Hx & Hcx). exists x. split; [|done]. rewrite elem_of_app elem_of_cons in Hx.
    rewrite elem_of_app. destruct Hx as [Hx|[->|Hx]]; [by left|done|by right].
  - rewrite E3 E2. cbn. rewrite Hc. assert (list_to_set (C := gset Z) l.*1 = list_to_set (u_blocks u).*1) as -> by (apply leibniz_equiv; by rewrite Hperm).
    set_solver.
  - intros b Hbl%Hheld. rewrite E3 E2. by apply Hb.
  - intros a Ha. rewrite E3 E2. apply Hbo. by rewrite Hperm.
  - rewrite E3 E2. cbn. destruct Hf as [Hf1 Hf2]. split; [done|]. intros H0. apply Hf2. rewrite H0 in Hperm. by apply Permutation_nil_r in Hperm.
Qed.

Lemma region_destroy_spec regions us1 p u us2 e :
  haddr regions <> 0 -> task_ok (us1 ++ (p, u) :: us2) (obs e) -> destroyable (u_region u) ->
  task regions (us1 ++ (p, u) :: us2) ⊢ uwp (region_destroy regions p) e (fun _ e' =>
    ⌜task_ok (us1 ++ us2) (obs e') /\ releases p u (obs e) (obs e')⌝ ∗ task regions (us1 ++ us2))%I.
Proof.
  intros Ht Hok Hd. assert (coherent u (obs e)) as Hu by (apply (to_coherent _ _ Hok (p, u)); rewrite elem_of_app elem_of_cons; tauto).
  assert (NoDup (addresses (u_blocks u))) as Hnd.
  { pose proof (to_frames _ _ Hok) as H. rewrite all_blocks_app all_blocks_cons !addresses_app in H. by apply NoDup_app in H as (_ & _ & (H & _)%NoDup_app). }
  unfold task. rewrite regs_app nodes_of_app big_sepL_app. iIntros "(Hw & H1 & Hu & H2)".
  iDestruct (whole_open with "Hw") as (n) "((%Hn & %Hptr) & Hp & Hw)". unfold region_destroy. iApply uwp_bind.
  destruct u as [r pds ws]. iDestruct "Hu" as "[(%t & (%Hrb & %He & %Hr) & Hti) Hwords]".
  iDestruct (region_at_open with "[$Hp $Hti]") as "H"; [exact Hn|done|done|done|].
  iApply (uwp_wand with "[H]"); [by iApply (blocks_destroy_spec p n (MkU r pds ws) e Hptr Hu Hnd with "H")|].
  iIntros ([] e1) "(%l & (%Hperm & %Hfr) & H)". iApply uwp_bind. iApply (uwp_get_region with "H"). iIntros (q) "H". cbn [pages committed with_physical_data].
  iApply uwp_bind. iApply (words_free_spec r ws with "Hwords"); [exact Hd|].
  iIntros (e2) "%E2". iDestruct (region_at_cell with "H") as (t') "(_ & Hp & _)". iDestruct ("Hw" with "Hp") as "Hw".
  iApply uwp_bind. iApply uwp_mem. iApply (hwp_wand with "[Hw]"); [iApply (rbt_remove_spec with "Hw")|].
  iIntros (m) "(-> & Hw & %n2 & Hp & _)". iApply (uwp_free_cell with "Hp"); [done|]. iIntros (e3) "%E3".
  destruct (freed_releases us1 p _ us2 l _ _ _ _ Hok Hperm Hfr E2 E3) as [Hok' Hrl].
  iSplit; [done|]. rewrite regs_app nodes_of_app big_sepL_app. iFrame.
Qed.

(** uregion_free of a whole region. *)
Lemma uregion_free_spec regions us1 p u us2 e :
  haddr regions <> 0 -> task_ok (us1 ++ (p, u) :: us2) (obs e) -> destroyable (u_region u) ->
  task regions (us1 ++ (p, u) :: us2) ⊢ uwp (uregion_free regions (usr_start (u_region u)) (pages (u_region u))) e (fun res e' =>
    ⌜res = true /\ task_ok (us1 ++ us2) (obs e') /\ releases p u (obs e) (obs e')⌝ ∗ task regions (us1 ++ us2))%I.
Proof.
  intros Ht Hok Hd. assert (coherent u (obs e)) as Hu by (apply (to_coherent _ _ Hok (p, u)); rewrite elem_of_app elem_of_cons; tauto).
  pose proof (region_end_ok _ (co_region _ _ Hu)) as (Er & Hlt & _).
  iIntros "[Hw Hc]". unfold uregion_free. iApply uwp_bind. iApply (uwp_region_find with "Hw"); [apply Hok|unfold contains; lia|]. iIntros "Hw".
  iAssert (task regions (us1 ++ (p, u) :: us2)) with "[$Hw $Hc]" as "H". iDestruct (task_node_ptr with "H") as %[Hp0 _].
  destruct (Z.eqb_spec p 0) as [|_]; [done|]. iApply uwp_bind. iApply (uwp_task_get_region with "H"). iIntros "_ H".
  change (wrap64 (usr_start (u_region u) + wrap64 (pages (u_region u) * PAGE_SIZE))) with (region_end (u_region u)).
  rewrite Z.ltb_irrefl !Z.eqb_refl. cbn [andb]. iApply uwp_bind. iApply (uwp_wand with "[H]"); [by iApply (region_destroy_spec with "H")|].
  iIntros ([] e') "((%H1 & %H2) & H)". iApply uwp_ret. by iFrame.
Qed.
End Free.
