(* ===== verification/UregionQueries.v ===== *)
(** * UregionQueries: what the queries on a task's regions answer *)

From Stdlib Require Import ZArith Lia Sorted.
From stdpp Require Import base gmap list.
From iris.proofmode Require Import proofmode.
From S2P Require Import Prelude KMath MmuDc VmContainers VmContainersSpec HeapLogic Rbtree RbtreeTree RbtreeRep RbtreeInsert RbtreeTraverse RbtreeKeys Uregion UregionSpec UregionBlocks UregionCommit UregionTask UregionFree.

Open Scope Z_scope.

Section Reading.
Context {E : Type} `{!Kernel E}.
Implicit Types (regions : header udata) (rs : rlist) (r : uregion_t) (s : mst (cell udata) E).

Lemma whole_cell tree xs p v (m : gmap Z (cell udata)) :
  holds (whole tree xs) m -> (p, v) ∈ xs -> node_ptr p /\ exists n, m !! p = Some (Node n) /\ data n = v.
Proof.
  intros Hm (a & b & ->)%list_elem_of_split. destruct (whole_open tree a p v b) as [H].
  apply H in Hm as (n & m1 & m2 & Em & Hd & [Hn Hp] & m3 & m4 & -> & Hd' & H3 & _). split; [done|]. exists n. split; [|done].
  rewrite Em map_union_comm //. by apply lookup_union_Some_l, lookup_union_Some_l.
Qed.

Lemma region_cell regions rs p r (m : gmap Z (cell udata)) :
  holds (whole regions (nodes_of rs)) m -> (p, r) ∈ rs -> node_ptr p /\ exists n, m !! p = Some (Node n) /\ data n = URegion r.
Proof. intros Hm Hr. apply (whole_cell regions (nodes_of rs)); [done|]. apply elem_of_nodes. by exists r. Qed.

Lemma get_region_reads regions rs p r s :
  holds (whole regions (nodes_of rs)) (mem s) -> (p, r) ∈ rs -> node_ptr p /\ get_region p s = Ok (r, s).
Proof.
  intros Hm Hr. destruct (region_cell regions rs p r (mem s) Hm Hr) as (Hp & n & Hl & Hn). split; [done|]. apply on_mem_reads.
  unfold get_node, load, bind, gets, deref. rewrite Hl. cbn. by rewrite Hn.
Qed.

(** The range [start, start + size) lies in the region. *)
Definition covered r (start size : Z) : Prop := usr_start r <= start /\ start + size <= rend r.

Lemma uregion_is_reserved_spec regions rs start size s :
  regions_ok rs -> holds (whole regions (nodes_of rs)) (mem s) -> 0 <= size -> start + size < 2 ^ 64 -> 0 <= start ->
  exists o, uregion_is_reserved regions start size s = Ok (o, s) /\
    forall node, o = Some node <-> 0 < size /\ exists r, (node, r) ∈ rs /\ covered r start size.
Proof.
  intros Hok Hm Hsz Hend Hst. unfold uregion_is_reserved. destruct (Z.eqb_spec size 0) as [->|Hne].
  { exists None. split; [done|]. intros node. split; [done|lia]. }
  destruct (region_find_spec regions rs start s Hok Hm) as (node & Hf & Ha). unfold bind at 1. rewrite Hf.
  destruct Ha as [(r & Hr & Hc)|[-> Hno]].
  - destruct (get_region_reads regions rs node r s Hm Hr) as [[Hn0 _] Hg]. destruct (Z.eqb_spec node 0); [done|].
    unfold bind. rewrite Hg. pose proof (region_end_ok r (regions_ok_elem _ _ _ Hok Hr)) as (-> & _ & _).
    rewrite wrap_small; [|unfold u_range; lia].
    assert (forall q w, (q, w) ∈ rs -> covered w start size -> q = node /\ w = r) as Huniq.
    { intros q w Hw [H1 H2]. unfold contains in Hc.
      by pose proof (in_order_unique _ _ _ _ _ start (proj2 Hok) Hw Hr ltac:(cbn; lia) Hc) as [= -> ->]. }
    destruct (Z.ltb_spec (rend r) (start + size)) as [Hlt|Hge]; eexists; (split; [done|]); intros q; split.
    + done.
    + intros (_ & w & Hw & Hcov). destruct (Huniq q w Hw Hcov) as [-> ->]. destruct Hcov. lia.
    + intros [= <-]. split; [lia|]. exists r. split; [done|]. destruct Hc. by split.
    + intros (_ & w & Hw & Hcov). by destruct (Huniq q w Hw Hcov) as [-> _].
  - cbn. exists None. split; [done|]. intros q. split; [done|]. intros (Hp & r & Hr & H1 & H2). destruct (Hno q r Hr). unfold contains. lia.
Qed.

(** The highest free range of [pgs] pages of the user's half. *)
Lemma uregion_find_free_spec regions rs pgs s :
  regions_ok rs -> holds (whole regions (nodes_of rs)) (mem s) -> 0 <= pgs < 2 ^ 32 ->
  exists o, uregion_find_free regions pgs s = Ok (o, s) /\
    match o with
    | Some x => page_aligned x /\ 0 <= x /\ highest_free rs USR_ADDRSPACE_END (pgs * PAGE_SIZE) x
    | None => pgs = 0 \/ forall y, 0 <= y -> y + pgs * PAGE_SIZE <= USR_ADDRSPACE_END -> ~ range_free rs y (pgs * PAGE_SIZE)
    end.
Proof.
  intros Hok Hm Hp. unfold uregion_find_free. destruct (Z.eqb_spec pgs 0) as [->|Hne]; [exists None; split; [done|by left]|].
  assert (wrap64 (pgs * PAGE_SIZE) = pgs * PAGE_SIZE) as -> by (apply wrap_small; unfold u_range, PAGE_SIZE; lia).
  destruct (whole_tree _ _ _ Hm) as (t & _ & He & Hrep).
  unfold bind. rewrite (on_mem_reads _ s (visit_all (find_free_visitor (pgs * PAGE_SIZE)) (rev (nodes_of rs)) (MkFree USR_ADDRSPACE_END None))).
  2:{ refine (reads_run _ _ _ _ (reads_for_each L regions _ _) _ Hrep). iIntros "Ht". iApply (for_each_spec L with "Ht"). iIntros "_". cbn. by rewrite He. }
  pose proof (find_free_fold rs pgs USR_ADDRSPACE_END Hok ltac:(lia)) as H. cbn zeta in H.
  assert (forall p r, (p, r) ∈ rs -> rend r <= USR_ADDRSPACE_END) as Htop.
  { intros p r Hr. pose proof (region_end_ok r (regions_ok_elem _ _ _ Hok Hr)) as (_ & _ & ?). by rewrite USR_ADDRSPACE_END_val. }
  specialize (H ltac:(done) ltac:(rewrite USR_ADDRSPACE_END_val; lia) Htop).
  destruct (out _) as [x|]; [by exists (Some x)|]. destruct H as (-> & Hal & Hlow & Hno).
  assert (forall p r, (p, r) ∈ rs -> lowest rs USR_ADDRSPACE_END <= usr_start r) as Hmin.
  { intros p r Hr. destruct rs as [|[q w] rs]; [by apply elem_of_nil in Hr|]. cbn. apply elem_of_cons in Hr as [[= -> ->]|Hr]; [done|].
    destruct Hok as [Hf (Hw & _ & Hle)%in_order_cons]. specialize (Hle _ Hr). unfold apart in Hle. cbn in Hle, Hw. lia. }
  destruct (Z.leb_spec (pgs * PAGE_SIZE) (lowest rs USR_ADDRSPACE_END)) as [Hfit|Hnofit].
  - rewrite wrap_small; [|unfold u_range, PAGE_SIZE in *; lia]. rewrite align_down_page; [|unfold u_range, PAGE_SIZE in *; lia|by apply page_aligned_sub].
    eexists. split; [done|]. split; [by apply page_aligned_sub|]. split; [lia|]. split; [|split].
    + intros p r Hr. right. specialize (Hmin p r Hr). lia.
    + destruct rs as [|[q w] rs]; cbn in *; [lia|]. specialize (Htop q w ltac:(by left)).
      pose proof (region_end_ok w (regions_ok_elem _ q w Hok ltac:(by left))) as (_ & ? & _). lia.
    + intros y Hy Hyt. apply Hno; [lia|done].
  - exists None. split; [done|]. right. intros y Hy Hyt. apply Hno; [lia|done].
Qed.
End Reading.

(** ** From a user address to the kernel's *)

Section Translate.
Context {E : Type} `{!Kernel E}.
Implicit Types (regions : header udata) (us : ulist) (s : mst (cell udata) E).

Lemma pdata_find_eq va b :
  phys_ok b -> pdata_find_condition va (UPhys b) =
    if va <? user_address b then RBT_LESS_THAN else if pend b <=? va then RBT_GREATER_THAN else RBT_EQUALS.
Proof. intros (Eb & _)%phys_end_ok. unfold pdata_find_condition. cbn. by rewrite Eb. Qed.

Lemma cuts_blocks va xs ys :
  blocks_ok xs -> blocks_ok ys -> (forall x, x ∈ xs -> pend x.2 <= va) -> (forall x, x ∈ ys -> va < user_address x.2) ->
  cuts (pdata_find_condition va) (phys_nodes xs) (phys_nodes ys).
Proof.
  intros Hx Hy Ha Hb. split; intros q v (w & -> & Hq)%elem_of_phys; (rewrite pdata_find_eq; [|by eapply blocks_elem; [|exact Hq]]).
  - pose proof (Ha _ Hq). apply blocks_elem in Hq as (_ & Hw & _)%phys_end_ok; [|done]. cbn in *.
    destruct (Z.ltb_spec va (user_address w)); [lia|]. by destruct (Z.leb_spec (pend w) va); [|lia].
  - specialize (Hb _ Hq). cbn in Hb. by destruct (Z.ltb_spec va (user_address w)); [|lia].
Qed.

(** The block around an address. *)
Lemma block_find_hit p h r pds q b a (m : gmap Z (cell udata)) :
  blocks_ok pds -> (q, b) ∈ pds -> within b a -> holds (region_at p h r pds) m ->
  rbt_find p (pdata_find_condition a) m = Ok ((RBT_FIND_OK, Some q), m).
Proof.
  intros Hok Hq Hw Hm. destruct (whole_tree _ _ _ Hm) as (t & _ & He & Hrep). rewrite (find_reads (inner p h r) t _ m Hrep). do 2 f_equal.
  destruct (in_order_at user_address pend a pds (proj2 Hok)) as [(xs & q' & b' & ys & -> & Hc & Hx & Hy)|(xs & ys & -> & Hx & Hy)].
  - assert ((q', b') = (q, b)) as [= -> ->].
    { apply (in_order_unique _ _ _ _ _ a (proj2 Hok)); [rewrite elem_of_app elem_of_cons; tauto|done|done|exact Hw]. }
    pose proof Hok as (Hokx & Hb1 & _)%blocks_ok_app. pose proof Hb1 as (Hb2 & Hoky & _)%(blocks_ok_app [(q, b)]).
    rewrite phys_nodes_app in He. assert (phys_ok b) as Hb by (apply (blocks_elem _ q b Hb2); by left).
    assert (pdata_find_condition a (UPhys b) = RBT_EQUALS) as Heq.
    { rewrite pdata_find_eq //. destruct Hc. destruct (Z.ltb_spec a (user_address b)); [lia|]. destruct (Z.leb_spec (pend b) a); [lia|done]. }
    rewrite (tree_find_hit _ _ _ _ _ _ He); [by rewrite Heq|by apply cuts_blocks|by rewrite Heq|by rewrite Heq].
  - exfalso. unfold within in Hw. apply elem_of_app in Hq as [Hq|Hq]; [specialize (Hx _ Hq)|specialize (Hy _ Hq)]; cbn in *; lia.
Qed.

Lemma usr_block_run regions us1 p u us2 q b a s :
  regions_ok (regs (us1 ++ (p, u) :: us2)) -> blocks_ok (u_blocks u) -> contains (u_region u) a ->
  (q, b) ∈ u_blocks u -> within b a -> holds (task regions (us1 ++ (p, u) :: us2)) (mem s) ->
  usr_block regions a s = Ok ((kpa_to_kva (wrap64 (physical_address b + (a - user_address b))), pend b - a), s).
Proof.
  intros Hreg Hok Hc Hq Hw Hm. assert (holds (whole regions (nodes_of (regs (us1 ++ (p, u) :: us2)))) (mem s)) as Hwh.
  { destruct Hm as (m1 & m2 & -> & _ & H & _). eapply holds_mono; [exact H|]. apply map_union_subseteq_l. }
  assert (exists h r, holds (region_at p h r (u_blocks u)) (mem s)) as (h & r & Hat).
  { assert (task regions (us1 ++ (p, u) :: us2) ⊢ ∃ h r, region_at p h r (u_blocks u)) as [H].
    { iIntros "H". iDestruct (task_open with "H") as (n) "((%Hn & _) & Hp & Hu & _)". destruct u as [r pds ws].
      iDestruct "Hu" as "[(%t & (%Hrb & %He & %Hr) & Ht) _]". iExists n, r. iApply (region_at_open with "[$Hp $Ht]"); done. }
    exact (H _ Hm). }
  destruct (whole_cell _ _ q (UPhys b) (mem s) Hat) as (_ & n & Hl & Hn); [apply elem_of_phys; by exists b|].
  unfold usr_block. unfold bind at 1. rewrite (region_find_hit regions us1 p u us2 a s Hreg Hc Hwh).
  unfold bind at 1. rewrite (on_mem_reads _ s _ (block_find_hit p h r (u_blocks u) q b a (mem s) Hok Hq Hw Hat)).
  cbn [snd deref]. unfold bind at 1. cbn [ret].
  assert (get_phys q s = Ok (b, s)) as Hg.
  { apply on_mem_reads. unfold get_node, load, bind, gets, deref. rewrite Hl. cbn. by rewrite Hn. }
  unfold bind at 1. rewrite Hg. pose proof (blocks_elem _ _ _ Hok Hq) as Hb. apply phys_end_ok in Hb as (_ & Hb1 & Hb2). unfold within, pend in *.
  rewrite (wrap_small 64 (a - user_address b)); [|unfold u_range; lia].
  rewrite (wrap_small 64 (page_count b * PAGE_SIZE)); [|unfold u_range; lia]. rewrite (wrap_small 64 (page_count b * PAGE_SIZE - _)); [|unfold u_range; lia].
  cbn. by replace (page_count b * PAGE_SIZE - (a - user_address b)) with (user_address b + page_count b * PAGE_SIZE - a) by lia.
Qed.
End Translate.

(** ** Committed ranges *)

Section Committed.
Context {E : Type} `{!Kernel E} `{!KernelLaws E}.
Implicit Types (regions : header udata) (u : ustate) (us : ulist) (e : E).
Abbreviation uwp := (uwp (fresh (E := E))).

Lemma all_committed_spec node h r pds ws n : forall i e (Φ : bool -> E -> prop),
  0 <= i -> i + Z.of_nat n <= pages r ->
  bits_at node h r pds ws ⊢ (bits_at node h r pds ws -∗ Φ (forallb (bit ws) (seqZ i (Z.of_nat n))) e) -∗ uwp (all_committed node i n) e Φ.
Proof.
  induction n as [|n IH]; intros i e Φ Hi Hn; iIntros "H HΦ"; cbn [all_committed].
  - iApply uwp_ret. by iApply "HΦ".
  - iAssert (⌜words_ok (pages r) ws⌝)%I as %Hok; [by iDestruct "H" as "[$ _]"|].
    pose proof (word_index _ _ i Hok ltac:(lia)) as Hl. iApply uwp_bind. iApply (bf_get_spec with "H"); [apply Z.div_pos; lia|done|]. iIntros "H".
    rewrite seqZ_cons; [|lia]. cbn [forallb]. replace (Z.pred (Z.of_nat (S n))) with (Z.of_nat n) by lia.
    rewrite bitfield_get_bit; [|apply Z.mod_pos_bound; lia]. change (Z.testbit (ws !!! Z.to_nat (i / 64)) (i mod 64)) with (bit ws i).
    destruct (bit ws i); cbn [negb andb]; [|iApply uwp_ret; by iApply "HΦ"]. iApply (IH with "H"); [lia|lia|]. iIntros "H".
    by iApply "HΦ".
Qed.

(** The pages that are looked at: as many as the size needs, from the first. *)
Definition pages_of (size : Z) : Z := (size + (PAGE_SIZE - 1)) / PAGE_SIZE.
Definition looked_at u (start size : Z) : bool := forallb (bit (u_words u)) (seqZ (first_page (u_region u) start) (pages_of size)).

Lemma looked_at_range r start size :
  region_ok r -> covered r start size -> 0 < size ->
  0 <= first_page r start /\ 0 < pages_of size /\ first_page r start + pages_of size <= pages r.
Proof.
  intros _ [Hs He] Hsz. unfold covered, first_page, pages_of, rend, PAGE_SIZE in *.
  pose proof (Z.div_mod (start - usr_start r) 4096). pose proof (Z.mod_pos_bound (start - usr_start r) 4096).
  pose proof (Z.div_mod (size + (4096 - 1)) 4096). pose proof (Z.mod_pos_bound (size + (4096 - 1)) 4096). lia.
Qed.

Lemma uregion_is_committed_spec regions us1 p u us2 start size e :
  task_ok (us1 ++ (p, u) :: us2) (obs e) -> 0 < size -> covered (u_region u) start size ->
  task regions (us1 ++ (p, u) :: us2) ⊢ uwp (uregion_is_committed regions start size) e (fun b _ => ⌜b = looked_at u start size⌝)%I.
Proof.
  intros Hok Hsz Hcov. assert (coherent u (obs e)) as Hu by (apply (to_coherent _ _ Hok (p, u)); rewrite elem_of_app elem_of_cons; tauto).
  pose proof (co_region _ _ Hu) as Hr. pose proof (region_end_ok _ Hr) as (_ & Hlt & Hend). pose proof Hcov as [Hs He].
  destruct (looked_at_range _ _ _ Hr Hcov Hsz) as (Hf0 & Hn0 & Hfn). iIntros "[Hw Hc]". unfold uregion_is_committed. iApply uwp_bind.
  iApply (uwp_reads _ _ _ _ (fun o => o = Some p) with "Hw").
  { intros m Hm _. destruct (uregion_is_reserved_spec regions _ start size (MkSt m e) (to_regions _ _ Hok) Hm) as (o & Ho & Hiff); [lia..|].
    exists o. split; [done|]. apply Hiff. split; [done|]. exists (u_region u). split; [|done]. apply elem_of_regs. exists u.
    split; [done|]. rewrite elem_of_app elem_of_cons. tauto. }
  iIntros (o) "-> Hw". iDestruct (task_open regions us1 p u us2 with "[$Hw $Hc]") as (n) "((%Hn & %Hptr) & Hp & Hu & _)".
  destruct u as [r pds ws]. unfold looked_at. cbn [u_region u_words] in *. iDestruct (rep_open with "[$Hp $Hu]") as "H"; [done|]. iApply uwp_bind.
  iApply (uwp_get_region_rep with "H"). iIntros (r1) "(%Es & %Ep & %Ef) H". rewrite Ef Es.
  destruct (Z.eqb_spec (Z.land (flags r) F_FULL_MAPPED) 0) as [_|Hfull]; cbn [negb].
  2:{ iApply uwp_ret. iPureIntro. symmetry. apply forallb_forall. intros i Hi%list_elem_of_In%elem_of_seqZ.
      apply (co_full _ _ Hu i Hfull). cbn. lia. }
  unfold region_rep. destruct (Z.land (flags r) F_HAS_PHYS =? 0).
  { iDestruct "H" as "[[_ ->] _]". iApply uwp_ret. iPureIntro. rewrite seqZ_cons; [|lia]. cbn [forallb].
    fold (no_words r). by rewrite bit_no_words; [|lia]. }
  assert (wrap64 (start - usr_start r) = start - usr_start r) as -> by (apply wrap_small; unfold u_range; lia). fold (first_page r start).
  assert (div_ceil size PAGE_SIZE = pages_of size) as ->.
  { unfold div_ceil, pages_of. rewrite wrap_small; [f_equal; unfold PAGE_SIZE; lia|unfold u_range, PAGE_SIZE; lia]. }
  iApply (all_committed_spec with "H"); [done|lia|]. iIntros "_". by rewrite Z2Nat.id; [|lia].
Qed.

(** It only reads. *)
Lemma reads_on_mem {A} (c : M (gmap Z (cell udata)) A) : reads c -> reads (on_mem (X := E) c).
Proof. intros H [m x] a s' Hs. unfold on_mem in Hs. cbn in Hs. destruct (c m) as [[b m']|] eqn:Hc; [|done]. injection Hs as -> <-. by rewrite (H _ _ _ Hc). Qed.

Lemma reads_match {S A} (o : option A) : reads (deref (S := S) o).
Proof. unfold deref. by destruct o; [apply reads_ret|]. Qed.
Hint Resolve reads_on_mem reads_match : reads.

Lemma reads_get_region p : reads (get_region (E := E) p).
Proof. apply reads_on_mem, reads_bind; [apply reads_get_node|]. intros n. destruct (data n); [apply reads_ret|done|done]. Qed.
Hint Resolve reads_get_region : reads.

Lemma reads_bf_get p j : reads (bf_get (E := E) p j).
Proof.
  apply reads_bind; [auto with reads|]. intros r. destruct (64 <? pages r); [|destruct (j =? 0); [auto with reads|done]].
  apply reads_bind; [|auto with reads]. apply reads_on_mem, reads_bind; [apply reads_get_node|]. intros n. destruct (data n); [done|done|apply reads_ret].
Qed.

Lemma reads_all_committed node i n : reads (all_committed (E := E) node i n).
Proof.
  revert i. induction n as [|n IH]; intros i; cbn [all_committed]; [auto with reads|].
  apply reads_bind; [apply reads_bf_get|]. intros w. destruct (negb _); auto with reads.
Qed.

Lemma reads_is_committed regions start size : reads (uregion_is_committed (E := E) regions start size).
Proof.
  apply reads_bind; [unfold uregion_is_reserved; destruct (size =? 0); [auto with reads|]; apply reads_bind|].
  - apply reads_bind; [apply reads_on_mem, reads_find|]. intros r. destruct (r.1 =? RBT_FIND_OK); auto with reads.
  - intros node. destruct (node =? 0); [auto with reads|]. apply reads_bind; [auto with reads|]. intros r. case_match; auto with reads.
  - intros [node|]; [|auto with reads]. apply reads_bind; [auto with reads|]. intros r.
    destruct (negb (Z.land (flags r) F_FULL_MAPPED =? 0)); [auto with reads|]. destruct (Z.land (flags r) F_HAS_PHYS =? 0); [auto with reads|].
    apply reads_all_committed.
Qed.
End Committed.
