(* ===== verification/UregionKernel.v ===== *)
(** * UregionKernel: a kernel that keeps the laws

    An instance of [Kernel] on the observations themselves, which shows that
    the laws of [KernelLaws] can hold together: kmalloc hands out the first of
    the free blocks, raw_kmalloc the first page address that is not in use,
    the MMU a map of pages.  Bytes are not kept. *)

From Stdlib Require Import ZArith Lia.
From stdpp Require Import base gmap list.
From iris.proofmode Require Import proofmode.
From S2P Require Import Prelude KMath MmuDc VmContainers HeapLogic Rbtree RbtreeTree Uregion UregionSpec UregionBlocks.

Open Scope Z_scope.

#[export] Instance node_ptr_dec p : Decision (node_ptr p).
Proof. unfold node_ptr, word_ptr, u_range. apply _. Defined.

(** ** Frames *)

Definition held_frames (g : gmap Z Z) : Z := map_fold (fun _ n s => n + s) 0 g.

(** Physical memory is 2^47 bytes. *)
Definition frames_ok (e : kobs) : Prop :=
  0 <= frames e /\ map_Forall (fun pa n => 0 <= pa < 2 ^ 47 /\ 0 < n) (pblocks e) /\ held_frames (pblocks e) + frames e <= 2 ^ 35.

#[export] Instance frames_ok_dec e : Decision (frames_ok e).
Proof. unfold frames_ok. apply _. Defined.

Lemma held_insert g pa n : g !! pa = None -> held_frames (<[pa := n]> g) = n + held_frames g.
Proof. intros H. apply map_fold_insert_L; [lia|done]. Qed.

Lemma held_delete g pa n : g !! pa = Some n -> held_frames g = n + held_frames (delete pa g).
Proof. intros H. rewrite -{1}(insert_delete_id g pa n) //. apply held_insert, lookup_delete_eq. Qed.

Lemma size_held g : map_Forall (fun pa n => 0 <= pa < 2 ^ 47 /\ 0 < n) g -> Z.of_nat (size g) <= held_frames g.
Proof.
  induction g as [|pa n g Hn IH] using map_ind; intros Hg; [done|]. apply map_Forall_insert in Hg as [[_ Hpos] Hg]; [|done].
  rewrite map_size_insert_None // held_insert //. specialize (IH Hg). lia.
Qed.

(** The first page whose address is not in use. *)
Definition free_page (g : gmap Z Z) : Z :=
  default 0 (head (filter (fun j => g !! (j * PAGE_SIZE) = None) (seqZ 0 (Z.of_nat (size g) + 1)))).

Lemma free_page_ok g : g !! (free_page g * PAGE_SIZE) = None /\ 0 <= free_page g <= Z.of_nat (size g).
Proof.
  unfold free_page. destruct (filter _ _) as [|j l] eqn:Hf.
  - exfalso. assert (forall j, j ∈ seqZ 0 (Z.of_nat (size g) + 1) -> j * PAGE_SIZE ∈ dom g) as Hall.
    { intros j Hj. apply elem_of_dom. destruct (g !! (j * PAGE_SIZE)) as [n|] eqn:Hl; [by exists n|]. exfalso.
      assert (j ∈ filter (fun j => g !! (j * PAGE_SIZE) = None) (seqZ 0 (Z.of_nat (size g) + 1))) as H by (by apply list_elem_of_filter).
      rewrite Hf in H. by apply elem_of_nil in H. }
    assert (list_to_set ((fun j => j * PAGE_SIZE) <$> seqZ 0 (Z.of_nat (size g) + 1)) ⊆ dom g) as Hsub.
    { intros a (j & -> & Hj)%elem_of_list_to_set%list_elem_of_fmap. by apply Hall. }
    apply subseteq_size in Hsub. rewrite size_list_to_set in Hsub; [|apply NoDup_fmap_2_strong; [|apply NoDup_seqZ]; intros x y _ _; unfold PAGE_SIZE; lia].
    rewrite length_fmap length_seqZ size_dom in Hsub. lia.
  - assert (j ∈ filter (fun j => g !! (j * PAGE_SIZE) = None) (seqZ 0 (Z.of_nat (size g) + 1))) as H by (rewrite Hf; by left).
    apply list_elem_of_filter in H as [H1 H2%elem_of_seqZ]. cbn. split; [done|lia].
Qed.

(** ** The instance *)

#[export] Instance toy_kernel : Kernel kobs := {
  kmalloc _ e := match elements (filter node_ptr (chunks e)) with
                 | p :: _ => Ok (p, with_chunks (chunks e ∖ {[p]}) e)
                 | [] => Err EPanic
                 end;
  kfree p e := Ok (tt, with_chunks ({[p]} ∪ chunks e) e);
  raw_kmalloc n _ e := if bool_decide (0 < n <= frames e) then
                         let pa := free_page (pblocks e) * PAGE_SIZE in Ok (pa, take_block pa n (frames e - n) e)
                       else Err EPanic;
  raw_kfree kva e := match pblocks e !! kva_to_kpa kva with
                     | Some n => Ok (tt, give_block (kva_to_kpa kva) (frames e + n) e)
                     | None => Err EFault
                     end;
  k_mmu_map va pa bytes cfg e := Ok (MMU_MAP_OK, with_upages (page_map va pa (Z.to_nat (bytes / PAGE_SIZE)) cfg ∪ upages e) e);
  k_mmu_unmap va bytes e := Ok (MMU_UNMAP_OK, with_upages (filter (fun x => ~ (va <= x.1 < va + bytes)) (upages e)) e);
  k_memcpy _ _ _ := ret tt;
  k_memzero _ _ := ret tt;
  get_byte _ := ret 0;
  put_byte _ _ := ret tt;
  cache_flush_range _ _ := ret tt
}.

(** Outside of [frames_ok] no frame is offered. *)
Definition toy_obs (e : kobs) : kobs :=
  let ok := bool_decide (frames_ok e) in
  MkObs (filter node_ptr (chunks e)) (if ok then frames e else 0) (if ok then pblocks e else ∅) (upages e).

Lemma toy_obs_same e e' : frames e' = frames e -> pblocks e' = pblocks e ->
  toy_obs e' = MkObs (filter node_ptr (chunks e')) (frames (toy_obs e)) (pblocks (toy_obs e)) (upages e').
Proof.
  intros Hf Hp. assert (bool_decide (frames_ok e') = bool_decide (frames_ok e)) as Hb by (apply bool_decide_ext; unfold frames_ok; by rewrite Hf Hp).
  unfold toy_obs. by rewrite Hb Hf Hp.
Qed.

Lemma take_ok e n : frames_ok e -> 0 < n <= frames e -> frames_ok (take_block (free_page (pblocks e) * PAGE_SIZE) n (frames e - n) e).
Proof.
  intros (H0 & Hb & Hs) Hn. destruct (free_page_ok (pblocks e)) as [Hf Hr]. pose proof (size_held _ Hb). split; [cbn; lia|]. split; cbn.
  - apply map_Forall_insert_2; [|done]. unfold PAGE_SIZE. lia.
  - rewrite held_insert //. lia.
Qed.

Lemma give_ok e pa n : frames_ok e -> pblocks e !! pa = Some n -> frames_ok (give_block pa (frames e + n) e).
Proof.
  intros (H0 & Hb & Hs) Hl. destruct (Hb _ _ Hl) as [_ Hn]. split; [cbn; lia|]. split; cbn.
  - by apply map_Forall_delete.
  - rewrite (held_delete _ _ _ Hl) in Hs. lia.
Qed.

#[export] Instance toy_laws : KernelLaws kobs.
Proof.
  refine {| obs := toy_obs |}.
  - intros e p Hp. by apply elem_of_filter in Hp as [Hp _].
  - intros e bytes Hne. cbn. destruct (elements (filter node_ptr (chunks e))) as [|p l] eqn:He.
    { exfalso. apply Hne. apply leibniz_equiv. cbn. by apply elements_empty_iff. }
    exists p, (with_chunks (chunks e ∖ {[p]}) e). assert (p ∈ filter node_ptr (chunks e)) as Hp by (apply elem_of_elements; rewrite He; by left).
    split; [done|]. split; [done|]. rewrite (toy_obs_same e) //. unfold with_chunks. cbn. f_equal. apply leibniz_equiv. set_solver.
  - intros e p Hp Hn. eexists. split; [done|]. rewrite (toy_obs_same e) //. unfold with_chunks. cbn. f_equal. apply leibniz_equiv. set_solver.
  - intros e n zeroed (o & Ho & ->). assert (0 < 2 ^ o) as Hpos by (apply Z.pow_pos_nonneg; lia). set (n := 2 ^ o) in *. cbn.
    destruct (decide (frames_ok e)) as [Hok|Hno]; [rewrite bool_decide_true //|rewrite bool_decide_false //; lia].
    intros Hn. rewrite bool_decide_true //. do 3 eexists. split; [done|]. split; [apply Z.mod_mul; done|].
    destruct (free_page_ok (pblocks e)) as [Hfp Hr]. pose proof Hok as (_ & Hb & Hs). pose proof (size_held _ Hb).
    split; [unfold PAGE_SIZE; lia|]. split; [unfold PAGE_SIZE; lia|]. split; [done|].
    split; [apply Z.le_refl|]. unfold toy_obs. rewrite !bool_decide_true //. by apply take_ok.
  - intros e pa n. cbn. destruct (decide (frames_ok e)) as [Hok|Hno]; [rewrite bool_decide_true //|by rewrite bool_decide_false].
    intros Hl. pose proof Hok as (_ & Hb & _). destruct (Hb _ _ Hl) as [Hpa _]. destruct (kva_roundtrip pa Hpa) as [-> _]. rewrite Hl.
    exists (frames e + n). eexists. split; [done|]. destruct (Hb _ _ Hl) as [_ Hn]. split; [lia|]. unfold toy_obs. rewrite !bool_decide_true //. by apply give_ok.
  - intros e va pa n cfg _ _ _ _. eexists. split; [done|]. rewrite (toy_obs_same e) //. unfold with_upages. cbn. by rewrite Z.div_mul // Nat2Z.id.
  - intros e va n _ _ _. eexists. split; [done|]. by rewrite (toy_obs_same e).
Defined.
