(* ===== verification/UregionCorrect.v ===== *)
(** * UregionCorrect: the regions of a task refine a list of regions

    The operations of uregion.c from a state that holds a task ([task_in]):
    its regions in the order of their addresses, each with its physical
    blocks and its committed pages, coherent with the user's address space. *)

From Stdlib Require Import ZArith Lia Sorted.
From stdpp Require Import base gmap list.
From iris.proofmode Require Import proofmode.
From S2P Require Import Prelude KMath MmuDc VmContainers VmContainersSpec HeapLogic Rbtree RbtreeTree RbtreeRep RbtreeInsert RbtreeTraverse RbtreeKeys Uregion UregionSpec UregionBlocks UregionCommit UregionTask UregionFree UregionQueries UregionKernel.

Open Scope Z_scope.

Section Theorems.
Context {E : Type} `{!Kernel E} `{!KernelLaws E}.
Implicit Types (regions : header udata) (u : ustate) (us : ulist) (s : mst (cell udata) E).

Definition task_in regions us s : Prop :=
  haddr regions <> 0 /\ task_ok us (obs (ext s)) /\ fresh (ext s) (dom (mem s)) /\ holds (task regions us) (mem s).

(** From a rule of the logic to a run of the code. *)
Lemma task_run {A} regions us s (c : M (mst (cell udata) E) A) (Φ : A -> E -> prop) (Q : A -> mst (cell udata) E -> Prop) :
  task_in regions us s -> (task regions us ⊢ uwp fresh c (ext s) Φ) ->
  (forall a s', fresh (ext s') (dom (mem s')) -> holds (Φ a (ext s')) (mem s') -> Q a s') -> wp c Q s.
Proof.
  intros (Ht & Hok & Hf & Hm) H HQ. destruct s as [m e]. eapply wp_mono; [exact (uwp_sound fresh c e Φ _ m H Hm Hf)|].
  intros a s' [Hf' Hp]. by apply HQ.
Qed.

(** C27: uregion_reserve adds the region to the task at its place, with no page
    committed, and returns OK; or it overlaps a region of the task, the
    result is OVERLAPS and the task and the memory below are as before.  It
    always ends, and what it keeps is a coherent task. *)
Theorem uregion_reserve_ok regions us va pgs rd wr ex s :
  task_in regions us s -> region_ok (new_region va pgs rd wr ex) -> chunks (obs (ext s)) <> ∅ ->
  wp (uregion_reserve regions va pgs rd wr ex) (fun res s' =>
    (res = UREGION_OK /\ exists us1 us2 p, us = us1 ++ us2 /\
       task_in regions (us1 ++ (p, new_ustate (new_region va pgs rd wr ex)) :: us2) s' /\
       frames (obs (ext s')) = frames (obs (ext s)) /\ upages (obs (ext s')) = upages (obs (ext s))) \/
    (res = UREGION_OVERLAPS /\ (exists x, x ∈ us /\ overlaps (new_region va pgs rd wr ex) (u_region x.2)) /\
       task_in regions us s' /\ obs (ext s') = obs (ext s))) s.
Proof.
  intros Ht Hr Hc. pose proof Ht as (H0 & Hok & _).
  apply (task_run regions us s _ _ _ Ht (uregion_reserve_task regions us va pgs rd wr ex (ext s) H0 Hok Hr Hc)).
  intros res s' Hf [Hp|Hp].
  - apply holds_pure_sep in Hp as [-> (us1 & us2 & p & Hp)]. apply holds_pure_sep in Hp as [(-> & Hch & Eo & Hok') Hp]. left. split; [done|].
    exists us1, us2, p. split; [done|]. split; [done|]. by rewrite Eo.
  - apply holds_pure_sep in Hp as [(-> & Hx & Eo) Hp]. right. split; [done|]. split; [done|]. split; [|done]. split; [done|]. by rewrite Eo.
Qed.

(** C25: uregion_commit of fewer than 512 pages of a readable region, none of
    them committed, with frames and nodes enough ([committable]), maps them
    with blocks of powers of two of pages that were not in use and cover
    exactly the range: it ends, sets exactly their bits and the flags that go
    with the bits, and leaves all other blocks, regions and pages as they
    were; the task stays coherent.  In a region that is not readable there is
    no page configuration and the commit panics. *)
Theorem uregion_commit_ok regions us1 p u us2 lo pgs zeroed cfg s :
  task_in regions (us1 ++ (p, u) :: us2) s -> committable u lo pgs cfg (obs (ext s)) ->
  wp (uregion_commit regions lo pgs zeroed) (fun _ s' =>
    exists u', task_in regions (us1 ++ (p, u') :: us2) s' /\ commits u lo pgs (obs (ext s)) u' (obs (ext s'))) s.
Proof.
  intros Ht Hcm. pose proof Ht as (H0 & Hok & _).
  apply (task_run regions _ s _ _ _ Ht (uregion_commit_spec regions us1 p u us2 lo pgs zeroed cfg (ext s) Hok Hcm)).
  intros [] s' Hf (u' & Hp). apply holds_pure_sep in Hp as [(Hok' & Hcs) Hp]. by exists u'.
Qed.

(** C26: uregion_free of a whole region of at most 64 pages, or of a larger one
    that was committed once ([destroyable]; otherwise NULL is freed, see
    [uregion_free_uncommitted_faults]), gives back exactly its blocks of
    frames, unmaps its pages, frees its nodes and its bitfield and removes it
    from the task; nothing else changes. *)
Theorem uregion_free_ok regions us1 p u us2 s :
  task_in regions (us1 ++ (p, u) :: us2) s -> destroyable (u_region u) ->
  wp (uregion_free regions (usr_start (u_region u)) (pages (u_region u))) (fun res s' =>
    res = true /\ task_in regions (us1 ++ us2) s' /\ releases p u (obs (ext s)) (obs (ext s'))) s.
Proof.
  intros Ht Hd. pose proof Ht as (H0 & Hok & _).
  apply (task_run regions _ s _ _ _ Ht (uregion_free_spec regions us1 p u us2 (ext s) H0 Hok Hd)).
  intros res s' Hf Hp. by apply holds_pure_sep in Hp as [(-> & Hok' & Hrl) Hp].
Qed.

(** Reserve a range, commit all of it, free it. *)
Definition region_session (regions va pgs : Z) (rd wr ex zeroed : bool) : M (mst (cell udata) E) (Z * bool) :=
  let* r := uregion_reserve regions va pgs rd wr ex in
  uregion_commit regions va pgs zeroed ;;
  let* f := uregion_free regions va pgs in
  ret (r, f).

Lemma new_committable va pgs rd wr ex cfg o :
  let r := new_region va pgs rd wr ex in
  region_ok r -> usr_mmu_cfg_from_flags (flags r) = Some cfg -> pgs < 512 -> pgs <= frames o -> Z.log2 pgs + 2 <= Z.of_nat (size (chunks o)) ->
  committable (new_ustate r) va pgs cfg o.
Proof.
  intros r Hr Hc H512 Hf Hs. pose proof Hr as [(Hal & _ & Hp & _) _]. split; [|done| |done|done|done].
  - split; [done|]. split; [cbn; lia|]. split; [done|]. unfold rend. cbn. lia.
  - intros a Ha. apply bit_no_words, first_page_range. exact Ha.
Qed.

(** Nothing is mapped where the task has no region. *)
Lemma free_unmapped us o r a :
  task_ok us o -> (forall x, x ∈ us -> ~ overlaps r (u_region x.2)) -> contains r a -> upages o !! a = None.
Proof.
  intros Hok Hov Ha. destruct (upages o !! a) eqn:Hl; [|done]. exfalso. destruct (to_only _ _ Hok a ltac:(eauto)) as (x & Hx & Hc).
  apply (Hov x Hx). unfold meets, apart, contains in *. lia.
Qed.

Lemma session_spec regions us va pgs rd wr ex zeroed cfg (e : E) :
  let r := new_region va pgs rd wr ex in
  haddr regions <> 0 -> task_ok us (obs e) -> region_ok r -> usr_mmu_cfg_from_flags (flags r) = Some cfg ->
  (forall x, x ∈ us -> ~ overlaps r (u_region x.2)) ->
  pgs < 512 -> pgs <= frames (obs e) -> Z.log2 pgs + 3 <= Z.of_nat (size (chunks (obs e))) ->
  task regions us ⊢ uwp fresh (region_session regions va pgs rd wr ex zeroed) e (fun a e' =>
    ⌜a = (UREGION_OK, true) /\ task_ok us (obs e') /\ (forall x, pblocks (obs e') !! x = pblocks (obs e) !! x) /\
       forall x, upages (obs e') !! x = upages (obs e) !! x⌝ ∗ task regions us)%I.
Proof.
  intros r H0 Hok Hr Hc Hov H512 Hf Hs. pose proof (Z.log2_nonneg pgs). iIntros "H". unfold region_session. iApply uwp_bind.
  iApply (uwp_wand with "[H]"); [iApply (uregion_reserve_task with "H"); [done|done|exact Hr|intros H1; rewrite H1 size_empty in Hs; lia]|].
  iIntros (res e1) "[(-> & %us1 & %us2 & %p & (-> & %Hp & %Eo & %Hok1) & H)|((_ & (%x & %Hx & %Hbad) & _) & _)]"; [|by destruct (Hov x Hx)].
  assert (committable (new_ustate r) va pgs cfg (obs e1)) as Hcm.
  { apply new_committable; [done|done|done|rewrite Eo; cbn; lia|]. rewrite Eo. cbn. rewrite size_difference; [|set_solver]. rewrite size_singleton. lia. }
  iApply uwp_bind. iApply (uwp_wand with "[H]"); [by iApply (uregion_commit_spec with "H")|]. iIntros ([] e2) "(%u' & (%Hok2 & %Hcs) & H)".
  pose proof Hcs as [Hs' Hp' Hfl _ (new & Hnew & _ & _ & Htk & _) _ Hoth _]. cbn [u_blocks new_ustate] in Hnew. rewrite app_nil_r in Hnew. cbn in Hs', Hp', Hfl. 
  assert (destroyable (u_region u')) as Hd by (right; unfold has_phys; by rewrite Hfl flags_after_phys).
  pose proof (uregion_free_spec regions us1 p u' us2 e2 H0 Hok2 Hd) as Hfree. rewrite Hs' Hp' in Hfree.
  iApply uwp_bind. iApply (uwp_wand with "[H]"); [by iApply Hfree|].
  iIntros (b e3) "((-> & %Hok3 & %Hrl) & H)". iApply uwp_ret. iFrame. iPureIntro. split; [done|]. split; [done|]. split.
  - intros a. destruct (decide (a ∈ addresses (u_blocks u'))) as [Ha|Ha].
    + pose proof Ha as ([q b] & -> & Hq)%list_elem_of_fmap. rewrite (rl_blocks _ _ _ _ Hrl); [|by exists q]. rewrite Hnew in Hq.
      destruct (t_new _ _ _ Htk q b Hq) as [Hn _]. by rewrite Eo in Hn.
    + rewrite (rl_blocks_other _ _ _ _ Hrl) //. rewrite (t_other _ _ _ Htk); [by rewrite Eo|]. by rewrite -Hnew.
  - intros a. assert (contains (u_region u') a <-> contains r a) as Hct by (unfold contains, rend; by rewrite Hs' Hp').
    destruct (decide (usr_start r <= a < rend r)) as [Ha|Ha].
    + rewrite (rl_pages _ _ _ _ Hrl); [|by apply Hct]. symmetry. by apply (free_unmapped (us1 ++ us2) _ r).
    + rewrite (rl_other _ _ _ _ Hrl); [|by rewrite Hct]. rewrite Hoth; [by rewrite Eo|exact Ha].
Qed.

(** C28: reserving a free range of fewer than 512 pages that is readable,
    committing all its pages and freeing it, with frames and nodes enough,
    succeeds and gives the task its old regions: the blocks of frames in use
    and the mappings are exactly as before. *)
Theorem uregion_roundtrip regions us va pgs rd wr ex zeroed cfg s :
  task_in regions us s -> region_ok (new_region va pgs rd wr ex) ->
  usr_mmu_cfg_from_flags (node_flags rd wr ex false) = Some cfg ->
  (forall x, x ∈ us -> ~ overlaps (new_region va pgs rd wr ex) (u_region x.2)) ->
  pgs < 512 -> pgs <= frames (obs (ext s)) -> Z.log2 pgs + 3 <= Z.of_nat (size (chunks (obs (ext s)))) ->
  wp (region_session regions va pgs rd wr ex zeroed) (fun a s' =>
    a = (UREGION_OK, true) /\ task_in regions us s' /\ (forall x, pblocks (obs (ext s')) !! x = pblocks (obs (ext s)) !! x) /\
    forall x, upages (obs (ext s')) !! x = upages (obs (ext s)) !! x) s.
Proof.
  intros Ht Hr Hc Hov H512 Hf Hs. pose proof Ht as (H0 & Hok & _).
  apply (task_run regions us s _ _ _ Ht (session_spec regions us va pgs rd wr ex zeroed cfg (ext s) H0 Hok Hr Hc Hov H512 Hf Hs)).
  intros a s' Hf' Hp. by apply holds_pure_sep in Hp as [(-> & Hok' & Hfr & Hup) Hp].
Qed.

(** uregion_is_reserved answers with the region that contains the whole
    range, and with none when the range is empty or in no one region; it
    changes nothing. *)
Theorem uregion_is_reserved_ok regions us start size s :
  task_in regions us s -> 0 <= start -> 0 <= size -> start + size < 2 ^ 64 ->
  exists o, uregion_is_reserved regions start size s = Ok (o, s) /\
    forall node, o = Some node <-> 0 < size /\ exists u, (node, u) ∈ us /\ covered (u_region u) start size.
Proof.
  intros (_ & Hok & _ & Hm) Hst Hsz He. assert (holds (whole regions (nodes_of (regs us))) (mem s)) as Hw.
  { destruct Hm as (m1 & m2 & -> & _ & H & _). eapply holds_mono; [exact H|]. apply map_union_subseteq_l. }
  destruct (uregion_is_reserved_spec regions (regs us) start size s (to_regions _ _ Hok) Hw Hsz He Hst) as (o & Ho & Hiff).
  exists o. split; [done|]. intros node. rewrite Hiff. split.
  - intros (Hp & r & (u & -> & Hu)%elem_of_regs & Hc). split; [done|]. by exists u.
  - intros (Hp & u & Hu & Hc). split; [done|]. exists (u_region u). split; [apply elem_of_regs; by exists u|done].
Qed.

(** C36: uregion_find_free answers with the highest page-aligned address below
    the end of the user's half from which the pages are outside of every
    region, and with none only when there is no such address; it changes
    nothing. *)
Theorem uregion_find_free_ok regions us pgs s :
  task_in regions us s -> 0 < pgs < 2 ^ 32 ->
  exists o, uregion_find_free regions pgs s = Ok (o, s) /\
    match o with
    | Some x => page_aligned x /\ 0 <= x /\ highest_free (regs us) USR_ADDRSPACE_END (pgs * PAGE_SIZE) x
    | None => forall y, 0 <= y -> y + pgs * PAGE_SIZE <= USR_ADDRSPACE_END -> ~ range_free (regs us) y (pgs * PAGE_SIZE)
    end.
Proof.
  intros (_ & Hok & _ & Hm) Hp. assert (holds (whole regions (nodes_of (regs us))) (mem s)) as Hw.
  { destruct Hm as (m1 & m2 & -> & _ & H & _). eapply holds_mono; [exact H|]. apply map_union_subseteq_l. }
  destruct (uregion_find_free_spec regions (regs us) pgs s (to_regions _ _ Hok) Hw ltac:(lia)) as (o & Ho & H).
  exists o. split; [done|]. destruct o; [done|]. destruct H; [lia|done].
Qed.

Lemma is_committed_run regions us1 p u us2 start size s :
  task_in regions (us1 ++ (p, u) :: us2) s -> 0 < size -> covered (u_region u) start size ->
  uregion_is_committed regions start size s = Ok (looked_at u start size, s).
Proof.
  intros Ht Hsz Hc. pose proof Ht as (_ & Hok & _).
  assert (wp (uregion_is_committed regions start size) (fun b _ => b = looked_at u start size) s) as H.
  { apply (task_run regions _ s _ _ _ Ht (uregion_is_committed_spec regions us1 p u us2 start size (ext s) Hok Hsz Hc)). by intros b s' _ Hp. }
  destruct (wp_returns _ _ _ H) as (b & s' & Hr & ->). by rewrite Hr (reads_is_committed _ _ _ _ _ _ Hr).
Qed.

Lemma looked_at_true u start size :
  looked_at u start size = true <->
    forall i, first_page (u_region u) start <= i < first_page (u_region u) start + pages_of size -> bit (u_words u) i = true.
Proof.
  unfold looked_at. rewrite forallb_forall. split; intros H i Hi; [apply H|apply H, elem_of_seqZ]; apply list_elem_of_In; [by apply elem_of_seqZ|done].
Qed.

Lemma committed_aligned regions us1 p u us2 start size s :
  task_in regions (us1 ++ (p, u) :: us2) s -> page_aligned start -> 0 < size -> covered (u_region u) start size ->
  exists b, uregion_is_committed regions start size s = Ok (b, s) /\
    (b = true <-> forall a, start <= a < start + size -> bit (u_words u) (first_page (u_region u) a) = true).
Proof.
  intros Ht Hal Hsz Hc. exists (looked_at u start size). split; [by eapply is_committed_run|]. rewrite looked_at_true.
  destruct Ht as (_ & Hok & _). assert (region_ok (u_region u)) as [(Hr & _) _].
  { apply (co_region u (obs (ext s))), (to_coherent _ _ Hok (p, u)). rewrite elem_of_app elem_of_cons. tauto. }
  destruct Hc as [Hs He]. unfold pages_of. pose proof (Z.div_mod (size + (PAGE_SIZE - 1)) PAGE_SIZE). pose proof (Z.mod_pos_bound (size + (PAGE_SIZE - 1)) PAGE_SIZE).
  split; intros H1 x Hx.
  - apply H1. apply (first_page_in (u_region u)); [done|done|done|]. unfold PAGE_SIZE in *. lia.
  - set (a := start + (x - first_page (u_region u) start) * PAGE_SIZE). assert (first_page (u_region u) a = x) as Ha.
    { unfold a, first_page. replace (start + (x - (start - usr_start (u_region u)) / PAGE_SIZE) * PAGE_SIZE - usr_start (u_region u)) with
        ((start - usr_start (u_region u)) + (x - (start - usr_start (u_region u)) / PAGE_SIZE) * PAGE_SIZE) by lia. rewrite Z.div_add //. lia. }
    rewrite -Ha. apply H1. unfold a, PAGE_SIZE in *. lia.
Qed.

(** Uregion_is_committed of a range that starts at a page says whether all
    of its pages are committed, and changes nothing. *)
Theorem uregion_is_committed_ok regions us1 p u us2 start size s :
  task_in regions (us1 ++ (p, u) :: us2) s -> page_aligned start -> 0 < size -> covered (u_region u) start size ->
  exists b, uregion_is_committed regions start size s = Ok (b, s) /\
    (b = true <-> forall a, start <= a < start + size -> bit (u_words u) (first_page (u_region u) a) = true).
Proof. apply committed_aligned. Qed.

(** For a range that does not start at a page and reaches one page more
    than its size needs, uregion_is_committed does not look at the last page:
    it answers true although the last byte of the range is not committed. *)
Theorem uregion_is_committed_misses_last_page regions us1 p u us2 start size s :
  task_in regions (us1 ++ (p, u) :: us2) s -> 0 < size -> covered (u_region u) start size ->
  first_page (u_region u) (start + size - 1) = first_page (u_region u) start + pages_of size ->
  bit (u_words u) (first_page (u_region u) (start + size - 1)) = false ->
  (forall a, start <= a < start + size -> first_page (u_region u) a < first_page (u_region u) (start + size - 1) ->
     bit (u_words u) (first_page (u_region u) a) = true) ->
  uregion_is_committed regions start size s = Ok (true, s) /\ upages (obs (ext s)) !! (start + size - 1) = None.
Proof.
  intros Ht Hsz Hc Hlast Hbit Hall. rewrite (is_committed_run _ us1 p u us2) //. destruct Ht as (_ & Hok & _).
  assert (coherent u (obs (ext s))) as Hu by (apply (to_coherent _ _ Hok (p, u)); rewrite elem_of_app elem_of_cons; tauto).
  destruct Hc as [Hs He]. split.
  - assert (looked_at u start size = true) as ->; [|done]. apply looked_at_true. intros i Hi.
    set (a := Z.max start (usr_start (u_region u) + i * PAGE_SIZE)).
    assert (first_page (u_region u) a = i /\ start <= a < start + size) as [Ha Hin].
    { unfold a, first_page, PAGE_SIZE in *. pose proof (Z.div_mod (start - usr_start (u_region u)) 4096). pose proof (Z.mod_pos_bound (start - usr_start (u_region u)) 4096).
      pose proof (Z.div_mod (start + size - 1 - usr_start (u_region u)) 4096). pose proof (Z.mod_pos_bound (start + size - 1 - usr_start (u_region u)) 4096).
      split; [|lia]. symmetry. apply (Z.div_unique_pos _ 4096 i (Z.max start (usr_start (u_region u) + i * 4096) - usr_start (u_region u) - 4096 * i)); lia. }
    rewrite -Ha. apply Hall; [done|lia].
  - apply (co_unmapped _ _ Hu); [unfold contains; lia|done].
Qed.

Lemma uncommitted_no_blocks u o : coherent u o -> u_words u = no_words (u_region u) -> u_blocks u = [].
Proof.
  intros Hu Hw. destruct (u_blocks u) as [|[q b] l] eqn:Hl; [done|]. exfalso.
  assert (held (u_blocks u) b) as Hb by (exists q; rewrite Hl; by left). pose proof (co_in _ _ Hu b Hb) as [H1 H2].
  assert (user_address b < pend b) as Hlt.
  { destruct Hb as [q' Hq]. pose proof (blocks_elem _ _ _ (co_blocks _ _ Hu) Hq) as (_ & ? & _)%phys_end_ok. lia. }
  assert (contains (u_region u) (user_address b)) as Hc by (unfold contains; lia).
  assert (bit (u_words u) (first_page (u_region u) (user_address b)) = true) as Ht by (apply (co_bits _ _ Hu); [done|]; exists b; split; [done|]; unfold within; lia).
  rewrite Hw bit_no_words in Ht; [done|]. by apply first_page_range.
Qed.

(** What a region that was never committed looks like. *)
Lemma uncommitted_cell regions us1 p u us2 s :
  task_in regions (us1 ++ (p, u) :: us2) s -> has_phys (u_region u) = false ->
  node_ptr p /\ committed (u_region u) = 0 /\ physical_data (u_region u) = 0 /\
  exists n, mem s !! p = Some (Node n) /\ data n = URegion (u_region u).
Proof.
  intros (_ & Hok & _ & Hm) Hph. assert (coherent u (obs (ext s))) as Hu by (apply (to_coherent _ _ Hok (p, u)); rewrite elem_of_app elem_of_cons; tauto).
  assert (holds (whole regions (nodes_of (regs (us1 ++ (p, u) :: us2)))) (mem s)) as Hw.
  { destruct Hm as (m1 & m2 & -> & _ & H & _). eapply holds_mono; [exact H|]. apply map_union_subseteq_l. }
  destruct (region_cell regions _ p (u_region u) (mem s) Hw) as (Hp & n & Hl & Hn).
  { apply elem_of_regs. exists u. split; [done|]. rewrite elem_of_app elem_of_cons. tauto. }
  assert (task regions (us1 ++ (p, u) :: us2) ⊢ ⌜committed (u_region u) = 0 /\ physical_data (u_region u) = 0⌝) as [H].
  { unfold task. rewrite big_sepL_app. iIntros "(_ & _ & Hu & _)". destruct u as [r pds ws]. cbn [snd contents]. cbn in Hph.
    iDestruct "Hu" as "[(%t & (_ & %He & %Hr) & _) Hw]". unfold words_rep. unfold has_phys in Hph. apply negb_false_iff in Hph. rewrite Hph.
    iDestruct "Hw" as %[Hc Hws]. iPureIntro. split; [done|]. pose proof (uncommitted_no_blocks _ _ Hu Hws) as Hb. cbn in Hb. subst pds.
    cbn. rewrite -Hr. destruct t as [|? l]; [done|]. cbn in He. by destruct (elems l). }
  destruct (H _ Hm) as [Hc Hr]. split; [done|]. split; [done|]. split; [done|]. by exists n.
Qed.

(** uregion_free of a region of more than 64 pages that was never
    committed frees the null pointer as its bitfield. *)
Theorem uregion_free_uncommitted_faults regions us1 p u us2 s :
  task_in regions (us1 ++ (p, u) :: us2) s -> 64 < pages (u_region u) -> has_phys (u_region u) = false -> mem s !! 0 = None ->
  uregion_free regions (usr_start (u_region u)) (pages (u_region u)) s = Err EFault.
Proof.
  intros Ht Hp Hph H0. destruct (uncommitted_cell regions us1 p u us2 s Ht Hph) as ([Hp0 _] & Hc & Hr & n & Hl & Hn).
  destruct Ht as (_ & Hok & _ & Hm). assert (region_ok (u_region u)) as Hr0.
  { apply (co_region u (obs (ext s))), (to_coherent _ _ Hok (p, u)). rewrite elem_of_app elem_of_cons. tauto. }
  assert (region_find_usrva regions (usr_start (u_region u)) s = Ok (p, s)) as Hf.
  { pose proof (region_end_ok _ Hr0) as (_ & Hlt & _). apply (region_find_hit _ us1 p u us2); [apply Hok|unfold contains; lia|].
    destruct Hm as (m1 & m2 & -> & _ & Hw & _). eapply holds_mono; [exact Hw|]. apply map_union_subseteq_l. }
  assert (get_region p s = Ok (u_region u, s)) as Hg.
  { apply on_mem_reads. unfold get_node, load, bind, gets, deref. rewrite Hl. cbn. by rewrite Hn. }
  unfold uregion_free. unfold bind at 1. rewrite Hf. destruct (Z.eqb_spec p 0); [done|]. unfold bind at 1. rewrite Hg.
  change (wrap64 (usr_start (u_region u) + wrap64 (pages (u_region u) * PAGE_SIZE))) with (region_end (u_region u)).
  rewrite Z.ltb_irrefl !Z.eqb_refl. cbn [andb]. unfold region_destroy, rbt_destroy. destruct (Z.eqb_spec p 0); [done|]. unfold bind at 1 2 3.
  assert (on_mem (get_root p) s = Ok (0, s)) as ->.
  { apply on_mem_reads. unfold get_root, load, bind, gets, deref. rewrite Hl. cbn. by rewrite Hn Hr. }
  cbn [Z.eqb ret]. unfold bind at 1. rewrite Hg. destruct (Z.ltb_spec 64 (pages (u_region u))); [|lia].
  unfold bind at 1, free_cell, bind at 1, on_mem, drop_cell, bind at 1, load, bind at 1, gets. by rewrite Hc H0.
Qed.

(** A round with nothing left of the size goes nowhere. *)
Lemma flush_stuck regions us1 p u us2 q b cursor end_ size : forall fuel s,
  (forall x y e, exists e', cache_flush_range x y e = Ok (tt, e')) ->
  regions_ok (regs (us1 ++ (p, u) :: us2)) -> blocks_ok (u_blocks u) -> contains (u_region u) cursor -> (q, b) ∈ u_blocks u -> within b cursor ->
  is_u64 size -> cursor < end_ -> holds (task regions (us1 ++ (p, u) :: us2)) (mem s) ->
  flush_loop fuel regions cursor end_ size size s = Err EFuel.
Proof.
  induction fuel as [|fuel IH]; intros s Hfl Hreg Hok Hc Hq Hw Hsz He Hm; [done|]. cbn [flush_loop].
  destruct (Z.leb_spec end_ cursor); [lia|]. unfold bind at 1. rewrite (usr_block_run regions us1 p u us2 q b cursor s) //.
  pose proof (blocks_elem _ _ _ Hok Hq) as Hb. apply phys_end_ok in Hb as (_ & Hb1 & Hb2). unfold within in Hw.
  rewrite Z.sub_diag. change (wrap64 0) with 0. rewrite Z.min_r; [|lia]. rewrite !Z.add_0_r.
  assert (wrap64 cursor = cursor) as -> by (apply wrap_small; unfold u_range; lia). assert (wrap64 size = size) as -> by (by apply wrap_small).
  unfold bind at 1, on_ext. destruct (Hfl (kpa_to_kva (wrap64 (physical_address b + (cursor - user_address b))))
    (wrap64 (kpa_to_kva (wrap64 (physical_address b + (cursor - user_address b))))) (ext s)) as (e' & ->).
  by apply (IH (MkSt (mem s) e')).
Qed.

(** Uregion_flush_icache rounds its range to whole pages but counts the
    bytes of the size only: for a size that is not a multiple of the page, in
    one physical block, no number of rounds is enough, since the last ones
    advance by zero bytes. *)
Theorem uregion_flush_icache_hangs regions us1 p u us2 q b start size fuel s :
  (forall x y e, exists e', cache_flush_range x y e = Ok (tt, e')) ->
  task_in regions (us1 ++ (p, u) :: us2) s -> (q, b) ∈ u_blocks u ->
  page_aligned start -> 0 < size -> ~ page_aligned size -> user_address b <= start -> start + size <= pend b ->
  uregion_flush_icache regions start size fuel s = Err EFuel.
Proof.
  intros Hfl (_ & Hok & _ & Hm) Hq Hal Hsz Hns Hlo Hhi.
  assert (coherent u (obs (ext s))) as Hu by (apply (to_coherent _ _ Hok (p, u)); rewrite elem_of_app elem_of_cons; tauto).
  pose proof (co_in _ _ Hu b ltac:(by exists q)) as [Hi1 Hi2]. pose proof (blocks_elem _ _ _ (co_blocks _ _ Hu) Hq) as Hb.
  pose proof Hb as [(Hba & _) _]. apply phys_end_ok in Hb as (_ & Hb1 & Hb2).
  assert (start + size < pend b /\ ~ page_aligned (start + size)) as [Hlt Hne].
  { assert (~ page_aligned (start + size)) as Hn by (unfold page_aligned in *; rewrite Zplus_mod Hal; by rewrite Z.add_0_l Z.mod_mod).
    split; [|done]. assert (start + size <> pend b); [|lia]. intros Heq. apply Hn. rewrite Heq. unfold page_aligned, pend in *. by rewrite Z.mod_add. }
  assert (start + size < align_up (start + size) PAGE_SIZE) as Hup.
  { change PAGE_SIZE with (2 ^ 12). rewrite align_up_pow2; [|lia|lia|lia]. unfold page_aligned in Hne. change PAGE_SIZE with (2 ^ 12) in Hne.
    pose proof (Z.div_mod (start + size + 2 ^ 12 - 1) (2 ^ 12)). pose proof (Z.mod_pos_bound (start + size + 2 ^ 12 - 1) (2 ^ 12)).
    pose proof (Z.div_mod (start + size) (2 ^ 12)). pose proof (Z.mod_pos_bound (start + size) (2 ^ 12)). lia. }
  unfold uregion_flush_icache. rewrite (wrap_small 64 (start + size)); [|unfold u_range; lia]. change PAGE_ALIGN with PAGE_SIZE.
  rewrite align_down_page; [|unfold u_range; lia|done]. destruct fuel as [|fuel]; [done|]. cbn [flush_loop].
  destruct (Z.leb_spec (align_up (start + size) PAGE_SIZE) start); [lia|]. unfold bind at 1.
  rewrite (usr_block_run regions us1 p u us2 q b start s); [|apply Hok|apply Hu|unfold contains; lia|done|unfold within; lia|done].
  rewrite Z.sub_0_r (wrap_small 64 size); [|unfold u_range; lia]. rewrite Z.min_r; [|lia]. rewrite Z.add_0_l.
  rewrite (wrap_small 64 (start + size)); [|unfold u_range; lia]. rewrite (wrap_small 64 size); [|unfold u_range; lia].
  unfold bind at 1, on_ext. set (x := kpa_to_kva _). destruct (Hfl x (wrap64 (x + size)) (ext s)) as (e' & ->).
  apply (flush_stuck regions us1 p u us2 q b); [done|apply Hok|apply Hu|unfold contains; lia|done|unfold within; lia|unfold u_range; lia|done|done].
Qed.

End Theorems.

(** ** Concrete tasks *)

Definition regions8 : header udata := MkHeader 8 (Tree 0) (mk_is_Some _ _ eq_refl).

Definition user_cfg : mmu_pg_cfg := mmu_pg_cfg_new 0 MMU_AP_EL0_RW_EL1_RW MMU_SH_INNER_SHAREABLE false true true true 0.

(** Two pages at [0x10000], the first one committed. *)
Definition two_pages : uregion_t := MkRegion 0x10000 2 (Z.lor (node_flags true true false false) (Z.lor F_HAS_PHYS F_PARTIALLY_MAPPED)) 32 1.
Definition first_block : physdata_t := MkPhys 0x1000 0x10000 1.
Definition two_ustate : ustate := MkU two_pages [(32, first_block)] [1].
Definition two_kernel : kobs :=
  MkObs (list_to_set [48; 64; 80; 96; 112; 128]) 16 {[0x1000 := 1]} {[0x10000 := (0x1000, user_cfg)]}.
Definition two_state : mst (cell udata) kobs :=
  MkSt (list_to_map [(8, Tree 16); (16, Node (MkRb 0 0 (pack 0 BLACK) (URegion two_pages))); (32, Node (MkRb 0 0 (pack 0 BLACK) (UPhys first_block)))])
    two_kernel.

Lemma two_obs : obs two_kernel = two_kernel.
Proof. by vm_compute. Qed.

Lemma two_bits i : 0 <= i < 2 -> bit [1] i = true <-> i = 0.
Proof. intros Hi. assert (i = 0 \/ i = 1) as [-> | ->] by lia; by vm_compute. Qed.

Lemma two_page a : contains two_pages a -> (first_page two_pages a = 0 <-> a < 0x11000) /\ 0 <= first_page two_pages a < 2.
Proof.
  intros [H1 H2]. unfold first_page. cbn in *. pose proof (Z.div_mod (a - 65536) PAGE_SIZE). pose proof (Z.mod_pos_bound (a - 65536) PAGE_SIZE).
  unfold rend, PAGE_SIZE in *. cbn in *. lia.
Qed.

Lemma two_held b : held [(32, first_block)] b <-> b = first_block.
Proof. split; [by intros (q & [[= _ ->]|?%elem_of_nil]%elem_of_cons)|intros ->; exists 32; by left]. Qed.

Lemma two_coherent : coherent two_ustate two_kernel.
Proof.
  split; cbn [u_region u_blocks u_words two_ustate].
  - by vm_compute.
  - split; [by vm_compute|]. by repeat constructor.
  - split; [|split; [repeat constructor; by vm_compute|repeat constructor]]. apply Forall_singleton. split; [by vm_compute|].
    split; [by exists 0|by vm_compute].
  - intros b ->%two_held. by vm_compute.
  - intros a Ha. destruct (two_page a Ha) as [H1 H2]. rewrite two_bits // H1. split.
    + intros Hlt. exists first_block. split; [by apply two_held|]. destruct Ha. unfold within, pend, PAGE_SIZE. cbn in *. lia.
    + intros (b & ->%two_held & Hw). unfold within, pend, PAGE_SIZE in Hw. cbn in Hw. lia.
  - intros b i ->%two_held Hi. cbn in Hi. assert (i = 0) as -> by lia. exists user_cfg. by vm_compute.
  - intros a Ha Hb. destruct (two_page a Ha) as [H1 H2]. cbn. apply lookup_singleton_ne. intros <-.
    assert (bit [1] (first_page two_pages 65536) = true) as Ht by by vm_compute. congruence.
  - intros b ->%two_held. by vm_compute.
  - by vm_compute.
  - intros i H. by vm_compute in H.
Qed.

Lemma two_task_ok : task_ok [(16, two_ustate)] two_kernel.
Proof.
  split.
  - split; [repeat constructor; by vm_compute|]. split; [repeat constructor; by vm_compute|]. repeat constructor.
  - intros x [->|?%elem_of_nil]%elem_of_cons; [apply two_coherent|done].
  - cbn. apply NoDup_singleton.
  - intros a [x Hx]. cbn in Hx. apply lookup_singleton_Some in Hx as [<- _]. exists (16, two_ustate). split; [by left|by vm_compute].
Qed.

Definition two_tree : tree udata := T BLACK RbtreeTree.E 16 (URegion two_pages) RbtreeTree.E.
Definition block_tree : tree udata := T BLACK RbtreeTree.E 32 (UPhys first_block) RbtreeTree.E.

Lemma node_ptr_yes p : bool_decide (node_ptr p) = true -> node_ptr p.
Proof. apply bool_decide_eq_true. Qed.

Lemma two_task_in : task_in regions8 [(16, two_ustate)] two_state.
Proof.
  split; [done|]. split; [cbn [two_state ext]; rewrite two_obs; apply two_task_ok|]. split.
  - cbn [two_state ext mem]. unfold fresh. rewrite two_obs. apply (bool_decide_unpack _). by vm_compute.
  - cbn [two_state mem]. apply (list_to_map_sep [(8, Tree 16); (16, _)] [(32, _)]).
    + apply (bool_decide_unpack _). by vm_compute.
    + apply (holds_whole regions8 two_tree); [apply (bool_decide_unpack _); by vm_compute|repeat constructor; by apply node_ptr_yes|exists 1%nat; repeat econstructor].
    + eapply (entails_at (tree_at 0 block_tree)).
      * iIntros "Ht". cbn [big_opL snd contents two_ustate]. iSplit; [|done]. iSplitL; [iExists block_tree; iFrame|].
        { iPureIntro. split; [exists 1%nat; repeat econstructor|done]. }
        unfold words_rep. cbn. iPureIntro. split; [split; [by vm_compute|by repeat constructor]|done].
      * apply (holds_tree_at 0 block_tree); [apply (bool_decide_unpack _); by vm_compute|repeat constructor; by apply node_ptr_yes].
Qed.

Lemma uregion_reserve_ok_witness :
  wp (uregion_reserve 8 0x20000 1 true false false) (fun res s' =>
    (res = UREGION_OK /\ exists us1 us2 p, [(16, two_ustate)] = us1 ++ us2 /\
       task_in regions8 (us1 ++ (p, new_ustate (new_region 0x20000 1 true false false)) :: us2) s' /\
       frames (obs (ext s')) = frames (obs (ext two_state)) /\ upages (obs (ext s')) = upages (obs (ext two_state))) \/
    (res = UREGION_OVERLAPS /\ (exists x, x ∈ [(16, two_ustate)] /\ overlaps (new_region 0x20000 1 true false false) (u_region x.2)) /\
       task_in regions8 [(16, two_ustate)] s' /\ obs (ext s') = obs (ext two_state))) two_state.
Proof.
  apply (uregion_reserve_ok regions8); [exact two_task_in|by vm_compute|]. cbn [two_state ext]. rewrite two_obs. by vm_compute.
Defined.

(** The second page. *)
Lemma two_committable : committable two_ustate 0x11000 1 user_cfg (obs (ext two_state)).
Proof.
  cbn [two_state ext]. rewrite two_obs. split; [by vm_compute|by vm_compute| |lia|by vm_compute|by vm_compute].
  intros a Ha. unfold PAGE_SIZE in Ha. assert (contains two_pages a) as Hc by (unfold contains, rend, PAGE_SIZE; cbn; lia).
  destruct (two_page a Hc) as [H1 H2]. apply not_true_iff_false. cbn. rewrite two_bits //. lia.
Qed.

Lemma uregion_commit_ok_witness :
  wp (uregion_commit 8 0x11000 1 true) (fun _ s' =>
    exists u', task_in regions8 ([] ++ (16, u') :: []) s' /\ commits two_ustate 0x11000 1 (obs (ext two_state)) u' (obs (ext s'))) two_state.
Proof. apply (uregion_commit_ok regions8 [] 16 two_ustate [] 0x11000 1 true user_cfg); [exact two_task_in|exact two_committable]. Defined.

Lemma uregion_free_ok_witness :
  wp (uregion_free 8 0x10000 2) (fun res s' =>
    res = true /\ task_in regions8 [] s' /\ releases 16 two_ustate (obs (ext two_state)) (obs (ext s'))) two_state.
Proof. apply (uregion_free_ok regions8 [] 16 two_ustate []); [exact two_task_in|left; by vm_compute]. Defined.

Lemma uregion_roundtrip_witness :
  wp (region_session 8 0x20000 3 true true false true) (fun a s' =>
    a = (UREGION_OK, true) /\ task_in regions8 [(16, two_ustate)] s' /\ (forall x, pblocks (obs (ext s')) !! x = pblocks (obs (ext two_state)) !! x) /\
    forall x, upages (obs (ext s')) !! x = upages (obs (ext two_state)) !! x) two_state.
Proof.
  apply (uregion_roundtrip regions8 _ 0x20000 3 true true false true user_cfg); [exact two_task_in|by vm_compute|by vm_compute| |lia| |].
  - intros x [->|?%elem_of_nil]%elem_of_cons; [|done]. intros [_ H]. apply H. by vm_compute.
  - cbn [two_state ext]. rewrite two_obs. by vm_compute.
  - cbn [two_state ext]. rewrite two_obs. by vm_compute.
Defined.

Lemma uregion_is_reserved_ok_witness :
  exists o, uregion_is_reserved 8 0x10800 0x1000 two_state = Ok (o, two_state) /\
    forall node, o = Some node <-> 0 < 0x1000 /\ exists u, (node, u) ∈ [(16, two_ustate)] /\ covered (u_region u) 0x10800 0x1000.
Proof. apply (uregion_is_reserved_ok regions8); [exact two_task_in|lia|lia|lia]. Defined.

Lemma uregion_find_free_ok_witness :
  exists o, uregion_find_free 8 1 two_state = Ok (o, two_state) /\
    match o with
    | Some x => page_aligned x /\ 0 <= x /\ highest_free (regs [(16, two_ustate)]) USR_ADDRSPACE_END (1 * PAGE_SIZE) x
    | None => forall y, 0 <= y -> y + 1 * PAGE_SIZE <= USR_ADDRSPACE_END -> ~ range_free (regs [(16, two_ustate)]) y (1 * PAGE_SIZE)
    end.
Proof. apply (uregion_find_free_ok regions8); [exact two_task_in|lia]. Defined.

Lemma uregion_is_committed_ok_witness :
  exists b, uregion_is_committed 8 0x10000 0x800 two_state = Ok (b, two_state) /\
    (b = true <-> forall a, 0x10000 <= a < 0x10000 + 0x800 -> bit [1] (first_page two_pages a) = true).
Proof. apply (uregion_is_committed_ok regions8 [] 16 two_ustate []); [exact two_task_in|by vm_compute|lia|by vm_compute]. Defined.

(** A page from the middle of the first page on. *)
Lemma uregion_is_committed_misses_last_page_witness :
  uregion_is_committed 8 0x10800 0x1000 two_state = Ok (true, two_state) /\ upages (obs (ext two_state)) !! (0x10800 + 0x1000 - 1) = None.
Proof.
  apply (uregion_is_committed_misses_last_page regions8 [] 16 two_ustate []);
    [exact two_task_in|lia|by vm_compute|by vm_compute|by vm_compute|].
  intros a Ha Hlt. assert (contains two_pages a) as Hc by (unfold contains, rend, PAGE_SIZE; cbn; lia). destruct (two_page a Hc) as [H1 H2].
  change (first_page (u_region two_ustate) (0x10800 + 0x1000 - 1)) with 1 in Hlt. cbn in *. apply two_bits; [done|lia].
Defined.

Lemma uregion_flush_icache_hangs_witness : uregion_flush_icache 8 0x10000 0x800 1000 two_state = Err EFuel.
Proof.
  apply (uregion_flush_icache_hangs regions8 [] 16 two_ustate [] 32 first_block);
    [intros x y e; by exists e|exact two_task_in|by left|by vm_compute|lia|by vm_compute|by vm_compute|by vm_compute].
Defined.

(** A region of 65 pages that was never committed. *)
Definition large_region : uregion_t := new_region 0x10000 65 true true false.
Definition large_state : mst (cell udata) kobs :=
  MkSt (list_to_map [(8, Tree 16); (16, Node (MkRb 0 0 (pack 0 BLACK) (URegion large_region)))])
    (MkObs (list_to_set [48; 64]) 16 ∅ ∅).

Lemma large_task_in : task_in regions8 [(16, new_ustate large_region)] large_state.
Proof.
  split; [done|]. assert (obs (ext large_state) = ext large_state) as -> by by vm_compute. split; [split|split].
  - split; [repeat constructor; by vm_compute|]. split; [repeat constructor; by vm_compute|]. repeat constructor.
  - intros x [->|?%elem_of_nil]%elem_of_cons; [|done]. apply new_coherent; [by vm_compute|done|done].
  - apply NoDup_nil_2.
  - intros a [x Hx]. done.
  - unfold fresh. assert (obs (ext large_state) = ext large_state) as -> by by vm_compute. apply (bool_decide_unpack _). by vm_compute.
  - eapply (entails_at (whole regions8 (nodes_of (regs [(16, new_ustate large_region)])))).
    + iIntros "$". cbn [big_opL snd contents new_ustate]. iSplit; [|done]. iSplit; [iExists RbtreeTree.E; iPureIntro; split; [split; [exists 0%nat; constructor|done]|done]|done].
    + apply (holds_whole regions8 (T BLACK RbtreeTree.E 16 (URegion large_region) RbtreeTree.E));
        [apply (bool_decide_unpack _); by vm_compute|repeat constructor; by apply node_ptr_yes|exists 1%nat; repeat econstructor].
Qed.

Lemma uregion_free_uncommitted_faults_witness : uregion_free 8 0x10000 65 large_state = Err EFault.
Proof.
  apply (uregion_free_uncommitted_faults regions8 [] 16 (new_ustate large_region) []); [exact large_task_in|by vm_compute|by vm_compute|by vm_compute].
Defined.

(** An access with commit on demand to a range that is committed in part
    commits all of it again and so panics: the first page is committed, two
    pages are to be cleared. *)
Theorem umemzero_partly_committed_panics :
  umemzero 8 0x10000 0x2000 F_WRITE 0 true two_state = Err EPanic.
Proof. by vm_compute. Qed.
