(* ===== verification/UserMem.v ===== *)
(** * UserMem: the clients of a task's regions

    src/kernel/syscall/handlers/{mmap,munmap,read,write}.c, the translation
    faults of src/kernel/mm/page_fault.c and the loader src/kernel/mm/elf.c,
    on the regions of the current task.  The task is the address of its tree
    of regions; the lock around each operation and the traces are left out.
    The files of a task are a parameter ([Files]). *)

From Stdlib Require Import ZArith Lia.
From stdpp Require Import base gmap list.
From S2P Require Import Prelude KMath MmuDc VmContainers HeapLogic Rbtree Uregion.

Open Scope Z_scope.

Definition UREGION_ERROR : Z := 2.
Definition UREGION_REQUIRED_FLAGS_IGNORE : Z := 0.
Definition UREGION_FORBIDDEN_FLAGS_IGNORE : Z := 0.

(** [x & flag] as a condition *)
Definition flag (x f : Z) : bool := negb (Z.land x f =? 0).

(** ** mmap and munmap *)

Definition SYSC_MMAP_ERR : Z := -1.
Definition SYSC_MMAP_CFG_NOT_SUPPORTED : Z := -2.

Definition PROT_NONE : Z := 0.
Definition PROT_READ : Z := 1.
Definition PROT_WRITE : Z := 2.
Definition PROT_EXEC : Z := 4.

Definition MAP_ANONYMOUS : Z := 1.
Definition MAP_FIXED : Z := 2.

Definition SYSC_MUNMAP_OK : Z := 0.
Definition SYSC_MUNMAP_ERR : Z := -1.
Definition SYSC_MUNMAP_ALIGN_NOT_SUPPORTED : Z := -2.

Section Syscalls.
Context {E : Type} `{!Kernel E}.
Abbreviation U := (M (mst (cell udata) E)).

(** The number of pages is a size_t here and an uint32_t in the regions. *)
Definition syscall64_mmap (regions addr lenght prot flags : Z) : U Z :=
  if negb (flag flags MAP_ANONYMOUS) then ret SYSC_MMAP_ERR
  else if negb (addr =? 0) && flag flags MAP_FIXED && negb (addr mod PAGE_ALIGN =? 0) then ret SYSC_MMAP_ERR
  else if (prot =? PROT_NONE) || (flag prot PROT_WRITE && flag prot PROT_EXEC) then ret SYSC_MMAP_CFG_NOT_SUPPORTED
  else if lenght =? 0 then ret SYSC_MMAP_ERR
  else
    let pages := div_ceil lenght PAGE_SIZE in
    let* address :=
      (if addr =? 0 then uregion_find_free regions (wrap32 pages)
       else if addr mod PAGE_ALIGN =? 0 then ret (Some addr)
       else ret (Some (align_down addr PAGE_ALIGN))) in
    match address with
    | None => ret SYSC_MMAP_ERR
    | Some address =>
        let* ures := uregion_reserve regions address (wrap32 pages) (flag prot PROT_READ) (flag prot PROT_WRITE) (flag prot PROT_EXEC) in
        if ures =? UREGION_OK then ret (signed64 address)
        else if ures =? UREGION_OVERLAPS then
          if flag flags MAP_FIXED then ret SYSC_MMAP_ERR
          else
            let* found := uregion_find_free regions (wrap32 pages) in
            match found with
            | None => ret SYSC_MMAP_ERR
            | Some address =>
                uregion_reserve regions address (wrap32 (div_ceil lenght PAGE_SIZE))
                  (flag prot PROT_READ) (flag prot PROT_WRITE) (flag prot PROT_EXEC) ;;
                ret SYSC_MMAP_CFG_NOT_SUPPORTED
            end
        else if ures =? UREGION_ERROR then ret SYSC_MMAP_ERR
        else panic
    end.

Definition syscall64_munmap (regions addr lenght : Z) : U Z :=
  if KERNEL_BASE <? addr then ret SYSC_MUNMAP_ERR
  else if lenght =? 0 then ret SYSC_MUNMAP_ERR
  else if negb (is_aligned addr PAGE_ALIGN) || negb (lenght mod PAGE_SIZE =? 0) then ret SYSC_MUNMAP_ALIGN_NOT_SUPPORTED
  else
    let pages := lenght / PAGE_SIZE in
    let* freed := uregion_free regions addr (wrap32 pages) in
    ret (if freed : bool then SYSC_MUNMAP_OK else SYSC_MUNMAP_ERR).

(** ** Faults of a task *)

Record data_abort_iss : Type := MkIss {
  DFSC : Z; WnR : Z; S1PTW : Z; CM : Z; EA : Z; FnV : Z; b12_11 : Z; b14 : Z; b15 : Z; b20_16 : Z; SSE : Z; SAS : Z; ISV : Z
}.

Definition ESR_ISS (esr : Z) : Z := Z.land esr 0x1FFFFFF.

Definition data_abort_iss_new (iss : Z) : data_abort_iss :=
  let bits n m := Z.land (Z.shiftr iss n) m in
  MkIss (Z.land iss 0x3f) (bits 6 1) (bits 7 1) (bits 8 1) (bits 9 1) (bits 10 1) (bits 11 3) (bits 14 1) (bits 15 1)
    (bits 16 0x1f) (bits 21 1) (bits 22 3) (bits 24 1).

Definition get_dabt_word_size (iss : data_abort_iss) : Z :=
  if ISV iss =? 1 then
    if SAS iss =? 0 then 1 else if SAS iss =? 1 then 2 else if SAS iss =? 2 then 4 else if SAS iss =? 3 then 8 else 0
  else 0.

(** What becomes of the task: it goes on, or terminate_task is called. *)
Inductive fault_action : Type := Resume | TerminateTask (exit_code : Z).

Definition translation_fault (regions fault_address : Z) (iss : data_abort_iss) : U fault_action :=
  let dabt_word_size := get_dabt_word_size iss in
  let* uaccess := uregions_check_access regions fault_address (if dabt_word_size =? 0 then 1 else dabt_word_size)
                    UREGION_REQUIRED_FLAGS_IGNORE UREGION_FORBIDDEN_FLAGS_IGNORE true in
  if uaccess =? UREGION_ACCESS_OK then ret Resume
  else if uaccess =? UREGION_ACCESS_NOT_RESERVED then ret (TerminateTask 2)
  else panic.

Definition is_one_of (x : Z) (l : list Z) : bool := existsb (Z.eqb x) l.

Definition DFSC_ADDR_SIZE : list Z := [0; 1; 2; 3; 0x29].
Definition DFSC_TRANSLATION : list Z := [0x2b; 4; 5; 6; 7].
Definition DFSC_PERMISSION : list Z := [12; 13; 14; 15].
(** Access flag, external aborts, parity, alignment, granule protection, TLB
    conflict, atomics, implementation defined. *)
Definition DFSC_FATAL : list Z :=
  [8; 9; 10; 11; 0x10; 0x11; 0x13; 0x14; 0x15; 0x16; 0x17; 0x18; 0x1b; 0x1c; 0x1d; 0x1e; 0x1f; 0x21;
   0x23; 0x24; 0x25; 0x26; 0x27; 0x28; 0x30; 0x31; 0x34; 0x35].

(** [esr] and [far]: the registers ESR_EL1 and FAR_EL1. *)
Definition page_fault_handler (regions esr far : Z) : U fault_action :=
  let dabt_iss := data_abort_iss_new (ESR_ISS esr) in
  if is_one_of (DFSC dabt_iss) DFSC_ADDR_SIZE then ret (TerminateTask 1)
  else if is_one_of (DFSC dabt_iss) DFSC_TRANSLATION then translation_fault regions far dabt_iss
  else if is_one_of (DFSC dabt_iss) DFSC_PERMISSION then ret (TerminateTask 3)
  else if is_one_of (DFSC dabt_iss) DFSC_FATAL then panic
  else ret Resume.

(** ** read and write *)

Definition VFS_OK : Z := 0.
Definition VFS_ERR_BADF : Z := -1.
Definition VFS_ERR_INVAL : Z := -4.
Definition VFS_MAX_READ_SIZE : Z := 2 ^ 30.
Definition VFS_MAX_WRITE_SIZE : Z := 2 ^ 30.
Definition INT32_MAX : Z := 2 ^ 31 - 1.

(** The files of the task: descriptor, kernel buffer, size. *)
Class Files : Type := {
  vfs_read : Z -> Z -> Z -> M E Z;
  vfs_write : Z -> Z -> Z -> M E Z
}.
Context `{!Files}.

Definition kzalloc (bytes : Z) : M E Z := let* p := kmalloc bytes in k_memzero p bytes ;; ret p.

Definition syscall64_read (regions fd buf count : Z) : U Z :=
  if (signed64 fd <? 0) || (INT32_MAX <? fd) then ret VFS_ERR_BADF
  else if (count =? 0) || (VFS_MAX_READ_SIZE <? count) then ret VFS_ERR_INVAL
  else
    let* read_buf := on_ext (kzalloc count) in
    let* vfs_res := on_ext (vfs_read fd read_buf count) in
    if vfs_res <? 0 then on_ext (kfree read_buf) ;; ret vfs_res
    else
      let* uaccess := umemcpy regions buf read_buf vfs_res F_WRITE F_EXEC true true in
      on_ext (kfree read_buf) ;;
      ret (if uaccess =? UREGION_ACCESS_OK then vfs_res else VFS_ERR_INVAL).

Definition syscall64_write (regions fd buf count : Z) : U Z :=
  if (signed64 fd <? 0) || (INT32_MAX <? fd) then ret VFS_ERR_BADF
  else if (count =? 0) || (VFS_MAX_WRITE_SIZE <? count) then ret VFS_ERR_INVAL
  else
    let* write_buf := on_ext (kzalloc (count + 1)) in
    let* uaccess := umemcpy regions write_buf buf count F_READ 0 false false in
    if negb (uaccess =? UREGION_ACCESS_OK) then on_ext (kfree write_buf) ;; ret VFS_ERR_INVAL
    else
      let* result := on_ext (vfs_write fd write_buf count) in
      on_ext (kfree write_buf) ;;
      ret result.

(** ** Loading an ELF image *)

Definition ELF_LOAD_OK : Z := 0.
Definition ELF_LOAD_BAD_MAGIC : Z := 1.
Definition ELF_LOAD_BAD_HDR : Z := 2.
Definition PT_LOAD : Z := 1.
Definition PF_X : Z := 1.
Definition PF_W : Z := 2.
Definition PF_R : Z := 4.

Record Elf64_Phdr : Type := MkPhdr {
  p_type : Z; p_flags : Z; p_offset : Z; p_vaddr : Z; p_filesz : Z; p_memsz : Z; p_align : Z
}.

(** The bytes of the image, from the address [elf]; little endian. *)
Fixpoint le (bytes : list Z) : Z := match bytes with [] => 0 | b :: bytes => b + 256 * le bytes end.
Definition field (image : list Z) (off : Z) (n : nat) : U Z :=
  if (0 <=? off) && (off + Z.of_nat n <=? Z.of_nat (length image)) then ret (le (take n (drop (Z.to_nat off) image))) else fault.

Definition sizeof_Phdr : Z := 56.
Definition get_Phdr (image : list Z) (off : Z) : U Elf64_Phdr :=
  let* p_type := field image off 4 in
  let* p_flags := field image (off + 4) 4 in
  let* p_offset := field image (off + 8) 8 in
  let* p_vaddr := field image (off + 16) 8 in
  let* p_filesz := field image (off + 32) 8 in
  let* p_memsz := field image (off + 40) 8 in
  let* p_align := field image (off + 48) 8 in
  ret (MkPhdr p_type p_flags p_offset p_vaddr p_filesz p_memsz p_align).

(** One program header. *)
Definition load_segment (regions elf size : Z) (ph : Elf64_Phdr) : U unit :=
  if negb (p_type ph =? PT_LOAD) || (p_memsz ph =? 0) then ret tt
  else
    ASSERT (wrap64 (p_offset ph + p_filesz ph) <=? size) ;;
    ASSERT (p_vaddr ph mod PAGE_SIZE =? 0) ;;
    ASSERT (p_align ph mod PAGE_SIZE =? 0) ;;
    ASSERT (flag (p_flags ph) PF_R) ;;
    let memsz := align_up (p_memsz ph) PAGE_SIZE in
    let data_flags := Z.land (p_flags ph) (Z.lor (Z.lor PF_R PF_W) PF_X) in
    let* ureg := uregion_reserve_static regions (p_vaddr ph) (wrap32 (memsz / PAGE_SIZE))
                   (flag data_flags PF_R) (flag data_flags PF_W) (flag data_flags PF_X) false in
    ASSERT (ureg =? UREGION_OK) ;;
    (if negb (p_filesz ph =? 0) then
       let* uaccess := umemcpy regions (p_vaddr ph) (wrap64 (elf + p_offset ph)) (p_filesz ph)
                         UREGION_REQUIRED_FLAGS_IGNORE UREGION_FORBIDDEN_FLAGS_IGNORE false true in
       ASSERT (uaccess =? UREGION_ACCESS_OK)
     else ret tt) ;;
    (if p_filesz ph <? memsz then
       let* uaccess := umemzero regions (wrap64 (p_vaddr ph + p_filesz ph)) (wrap64 (memsz - p_filesz ph))
                         UREGION_REQUIRED_FLAGS_IGNORE UREGION_FORBIDDEN_FLAGS_IGNORE false in
       ASSERT (uaccess =? UREGION_ACCESS_OK)
     else ret tt) ;;
    if flag data_flags PF_X then uregion_flush_icache regions (p_vaddr ph) memsz (S (Z.to_nat (memsz / PAGE_SIZE))) else ret tt.

Fixpoint load_segments (regions elf size : Z) (image : list Z) (off : Z) (n : nat) : U unit :=
  match n with
  | O => ret tt
  | S n =>
      let* ph := get_Phdr image off in
      load_segment regions elf size ph ;;
      load_segments regions elf size image (off + sizeof_Phdr) n
  end.

(** The code and, when it is OK, the entry point. *)
Definition elf_load (regions elf size : Z) (image : list Z) : U (Z * Z) :=
  ASSERT (negb (elf =? 0)) ;;
  let* i0 := field image 0 1 in
  if negb (i0 =? 0x7f) then ret (ELF_LOAD_BAD_MAGIC, 0) else
  let* i1 := field image 1 1 in
  if negb (i1 =? 0x45) then ret (ELF_LOAD_BAD_HDR, 0) else
  let* i2 := field image 2 1 in
  if negb (i2 =? 0x4c) then ret (ELF_LOAD_BAD_HDR, 0) else
  let* i3 := field image 3 1 in
  if negb (i3 =? 0x46) then ret (ELF_LOAD_BAD_HDR, 0) else
  let* class := field image 4 1 in
  if negb (class =? 2) then ret (ELF_LOAD_BAD_HDR, 0) else
  let* endian := field image 5 1 in
  if negb (endian =? 1) then ret (ELF_LOAD_BAD_HDR, 0) else
  let* e_machine := field image 18 2 in
  if negb (e_machine =? 183) then ret (ELF_LOAD_BAD_HDR, 0)
  else
    let* e_phoff := field image 32 8 in
    let* ph_n := field image 56 2 in
    load_segments regions elf size image e_phoff (Z.to_nat ph_n) ;;
    let* e_entry := field image 24 8 in
    ret (ELF_LOAD_OK, e_entry).

End Syscalls.
