(* ===== verification/UserMemCorrect.v ===== *)
(** * UserMemCorrect: faults and mappings of a task

    Page faults, mmap and munmap on a task whose regions are coherent. *)

From Stdlib Require Import ZArith Lia Sorted.
From stdpp Require Import base gmap list.
From iris.proofmode Require Import proofmode.
From S2P Require Import Prelude KMath MmuDc VmContainers VmContainersSpec HeapLogic Rbtree RbtreeTree RbtreeRep RbtreeInsert RbtreeTraverse RbtreeKeys Uregion UregionSpec UregionBlocks UregionCommit UregionTask UregionFree UregionQueries UregionKernel UregionCorrect UserMem.

Open Scope Z_scope.

Section Faults.
Context {E : Type} `{!Kernel E} `{!KernelLaws E}.
Implicit Types (regions : header udata) (u : ustate) (us : ulist) (e : E) (s : mst (cell udata) E).
Abbreviation uwp := (uwp (fresh (E := E))).

(** ** Queries as rules *)

Lemma task_whole regions us (m : gmap Z (cell udata)) : holds (task regions us) m -> holds (whole regions (nodes_of (regs us))) m.
Proof. intros (m1 & m2 & -> & _ & H & _). eapply holds_mono; [exact H|]. apply map_union_subseteq_l. Qed.

Lemma uwp_task_find regions us1 p u us2 va e (Φ : Z -> E -> prop) :
  task_ok (us1 ++ (p, u) :: us2) (obs e) -> contains (u_region u) va ->
  task regions (us1 ++ (p, u) :: us2) ⊢ (task regions (us1 ++ (p, u) :: us2) -∗ Φ p e) -∗ uwp (region_find_usrva regions va) e Φ.
Proof.
  intros Hok Hc. iIntros "[Hw Hc] HΦ". iApply (uwp_region_find with "Hw"); [apply Hok|done|]. iIntros "Hw". iApply "HΦ". by iFrame.
Qed.

Lemma uwp_is_committed regions us1 p u us2 start size e (Φ : bool -> E -> prop) :
  haddr regions <> 0 -> task_ok (us1 ++ (p, u) :: us2) (obs e) -> 0 < size -> covered (u_region u) start size ->
  task regions (us1 ++ (p, u) :: us2) ⊢ (task regions (us1 ++ (p, u) :: us2) -∗ Φ (looked_at u start size) e) -∗
    uwp (uregion_is_committed regions start size) e Φ.
Proof.
  intros H0 Hok Hsz Hc. iIntros "H HΦ". iApply (uwp_reads _ _ _ _ (fun b => b = looked_at u start size) with "H"); [|iIntros (b) "-> H"; by iApply "HΦ"].
  intros m Hm Hf. exists (looked_at u start size). split; [|done]. by apply (is_committed_run regions us1 p u us2).
Qed.

Definition find_free_answer us (pgs : Z) (o : option Z) : Prop :=
  match o with
  | Some x => page_aligned x /\ 0 <= x /\ highest_free (regs us) USR_ADDRSPACE_END (pgs * PAGE_SIZE) x
  | None => pgs = 0 \/ forall y, 0 <= y -> y + pgs * PAGE_SIZE <= USR_ADDRSPACE_END -> ~ range_free (regs us) y (pgs * PAGE_SIZE)
  end.

Lemma uwp_find_free regions us pgs e (Φ : option Z -> E -> prop) :
  task_ok us (obs e) -> 0 <= pgs < 2 ^ 32 ->
  task regions us ⊢ (∀ o, ⌜find_free_answer us pgs o⌝ -∗ task regions us -∗ Φ o e) -∗ uwp (uregion_find_free regions pgs) e Φ.
Proof.
  intros Hok Hp. apply uwp_reads. intros m Hm _. by apply (uregion_find_free_spec regions (regs us) pgs (MkSt m e)); [apply Hok|apply task_whole|].
Qed.

(** ** A page on demand *)

Definition page_of (a : Z) : Z := a - a mod PAGE_SIZE.

Lemma page_of_in r a : region_ok r -> contains r a ->
  page_aligned (page_of a) /\ usr_start r <= page_of a /\ page_of a <= a < page_of a + PAGE_SIZE /\ page_of a + PAGE_SIZE <= rend r /\
  first_page r (page_of a) = first_page r a.
Proof.
  intros [(Hal & Hs & _) _] [H1 H2]. unfold page_aligned, page_of, rend, first_page in *. pose proof (Z.mod_pos_bound a PAGE_SIZE). pose proof (Z.div_mod a PAGE_SIZE).
  pose proof (Z.div_mod (usr_start r) PAGE_SIZE). rewrite Hal in H3. assert ((a - a mod PAGE_SIZE) mod PAGE_SIZE = 0) as Hm.
  { rewrite Zminus_mod Z.mod_mod // Z.sub_diag. done. }
  split; [done|]. unfold PAGE_SIZE in *. split; [lia|]. split; [lia|]. split; [lia|].
  transitivity (a / 4096 - usr_start r / 4096).
  - symmetry. apply (Z.div_unique_pos _ 4096 _ 0); lia.
  - apply (Z.div_unique_pos _ 4096 _ (a mod 4096)); lia.
Qed.

Lemma looked_at_one u a : looked_at u a PAGE_SIZE = bit (u_words u) (first_page (u_region u) a).
Proof.
  unfold looked_at. change (pages_of PAGE_SIZE) with 1. rewrite seqZ_cons; [|lia]. rewrite seqZ_nil; [|lia]. cbn [forallb]. apply andb_true_r.
Qed.

(** The word at an address, in its page. *)
Definition word_in_page (a size : Z) : Prop := 0 < size /\ a mod PAGE_SIZE + size <= PAGE_SIZE.

Lemma page_bounds r a size :
  region_ok r -> contains r a -> word_in_page a size ->
  align_up (wrap64 (a + size)) PAGE_ALIGN = page_of a + PAGE_SIZE /\ align_down a PAGE_ALIGN = page_of a.
Proof.
  intros Hr Hc [Hs Hw]. destruct (page_of_in r a Hr Hc) as (_ & H1 & H2 & H3 & _). pose proof (region_end_ok r Hr) as (_ & ? & ?).
  assert (page_of a mod PAGE_SIZE = 0) as Hm by (by apply (page_of_in r a)).
  assert (a + size <= page_of a + PAGE_SIZE) by (unfold page_of; lia).
  rewrite wrap_small; [|unfold u_range, PAGE_SIZE in *; lia]. change PAGE_ALIGN with (2 ^ 12). rewrite align_down_pow2; [|unfold u_range; lia|lia].
  rewrite align_up_pow2; [|lia|lia|unfold PAGE_SIZE in *; lia]. unfold page_of, PAGE_SIZE in *. change (2 ^ 12) with 4096. split; [|done].
  pose proof (Z.div_mod a 4096). pose proof (Z.mod_pos_bound a 4096).
  assert ((a + size + 4096 - 1) / 4096 = a / 4096 + 1) as ->; [|lia]. symmetry. apply (Z.div_unique_pos _ 4096 _ (a mod 4096 + size - 1)); lia.
Qed.

Lemma page_committable u a cfg o :
  region_ok (u_region u) -> contains (u_region u) a -> bit (u_words u) (first_page (u_region u) a) = false ->
  usr_mmu_cfg_from_flags (flags (u_region u)) = Some cfg -> 1 <= frames o -> (2 <= size (chunks o))%nat ->
  committable u (page_of a) 1 cfg o.
Proof.
  intros Hr Hc Hb Hcfg Hf Hch. destruct (page_of_in _ a Hr Hc) as (H1 & H2 & H3 & H4 & H5). split; [|done| |lia|done|change (Z.log2 1) with 0; lia].
  - split; [done|]. split; [done|]. split; [lia|]. rewrite Z.mul_1_l. done.
  - intros x Hx. pose proof Hr as [(Hal & _) _]. apply (first_page_in (u_region u)) in Hx; [|done..]. rewrite H5 in Hx.
    assert (first_page (u_region u) x = first_page (u_region u) a) as -> by lia. done.
Qed.

(** What happens to the page of [a]: nothing, or it is committed. *)
Definition page_served regions us1 p u us2 a e : E -> prop := fun e' =>
  (∃ u', ⌜task_ok (us1 ++ (p, u') :: us2) (obs e') /\
     if bit (u_words u) (first_page (u_region u) a) then u' = u /\ e' = e else commits u (page_of a) 1 (obs e) u' (obs e')⌝ ∗
   task regions (us1 ++ (p, u') :: us2))%I.

Lemma check_access_page regions us1 p u us2 a size cfg e :
  haddr regions <> 0 -> task_ok (us1 ++ (p, u) :: us2) (obs e) -> contains (u_region u) a -> word_in_page a size ->
  usr_mmu_cfg_from_flags (flags (u_region u)) = Some cfg -> 1 <= frames (obs e) -> (2 <= stdpp.base.size (chunks (obs e)))%nat ->
  task regions (us1 ++ (p, u) :: us2) ⊢ uwp (uregions_check_access regions a size 0 0 true) e
    (fun r e' => ⌜r = UREGION_ACCESS_OK⌝ ∗ page_served regions us1 p u us2 a e e')%I.
Proof.
  intros H0 Hok Hc Hw Hcfg Hf Hch. assert (coherent u (obs e)) as Hu by (apply (to_coherent _ _ Hok (p, u)); rewrite elem_of_app elem_of_cons; tauto).
  pose proof (co_region _ _ Hu) as Hr. destruct (page_bounds _ _ _ Hr Hc Hw) as [Eup Edn]. destruct (page_of_in _ a Hr Hc) as (H1 & H2 & H3 & H4 & H5).
  pose proof (region_end_ok _ Hr) as (Er & Hrs & Hre). iIntros "H". unfold uregions_check_access. rewrite Eup Edn.
  replace (page_of a + PAGE_SIZE - page_of a) with (1 * PAGE_SIZE) by lia. rewrite Z.div_mul //. change (S (Z.to_nat 1)) with 2%nat.
  iApply uwp_bind. cbn [check_access_loop]. destruct (Z.leb_spec (page_of a + PAGE_SIZE) (page_of a)); [unfold PAGE_SIZE in *; lia|].
  iApply uwp_bind. iApply (uwp_task_find with "H"); [done|unfold contains; lia|]. iIntros "H". iDestruct (task_node_ptr with "H") as %[Hp0 _].
  iApply uwp_bind. unfold unode_check_access. destruct (Z.eqb_spec p 0); [done|]. iApply uwp_bind. iApply (uwp_task_get_region with "H"). iIntros "_ H".
  rewrite !Z.land_0_r. cbn [Z.eqb negb orb]. rewrite Er Z.min_l; [|lia]. replace (page_of a + PAGE_SIZE - page_of a) with PAGE_SIZE by lia.
  change (wrap64 PAGE_SIZE) with PAGE_SIZE. iApply uwp_bind. iApply (uwp_is_committed with "H"); [done|done|done|split; lia|]. iIntros "H".
  rewrite looked_at_one H5. unfold page_served. destruct (bit (u_words u) (first_page (u_region u) a)) eqn:Hb.
  - iApply uwp_ret. cbn [negb Z.eqb app]. destruct (Z.leb_spec (page_of a + PAGE_SIZE) (page_of a + PAGE_SIZE)); [|lia]. iApply uwp_ret. cbn [negb Z.eqb commit_areas].
    iApply uwp_bind. iApply uwp_ret. iApply uwp_ret. iSplit; [done|]. iExists u. by iFrame.
  - cbn [negb]. iApply uwp_ret. cbn [negb Z.eqb app]. destruct (Z.leb_spec (page_of a + PAGE_SIZE) (page_of a + PAGE_SIZE)); [|lia]. iApply uwp_ret.
    cbn [negb Z.eqb commit_areas]. change (wrap32 (PAGE_SIZE / PAGE_SIZE)) with 1. iApply uwp_bind. iApply uwp_bind.
    iApply (uwp_wand with "[H]"); [iApply (commit_task_spec with "H"); [done|by apply page_committable]|].
    iIntros ([] e') "(%u' & %Hcs & H)". iApply uwp_ret. iApply uwp_ret. iSplit; [done|]. iExists u'. by iFrame.
Qed.

(** The access that faulted. *)
Definition fault_size (esr : Z) : Z := let w := get_dabt_word_size (data_abort_iss_new (ESR_ISS esr)) in if w =? 0 then 1 else w.
Definition is_translation (esr : Z) : Prop := is_one_of (DFSC (data_abort_iss_new (ESR_ISS esr))) DFSC_TRANSLATION = true.

Lemma handler_translation regions esr far :
  is_translation esr -> page_fault_handler (E := E) regions esr far = translation_fault regions far (data_abort_iss_new (ESR_ISS esr)).
Proof.
  unfold is_translation, page_fault_handler. intros H. rewrite H. assert (is_one_of (DFSC (data_abort_iss_new (ESR_ISS esr))) DFSC_ADDR_SIZE = false) as ->; [|done].
  unfold is_one_of in *. apply existsb_exists in H as (x & Hx & ->%Z.eqb_eq). cbn in Hx. naive_solver.
Qed.

(** C29: a translation fault of a task at an address of one of its readable
    regions (a fault in a region that is only writable panics, see
    [mmap_write_only_panics]), for a word within one page, with a free frame
    and two nodes left, lets the task go on with that page committed, with one
    zeroed frame that was not in use, if it was not, and with nothing changed
    if it was; the other pages, regions and blocks are as before. *)
Theorem page_fault_ok regions us1 p u us2 esr far cfg s :
  task_in regions (us1 ++ (p, u) :: us2) s -> is_translation esr -> contains (u_region u) far -> word_in_page far (fault_size esr) ->
  usr_mmu_cfg_from_flags (flags (u_region u)) = Some cfg -> 1 <= frames (obs (ext s)) -> (2 <= size (chunks (obs (ext s))))%nat ->
  wp (page_fault_handler regions esr far) (fun act s' => act = Resume /\ exists u', task_in regions (us1 ++ (p, u') :: us2) s' /\
    if bit (u_words u) (first_page (u_region u) far) then u' = u /\ ext s' = ext s
    else commits u (page_of far) 1 (obs (ext s)) u' (obs (ext s'))) s.
Proof.
  intros Ht He Hc Hw Hcfg Hf Hch. pose proof Ht as (H0 & Hok & _). rewrite handler_translation //.
  assert (task regions (us1 ++ (p, u) :: us2) ⊢ uwp (translation_fault regions far (data_abort_iss_new (ESR_ISS esr))) (ext s)
    (fun act e' => ⌜act = Resume⌝ ∗ page_served regions us1 p u us2 far (ext s) e')%I) as H.
  { iIntros "H". unfold translation_fault. fold (fault_size esr). iApply uwp_bind. iApply (uwp_wand with "[H]"); [by iApply (check_access_page with "H")|].
    iIntros (r e') "[-> H]". cbn [Z.eqb]. iApply uwp_ret. by iFrame. }
  apply (task_run regions _ s _ _ _ Ht H). intros act s' Hf' Hp. apply holds_pure_sep in Hp as [-> (u' & Hp)].
  apply holds_pure_sep in Hp as [(Hok' & Hb) Hp]. split; [done|]. by exists u'.
Qed.

Lemma far_page r far : region_ok r -> 0 <= far -> contains r (page_of far) -> contains r far.
Proof.
  intros [(Hal & Hs & _) _] Hf [H1 H2]. unfold contains, page_of, rend, page_aligned in *. pose proof (Z.mod_pos_bound far PAGE_SIZE). pose proof (Z.div_mod far PAGE_SIZE).
  pose proof (Z.div_mod (usr_start r) PAGE_SIZE). unfold PAGE_SIZE in *. lia.
Qed.

(** A translation fault at an address outside of every region of the task
    terminates the task with the code 2 and changes nothing. *)
Theorem page_fault_unreserved regions us esr far s :
  task_in regions us s -> is_translation esr -> 0 <= far < 2 ^ 64 - 2 ^ 13 -> (forall x, x ∈ us -> ~ contains (u_region x.2) far) ->
  page_fault_handler regions esr far s = Ok (TerminateTask 2, s).
Proof.
  intros (_ & Hok & _ & Hm) He Hfar Hno. rewrite handler_translation //.
  assert (0 < fault_size esr <= 8) as Hsz by (unfold fault_size, get_dabt_word_size; repeat case_match; lia).
  unfold translation_fault. fold (fault_size esr). unfold bind at 1, uregions_check_access.
  rewrite wrap_small; [|unfold u_range; lia]. change PAGE_ALIGN with (2 ^ 12). rewrite align_down_pow2; [|unfold u_range; lia|lia].
  rewrite align_up_pow2; [|lia|lia|lia]. change (far - far mod 2 ^ 12) with (page_of far). unfold bind at 1. cbn [check_access_loop].
  pose proof (Z.mod_pos_bound far PAGE_SIZE). pose proof (Z.div_mod (far + fault_size esr + 2 ^ 12 - 1) (2 ^ 12)).
  pose proof (Z.mod_pos_bound (far + fault_size esr + 2 ^ 12 - 1) (2 ^ 12)).
  destruct (Z.leb_spec ((far + fault_size esr + 2 ^ 12 - 1) / 2 ^ 12 * 2 ^ 12) (page_of far)); [unfold page_of, PAGE_SIZE in *; lia|].
  destruct (region_find_spec regions _ (page_of far) s (to_regions _ _ Hok) (task_whole _ _ _ Hm)) as (node & Hf & Ha).
  unfold bind at 1. rewrite Hf. destruct Ha as [(r & (u & -> & Hu)%elem_of_regs & Hc)|[-> _]]; [|done]. exfalso. apply (Hno _ Hu).
  apply far_page; [apply (co_region u (obs (ext s))), (to_coherent _ _ Hok _ Hu)|lia|done].
Qed.

(** ** mmap and munmap *)

Definition mmap_valid (lenght prot fl : Z) : Prop :=
  flag fl MAP_ANONYMOUS = true /\ prot <> PROT_NONE /\ flag prot PROT_WRITE && flag prot PROT_EXEC = false /\ lenght <> 0.
Definition mmap_pages (lenght : Z) : Z := wrap32 (div_ceil lenght PAGE_SIZE).
Definition mmap_region (x lenght prot : Z) : uregion_t :=
  new_region x (mmap_pages lenght) (flag prot PROT_READ) (flag prot PROT_WRITE) (flag prot PROT_EXEC).

Lemma free_region us x lenght prot :
  find_free_answer us (mmap_pages lenght) (Some x) -> 0 < mmap_pages lenght ->
  region_ok (mmap_region x lenght prot) /\ (forall y, y ∈ us -> ~ overlaps (mmap_region x lenght prot) (u_region y.2)).
Proof.
  intros (Hal & Hx & Hfree & Htop & _) Hn. split.
  - split; [by split|]. cbn. unfold mmap_pages, wrap32, wrap. apply Z.mod_pos_bound. lia.
  - intros [p u] Hy [H1 H2]. destruct (Hfree p (u_region u)); [apply elem_of_regs; by exists u|by apply H2|by apply H1].
Qed.

(** The region is added to a task that has room for it. *)
Lemma reserve_free regions us x lenght prot e :
  haddr regions <> 0 -> task_ok us (obs e) -> chunks (obs e) <> ∅ -> find_free_answer us (mmap_pages lenght) (Some x) -> 0 < mmap_pages lenght ->
  task regions us ⊢ uwp (uregion_reserve regions x (mmap_pages lenght) (flag prot PROT_READ) (flag prot PROT_WRITE) (flag prot PROT_EXEC)) e
    (fun res e' => ⌜res = UREGION_OK⌝ ∗ ∃ us1 us2 p, ⌜us = us1 ++ us2 /\ obs e' = with_chunks (chunks (obs e) ∖ {[p]}) (obs e) /\
       task_ok (us1 ++ (p, new_ustate (mmap_region x lenght prot)) :: us2) (obs e')⌝ ∗
       task regions (us1 ++ (p, new_ustate (mmap_region x lenght prot)) :: us2))%I.
Proof.
  intros H0 Hok Hch Hx Hn. destruct (free_region us x lenght prot Hx Hn) as [Hr Hov]. iIntros "H".
  iApply (uwp_wand with "[H]"); [by iApply (uregion_reserve_task with "H")|].
  iIntros (res e') "[(-> & %us1 & %us2 & %p & (-> & %Hp & %Eo & %Hok1) & H)|((_ & (%y & %Hy & %Hbad) & _) & _)]"; [|by destruct (Hov y Hy)].
  iSplit; [done|]. iExists us1, us2, p. by iFrame.
Qed.

Definition mmapped regions us lenght prot e : Z -> E -> prop := fun res e' =>
  ((∃ us1 us2 p, ⌜us = us1 ++ us2 /\ find_free_answer us (mmap_pages lenght) (Some res) /\
       obs e' = with_chunks (chunks (obs e) ∖ {[p]}) (obs e) /\
       task_ok (us1 ++ (p, new_ustate (mmap_region res lenght prot)) :: us2) (obs e')⌝ ∗
     task regions (us1 ++ (p, new_ustate (mmap_region res lenght prot)) :: us2)) ∨
   (⌜res = SYSC_MMAP_ERR /\ e' = e /\ find_free_answer us (mmap_pages lenght) None⌝ ∗ task regions us))%I.

Lemma signed_user us n x : find_free_answer us n (Some x) -> 0 < n -> 0 <= x < 2 ^ 47 /\ signed64 x = x.
Proof.
  intros (_ & Hx & _ & Htop & _) Hn. rewrite USR_ADDRSPACE_END_val in Htop. unfold PAGE_SIZE in *. split; [lia|].
  unfold signed64. by destruct (Z.ltb_spec x (2 ^ 63)); [|lia].
Qed.

Lemma mmap_pages_range lenght : 0 <= mmap_pages lenght < 2 ^ 32.
Proof. unfold mmap_pages, wrap32, wrap. apply Z.mod_pos_bound. lia. Qed.

Lemma mmap_spec regions us lenght prot fl e :
  haddr regions <> 0 -> task_ok us (obs e) -> chunks (obs e) <> ∅ -> mmap_valid lenght prot fl -> 0 < mmap_pages lenght ->
  task regions us ⊢ uwp (syscall64_mmap regions 0 lenght prot fl) e (mmapped regions us lenght prot e).
Proof.
  intros H0 Hok Hch (Ha & Hp & Hwx & Hl) Hn. iIntros "H". unfold syscall64_mmap. rewrite Ha Hwx. cbn [negb Z.eqb andb].
  destruct (Z.eqb_spec prot PROT_NONE); [done|]. destruct (Z.eqb_spec lenght 0); [done|]. cbn [orb]. fold (mmap_pages lenght).
  iApply uwp_bind. iApply (uwp_find_free with "H"); [done|apply mmap_pages_range|]. iIntros ([x|]) "%Hx H".
  - iApply uwp_bind. iApply (uwp_wand with "[H]"); [by iApply (reserve_free with "H")|]. iIntros (res e') "(-> & %us1 & %us2 & %p & (-> & %Eo & %Hok') & H)".
    cbn [Z.eqb]. iApply uwp_ret. destruct (signed_user _ _ _ Hx Hn) as [_ ->]. iLeft. iExists us1, us2, p. by iFrame.
  - iApply uwp_ret. iRight. by iFrame.
Qed.

(** C30: an anonymous mmap without an address of the caller's, with a valid
    protection (not none, not writable and executable at once) and a length
    whose number of pages is not a multiple of 2^32, answers with the highest
    free range of the user's half of as many pages as the length asks for
    modulo 2^32 (longer requests are cut, see [mmap_length_truncated]), and
    adds it to the task as a region with the permissions asked for and no page
    committed; or there is no such range, the answer is the error and nothing
    changes. *)
Theorem syscall64_mmap_ok regions us lenght prot fl s :
  task_in regions us s -> chunks (obs (ext s)) <> ∅ -> mmap_valid lenght prot fl -> 0 < mmap_pages lenght ->
  wp (syscall64_mmap regions 0 lenght prot fl) (fun res s' =>
    (exists us1 us2 p, us = us1 ++ us2 /\ page_aligned res /\ 0 <= res /\
       highest_free (regs us) USR_ADDRSPACE_END (mmap_pages lenght * PAGE_SIZE) res /\
       task_in regions (us1 ++ (p, new_ustate (mmap_region res lenght prot)) :: us2) s' /\
       frames (obs (ext s')) = frames (obs (ext s)) /\ upages (obs (ext s')) = upages (obs (ext s))) \/
    (res = SYSC_MMAP_ERR /\ task_in regions us s' /\ ext s' = ext s /\
       forall y, 0 <= y -> y + mmap_pages lenght * PAGE_SIZE <= USR_ADDRSPACE_END -> ~ range_free (regs us) y (mmap_pages lenght * PAGE_SIZE))) s.
Proof.
  intros Ht Hch Hv Hn. pose proof Ht as (H0 & Hok & _). apply (task_run regions us s _ _ _ Ht (mmap_spec regions us lenght prot fl (ext s) H0 Hok Hch Hv Hn)).
  intros res s' Hf [(us1 & us2 & p & Hp)|Hp]; apply holds_pure_sep in Hp as [Hp Hm].
  - destruct Hp as (-> & (Hal & Hx & Hfree) & Eo & Hok'). left. exists us1, us2, p. repeat (split; [done|]). by rewrite Eo.
  - destruct Hp as (-> & Ee & [Hx|Hx]); [lia|]. right. split; [done|]. split; [|done]. split; [done|]. split; [by rewrite Ee|done].
Qed.

(** mmap with an address whose range is taken, not fixed, reserves another
    range as its comment says, but answers with an error code, not with the
    address: the task has one more region and is not told where. *)
Theorem mmap_hint_leaks regions us addr lenght prot fl s :
  task_in regions us s -> chunks (obs (ext s)) <> ∅ -> mmap_valid lenght prot fl -> 0 < mmap_pages lenght ->
  flag fl MAP_FIXED = false -> addr <> 0 -> region_ok (mmap_region addr lenght prot) ->
  (exists x, x ∈ us /\ overlaps (mmap_region addr lenght prot) (u_region x.2)) ->
  (exists y, 0 <= y /\ y + mmap_pages lenght * PAGE_SIZE <= USR_ADDRSPACE_END /\ range_free (regs us) y (mmap_pages lenght * PAGE_SIZE)) ->
  wp (syscall64_mmap regions addr lenght prot fl) (fun res s' => res = SYSC_MMAP_CFG_NOT_SUPPORTED /\
    exists us1 us2 p x, us = us1 ++ us2 /\ task_in regions (us1 ++ (p, new_ustate (mmap_region x lenght prot)) :: us2) s') s.
Proof.
  intros Ht Hch (Ha & Hp & Hwx & Hl) Hn Hfix Hne Hr (x & Hx & Hxo) (y & Hy1 & Hy2 & Hy3). pose proof Ht as (H0 & Hok & _).
  assert (task regions us ⊢ uwp (syscall64_mmap regions addr lenght prot fl) (ext s) (fun res e' => ⌜res = SYSC_MMAP_CFG_NOT_SUPPORTED⌝ ∗
    ∃ us1 us2 p x, ⌜us = us1 ++ us2 /\ task_ok (us1 ++ (p, new_ustate (mmap_region x lenght prot)) :: us2) (obs e')⌝ ∗
      task regions (us1 ++ (p, new_ustate (mmap_region x lenght prot)) :: us2))%I) as H.
  { iIntros "H". unfold syscall64_mmap. rewrite Ha Hwx Hfix. cbn [negb]. rewrite andb_false_r. cbn [andb].
    destruct (Z.eqb_spec prot PROT_NONE); [done|]. destruct (Z.eqb_spec lenght 0); [done|]. cbn [orb]. fold (mmap_pages lenght).
    destruct (Z.eqb_spec addr 0); [done|]. assert (addr mod PAGE_ALIGN = 0) as -> by (by destruct Hr as [(Hal & _) _]). cbn [Z.eqb]. iApply uwp_bind. iApply uwp_ret.
    iApply uwp_bind. iApply (uwp_wand with "[H]"); [by iApply (uregion_reserve_task with "H")|].
    iIntros (res e1) "[(-> & %us1 & %us2 & %p & (-> & %Hpc & %Eo & %Hok1) & H)|((-> & _ & %Eo) & H)]".
    { exfalso. pose proof (regs_apart us1 p (new_ustate (mmap_region addr lenght prot)) us2 x) as Hap.
      destruct Hxo as [Ho1 Ho2]. unfold apart in Ho1, Ho2. apply (Hap (Z.max addr (usr_start (u_region x.2))) (to_regions _ _ Hok1) Hx).
      - unfold contains. cbn [u_region new_ustate]. pose proof (region_end_ok _ Hr) as (_ & Hlt & _). cbn [usr_start mmap_region new_region] in *. lia.
      - pose proof (region_end_ok _ (co_region _ _ (to_coherent _ _ Hok x Hx))) as (_ & Hlt & _). unfold contains. cbn [usr_start mmap_region new_region] in *. lia. }
    cbn [Z.eqb]. assert (task_ok us (obs e1)) as Hok1 by (by rewrite Eo). iApply uwp_bind.
    iApply (uwp_find_free with "H"); [done|apply mmap_pages_range|]. iIntros ([z|]) "%Hz H"; [|exfalso; destruct Hz as [|Hz]; [lia|by apply (Hz y)]].
    iApply uwp_bind. iApply (uwp_wand with "[H]"); [iApply (reserve_free with "H"); [done|done|by rewrite Eo|done|done]|].
    iIntros (res e2) "(-> & %us1 & %us2 & %p & (-> & _ & %Hok2) & H)". iApply uwp_ret. iSplit; [done|]. iExists us1, us2, p, z. by iFrame. }
  apply (task_run regions us s _ _ _ Ht H). intros res s' Hf Hq. apply holds_pure_sep in Hq as [-> (us1 & us2 & p & z & Hq)].
  apply holds_pure_sep in Hq as [(-> & Hok') Hm]. split; [done|]. by exists us1, us2, p, z.
Qed.

(** munmap of pages of the user's half. *)
Lemma munmap_unfold regions x n :
  0 <= x < 2 ^ 47 -> page_aligned x -> 0 < n < 2 ^ 32 ->
  syscall64_munmap (E := E) regions x (n * PAGE_SIZE) =
    (let* freed := uregion_free regions x n in ret (if freed : bool then SYSC_MUNMAP_OK else SYSC_MUNMAP_ERR)).
Proof.
  intros Hx Hal Hn. unfold syscall64_munmap. destruct (Z.ltb_spec KERNEL_BASE x); [assert (2 ^ 47 <= KERNEL_BASE) by (by vm_compute); lia|].
  destruct (Z.eqb_spec (n * PAGE_SIZE) 0); [unfold PAGE_SIZE in *; lia|].
  assert (is_aligned x PAGE_ALIGN = true) as ->.
  { change PAGE_ALIGN with (2 ^ 12). apply is_aligned_pow2; [lia|]. by apply Z.mod_divide. }
  rewrite Z.mod_mul //. cbn [negb Z.eqb orb]. rewrite Z.div_mul // (wrap_small 32 n); [done|unfold u_range; lia].
Qed.





(** munmap of some pages of a region, not of all of them, panics. *)
Theorem munmap_partial_panics regions us1 p u us2 addr n s :
  task_in regions (us1 ++ (p, u) :: us2) s -> page_aligned addr -> 0 < n < 2 ^ 32 ->
  usr_start (u_region u) <= addr -> addr + n * PAGE_SIZE <= rend (u_region u) -> n <> pages (u_region u) ->
  syscall64_munmap regions addr (n * PAGE_SIZE) s = Err EPanic.
Proof.
  intros (_ & Hok & _ & Hm) Hal Hn Hlo Hhi Hne. assert (coherent u (obs (ext s))) as Hu by (apply (to_coherent _ _ Hok (p, u)); rewrite elem_of_app elem_of_cons; tauto).
  pose proof (region_end_ok _ (co_region _ _ Hu)) as (Er & Hs & He). apply task_whole in Hm.
  destruct (get_region_reads regions _ p (u_region u) s Hm) as [[Hp0 _] Hg]; [apply elem_of_regs; exists u; split; [done|]; rewrite elem_of_app elem_of_cons; tauto|].
  rewrite munmap_unfold; [|unfold PAGE_SIZE in *; lia|done|done]. unfold bind at 1, uregion_free. unfold bind at 1.
  rewrite (region_find_hit regions us1 p u us2 addr s); [|apply Hok|unfold contains, PAGE_SIZE in *; lia|done].
  destruct (Z.eqb_spec p 0); [done|]. unfold bind at 1. rewrite Hg Er.
  rewrite (wrap_small 64 (n * PAGE_SIZE)); [|unfold u_range, PAGE_SIZE in *; lia]. rewrite (wrap_small 64 (addr + _)); [|unfold u_range, PAGE_SIZE in *; lia].
  destruct (Z.ltb_spec (rend (u_region u)) (addr + n * PAGE_SIZE)); [lia|].
  destruct (Z.eqb_spec addr (usr_start (u_region u))), (Z.eqb_spec (addr + n * PAGE_SIZE) (rend (u_region u))); [|done..].
  exfalso. apply Hne. unfold rend, PAGE_SIZE in *. lia.
Qed.

End Faults.

(** ** Concrete tasks *)

(** A translation fault of level 3, no syndrome. *)
Definition esr_translation : Z := 0x92000007.

Lemma page_fault_ok_witness :
  wp (page_fault_handler 8 esr_translation 0x11234) (fun act s' => act = Resume /\ exists u', task_in regions8 ([] ++ (16, u') :: []) s' /\
    if bit [1] (first_page two_pages 0x11234) then u' = two_ustate /\ ext s' = ext two_state
    else commits two_ustate (page_of 0x11234) 1 (obs (ext two_state)) u' (obs (ext s'))) two_state.
Proof.
  apply (page_fault_ok regions8 [] 16 two_ustate [] esr_translation 0x11234 user_cfg);
    [exact two_task_in|by vm_compute|by vm_compute|by vm_compute|by vm_compute| |]; cbn [two_state ext]; rewrite two_obs; [by vm_compute|].
  apply (bool_decide_unpack _). by vm_compute.
Defined.

Lemma page_fault_unreserved_witness : page_fault_handler 8 esr_translation 0x50000 two_state = Ok (TerminateTask 2, two_state).
Proof.
  apply (page_fault_unreserved regions8 [(16, two_ustate)]); [exact two_task_in|by vm_compute|lia|].
  intros x [->|?%elem_of_nil]%elem_of_cons; [by vm_compute; intros [_ ?]|done].
Defined.

Lemma two_chunks : chunks (obs (ext two_state)) <> ∅.
Proof. cbn [two_state ext]. rewrite two_obs. by vm_compute. Qed.

Lemma syscall64_mmap_ok_witness :
  wp (syscall64_mmap 8 0 0x3000 PROT_READ MAP_ANONYMOUS) (fun res s' =>
    (exists us1 us2 p, [(16, two_ustate)] = us1 ++ us2 /\ page_aligned res /\ 0 <= res /\
       highest_free (regs [(16, two_ustate)]) USR_ADDRSPACE_END (mmap_pages 0x3000 * PAGE_SIZE) res /\
       task_in regions8 (us1 ++ (p, new_ustate (mmap_region res 0x3000 PROT_READ)) :: us2) s' /\
       frames (obs (ext s')) = frames (obs (ext two_state)) /\ upages (obs (ext s')) = upages (obs (ext two_state))) \/
    (res = SYSC_MMAP_ERR /\ task_in regions8 [(16, two_ustate)] s' /\ ext s' = ext two_state /\
       forall y, 0 <= y -> y + mmap_pages 0x3000 * PAGE_SIZE <= USR_ADDRSPACE_END -> ~ range_free (regs [(16, two_ustate)]) y (mmap_pages 0x3000 * PAGE_SIZE)))
    two_state.
Proof. apply (syscall64_mmap_ok regions8); [exact two_task_in|exact two_chunks|by vm_compute|by vm_compute]. Defined.

Lemma mmap_hint_leaks_witness :
  wp (syscall64_mmap 8 0x11000 0x1000 PROT_READ MAP_ANONYMOUS) (fun res s' => res = SYSC_MMAP_CFG_NOT_SUPPORTED /\
    exists us1 us2 p x, [(16, two_ustate)] = us1 ++ us2 /\ task_in regions8 (us1 ++ (p, new_ustate (mmap_region x 0x1000 PROT_READ)) :: us2) s') two_state.
Proof.
  apply (mmap_hint_leaks regions8); [exact two_task_in|exact two_chunks|by vm_compute|by vm_compute|by vm_compute|done|by vm_compute| |].
  - exists (16, two_ustate). split; [by left|]. vm_compute. split; by intros H; apply H.
  - exists 0x20000. split; [lia|]. split; [by vm_compute|]. intros p r [[= -> ->]|?%elem_of_nil]%elem_of_cons; [left; by vm_compute|done].
Defined.


Lemma munmap_partial_panics_witness : syscall64_munmap 8 0x11000 (1 * PAGE_SIZE) two_state = Err EPanic.
Proof. apply (munmap_partial_panics regions8 [] 16 two_ustate []); [exact two_task_in|by vm_compute|lia|by vm_compute|by vm_compute|by vm_compute]. Defined.

(** mmap accepts a mapping that is only writable, and the first access to
    it panics, since there is no page configuration for it. *)
Theorem mmap_write_only_panics :
  (let* a := syscall64_mmap 8 0 0x1000 PROT_WRITE MAP_ANONYMOUS in page_fault_handler 8 esr_translation a) two_state = Err EPanic.
Proof. by vm_compute. Qed.

(** mmap of 2^32 + 1 pages succeeds with a region of one page. *)
Theorem mmap_length_truncated :
  match syscall64_mmap 8 0 ((2 ^ 32 + 1) * PAGE_SIZE) PROT_READ MAP_ANONYMOUS two_state with
  | Ok (a, s') => exists o, 0 <= a /\ uregion_is_reserved 8 a PAGE_SIZE s' = Ok (Some o, s') /\
      uregion_is_reserved 8 a (PAGE_SIZE + 1) s' = Ok (None, s')
  | Err _ => False
  end.
Proof. vm_compute. by eexists. Qed.
