(* ===== verification/UregionAccess.v ===== *)
(** * UregionAccess: what the kernel checks before it touches user memory

    uregions_check_access without commit on demand, over any number of
    regions, and what the copies of umemcpy do to the bytes behind the user's
    pages. *)

From Stdlib Require Import ZArith Lia Sorted.
From stdpp Require Import base gmap list.
From iris.proofmode Require Import proofmode.
From S2P Require Import Prelude KMath MmuDc VmContainers VmContainersSpec HeapLogic Rbtree RbtreeTree RbtreeRep RbtreeInsert RbtreeTraverse RbtreeKeys Uregion UregionSpec UregionBlocks UregionCommit UregionTask UregionFree UregionQueries UregionKernel UregionCorrect.

Open Scope Z_scope.

Section Access.
Context {E : Type} `{!Kernel E} `{!KernelLaws E}.
Implicit Types (regions : header udata) (u : ustate) (us : ulist) (s : mst (cell udata) E).

(** The byte at [a] is in a committed page of a region with the flags. *)
Definition permits u (required forbidden : Z) : Prop :=
  Z.land (flags (u_region u)) required = required /\ Z.land (flags (u_region u)) forbidden = 0.
Definition accessible us (required forbidden a : Z) : Prop :=
  exists x, x ∈ us /\ contains (u_region x.2) a /\ permits x.2 required forbidden /\ bit (u_words x.2) (first_page (u_region x.2) a) = true.

Lemma task_unique us o x y a :
  task_ok us o -> x ∈ us -> y ∈ us -> contains (u_region x.2) a -> contains (u_region y.2) a -> x = y.
Proof.
  intros Hok (us1 & us2 & ->)%list_elem_of_split Hy Hx Hc. destruct x as [p u].
  assert (y ∈ us1 ++ us2 -> False) as Hno by (intros Hy'; exact (regs_apart us1 p u us2 y a (to_regions _ _ Hok) Hy' Hx Hc)).
  rewrite elem_of_app elem_of_cons in Hy. rewrite elem_of_app in Hno. destruct Hy as [|[->|]]; tauto.
Qed.

Lemma task_get_region regions us p u s :
  task_in regions us s -> (p, u) ∈ us -> node_ptr p /\ get_region p s = Ok (u_region u, s).
Proof.
  intros (_ & _ & _ & Hm) Hu. apply (get_region_reads regions (regs us)); [|apply elem_of_regs; by exists u].
  destruct Hm as (m1 & m2 & -> & _ & H & _). eapply holds_mono; [exact H|]. apply map_union_subseteq_l.
Qed.

Lemma task_find regions us va s :
  task_in regions us s ->
  exists node, region_find_usrva regions va s = Ok (node, s) /\
    ((exists u, (node, u) ∈ us /\ contains (u_region u) va) \/ (node = 0 /\ forall x, x ∈ us -> ~ contains (u_region x.2) va)).
Proof.
  intros (_ & Hok & _ & Hm). destruct Hm as (m1 & m2 & Em & _ & Hw & _). apply (holds_mono _ _ (mem s)) in Hw; [|rewrite Em; apply map_union_subseteq_l].
  destruct (region_find_spec regions (regs us) va s (to_regions _ _ Hok) Hw) as (node & Hf & Ha). exists node. split; [done|].
  destruct Ha as [(r & (u & -> & Hu)%elem_of_regs & Hc)|[-> Hno]]; [left; by exists u|right]. split; [done|].
  intros [q w] Hx. apply (Hno q). apply elem_of_regs. by exists w.
Qed.

(** One chunk: from a page of a region to its end or the end of the range. *)
Lemma chunk_access regions us p u c end_ required forbidden s :
  task_in regions us s -> (p, u) ∈ us -> contains (u_region u) c -> page_aligned c -> page_aligned end_ -> c < end_ ->
  let ce := Z.min end_ (rend (u_region u)) in
  exists r n, unode_check_access regions p c end_ required forbidden false s = Ok ((r, n, []), s) /\
    page_aligned ce /\ c + PAGE_SIZE <= ce <= end_ /\
    (r = UREGION_ACCESS_OK -> n = ce) /\ (r = UREGION_ACCESS_OK <-> forall a, c <= a < ce -> accessible us required forbidden a).
Proof.
  intros Ht Hu Hc Hca Hea Hlt ce. pose proof Ht as (_ & Hok & _). destruct (task_get_region _ _ _ _ _ Ht Hu) as [[Hp0 _] Hg].
  pose proof (co_region _ _ (to_coherent _ _ Hok _ Hu)) as Hr. cbn in Hr. pose proof (region_end_ok _ Hr) as (Er & Hs & He). destruct (page_aligned_end _ Hr) as [_ Hra].
  assert (page_aligned ce) as Hcea by (unfold ce; destruct (Z.min_spec end_ (rend (u_region u))) as [[_ ->]|[_ ->]]; done).
  destruct Hc as [Hc1 Hc2]. assert (c < ce) as Hcc by (unfold ce; lia).
  assert (c + PAGE_SIZE <= ce) as Hpg.
  { unfold page_aligned in *. pose proof (Z.div_mod c PAGE_SIZE). pose proof (Z.div_mod ce PAGE_SIZE). unfold PAGE_SIZE in *. lia. }
  assert (forall a, c <= a < ce -> contains (u_region u) a) as Hin by (intros a Ha; unfold contains, ce in *; lia).
  assert (forall a, c <= a < ce -> accessible us required forbidden a <-> permits u required forbidden /\ bit (u_words u) (first_page (u_region u) a) = true) as Hacc.
  { intros a Ha. split; [|intros [Hp Hb]; exists (p, u); repeat (split; [by auto|]); done].
    intros (x & Hx & Hcx & Hp & Hb). by pose proof (task_unique us _ x (p, u) a Hok Hx Hu Hcx (Hin a Ha)) as ->. }
  unfold unode_check_access. destruct (Z.eqb_spec p 0); [done|]. unfold bind at 1. rewrite Hg Er. fold ce.
  destruct (decide (permits u required forbidden)) as [Hp|Hp].
  - destruct Hp as [Hp1 Hp2]. rewrite Hp1 Hp2 Z.eqb_refl. cbn [negb orb Z.eqb]. rewrite (wrap_small 64 (ce - c)); [|unfold u_range, ce in *; lia].
    apply list_elem_of_split in Hu as (us1 & us2 & ->).
    destruct (committed_aligned regions us1 p u us2 c (ce - c) s Ht Hca) as (b & Hb & Hiff); [lia|unfold covered, ce in *; lia|].
    unfold bind at 1. rewrite Hb. destruct b; cbn [negb].
    + exists UREGION_ACCESS_OK, ce. split; [done|]. split; [done|]. split; [unfold ce in *; lia|]. split; [done|]. split; [|done]. intros _ a Ha.
      apply Hacc; [done|]. split; [by split|]. apply Hiff; [done|lia].
    + exists UREGION_ACCESS_NOT_COMMITTED, 0. split; [done|]. split; [done|]. split; [unfold ce in *; lia|]. split; [done|]. split; [done|]. intros Hall.
      assert (false = true) as [=]. apply Hiff. intros a Ha. apply Hacc; [lia|]. apply Hall. lia.
  - assert (negb (Z.land (flags (u_region u)) required =? required) || negb (Z.land (flags (u_region u)) forbidden =? 0) = true) as ->.
    { apply orb_true_iff. rewrite !negb_true_iff !Z.eqb_neq. unfold permits in Hp. destruct (decide (Z.land (flags (u_region u)) required = required)); tauto. }
    exists UREGION_ACCESS_NO_PERMISSION, 0. split; [done|]. split; [done|]. split; [unfold ce in *; lia|]. split; [done|]. split; [done|].
    intros Hall. destruct Hp. by apply (Hacc c ltac:(lia)), Hall.
Qed.

Lemma access_loop regions us end_ required forbidden s : forall fuel c acc,
  task_in regions us s -> page_aligned c -> page_aligned end_ -> (Z.to_nat ((end_ - c) / PAGE_SIZE) < fuel)%nat ->
  exists r areas, check_access_loop fuel regions c end_ required forbidden false acc s = Ok ((r, areas), s) /\
    (r = UREGION_ACCESS_OK <-> forall a, c <= a < end_ -> accessible us required forbidden a) /\ (r = UREGION_ACCESS_OK -> areas = acc).
Proof.
  induction fuel as [|fuel IH]; intros c acc Ht Hca Hea Hf; [lia|]. cbn [check_access_loop]. destruct (Z.leb_spec end_ c) as [Hle|Hlt].
  { exists UREGION_ACCESS_OK, acc. split; [done|]. split; [|done]. split; [intros _ a; lia|done]. }
  destruct (task_find regions us c s Ht) as (node & Hfind & Ha). unfold bind at 1. rewrite Hfind. destruct Ha as [(u & Hu & Hc)|[-> Hno]].
  - destruct (chunk_access regions us node u c end_ required forbidden s Ht Hu Hc Hca Hea Hlt) as (r & n & Hrun & Hcea & Hbnd & Hn & Hiff).
    set (ce := Z.min end_ (rend (u_region u))) in *. assert (c < ce <= end_) as Hcc by (unfold PAGE_SIZE in Hbnd; lia). unfold bind at 1. rewrite Hrun. destruct (Z.eqb_spec r UREGION_ACCESS_OK) as [->|Hne]; cbn [negb].
    + rewrite app_nil_r (Hn eq_refl). assert (forall a, c <= a < ce -> accessible us required forbidden a) as Hchunk by (by apply Hiff).
      destruct (IH ce acc Ht Hcea Hea) as (r & areas & Hr & Hr1 & Hr2).
      { assert ((end_ - ce) / PAGE_SIZE < (end_ - c) / PAGE_SIZE); [|assert (0 <= (end_ - ce) / PAGE_SIZE) by (apply Z.div_pos; unfold PAGE_SIZE; lia); lia].
        assert ((end_ - ce) / PAGE_SIZE + 1 <= (end_ - c) / PAGE_SIZE); [|lia]. rewrite -Z.div_add //. apply Z.div_le_mono; unfold PAGE_SIZE in *; lia. }
      exists r, areas. split; [done|]. split; [|done]. rewrite Hr1. split; intros H a Hin; [|apply H; lia].
      destruct (decide (a < ce)); [apply Hchunk; lia|apply H; lia].
    + exists r, []. split; [done|]. split; [|done]. split; [done|]. intros H. apply Hiff. intros a Hin. apply H. lia.
  - exists UREGION_ACCESS_NOT_RESERVED, []. split; [done|]. split; [|done]. split; [done|]. intros H. exfalso.
    destruct (H c ltac:(lia)) as (x & Hx & Hcx & _). exact (Hno x Hx Hcx).
Qed.

(** The pages that a range of bytes touches. *)
Definition range_lo (start : Z) : Z := start - start mod PAGE_SIZE.
Definition range_hi (start size : Z) : Z := (start + size + PAGE_SIZE - 1) / PAGE_SIZE * PAGE_SIZE.

Lemma check_access_spec regions us start size required forbidden s :
  task_in regions us s -> 0 <= start -> 0 <= size -> start + size < 2 ^ 63 ->
  exists r, uregions_check_access regions start size required forbidden false s = Ok (r, s) /\
    (r = UREGION_ACCESS_OK <-> forall a, range_lo start <= a < range_hi start size -> accessible us required forbidden a).
Proof.
  intros Ht Hst Hsz He. unfold uregions_check_access. rewrite (wrap_small 64 (start + size)); [|unfold u_range; lia].
  assert (align_up (start + size) PAGE_ALIGN = range_hi start size) as ->.
  { change PAGE_ALIGN with (2 ^ 12). rewrite align_up_pow2; [done|lia|lia|lia]. }
  assert (align_down start PAGE_ALIGN = range_lo start) as ->.
  { change PAGE_ALIGN with (2 ^ 12). rewrite align_down_pow2; [done|unfold u_range; lia|lia]. }
  destruct (access_loop regions us (range_hi start size) required forbidden s (S (Z.to_nat ((range_hi start size - range_lo start) / PAGE_SIZE))) (range_lo start) [] Ht)
    as (r & areas & Hrun & Hiff & Hok); [unfold page_aligned, range_lo; rewrite Zminus_mod Z.mod_mod // Z.sub_diag; done|by apply Z.mod_mul|lia|].
  exists r. split; [|done]. unfold bind at 1. rewrite Hrun. destruct (Z.eqb_spec r UREGION_ACCESS_OK) as [->|Hne]; [|done]. by rewrite (Hok eq_refl).
Qed.
End Access.

(** ** Copies *)

(** memcpy between areas that do not overlap moves the bytes and nothing else. *)
Class CopyLaws (E : Type) `{!Kernel E} `{!KernelLaws E} : Type := {
  kbyte : E -> Z -> Z;
  memcpy_law e dst src n : 0 < n -> dst + n <= src \/ src + n <= dst ->
    exists e', k_memcpy dst src n e = Ok (tt, e') /\ obs e' = obs e /\
      forall x, kbyte e' x = if bool_decide (dst <= x < dst + n) then kbyte e (src + (x - dst)) else kbyte e x
}.

(** The kernel's address of the byte behind a user address. *)
Definition kaddr (o : kobs) (a : Z) : Z :=
  match upages o !! (a - a mod PAGE_SIZE) with Some (pa, _) => kpa_to_kva (pa + a mod PAGE_SIZE) | None => 0 end.

Lemma block_kaddr u o b a :
  coherent u o -> held (u_blocks u) b -> within b a -> kaddr o a = physical_address b + (a - user_address b) + KERNEL_BASE.
Proof.
  intros Hu Hb Hw. pose proof Hb as [q Hq]. pose proof (blocks_elem _ _ _ (co_blocks _ _ Hu) Hq) as [(Hal & _) (_ & Hpa & Hpe)].
  unfold kaddr, within, pend in *. pose proof (Z.div_mod a PAGE_SIZE). pose proof (Z.mod_pos_bound a PAGE_SIZE). pose proof (Z.div_mod (user_address b) PAGE_SIZE).
  unfold page_aligned in Hal. set (i := a / PAGE_SIZE - user_address b / PAGE_SIZE).
  assert (a - a mod PAGE_SIZE = user_address b + i * PAGE_SIZE) as -> by (unfold i, PAGE_SIZE in *; lia).
  destruct (co_mapped _ _ Hu b i Hb) as (cfg & _ & ->); [unfold i, PAGE_SIZE in *; lia|].
  rewrite kpa_to_kva_add; [unfold i, PAGE_SIZE in *; lia|]. unfold u_range, i, PAGE_SIZE in *. lia.
Qed.

Section Copy.
Context {E : Type} `{!Kernel E} `{!KernelLaws E} `{!CopyLaws E}.
Implicit Types (regions : header udata) (u : ustate) (us : ulist) (s : mst (cell udata) E) (e : E).

(** The bytes [0 .. off) were moved, each from its place to its place. *)
Definition moved (to from : Z -> Z) (off : Z) e e' : Prop :=
  obs e' = obs e /\ (forall i, 0 <= i < off -> kbyte e' (to i) = kbyte e (from i)) /\
  (forall x, (forall i, 0 <= i < off -> x <> to i) -> kbyte e' x = kbyte e x).

Lemma moved_step (to from : Z -> Z) size off n e e1 :
  (forall i j, 0 <= i < size -> 0 <= j < size -> to i = to j -> i = j) ->
  (forall i j, 0 <= i < size -> 0 <= j < size -> to i <> from j) ->
  0 <= off -> 0 < n -> off + n <= size ->
  (forall j, 0 <= j < n -> to (off + j) = to off + j /\ from (off + j) = from off + j) ->
  moved to from off e e1 -> exists e2, k_memcpy (to off) (from off) n e1 = Ok (tt, e2) /\ moved to from (off + n) e e2.
Proof.
  intros Hinj Hdis Ho Hn Hs Hlin (Eo & Hin & Hout).
  destruct (memcpy_law e1 (to off) (from off) n Hn) as (e2 & Hrun & Eo2 & Hb).
  { destruct (decide (to off + n <= from off)) as [|H1]; [by left|]. destruct (decide (from off + n <= to off)) as [|H2]; [by right|]. exfalso.
    set (x := Z.max (to off) (from off)). apply (Hdis (off + (x - to off)) (off + (x - from off))); [unfold x; lia|unfold x; lia|].
    destruct (Hlin (x - to off)) as [-> _]; [unfold x; lia|]. destruct (Hlin (x - from off)) as [_ ->]; [unfold x; lia|]. lia. }
  exists e2. split; [done|]. split; [by rewrite Eo2|]. split.
  - intros i Hi. rewrite Hb. destruct (decide (i < off)) as [Hlt|Hge].
    + rewrite bool_decide_false; [by apply Hin; lia|]. intros Hx. destruct (Hlin (to i - to off)) as [Ht _]; [lia|].
      assert (i = off + (to i - to off)); [apply Hinj; lia|lia].
    + destruct (Hlin (i - off)) as [Ht Hf]; [lia|]. replace (off + (i - off)) with i in Ht, Hf by lia. rewrite bool_decide_true; [|lia].
      replace (from off + (to i - to off)) with (from i) by lia. apply Hout. intros j Hj Heq. apply (Hdis j i); [lia|lia|done].
  - intros x Hx. rewrite Hb. rewrite bool_decide_false; [apply Hout; intros i Hi; apply Hx; lia|].
    intros Hr. destruct (Hlin (x - to off)) as [Ht _]; [lia|]. apply (Hx (off + (x - to off))); [lia|]. rewrite Ht. lia.
Qed.

Lemma moved_none to from e : moved to from 0 e e.
Proof. split; [done|]. split; [intros i; lia|done]. Qed.

Lemma accessible_block us o req forb a :
  task_ok us o -> accessible us req forb a ->
  exists us1 p u us2 q b, us = us1 ++ (p, u) :: us2 /\ contains (u_region u) a /\ (q, b) ∈ u_blocks u /\ within b a /\ coherent u o.
Proof.
  intros Hok ([p u] & Hx & Hc & _ & Hb). pose proof (to_coherent _ _ Hok _ Hx) as Hu. cbn in *. apply (co_bits _ _ Hu a Hc) in Hb as (b & [q Hq] & Hw).
  apply list_elem_of_split in Hx as (us1 & us2 & ->). by exists us1, p, u, us2, q, b.
Qed.

(** The loop of umemcpy, for both directions. *)
Section Loop.
Context (regions : header udata) (us : ulist) (req forb usr buf size : Z) (d : bool) (o : kobs).
Context (Hok : task_ok us o) (Hacc : forall i, 0 <= i < size -> accessible us req forb (usr + i)).
Context (Husr : 0 <= usr /\ usr + size < 2 ^ 63) (Hbuf : 0 <= buf /\ buf + size <= 2 ^ 64).

Definition to (i : Z) : Z := if d then kaddr o (usr + i) else buf + i.
Definition from (i : Z) : Z := if d then buf + i else kaddr o (usr + i).

Context (Hinj : forall i j, 0 <= i < size -> 0 <= j < size -> to i = to j -> i = j).
Context (Hdis : forall i j, 0 <= i < size -> 0 <= j < size -> to i <> from j).

Definition copy_body (knl_ptr off chunk : Z) : M E unit :=
  if d then k_memcpy knl_ptr (wrap64 (buf + off)) chunk else k_memcpy (wrap64 (buf + off)) knl_ptr chunk.

Lemma copy_loop fuel : forall off e s,
  (Z.to_nat (size - off) < fuel)%nat -> 0 <= off <= size -> obs e = o -> moved to from off e (ext s) -> holds (task regions us) (mem s) ->
  exists e', usr_loop fuel regions usr size copy_body off s = Ok (tt, MkSt (mem s) e') /\ moved to from size e e'.
Proof.
  induction fuel as [|fuel IH]; intros off e s Hf Hoff Heo Hmv Hm; [lia|]. cbn [usr_loop]. destruct (Z.leb_spec size off) as [Hle|Hlt].
  { assert (off = size) as -> by lia. exists (ext s). split; [by destruct s|done]. }
  rewrite (wrap_small 64 (usr + off)); [|unfold u_range; lia].
  destruct (accessible_block us o req forb (usr + off) Hok (Hacc off ltac:(lia))) as (us1 & p & u & us2 & q & b & Eus & Hc & Hq & Hw & Hu).
  unfold bind at 1. rewrite (usr_block_run regions us1 p u us2 q b (usr + off) s); [|rewrite -Eus; apply Hok|apply Hu|done|done|done|by rewrite -Eus].
  assert (held (u_blocks u) b) as Hb by by exists q. pose proof (blocks_elem _ _ _ (co_blocks _ _ Hu) Hq) as [_ (_ & Hpa & Hpe)].
  pose proof Hw as [Hw1 Hw2]. unfold pend in Hw2. set (n := Z.min (pend b - (usr + off)) (size - off)).
  assert (0 < n /\ off + n <= size) as [Hn Hns] by (unfold n, pend; lia).
  assert (forall j, 0 <= j < n -> kaddr o (usr + (off + j)) = kaddr o (usr + off) + j) as Hlin.
  { intros j Hj. rewrite (block_kaddr u o b (usr + off)) // (block_kaddr u o b); [lia|done|done|]. unfold within, n in *. lia. }
  assert (kpa_to_kva (wrap64 (physical_address b + (usr + off - user_address b))) = kaddr o (usr + off)) as ->.
  { rewrite (block_kaddr u o b) // wrap_small; [|unfold u_range; lia]. apply kpa_to_kva_add. unfold u_range. lia. }
  destruct (moved_step to from size off n e (ext s) Hinj Hdis) as (e2 & Hrun & Hmv2); [lia|done|done| |done|].
  { intros j Hj. unfold to, from. destruct d; rewrite Hlin //; lia. }
  assert (copy_body (kaddr o (usr + off)) off n (ext s) = Ok (tt, e2)) as Hbody.
  { unfold copy_body. rewrite (wrap_small 64 (buf + off)); [|unfold u_range; lia]. unfold to, from in Hrun. by destruct d. }
  unfold bind at 1, on_ext. rewrite Hbody. destruct (IH (off + n) e (MkSt (mem s) e2)) as (e' & Hr & Hmv'); [lia|lia|done|done|done|].
  exists e'. by split.
Qed.
End Loop.

(** The kernel's buffer and the user's pages do not share a byte, nor do two
    pages of the user. *)
Definition apart_from_user (o : kobs) (usr buf size : Z) : Prop :=
  (forall i j, 0 <= i < size -> 0 <= j < size -> kaddr o (usr + i) <> buf + j) /\
  (forall i j, 0 <= i < size -> 0 <= j < size -> kaddr o (usr + i) = kaddr o (usr + j) -> i = j).

Lemma umemcpy_spec regions us dst src size req forb (d : bool) s :
  let usr := if d then dst else src in
  let buf := if d then src else dst in
  task_in regions us s -> 0 <= usr -> 0 <= size -> usr + size < 2 ^ 63 -> 0 <= buf -> buf + size <= 2 ^ 64 ->
  apart_from_user (obs (ext s)) usr buf size ->
  exists r s', umemcpy regions dst src size req forb false d s = Ok (r, s') /\ task_in regions us s' /\
    (r = UREGION_ACCESS_OK <-> forall a, range_lo usr <= a < range_hi usr size -> accessible us req forb a) /\
    if bool_decide (r = UREGION_ACCESS_OK)
    then moved (to usr buf d (obs (ext s))) (from usr buf d (obs (ext s))) size (ext s) (ext s') else s' = s.
Proof.
  intros usr buf Ht Hu Hs Hus Hb Hbs [Hdis Hinj]. pose proof Ht as (H0 & Hok & Hf & Hm).
  destruct (check_access_spec regions us usr size req forb s Ht Hu Hs Hus) as (r & Hrun & Hiff). unfold umemcpy. fold usr. unfold bind at 1. rewrite Hrun.
  destruct (Z.eqb_spec r UREGION_ACCESS_OK) as [->|Hne]; cbn [negb].
  - assert (forall i, 0 <= i < size -> accessible us req forb (usr + i)) as Hacc.
    { intros i Hi. apply Hiff; [done|]. unfold range_lo, range_hi. pose proof (Z.mod_pos_bound usr PAGE_SIZE).
      pose proof (Z.div_mod (usr + size + PAGE_SIZE - 1) PAGE_SIZE). pose proof (Z.mod_pos_bound (usr + size + PAGE_SIZE - 1) PAGE_SIZE). unfold PAGE_SIZE in *. lia. }
    destruct (copy_loop regions us req forb usr buf size d (obs (ext s)) Hok Hacc ltac:(lia) ltac:(lia)) with (fuel := S (Z.to_nat size)) (off := 0) (e := ext s) (s := s)
      as (e' & Hl & Hmv); [intros i j Hi Hj; unfold to; destruct d; [by apply Hinj|lia]| |lia|lia|done|apply moved_none|done|].
    { intros i j Hi Hj. unfold to, from. destruct d; [by apply Hdis|]. intros Heq. by apply (Hdis j i). }
    exists UREGION_ACCESS_OK, (MkSt (mem s) e'). split.
    { unfold bind at 1. unfold copy_body, buf in Hl. unfold usr in *. destruct d; by rewrite Hl. }
    pose proof Hmv as (Eo & _). split; [split; [done|]; cbn; unfold fresh; rewrite Eo; done|]. split; [by rewrite Hiff|]. by rewrite bool_decide_true.
  - exists r, s. split; [done|]. split; [done|]. split; [done|]. by rewrite bool_decide_false.
Qed.
End Copy.
