(* ===== verification/UregionCopy.v ===== *)
(** * UregionCopy: the kernel reads and writes user memory

    The theorems on uregions_check_access and umemcpy, and a kernel with a
    memory of bytes that keeps [KernelLaws] and [CopyLaws]. *)

From Stdlib Require Import ZArith Lia Sorted.
From stdpp Require Import base gmap list.
From iris.proofmode Require Import proofmode.
From S2P Require Import Prelude KMath MmuDc VmContainers VmContainersSpec HeapLogic Rbtree RbtreeTree RbtreeRep RbtreeInsert RbtreeTraverse RbtreeKeys Uregion UregionSpec UregionBlocks UregionCommit UregionTask UregionFree UregionQueries UregionKernel UregionCorrect UregionAccess.

Open Scope Z_scope.

Section Theorems.
Context {E : Type} `{!Kernel E} `{!KernelLaws E}.
Implicit Types (regions : header udata) (us : ulist) (s : mst (cell udata) E).

(** Without commit on demand, uregions_check_access changes nothing and
    answers UREGION_ACCESS_OK exactly when every byte of every page that the
    range touches is in a committed page of a region with the required flags
    and none of the forbidden ones, however many regions the range spans. *)
Theorem uregions_check_access_ok regions us start size required forbidden s :
  task_in regions us s -> 0 <= start -> 0 <= size -> start + size < 2 ^ 63 ->
  exists r, uregions_check_access regions start size required forbidden false s = Ok (r, s) /\
    (r = UREGION_ACCESS_OK <-> forall a, range_lo start <= a < range_hi start size -> accessible us required forbidden a).
Proof. apply check_access_spec. Qed.

Context `{!CopyLaws E}.

(** C32: umemcpy without commit on demand, in either direction, with a kernel
    buffer apart from the user's frames: when some byte of the touched pages is not accessible it
    returns the code of the check and changes nothing; else it moves each byte
    between the buffer and the frame behind its user address, however the
    range is split into blocks and adjacent regions, and changes no other
    byte. *)
Theorem umemcpy_ok regions us dst src size required forbidden (knl_to_usr : bool) s :
  let usr := if knl_to_usr then dst else src in
  let buf := if knl_to_usr then src else dst in
  let o := obs (ext s) in
  task_in regions us s -> 0 <= usr -> 0 <= size -> usr + size < 2 ^ 63 -> 0 <= buf -> buf + size <= 2 ^ 64 ->
  apart_from_user o usr buf size ->
  exists r s', umemcpy regions dst src size required forbidden false knl_to_usr s = Ok (r, s') /\ task_in regions us s' /\
    (r = UREGION_ACCESS_OK <-> forall a, range_lo usr <= a < range_hi usr size -> accessible us required forbidden a) /\
    if bool_decide (r = UREGION_ACCESS_OK)
    then moved (to usr buf knl_to_usr o) (from usr buf knl_to_usr o) size (ext s) (ext s') else s' = s.
Proof. apply umemcpy_spec. Qed.

(** What the kernel writes to a task it reads back: a copy from a kernel
    buffer to accessible user memory and a copy from there to another buffer
    both succeed, and the second buffer holds the bytes of the first. *)
Theorem umemcpy_roundtrip regions us usr buf1 buf2 size required forbidden s :
  task_in regions us s -> 0 <= usr -> 0 <= size -> usr + size < 2 ^ 63 ->
  0 <= buf1 -> buf1 + size <= 2 ^ 64 -> 0 <= buf2 -> buf2 + size <= 2 ^ 64 ->
  apart_from_user (obs (ext s)) usr buf1 size -> apart_from_user (obs (ext s)) usr buf2 size ->
  (forall a, range_lo usr <= a < range_hi usr size -> accessible us required forbidden a) ->
  exists s', (let* r1 := umemcpy regions usr buf1 size required forbidden false true in
              let* r2 := umemcpy regions buf2 usr size required forbidden false false in ret (r1, r2)) s
             = Ok ((UREGION_ACCESS_OK, UREGION_ACCESS_OK), s') /\ task_in regions us s' /\
    forall i, 0 <= i < size -> kbyte (ext s') (buf2 + i) = kbyte (ext s) (buf1 + i).
Proof.
  intros Ht Hu Hs Hus H1 H1s H2 H2s Ha1 Ha2 Hacc.
  destruct (umemcpy_spec regions us usr buf1 size required forbidden true s Ht Hu Hs Hus H1 H1s Ha1) as (r1 & s1 & Hr1 & Ht1 & Hok1 & Hm1).
  assert (r1 = UREGION_ACCESS_OK) as -> by by apply Hok1. rewrite bool_decide_true // in Hm1. destruct Hm1 as (Eo1 & Hin1 & _). rewrite -Eo1 in Ha2.
  destruct (umemcpy_spec regions us buf2 usr size required forbidden false s1 Ht1 Hu Hs Hus H2 H2s Ha2) as (r2 & s2 & Hr2 & Ht2 & Hok2 & Hm2).
  assert (r2 = UREGION_ACCESS_OK) as -> by by apply Hok2. rewrite bool_decide_true // in Hm2. destruct Hm2 as (_ & Hin2 & _).
  exists s2. unfold bind. rewrite Hr1 Hr2. split; [done|]. split; [done|]. intros i Hi.
  specialize (Hin2 i Hi). specialize (Hin1 i Hi). unfold to, from in Hin1, Hin2. rewrite Eo1 in Hin2. congruence.
Qed.
End Theorems.

(** ** A kernel with bytes *)

(** An operation that does not touch the bytes. *)
Definition keep {A} (c : M kobs A) : M (kobs * (Z -> Z)) A :=
  fun e => match c e.1 with Ok (a, o) => Ok (a, (o, e.2)) | Err x => Err x end.

Definition put (dst n : Z) (byte : Z -> Z) : M (kobs * (Z -> Z)) unit :=
  fun e => Ok (tt, (e.1, fun x => if bool_decide (dst <= x < dst + n) then byte (x - dst) else e.2 x)).

#[export] Instance byte_kernel : Kernel (kobs * (Z -> Z)) := {
  kmalloc n := keep (kmalloc n);
  kfree p := keep (kfree p);
  raw_kmalloc n z := keep (raw_kmalloc n z);
  raw_kfree p := keep (raw_kfree p);
  k_mmu_map va pa n cfg := keep (k_mmu_map va pa n cfg);
  k_mmu_unmap va n := keep (k_mmu_unmap va n);
  k_memcpy dst src n e := put dst n (fun i => e.2 (src + i)) e;
  k_memzero dst n := put dst n (fun _ => 0);
  get_byte a e := Ok (e.2 a, e);
  put_byte a b := put a 1 (fun _ => b);
  cache_flush_range _ _ := ret tt
}.

Lemma keep_ok {A} (c : M kobs A) e a o : c e.1 = Ok (a, o) -> keep c e = Ok (a, (o, e.2)).
Proof. unfold keep. by intros ->. Qed.

#[export] Instance byte_laws : KernelLaws (kobs * (Z -> Z)).
Proof.
  refine {| obs := fun e => obs e.1 |}.
  - intros e p. apply chunks_ptr.
  - intros e n H. destruct (kmalloc_ok e.1 n H) as (p & o & Hr%keep_ok & Hp & Ho). by exists p, (o, e.2).
  - intros e p H1 H2. destruct (kfree_ok e.1 p H1 H2) as (o & Hr%keep_ok & Ho). by exists (o, e.2).
  - intros e n z H1 H2. destruct (raw_kmalloc_ok e.1 n z H1 H2) as (pa & fr & o & Hr%keep_ok & Ho). by exists pa, fr, (o, e.2).
  - intros e pa n H. destruct (raw_kfree_ok e.1 pa n H) as (fr & o & Hr%keep_ok & Ho). by exists fr, (o, e.2).
  - intros e va pa n cfg H1 H2 H3 H4. destruct (mmu_map_law e.1 va pa n cfg H1 H2 H3 H4) as (o & Hr%keep_ok & Ho). by exists (o, e.2).
  - intros e va n H1 H2 H3. destruct (mmu_unmap_law e.1 va n H1 H2 H3) as (o & Hr%keep_ok & Ho). by exists (o, e.2).
Defined.

#[export] Instance byte_copies : CopyLaws (kobs * (Z -> Z)).
Proof. refine {| kbyte := fun e => e.2 |}. intros e dst src n _ _. by eexists. Defined.

(** The task with two pages of which one is committed, over a memory whose
    bytes at [0x8000] on count up. *)
Definition byte_state : mst (cell udata) (kobs * (Z -> Z)) :=
  MkSt (mem two_state) (two_kernel, fun a => if bool_decide (0x8000 <= a < 0x8100) then a - 0x8000 else 0).

Lemma byte_task_in : task_in regions8 [(16, two_ustate)] byte_state.
Proof. exact two_task_in. Qed.

Lemma first_page_accessible a : 0x10000 <= a < 0x11000 -> accessible [(16, two_ustate)] F_WRITE 0 a.
Proof.
  intros Ha. assert (contains two_pages a) as Hc by (unfold contains, rend, PAGE_SIZE; cbn; lia). exists (16, two_ustate).
  split; [by left|]. split; [done|]. split; [by vm_compute|]. destruct (two_page a Hc) as [H1 H2]. apply two_bits; [done|]. apply H1. lia.
Qed.

Lemma first_page_kaddr i : 0 <= i < 4096 -> kaddr two_kernel (0x10000 + i) = 0x1000 + i + KERNEL_BASE.
Proof.
  intros Hi. unfold kaddr. assert ((0x10000 + i) mod PAGE_SIZE = i) as ->.
  { change 0x10000 with (16 * PAGE_SIZE). rewrite Z.add_comm Z.mod_add // Z.mod_small //. }
  replace (0x10000 + i - i) with 0x10000 by lia. change (upages two_kernel !! 0x10000) with (Some (0x1000, user_cfg)).
  cbn beta iota. apply kpa_to_kva_add. unfold u_range. lia.
Qed.

Lemma first_page_apart buf n : 0 <= n <= 4096 -> buf + n <= KERNEL_BASE -> apart_from_user (obs (ext byte_state)) 0x10000 buf n.
Proof.
  intros Hn Hb. change (obs (ext byte_state)) with (obs two_kernel). rewrite two_obs.
  split; intros i j Hi Hj; rewrite !first_page_kaddr; lia.
Qed.

Lemma uregions_check_access_ok_witness :
  exists r, uregions_check_access 8 0x10f00 0x200 F_WRITE 0 false two_state = Ok (r, two_state) /\
    (r = UREGION_ACCESS_OK <-> forall a, range_lo 0x10f00 <= a < range_hi 0x10f00 0x200 -> accessible [(16, two_ustate)] F_WRITE 0 a).
Proof. apply (uregions_check_access_ok regions8); [exact two_task_in|lia|lia|lia]. Defined.

Lemma umemcpy_ok_witness :
  exists r s', umemcpy 8 0x10000 0x8000 256 F_WRITE 0 false true byte_state = Ok (r, s') /\ task_in regions8 [(16, two_ustate)] s' /\
    (r = UREGION_ACCESS_OK <-> forall a, range_lo 0x10000 <= a < range_hi 0x10000 256 -> accessible [(16, two_ustate)] F_WRITE 0 a) /\
    if bool_decide (r = UREGION_ACCESS_OK)
    then moved (to 0x10000 0x8000 true (obs (ext byte_state))) (from 0x10000 0x8000 true (obs (ext byte_state))) 256 (ext byte_state) (ext s')
    else s' = byte_state.
Proof.
  apply (umemcpy_ok regions8 [(16, two_ustate)] 0x10000 0x8000 256 F_WRITE 0 true byte_state); [exact byte_task_in|lia|lia|lia|lia|lia|].
  apply first_page_apart; [lia|by vm_compute].
Defined.

Lemma umemcpy_roundtrip_witness :
  exists s', (let* r1 := umemcpy 8 0x10000 0x8000 256 F_WRITE 0 false true in
              let* r2 := umemcpy 8 0x9000 0x10000 256 F_WRITE 0 false false in ret (r1, r2)) byte_state
             = Ok ((UREGION_ACCESS_OK, UREGION_ACCESS_OK), s') /\ task_in regions8 [(16, two_ustate)] s' /\
    forall i, 0 <= i < 256 -> kbyte (ext s') (0x9000 + i) = kbyte (ext byte_state) (0x8000 + i).
Proof.
  apply (umemcpy_roundtrip regions8 [(16, two_ustate)] 0x10000 0x8000 0x9000 256 F_WRITE 0 byte_state);
    [exact byte_task_in|lia|lia|lia|lia|lia|lia|lia|apply first_page_apart; [lia|by vm_compute]|apply first_page_apart; [lia|by vm_compute]|].
  intros a Ha. apply first_page_accessible. by vm_compute in Ha |- *.
Defined.

(** The runs themselves, on the model. *)
Example copy_to_task_runs :
  match umemcpy 8 0x10000 0x8000 256 F_WRITE 0 false true byte_state with
  | Ok (r, s') => (r, (ext s').2 (0x1000 + 7 + KERNEL_BASE), (ext s').2 (0x1000 + 256 + KERNEL_BASE)) = (UREGION_ACCESS_OK, 7, 0)
  | Err _ => False
  end.
Proof. by vm_compute. Qed.
