(* ===== verification/HeapBlocks.v ===== *)
(** * HeapBlocks: memories of words and blocks of them

    [owns g] has the cells of [g]; [array p ws] the 64-bit words [ws] from [p]
    on.  The rules for blocks that an allocator hands out and takes back. *)

From Stdlib Require Import ZArith Lia.
From stdpp Require Import base gmap list.
From iris.proofmode Require Import proofmode.
From S2P Require Import Prelude HeapLogic.

Open Scope Z_scope.

Section Owns.
Context {C : Type}.
Implicit Types (g m : gmap Z C).

Program Definition owns (g : gmap Z C) : heapProp C := HeapProp (fun m => g ⊆ m) _.
Next Obligation. intros g m1 m2 H Hs. by etransitivity. Qed.

Lemma owns_union g1 g2 : g1 ##ₘ g2 -> owns (g1 ∪ g2) ⊣⊢ owns g1 ∗ owns g2.
Proof.
  intros Hd. split. intros m. split.
  - intros H. change (g1 ∪ g2 ⊆ m) in H. exists g1, (m ∖ g1). assert (g1 ⊆ m) as H1 by (etransitivity; [apply map_union_subseteq_l|exact H]).
    split; [by rewrite map_difference_union|]. split; [by apply map_disjoint_difference_r1|]. split; [apply (reflexivity (R := (⊆)))|]. change (g2 ⊆ m ∖ g1).
    apply map_subseteq_spec. intros k x Hx. apply lookup_difference_Some. split; [|by eapply map_disjoint_Some_r].
    eapply lookup_weaken; [|exact H]. by apply lookup_union_Some_r.
  - intros (m1 & m2 & -> & Hd' & H1 & H2). change (g1 ∪ g2 ⊆ m1 ∪ m2). transitivity (m1 ∪ g2); [apply map_union_mono_r; [exact (map_disjoint_weaken_r _ _ _ Hd' H2)|exact H1]|by apply map_union_mono_l].
Qed.

Lemma owns_singleton p (c : C) : owns {[p := c]} ⊣⊢ p ↦ c.
Proof. split. intros m. cbn. apply map_singleton_subseteq_l. Qed.

Lemma owns_empty : ⊢ owns (∅ : gmap Z C).
Proof. split. intros m _. apply map_empty_subseteq. Qed.

Context {X : Type} (ok : X -> gset Z -> Prop) `{!Antitone ok}.

(** The other state hands out a block of cells that are not in use. *)
Lemma uwp_new_block (e : M X Z) p (g : Z -> gmap Z C) x x' (Φ : Z -> X -> heapProp C) :
  e x = Ok (p, x') -> (forall d, ok x d -> dom (g p) ## d /\ ok x' (dom (g p) ∪ d)) ->
  (owns (g p) -∗ Φ p x') ⊢ uwp ok (let* p := on_ext e in on_mem (modify (fun m => g p ∪ m)) ;; ret p) x Φ.
Proof.
  intros E Hnew. split. intros m H f Hd Hok. destruct (Hnew _ Hok) as [Hp Hok']. apply map_disjoint_dom in Hp.
  apply map_disjoint_union_r in Hp as [Hpm Hpf]. exists p, (m ∪ g p), x'. unfold bind, on_ext, on_mem. cbn. rewrite E. cbn.
  split; [by rewrite map_union_assoc (map_union_comm m)|]. split; [by apply map_disjoint_union_l|].
  split; [|apply H; [done|apply (reflexivity (R := (⊆)))]]. eapply antitone; [exact Hok'|]. rewrite !dom_union_L. set_solver.
Qed.

(** A block of cells is given back. *)
Lemma uwp_drop_block {A} (e : M X A) (P : Z -> Prop) `{HPdec : !forall a, Decision (P a)} g x a x' (Φ : A -> X -> heapProp C) :
  e x = Ok (a, x') -> (forall k, P k -> forall d, ok x d -> k ∈ d -> k ∈ dom g) -> (forall k, k ∈ dom g -> P k) ->
  (forall d, ok x d -> ok x' (d ∖ dom g)) ->
  owns g ⊢ Φ a x' -∗ uwp ok (on_mem (modify (filter (fun c => ~ P c.1))) ;; on_ext e) x Φ.
Proof.
  intros E Hin Hout Hdrop. apply bi.wand_intro_r. split. intros m (m1 & m2 & -> & Hd & H & HW) f Hdf Hok. cbn in H.
  apply map_disjoint_union_l in Hdf as [Hf1 Hf2].
  assert (filter (fun c => ~ P c.1) (m1 ∪ m2 ∪ f) = (m1 ∪ m2 ∪ f) ∖ g) as Hfil.
  { apply map_eq. intros k. destruct (((m1 ∪ m2 ∪ f) ∖ g) !! k) as [c|] eqn:Hk.
    - apply lookup_difference_Some in Hk as [Hk Hg]. apply map_lookup_filter_Some. split; [done|]. cbn. intros HP.
      apply not_elem_of_dom in Hg. apply Hg. eapply Hin; [done|exact Hok|]. by apply elem_of_dom_2 in Hk.
    - apply lookup_difference_None in Hk. apply map_lookup_filter_None. destruct Hk as [Hk|[c Hk]]; [by left|right].
      intros c' Hc' HP. cbn in HP. apply HP, Hout. by apply elem_of_dom_2 in Hk. }
  assert ((m1 ∪ m2 ∪ f) ∖ g = m2 ∪ (m1 ∖ g) ∪ f) as Hdif.
  { apply map_eq. intros k. apply option_eq. intros c. rewrite lookup_difference_Some.
    assert (g !! k = None \/ (m2 !! k = None /\ f !! k = None /\ is_Some (g !! k))) as Hg.
    { destruct (g !! k) as [c'|] eqn:Hk; [right|by left]. assert (m1 !! k = Some c') as Hm1 by (eapply lookup_weaken; done).
      split; [exact (map_disjoint_Some_l _ _ _ _ Hd Hm1)|]. split; [exact (map_disjoint_Some_l _ _ _ _ Hf1 Hm1)|done]. }
    rewrite !lookup_union lookup_difference. destruct Hg as [->|(-> & -> & [c' ->])]; destruct (m1 !! k) as [c1|] eqn:E1; cbn;
      try (rewrite (map_disjoint_Some_l m1 m2 k c1 Hd E1)); destruct (m2 !! k); cbn; destruct (f !! k); cbn; naive_solver. }
  assert (m2 ##ₘ m1 ∖ g) as Hd2. { apply map_disjoint_spec. intros k c1 c2 Hk1 Hk2%lookup_difference_Some. destruct Hk2 as [Hk2 _]. rewrite map_disjoint_spec in Hd. by eapply Hd. }
  assert (m1 ∖ g ##ₘ f) as Hd3. { apply map_disjoint_spec. intros k c1 c2 Hk1%lookup_difference_Some Hk2. destruct Hk1 as [Hk1 _]. rewrite map_disjoint_spec in Hf1. by eapply Hf1. }
  exists a, (m2 ∪ (m1 ∖ g)), x'. unfold bind, on_mem, on_ext. cbn. rewrite E Hfil Hdif.
  split; [done|]. split; [by apply map_disjoint_union_l|]. split.
  - rewrite -Hdif dom_difference_L. by apply Hdrop.
  - eapply holds_mono; [exact HW|]. apply map_union_subseteq_l.
Qed.
End Owns.

(** ** Words *)

Fixpoint words_from (p : Z) (ws : list Z) : gmap Z Z :=
  match ws with [] => ∅ | w :: ws => <[p := w]> (words_from (p + 8) ws) end.

Definition array (p : Z) (ws : list Z) : heapProp Z := owns (words_from p ws).

Lemma words_from_lookup ws : forall p a w,
  words_from p ws !! a = Some w <-> exists i, a = p + 8 * Z.of_nat i /\ ws !! i = Some w.
Proof.
  induction ws as [|w0 ws IH]; intros p a w; cbn [words_from].
  - rewrite lookup_empty. split; [done|]. intros (i & _ & Hi). done.
  - rewrite lookup_insert_Some IH. split.
    + intros [[<- <-]|[Hne (i & -> & Hi)]]; [exists O; split; [lia|done]|exists (S i); split; [lia|done]].
    + intros ([|i] & -> & Hi); [left; split; [lia|by injection Hi]|right]. split; [lia|]. exists i. split; [lia|done].
Qed.

Lemma words_from_dom p ws a : a ∈ dom (words_from p ws) <-> exists i, 0 <= i < Z.of_nat (length ws) /\ a = p + 8 * i.
Proof.
  rewrite elem_of_dom. split.
  - intros [w (i & -> & Hi)%words_from_lookup]. exists (Z.of_nat i). apply lookup_lt_Some in Hi. split; [lia|done].
  - intros (i & Hi & ->). destruct (lookup_lt_is_Some_2 ws (Z.to_nat i)) as [w Hw]; [lia|]. exists w.
    apply words_from_lookup. exists (Z.to_nat i). split; [lia|done].
Qed.

Lemma words_from_app a b : forall p, words_from p (a ++ b) = words_from p a ∪ words_from (p + 8 * Z.of_nat (length a)) b.
Proof.
  induction a as [|w a IH]; intros p; cbn [words_from app length].
  - by rewrite map_empty_union Z.add_0_r.
  - rewrite IH insert_union_l. do 2 f_equal. lia.
Qed.

Lemma array_app p a b : array p (a ++ b) ⊣⊢ array p a ∗ array (p + 8 * Z.of_nat (length a)) b.
Proof.
  unfold array. rewrite words_from_app. apply owns_union. apply map_disjoint_spec. intros k w1 w2 H1%elem_of_dom_2 H2%elem_of_dom_2.
  apply words_from_dom in H1 as (i & Hi & ->). apply words_from_dom in H2 as (j & Hj & Heq). lia.
Qed.

Lemma array_cons p w ws : array p (w :: ws) ⊣⊢ p ↦ w ∗ array (p + 8) ws.
Proof.
  change (w :: ws) with ([w] ++ ws). rewrite array_app. cbn [length]. replace (p + 8 * Z.of_nat 1) with (p + 8) by lia.
  by rewrite {1}/array /= insert_empty owns_singleton.
Qed.

Lemma array_nil p : ⊢ array p [].
Proof. apply owns_empty. Qed.

(** One word of an array. *)
Lemma array_open p ws i w : ws !! i = Some w -> array p ws ⊢ (p + 8 * Z.of_nat i) ↦ w ∗ (∀ w', (p + 8 * Z.of_nat i) ↦ w' -∗ array p (<[i := w']> ws)).
Proof.
  intros Hw. pose proof (lookup_lt_Some _ _ _ Hw) as Hl. rewrite -{1}(take_drop_middle _ _ _ Hw) array_app array_cons length_take Nat.min_l; [|lia].
  iIntros "(H1 & Hw & H2)". iFrame "Hw". iIntros (w') "Hw". rewrite insert_take_drop // array_app array_cons length_take Nat.min_l; [|lia]. iFrame.
Qed.

Lemma hwp_array_load p ws a i w (Φ : Z -> heapProp Z) :
  ws !! i = Some w -> a = p + 8 * Z.of_nat i -> array p ws ⊢ (array p ws -∗ Φ w) -∗ hwp (load a) Φ.
Proof.
  intros Hw ->. iIntros "H HΦ". iDestruct (array_open with "H") as "[Hw H]"; [done|]. iApply (hwp_load with "Hw"). iIntros "Hw".
  iApply "HΦ". iSpecialize ("H" with "Hw"). by rewrite list_insert_id.
Qed.

Lemma hwp_array_store p ws a i w' (Φ : unit -> heapProp Z) :
  (i < length ws)%nat -> a = p + 8 * Z.of_nat i -> array p ws ⊢ (array p (<[i := w']> ws) -∗ Φ tt) -∗ hwp (store a w') Φ.
Proof.
  intros [w Hw]%lookup_lt_is_Some_2 ->. iIntros "H HΦ". iDestruct (array_open with "H") as "[Hw H]"; [done|].
  iApply (hwp_store with "Hw"). iIntros "Hw". iApply "HΦ". by iApply "H".
Qed.
