(* ===== verification/CacheMalloc.v ===== *)
(** * CacheMalloc: slabs and the kernel heap

    src/kernel/mm/malloc/cache_malloc/cache_malloc.c on a memory of 64-bit
    words: a cache is a block of 4 or 8 pages with its entries, the bitfields
    of reserved entries, the links of the list of its size class and its
    identification in the last word.  kmalloc and kfree of kmalloc.c.

    raw_kmalloc and raw_kfree are the class [RawAlloc]; the words of a block
    are in the memory while the block is in use. *)

From Stdlib Require Import ZArith Lia.
From stdpp Require Import base gmap list.
From S2P Require Import Prelude KMath VmContainers HeapLogic HeapBlocks.

Open Scope Z_scope.

(** ** Sizes (cache_malloc.h) *)

Definition CACHE_8 : Z := 8.
Definition CACHE_2048 : Z := 2048.
Definition MIN_CACHE_SIZE : Z := CACHE_8.
Definition MAX_CACHE_SIZE : Z := CACHE_2048.
Definition CACHE_SIZES : list Z := [8; 16; 32; 64; 128; 256; 512; 1024; 2048].

Definition CACHE_PAGES : list Z := [4; 4; 4; 4; 4; 4; 4; 8; 8].
Definition CACHE_ENTRIES : list Z := [2013; 1014; 509; 255; 127; 63; 31; 31; 15].
Definition BF_BITS : Z := 64.
Definition CACHE_BITFIELDS : list Z := (fun n => BITFIELD_COUNT_FOR n BF_BITS) <$> CACHE_ENTRIES.
Definition CACHE_PAGE_SIZES : list Z := [4; 8].

Definition CACHE_ID_MASK : Z := 0xF.
Definition CACHE_ID_MAGIC : Z := Z.land 0xAAAAAAAAAAAAAAAA (not64 CACHE_ID_MASK).

(** The words of padding before the identification. *)
Definition CACHE_PADDING : list Z := [0; 1; 1; 1; 11; 28; 60; 124; 252].

Definition nth_of (l : list Z) (i : Z) : Z := l !!! Z.to_nat i.

(** ** Data *)

Record cache_fields : Type := MkFields { f_buf : Z; f_reserved : Z; f_prev : Z; f_next : Z; f_cache_id : Z }.

(** The layout of [struct cache<size>] for the class [i]. *)
Definition fields_at (i : Z) (ptr : Z) : cache_fields :=
  let reserved := ptr + nth_of CACHE_ENTRIES i * nth_of CACHE_SIZES i in
  let prev := reserved + 8 * nth_of CACHE_BITFIELDS i in
  MkFields ptr reserved prev (prev + 8) (prev + 16 + 8 * nth_of CACHE_PADDING i).

(** The switch has no default: the fields stay undefined for other sizes. *)
Definition get_generic_fields {S} (size ptr : Z) : M S cache_fields :=
  match list_find (fun x => x = size) CACHE_SIZES with
  | Some (i, _) => ret (fields_at (Z.of_nat i) ptr)
  | None => fault
  end.

Record cache_malloc_state : Type := MkCacheState {
  cs_size : Z;
  first_cache : Z;
  last_cache : Z;
  ff_cache : Z;
  ff_bf_n : Z;
  ff_bf_i : Z;
  cache_count : Z
}.

Definition set_first (p : Z) (s : cache_malloc_state) : cache_malloc_state :=
  MkCacheState (cs_size s) p (last_cache s) (ff_cache s) (ff_bf_n s) (ff_bf_i s) (cache_count s).
Definition set_last (p : Z) (s : cache_malloc_state) : cache_malloc_state :=
  MkCacheState (cs_size s) (first_cache s) p (ff_cache s) (ff_bf_n s) (ff_bf_i s) (cache_count s).
Definition set_free (p n k : Z) (s : cache_malloc_state) : cache_malloc_state :=
  MkCacheState (cs_size s) (first_cache s) (last_cache s) p n k (cache_count s).
Definition set_free_cache (p : Z) (s : cache_malloc_state) : cache_malloc_state := set_free p (ff_bf_n s) (ff_bf_i s) s.
Definition set_count (n : Z) (s : cache_malloc_state) : cache_malloc_state :=
  MkCacheState (cs_size s) (first_cache s) (last_cache s) (ff_cache s) (ff_bf_n s) (ff_bf_i s) n.

(** cache_malloc_init *)
Definition cache_malloc_init : list cache_malloc_state :=
  (fun i => MkCacheState (power_of2 (log2_floor_u32 CACHE_8 + i)) 0 0 0 0 0 0) <$> seqZ 0 9.

(** ** What is below *)

Class RawAlloc (E : Type) : Type := {
  raw_kmalloc : Z -> bool -> M E Z;   (* pages, kmap *)
  raw_kfree : Z -> M E unit
}.

Record cext (E : Type) : Type := MkExt { cstate : list cache_malloc_state; kern : E }.
Arguments MkExt {E} cstate kern.
Arguments cstate {E} c.
Arguments kern {E} c.

Definition on_kern {E A} (c : M E A) : M (cext E) A :=
  fun x => match c (kern x) with Ok (a, e) => Ok (a, MkExt (cstate x) e) | Err e => Err e end.

Section Caches.
Context {E : Type} `{!RawAlloc E}.
Abbreviation U := (M (mst Z (cext E))).

Definition rd (a : Z) : U Z := on_mem (load a).
Definition wr (a v : Z) : U unit := on_mem (store a v).

Definition get_state (i : Z) : U cache_malloc_state := on_ext (let* l := gets cstate in deref (l !! Z.to_nat i)).
Definition upd_state (i : Z) (f : cache_malloc_state -> cache_malloc_state) : U unit :=
  on_ext (modify (fun x => MkExt (alter f (Z.to_nat i) (cstate x)) (kern x))).

(** raw_kmalloc of a kmapped, zeroed block, and raw_kfree of it. *)
Definition new_block (pages : Z) : U Z :=
  let* p := on_ext (on_kern (raw_kmalloc pages true)) in
  on_mem (modify (fun m => words_from p (replicate (Z.to_nat (pages * PAGE_SIZE / 8)) 0) ∪ m)) ;;
  ret p.
Definition drop_block (p pages : Z) : U unit :=
  on_mem (modify (filter (fun c : Z * Z => ~ (p <= c.1 < p + pages * PAGE_SIZE)))) ;;
  on_ext (on_kern (raw_kfree p)).

(** ** Operations *)

Definition cache_idx_from_size {S} (size : Z) : M S Z :=
  ASSERT ((CACHE_8 <=? size) && (size <=? CACHE_2048)) ;;
  ret (log2_floor_u32 size - log2_floor_u32 MIN_CACHE_SIZE).

Definition new_cache (size prev : Z) : U Z :=
  let* i := cache_idx_from_size size in
  let* ptr := new_block (nth_of CACHE_PAGES i) in
  let* c := get_generic_fields size ptr in
  wr (f_prev c) prev ;;
  wr (f_next c) 0 ;;
  wr (f_cache_id c) (Z.lor CACHE_ID_MAGIC (log2_floor_u32 size)) ;;
  upd_state i (fun s => set_count (wrap64 (cache_count s + 1)) s) ;;
  ret ptr.

(** The inner loop of find_empty_slot: the first clear bit from [bf_i] on. *)
Fixpoint clear_bit (fuel : nat) (w bf_i entries : Z) : bool * Z :=
  match fuel with
  | O => (false, bf_i)
  | S fuel => if entries <=? bf_i then (false, bf_i)
              else if bitfield_get w bf_i then clear_bit fuel w (bf_i + 1) entries else (true, bf_i)
  end.

Fixpoint find_slot_loop (fuel : nat) (i reserved bf_n bf_i : Z) (first_iter : bool) : U (bool * Z * Z) :=
  match fuel with
  | O => nofuel
  | S fuel =>
      if nth_of CACHE_BITFIELDS i <=? bf_n then ret (false, bf_n, bf_i)
      else
        let full := bf_n <? nth_of CACHE_ENTRIES i / BF_BITS in
        let entries := if full then BF_BITS else nth_of CACHE_ENTRIES i mod BF_BITS in
        let full_mask := if 64 <=? entries then not64 0 else Z.shiftl 1 entries - 1 in
        let* w := rd (reserved + 8 * bf_n) in
        if w =? full_mask then find_slot_loop fuel i reserved (bf_n + 1) bf_i false
        else
          let '(found, k) := clear_bit 64 w (if first_iter then bf_i else 0) entries in
          if found : bool then ret (true, bf_n, k) else find_slot_loop fuel i reserved (bf_n + 1) k false
  end.

Definition find_empty_slot (size : Z) (c : cache_fields) (bf_n bf_i : Z) : U (bool * Z * Z) :=
  let* i := cache_idx_from_size size in
  find_slot_loop (S (Z.to_nat (nth_of CACHE_BITFIELDS i))) i (f_reserved c) bf_n bf_i true.

(** The first cache with an empty slot from [cur] on. *)
Fixpoint first_with_slot (fuel : nat) (size cur : Z) : U (option (Z * Z * Z)) :=
  match fuel with
  | O => nofuel
  | S fuel =>
      if cur =? 0 then ret None
      else
        let* c := get_generic_fields size cur in
        let* a := find_empty_slot size c 0 0 in
        let '(found, bf_n, bf_i) := a in
        if found : bool then ret (Some (cur, bf_n, bf_i))
        else let* next := rd (f_next c) in first_with_slot fuel size next
  end.

(** The first part of cache_malloc: the cache to take an entry from. *)
Definition pick_cache (size i : Z) : U (Z * Z * Z) :=
  let* s := get_state i in
  if negb (ff_cache s =? 0) then ret (ff_cache s, ff_bf_n s, ff_bf_i s)
  else
    let* cache_ptr := new_cache size (last_cache s) in
    (if first_cache s =? 0 then upd_state i (set_first cache_ptr)
     else let* last_f := get_generic_fields size (last_cache s) in wr (f_next last_f) cache_ptr) ;;
    upd_state i (set_last cache_ptr) ;;
    upd_state i (set_free_cache cache_ptr) ;;
    ret (cache_ptr, 0, 0).

(** The last part of it: the next slot to take. *)
Definition note_free (size i cache_ptr : Z) (c : cache_fields) (bf_n bf_i : Z) : U unit :=
  let* a := find_empty_slot size c bf_n bf_i in
  let '(found, n, k) := a in
  if found : bool then upd_state i (set_free cache_ptr n k)
  else
    let* s := get_state i in
    let* o := first_with_slot (S (Z.to_nat (cache_count s))) size (first_cache s) in
    match o with
    | Some (cur, n, k) => upd_state i (set_free cur n k)
    | None => upd_state i (set_free 0 0 0)
    end.

Definition cache_malloc (size : Z) : U Z :=
  let* i := cache_idx_from_size size in
  let* a := pick_cache size i in
  let '(cache_ptr, bf_n, bf_i) := a in
  let* c := get_generic_fields size cache_ptr in
  let* a := find_empty_slot size c bf_n bf_i in
  let '(slot_found, bf_n, bf_i) := a in
  ASSERT slot_found ;;
  let* w := rd (f_reserved c + 8 * bf_n) in
  wr (f_reserved c + 8 * bf_n) (bitfield_set_high 64 w bf_i) ;;
  let entry := bf_n * BF_BITS + bf_i in
  let result := wrap64 (f_buf c + 8 * (entry * (size / 8))) in
  note_free size i cache_ptr c bf_n bf_i ;;
  ret result.

Fixpoint size_from_pages (ptr : Z) (l : list Z) : U (option Z) :=
  match l with
  | [] => ret None
  | n :: l =>
      let base := align_down ptr (PAGE_SIZE * n) in
      let* cache_id_field := rd (base + n * PAGE_SIZE - 8) in
      if negb (Z.land cache_id_field CACHE_ID_MAGIC =? CACHE_ID_MAGIC) then size_from_pages ptr l
      else ret (Some (power_of2 (Z.land cache_id_field CACHE_ID_MASK)))
  end.
Definition cache_malloc_size_from_ptr (ptr : Z) : U (option Z) := size_from_pages ptr CACHE_PAGE_SIZES.

(** Whether [n] words are zero. *)
Fixpoint all_zero (n : nat) (a : Z) : U bool :=
  match n with
  | O => ret true
  | S n => let* w := rd a in if negb (w =? 0) then ret false else all_zero n (a + 8)
  end.

(** The cache leaves the list of its class. *)
Definition unlink_cache (size i : Z) (f : cache_fields) : U unit :=
  let* prev := rd (f_prev f) in
  (if negb (prev =? 0) then
     let* prev_f := get_generic_fields size prev in
     let* next := rd (f_next f) in wr (f_next prev_f) next
   else let* next := rd (f_next f) in upd_state i (set_first next)) ;;
  let* next := rd (f_next f) in
  (if negb (next =? 0) then
     let* next_f := get_generic_fields size next in
     let* prev := rd (f_prev f) in wr (f_prev next_f) prev
   else let* prev := rd (f_prev f) in upd_state i (set_last prev)).

(** The end of cache_free, for a cache without entries in use. *)
Definition release_cache (size i cache_ptr : Z) (f : cache_fields) : U unit :=
  unlink_cache size i f ;;
  let* s := get_state i in
  (if ff_cache s =? cache_ptr then upd_state i (set_free 0 0 0) else ret tt) ;;
  upd_state i (fun s => set_count (wrap64 (cache_count s - 1)) s) ;;
  let* s := get_state i in
  (if ff_cache s =? 0 then
     let* o := first_with_slot (S (Z.to_nat (cache_count s))) size (first_cache s) in
     match o with
     | Some (cur, n, k) => upd_state i (set_free cur n k)
     | None => ret tt
     end
   else ret tt) ;;
  drop_block cache_ptr (nth_of CACHE_PAGES i).

Definition cache_free (ptr : Z) : U unit :=
  let* o := cache_malloc_size_from_ptr ptr in
  match o with
  | None => panic
  | Some size =>
      let* i := cache_idx_from_size size in
      let cache_ptr := align_down ptr (nth_of CACHE_PAGES i * PAGE_SIZE) in
      let* f := get_generic_fields size cache_ptr in
      let entry_idx := wrap64 (ptr - f_buf f) / size in
      let bf_n := entry_idx / BF_BITS in
      let bf_i := entry_idx mod BF_BITS in
      let* w := rd (f_reserved f + 8 * bf_n) in
      ASSERT (bitfield_get w bf_i) ;;
      wr (f_reserved f + 8 * bf_n) (bitfield_clear 64 w bf_i) ;;
      let* empty := all_zero (Z.to_nat (nth_of CACHE_BITFIELDS i)) (f_reserved f) in
      if negb empty then
        let* s := get_state i in
        if ff_cache s =? 0 then upd_state i (set_free cache_ptr bf_n bf_i) else ret tt
      else release_cache size i cache_ptr f
  end.

(** ** src/kernel/mm/malloc/kmalloc/kmalloc.c *)

Definition kmalloc (bytes : Z) : U Z :=
  if MAX_CACHE_SIZE <? bytes then on_ext (on_kern (raw_kmalloc (div_ceil bytes PAGE_SIZE) false))
  else cache_malloc (kmax MIN_CACHE_SIZE (next_pow2_u64 bytes)).

(** mm_va_is_in_kmap_range of mm.c; [addr_space] is mm_info_mm_addr_space(). *)
Definition mm_va_is_in_kmap_range (addr_space ptr : Z) : bool :=
  if negb (is_kva_uintptr_t ptr) then false else ptr <? kpa_to_kva addr_space.

Definition kfree (addr_space ptr : Z) : U unit :=
  if mm_va_is_in_kmap_range addr_space ptr then cache_free ptr else on_ext (on_kern (raw_kfree ptr)).
End Caches.
