(* ===== verification/CacheSpec.v ===== *)
(** * CacheSpec: the caches of a size class

    [cache] is what a block holds; [slab] the memory of the list of a class,
    [slab_ok] its invariant; the search for an empty slot. *)

From Stdlib Require Import ZArith Lia.
From stdpp Require Import base gmap list.
From iris.proofmode Require Import proofmode.
From S2P Require Import Prelude KMath VmContainers VmContainersSpec HeapLogic HeapBlocks CacheMalloc UregionCommit.

Open Scope Z_scope.

(** ** What raw_kmalloc promises *)

(** [blocks]: the blocks in use with their pages; [can_take e n]: there are
    [n] pages to hand out. *)
Class RawLaws (E : Type) `{!RawAlloc E} : Type := {
  blocks : E -> gmap Z Z;
  can_take : E -> Z -> Prop;
  raw_kmalloc_law e n : can_take e n -> n ∈ CACHE_PAGES ->
    exists p e', raw_kmalloc n true e = Ok (p, e') /\ p mod (n * PAGE_SIZE) = 0 /\ 0 < p /\ p + n * PAGE_SIZE < 2 ^ 64 /\
      (forall q m, blocks e !! q = Some m -> q + m * PAGE_SIZE <= p \/ p + n * PAGE_SIZE <= q) /\
      blocks e' = <[p := n]> (blocks e);
  raw_kfree_law e p n : blocks e !! p = Some n -> exists e', raw_kfree p e = Ok (tt, e') /\ blocks e' = delete p (blocks e)
}.

(** A word in the memory belongs to a block in use. *)
Definition in_blocks {E} `{!RawAlloc E} `{!RawLaws E} (x : cext E) (d : gset Z) : Prop :=
  forall a, a ∈ d -> a mod 8 = 0 /\ exists p n, blocks (kern x) !! p = Some n /\ p <= a < p + n * PAGE_SIZE.

#[export] Instance in_blocks_antitone {E} `{!RawAlloc E} `{!RawLaws E} : Antitone (in_blocks (E := E)).
Proof. intros x d d' H Hs a Ha. by apply H, Hs. Qed.

(** ** The classes *)

Definition esize (i : Z) : Z := nth_of CACHE_SIZES i.
Definition entries (i : Z) : Z := nth_of CACHE_ENTRIES i.
Definition bitfields (i : Z) : Z := nth_of CACHE_BITFIELDS i.
Definition pages (i : Z) : Z := nth_of CACHE_PAGES i.
Definition padding (i : Z) : Z := nth_of CACHE_PADDING i.
Definition buf_words (i : Z) : Z := entries i * (esize i / 8).

Definition class (i : Z) : Prop := 0 <= i < 9.

Lemma class_cases (P : Z -> Prop) : Forall P (seqZ 0 9) -> forall i, class i -> P i.
Proof. intros H i Hi. rewrite Forall_forall in H. apply H. apply elem_of_seqZ. unfold class in Hi. lia. Qed.

Ltac by_class i := match goal with H : class i |- _ => revert i H; apply class_cases; apply Forall_fold_right; repeat split; try (by vm_compute) end.

Lemma class_size i : class i ->
  esize i = 2 ^ (i + 3) /\ esize i = 8 * (esize i / 8) /\ CACHE_8 <= esize i <= CACHE_2048 /\ log2_floor_u32 (esize i) = i + 3.
Proof. intros Hi. by_class i. Qed.

Lemma class_layout i : class i ->
  buf_words i + bitfields i + 3 + padding i = pages i * 512 /\ 8 * buf_words i = entries i * esize i /\
  bitfields i = word_count (entries i) /\ 1 < entries i /\ 0 < esize i /\ entries i <= 64 * bitfields i /\ 0 <= padding i /\ 0 < bitfields i.
Proof. intros Hi. by_class i. Qed.

Lemma class_pages i : class i -> pages i ∈ CACHE_PAGES /\ (pages i = 4 \/ pages i = 8) /\ (pages i * PAGE_SIZE) mod esize i = 0.
Proof.
  intros Hi. split; [by_class i; apply (bool_decide_unpack _); by vm_compute|].
  split; [by_class i; (by left) || (by right)|]. by_class i.
Qed.

Lemma idx_from_size {S} i : class i -> cache_idx_from_size (S := S) (esize i) = ret i.
Proof.
  intros Hi. unfold cache_idx_from_size. destruct (class_size i Hi) as (_ & _ & [H1 H2] & ->).
  rewrite (proj2 (Z.leb_le _ _) H1) (proj2 (Z.leb_le _ _) H2). change (log2_floor_u32 MIN_CACHE_SIZE) with 3.
  unfold ASSERT. cbn [andb]. unfold bind, ret. by replace (i + 3 - 3) with i by lia.
Qed.

Lemma generic_fields {S} i p : class i -> get_generic_fields (S := S) (esize i) p = ret (fields_at i p).
Proof. intros Hi. by_class i. Qed.

(** ** A cache *)

(** The address of the block, its bitfields and the words of its entries. *)
Record cache : Type := MkCache { c_addr : Z; c_bits : list Z; c_buf : list Z }.

#[export] Instance cache_eq_dec : EqDecision cache.
Proof. solve_decision. Defined.

Definition with_bits (ws : list Z) (c : cache) : cache := MkCache (c_addr c) ws (c_buf c).
Definition cache_id (i : Z) : Z := Z.lor CACHE_ID_MAGIC (i + 3).

(** The words of the block. *)
Definition block_words (i prev next id : Z) (c : cache) : list Z :=
  c_buf c ++ c_bits c ++ [prev; next] ++ replicate (Z.to_nat (padding i)) 0 ++ [id].
Definition cache_at (i prev next : Z) (c : cache) : heapProp Z := array (c_addr c) (block_words i prev next (cache_id i) c).

Record cache_ok (i : Z) (c : cache) : Prop := {
  ca_addr : 0 < c_addr c /\ c_addr c + pages i * PAGE_SIZE < 2 ^ 64 /\ c_addr c mod (pages i * PAGE_SIZE) = 0;
  ca_buf : Z.of_nat (length (c_buf c)) = buf_words i;
  ca_bits : words_ok (64 * bitfields i) (c_bits c);
  ca_unused e : entries i <= e < 64 * bitfields i -> bit (c_bits c) e = false
}.

Lemma ca_length i c : class i -> cache_ok i c -> Z.of_nat (length (c_bits c)) = bitfields i.
Proof.
  intros Hi [_ _ [-> _] _]. destruct (class_layout i Hi) as (_ & _ & _ & _ & _ & _ & _ & Hb). unfold word_count.
  rewrite (Z.mul_comm 64) Z.div_add_l // (Z.div_small 63) //. lia.
Qed.

Definition fields_rep (i : Z) (f : cache_fields) (pv nx id : Z) (c : cache) : heapProp Z :=
  (array (f_buf f) (c_buf c) ∗ array (f_reserved f) (c_bits c) ∗ f_prev f ↦ pv ∗ f_next f ↦ nx ∗
   array (f_next f + 8) (replicate (Z.to_nat (padding i)) 0) ∗ f_cache_id f ↦ id)%I.

Lemma block_split i pv nx id c : class i -> cache_ok i c ->
  array (c_addr c) (block_words i pv nx id c) ⊣⊢ fields_rep i (fields_at i (c_addr c)) pv nx id c.
Proof.
  intros Hi Hc. pose proof (ca_length i c Hi Hc) as Hl. destruct (class_layout i Hi) as (_ & Hb & _ & _ & _ & _ & Hp & _).
  pose proof (ca_buf _ _ Hc) as Hbuf. unfold block_words, fields_rep. rewrite !array_app !array_cons Hl Hbuf length_replicate.
  cbn [length]. unfold fields_at. cbn [f_buf f_reserved f_prev f_next f_cache_id]. fold (entries i) (esize i) (bitfields i) (padding i).
  set (q := c_addr c) in *. rewrite -Hb. set (r := q + 8 * buf_words i) in *. set (v := r + 8 * bitfields i).
  replace (v + 8 * Z.of_nat 2 ) with (v + 8 + 8) by lia. replace (v + 8 + 8 + 8 * Z.of_nat (Z.to_nat (padding i))) with (v + 16 + 8 * padding i) by lia.
  assert (forall p, array p [] ⊣⊢ True) as Hn by (intros p; apply bi.True_intro || (apply (anti_symm (⊢)); [by iIntros|iIntros "_"; iApply array_nil])).
  rewrite !Hn !bi.sep_True. by rewrite -!assoc.
Qed.

Lemma cache_split i pv nx c : class i -> cache_ok i c ->
  cache_at i pv nx c ⊣⊢ fields_rep i (fields_at i (c_addr c)) pv nx (cache_id i) c.
Proof. apply block_split. Qed.

(** ** The search for an empty slot *)

Lemma clear_bit_ok w n : n <= 64 -> forall fuel k, 0 <= k -> n - k <= Z.of_nat fuel ->
  let '(b, j) := clear_bit fuel w k n in
  if b : bool then k <= j < n /\ Z.testbit w j = false else forall j, k <= j < n -> Z.testbit w j = true.
Proof.
  intros Hn. induction fuel as [|fuel IH]; intros k Hk Hf; cbn [clear_bit]; [lia|]. destruct (Z.leb_spec n k); [lia|].
  rewrite bitfield_get_bit //. destruct (Z.testbit w k) eqn:Hb; [|split; [lia|done]].
  specialize (IH (k + 1) ltac:(lia) ltac:(lia)). destruct (clear_bit fuel w (k + 1) n) as [[] j]; [split; [lia|tauto]|].
  intros a Ha. destruct (decide (a = k)) as [->|]; [done|]. apply IH. lia.
Qed.

Lemma full_word n j : 0 <= n <= 64 -> 0 <= j < n -> Z.testbit (if 64 <=? n then not64 0 else Z.shiftl 1 n - 1) j = true.
Proof.
  intros Hn Hj. destruct (Z.leb_spec 64 n).
  - change (not64 0) with (Z.ones 64). apply Z.ones_spec_low. lia.
  - replace (Z.shiftl 1 n - 1) with (Z.ones n) by (rewrite Z.ones_equiv Z.shiftl_1_l; lia). by apply Z.ones_spec_low.
Qed.

Lemma bit_word ws n j : 0 <= n -> 0 <= j < 64 -> bit ws (n * 64 + j) = Z.testbit (ws !!! Z.to_nat n) j.
Proof. intros Hn Hj. unfold bit. rewrite Z.div_add_l // Z.div_small // Z.add_0_r Z.add_comm Z.mod_add // Z.mod_small //. Qed.

(** What the search answers from the entry [start] on. *)
Definition slot_from (i : Z) (ws : list Z) (start : Z) (a : bool * Z * Z) : Prop :=
  let '(b, n, k) := a in
  if b : bool then 0 <= n /\ 0 <= k < 64 /\ start <= n * 64 + k < entries i /\ bit ws (n * 64 + k) = false
  else forall e, start <= e < entries i -> bit ws e = true.

Lemma slot_from_next i ws start a n :
  slot_from i ws ((n + 1) * 64) a -> (forall e, start <= e < (n + 1) * 64 -> e < entries i -> bit ws e = true) -> start <= (n + 1) * 64 -> slot_from i ws start a.
Proof.
  destruct a as [[[] n'] k']; cbn; [intros (H1 & H2 & H3 & H4) _ Hs; repeat (split; [by (done || lia)|]); done|].
  intros H1 H2 _ e He. destruct (decide (e < (n + 1) * 64)); [apply H2; lia|apply H1; lia].
Qed.

(** The entries of one bitfield. *)
Lemma word_entries i n : class i -> 0 <= n < bitfields i ->
  let m := if n <? entries i / BF_BITS then BF_BITS else entries i mod BF_BITS in
  0 <= m <= 64 /\ n * 64 + m <= entries i /\ (forall j, 0 <= j < 64 -> n * 64 + j < entries i -> j < m).
Proof.
  intros Hi Hn m. destruct (class_layout i Hi) as (_ & _ & Hb & H1 & _). unfold word_count in Hb. unfold m, BF_BITS.
  pose proof (Z.div_mod (entries i) 64). pose proof (Z.mod_pos_bound (entries i) 64).
  pose proof (Z.div_mod (entries i + 63) 64). pose proof (Z.mod_pos_bound (entries i + 63) 64).
  destruct (Z.ltb_spec n (entries i / 64)); [repeat split; lia|].
  assert (n = entries i / 64) as -> by lia. repeat split; lia.
Qed.

Section Search.
Context {E : Type} `{!RawAlloc E} `{!RawLaws E}.
Abbreviation cwp := (uwp (in_blocks (E := E))).
Implicit Types (x : cext E) (c : cache) (cs : list cache).

Lemma cwp_load p ws a j w x (Φ : Z -> cext E -> heapProp Z) :
  ws !! j = Some w -> a = p + 8 * Z.of_nat j -> array p ws ⊢ (array p ws -∗ Φ w x) -∗ cwp (rd a) x Φ.
Proof. intros Hw Ha. iIntros "H HΦ". iApply uwp_mem. by iApply (hwp_array_load with "H"). Qed.

Lemma cwp_load1 a w x (Φ : Z -> cext E -> heapProp Z) : a ↦ w ⊢ (a ↦ w -∗ Φ w x) -∗ cwp (rd a) x Φ.
Proof. iIntros "H HΦ". iApply uwp_mem. by iApply (hwp_load with "H"). Qed.

Lemma cwp_store1 a w w' x (Φ : unit -> cext E -> heapProp Z) : a ↦ w ⊢ (a ↦ w' -∗ Φ tt x) -∗ cwp (wr a w') x Φ.
Proof. iIntros "H HΦ". iApply uwp_mem. by iApply (hwp_store with "H"). Qed.

Lemma find_slot_loop_spec i r ws x (Φ : bool * Z * Z -> cext E -> heapProp Z) : class i -> Z.of_nat (length ws) = bitfields i ->
  forall fuel n k (first : bool), 0 <= n <= bitfields i -> (first = true -> 0 <= k < 64) -> bitfields i - n < Z.of_nat fuel ->
  array r ws ⊢ (∀ a, ⌜slot_from i ws (n * 64 + if first then k else 0) a⌝ -∗ array r ws -∗ Φ a x) -∗
    cwp (find_slot_loop fuel i r n k first) x Φ.
Proof.
  intros Hi Hl. destruct (class_layout i Hi) as (_ & _ & _ & _ & _ & Hbe & _). induction fuel as [|fuel IH]; intros n k first Hn Hk Hf; [lia|]; cbn [find_slot_loop];
    fold (bitfields i) (entries i); iIntros "H HΦ"; destruct (Z.leb_spec (bitfields i) n) as [Hle|Hlt].
  { iApply uwp_ret. iApply ("HΦ" with "[%] H"). cbn. destruct first; lia. }
  destruct (word_entries i n Hi ltac:(lia)) as (Hm & Hme & Hmj). set (m := if n <? entries i / BF_BITS then BF_BITS else entries i mod BF_BITS) in *.
  destruct (lookup_lt_is_Some_2 ws (Z.to_nat n)) as [w Hw]; [lia|]. iApply uwp_bind. iApply (cwp_load with "H"); [exact Hw|lia|]. iIntros "H".
  assert (forall j, 0 <= j < 64 -> bit ws (n * 64 + j) = Z.testbit w j) as Hbit by (intros j Hj; rewrite bit_word // ?(list_lookup_total_correct _ _ _ Hw) //; lia).
  set (k0 := if first then k else 0). assert (0 <= k0 < 64) as Hk0 by (unfold k0; destruct first; lia || auto).
  assert (forall a, (forall j, k0 <= j < m -> Z.testbit w j = true) -> slot_from i ws ((n + 1) * 64 + 0) a -> slot_from i ws (n * 64 + k0) a) as Hskip.
  { intros a Hj Ha. rewrite Z.add_0_r in Ha. apply (slot_from_next _ _ _ _ n Ha); [|lia]. intros e He He'.
    replace e with (n * 64 + (e - n * 64)) in He' |- * by lia. rewrite Hbit; [|lia]. apply Hj. split; [lia|]. apply Hmj; lia. }
  destruct (Z.eqb_spec w (if 64 <=? m then not64 0 else Z.shiftl 1 m - 1)) as [Ew|_].
  - iApply (IH (n + 1) k false with "H"); [lia|done|lia|]. iIntros (a) "%Ha". iApply "HΦ". iPureIntro. apply Hskip; [|done].
    intros j Hj. rewrite Ew. apply full_word; lia.
  - pose proof (clear_bit_ok w m ltac:(lia) 64 k0 ltac:(lia) ltac:(lia)) as Hc. destruct (clear_bit 64 w k0 m) as [[] j].
    + iApply uwp_ret. iApply ("HΦ" with "[%] H"). cbn. rewrite Hbit; [|lia]. repeat (split; [lia|]). tauto.
    + iApply (IH (n + 1) j false with "H"); [lia|done|lia|]. iIntros (a) "%Ha". iApply "HΦ". iPureIntro. by apply Hskip.
Qed.

Lemma find_empty_slot_spec i r ws n k x (Φ : bool * Z * Z -> cext E -> heapProp Z) f :
  class i -> f_reserved f = r -> Z.of_nat (length ws) = bitfields i -> 0 <= n <= bitfields i -> 0 <= k < 64 ->
  array r ws ⊢ (∀ a, ⌜slot_from i ws (n * 64 + k) a⌝ -∗ array r ws -∗ Φ a x) -∗ cwp (find_empty_slot (esize i) f n k) x Φ.
Proof.
  intros Hi <- Hl Hn Hk. iIntros "H HΦ". unfold find_empty_slot. rewrite idx_from_size //. iApply uwp_bind. iApply uwp_ret.
  iApply (find_slot_loop_spec with "H"); [done|done|done|done|fold (bitfields i); lia|]. done.
Qed.

(** ** The list of a class *)

Definition hd_addr cs (next : Z) : Z := match cs with [] => next | c :: _ => c_addr c end.
Definition last_addr (prev : Z) cs : Z := match last cs with Some c => c_addr c | None => prev end.

Fixpoint dseg (i prev : Z) cs (next : Z) : heapProp Z :=
  match cs with
  | [] => True%I
  | c :: cs => (cache_at i prev (hd_addr cs next) c ∗ dseg i (c_addr c) cs next)%I
  end.

Lemma hd_addr_app a b next : hd_addr (a ++ b) next = hd_addr a (hd_addr b next).
Proof. by destruct a. Qed.

Lemma last_addr_cons prev c cs : last_addr prev (c :: cs) = last_addr (c_addr c) cs.
Proof. unfold last_addr. destruct cs as [|c' cs]; [done|]. rewrite last_cons. by destruct (last (c' :: cs)) eqn:Hc; [|apply last_None in Hc]. Qed.

Lemma last_addr_snoc prev a c : last_addr prev (a ++ [c]) = c_addr c.
Proof. unfold last_addr. by rewrite last_snoc. Qed.

Lemma dseg_app i a : forall prev b next,
  dseg i prev (a ++ b) next ⊣⊢ dseg i prev a (hd_addr b next) ∗ dseg i (last_addr prev a) b next.
Proof.
  induction a as [|c a IH]; intros prev b next; cbn [app dseg]; [by rewrite bi.True_sep|].
  by rewrite hd_addr_app IH last_addr_cons assoc.
Qed.

(** One cache of the list, whose bitfields may change. *)
Lemma dseg_open i prev a c b next :
  dseg i prev (a ++ c :: b) next ⊢ ∃ pv nx, cache_at i pv nx c ∗ (∀ ws, cache_at i pv nx (with_bits ws c) -∗ dseg i prev (a ++ with_bits ws c :: b) next).
Proof.
  rewrite dseg_app. cbn [dseg hd_addr]. iIntros "(Ha & Hc & Hb)". iExists _, _. iFrame "Hc". iIntros (ws) "Hc". rewrite dseg_app. cbn [dseg hd_addr with_bits c_addr]. iFrame.
Qed.

(** The links at the ends of a list. *)
Lemma dseg_last i prev a next : class i -> (forall c, c ∈ a -> cache_ok i c) -> a <> [] ->
  dseg i prev a next ⊢ f_next (fields_at i (last_addr prev a)) ↦ next ∗ (∀ next', f_next (fields_at i (last_addr prev a)) ↦ next' -∗ dseg i prev a next').
Proof.
  intros Hi Hok Hne. destruct a as [|c a _] using rev_ind; [done|]. rewrite last_addr_snoc dseg_app. cbn [dseg hd_addr].
  pose proof (Hok c ltac:(set_solver)) as Hc. iIntros "(Ha & Hc & _)". iDestruct (cache_split with "Hc") as "(Hbuf & Hr & Hp & Hn & Hrest)"; [done..|].
  iFrame "Hn". iIntros (next') "Hn". rewrite dseg_app. cbn [dseg hd_addr]. iFrame "Ha". iSplit; [|done]. iApply cache_split; [done..|iFrame].
Qed.

Lemma dseg_first i prev b next : class i -> (forall c, c ∈ b -> cache_ok i c) -> b <> [] ->
  dseg i prev b next ⊢ f_prev (fields_at i (hd_addr b next)) ↦ prev ∗ (∀ prev', f_prev (fields_at i (hd_addr b next)) ↦ prev' -∗ dseg i prev' b next).
Proof.
  intros Hi Hok Hne. destruct b as [|c b]; [done|]. cbn [dseg hd_addr]. pose proof (Hok c ltac:(by left)) as Hc.
  iIntros "(Hc & Hb)". iDestruct (cache_split with "Hc") as "(Hbuf & Hr & Hp & Hrest)"; [done..|].
  iFrame "Hp". iIntros (prev') "Hp". iFrame "Hb". iApply cache_split; [done..|iFrame].
Qed.

Definition all_used (i : Z) c : Prop := forall e, 0 <= e < entries i -> bit (c_bits c) e = true.

(** The answer of the walk along the list. *)
Definition found_in (i : Z) cs (o : option (Z * Z * Z)) : Prop :=
  match o with
  | Some (p, n, k) => exists c, c ∈ cs /\ p = c_addr c /\ 0 <= n /\ 0 <= k < 64 /\ n * 64 + k < entries i /\ bit (c_bits c) (n * 64 + k) = false
  | None => forall c, c ∈ cs -> all_used i c
  end.

Lemma first_with_slot_spec i x (Φ : option (Z * Z * Z) -> cext E -> heapProp Z) : class i -> forall cs fuel prev,
  (length cs < fuel)%nat -> (forall c, c ∈ cs -> cache_ok i c) ->
  dseg i prev cs 0 ⊢ (∀ o, ⌜found_in i cs o⌝ -∗ dseg i prev cs 0 -∗ Φ o x) -∗ cwp (first_with_slot fuel (esize i) (hd_addr cs 0)) x Φ.
Proof.
  intros Hi. induction cs as [|c cs IH]; intros fuel prev Hf Hok; (destruct fuel as [|fuel]; [cbn in Hf; lia|]); cbn [first_with_slot hd_addr dseg].
  { iIntros "H HΦ". cbn. iApply uwp_ret. iApply ("HΦ" with "[%] H"). by intros c ?%elem_of_nil. }
  pose proof (Hok c ltac:(by left)) as Hc. pose proof (ca_addr _ _ Hc) as (H0 & _). destruct (Z.eqb_spec (c_addr c) 0) as [|_]; [lia|].
  destruct (class_layout i Hi) as (_ & _ & _ & _ & _ & _ & _ & Hb0).
  iIntros "[Hc Hs] HΦ". rewrite generic_fields //. iApply uwp_bind. iApply uwp_ret.
  iDestruct (cache_split with "Hc") as "(Hbuf & Hr & Hp & Hn & Hrest)"; [done|done|]. iApply uwp_bind. iApply (find_empty_slot_spec i _ (c_bits c) with "Hr"); [done|done|by apply ca_length|lia|lia|].
  iIntros ([[b n] k]) "%Ha Hr". destruct b.
  - destruct Ha as (H1 & H2 & H3 & H4). iApply uwp_ret. iApply ("HΦ" with "[%] [-]"); [|iFrame "Hs"; iApply cache_split; [done..|iFrame]]. exists c. repeat (split; [by (left || done || lia)|]). done.
  - iApply uwp_bind. iApply (cwp_load1 with "Hn"). iIntros "Hn". iApply (IH with "Hs"); [cbn in Hf; lia|by intros c' Hc'; apply Hok; right|].
    iIntros (o) "%Ho Hs". iApply ("HΦ" with "[%] [-]"); [|iFrame "Hs"; iApply cache_split; [done..|iFrame]]. destruct o as [[[q n'] k']|].
    + destruct Ho as (c' & Hc' & Ho). exists c'. split; [by right|done].
    + intros c' [->|Hc']%elem_of_cons; [|by apply Ho]. intros e He. apply Ha. lia.
Qed.
End Search.
