(* ===== verification/CacheAlloc.v ===== *)
(** * CacheAlloc: cache_malloc

    The invariant of a class and what cache_malloc does to it. *)

From Stdlib Require Import ZArith Lia.
From stdpp Require Import base gmap list.
From iris.proofmode Require Import proofmode.
From S2P Require Import Prelude KMath VmContainers VmContainersSpec HeapLogic HeapBlocks CacheMalloc UregionCommit CacheSpec.

Open Scope Z_scope.

Section Alloc.
Context {E : Type} `{!RawAlloc E} `{!RawLaws E}.
Abbreviation cwp := (uwp (in_blocks (E := E))).
Implicit Types (x : cext E) (c : cache) (cs a b : list cache) (s : cache_malloc_state).

(** ** The state of a class *)

Definition upd (i : Z) (f : cache_malloc_state -> cache_malloc_state) x : cext E := MkExt (alter f (Z.to_nat i) (cstate x)) (kern x).

Lemma cwp_get_state i s x (Φ : cache_malloc_state -> cext E -> heapProp Z) : cstate x !! Z.to_nat i = Some s -> Φ s x ⊢ cwp (get_state i) x Φ.
Proof. intros Hs. apply (uwp_ext _ _ x s x); [|done]. unfold bind, gets, deref. by rewrite Hs. Qed.

Lemma cwp_upd_state i f x (Φ : unit -> cext E -> heapProp Z) : Φ tt (upd i f x) ⊢ cwp (upd_state i f) x Φ.
Proof. by apply (uwp_ext _ _ x tt (upd i f x)). Qed.

(** The list of the class, its record and its hint. *)
Definition record (i : Z) cs (p n k : Z) : cache_malloc_state :=
  MkCacheState (esize i) (hd_addr cs 0) (last_addr 0 cs) p n k (Z.of_nat (length cs)).

Record linked (i : Z) cs (p n k : Z) x : Prop := {
  ln_state : cstate x !! Z.to_nat i = Some (record i cs p n k);
  ln_cache c : c ∈ cs -> cache_ok i c /\ blocks (kern x) !! c_addr c = Some (pages i);
  ln_nodup : NoDup (c_addr <$> cs)
}.

Definition hint (p n k : Z) : option (Z * Z * Z) := if p =? 0 then None else Some (p, n, k).
Definition in_use (i : Z) c : Prop := exists e, 0 <= e < entries i /\ bit (c_bits c) e = true.

(** Each cache has an entry in use, and the hint is an empty slot, or there
    is none. *)
Definition slab_ok (i : Z) cs x : Prop :=
  exists p n k, linked i cs p n k x /\ found_in i cs (hint p n k) /\ forall c, c ∈ cs -> in_use i c.

(** The blocks are far fewer than a counter can count. *)
Lemma linked_count i cs p n k x : class i -> linked i cs p n k x -> Z.of_nat (length cs) < 2 ^ 63.
Proof.
  intros Hi [_ Hc Hd]. destruct (class_pages i Hi) as (_ & Hp & _).
  assert (forall c, c ∈ cs -> exists q, c_addr c = q * 2 ^ 14 /\ 0 <= q < 2 ^ 50) as Hq.
  { intros c Hin. destruct (Hc c Hin) as [Hok _]. destruct (ca_addr _ _ Hok) as (H0 & H1 & H2). apply Z.mod_divide in H2 as [q Hq]; [|destruct Hp as [-> | ->]; done].
    unfold PAGE_SIZE in *. change (2 ^ 14) with 16384. change (2 ^ 50) with 1125899906842624. change (2 ^ 64) with 18446744073709551616 in H1.
    destruct Hp as [Ep | Ep]; rewrite Ep in Hq, H1; [exists q|exists (2 * q)]; lia. }
  assert (c_addr <$> cs ⊆+ (fun q => q * 2 ^ 14) <$> seqZ 0 (2 ^ 50)) as Hsub.
  { apply NoDup_submseteq; [done|]. intros q (c & -> & Hin)%list_elem_of_fmap. destruct (Hq c Hin) as (q & -> & Hr).
    apply list_elem_of_fmap. exists q. split; [done|]. apply elem_of_seqZ. lia. }
  apply submseteq_length in Hsub. rewrite !length_fmap length_seq in Hsub. lia.
Qed.

(** ** A new cache *)

Definition fresh_cache (i p : Z) : cache :=
  MkCache p (replicate (Z.to_nat (bitfields i)) 0) (replicate (Z.to_nat (buf_words i)) 0).

Lemma bit_zeros n e : 0 <= e < 64 * Z.of_nat n -> bit (replicate n 0) e = false.
Proof.
  intros He. unfold bit. rewrite lookup_total_replicate_2; [apply Z.bits_0|].
  assert (0 <= e / 64 < Z.of_nat n) by (split; [apply Z.div_pos; lia|apply Z.div_lt_upper_bound; lia]). lia.
Qed.

Lemma fresh_words i p : class i -> replicate (Z.to_nat (pages i * PAGE_SIZE / 8)) 0 = block_words i 0 0 0 (fresh_cache i p).
Proof. intros Hi. by_class i. Qed.

Lemma fresh_ok i p : class i -> 0 < p -> p + pages i * PAGE_SIZE < 2 ^ 64 -> p mod (pages i * PAGE_SIZE) = 0 -> cache_ok i (fresh_cache i p).
Proof.
  intros Hi H0 H1 H2. destruct (class_layout i Hi) as (H & Hb & _ & He & Hs & _ & _ & Hf). split; [done| | |].
  - cbn. rewrite length_replicate. lia.
  - split; [|by apply Forall_replicate]. cbn. rewrite length_replicate. unfold word_count. rewrite (Z.mul_comm 64) Z.div_add_l // (Z.div_small 63) //. f_equal. lia.
  - intros e Hu. apply bit_zeros. lia.
Qed.

Lemma block_len i : class i -> Z.to_nat (pages i * PAGE_SIZE / 8) = Z.to_nat (pages i * 512).
Proof. intros Hi. by_class i. Qed.

Lemma block_dom i p (ws : list Z) z : class i -> p mod (pages i * PAGE_SIZE) = 0 -> length ws = Z.to_nat (pages i * 512) ->
  z ∈ dom (words_from p ws) <-> z mod 8 = 0 /\ p <= z < p + pages i * PAGE_SIZE.
Proof.
  intros Hi [q ->]%Z.mod_divide Hl; [|by destruct (class_pages i Hi) as (_ & [-> | ->] & _)]. rewrite words_from_dom Hl.
  destruct (class_pages i Hi) as (_ & Hp & _). set (n := pages i) in *. unfold PAGE_SIZE in *. split.
  - intros (j & Hj & ->). split; [|lia]. apply Z.mod_divide; [done|]. exists (q * n * 512 + j). lia.
  - intros [[k ->]%Z.mod_divide Hr]; [|done]. exists (k - q * n * 512). lia.
Qed.

Definition counted (d : Z) s : cache_malloc_state := set_count (wrap64 (cache_count s + d)) s.

Lemma new_cache_spec i prev x (Φ : Z -> cext E -> heapProp Z) :
  class i -> can_take (kern x) (pages i) ->
  (∀ p e, ⌜cache_ok i (fresh_cache i p) /\ (forall q m, blocks (kern x) !! q = Some m -> q + m * PAGE_SIZE <= p \/ p + pages i * PAGE_SIZE <= q) /\
            blocks e = <[p := pages i]> (blocks (kern x))⌝ -∗
     cache_at i prev 0 (fresh_cache i p) -∗ Φ p (upd i (counted 1) (MkExt (cstate x) e))) ⊢ cwp (new_cache (esize i) prev) x Φ.
Proof.
  intros Hi Ht. destruct (class_pages i Hi) as (Hin & Hp & _). destruct (raw_kmalloc_law _ _ Ht Hin) as (p & e & Hrun & Hal & H0 & H1 & Hdis & Hb).
  pose proof (fresh_ok i p Hi H0 H1 Hal) as Hok. destruct (class_layout i Hi) as (Hl & _).
  iIntros "HΦ". unfold new_cache. rewrite idx_from_size //. iApply uwp_bind. iApply uwp_ret. iApply uwp_bind. unfold new_block. fold (pages i).
  iApply (uwp_new_block _ _ p (fun p => words_from p (replicate (Z.to_nat (pages i * PAGE_SIZE / 8)) 0)) x (MkExt (cstate x) e)).
  { unfold on_kern. by rewrite Hrun. }
  { intros d Hd. pose proof (fun z => block_dom i p (replicate (Z.to_nat (pages i * PAGE_SIZE / 8)) 0) z Hi Hal) as Hw. rewrite length_replicate -block_len // in Hw.
    split.
    - intros z [_ Hr]%Hw Hd' ; [|done]. destruct (Hd z Hd') as (_ & q & m & Hq & Hqr). destruct (Hdis q m Hq); lia.
    - intros z [Ha|Ha]%elem_of_union; cbn [kern]; rewrite Hb.
      + destruct (proj1 (Hw z eq_refl) Ha) as [H8 Hr]. split; [done|]. exists p, (pages i). by rewrite lookup_insert_eq.
      + destruct (Hd z Ha) as (H8 & q & m & Hq & Hqr). split; [done|]. exists q, m. split; [|done]. rewrite lookup_insert_ne //. intros ->.
        destruct (Hdis q m Hq); unfold PAGE_SIZE in *; lia. }
  iIntros "Hw". rewrite (fresh_words i p Hi). iDestruct (block_split i 0 0 0 (fresh_cache i p) with "Hw") as "(Hbuf & Hr & Hpv & Hnx & Hpad & Hid)"; [done..|].
  rewrite generic_fields //. iApply uwp_bind. iApply uwp_ret. cbn [fresh_cache c_addr].
  iApply uwp_bind. iApply (cwp_store1 with "Hpv"). iIntros "Hpv". iApply uwp_bind. iApply (cwp_store1 with "Hnx"). iIntros "Hnx".
  iApply uwp_bind. iApply (cwp_store1 with "Hid"). iIntros "Hid". iApply uwp_bind. iApply cwp_upd_state. iApply uwp_ret.
  iApply ("HΦ" $! p e with "[%] [-]"); [done|]. iApply cache_split; [done..|]. destruct (class_size i Hi) as (_ & _ & _ & ->). iFrame.
Qed.

(** ** The cache to take an entry from *)

(** The class grew by a fresh cache, whose block is apart from the others. *)
Definition grew (i p : Z) x x' : Prop :=
  blocks (kern x') = <[p := pages i]> (blocks (kern x)) /\
  (forall q m, blocks (kern x) !! q = Some m -> q + m * PAGE_SIZE <= p \/ p + pages i * PAGE_SIZE <= q).
Definition others (i : Z) x x' : Prop := forall j, j <> Z.to_nat i -> cstate x' !! j = cstate x !! j.

Definition picked (i : Z) cs x cs' (p : Z) x' : Prop :=
  (cs' = cs /\ x' = x) \/ (cs' = cs ++ [fresh_cache i p] /\ grew i p x x' /\ forall c, c ∈ cs -> all_used i c).

Lemma upd_lookup i f x s : cstate x !! Z.to_nat i = Some s -> cstate (upd i f x) !! Z.to_nat i = Some (f s).
Proof. intros H. cbn. by rewrite list_lookup_alter_eq H. Qed.

Lemma upd_others i f x x' : others i x x' -> others i x (upd i f x').
Proof. intros H j Hj. cbn. rewrite list_lookup_alter_ne; [by apply H|congruence]. Qed.

Lemma hd_addr_0 i cs : (forall c, c ∈ cs -> cache_ok i c) -> hd_addr cs 0 = 0 -> cs = [].
Proof. destruct cs as [|c cs]; [done|]. intros H H0. destruct (ca_addr _ _ (H c ltac:(by left))) as [Hc _]. cbn in H0. lia. Qed.

Lemma linked_snoc i cs p n k x q n' k' x' : class i -> linked i cs p n k x -> cache_ok i (fresh_cache i q) -> grew i q x x' ->
  cstate x' !! Z.to_nat i = Some (record i (cs ++ [fresh_cache i q]) q n' k') -> linked i (cs ++ [fresh_cache i q]) q n' k' x'.
Proof.
  intros Hi [_ Hc Hd] Hok [Hb Hdis] Hs. assert (forall c, c ∈ cs -> c_addr c <> q) as Hne.
  { intros c Hin Heq. destruct (Hc c Hin) as [_ Hl]. destruct (class_pages i Hi) as (_ & Hp & _). destruct (Hdis _ _ Hl); unfold PAGE_SIZE in *; lia. }
  split; [done| |].
  - intros c [Hin|[-> |Hn%elem_of_nil]%elem_of_cons]%elem_of_app; [|by rewrite Hb lookup_insert_eq|done].
    destruct (Hc c Hin) as [Hco Hl]. split; [done|]. rewrite Hb lookup_insert_ne //. intros Heq. by apply (Hne c).
  - rewrite fmap_app. apply NoDup_app. split; [done|]. split; [|apply NoDup_singleton].
    intros z (c & -> & Hin)%list_elem_of_fmap [Heq|?%elem_of_nil]%elem_of_cons; [|done]. by apply (Hne c).
Qed.

Lemma pick_cache_spec i cs p n k x (Φ : Z * Z * Z -> cext E -> heapProp Z) :
  class i -> linked i cs p n k x -> found_in i cs (hint p n k) -> (p = 0 -> can_take (kern x) (pages i)) ->
  dseg i 0 cs 0 ⊢ (∀ cs' p' n' k' m j x', ⌜linked i cs' p' m j x' /\ found_in i cs' (Some (p', n', k')) /\ others i x x' /\ picked i cs x cs' p' x'⌝ -∗
    dseg i 0 cs' 0 -∗ Φ (p', n', k') x') -∗ cwp (pick_cache (esize i) i) x Φ.
Proof.
  intros Hi Hl Hf Ht. pose proof (ln_state _ _ _ _ _ _ Hl) as Hs. pose proof (linked_count _ _ _ _ _ _ Hi Hl) as Hn. iIntros "H HΦ". unfold pick_cache.
  iApply uwp_bind. iApply cwp_get_state; [exact Hs|]. cbn [record ff_cache ff_bf_n ff_bf_i last_cache first_cache]. unfold hint in Hf.
  destruct (Z.eqb_spec p 0) as [->|Hp]; cbn [negb].
  2: { iApply uwp_ret. iApply ("HΦ" with "[%] H"). split; [exact Hl|]. split; [done|]. split; [by intros j|by left]. }
  assert (forall c, c ∈ cs -> cache_ok i c) as Hok by (intros c Hc; by apply (ln_cache _ _ _ _ _ _ Hl)).
  iApply uwp_bind. iApply new_cache_spec; [done|by apply Ht|]. iIntros (q e) "(%Hq & %Hdis & %Hb) Hc". set (x1 := upd i (counted 1) (MkExt (cstate x) e)).
  assert (cstate x1 !! Z.to_nat i = Some (counted 1 (record i cs 0 n k))) as Hs1 by (by apply upd_lookup).
  assert (others i x x1) as Ho1 by (apply upd_others; by intros j).
  assert (forall f, (forall s, s = counted 1 (record i cs 0 n k) -> set_free_cache q (set_last q (f s)) = record i (cs ++ [fresh_cache i q]) q n k) ->
    let x' := upd i (set_free_cache q) (upd i (set_last q) (upd i f x1)) in
    linked i (cs ++ [fresh_cache i q]) q n k x' /\ found_in i (cs ++ [fresh_cache i q]) (Some (q, 0, 0)) /\ others i x x' /\ picked i cs x (cs ++ [fresh_cache i q]) q x') as Hfin.
  { intros f Hrec x'. assert (grew i q x x') as Hg by done. split; [|split; [|split]].
    - apply (linked_snoc i cs 0 n k x); [done..|]. rewrite -(Hrec _ eq_refl). by do 3 apply upd_lookup.
    - exists (fresh_cache i q). destruct (class_layout i Hi) as (_ & _ & _ & H1 & _ & _ & _ & H2). split; [apply elem_of_app; right; by left|]. repeat (split; [by (done || lia)|]).
      apply bit_zeros. lia.
    - by do 3 apply upd_others.
    - right. split; [done|]. split; [done|]. exact Hf. }
  assert (wrap64 (Z.of_nat (length cs) + 1) = Z.of_nat (length (cs ++ [fresh_cache i q]))) as Hcnt.
  { rewrite length_app wrap_small; [cbn; lia|unfold u_range; cbn; lia]. }
  destruct (Z.eqb_spec (hd_addr cs 0) 0) as [E0|Hne].
  - apply (hd_addr_0 i) in E0 as ->; [|done]. iApply uwp_bind. iApply cwp_upd_state. iApply uwp_bind. iApply cwp_upd_state. iApply uwp_bind. iApply cwp_upd_state.
    iApply uwp_ret. iApply ("HΦ" $! ([] ++ [fresh_cache i q]) q 0 0 n k with "[%] [Hc]"); [|by iFrame "Hc"]. apply Hfin. intros s ->. by rewrite /record -Hcnt.
  - iApply uwp_bind. rewrite generic_fields //. iApply uwp_bind. iApply uwp_ret.
    assert (cs <> []) as Hcs by (by intros ->). iDestruct (dseg_last with "H") as "[Hnx H]"; [done..|]. iApply (cwp_store1 with "Hnx"). iIntros "Hnx".
    iApply uwp_bind. iApply cwp_upd_state. iApply uwp_bind. iApply cwp_upd_state. iApply uwp_ret.
    iApply ("HΦ" $! (cs ++ [fresh_cache i q]) q 0 0 n k with "[%] [-]"); [|rewrite dseg_app; cbn [dseg hd_addr fresh_cache c_addr]; iFrame "Hc"; by iApply "H"].
    assert (x1 = upd i (fun s => s) x1) as Hid by (unfold x1, upd; cbn; by rewrite (list_alter_id (fun s => s))). rewrite Hid. apply Hfin. intros s ->.
    unfold record, counted, set_free_cache, set_free, set_last, set_count. cbn. rewrite Hcnt hd_addr_app last_addr_snoc. f_equal. by destruct cs.
Qed.
(** ** The entry and the next slot *)

Definition put_bits (ws : list Z) (e w : Z) : list Z := <[Z.to_nat (e / 64) := w]> ws.
Definition mark (e : Z) c : cache := with_bits (put_bits (c_bits c) e (bitfield_set_high 64 (c_bits c !!! Z.to_nat (e / 64)) (e mod 64))) c.

Lemma bit_mark i c e j : class i -> cache_ok i c -> 0 <= e < entries i -> 0 <= j < 64 * bitfields i ->
  bit (c_bits (mark e c)) j = (j =? e) || bit (c_bits c) j.
Proof. intros Hi Hc He Hj. destruct (class_layout i Hi) as (_ & _ & _ & _ & _ & Hb & _). apply (bit_set_one (64 * bitfields i)); [apply Hc|lia|done]. Qed.

Lemma mark_ok i c e : class i -> cache_ok i c -> 0 <= e < entries i -> cache_ok i (mark e c).
Proof.
  intros Hi Hc He. destruct (class_layout i Hi) as (_ & _ & _ & H1 & _ & Hb & _). split; [apply Hc|apply Hc| |].
  - apply words_ok_put; [apply Hc|]. apply bitfield_set_range. lia.
  - intros j Hj. rewrite (bit_mark i) //; [|lia]. rewrite (ca_unused _ _ Hc j Hj). destruct (Z.eqb_spec j e); [lia|done].
Qed.

Lemma record_addrs i cs cs' p n k : c_addr <$> cs = c_addr <$> cs' -> record i cs p n k = record i cs' p n k.
Proof.
  intros H. unfold record. assert (length cs = length cs') as -> by (by rewrite -(length_fmap c_addr cs) H length_fmap). f_equal.
  - assert (forall l next, hd_addr l next = default next (head (c_addr <$> l))) as Hh by (by intros []). by rewrite !Hh H.
  - assert (forall prev l, last_addr prev l = default prev (last (c_addr <$> l))) as Hh by (intros prev l; unfold last_addr; rewrite fmap_last; by destruct (last l)). by rewrite !Hh H.
Qed.

Lemma linked_bits i a c ws b p n k x : linked i (a ++ c :: b) p n k x -> cache_ok i (with_bits ws c) -> linked i (a ++ with_bits ws c :: b) p n k x.
Proof.
  intros [Hs Hc Hd] Hok. assert (c_addr <$> a ++ c :: b = c_addr <$> a ++ with_bits ws c :: b) as Ha by by rewrite !fmap_app. split.
  - by rewrite Hs (record_addrs _ _ _ _ _ _ Ha).
  - intros d [Hd'|[->|Hd']%elem_of_cons]%elem_of_app.
    + apply Hc. apply elem_of_app. by left.
    + split; [done|]. apply (Hc c). apply elem_of_app. right. by left.
    + apply Hc. apply elem_of_app. right. by right.
  - by rewrite -Ha.
Qed.

Lemma last_by_addr cs fr a c b : NoDup (c_addr <$> cs ++ [fr]) -> a ++ c :: b = cs ++ [fr] -> c_addr c = c_addr fr -> a = cs /\ c = fr /\ b = [].
Proof.
  intros Hd Heq Hc. destruct b as [|d b _] using rev_ind; [by apply app_inj_tail in Heq as [-> ->]|exfalso].
  rewrite app_comm_cons app_assoc in Heq. apply app_inj_tail in Heq as [<- ->]. rewrite fmap_app in Hd. apply NoDup_app in Hd as (_ & Hd & _).
  apply (Hd (c_addr c)); [|rewrite Hc; by left]. apply list_elem_of_fmap. exists c. split; [done|]. apply elem_of_app. right. by left.
Qed.

Lemma linked_hint i cs p n k p' n' k' x : linked i cs p n k x -> linked i cs p' n' k' (upd i (set_free p' n' k') x).
Proof. intros [Hs Hc Hd]. split; [exact (upd_lookup i (set_free p' n' k') x _ Hs)|done|done]. Qed.

Lemma note_free_spec i a c b n k p n0 k0 x (Φ : unit -> cext E -> heapProp Z) :
  class i -> linked i (a ++ c :: b) p n0 k0 x -> 0 <= n <= bitfields i -> 0 <= k < 64 ->
  dseg i 0 (a ++ c :: b) 0 ⊢ (∀ p' n' k', ⌜found_in i (a ++ c :: b) (hint p' n' k')⌝ -∗ dseg i 0 (a ++ c :: b) 0 -∗ Φ tt (upd i (set_free p' n' k') x)) -∗
    cwp (note_free (esize i) i (c_addr c) (fields_at i (c_addr c)) n k) x Φ.
Proof.
  intros Hi Hl Hn Hk. set (cs := a ++ c :: b) in *. assert (c ∈ cs) as Hin by (apply elem_of_app; right; by left).
  assert (forall d, d ∈ cs -> cache_ok i d) as Hok by (intros d Hd; by apply (ln_cache _ _ _ _ _ _ Hl)). pose proof (Hok c Hin) as Hc.
  assert (forall d, d ∈ cs -> hint (c_addr d) = fun n k => Some (c_addr d, n, k)) as Hh.
  { intros d Hd. destruct (ca_addr _ _ (Hok d Hd)) as [H0 _]. unfold hint. by rewrite (proj2 (Z.eqb_neq _ _)); [|lia]. }
  iIntros "H HΦ". unfold note_free. iApply uwp_bind. unfold cs. iDestruct (dseg_open with "H") as (pv nx) "[Hc H]".
  iDestruct (cache_split with "Hc") as "(Hbuf & Hr & Hrest)"; [done..|]. iApply (find_empty_slot_spec i _ (c_bits c) with "Hr"); [done|done|by apply ca_length|done|done|].
  iIntros ([[f n'] k']) "%Ha Hr". iSpecialize ("H" $! (c_bits c) with "[Hbuf Hr Hrest]").
  { iApply cache_split; [done|by destruct c|iFrame]. }
  assert (with_bits (c_bits c) c = c) as -> by by destruct c. fold cs. destruct f.
  - iApply cwp_upd_state. iApply ("HΦ" with "[%] H"). rewrite (Hh c Hin). exists c. destruct Ha as (H1 & H2 & H3 & H4). repeat (split; [done|]). split; [lia|done].
  - iApply uwp_bind. iApply cwp_get_state; [apply Hl|]. cbn [record cache_count first_cache]. iApply uwp_bind.
    iApply (first_with_slot_spec i x with "H"); [done|lia|done|]. iIntros (o) "%Ho H". destruct o as [[[q m] j]|].
    + iApply cwp_upd_state. iApply ("HΦ" with "[%] H"). pose proof Ho as (d & Hd & -> & _). by rewrite (Hh d Hd).
    + iApply cwp_upd_state. by iApply ("HΦ" with "[%] H").
Qed.

(** ** cache_malloc *)

(** The answer [r] is an entry that was not in use and is now; a class
    without empty slots grows by a cache. *)
Definition took (i : Z) cs x (r : Z) cs' x' : Prop :=
  exists a c b e, 0 <= e < entries i /\ bit (c_bits c) e = false /\ r = c_addr c + e * esize i /\ cs' = a ++ mark e c :: b /\
    ((cs = a ++ c :: b /\ kern x' = kern x) \/
     (cs = a /\ b = [] /\ c = fresh_cache i (c_addr c) /\ grew i (c_addr c) x x' /\ forall d, d ∈ cs -> all_used i d)).

Lemma entry_addr i c e : class i -> cache_ok i c -> 0 <= e < entries i ->
  c_addr c <= c_addr c + e * esize i /\ c_addr c + e * esize i + esize i <= c_addr c + 8 * buf_words i /\ 8 * buf_words i < pages i * PAGE_SIZE.
Proof.
  intros Hi Hc He. destruct (class_layout i Hi) as (Hl & Hb & _ & _ & Hs & _ & Hp & Hf). unfold PAGE_SIZE. rewrite Hb. nia.
Qed.

Lemma cache_malloc_spec i cs x (Φ : Z -> cext E -> heapProp Z) :
  class i -> slab_ok i cs x -> ((forall c, c ∈ cs -> all_used i c) -> can_take (kern x) (pages i)) ->
  dseg i 0 cs 0 ⊢ (∀ r cs' x', ⌜slab_ok i cs' x' /\ took i cs x r cs' x' /\ others i x x'⌝ -∗ dseg i 0 cs' 0 -∗ Φ r x') -∗
    cwp (cache_malloc (esize i)) x Φ.
Proof.
  intros Hi (p & n & k & Hl & Hf & Hu) Ht. iIntros "H HΦ". unfold cache_malloc. rewrite idx_from_size //. iApply uwp_bind. iApply uwp_ret.
  iApply uwp_bind. iApply (pick_cache_spec with "H"); [done|done|done|intros ->; by apply Ht|].
  iIntros (cs1 p1 n1 k1 m j x1) "(%Hl1 & %Hf1 & %Ho1 & %Hpick) H". destruct Hf1 as (c & Hin & -> & H1 & H2 & H3 & H4).
  assert (cache_ok i c) as Hc by (by apply (ln_cache _ _ _ _ _ _ Hl1)). destruct (class_layout i Hi) as (_ & _ & Hbf & _ & Hs & Hbe & _ & Hb0).
  pose proof (ca_length i c Hi Hc) as Hlen. apply list_elem_of_split in Hin as (a & b & ->).
  rewrite generic_fields //. iApply uwp_bind. iApply uwp_ret. iApply uwp_bind. iDestruct (dseg_open with "H") as (pv nx) "[Hc H]".
  iDestruct (cache_split with "Hc") as "(Hbuf & Hr & Hrest)"; [done..|]. iApply (find_empty_slot_spec i _ (c_bits c) with "Hr"); [done|done|done|lia|done|].
  iIntros ([[f n'] k']) "%Ha Hr". destruct f; [|exfalso; specialize (Ha (n1 * 64 + k1) ltac:(lia)); congruence].
  destruct Ha as (G1 & G2 & G3 & G4). set (e := n' * 64 + k') in *. assert (e / 64 = n' /\ e mod 64 = k') as [Ed Em].
  { pose proof (Z.div_mod e 64). pose proof (Z.mod_pos_bound e 64). lia. }
  iApply uwp_bind. iApply uwp_ret. destruct (lookup_lt_is_Some_2 (c_bits c) (Z.to_nat n')) as [w Hw]; [lia|].
  iApply uwp_bind. iApply (cwp_load with "Hr"); [exact Hw|lia|]. iIntros "Hr". iApply uwp_bind. iApply uwp_mem.
  iApply (hwp_array_store _ _ _ (Z.to_nat n') with "Hr"); [lia|lia|]. iIntros "Hr".
  assert (<[Z.to_nat n' := bitfield_set_high 64 w k']> (c_bits c) = c_bits (mark e c)) as ->.
  { cbn. unfold put_bits. by rewrite Ed Em (list_lookup_total_correct _ _ _ Hw). }
  assert (0 <= e < entries i) as He by lia. pose proof (mark_ok i c e Hi Hc He) as Hm.
  iSpecialize ("H" $! (c_bits (mark e c)) with "[Hbuf Hr Hrest]"); [iApply cache_split; [done..|iFrame]|].
  change (with_bits (c_bits (mark e c)) c) with (mark e c). pose proof (linked_bits i a c _ b _ _ _ _ Hl1 Hm) as Hl2.
  iApply uwp_bind. change (c_addr c) with (c_addr (mark e c)). iApply (note_free_spec i a (mark e c) b with "H"); [done|exact Hl2|lia|lia|].
  iIntros (p' n2 k2) "%Hh H". iApply uwp_ret. change (n' * BF_BITS + k') with e. destruct (entry_addr i c e Hi Hc He) as (A1 & A2 & A3).
  destruct (class_size i Hi) as (_ & Es & _). destruct (ca_addr _ _ Hc) as (B1 & B2 & _).
  assert (wrap64 (f_buf (fields_at i (c_addr (mark e c))) + 8 * (e * (esize i / 8))) = c_addr c + e * esize i) as ->.
  { cbn [fields_at f_buf mark with_bits c_addr]. replace (8 * (e * (esize i / 8))) with (e * esize i) by lia. apply wrap_small. unfold u_range. lia. }
  assert (picked i cs x (a ++ c :: b) (c_addr c) x1 -> (cs = a ++ c :: b /\ x1 = x) \/
    (a = cs /\ b = [] /\ c = fresh_cache i (c_addr c) /\ grew i (c_addr c) x x1 /\ forall d, d ∈ cs -> all_used i d)) as Hcase.
  { intros [[-> ->]|(Epk & Hg & Hall)]; [by left|right]. pose proof (ln_nodup _ _ _ _ _ _ Hl1) as Hnd. rewrite Epk in Hnd. by destruct (last_by_addr _ _ _ _ _ Hnd Epk eq_refl) as (-> & Ec & ->). }
  specialize (Hcase Hpick). iApply ("HΦ" with "[%] H"). split; [|split; [|by apply upd_others]].
  - exists p', n2, k2. split; [by eapply linked_hint|]. split; [done|]. intros d Hd.
    assert (in_use i (mark e c)) as Hme by (exists e; split; [done|]; rewrite (bit_mark i) //; [by rewrite Z.eqb_refl|lia]).
    apply elem_of_app in Hd as [Hd|[->|Hd]%elem_of_cons]; [|done|]; destruct Hcase as [[-> _]|(-> & -> & _)]; try (apply Hu; set_solver).
  - exists a, c, b, e. repeat (split; [done|]). destruct Hcase as [[-> ->]|(-> & -> & Ec & Hg & Hall)]; [by left|by right].
Qed.
End Alloc.
