(* ===== verification/CacheFree.v ===== *)
(** * CacheFree: cache_free

    How a pointer leads to its cache, and what cache_free does to the class. *)

From Stdlib Require Import ZArith Lia.
From stdpp Require Import base gmap list.
From iris.proofmode Require Import proofmode.
From S2P Require Import Prelude KMath VmContainers VmContainersSpec HeapLogic HeapBlocks CacheMalloc UregionCommit CacheSpec CacheAlloc.

Open Scope Z_scope.

(** ** From a pointer to its class *)

Lemma cache_id_ok i : class i -> Z.land (cache_id i) CACHE_ID_MAGIC = CACHE_ID_MAGIC /\ power_of2 (Z.land (cache_id i) CACHE_ID_MASK) = esize i.
Proof. intros Hi. by_class i. Qed.

Lemma align_down_block p off k : p mod 2 ^ k = 0 -> 0 <= off < 2 ^ k -> 0 <= p -> p + off < 2 ^ 64 -> 0 <= k < 64 -> align_down (p + off) (2 ^ k) = p.
Proof.
  intros Hp Ho H0 Hlt Hk. rewrite align_down_pow2 //; [|unfold is_u64, u_range; lia].
  rewrite -Zplus_mod_idemp_l Hp Z.mod_small; lia.
Qed.

Lemma block_words_len i pv nx id c : class i -> cache_ok i c -> length (block_words i pv nx id c) = Z.to_nat (pages i * 512).
Proof.
  intros Hi Hc. pose proof (ca_length i c Hi Hc). pose proof (ca_buf _ _ Hc). destruct (class_layout i Hi) as (Hl & _ & _ & _ & _ & _ & Hp & _).
  unfold block_words. rewrite !length_app length_replicate. cbn [length]. lia.
Qed.

Lemma block_words_id i pv nx id c : class i -> cache_ok i c -> block_words i pv nx id c !! Z.to_nat (pages i * 512 - 1) = Some id.
Proof.
  intros Hi Hc. pose proof (block_words_len i pv nx id c Hi Hc) as Hl. destruct (class_pages i Hi) as (_ & Hp & _). unfold block_words in *. rewrite !app_assoc in Hl |- *.
  rewrite length_app in Hl. cbn [length] in Hl. apply list_lookup_middle. lia.
Qed.

Lemma large_buf i : class i -> pages i = 4 \/ 2047 < buf_words i.
Proof. intros Hi. by_class i; first [by left|by right]. Qed.

Lemma block_words_buf i pv nx id c : class i -> cache_ok i c -> pages i = 8 -> block_words i pv nx id c !! 2047%nat = Some (c_buf c !!! 2047%nat).
Proof.
  intros Hi Hc H8. assert (2047 < buf_words i) as Hb by (destruct (large_buf i Hi); [congruence|done]). pose proof (ca_buf _ _ Hc). unfold block_words.
  rewrite lookup_app_l; [|lia]. apply list_lookup_lookup_total_lt. lia.
Qed.

(** In a cache of 8 pages the word that is looked at first is data when the
    entry is in the lower half. *)
Definition no_fake_id (i e : Z) (c : cache) : Prop :=
  pages i = 8 -> e * esize i < 4 * PAGE_SIZE -> Z.land (c_buf c !!! 2047%nat) CACHE_ID_MAGIC <> CACHE_ID_MAGIC.

Section Free.
Context {E : Type} `{!RawAlloc E} `{!RawLaws E}.
Abbreviation cwp := (uwp (in_blocks (E := E))).
Implicit Types (x : cext E) (c : cache) (cs a b : list cache) (s : cache_malloc_state).

Lemma size_from_ptr_spec i c pv nx e x (Φ : option Z -> cext E -> heapProp Z) :
  class i -> cache_ok i c -> 0 <= e < entries i -> no_fake_id i e c ->
  cache_at i pv nx c ⊢ (cache_at i pv nx c -∗ Φ (Some (esize i)) x) -∗ cwp (cache_malloc_size_from_ptr (c_addr c + e * esize i)) x Φ.
Proof.
  intros Hi Hc He Hno. destruct (entry_addr i c e Hi Hc He) as (H1 & H2 & H3). destruct (ca_addr _ _ Hc) as (B1 & B2 & B3).
  destruct (class_layout i Hi) as (_ & _ & _ & _ & Hs & _). destruct (cache_id_ok i Hi) as [Hm Hz]. destruct (class_pages i Hi) as (_ & Hp & _).
  set (off := e * esize i) in *. assert (0 <= off) as Hoff by lia.
  assert (forall n, Z.land n CACHE_ID_MAGIC = CACHE_ID_MAGIC -> negb (Z.land n CACHE_ID_MAGIC =? CACHE_ID_MAGIC) = false) as Hyes by (intros n ->; by rewrite Z.eqb_refl).
  iIntros "H HΦ". unfold cache_malloc_size_from_ptr, CACHE_PAGE_SIZES. cbn [size_from_pages]. iApply uwp_bind. unfold cache_at.
  change (PAGE_SIZE * 4) with (2 ^ 14). change (PAGE_SIZE * 8) with (2 ^ 15).
  assert (c_addr c mod 2 ^ 14 = 0) as B4.
  { apply Z.mod_divide in B3 as [q Hq]; [|by destruct Hp as [-> | ->]]. apply Z.mod_divide; [done|].
    destruct Hp as [Ep|Ep]; rewrite Ep in Hq; unfold PAGE_SIZE in Hq; [exists q|exists (q * 2)]; lia. }
  destruct Hp as [Ep|Ep]; [|destruct (decide (off < 2 ^ 14)) as [Hlow|Hhigh]].
  - rewrite (align_down_block (c_addr c) off 14); [|done|unfold PAGE_SIZE in *; lia..].
    iApply (cwp_load with "H"); [by apply block_words_id|rewrite Ep; unfold PAGE_SIZE; lia|]. iIntros "H". rewrite (Hyes _ Hm) Hz. iApply uwp_ret. by iApply "HΦ".
  - rewrite (align_down_block (c_addr c) off 14); [|done|unfold PAGE_SIZE in *; lia..].
    iApply (cwp_load with "H"); [by apply block_words_buf|unfold PAGE_SIZE; lia|]. iIntros "H".
    assert (negb (Z.land (c_buf c !!! 2047%nat) CACHE_ID_MAGIC =? CACHE_ID_MAGIC) = true) as -> by (apply negb_true_iff, Z.eqb_neq, Hno; [done|exact Hlow]).
    iApply uwp_bind. rewrite (align_down_block (c_addr c) off 15); [|by rewrite Ep in B3|unfold PAGE_SIZE in *; lia..].
    iApply (cwp_load with "H"); [by apply block_words_id|rewrite Ep; unfold PAGE_SIZE; lia|]. iIntros "H". rewrite (Hyes _ Hm) Hz. iApply uwp_ret. by iApply "HΦ".
  - replace (c_addr c + off) with (c_addr c + 2 ^ 14 + (off - 2 ^ 14)) by lia.
    rewrite (align_down_block (c_addr c + 2 ^ 14) (off - 2 ^ 14) 14); [|by rewrite -Zplus_mod_idemp_l B4|unfold PAGE_SIZE in *; lia..].
    iApply (cwp_load with "H"); [by apply block_words_id|rewrite Ep; unfold PAGE_SIZE; lia|]. iIntros "H". rewrite (Hyes _ Hm) Hz. iApply uwp_ret. by iApply "HΦ".
Qed.

(** ** A cache without entries in use *)

Lemma all_zero_spec x (Φ : bool -> cext E -> heapProp Z) : forall ws r,
  array r ws ⊢ (∀ f, ⌜f = true <-> Forall (fun w => w = 0) ws⌝ -∗ array r ws -∗ Φ f x) -∗ cwp (all_zero (length ws) r) x Φ.
Proof.
  induction ws as [|w ws IH]; intros r; cbn [length all_zero]; iIntros "H HΦ".
  - iApply uwp_ret. by iApply ("HΦ" with "[%] H").
  - iDestruct (array_cons with "H") as "[Hw H]". iApply uwp_bind. iApply (cwp_load1 with "Hw"). iIntros "Hw". destruct (Z.eqb_spec w 0) as [->|Hne]; cbn [negb].
    + iApply (IH with "H"). iIntros (f) "%Hf H". iApply ("HΦ" with "[%] [-]"); [|iApply array_cons; iFrame]. rewrite Hf Forall_cons. tauto.
    + iApply uwp_ret. iApply ("HΦ" with "[%] [-]"); [|iApply array_cons; iFrame]. split; [done|]. by intros [? _]%Forall_cons.
Qed.

Lemma zero_words i c : class i -> cache_ok i c -> Forall (fun w => w = 0) (c_bits c) <-> ~ in_use i c.
Proof.
  intros Hi Hc. pose proof (ca_length i c Hi Hc) as Hl. destruct (class_layout i Hi) as (_ & _ & _ & _ & _ & Hb & _). split.
  - intros Hz (e & He & Hbit). rewrite Forall_forall in Hz. unfold bit in Hbit.
    rewrite (Hz (c_bits c !!! Z.to_nat (e / 64))) in Hbit; [by rewrite Z.bits_0 in Hbit|]. apply list_elem_of_lookup_total_2.
    assert (0 <= e / 64 < bitfields i) by (split; [apply Z.div_pos; lia|apply Z.div_lt_upper_bound; lia]). lia.
  - intros Hno. apply Forall_lookup. intros j w Hj. destruct (decide (w = 0)) as [|Hne]; [done|]. exfalso. apply Hno.
    pose proof (lookup_lt_Some _ _ _ Hj) as Hjl. destruct (ca_bits _ _ Hc) as [_ Hu]. rewrite Forall_lookup in Hu. pose proof (Hu _ _ Hj) as Hw. unfold is_u64, u_range in Hw.
    assert (0 <= Z.log2 w < 64) as Hlog by (split; [apply Z.log2_nonneg|apply Z.log2_lt_pow2; lia]). set (e := Z.of_nat j * 64 + Z.log2 w).
    assert (bit (c_bits c) e = true) as Hbit.
    { unfold e. rewrite bit_word; [|lia|lia]. rewrite Nat2Z.id (list_lookup_total_correct _ _ _ Hj). apply Z.bit_log2. lia. }
    exists e. split; [|done]. split; [lia|]. destruct (decide (e < entries i)) as [|Hge]; [done|]. rewrite (ca_unused _ _ Hc e) in Hbit; [done|lia].
Qed.

Lemma in_use_dec i c : in_use i c \/ ~ in_use i c.
Proof.
  destruct (decide (Exists (fun e => bit (c_bits c) e = true) (seqZ 0 (entries i)))) as [H|H]; rewrite Exists_exists in H; [left|right].
  - destruct H as (e & He%elem_of_seqZ & Hb). exists e. split; [lia|done].
  - intros (e & He & Hb). apply H. exists e. split; [apply elem_of_seqZ; lia|done].
Qed.

Definition unmark (e : Z) c : cache := with_bits (put_bits (c_bits c) e (bitfield_clear 64 (c_bits c !!! Z.to_nat (e / 64)) (e mod 64))) c.

Lemma bit_unmark i c e j : class i -> cache_ok i c -> 0 <= e < entries i -> 0 <= j < 64 * bitfields i ->
  bit (c_bits (unmark e c)) j = negb (j =? e) && bit (c_bits c) j.
Proof.
  intros Hi Hc He Hj. destruct (class_layout i Hi) as (_ & _ & _ & _ & _ & Hb & _). assert (0 <= e < 64 * bitfields i) as He' by lia.
  pose proof (word_index _ _ _ (ca_bits _ _ Hc) He') as Li. pose proof (Z.mod_pos_bound e 64). pose proof (Z.mod_pos_bound j 64).
  unfold unmark, bit. cbn [c_bits with_bits]. unfold put_bits. destruct (decide (e / 64 = j / 64)) as [Eq|Ne].
  - rewrite Eq list_lookup_total_insert_eq; [|by rewrite -Eq]. rewrite bitfield_clear_bit; [|lia|by eapply words_ok_get; [apply Hc|rewrite -Eq]|lia..].
    pose proof (Z.div_mod e 64). pose proof (Z.div_mod j 64). destruct (Z.eqb_spec (j mod 64) (e mod 64)), (Z.eqb_spec j e); (lia || done).
  - rewrite list_lookup_total_insert_ne; [by destruct (Z.eqb_spec j e) as [->|]|].
    assert (0 <= e / 64 /\ 0 <= j / 64) by (split; apply Z.div_pos; lia). lia.
Qed.

Lemma unmark_ok i c e : class i -> cache_ok i c -> 0 <= e < entries i -> cache_ok i (unmark e c).
Proof.
  intros Hi Hc He. destruct (class_layout i Hi) as (_ & _ & _ & H1 & _ & Hb & _). split; [apply Hc|apply Hc| |].
  - apply words_ok_put; [apply Hc|]. apply bitfield_clear_range; [lia|]. eapply words_ok_get; [apply Hc|]. eapply word_index; [apply Hc|lia].
  - intros j Hj. rewrite (bit_unmark i) //; [|lia]. rewrite (ca_unused _ _ Hc j Hj). by rewrite andb_false_r.
Qed.
(** ** Giving back a cache *)

Lemma last_addr_0 i a : (forall c, c ∈ a -> cache_ok i c) -> last_addr 0 a = 0 -> a = [].
Proof.
  destruct a as [|c a _] using rev_ind; [done|]. intros H H0. rewrite last_addr_snoc in H0. destruct (ca_addr _ _ (H c ltac:(set_solver))) as [Hc _]. lia.
Qed.

Lemma last_addr_app prev a b : last_addr prev (a ++ b) = last_addr (last_addr prev a) b.
Proof. revert prev. induction a as [|c a IH]; intros prev; [done|]. cbn [app]. by rewrite !last_addr_cons IH. Qed.

(** The record with the ends of another list. *)
Definition relink cs s : cache_malloc_state := set_last (last_addr 0 cs) (set_first (hd_addr cs 0) s).

Lemma unlink_spec i a c b pv nx p n k x (Φ : unit -> cext E -> heapProp Z) :
  class i -> (forall d, d ∈ a ++ b -> cache_ok i d) -> cache_ok i c -> cstate x !! Z.to_nat i = Some (record i (a ++ c :: b) p n k) ->
  pv = last_addr 0 a -> nx = hd_addr b 0 ->
  dseg i 0 a (c_addr c) ∗ cache_at i pv nx c ∗ dseg i (c_addr c) b 0 ⊢
  (∀ x', ⌜cstate x' !! Z.to_nat i = Some (relink (a ++ b) (record i (a ++ c :: b) p n k)) /\ kern x' = kern x /\ others i x x'⌝ -∗
     dseg i 0 (a ++ b) 0 -∗ cache_at i pv nx c -∗ Φ tt x') -∗ cwp (unlink_cache (esize i) i (fields_at i (c_addr c))) x Φ.
Proof.
  intros Hi Hok Hc Hs -> ->. assert (forall d, d ∈ a -> cache_ok i d) as Ha by set_solver. assert (forall d, d ∈ b -> cache_ok i d) as Hb by set_solver.
  iIntros "(HA & Hc & HB) HΦ". iDestruct (cache_split with "Hc") as "(Hbuf & Hr & Hp & Hn & Hrest)"; [done..|]. unfold unlink_cache.
  iApply uwp_bind. iApply (cwp_load1 with "Hp"). iIntros "Hp". iApply uwp_bind.
  iAssert (∀ x1, ⌜cstate x1 !! Z.to_nat i = Some (set_first (hd_addr (a ++ b) 0) (record i (a ++ c :: b) p n k)) /\ kern x1 = kern x /\ others i x x1⌝ -∗
    dseg i 0 a (hd_addr b 0) -∗ f_prev (fields_at i (c_addr c)) ↦ last_addr 0 a -∗ f_next (fields_at i (c_addr c)) ↦ hd_addr b 0 -∗
    cwp (let* next := rd (f_next (fields_at i (c_addr c))) in
      (if negb (next =? 0) then let* next_f := get_generic_fields (esize i) next in let* prev := rd (f_prev (fields_at i (c_addr c))) in wr (f_prev next_f) prev
       else let* prev := rd (f_prev (fields_at i (c_addr c))) in upd_state i (set_last prev))) x1 Φ)%I with "[HB HΦ Hbuf Hr Hrest]" as "Hk".
  { iIntros (x1) "(%Hs1 & %Hk1 & %Ho1) HA Hp Hn". iApply uwp_bind. iApply (cwp_load1 with "Hn"). iIntros "Hn". destruct (Z.eqb_spec (hd_addr b 0) 0) as [E0|Hne]; cbn [negb].
    - iApply uwp_bind. iApply (cwp_load1 with "Hp"). iIntros "Hp". iApply cwp_upd_state. apply (hd_addr_0 i) in E0 as ->; [|done].
      iApply ("HΦ" with "[%] [HA] [-]"); [|by rewrite app_nil_r|iApply cache_split; [done..|iFrame]]. rewrite app_nil_r in Hs1 |- *.
      split; [|split; [done|by apply upd_others]]. exact (upd_lookup i _ x1 _ Hs1).
    - rewrite generic_fields //. iApply uwp_bind. iApply uwp_ret. iApply uwp_bind. iApply (cwp_load1 with "Hp"). iIntros "Hp".
      assert (b <> []) as Hbn by (by intros ->). iDestruct (dseg_first with "HB") as "[Hb HB]"; [done..|]. iApply (cwp_store1 with "Hb"). iIntros "Hb".
      iApply ("HΦ" with "[%] [HA HB Hb] [-]"); [|rewrite dseg_app; iFrame "HA"; by iApply "HB"|iApply cache_split; [done..|iFrame]].
      split; [|done]. rewrite Hs1. f_equal. unfold relink, set_last, record, set_first. cbn. f_equal. rewrite !last_addr_app last_addr_cons. destruct b; [done|]. by rewrite !last_addr_cons. }
  destruct (Z.eqb_spec (last_addr 0 a) 0) as [E0|Hne]; cbn [negb].
  - iApply uwp_bind. iApply (cwp_load1 with "Hn"). iIntros "Hn". iApply cwp_upd_state. apply (last_addr_0 i) in E0 as ->; [|done].
    iApply ("Hk" with "[%] [] Hp Hn"); [|done]. split; [|split; [done|by apply upd_others]]. exact (upd_lookup i _ x _ Hs).
  - rewrite generic_fields //. iApply uwp_bind. iApply uwp_ret. iApply uwp_bind. iApply (cwp_load1 with "Hn"). iIntros "Hn".
    assert (a <> []) as Han by (by intros ->). iDestruct (dseg_last with "HA") as "[Ha HA]"; [done..|]. iApply (cwp_store1 with "Ha"). iIntros "Ha".
    iApply ("Hk" with "[%] [HA Ha] Hp Hn"); [|by iApply "HA"]. split; [|done]. rewrite Hs. f_equal. unfold set_first, record. cbn. f_equal. by destruct a.
Qed.

Lemma drop_block_spec i c pv nx x (Φ : unit -> cext E -> heapProp Z) :
  class i -> cache_ok i c -> blocks (kern x) !! c_addr c = Some (pages i) ->
  cache_at i pv nx c ⊢ (∀ e, ⌜blocks e = delete (c_addr c) (blocks (kern x))⌝ -∗ Φ tt (MkExt (cstate x) e)) -∗ cwp (drop_block (c_addr c) (pages i)) x Φ.
Proof.
  intros Hi Hc Hb. destruct (raw_kfree_law _ _ _ Hb) as (e & Hrun & He). destruct (ca_addr _ _ Hc) as (_ & _ & Hal).
  pose proof (fun z => block_dom i (c_addr c) (block_words i pv nx (cache_id i) c) z Hi Hal (block_words_len i pv nx _ c Hi Hc)) as Hd.
  iIntros "H HΦ". iSpecialize ("HΦ" $! e with "[//]"). unfold drop_block, cache_at, array.
  iApply (uwp_drop_block _ _ (fun z => c_addr c <= z < c_addr c + pages i * PAGE_SIZE) _ x tt (MkExt (cstate x) e) with "H HΦ").
  - unfold on_kern. by rewrite Hrun.
  - intros z Hz d Hok Hin. apply Hd. split; [apply (Hok z Hin)|done].
  - intros z Hz. by apply Hd.
  - intros d Hok z [Hz1 Hz2]%elem_of_difference. destruct (Hok z Hz1) as (H8 & q & m & Hq & Hr). split; [done|]. exists q, m. split; [|done].
    cbn [kern]. rewrite He lookup_delete_ne //. intros <-. apply Hz2. apply Hd. split; [done|]. rewrite Hb in Hq. by injection Hq as <-.
Qed.

Lemma found_in_sub i cs cs' o : (forall c, c ∈ cs' -> c ∈ cs) -> (forall p n k, o = Some (p, n, k) -> exists c, c ∈ cs' /\ p = c_addr c) ->
  NoDup (c_addr <$> cs) -> found_in i cs o -> found_in i cs' o.
Proof.
  intros Hsub Ho Hd. destruct o as [[[p n] k]|]; [|intros H c Hc; by apply H, Hsub]. intros (c & Hc & -> & Hr).
  destruct (Ho _ _ _ eq_refl) as (c' & Hc' & Heq). exists c'. split; [done|]. split; [done|].
  assert (c' = c) as ->; [|done]. apply list_elem_of_lookup in Hc as [j Hj]. apply Hsub, list_elem_of_lookup in Hc' as [j' Hj'].
  assert (j = j') as <-; [|congruence]. apply (NoDup_lookup _ _ _ (c_addr c) Hd); rewrite list_lookup_fmap; [by rewrite Hj|by rewrite Hj' Heq].
Qed.

(** Whether an entry of the cache stays in use decides what becomes of it. *)
Definition gave (i : Z) a c b (e : Z) x cs' x' : Prop :=
  (in_use i (unmark e c) /\ cs' = a ++ unmark e c :: b /\ kern x' = kern x) \/
  (~ in_use i (unmark e c) /\ cs' = a ++ b /\ blocks (kern x') = delete (c_addr c) (blocks (kern x))).

Lemma release_cache_spec i a c b p n k x (Φ : unit -> cext E -> heapProp Z) :
  class i -> linked i (a ++ c :: b) p n k x -> found_in i (a ++ b) (hint p n k) \/ p = c_addr c -> (forall d, d ∈ a ++ b -> in_use i d) ->
  dseg i 0 (a ++ c :: b) 0 ⊢ (∀ x', ⌜slab_ok i (a ++ b) x' /\ blocks (kern x') = delete (c_addr c) (blocks (kern x)) /\ others i x x'⌝ -∗
    dseg i 0 (a ++ b) 0 -∗ Φ tt x') -∗ cwp (release_cache (esize i) i (c_addr c) (fields_at i (c_addr c))) x Φ.
Proof.
  intros Hi Hl Hf Hu. pose proof (ln_state _ _ _ _ _ _ Hl) as Hs. pose proof (linked_count _ _ _ _ _ _ Hi Hl) as Hcnt. destruct (ln_cache _ _ _ _ _ _ Hl c) as [Hc Hbc]; [set_solver|].
  assert (forall d, d ∈ a ++ b -> cache_ok i d /\ blocks (kern x) !! c_addr d = Some (pages i)) as Hab by (intros d Hd; apply (ln_cache _ _ _ _ _ _ Hl); set_solver).
  destruct (ca_addr _ _ Hc) as (Hc0 & _). pose proof (ln_nodup _ _ _ _ _ _ Hl) as Hnd. rewrite fmap_app fmap_cons in Hnd.
  assert (NoDup (c_addr <$> a ++ b) /\ forall d, d ∈ a ++ b -> c_addr d <> c_addr c) as [Hnd' Hne].
  { apply NoDup_app in Hnd as (Hna & Hx & (Hnc & Hnb)%NoDup_cons). rewrite fmap_app. split.
    - apply NoDup_app. split; [done|]. split; [|done]. intros z Hz Hz'. apply (Hx z Hz). by right.
    - intros d [Hd|Hd]%elem_of_app Heq; [apply (Hx (c_addr d)); [apply list_elem_of_fmap; by exists d|rewrite Heq; by left]|].
      apply Hnc. rewrite -Heq. apply list_elem_of_fmap. by exists d. }
  iIntros "H HΦ". unfold release_cache. rewrite dseg_app. cbn [dseg hd_addr]. iDestruct "H" as "(HA & Hc & HB)". iApply uwp_bind.
  iApply (unlink_spec with "[$HA $Hc $HB]"); [done|by intros d Hd; apply Hab|done|done|done|done|]. iIntros (x1) "(%Hs1 & %Hk1 & %Ho1) H Hc".
  iApply uwp_bind. iApply cwp_get_state; [exact Hs1|]. cbn [relink record set_last set_first ff_cache].
  set (s1 := relink (a ++ b) (record i (a ++ c :: b) p n k)) in *. set (s2 := if p =? c_addr c then set_free 0 0 0 s1 else s1).
  iApply uwp_bind. iAssert (∀ x2, ⌜cstate x2 !! Z.to_nat i = Some s2 /\ kern x2 = kern x /\ others i x x2⌝ -∗ cwp (upd_state i (fun s => set_count (wrap64 (cache_count s - 1)) s) ;;
    let* s := get_state i in
    (if ff_cache s =? 0 then let* o := first_with_slot (S (Z.to_nat (cache_count s))) (esize i) (first_cache s) in
       match o with Some (cur, n, k) => upd_state i (set_free cur n k) | None => ret tt end else ret tt) ;;
    drop_block (c_addr c) (nth_of CACHE_PAGES i)) x2 Φ)%I with "[H Hc HΦ]" as "Hk".
  2: { unfold s2. destruct (p =? c_addr c) eqn:Ep; [iApply cwp_upd_state|iApply uwp_ret]; iApply "Hk"; iPureIntro.
       - split; [|split; [done|by apply upd_others]]. exact (upd_lookup i _ x1 _ Hs1).
       - done. }
  iIntros (x2) "(%Hs2 & %Hk2 & %Ho2)". iApply uwp_bind. iApply cwp_upd_state. set (x3 := upd i _ x2). iApply uwp_bind.
  assert (exists p3 n3 k3, cstate x3 !! Z.to_nat i = Some (record i (a ++ b) p3 n3 k3) /\ (p3 <> 0 -> found_in i (a ++ b) (hint p3 n3 k3))) as (p3 & n3 & k3 & Hs3 & Hf3).
  { assert (wrap64 (Z.of_nat (length (a ++ c :: b)) - 1) = Z.of_nat (length (a ++ b))) as Hw.
    { rewrite !length_app in Hcnt |- *. cbn [length] in Hcnt |- *. rewrite wrap_small; [lia|unfold u_range; lia]. }
    unfold x3. erewrite (upd_lookup i _ x2 s2) by exact Hs2. unfold s2. destruct (Z.eqb_spec p (c_addr c)) as [Ep|Ep].
    - exists 0, 0, 0. split; [|done]. unfold record, set_count, set_free, s1, relink, set_last, set_first. cbn. by rewrite Hw.
    - exists p, n, k. split; [unfold record, set_count, s1, relink, set_last, set_first; cbn; by rewrite Hw|]. intros _. by destruct Hf. }
  iApply cwp_get_state; [exact Hs3|]. cbn [record ff_cache cache_count first_cache].
  assert (forall p' n' k' x4 e, cstate x4 !! Z.to_nat i = Some (record i (a ++ b) p' n' k') -> found_in i (a ++ b) (hint p' n' k') -> kern x4 = kern x -> others i x x4 ->
    blocks e = delete (c_addr c) (blocks (kern x4)) ->
    slab_ok i (a ++ b) (MkExt (cstate x4) e) /\ blocks e = delete (c_addr c) (blocks (kern x)) /\ others i x (MkExt (cstate x4) e)) as Hfin.
  { intros p' n' k' x4 e Hs4 Hf4 Hk4 Ho4 He. rewrite Hk4 in He. split; [|done]. exists p', n', k'. split; [|done]. split; [done| |done].
    intros d Hd. destruct (Hab d Hd) as [Hdo Hdb]. split; [done|]. cbn [kern]. rewrite He lookup_delete_ne //. intros Heq. by apply (Hne d Hd). }
  assert (kern x3 = kern x) as Hk3 by done. assert (others i x x3) as Ho3 by by apply upd_others.
  iApply uwp_bind. destruct (Z.eqb_spec p3 0) as [->|Hp3].
  - iApply uwp_bind. iApply (first_with_slot_spec i x3 with "H"); [done|lia|by intros d Hd; apply Hab|]. iIntros (o) "%Ho H". destruct o as [[[q m] j]|].
    + iApply cwp_upd_state. iApply (drop_block_spec with "Hc"); [done|done|by cbn; rewrite -Hbc; f_equal; rewrite Hk2|]. iIntros (e) "%He". iApply ("HΦ" with "[%] H").
      apply (Hfin q m j (upd i (set_free q m j) x3)); [exact (upd_lookup i _ x3 _ Hs3)| |done|by apply upd_others|done].
      pose proof Ho as (d & Hd & -> & _). destruct (Hab d Hd) as [Hdo _]. destruct (ca_addr _ _ Hdo) as [H0 _]. unfold hint. by rewrite (proj2 (Z.eqb_neq _ _)); [|lia].
    + iApply uwp_ret. iApply (drop_block_spec with "Hc"); [done|done|by rewrite Hk3|]. iIntros (e) "%He". iApply ("HΦ" with "[%] H"). by apply (Hfin 0 n3 k3 x3).
  - iApply uwp_ret. iApply (drop_block_spec with "Hc"); [done|done|by rewrite Hk3|]. iIntros (e) "%He". iApply ("HΦ" with "[%] H"). apply (Hfin p3 n3 k3 x3); auto.
Qed.
(** ** cache_free *)

Lemma entry_index i c e : class i -> cache_ok i c -> 0 <= e < entries i ->
  align_down (c_addr c + e * esize i) (pages i * PAGE_SIZE) = c_addr c /\ wrap64 (c_addr c + e * esize i - c_addr c) / esize i = e.
Proof.
  intros Hi Hc He. destruct (entry_addr i c e Hi Hc He) as (H1 & H2 & H3). destruct (ca_addr _ _ Hc) as (B1 & B2 & B3).
  destruct (class_layout i Hi) as (_ & _ & _ & _ & Hs & _). destruct (class_pages i Hi) as (_ & Hp & _). split.
  - destruct Hp as [Ep|Ep]; rewrite Ep in B2, B3, H3 |- *; unfold PAGE_SIZE in *.
    + apply (align_down_block _ _ 14); [done|lia..].
    + apply (align_down_block _ _ 15); [done|lia..].
  - replace (c_addr c + e * esize i - c_addr c) with (e * esize i) by lia. rewrite wrap_small; [|unfold u_range; lia]. apply Z.div_mul. lia.
Qed.

Lemma found_in_unmark i a c b e p n k : class i -> cache_ok i c -> 0 <= e < entries i ->
  found_in i (a ++ c :: b) (Some (p, n, k)) -> found_in i (a ++ unmark e c :: b) (Some (p, n, k)).
Proof.
  intros Hi Hc He (d & Hd & -> & H1 & H2 & H3 & H4). destruct (class_layout i Hi) as (_ & _ & _ & _ & _ & Hb & _).
  apply elem_of_app in Hd as [Hd|[->|Hd]%elem_of_cons]; [exists d|exists (unmark e c)|exists d]; (split; [set_solver|]); repeat (split; [done|]); [done| |done].
  rewrite (bit_unmark i) //; [|lia]. by rewrite H4 andb_false_r.
Qed.

Lemma cache_free_spec i a c b e x (Φ : unit -> cext E -> heapProp Z) :
  class i -> slab_ok i (a ++ c :: b) x -> 0 <= e < entries i -> bit (c_bits c) e = true -> no_fake_id i e c ->
  dseg i 0 (a ++ c :: b) 0 ⊢ (∀ cs' x', ⌜slab_ok i cs' x' /\ gave i a c b e x cs' x' /\ others i x x'⌝ -∗ dseg i 0 cs' 0 -∗ Φ tt x') -∗
    cwp (cache_free (c_addr c + e * esize i)) x Φ.
Proof.
  intros Hi (p & n & k & Hl & Hf & Hu) He Hbit Hno. destruct (ln_cache _ _ _ _ _ _ Hl c) as [Hc Hbc]; [set_solver|].
  destruct (class_layout i Hi) as (_ & _ & _ & _ & Hs & Hbe & _). pose proof (ca_length i c Hi Hc) as Hlen. destruct (entry_index i c e Hi Hc He) as [Eal Ediv].
  pose proof (unmark_ok i c e Hi Hc He) as Hm. pose proof (linked_bits i a c _ b _ _ _ _ Hl Hm) as Hl2. destruct (ca_addr _ _ Hc) as [Hc0 _].
  assert (0 <= e / 64 < bitfields i) as Hw64 by (split; [apply Z.div_pos; lia|apply Z.div_lt_upper_bound; lia]).
  iIntros "H HΦ". unfold cache_free. iDestruct (dseg_open with "H") as (pv nx) "[Hc H]". iApply uwp_bind.
  iApply (size_from_ptr_spec with "Hc"); [done..|]. iIntros "Hc". rewrite idx_from_size //. iApply uwp_bind. iApply uwp_ret. fold (pages i) (bitfields i). rewrite Eal.
  rewrite generic_fields //. iApply uwp_bind. iApply uwp_ret. cbn [fields_at f_buf]. rewrite Ediv. change BF_BITS with 64. fold (fields_at i (c_addr c)).
  iDestruct (cache_split with "Hc") as "(Hbuf & Hr & Hrest)"; [done..|]. destruct (lookup_lt_is_Some_2 (c_bits c) (Z.to_nat (e / 64))) as [w Hw]; [lia|].
  iApply uwp_bind. iApply (cwp_load with "Hr"); [exact Hw|lia|]. iIntros "Hr". pose proof (Z.mod_pos_bound e 64).
  assert (Z.testbit w (e mod 64) = true) as Hwb by (unfold bit in Hbit; by rewrite (list_lookup_total_correct _ _ _ Hw) in Hbit).
  rewrite bitfield_get_bit; [|lia]. rewrite Hwb. iApply uwp_bind. iApply uwp_ret. iApply uwp_bind. iApply uwp_mem.
  iApply (hwp_array_store _ _ _ (Z.to_nat (e / 64)) with "Hr"); [lia|lia|]. iIntros "Hr".
  assert (<[Z.to_nat (e / 64) := bitfield_clear 64 w (e mod 64)]> (c_bits c) = c_bits (unmark e c)) as ->.
  { cbn. unfold put_bits. by rewrite (list_lookup_total_correct _ _ _ Hw). }
  iApply uwp_bind. assert (Z.to_nat (bitfields i) = length (c_bits (unmark e c))) as -> by (pose proof (ca_length i _ Hi Hm); lia).
  iApply (all_zero_spec with "Hr"). iIntros (f) "%Hz Hr". rewrite (zero_words i) // in Hz.
  iSpecialize ("H" $! (c_bits (unmark e c)) with "[Hbuf Hr Hrest]"); [iApply cache_split; [done..|iFrame]|].
  change (with_bits (c_bits (unmark e c)) c) with (unmark e c). destruct f; cbn [negb].
  - change (c_addr c) with (c_addr (unmark e c)). iApply (release_cache_spec with "H"); [done|exact Hl2| |intros d Hd; apply Hu; set_solver|].
    + destruct (decide (p = c_addr c)) as [|Hpc]; [by right|left]. apply (found_in_sub i (a ++ c :: b)); [set_solver| |apply Hl|done].
      intros p' n' k' Hh. unfold hint in Hf, Hh. destruct (Z.eqb_spec p 0); [done|]. injection Hh as <- <- <-. destruct Hf as (d & Hd & Ep & _). exists d. split; [|done].
      apply elem_of_app in Hd as [Hd|[->|Hd]%elem_of_cons]; [set_solver|congruence|set_solver].
    + iIntros (x') "(%Hok & %Hb & %Ho) H". iApply ("HΦ" with "[%] H"). split; [done|]. split; [|done]. right. split; [by apply Hz|done].
  - assert (in_use i (unmark e c)) as Hin by (destruct (in_use_dec i (unmark e c)) as [|Hn]; [done|by apply Hz in Hn]).
    iApply uwp_bind. iApply cwp_get_state; [apply Hl2|]. cbn [record ff_cache].
    assert (forall d, d ∈ a ++ unmark e c :: b -> in_use i d) as Hall by (intros d [Hd|[->|Hd]%elem_of_cons]%elem_of_app; [apply Hu; set_solver|done|apply Hu; set_solver]).
    unfold hint in Hf. destruct (Z.eqb_spec p 0) as [->|Hp0].
    + iApply cwp_upd_state. iApply ("HΦ" with "[%] H"). split; [|split; [by left|by apply upd_others]].
      exists (c_addr c), (e / 64), (e mod 64). split; [by eapply linked_hint|]. split; [|done]. unfold hint. rewrite (proj2 (Z.eqb_neq _ _)); [|lia].
      exists (unmark e c). pose proof (Z.div_mod e 64). split; [set_solver|]. repeat (split; [by (done || lia)|]).
      replace (e / 64 * 64 + e mod 64) with e by lia. rewrite (bit_unmark i) //; [by rewrite Z.eqb_refl|lia].
    + iApply uwp_ret. iApply ("HΦ" with "[%] H"). split; [|split; [by left|by intros j]]. exists p, n, k. split; [exact Hl2|]. split; [|done].
      unfold hint. rewrite (proj2 (Z.eqb_neq _ _) Hp0). by apply found_in_unmark.
Qed.
End Free.
