(* ===== verification/CacheCorrect.v ===== *)
(** * CacheCorrect: the kernel heap

    The nine classes together, the objects in use, and the theorems on
    kmalloc and kfree. *)

From Stdlib Require Import ZArith Lia.
From stdpp Require Import base gmap list.
From iris.proofmode Require Import proofmode.
From S2P Require Import Prelude KMath VmContainers VmContainersSpec HeapLogic HeapBlocks CacheMalloc UregionCommit CacheSpec CacheAlloc CacheFree.

Open Scope Z_scope.

Section Heap.
Context {E : Type} `{!RawAlloc E} `{!RawLaws E}.
Implicit Types (x : cext E) (c d : cache) (cs a b : list cache) (css : list (list cache)) (s : mst Z (cext E)).

(** ** All classes *)

Definition heap css : heapProp Z := ([∗ list] j ↦ cs ∈ css, dseg (Z.of_nat j) 0 cs 0)%I.

(** Two blocks do not overlap. *)
Definition blocks_apart (i : Z) c (j : Z) d : Prop :=
  c_addr c + pages i * PAGE_SIZE <= c_addr d \/ c_addr d + pages j * PAGE_SIZE <= c_addr c.

Record heap_ok css x : Prop := {
  hp_nine : length css = 9%nat;
  hp_slab j cs : css !! j = Some cs -> slab_ok (Z.of_nat j) cs x;
  hp_apart j j' cs cs' c d : css !! j = Some cs -> css !! j' = Some cs' -> j <> j' -> c ∈ cs -> d ∈ cs' -> blocks_apart (Z.of_nat j) c (Z.of_nat j') d
}.

Definition heap_in css s : Prop := heap_ok css (ext s) /\ in_blocks (ext s) (dom (mem s)) /\ holds (heap css) (mem s).

Lemma class_of_nat css x j cs : heap_ok css x -> css !! j = Some cs -> class (Z.of_nat j).
Proof. intros Hh Hj%lookup_lt_Some. rewrite (hp_nine _ _ Hh) in Hj. unfold class. lia. Qed.

Lemma slab_cache i cs x c : slab_ok i cs x -> c ∈ cs -> cache_ok i c /\ blocks (kern x) !! c_addr c = Some (pages i).
Proof. intros (p & n & k & Hl & _) Hc. by apply (ln_cache _ _ _ _ _ _ Hl). Qed.

Lemma slab_other i x x' j cs : others i x x' -> Z.of_nat j <> i -> 0 <= i -> (forall c, c ∈ cs -> blocks (kern x') !! c_addr c = Some (pages (Z.of_nat j))) ->
  slab_ok (Z.of_nat j) cs x -> slab_ok (Z.of_nat j) cs x'.
Proof.
  intros Ho Hne Hi Hb (p & n & k & [Hs Hc Hd] & Hf & Hu). exists p, n, k. split; [|done]. rewrite Nat2Z.id in Hs. split; [|by intros c Hin; split; [apply Hc|apply Hb]|done].
  rewrite Nat2Z.id Ho; [done|lia].
Qed.

(** From a rule on one class to a run on the heap. *)
Lemma heap_run {A} css j cs s (prog : M (mst Z (cext E)) A) (Q : A -> list cache -> cext E -> Prop) :
  heap_in css s -> css !! j = Some cs ->
  (forall Φ, dseg (Z.of_nat j) 0 cs 0 ⊢ (∀ r cs' x', ⌜Q r cs' x'⌝ -∗ dseg (Z.of_nat j) 0 cs' 0 -∗ Φ r x') -∗ uwp in_blocks prog (ext s) Φ) ->
  wp prog (fun r s' => exists cs', Q r cs' (ext s') /\ in_blocks (ext s') (dom (mem s')) /\ holds (heap (<[j := cs']> css)) (mem s')) s.
Proof.
  intros (Hok & Hb & Hm) Hj Hrule. destruct s as [m x]. cbn in *.
  eapply wp_mono; [apply (uwp_sound in_blocks prog x (fun r x' => ∃ cs', ⌜Q r cs' x'⌝ ∗ heap (<[j := cs']> css))%I (heap css) m); [|done|done]|].
  - iIntros "H". iDestruct (big_sepL_insert_acc with "H") as "[Hc H]"; [exact Hj|]. iApply (Hrule with "Hc"). iIntros (r cs' x') "%HQ Hc".
    iExists cs'. iSplit; [done|]. by iApply "H".
  - intros r s' [Hb' (cs' & Hh)]. exists cs'. destruct Hh as (m1 & m2 & Em & Hd & HQ & Hh). split; [exact HQ|]. split; [done|].
    eapply holds_mono; [exact Hh|]. rewrite Em. by apply map_union_subseteq_r.
Qed.

(** ** Objects *)

(** An object of the class at an address. *)
Definition live_in (i : Z) cs (z : Z) : Prop := exists c e, c ∈ cs /\ 0 <= e < entries i /\ bit (c_bits c) e = true /\ z = c_addr c + e * esize i.
Definition live css (j : nat) (z : Z) : Prop := exists cs, css !! j = Some cs /\ live_in (Z.of_nat j) cs z.

Lemma entry_inj i c d e e' : class i -> cache_ok i c -> cache_ok i d -> 0 <= e < entries i -> 0 <= e' < entries i ->
  c_addr c + e * esize i = c_addr d + e' * esize i -> c_addr c = c_addr d /\ e = e'.
Proof.
  intros Hi Hc Hd He He' Heq. destruct (entry_index i c e Hi Hc He) as [Hal Hix]. destruct (entry_index i d e' Hi Hd He') as [Hal' Hix'].
  rewrite Heq in Hal, Hix. assert (c_addr c = c_addr d) as Ha by congruence. split; [done|]. rewrite Ha in Hix. congruence.
Qed.

Lemma live_in_app i a b z : live_in i (a ++ b) z <-> live_in i a z \/ live_in i b z.
Proof.
  unfold live_in. split.
  - intros (c & e & [Hc|Hc]%elem_of_app & Hr); [left|right]; by exists c, e.
  - intros [(c & e & Hc & Hr)|(c & e & Hc & Hr)]; exists c, e; (split; [apply elem_of_app; tauto|done]).
Qed.

Lemma live_in_one i c z : live_in i [c] z <-> exists e, 0 <= e < entries i /\ bit (c_bits c) e = true /\ z = c_addr c + e * esize i.
Proof.
  split; [intros (d & e & [->|?%elem_of_nil]%elem_of_cons & Hr); [by exists e|done]|]. intros (e & Hr). exists c, e. split; [by left|done].
Qed.

(** The objects of the other caches are elsewhere. *)
Lemma not_live_in i cs c e : class i -> cache_ok i c -> 0 <= e < entries i -> (forall d, d ∈ cs -> cache_ok i d /\ c_addr d <> c_addr c) ->
  ~ live_in i cs (c_addr c + e * esize i).
Proof.
  intros Hi Hc He Hcs (d & e' & Hd & He' & _ & Heq). destruct (Hcs d Hd) as [Hok Hne]. by destruct (entry_inj i c d e e' Hi Hc Hok He He' Heq).
Qed.

(** One bit of one cache of a class changes. *)
Lemma live_change i a c b e (f : bool) c' : class i -> cache_ok i c -> 0 <= e < entries i -> c_addr c' = c_addr c ->
  (forall j, 0 <= j < entries i -> bit (c_bits c') j = if j =? e then f else bit (c_bits c) j) -> (forall d, d ∈ a ++ b -> cache_ok i d /\ c_addr d <> c_addr c) ->
  forall z, live_in i (a ++ c' :: b) z <-> if bool_decide (z = c_addr c + e * esize i) then f = true else live_in i (a ++ c :: b) z.
Proof.
  intros Hi Hc He Ha Hbit Hok z. destruct (class_layout i Hi) as (_ & _ & _ & _ & Hs & _).
  assert (forall d, live_in i (a ++ d :: b) z <-> live_in i (a ++ b) z \/ live_in i [d] z) as Hsplit.
  { intros d. change (d :: b) with ([d] ++ b). rewrite !live_in_app. tauto. }
  case_bool_decide as Hz; rewrite !Hsplit !live_in_one Ha.
  - subst z. pose proof (not_live_in i (a ++ b) c e Hi Hc He Hok) as Hno. split.
    + intros [?|(j & Hj & Hb & Heq)]; [done|]. assert (j = e) as -> by nia. by rewrite Hbit // Z.eqb_refl in Hb.
    + intros ->. right. exists e. split; [done|]. by rewrite Hbit // Z.eqb_refl.
  - assert (forall j, 0 <= j < entries i -> z = c_addr c + j * esize i -> bit (c_bits c') j = bit (c_bits c) j) as Hsame.
    { intros j Hj ->. rewrite Hbit //. destruct (Z.eqb_spec j e) as [->|]; done. }
    split; (intros [?|(j & Hj & Hb & Heq)]; [by left|right; exists j; split; [done|]; split; [|done]]); [by rewrite -Hsame|by rewrite Hsame].
Qed.

Lemma linked_distinct i a c b p n k x : linked i (a ++ c :: b) p n k x -> forall d, d ∈ a ++ b -> cache_ok i d /\ c_addr d <> c_addr c.
Proof.
  intros Hl d Hd. split; [apply (ln_cache _ _ _ _ _ _ Hl); set_solver|]. pose proof (ln_nodup _ _ _ _ _ _ Hl) as Hnd. rewrite fmap_app fmap_cons in Hnd.
  apply NoDup_app in Hnd as (_ & Hx & (Hnc & _)%NoDup_cons). intros Heq. apply elem_of_app in Hd as [Hd|Hd].
  - apply (Hx (c_addr d)); [apply list_elem_of_fmap; by exists d|rewrite Heq; by left].
  - apply Hnc. rewrite -Heq. apply list_elem_of_fmap. by exists d.
Qed.
(** ** The words of the objects *)

Lemma heap_word css s j cs c i w : heap_in css s -> css !! j = Some cs -> c ∈ cs -> c_buf c !! i = Some w -> mem s !! (c_addr c + 8 * Z.of_nat i) = Some w.
Proof.
  intros (Hok & _ & Hm) Hj (a & b & ->)%list_elem_of_split Hw.
  assert (heap css ⊢ (c_addr c + 8 * Z.of_nat i) ↦ w) as [Hent]; [|by apply Hent].
  iIntros "H". iDestruct (big_sepL_lookup _ _ j with "H") as "H"; [exact Hj|]. iDestruct (dseg_open with "H") as (pv nx) "[Hc _]".
  unfold cache_at, block_words. iDestruct (array_app with "Hc") as "[Hc _]". by iDestruct (array_open with "Hc") as "[$ _]".
Qed.

(** The objects that stay keep their words. *)
Definition kept css s css' s' : Prop :=
  forall j z i, live css j z -> live css' j z -> 0 <= i < esize (Z.of_nat j) / 8 -> mem s' !! (z + 8 * i) = mem s !! (z + 8 * i).

Lemma kept_of css s css' s' : heap_in css s -> heap_in css' s' ->
  (forall j cs c e, css !! j = Some cs -> c ∈ cs -> 0 <= e < entries (Z.of_nat j) -> bit (c_bits c) e = true -> live css' j (c_addr c + e * esize (Z.of_nat j)) ->
     exists cs' c', css' !! j = Some cs' /\ c' ∈ cs' /\ c_addr c' = c_addr c /\ c_buf c' = c_buf c) -> kept css s css' s'.
Proof.
  intros Hh Hh' Hmap j z i (cs & Hj & c & e & Hc & He & Hb & ->) Hl Hi. destruct (Hmap j cs c e Hj Hc He Hb Hl) as (cs' & c' & Hj' & Hc' & Ha & Hbuf).
  pose proof (class_of_nat _ _ _ _ (proj1 Hh) Hj) as Hcl. destruct (slab_cache _ _ _ c (hp_slab _ _ (proj1 Hh) _ _ Hj) Hc) as [Hok _].
  destruct (class_size _ Hcl) as (_ & Es & _). pose proof (ca_buf _ _ Hok) as Hlen. unfold buf_words in Hlen.
  set (n := esize (Z.of_nat j) / 8) in *. set (k := Z.to_nat (e * n + i)).
  destruct (lookup_lt_is_Some_2 (c_buf c) k) as [w Hw]; [unfold k; nia|].
  replace (c_addr c + e * esize (Z.of_nat j) + 8 * i) with (c_addr c + 8 * Z.of_nat k) by (unfold k; nia).
  rewrite (heap_word css s j cs c k w) //. rewrite -Ha. rewrite -Hbuf in Hw. by rewrite (heap_word css' s' j cs' c' k w).
Qed.

(** ** The operations on the heap *)

Definition allocates css s (j : nat) (r : Z) css' s' : Prop :=
  r mod esize (Z.of_nat j) = 0 /\ ~ live css j r /\ (forall j' z, live css' j' z <-> live css j' z \/ (j' = j /\ z = r)) /\ kept css s css' s'.

Lemma live_insert css j cs' j' z : (j < length css)%nat -> live (<[j := cs']> css) j' z <-> if decide (j' = j) then live_in (Z.of_nat j) cs' z else live css j' z.
Proof.
  intros Hj. unfold live. destruct (decide (j' = j)) as [->|Hne].
  - rewrite list_lookup_insert_eq //. split; [by intros (cs & [= <-] & H)|intros H; by exists cs'].
  - by rewrite list_lookup_insert_ne.
Qed.

Lemma heap_update css s j cs cs' x' : heap_ok css (ext s) -> css !! j = Some cs -> slab_ok (Z.of_nat j) cs' x' -> others (Z.of_nat j) (ext s) x' ->
  (forall j' ds d, css !! j' = Some ds -> d ∈ ds -> j' <> j -> blocks (kern x') !! c_addr d = Some (pages (Z.of_nat j')) /\
     forall c, c ∈ cs' -> blocks_apart (Z.of_nat j) c (Z.of_nat j') d) -> heap_ok (<[j := cs']> css) x'.
Proof.
  intros Hh Hj Hs Ho Hother. pose proof (lookup_lt_Some _ _ _ Hj) as Hlt. split.
  - rewrite length_insert. apply Hh.
  - intros j' ds [[<- [<- _]]|[Hne Hd]]%list_lookup_insert_Some; [done|]. apply (slab_other (Z.of_nat j) (ext s)); [done|lia|lia| |by apply (hp_slab _ _ Hh)].
    intros d Hin. apply (Hother j' ds d); auto.
  - intros j1 j2 ds1 ds2 c d [[<- [<- _]]|[Hne1 H1]]%list_lookup_insert_Some [[<- [<- _]]|[Hne2 H2]]%list_lookup_insert_Some Hne Hc Hd; [done| | |by eapply (hp_apart _ _ Hh)].
    + apply (Hother j2 ds2 d); auto.
    + destruct (proj2 (Hother j1 ds1 c H1 Hc ltac:(auto)) d Hd) as [H|H]; [by right|by left].
Qed.
Lemma entry_aligned i c e : class i -> cache_ok i c -> (c_addr c + e * esize i) mod esize i = 0.
Proof.
  intros Hi Hc. destruct (class_layout i Hi) as (_ & _ & _ & _ & Hs & _). destruct (class_pages i Hi) as (_ & Hp & Hd). destruct (ca_addr _ _ Hc) as (_ & _ & Hal).
  rewrite Z.mod_add; [|lia]. apply Z.mod_divide in Hd; [|lia]. apply Z.mod_divide in Hal; [|by destruct Hp as [-> | ->]]. apply Z.mod_divide; [lia|]. by etransitivity.
Qed.

(** The caches of the other classes after a class took an entry. *)
Lemma took_others css s j cs r cs' x' : heap_ok css (ext s) -> css !! j = Some cs -> took (Z.of_nat j) cs (ext s) r cs' x' ->
  forall j' ds d, css !! j' = Some ds -> d ∈ ds -> j' <> j -> blocks (kern x') !! c_addr d = Some (pages (Z.of_nat j')) /\
    forall c, c ∈ cs' -> blocks_apart (Z.of_nat j) c (Z.of_nat j') d.
Proof.
  intros Hh Hj (a & c & b & e & He & Hb & -> & -> & Hcase) j' ds d Hd Hin Hne. destruct (slab_cache _ _ _ d (hp_slab _ _ Hh _ _ Hd) Hin) as [Hdo Hdb].
  assert (class (Z.of_nat j')) as Hcl by (by eapply class_of_nat). destruct (class_pages _ Hcl) as (_ & Hp & _).
  destruct Hcase as [[-> Hk]|(-> & -> & _ & [Hg1 Hg2] & _)].
  - split; [by rewrite Hk|]. intros c0 [Hc0|[->|Hc0]%elem_of_cons]%elem_of_app.
    + apply (hp_apart _ _ Hh j j' (a ++ c :: b) ds); [done|done|auto|set_solver|done].
    + apply (hp_apart _ _ Hh j j' (a ++ c :: b) ds c d); [done|done|auto|set_solver|done].
    + apply (hp_apart _ _ Hh j j' (a ++ c :: b) ds); [done|done|auto|set_solver|done].
  - destruct (Hg2 _ _ Hdb) as [Hlt|Hlt].
    all: split; [rewrite Hg1 lookup_insert_ne //; intros Heq; unfold PAGE_SIZE in *; destruct (class_pages _ (class_of_nat _ _ _ _ Hh Hj)) as (_ & Hp' & _); lia|].
    all: intros c0 [Hc0|[->|Hc0%elem_of_nil]%elem_of_cons]%elem_of_app; [by eapply (hp_apart _ _ Hh)| |done].
    + by right.
    + by left.
Qed.

(** The objects of the class. *)
Lemma took_live i cs x r cs' x' : class i -> slab_ok i cs x -> slab_ok i cs' x' -> took i cs x r cs' x' ->
  r mod esize i = 0 /\ ~ live_in i cs r /\ forall z, live_in i cs' z <-> live_in i cs z \/ z = r.
Proof.
  intros Hi Hs Hs' (a & c & b & e & He & Hb & -> & -> & Hcase). destruct (class_layout i Hi) as (_ & _ & _ & _ & H0 & Hbe & _).
  pose proof Hs' as (p & n & k & Hl & _). pose proof (linked_distinct _ _ _ _ _ _ _ _ Hl) as Hdis. cbn [mark with_bits c_addr] in Hdis.
  destruct (slab_cache _ _ _ (mark e c) Hs' ltac:(set_solver)) as [Hm _].
  assert (cache_ok i c /\ forall z, live_in i (a ++ c :: b) z <-> live_in i cs z) as [Hc Hsame].
  { destruct Hcase as [[-> _]|(-> & -> & Ec & _)]; [split; [|done]; apply (slab_cache i (a ++ c :: b) x); [done|set_solver]|].
    destruct (ca_addr _ _ Hm) as (B1 & B2 & B3). split; [rewrite Ec; by apply fresh_ok|]. intros z. rewrite live_in_app live_in_one. split; [|by left].
    intros [?|(j & Hj & Hbj & _)]; [done|]. rewrite Ec in Hbj. cbn in Hbj. rewrite bit_zeros in Hbj; [done|lia]. }
  split; [by apply entry_aligned|]. split.
  - rewrite -Hsame. change (c :: b) with ([c] ++ b). rewrite !live_in_app live_in_one. pose proof (not_live_in i (a ++ b) c e Hi Hc He Hdis) as Hno. rewrite live_in_app in Hno.
    intros [?|[(j & Hj & Hbj & Heq)|?]]; [tauto| |tauto]. assert (j = e) as -> by nia. congruence.
  - intros z. rewrite (live_change i a c b e true (mark e c)); [|done|done|done|done| |done].
    + rewrite -Hsame. case_bool_decide; [tauto|]. split; [by left|]. by intros [?|?].
    + intros j Hj. rewrite (bit_mark i) //. lia.
Qed.

Lemma heap_malloc_spec css s j cs : heap_in css s -> css !! j = Some cs ->
  ((forall c, c ∈ cs -> all_used (Z.of_nat j) c) -> can_take (kern (ext s)) (pages (Z.of_nat j))) ->
  wp (cache_malloc (esize (Z.of_nat j))) (fun r s' => exists css', heap_in css' s' /\ allocates css s j r css' s') s.
Proof.
  intros Hh Hj Ht. pose proof (class_of_nat _ _ _ _ (proj1 Hh) Hj) as Hi. pose proof (hp_slab _ _ (proj1 Hh) _ _ Hj) as Hs.
  pose proof (lookup_lt_Some _ _ _ Hj) as Hlt.
  eapply wp_mono; [apply (heap_run css j cs s _ (fun r cs' x' => slab_ok (Z.of_nat j) cs' x' /\ took (Z.of_nat j) cs (ext s) r cs' x' /\ others (Z.of_nat j) (ext s) x')); [done|done|]|].
  { intros Φ. by apply cache_malloc_spec. }
  intros r s' (cs' & (Hs' & Htk & Ho) & Hb & Hm). exists (<[j := cs']> css).
  assert (heap_in (<[j := cs']> css) s') as Hh'.
  { split; [|done]. eapply heap_update; [apply Hh|exact Hj|done|done|]. by eapply took_others; [apply Hh| |]. }
  split; [done|]. destruct (took_live _ _ _ _ _ _ Hi Hs Hs' Htk) as (Hal & Hnl & Hiff). split; [done|]. split; [by intros (cs0 & Hj0 & Hl0); simplify_eq|]. split.
  - intros j' z. rewrite live_insert //. destruct (decide (j' = j)) as [->|Hne]; [|naive_solver]. rewrite Hiff. unfold live. naive_solver.
  - apply kept_of; [done|done|]. intros j' ds d e Hd Hin _ _ _. destruct (decide (j' = j)) as [->|Hne]; [|exists ds, d; by rewrite list_lookup_insert_ne].
    simplify_eq. exists cs'. destruct Htk as (a & c & b & e' & _ & _ & _ & -> & Hcase).
    destruct (decide (d = c)) as [->|Hdc]; [exists (mark e' c)|exists d]; (split; [by rewrite list_lookup_insert_eq|]; split; [|done]); [set_solver|].
    destruct Hcase as [[-> _]|(-> & _)]; set_solver.
Qed.
(** Some entry of the cache at an address is in use. *)
Definition live_at css (j : nat) (p : Z) : Prop := exists e, 0 <= e < entries (Z.of_nat j) /\ live css j (p + e * esize (Z.of_nat j)).

(** The block of a cache stays with the heap while an entry of the cache is in
    use; without one it is given back to raw_kmalloc, and no other block is. *)
Definition block_follows css' (j : nat) (p : Z) s s' : Prop :=
  (live_at css' j p /\ blocks (kern (ext s')) = blocks (kern (ext s))) \/
  (~ live_at css' j p /\ blocks (kern (ext s')) = delete p (blocks (kern (ext s)))).

(** The objects after one of the cache at [p] is given back, and the blocks. *)
Definition releases css s (j : nat) (p r : Z) css' s' : Prop :=
  (forall j' z, live css' j' z <-> live css j' z /\ ~ (j' = j /\ z = r)) /\ kept css s css' s' /\ block_follows css' j p s s'.

Lemma gave_live i a c b e x cs' x' : class i -> slab_ok i (a ++ c :: b) x -> 0 <= e < entries i -> gave i a c b e x cs' x' ->
  forall z, live_in i cs' z <-> live_in i (a ++ c :: b) z /\ z <> c_addr c + e * esize i.
Proof.
  intros Hi Hs He Hcase z. destruct (class_layout i Hi) as (_ & _ & _ & _ & H0 & Hbe & _). destruct (slab_cache _ _ _ c Hs ltac:(set_solver)) as [Hc _].
  pose proof Hs as (p & n & k & Hl & _). pose proof (linked_distinct _ _ _ _ _ _ _ _ Hl) as Hdis.
  assert (live_in i (a ++ unmark e c :: b) z <-> live_in i (a ++ c :: b) z /\ z <> c_addr c + e * esize i) as Hun.
  { rewrite (live_change i a c b e false (unmark e c)); [|done|done|done|done| |done].
    - case_bool_decide; [split; [done|tauto]|tauto].
    - intros j Hj. rewrite (bit_unmark i) //; [|lia]. by destruct (j =? e). }
  destruct Hcase as [(_ & -> & _)|(Hno & -> & _)]; [done|]. rewrite -Hun. change (unmark e c :: b) with ([unmark e c] ++ b). rewrite !live_in_app live_in_one.
  split; [tauto|]. intros [?|[(j & Hj & Hb & _)|?]]; [by left| |by right]. destruct Hno. by exists j.
Qed.

Lemma gave_others css s j a c b e cs' x' : heap_ok css (ext s) -> css !! j = Some (a ++ c :: b) -> gave (Z.of_nat j) a c b e (ext s) cs' x' ->
  forall j' ds d, css !! j' = Some ds -> d ∈ ds -> j' <> j -> blocks (kern x') !! c_addr d = Some (pages (Z.of_nat j')) /\
    forall c', c' ∈ cs' -> blocks_apart (Z.of_nat j) c' (Z.of_nat j') d.
Proof.
  intros Hh Hj Hcase j' ds d Hd Hin Hne. destruct (slab_cache _ _ _ d (hp_slab _ _ Hh _ _ Hd) Hin) as [_ Hdb].
  pose proof (fun c' Hc' => hp_apart _ _ Hh j j' _ ds c' d Hj Hd ltac:(auto) Hc' Hin) as Hap.
  destruct Hcase as [(_ & -> & Hk)|(_ & -> & Hk)].
  - rewrite Hk. split; [done|]. intros c0 [Hc0|[->|Hc0]%elem_of_cons]%elem_of_app; [apply Hap; set_solver|exact (Hap c ltac:(set_solver))|apply Hap; set_solver].
  - split; [|intros c0 Hc0; apply Hap; set_solver]. rewrite Hk lookup_delete_ne //. intros Heq.
    destruct (class_pages _ (class_of_nat _ _ _ _ Hh Hj)) as (_ & Hp & _). destruct (class_pages _ (class_of_nat _ _ _ _ Hh Hd)) as (_ & Hp' & _).
    destruct (Hap c ltac:(set_solver)) as [H|H]; unfold PAGE_SIZE in *; lia.
Qed.

Lemma gave_block css j a c b e s s' cs' : class (Z.of_nat j) -> (j < length css)%nat -> slab_ok (Z.of_nat j) (a ++ c :: b) (ext s) ->
  gave (Z.of_nat j) a c b e (ext s) cs' (ext s') -> block_follows (<[j := cs']> css) j (c_addr c) s s'.
Proof.
  intros Hi Hlt Hs Hcase. destruct (slab_cache _ _ _ c Hs ltac:(set_solver)) as [Hc _]. pose proof Hs as (p & n & k & Hl & _).
  pose proof (linked_distinct _ _ _ _ _ _ _ _ Hl) as Hdis. 
  assert (forall z, live (<[j := cs']> css) j z <-> live_in (Z.of_nat j) cs' z) as Hlive by (intros z; rewrite live_insert // decide_True //).
  destruct Hcase as [((e' & He' & Hb) & -> & Hk)|(_ & -> & Hk)]; [left|right].
  - rewrite Hk. split; [|done]. exists e'. split; [done|]. apply Hlive. exists (unmark e c), e'. split; [set_solver|done].
  - split; [|done]. intros (e' & He' & Hlv%Hlive). by apply (not_live_in _ _ _ _ Hi Hc He' Hdis) in Hlv.
Qed.

Lemma heap_free_spec css s j a c b e : heap_in css s -> css !! j = Some (a ++ c :: b) -> 0 <= e < entries (Z.of_nat j) -> bit (c_bits c) e = true ->
  no_fake_id (Z.of_nat j) e c ->
  let r := c_addr c + e * esize (Z.of_nat j) in
  wp (cache_free r) (fun _ s' => exists css', heap_in css' s' /\ releases css s j (c_addr c) r css' s') s.
Proof.
  intros Hh Hj He Hb Hno r. pose proof (class_of_nat _ _ _ _ (proj1 Hh) Hj) as Hi. pose proof (hp_slab _ _ (proj1 Hh) _ _ Hj) as Hs.
  pose proof (lookup_lt_Some _ _ _ Hj) as Hlt.
  eapply wp_mono; [apply (heap_run css j (a ++ c :: b) s _ (fun _ cs' x' => slab_ok (Z.of_nat j) cs' x' /\ gave (Z.of_nat j) a c b e (ext s) cs' x' /\ others (Z.of_nat j) (ext s) x')); [done|exact Hj|]|].
  { intros Φ. iIntros "H HΦ". iApply (cache_free_spec with "H"); [done..|]. iIntros (cs' x') "%HQ H". by iApply "HΦ". }
  intros _ s' (cs' & (Hs' & Hgv & Ho) & Hbk & Hm). exists (<[j := cs']> css).
  assert (heap_in (<[j := cs']> css) s') as Hh'.
  { split; [|done]. eapply heap_update; [apply Hh|exact Hj|done|done|]. by eapply gave_others; [apply Hh| |]. }
  split; [done|]. pose proof (gave_live _ _ _ _ _ _ _ _ Hi Hs He Hgv) as Hiff. split; [|split; [|by eapply gave_block]].
  - intros j' z. rewrite live_insert //. destruct (decide (j' = j)) as [->|Hne]; [|naive_solver]. rewrite Hiff. unfold live. rewrite Hj. naive_solver.
  - apply kept_of; [done|done|]. intros j' ds d e' Hd Hin He' Hb' Hl'. destruct (decide (j' = j)) as [->|Hne]; [|exists ds, d; by rewrite list_lookup_insert_ne].
    simplify_eq. exists cs'. rewrite list_lookup_insert_eq //.
    destruct Hgv as [(_ & -> & _)|(Hnu & -> & _)].
    + destruct (decide (d = c)) as [->|Hdc]; [exists (unmark e c)|exists d]; (split; [done|]; split; [set_solver|done]).
    + destruct (decide (d = c)) as [->|Hdc]; [exfalso|exists d; split; [done|]; split; [set_solver|done]].
      destruct (slab_cache _ _ _ c Hs ltac:(set_solver)) as [Hc _]. destruct (class_layout _ Hi) as (_ & _ & _ & _ & H0 & Hbe & _).
      destruct Hl' as (ds & Hds & Hl'). rewrite list_lookup_insert_eq // in Hds. injection Hds as <-. apply Hiff in Hl' as [_ Hne]. apply Hnu. exists e'. split; [done|].
      rewrite (bit_unmark (Z.of_nat j)) //; [|lia]. rewrite Hb'. destruct (Z.eqb_spec e' e) as [->|]; done.
Qed.
End Heap.
