(* ===== verification/KmallocCorrect.v ===== *)
(** * KmallocCorrect: theorems on kmalloc and kfree

    With a kernel that keeps [RawLaws] and concrete heaps. *)

From Stdlib Require Import ZArith Lia.
From stdpp Require Import base gmap list.
From iris.proofmode Require Import proofmode.
From S2P Require Import Prelude KMath VmContainers VmContainersSpec HeapLogic HeapBlocks CacheMalloc UregionCommit CacheSpec CacheAlloc CacheFree CacheCorrect.

Open Scope Z_scope.

Section Theorems.
Context {E : Type} `{!RawAlloc E} `{!RawLaws E}.
Implicit Types (x : cext E) (c d : cache) (cs a b : list cache) (css : list (list cache)) (s : mst Z (cext E)).

(** The class that serves a request. *)
Definition class_for (bytes : Z) : nat := Z.to_nat (Z.max 0 (Z.log2_up bytes - 3)).

Lemma class_for_ok bytes : 0 <= bytes <= MAX_CACHE_SIZE ->
  class (Z.of_nat (class_for bytes)) /\ kmax MIN_CACHE_SIZE (next_pow2_u64 bytes) = esize (Z.of_nat (class_for bytes)) /\
  bytes <= esize (Z.of_nat (class_for bytes)) /\ (class_for bytes = O \/ esize (Z.of_nat (class_for bytes)) < 2 * bytes).
Proof.
  intros Hb. unfold MAX_CACHE_SIZE, CACHE_2048 in Hb. set (l := Z.log2_up bytes).
  assert (0 <= l <= 11) as Hl by (split; [apply Z.log2_up_nonneg|apply (Z.log2_up_le_mono _ 2048); lia]).
  assert (class (Z.of_nat (class_for bytes))) as Hc by (unfold class, class_for; fold l; lia). split; [done|].
  destruct (class_size _ Hc) as (-> & _). unfold class_for. fold l. rewrite Z2Nat.id; [|lia]. replace (Z.max 0 (l - 3) + 3) with (Z.max l 3) by lia.
  assert (bytes <= 2 ^ l) as Hle.
  { destruct (decide (bytes <= 1)); [assert (0 < 2 ^ l) by (apply Z.pow_pos_nonneg; lia); lia|]. apply Z.log2_log2_up_spec. lia. }
  split; [|split].
  - rewrite next_pow2_u64_eq; [|lia]. fold l. unfold kmax, MIN_CACHE_SIZE, CACHE_8. change 8 with (2 ^ 3) at 1 2. destruct (Z.ltb_spec (2 ^ l) (2 ^ 3)) as [H|H].
    + apply Z.pow_lt_mono_r_iff in H; [|lia..]. by rewrite Z.max_r; [|lia].
    + apply Z.pow_le_mono_r_iff in H; [|lia..]. by rewrite Z.max_l.
  - etransitivity; [exact Hle|]. apply Z.pow_le_mono_r; lia.
  - destruct (decide (l <= 3)) as [|Hgt]; [left; lia|right]. rewrite Z.max_l; [|lia].
    assert (1 < bytes) as H1. { destruct (decide (bytes <= 1)) as [Hs|]; [|lia]. unfold l in Hgt. rewrite Z.log2_up_eqn0 in Hgt; lia. }
    destruct (Z.log2_up_spec bytes H1) as [H2 _]. fold l in H2. replace l with (Z.succ (Z.pred l)) by lia. rewrite Z.pow_succ_r; lia.
Qed.

Lemma kmalloc_spec css s bytes cs : heap_in css s -> 0 <= bytes <= MAX_CACHE_SIZE -> css !! class_for bytes = Some cs ->
  ((forall c, c ∈ cs -> all_used (Z.of_nat (class_for bytes)) c) -> can_take (kern (ext s)) (pages (Z.of_nat (class_for bytes)))) ->
  wp (kmalloc bytes) (fun r s' => exists css', heap_in css' s' /\ allocates css s (class_for bytes) r css' s') s.
Proof.
  intros Hh Hb Hj Ht. unfold kmalloc. rewrite (proj2 (Z.ltb_ge _ _) (proj2 Hb)). destruct (class_for_ok bytes Hb) as (_ & -> & _).
  by eapply heap_malloc_spec.
Qed.

(** C33: kmalloc of up to 2048 bytes, when its class has an empty entry or a
    block for another cache can be had, answers with an object of the smallest
    size that is enough, aligned to that size, that was not in use; exactly it
    joins the objects in use, whose words stay as they are. *)
Theorem kmalloc_ok css s bytes cs : heap_in css s -> 0 <= bytes <= MAX_CACHE_SIZE -> css !! class_for bytes = Some cs ->
  ((forall c, c ∈ cs -> all_used (Z.of_nat (class_for bytes)) c) -> can_take (kern (ext s)) (pages (Z.of_nat (class_for bytes)))) ->
  let size := esize (Z.of_nat (class_for bytes)) in
  bytes <= size /\ (class_for bytes = O \/ size < 2 * bytes) /\
  wp (kmalloc bytes) (fun r s' => exists css', heap_in css' s' /\ allocates css s (class_for bytes) r css' s') s.
Proof.
  intros Hh Hb Hj Ht size. destruct (class_for_ok bytes Hb) as (_ & _ & H1 & H2). split; [done|]. split; [done|]. by eapply kmalloc_spec.
Qed.

Lemma kfree_spec addr_space css s j a c b e : heap_in css s -> css !! j = Some (a ++ c :: b) -> 0 <= e < entries (Z.of_nat j) -> bit (c_bits c) e = true ->
  no_fake_id (Z.of_nat j) e c ->
  let r := c_addr c + e * esize (Z.of_nat j) in
  mm_va_is_in_kmap_range addr_space r = true ->
  wp (kfree addr_space r) (fun _ s' => exists css', heap_in css' s' /\ releases css s j (c_addr c) r css' s') s.
Proof. intros Hh Hj He Hb Hno r Hr. unfold kfree. rewrite Hr. by apply (heap_free_spec css s j a c b e). Qed.

(** C34: kfree of an object takes exactly it from the objects in use and keeps
    the words of the others; when no entry of its cache is in use any more the
    cache's block goes back to raw_kmalloc, and otherwise no block does. For
    the two classes with caches of 8 pages this needs that the last word of
    the lower half, which is data, does not look like a cache's mark. *)
Theorem kfree_ok addr_space css s j a c b e : heap_in css s -> css !! j = Some (a ++ c :: b) -> 0 <= e < entries (Z.of_nat j) -> bit (c_bits c) e = true ->
  no_fake_id (Z.of_nat j) e c ->
  let r := c_addr c + e * esize (Z.of_nat j) in
  mm_va_is_in_kmap_range addr_space r = true ->
  wp (kfree addr_space r) (fun _ s' => exists css', heap_in css' s' /\ releases css s j (c_addr c) r css' s') s.
Proof. apply kfree_spec. Qed.

(** Kmalloc of up to 512 bytes and kfree of the answer restore the objects
    in use and their words. *)
Theorem kmalloc_kfree_roundtrip addr_space css s bytes cs : heap_in css s -> 0 <= bytes <= 512 -> css !! class_for bytes = Some cs ->
  ((forall c, c ∈ cs -> all_used (Z.of_nat (class_for bytes)) c) -> can_take (kern (ext s)) (pages (Z.of_nat (class_for bytes)))) ->
  (forall r s', kmalloc bytes s = Ok (r, s') -> mm_va_is_in_kmap_range addr_space r = true) ->
  wp (let* p := kmalloc bytes in kfree addr_space p) (fun _ s' => exists css', heap_in css' s' /\ (forall j z, live css' j z <-> live css j z) /\
    forall j z i, live css j z -> 0 <= i < esize (Z.of_nat j) / 8 -> mem s' !! (z + 8 * i) = mem s !! (z + 8 * i)) s.
Proof.
  intros Hh Hb Hj Ht Hr. assert (0 <= bytes <= MAX_CACHE_SIZE) as Hb' by (unfold MAX_CACHE_SIZE, CACHE_2048; lia).
  destruct (proj1 (wp_ok _ _ _) (kmalloc_spec css s bytes cs Hh Hb' Hj Ht)) as (r & s1 & Hrun & css1 & Hh1 & _ & Hnl & Hl1 & Hk1).
  apply wp_bind. unfold wp at 1. rewrite Hrun. destruct (proj2 (Hl1 (class_for bytes) r)) as (ds & Hds & c & e & (a & b & ->)%list_elem_of_split & He & Hbit & Er); [by right|].
  specialize (Hr _ _ Hrun). rewrite Er in Hr |- *. eapply wp_mono; [eapply kfree_spec; [done|exact Hds|done|done| |done]|].
  - intros H8. exfalso. assert (class_for bytes < 7)%nat as H7.
    { assert (Z.log2_up bytes <= 9) by (apply (Z.log2_up_le_mono _ 512); lia). unfold class_for. lia. }
    destruct (class_for bytes) as [|[|[|[|[|[|[|]]]]]]]; (done || lia).
  - rewrite -Er. intros _ s2 (css2 & Hh2 & Hl2 & Hk2 & _). exists css2. split; [done|].
    assert (forall j z, live css2 j z <-> live css j z) as Hl.
    { intros j z. rewrite Hl2 Hl1. split; [tauto|]. intros Hz. split; [by left|]. intros [-> ->]. done. }
    split; [done|]. intros j z i Hz Hi. rewrite (Hk2 j z i) //; [|apply Hl1; by left|by apply Hl]. apply (Hk1 j z i); [done|apply Hl1; by left|done].
Qed.

Lemma heap_no_overlap css s j z j' z' : heap_in css s -> live css j z -> live css j' z' -> (j, z) <> (j', z') ->
  z + esize (Z.of_nat j) <= z' \/ z' + esize (Z.of_nat j') <= z.
Proof.
  intros Hh (cs & Hj & c & e & Hc & He & _ & ->) (cs' & Hj' & d & e' & Hd & He' & _ & ->) Hne.
  pose proof (class_of_nat _ _ _ _ (proj1 Hh) Hj) as Hi. pose proof (class_of_nat _ _ _ _ (proj1 Hh) Hj') as Hi'.
  destruct (slab_cache _ _ _ c (hp_slab _ _ (proj1 Hh) _ _ Hj) Hc) as [Hco _]. destruct (slab_cache _ _ _ d (hp_slab _ _ (proj1 Hh) _ _ Hj') Hd) as [Hdo _].
  destruct (decide (j = j')) as [<-|Hjj].
  - pose proof (entry_aligned _ c e Hi Hco) as Ha. pose proof (entry_aligned _ d e' Hi Hdo) as Ha'. destruct (class_layout _ Hi) as (_ & _ & _ & _ & H0 & _).
    apply Z.mod_divide in Ha as [q Hq]; [|lia]. apply Z.mod_divide in Ha' as [q' Hq']; [|lia]. assert (q <> q') by congruence. nia.
  - destruct (entry_addr _ c e Hi Hco He) as (H1 & H2 & H3). destruct (entry_addr _ d e' Hi' Hdo He') as (H1' & H2' & H3').
    destruct (hp_apart _ _ (proj1 Hh) j j' cs cs' c d Hj Hj' Hjj Hc Hd); lia.
Qed.

(** C35: the bytes of the object that kmalloc of up to 2048 bytes answers with
    overlap no object that was in use, of its class or of another. *)
Theorem kmalloc_no_overlap css s bytes cs : heap_in css s -> 0 <= bytes <= MAX_CACHE_SIZE -> css !! class_for bytes = Some cs ->
  ((forall c, c ∈ cs -> all_used (Z.of_nat (class_for bytes)) c) -> can_take (kern (ext s)) (pages (Z.of_nat (class_for bytes)))) ->
  wp (kmalloc bytes) (fun r _ => forall j z, live css j z -> r + esize (Z.of_nat (class_for bytes)) <= z \/ z + esize (Z.of_nat j) <= r) s.
Proof.
  intros Hh Hb Hj Ht. eapply wp_mono; [by eapply kmalloc_spec|]. intros r s' (css' & Hh' & _ & Hnl & Hl & _) j z Hz.
  apply (heap_no_overlap css' s'); [done|apply Hl; by right|apply Hl; by left|]. intros [= <- ->]. done.
Qed.

(** ** Pointers that are not freed *)

Lemma cache_word css s j a c b : heap_in css s -> css !! j = Some (a ++ c :: b) ->
  exists pv nx, forall i w, block_words (Z.of_nat j) pv nx (cache_id (Z.of_nat j)) c !! i = Some w -> mem s !! (c_addr c + 8 * Z.of_nat i) = Some w.
Proof.
  intros (_ & _ & Hm) Hj. assert (heap css ⊢ ∃ pv nx, cache_at (Z.of_nat j) pv nx c) as [Hent].
  { iIntros "H". iDestruct (big_sepL_lookup _ _ j with "H") as "H"; [exact Hj|]. iDestruct (dseg_open with "H") as (pv nx) "[Hc _]". by iExists pv, nx. }
  destruct (Hent _ Hm) as (pv & nx & Hsub). exists pv, nx. intros i w Hw. change (words_from (c_addr c) (block_words (Z.of_nat j) pv nx (cache_id (Z.of_nat j)) c) ⊆ mem s) in Hsub.
  eapply lookup_weaken; [|exact Hsub]. apply words_from_lookup. by exists i.
Qed.

Lemma rd_ok s (p w : Z) : mem s !! p = Some w -> rd (E := E) p s = Ok (w, s).
Proof. intros H. unfold rd, on_mem, load, bind, gets, deref. rewrite H. by destruct s. Qed.

Lemma size_from_pages_state ptr (l : list Z) : forall s o s', size_from_pages (E := E) ptr l s = Ok (o, s') -> s' = s.
Proof.
  induction l as [|n l IH]; intros s o s'; cbn; [by intros [= _ <-]|]. intros (w & s1 & Hw & H)%bind_inv.
  assert (s1 = s) as ->. { unfold rd, on_mem, load, bind, gets, deref in Hw. destruct (mem s !! _); [|done]. injection Hw as _ <-. by destruct s. }
  destruct (negb _); [by eapply IH|]. by injection H as _ <-.
Qed.

Lemma size_from_ptr_run css s j a c b e : heap_in css s -> css !! j = Some (a ++ c :: b) -> 0 <= e < entries (Z.of_nat j) -> no_fake_id (Z.of_nat j) e c ->
  cache_malloc_size_from_ptr (c_addr c + e * esize (Z.of_nat j)) s = Ok (Some (esize (Z.of_nat j)), s).
Proof.
  intros Hh Hj He Hno. pose proof (class_of_nat _ _ _ _ (proj1 Hh) Hj) as Hi. destruct (slab_cache _ _ _ c (hp_slab _ _ (proj1 Hh) _ _ Hj) ltac:(set_solver)) as [Hc _].
  set (i := Z.of_nat j) in *. pose proof (heap_run css j (a ++ c :: b) s (cache_malloc_size_from_ptr (c_addr c + e * esize i)) (fun o _ _ => o = Some (esize i)) Hh Hj) as Hrun.
  apply wp_ok in Hrun as (o & s' & Hrun & cs' & -> & _); [by pose proof (size_from_pages_state _ _ _ _ _ Hrun) as ->|].
  intros Φ. iIntros "H HΦ". iDestruct (dseg_open with "H") as (pv nx) "[Hc H]". iApply (size_from_ptr_spec with "Hc"); [done..|]. iIntros "Hc".
  iSpecialize ("H" $! (c_bits c) with "[Hc]"); [by destruct c|]. by iApply ("HΦ" with "[//] H").
Qed.

(** Freeing an object that is not in use, in a cache that is, is a panic. *)
Theorem cache_double_free css s j a c b e : heap_in css s -> css !! j = Some (a ++ c :: b) -> 0 <= e < entries (Z.of_nat j) -> bit (c_bits c) e = false ->
  no_fake_id (Z.of_nat j) e c -> cache_free (c_addr c + e * esize (Z.of_nat j)) s = Err EPanic.
Proof.
  intros Hh Hj He Hb Hno. pose proof (class_of_nat _ _ _ _ (proj1 Hh) Hj) as Hi. destruct (slab_cache _ _ _ c (hp_slab _ _ (proj1 Hh) _ _ Hj) ltac:(set_solver)) as [Hc _].
  set (i := Z.of_nat j) in *. destruct (entry_index i c e Hi Hc He) as [Eal Ediv]. destruct (class_layout i Hi) as (_ & Hbw & _ & _ & _ & Hbe & _).
  assert (cache_malloc_size_from_ptr (c_addr c + e * esize i) s = Ok (Some (esize i), s)) as Hsz.
  { by eapply size_from_ptr_run. }
  destruct (cache_word css s j a c b Hh Hj) as (pv & nx & Hword). fold i in Hword. unfold cache_free. unfold bind at 1. rewrite Hsz idx_from_size //. unfold bind at 1. cbn [ret].
  fold (pages i). rewrite Eal generic_fields //. unfold bind at 1. cbn [ret fields_at f_buf]. rewrite Ediv. change BF_BITS with 64. fold (entries i) (esize i).
  assert (0 <= e / 64 < bitfields i) as Hw64 by (split; [apply Z.div_pos; lia|apply Z.div_lt_upper_bound; lia]).
  pose proof (ca_length i c Hi Hc) as Hl. pose proof (ca_buf _ _ Hc) as Hbuf. destruct (lookup_lt_is_Some_2 (c_bits c) (Z.to_nat (e / 64))) as [w Hw]; [lia|].
  unfold bind at 1. rewrite (rd_ok s _ w).
  2: { change (f_reserved (fields_at i (c_addr c))) with (c_addr c + entries i * esize i). replace (c_addr c + entries i * esize i + 8 * (e / 64)) with (c_addr c + 8 * Z.of_nat (length (c_buf c) + Z.to_nat (e / 64))) by lia.
       apply Hword. unfold block_words. rewrite lookup_app_r; [|lia]. replace (_ + _ - _)%nat with (Z.to_nat (e / 64)) by lia. by apply lookup_app_l_Some. }
  unfold bit in Hb. rewrite (list_lookup_total_correct _ _ _ Hw) in Hb. rewrite bitfield_get_bit; [|apply Z.mod_pos_bound; lia]. by rewrite Hb.
Qed.

(** C37: in a cache of 8 pages an object of the lower half cannot be freed while
    the last word of the half, which is data of an object, has the bits of the
    mark and no valid class in its low bits, as all ones: cache_free panics. *)
Theorem cache_free_fake_id css s j a c b e w : heap_in css s -> css !! j = Some (a ++ c :: b) -> 0 <= e < entries (Z.of_nat j) -> bit (c_bits c) e = true ->
  pages (Z.of_nat j) = 8 -> e * esize (Z.of_nat j) < 4 * PAGE_SIZE ->
  c_buf c !! 2047%nat = Some w -> Z.land w CACHE_ID_MAGIC = CACHE_ID_MAGIC -> Z.land w CACHE_ID_MASK < 3 \/ 11 < Z.land w CACHE_ID_MASK ->
  cache_free (c_addr c + e * esize (Z.of_nat j)) s = Err EPanic.
Proof.
  intros Hh Hj He _ H8 Hlow Hw Hm Hcl. pose proof (class_of_nat _ _ _ _ (proj1 Hh) Hj) as Hi. destruct (slab_cache _ _ _ c (hp_slab _ _ (proj1 Hh) _ _ Hj) ltac:(set_solver)) as [Hc _].
  set (i := Z.of_nat j) in *. destruct (cache_word css s j a c b Hh Hj) as (pv & nx & Hword). fold i in Hword. destruct (ca_addr _ _ Hc) as (B1 & B2 & B3).
  destruct (class_layout i Hi) as (_ & _ & _ & _ & Hs & _). assert (c_addr c mod 2 ^ 14 = 0) as B4.
  { rewrite H8 in B3. apply Z.mod_divide in B3 as [q Hq]; [|done]. apply Z.mod_divide; [done|]. exists (q * 2). unfold PAGE_SIZE in Hq. lia. }
  unfold cache_free, cache_malloc_size_from_ptr, CACHE_PAGE_SIZES. unfold bind at 1. cbn [size_from_pages]. change (PAGE_SIZE * 4) with (2 ^ 14).
  rewrite (align_down_block (c_addr c) (e * esize i) 14); [|done|unfold PAGE_SIZE in *; nia..]. unfold bind at 1. rewrite (rd_ok s _ w).
  2: { replace (c_addr c + 4 * PAGE_SIZE - 8) with (c_addr c + 8 * Z.of_nat 2047) by (unfold PAGE_SIZE; lia). apply Hword. unfold block_words. by apply lookup_app_l_Some. }
  rewrite Hm Z.eqb_refl. cbn [negb ret]. assert (0 <= Z.land w CACHE_ID_MASK <= 15) as Hr.
  { change CACHE_ID_MASK with (Z.ones 4). rewrite Z.land_ones; [|lia]. pose proof (Z.mod_pos_bound w (2 ^ 4)). lia. }
  rewrite power_of2_eq; [|lia]. unfold cache_idx_from_size. set (n := Z.land w CACHE_ID_MASK) in *.
  assert ((CACHE_8 <=? 2 ^ n) && (2 ^ n <=? CACHE_2048) = false) as ->; [|done]. apply andb_false_iff. rewrite !Z.leb_gt. destruct Hcl as [Hcl|Hcl]; [left|right].
  - apply (Z.pow_lt_mono_r 2 n 3); lia.
  - apply (Z.pow_lt_mono_r 2 11 n); lia.
Qed.

(** ** The empty heap *)

(** cache_malloc_init makes the empty heap: nine classes without caches. *)
Theorem cache_malloc_init_ok (k : E) : heap_in (replicate 9 []) (MkSt ∅ (MkExt cache_malloc_init k)).
Proof.
  split; [|split].
  - split; [done| |].
    + intros j cs [-> Hj]%lookup_replicate. exists 0, 0, 0. split; [|split; [by intros c ?%elem_of_nil|by intros c ?%elem_of_nil]].
      split; [|by intros c ?%elem_of_nil|apply NoDup_nil_2]. cbn [cstate]. rewrite Nat2Z.id.
      do 9 (destruct j as [|j]; [by vm_compute|]). lia.
    + intros j j' cs cs' c d [-> _]%lookup_replicate _ _ Hc. by apply elem_of_nil in Hc.
  - intros z Hz. rewrite dom_empty_L in Hz. by apply elem_of_empty in Hz.
  - assert (⊢ heap (replicate 9 [])) as [He]; [|by apply He]. unfold heap. cbn. by repeat iSplit.
Qed.
End Theorems.

(** ** A kernel that keeps the laws *)

(** Blocks from one address upwards, never used again. *)
#[export] Instance bump_alloc : RawAlloc (Z * gmap Z Z) := {
  raw_kmalloc n _ e := let p := (e.1 + n * PAGE_SIZE - 1) / (n * PAGE_SIZE) * (n * PAGE_SIZE) in Ok (p, (p + n * PAGE_SIZE, <[p := n]> e.2));
  raw_kfree p e := match e.2 !! p with Some _ => Ok (tt, (e.1, delete p e.2)) | None => Err EFault end
}.

Definition bump_can_take (e : Z * gmap Z Z) (n : Z) : Prop :=
  0 < e.1 /\ e.1 + 2 * n * PAGE_SIZE < 2 ^ 64 /\ map_Forall (fun q m => q + m * PAGE_SIZE <= e.1) e.2.

#[export] Instance bump_laws : RawLaws (Z * gmap Z Z).
Proof.
  refine {| blocks := snd; can_take := bump_can_take |}.
  - intros e n (H0 & H1 & H2) Hn. assert (4 <= n <= 8) as Hn4.
    { repeat (apply elem_of_cons in Hn as [->|Hn]; [lia|]). by apply elem_of_nil in Hn. }
    set (k := n * PAGE_SIZE) in *. assert (0 < k) as Hk by (unfold k, PAGE_SIZE; lia). set (p := (e.1 + k - 1) / k * k).
    assert (e.1 <= p < e.1 + k) as Hp.
    { pose proof (Z.div_mod (e.1 + k - 1) k ltac:(lia)). pose proof (Z.mod_pos_bound (e.1 + k - 1) k Hk). unfold p. lia. }
    exists p, (p + k, <[p := n]> e.2). split; [done|]. split; [unfold p; apply Z.mod_mul; lia|]. split; [lia|]. split; [unfold k in *; lia|]. split; [|done].
    intros q m Hq. left. pose proof (H2 q m Hq). cbn in *. lia.
  - intros e p n Hp. cbn. rewrite Hp. by eexists.
Defined.

(** ** Concrete heaps *)

(** One class with one cache. *)
Section One.
Context {E : Type} `{!RawAlloc E} `{!RawLaws E}.

Definition one_css (j : nat) (c : cache) : list (list cache) := <[j := [c]]> (replicate 9 []).
Definition one_state (j : nat) (c : cache) (n k : Z) (e : E) : mst Z (cext E) :=
  MkSt (words_from (c_addr c) (block_words (Z.of_nat j) 0 0 (cache_id (Z.of_nat j)) c))
    (MkExt (<[j := record (Z.of_nat j) [c] (c_addr c) n k]> cache_malloc_init) e).

Lemma one_heap j c n k (e : E) : (j < 9)%nat -> cache_ok (Z.of_nat j) c -> blocks e !! c_addr c = Some (pages (Z.of_nat j)) -> in_use (Z.of_nat j) c ->
  found_in (Z.of_nat j) [c] (Some (c_addr c, n, k)) -> heap_in (one_css j c) (one_state j c n k e).
Proof.
  intros Hj Hc Hb Hu Hf. assert (class (Z.of_nat j)) as Hi by (unfold class; lia). destruct (ca_addr _ _ Hc) as (H0 & _ & Hal).
  pose proof (hp_slab _ _ (proj1 (cache_malloc_init_ok e))) as Hempty. split; [|split].
  - split; [by unfold one_css; rewrite length_insert| |].
    + intros j' cs [[<- [<- _]]|[Hne Hd]]%list_lookup_insert_Some.
      * exists (c_addr c), n, k. split; [|split; [unfold hint; by rewrite (proj2 (Z.eqb_neq _ _)); [|lia]|by intros d [->|?%elem_of_nil]%elem_of_cons]].
        split; [|by intros d [->|?%elem_of_nil]%elem_of_cons|apply NoDup_singleton]. cbn [cstate one_state ext]. rewrite Nat2Z.id list_lookup_insert_eq //.
      * pose proof (lookup_replicate_1 _ _ _ _ Hd) as [-> _]. apply (slab_other (Z.of_nat j) (MkExt cache_malloc_init e)); [|lia|lia|by intros d ?%elem_of_nil|exact (Hempty j' [] Hd)].
        intros q Hq. cbn. rewrite list_lookup_insert_ne //. lia.
    + intros j1 j2 cs cs' d d' [[<- [<- _]]|[Hne1 Hd1]]%list_lookup_insert_Some [[<- [<- _]]|[Hne2 Hd2]]%list_lookup_insert_Some Hne Hin Hin'; [done| | |].
      * apply lookup_replicate_1 in Hd2 as [-> _]. by apply elem_of_nil in Hin'.
      * apply lookup_replicate_1 in Hd1 as [-> _]. by apply elem_of_nil in Hin.
      * apply lookup_replicate_1 in Hd1 as [-> _]. by apply elem_of_nil in Hin.
  - intros z Hz. cbn [one_state mem ext kern] in *. apply (block_dom (Z.of_nat j)) in Hz as [H8 Hr]; [|done|done|by apply block_words_len].
    split; [done|]. by exists (c_addr c), (pages (Z.of_nat j)).
  - assert (cache_at (Z.of_nat j) 0 0 c ⊢ heap (one_css j c)) as [Hent]; [|apply Hent; apply (reflexivity (R := (⊆)))].
    iIntros "H". unfold one_css. iAssert (heap (replicate 9 [])) as "He"; [unfold heap; cbn; by repeat iSplit|].
    iDestruct (big_sepL_insert_acc _ _ j [] with "He") as "[_ Hb]"; [by apply lookup_replicate_2|]. iApply "Hb". cbn [dseg hd_addr]. by iFrame "H".
Qed.
End One.

Definition heap_base : Z := 0xffff800000100000.

(** A cache of 15 objects of 2048 bytes, the first in use, with all words
    zero but one. *)
Definition cache2048 (w : Z) : cache := MkCache heap_base [1] (<[2047%nat := w]> (replicate 3840 0)).
Definition bump_state : Z * gmap Z Z := (heap_base + 8 * PAGE_SIZE, {[heap_base := 8]}).

Lemma one_word_unused w e : 0 <= w < 2 ^ 15 -> entries 8 <= e < 64 * bitfields 8 -> bit [w] e = false.
Proof.
  intros Hw. change (entries 8) with 15. change (64 * bitfields 8) with 64. intros He. unfold bit. rewrite Z.div_small; [|lia]. rewrite Z.mod_small; [|lia].
  cbn [Z.to_nat lookup_total list_lookup_total]. apply (testbit_high 15); [done|lia].
Qed.

Lemma cache2048_ok w : cache_ok 8 (cache2048 w).
Proof.
  split; [by vm_compute|cbn [cache2048 c_buf]; by rewrite length_insert length_replicate|split; [by vm_compute|by repeat constructor]|].
  intros e He. apply (one_word_unused 1); [lia|exact He].
Qed.

Lemma cache2048_heap w : heap_in (one_css 8 (cache2048 w)) (one_state 8 (cache2048 w) 0 1 bump_state).
Proof.
  apply one_heap; [lia|apply cache2048_ok|by vm_compute|by exists 0|]. exists (cache2048 w). split; [by left|]. by vm_compute.
Qed.

Definition empty_state : mst Z (cext (Z * gmap Z Z)) := MkSt ∅ (MkExt cache_malloc_init (heap_base, ∅)).

Lemma kmalloc_ok_witness :
  100 <= esize 4 /\ (class_for 100 = O \/ esize 4 < 2 * 100) /\
  wp (kmalloc 100) (fun r s' => exists css', heap_in css' s' /\ allocates (replicate 9 []) empty_state 4 r css' s') empty_state.
Proof.
  apply (kmalloc_ok (replicate 9 []) empty_state 100 []); [apply cache_malloc_init_ok|by vm_compute|done|].
  intros _. split; [by vm_compute|]. split; [by vm_compute|]. apply map_Forall_empty.
Defined.

Lemma kfree_ok_witness :
  wp (kfree 0x100000000 heap_base) (fun _ s' => exists css', heap_in css' s' /\
    releases (one_css 8 (cache2048 5)) (one_state 8 (cache2048 5) 0 1 bump_state) 8 heap_base heap_base css' s') (one_state 8 (cache2048 5) 0 1 bump_state).
Proof.
  apply (kfree_ok 0x100000000 (one_css 8 (cache2048 5)) (one_state 8 (cache2048 5) 0 1 bump_state) 8 [] (cache2048 5) [] 0);
    [apply cache2048_heap|done|by vm_compute|by vm_compute|intros _ _; by vm_compute|by vm_compute].
Defined.

Lemma kmalloc_kfree_roundtrip_witness :
  wp (let* p := kmalloc 100 in kfree 0x100000000 p) (fun _ s' => exists css', heap_in css' s' /\ (forall j z, live css' j z <-> live (replicate 9 []) j z) /\
    forall j z i, live (replicate 9 []) j z -> 0 <= i < esize (Z.of_nat j) / 8 -> mem s' !! (z + 8 * i) = mem empty_state !! (z + 8 * i)) empty_state.
Proof.
  apply (kmalloc_kfree_roundtrip 0x100000000 (replicate 9 []) empty_state 100 []); [apply cache_malloc_init_ok|lia|done| |].
  - intros _. split; [by vm_compute|]. split; [by vm_compute|]. apply map_Forall_empty.
  - intros r s' Hrun. assert (match kmalloc 100 empty_state with Ok (r, _) => r | Err _ => 0 end = r) as <- by by rewrite Hrun. by vm_compute.
Defined.

(** Two objects: the first two entries in use. *)
Definition two_objects : cache := MkCache heap_base [3] (replicate 3840 0).

Lemma two_objects_ok : cache_ok 8 two_objects.
Proof.
  split; [by vm_compute|by vm_compute|split; [by vm_compute|by repeat constructor]|]. intros e He. apply (one_word_unused 3); [lia|exact He].
Qed.

Lemma two_objects_heap : heap_in (one_css 8 two_objects) (one_state 8 two_objects 0 2 bump_state).
Proof.
  apply one_heap; [lia|exact two_objects_ok|by vm_compute|by exists 0|exists two_objects; split; [by left|]; by vm_compute].
Qed.

Lemma kmalloc_no_overlap_witness :
  wp (kmalloc 2000) (fun r _ => forall j z, live (one_css 8 two_objects) j z -> r + esize 8 <= z \/ z + esize (Z.of_nat j) <= r)
    (one_state 8 two_objects 0 2 bump_state).
Proof.
  apply (kmalloc_no_overlap (one_css 8 two_objects) (one_state 8 two_objects 0 2 bump_state) 2000 [two_objects]); [apply two_objects_heap|by vm_compute|done|].
  intros Hu. exfalso. assert (bit (c_bits two_objects) 2 = true) as Hb by (apply Hu; [by left|by vm_compute]). by vm_compute in Hb.
Defined.

Lemma cache_double_free_witness : cache_free (heap_base + 1 * 2048) (one_state 8 (cache2048 0) 0 1 bump_state) = Err EPanic.
Proof.
  apply (cache_double_free (one_css 8 (cache2048 0)) (one_state 8 (cache2048 0) 0 1 bump_state) 8 [] (cache2048 0) [] 1);
    [apply cache2048_heap|done|by vm_compute|by vm_compute|intros _ _; by vm_compute].
Defined.

(** The eighth object is full of ones: the first one cannot be freed. *)
Lemma cache_free_fake_id_witness : cache_free (heap_base + 0 * 2048) (one_state 8 (cache2048 (2 ^ 64 - 1)) 0 1 bump_state) = Err EPanic.
Proof.
  apply (cache_free_fake_id (one_css 8 (cache2048 (2 ^ 64 - 1))) (one_state 8 (cache2048 (2 ^ 64 - 1)) 0 1 bump_state) 8 [] (cache2048 (2 ^ 64 - 1)) [] 0 (2 ^ 64 - 1));
    [apply cache2048_heap|done|by vm_compute|by vm_compute|by vm_compute|by vm_compute|by vm_compute|by vm_compute|right; by vm_compute].
Defined.
