(* ===== verification/Reserve.v ===== *)
(** * Reserve: the pages set aside for the allocators themselves

    src/kernel/mm/malloc/reserve_malloc/reserve_malloc.c: 32 pages at the
    fixed offset, handed out by [reserve_malloc] to vmalloc and to the
    translation tables while [raw_kmalloc] is busy, and replaced afterwards
    by [reserve_malloc_fill], which itself calls [raw_kmalloc] and through it
    may take further pages out of the reserve.

    The reserve is a part of a larger state, which the class [ReserveEnv]
    gives together with the operations of the other components that
    reserve_malloc.c calls. *)

From Stdlib Require Import ZArith Lia.
From stdpp Require Import base tactics numbers gmap list.
From S2P Require Import Prelude KMath VmContainers.

Open Scope Z_scope.
Open Scope kmonad_scope.

Definition RESERVE_MALLOC_SIZE : Z := 32.

(** The statics [reserved_addr] and [reserved_pages] *)
Record page_reserve : Type := MkReserve {
  reserved_addr : gmap Z pv_ptr;
  reserved_pages : Z
}.

Class ReserveEnv (S : Type) : Type := {
  get_reserve : S -> page_reserve;
  set_reserve : page_reserve -> S -> S;
  (* early_kalloc(PAGE_SIZE, RESERVE_MALLOC_TAG, false, false) *)
  early_kalloc_page : M S pv_ptr;
  (* raw_kmalloc(1, RESERVE_MALLOC_TAG, &cfg, NULL), KMAP without refill *)
  raw_kmalloc_page : M S Z;
  env_vmalloc_update_tag : Z -> Z -> M S Z;
  env_page_update_tag : Z -> Z -> M S Z;
  env_memzero64 : Z -> Z -> M S unit
}.

Section Reserve.
Context {S : Type} `{Env : ReserveEnv S}.

Definition get_pages : M S Z := gets (fun s => reserved_pages (get_reserve s)).
Definition put_pages (w : Z) : M S unit :=
  modify (fun s => set_reserve (MkReserve (reserved_addr (get_reserve s)) w) s).
Definition get_addr (i : Z) : M S pv_ptr :=
  let* r := gets get_reserve in deref (reserved_addr r !! i).
Definition put_addr (i : Z) (pv : pv_ptr) : M S unit :=
  get_addr i ;;
  modify (fun s => set_reserve
    (MkReserve (<[i := pv]> (reserved_addr (get_reserve s))) (reserved_pages (get_reserve s))) s).

(** [RESERVE_IS_FULL()] *)
Definition is_full (w : Z) : bool := w =? wrap32 (wrap64 (Z.shiftl 1 RESERVE_MALLOC_SIZE) - 1).

Definition indices : list Z := seqZ 0 RESERVE_MALLOC_SIZE.

Definition reserve_malloc_init : M S unit :=
  put_pages 0 ;;
  mfor indices (fun i =>
    let* w := get_pages in
    ASSERT (negb (bitfield_get w i)) ;;
    let* pv := early_kalloc_page in
    ASSERT (negb (pa pv =? 0) && ptrs_are_kmapped pv) ;;
    put_addr i pv ;;
    let* w := get_pages in
    put_pages (bitfield_set_high 32 w i)) ;;
  let* w := get_pages in
  ASSERT (is_full w).

(** The [for] loop of [reserve_malloc] and the [PANIC] after it *)
Fixpoint take_scan (new_tag : Z) (l : list Z) : M S pv_ptr :=
  match l with
  | [] => panic
  | i :: l =>
      let* w := get_pages in
      if bitfield_get w i then
        let* pmap := get_addr i in
        (if negb (new_tag =? 0) then
           env_vmalloc_update_tag (va pmap) new_tag ;;
           env_page_update_tag (pa pmap) new_tag ;;
           ret tt
         else ret tt) ;;
        let* w := get_pages in
        put_pages (bitfield_clear 32 w i) ;;
        ret pmap
      else take_scan new_tag l
  end.

Definition reserve_malloc (new_tag : Z) : M S pv_ptr := take_scan new_tag indices.

(** The [for] loop of [reserve_malloc_fill]; [true] for [goto end] *)
Fixpoint fill_scan (l : list Z) : M S bool :=
  match l with
  | [] => ret false
  | i :: l =>
      let* w := get_pages in
      if is_full w then ret true
      else if bitfield_get w i then fill_scan l
      else
        let* v := raw_kmalloc_page in
        put_addr i (pv_ptr_new (kva_to_kpa v) v) ;;
        env_memzero64 v PAGE_SIZE ;;
        let* w := get_pages in
        put_pages (bitfield_set_high 32 w i) ;;
        fill_scan l
  end.

(** [while (!RESERVE_IS_FULL())] *)
Fixpoint fill_loop (fuel : nat) : M S unit :=
  match fuel with
  | O => nofuel
  | Datatypes.S fuel =>
      let* w := get_pages in
      if is_full w then ret tt
      else
        let* e := fill_scan indices in
        if e : bool then ret tt else fill_loop fuel
  end.

(** The number of rounds is an argument: what the code takes out of the
    reserve while it fills it is up to [raw_kmalloc]. *)
Definition reserve_malloc_fill (fuel : nat) : M S unit := fill_loop fuel.

End Reserve.
