(* ===== verification/ReserveCorrect.v ===== *)
(** * ReserveCorrect: theorems on the page reserve

    The reserve as a set of occupied slots with distinct pages: taking a
    page, filling the reserve while pages are being taken from it, and the
    interface [PageSource] of vmalloc. *)

From Stdlib Require Import ZArith Lia.
From stdpp Require Import base tactics numbers gmap list.
From S2P Require Import Prelude KMath VmContainers VmContainersSpec Reserve.

Open Scope Z_scope.
Open Scope kmonad_scope.

Implicit Types (r : page_reserve) (live : gset Z).

(** ** The slots *)

Definition slots (w : Z) : gset Z := list_to_set (filter (fun i => bitfield_get w i = true) indices).

Definition avail r : nat := size (slots (reserved_pages r)).
Definition missing r : nat := 32 - avail r.

Lemma elem_of_slots w i : i ∈ slots w <-> 0 <= i < 32 /\ Z.testbit w i = true.
Proof.
  unfold slots, indices. rewrite elem_of_list_to_set, list_elem_of_filter, elem_of_seqZ. unfold RESERVE_MALLOC_SIZE.
  split; intros [H1 H2]; rewrite ?bitfield_get_bit in * by lia; split; done || lia.
Qed.

Definition all_slots : gset Z := list_to_set indices.

Lemma slots_subset w : slots w ⊆ all_slots.
Proof. intros i [Hi _]%elem_of_slots. unfold all_slots, indices. rewrite elem_of_list_to_set, elem_of_seqZ. unfold RESERVE_MALLOC_SIZE. lia. Qed.

Lemma size_all_slots : size all_slots = 32%nat.
Proof. vm_compute. reflexivity. Qed.

Lemma avail_le r : (avail r <= 32)%nat.
Proof. unfold avail. rewrite <- size_all_slots. apply subseteq_size, slots_subset. Qed.

Lemma full_slots w : is_u32 w -> is_full w = true <-> slots w = all_slots.
Proof.
  intros Hw. unfold is_full. rewrite Z.eqb_eq. change (wrap32 _) with (Z.ones 32). split.
  - intros ->. vm_compute. reflexivity.
  - intros E. apply Z.bits_inj'. intros i Hi. rewrite testbit_ones' by lia.
    destruct (Z.ltb_spec i 32) as [|]; [|by apply (testbit_high 32)].
    assert (i ∈ slots w) as [_ ?]%elem_of_slots; [|done]. rewrite E. unfold all_slots, indices.
    rewrite elem_of_list_to_set, elem_of_seqZ. unfold RESERVE_MALLOC_SIZE. lia.
Qed.

Lemma set_slots w i : is_u32 w -> 0 <= i < 32 -> slots (bitfield_set_high 32 w i) = {[i]} ∪ slots w.
Proof.
  intros Hw Hi. apply set_eq. intros j. rewrite elem_of_union, elem_of_singleton, !elem_of_slots.
  destruct (decide (0 <= j < 32)) as [Hj|]; [|split; [tauto|intros [->|?]; [lia|tauto]]].
  rewrite bitfield_set_bit, orb_true_iff, Z.eqb_eq by (done || lia). split; [tauto|]. intros [->|?]; [split; [done|by left]|tauto].
Qed.

Lemma clear_slots w i : is_u32 w -> 0 <= i < 32 -> slots (bitfield_clear 32 w i) = slots w ∖ {[i]}.
Proof.
  intros Hw Hi. apply set_eq. intros j. rewrite elem_of_difference, elem_of_singleton, !elem_of_slots.
  destruct (decide (0 <= j < 32)) as [Hj|]; [|tauto].
  rewrite bitfield_clear_bit, andb_true_iff, negb_true_iff, Z.eqb_neq by (done || lia). tauto.
Qed.

(** ** The invariant *)

(** The occupied slots hold distinct pages, all of them in [live]. *)
Record reserve_ok r live : Prop := {
  ro_word : is_u32 (reserved_pages r);
  ro_array i : 0 <= i < 32 -> is_Some (reserved_addr r !! i);
  ro_page i pv : i ∈ slots (reserved_pages r) -> reserved_addr r !! i = Some pv ->
    va pv ∈ live /\ pa pv = kva_to_kpa (va pv);
  ro_distinct i j pv pv' : i ∈ slots (reserved_pages r) -> j ∈ slots (reserved_pages r) ->
    reserved_addr r !! i = Some pv -> reserved_addr r !! j = Some pv' -> va pv = va pv' -> i = j
}.

(** Pages have been taken out of [r]. *)
Record drained r r' : Prop := {
  dr_addr : reserved_addr r' = reserved_addr r;
  dr_word : is_u32 (reserved_pages r');
  dr_slots : slots (reserved_pages r') ⊆ slots (reserved_pages r)
}.

Lemma drained_ok r r' live : reserve_ok r live -> drained r r' -> reserve_ok r' live.
Proof.
  intros [H1 H2 H3 H4] [E1 E2 E3]. split; rewrite ?E1; [done|done|..].
  - intros i pv Hi. by apply H3, E3.
  - intros i j pv pv' Hi Hj. apply H4; by apply E3.
Qed.

Lemma reserve_ok_mono r live live' : reserve_ok r live -> live ⊆ live' -> reserve_ok r live'.
Proof. intros [H1 H2 H3 H4] Hl. split; try done. intros i pv Hi Hp. destruct (H3 i pv Hi Hp). split; [by apply Hl|done]. Qed.

(** Putting a page that is not in use into an empty slot *)
Lemma put_page_ok r live i v :
  reserve_ok r live -> 0 <= i < 32 -> i ∉ slots (reserved_pages r) -> v ∉ live ->
  reserve_ok (MkReserve (<[i := pv_ptr_new (kva_to_kpa v) v]> (reserved_addr r)) (bitfield_set_high 32 (reserved_pages r) i)) ({[v]} ∪ live).
Proof.
  intros [H1 H2 H3 H4] Hi Hn Hv. split; cbn [reserved_addr reserved_pages].
  - by apply bitfield_set_range.
  - intros j Hj. destruct (decide (j = i)) as [->|]; [rewrite lookup_insert_eq; eauto|]. rewrite lookup_insert_ne by done. by apply H2.
  - intros j pv. rewrite set_slots by done. intros [->%elem_of_singleton|Hj]%elem_of_union Hp.
    + rewrite lookup_insert_eq in Hp. injection Hp as <-. split; [set_solver|done].
    + rewrite lookup_insert_ne in Hp by (intros ->; done). destruct (H3 j pv Hj Hp). split; [set_solver|done].
  - intros j j' pv pv'. rewrite set_slots by done.
    intros [->%elem_of_singleton|Hj]%elem_of_union [->%elem_of_singleton|Hj']%elem_of_union Hp Hp' E.
    + done.
    + rewrite lookup_insert_eq in Hp. injection Hp as <-. rewrite lookup_insert_ne in Hp' by (intros ->; done).
      destruct (H3 j' pv' Hj' Hp') as [Hl _]. rewrite <- E in Hl. done.
    + rewrite lookup_insert_eq in Hp'. injection Hp' as <-. rewrite lookup_insert_ne in Hp by (intros ->; done).
      destruct (H3 j pv Hj Hp) as [Hl _]. rewrite E in Hl. done.
    + rewrite lookup_insert_ne in Hp, Hp' by (intros ->; done). by eapply H4.
Qed.

(** ** The interface *)

(** [Own s live d]: the pages [live] are in use or in the reserve, and at
    most [d] more pages will be taken out of the reserve by the calls of
    [raw_kmalloc] to come. *)
Class ReserveLaws {S} `{ReserveEnv S} (Own : S -> gset Z -> nat -> Prop) : Prop := {
  rl_get r (s : S) : get_reserve (set_reserve r s) = r;
  rl_own r (s : S) live d : Own s live d -> Own (set_reserve r s) live d;
  rl_zero v (s : S) live d : Own s live d ->
    wp (env_memzero64 v PAGE_SIZE) (fun _ s' => get_reserve s' = get_reserve s /\ Own s' live d) s;
  rl_vtag v t (s : S) live d : Own s live d -> v ∈ live ->
    wp (env_vmalloc_update_tag v t) (fun _ s' => get_reserve s' = get_reserve s /\ Own s' live d) s;
  rl_ptag v t (s : S) live d : Own s live d -> v ∈ live ->
    wp (env_page_update_tag (kva_to_kpa v) t) (fun _ s' => get_reserve s' = get_reserve s /\ Own s' live d) s
}.

(** One call of [raw_kmalloc] needs at most [need] pages of the reserve. *)
Class RefillLaws {S} `{ReserveEnv S} (Own : S -> gset Z -> nat -> Prop) (need : nat) : Prop := {
  rl_raw (s : S) live d : Own s live d -> reserve_ok (get_reserve s) live -> (need <= avail (get_reserve s))%nat ->
    wp raw_kmalloc_page (fun v s' => v ∉ live /\ drained (get_reserve s) (get_reserve s') /\
      exists d', Own s' ({[v]} ∪ live) d' /\
        (avail (get_reserve s) + d' <= avail (get_reserve s') + d)%nat) s
}.

Section Laws.
Context {S : Type} `{Env : ReserveEnv S} (Own : S -> gset Z -> nat -> Prop) `{RL : !ReserveLaws Own}.
Implicit Types (s : S).

Lemma put_pages_wp w (Q : unit -> S -> Prop) s :
  Q tt (set_reserve (MkReserve (reserved_addr (get_reserve s)) w) s) -> wp (put_pages w) Q s.
Proof. done. Qed.

Lemma put_addr_wp i pv (Q : unit -> S -> Prop) s :
  is_Some (reserved_addr (get_reserve s) !! i) ->
  Q tt (set_reserve (MkReserve (<[i := pv]> (reserved_addr (get_reserve s))) (reserved_pages (get_reserve s))) s) ->
  wp (put_addr i pv) Q s.
Proof. intros [pv0 E] HQ. unfold put_addr. apply wp_bind, wp_bind, wp_gets. eapply wp_deref; [exact E|done]. Qed.

(** *** Taking a page *)

Lemma take_scan_spec tag l s live d :
  reserve_ok (get_reserve s) live -> Own s live d -> (forall i, i ∈ l -> 0 <= i < 32) ->
  (exists i, i ∈ l /\ i ∈ slots (reserved_pages (get_reserve s))) ->
  wp (take_scan tag l) (fun pv s' => exists l1 i l2, l = l1 ++ i :: l2 /\
    (forall j, j ∈ l1 -> j ∉ slots (reserved_pages (get_reserve s))) /\
    i ∈ slots (reserved_pages (get_reserve s)) /\ reserved_addr (get_reserve s) !! i = Some pv /\
    get_reserve s' = MkReserve (reserved_addr (get_reserve s)) (bitfield_clear 32 (reserved_pages (get_reserve s)) i) /\
    Own s' live d) s.
Proof.
  intros HR HO. pose proof HR as [Hw Ha Hp _]. induction l as [|i l IH]; intros Hl (j & Hj & Hs); [set_solver|].
  cbn [take_scan]. apply wp_bind, wp_gets.
  destruct (bitfield_get (reserved_pages (get_reserve s)) i) eqn:Eb.
  - assert (0 <= i < 32) as Hi by (apply Hl; set_solver). rewrite bitfield_get_bit in Eb by lia.
    assert (i ∈ slots (reserved_pages (get_reserve s))) as His by by apply elem_of_slots.
    destruct (Ha i Hi) as [pv E]. destruct (Hp i pv His E) as [Hlive Hpa].
    apply wp_bind, wp_bind, wp_gets. eapply wp_deref; [exact E|]. apply wp_bind.
    assert (wp (if negb (tag =? 0) then env_vmalloc_update_tag (va pv) tag ;; env_page_update_tag (pa pv) tag ;; ret tt else ret tt)
      (fun _ s1 => get_reserve s1 = get_reserve s /\ Own s1 live d) s) as Htag.
    { destruct (negb (tag =? 0)); [|by apply wp_ret]. apply wp_bind.
      eapply wp_mono; [by apply (rl_vtag (va pv) tag s live d)|]. intros _ s1 [E1 O1]. apply wp_bind. rewrite Hpa.
      eapply wp_mono; [by apply (rl_ptag (va pv) tag s1 live d)|]. intros _ s2 [E2 O2]. apply wp_ret. by rewrite E2. }
    eapply wp_mono; [exact Htag|]. intros _ s1 [E1 O1]. apply wp_bind, wp_gets, wp_bind, put_pages_wp, wp_ret.
    exists [], i, l. rewrite (rl_get (ReserveLaws := RL)), E1. split_and!; try done; [set_solver|]. by apply (rl_own (ReserveLaws := RL)).
  - assert (0 <= i < 32) as Hi by (apply Hl; set_solver). rewrite bitfield_get_bit in Eb by lia.
    assert (i ∉ slots (reserved_pages (get_reserve s))) as His by (rewrite elem_of_slots, Eb; naive_solver).
    eapply wp_mono; [apply IH|].
    + intros i' Hi'. apply Hl. set_solver.
    + exists j. split; [|done]. apply elem_of_cons in Hj as [->|]; done.
    + intros pv s' (l1 & i' & l2 & -> & H1 & H2). exists (i :: l1), i', l2. split; [done|]. split; [|done].
      intros j' [->|Hj']%elem_of_cons; [done|by apply H1].
Qed.

Lemma indices_bound i : i ∈ indices <-> 0 <= i < 32.
Proof. unfold indices, RESERVE_MALLOC_SIZE. rewrite elem_of_seqZ. lia. Qed.

Lemma reserve_malloc_spec tag s live d :
  reserve_ok (get_reserve s) live -> Own s live d -> (0 < avail (get_reserve s))%nat ->
  wp (reserve_malloc tag) (fun pv s' => exists i, i ∈ slots (reserved_pages (get_reserve s)) /\
    (forall j, j ∈ slots (reserved_pages (get_reserve s)) -> i <= j) /\
    reserved_addr (get_reserve s) !! i = Some pv /\ va pv ∈ live /\ pa pv = kva_to_kpa (va pv) /\
    reserved_addr (get_reserve s') = reserved_addr (get_reserve s) /\
    slots (reserved_pages (get_reserve s')) = slots (reserved_pages (get_reserve s)) ∖ {[i]} /\
    reserve_ok (get_reserve s') (live ∖ {[va pv]}) /\ Own s' live d) s.
Proof.
  intros HR HO Hav. pose proof HR as [Hw Ha Hp Hd].
  assert (exists i, i ∈ slots (reserved_pages (get_reserve s))) as (i0 & Hi0).
  { destruct (set_choose_or_empty (slots (reserved_pages (get_reserve s)))) as [|E]; [done|].
    unfold avail in Hav. rewrite E, size_empty in Hav. lia. }
  eapply wp_mono; [apply (take_scan_spec tag indices s live d HR HO)|].
  { intros i. apply indices_bound. }
  { exists i0. split; [|done]. apply indices_bound. by apply elem_of_slots in Hi0 as [? _]. }
  intros pv s' (l1 & i & l2 & El & H1 & Hi & E & Er & O'). exists i.
  destruct (Hp i pv Hi E) as [Hlive Hpa]. apply elem_of_slots in Hi as Hi'. destruct Hi' as [Hib _].
  assert (slots (reserved_pages (get_reserve s')) = slots (reserved_pages (get_reserve s)) ∖ {[i]}) as Es
    by (rewrite Er; by apply clear_slots).
  split_and!; try done.
  - intros j Hj. destruct (Z.lt_ge_cases j i) as [Hlt|]; [exfalso|lia]. apply (H1 j); [|done].
    apply elem_of_slots in Hj as [Hj _].
    assert (indices !! length l1 = Some i) as Hlk by (rewrite El; by apply list_lookup_middle).
    apply lookup_seqZ in Hlk as [Ei _]. assert (indices !! Z.to_nat j = Some j) as Hjk
      by (apply lookup_seqZ; unfold RESERVE_MALLOC_SIZE; lia).
    rewrite El, lookup_app_l in Hjk by lia. by eapply list_elem_of_lookup_2.
  - by rewrite Er.
  - split; rewrite Er; cbn [reserved_addr reserved_pages]; [by apply bitfield_clear_range|done|..]; rewrite clear_slots by done.
    + intros j pv' [Hj Hne]%elem_of_difference Hpv'. destruct (Hp j pv' Hj Hpv'). split; [|done].
      apply elem_of_difference. split; [done|]. rewrite elem_of_singleton. intros Eq. apply Hne.
      rewrite elem_of_singleton. by eapply Hd.
    + intros j j' pv1 pv2 [Hj _]%elem_of_difference [Hj' _]%elem_of_difference. by apply Hd.
Qed.

(** *** Filling *)

Context (need : nat) `{FL : !RefillLaws Own need}.

Definition fill_inv s live d : Prop :=
  reserve_ok (get_reserve s) live /\ Own s live d /\ (need + d <= avail (get_reserve s))%nat.

(** What filling one empty slot does *)
Lemma fill_slot_spec i s live d (k : M S bool) (Q : bool -> S -> Prop) :
  fill_inv s live d -> 0 <= i < 32 -> i ∉ slots (reserved_pages (get_reserve s)) ->
  (forall s' live' d', live ⊆ live' -> fill_inv s' live' d' ->
     (missing (get_reserve s') + d' < missing (get_reserve s) + d)%nat -> wp k Q s') ->
  wp (let* v := raw_kmalloc_page in
      put_addr i (pv_ptr_new (kva_to_kpa v) v) ;;
      env_memzero64 v PAGE_SIZE ;;
      let* w := get_pages in
      put_pages (bitfield_set_high 32 w i) ;; k) Q s.
Proof.
  intros (HR & HO & Hn) Hi Hni Hk. apply wp_bind. eapply wp_mono; [apply (rl_raw s live d HO HR); lia|].
  intros v s1 (Hv & HD & d1 & O1 & Hav). apply wp_bind.
  pose proof (drained_ok _ _ _ HR HD) as HR1. apply put_addr_wp; [by apply (ro_array _ _ HR1)|].
  set (s2 := set_reserve _ s1). assert (Own s2 ({[v]} ∪ live) d1) as O2 by by apply (rl_own (ReserveLaws := RL)).
  apply wp_bind. eapply wp_mono; [by apply (rl_zero v s2 _ _ O2)|]. intros _ s3 [E3 O3].
  unfold s2 in E3. rewrite (rl_get (ReserveLaws := RL)) in E3.
  apply wp_bind, wp_gets, wp_bind, put_pages_wp. rewrite E3. cbn [reserved_addr reserved_pages].
  set (s4 := set_reserve _ s3).
  assert (i ∉ slots (reserved_pages (get_reserve s1))) as Hni1 by (intros ?; apply Hni; by apply (dr_slots _ _ HD)).
  pose proof (put_page_ok _ _ i v HR1 Hi Hni1 Hv) as HR4.
  assert (get_reserve s4 = MkReserve (<[i := pv_ptr_new (kva_to_kpa v) v]> (reserved_addr (get_reserve s1)))
    (bitfield_set_high 32 (reserved_pages (get_reserve s1)) i)) as E4 by apply (rl_get (ReserveLaws := RL)).
  assert (avail (get_reserve s4) = Datatypes.S (avail (get_reserve s1))) as Ea.
  { rewrite E4. unfold avail. cbn [reserved_pages]. rewrite set_slots by (done || apply HR1).
    rewrite size_union, size_singleton by set_solver. done. }
  pose proof (avail_le (get_reserve s4)). pose proof (avail_le (get_reserve s)).
  apply (Hk s4 ({[v]} ∪ live) d1); [set_solver| |unfold missing; lia].
  split; [by rewrite E4|]. split; [by apply (rl_own (ReserveLaws := RL))|lia].
Qed.

Lemma fill_scan_spec l : forall s live d,
  fill_inv s live d -> (forall i, i ∈ l -> 0 <= i < 32) ->
  wp (fill_scan l) (fun e s' => exists live' d', live ⊆ live' /\ fill_inv s' live' d' /\
    (e = true -> is_full (reserved_pages (get_reserve s')) = true) /\
    (missing (get_reserve s') + d' <= missing (get_reserve s) + d)%nat /\
    ((exists i, i ∈ l /\ i ∉ slots (reserved_pages (get_reserve s))) ->
       (missing (get_reserve s') + d' < missing (get_reserve s) + d)%nat \/ e = true)) s.
Proof.
  induction l as [|i l IH]; intros s live d HI Hl; cbn [fill_scan].
  - apply wp_ret. exists live, d. split; [done|]. split; [done|]. split; [done|]. split; [lia|]. intros (i & Hi & _). set_solver.
  - apply wp_bind, wp_gets. destruct (is_full (reserved_pages (get_reserve s))) eqn:Ef.
    { apply wp_ret. exists live, d. split; [done|]. split; [done|]. split; [done|]. split; [lia|]. by right. }
    assert (0 <= i < 32) as Hi by (apply Hl; set_solver).
    assert (forall j, j ∈ l -> 0 <= j < 32) as Hl' by (intros; apply Hl; set_solver).
    destruct (bitfield_get (reserved_pages (get_reserve s)) i) eqn:Eb; rewrite bitfield_get_bit in Eb by lia.
    + eapply wp_mono; [by apply (IH s live d HI)|]. intros e s' (live' & d' & H1 & H2 & H3 & H4 & H5). exists live', d'.
      split; [done|]. split; [done|]. split; [done|]. split; [done|]. intros (j & Hj & Hn). apply H5. exists j. split; [|done].
      apply elem_of_cons in Hj as [->|]; [|done]. exfalso. apply Hn. by apply elem_of_slots.
    + apply (fill_slot_spec i s live d); [done|done|rewrite elem_of_slots, Eb; naive_solver|].
      intros s1 live1 d1 Hl1 HI1 Hlt. eapply wp_mono; [by apply (IH s1 live1 d1)|].
      intros e s' (live' & d' & H1 & H2 & H3 & H4 & _). exists live', d'.
      split; [by etrans|]. split; [done|]. split; [done|]. split; [lia|]. intros _. left. lia.
Qed.

Lemma not_full w : is_u32 w -> is_full w = false -> exists i, i ∈ indices /\ i ∉ slots w.
Proof.
  intros Hw Hf. destruct (set_choose_or_empty (all_slots ∖ slots w)) as [[i [H1 H2]%elem_of_difference]|E].
  - exists i. split; [|done]. by apply elem_of_list_to_set in H1.
  - exfalso. assert (is_full w = true); [|congruence]. apply full_slots; [done|]. pose proof (slots_subset w) as Hsub.
    apply set_eq. intros i. split; [apply Hsub|]. intros Hi. destruct (decide (i ∈ slots w)) as [|Hn]; [done|].
    assert (i ∈ all_slots ∖ slots w) as Hx by by apply elem_of_difference. rewrite E in Hx. by apply not_elem_of_empty in Hx.
Qed.

Lemma fill_loop_spec fuel : forall s live d,
  fill_inv s live d -> (missing (get_reserve s) + d < fuel)%nat ->
  wp (fill_loop fuel) (fun _ s' => exists live' d', live ⊆ live' /\ fill_inv s' live' d' /\
    is_full (reserved_pages (get_reserve s')) = true) s.
Proof.
  induction fuel as [|fuel IH]; intros s live d HI Hf; [lia|]. cbn [fill_loop]. apply wp_bind, wp_gets.
  destruct (is_full (reserved_pages (get_reserve s))) eqn:Ef; [apply wp_ret; by exists live, d|].
  apply wp_bind. eapply wp_mono; [apply (fill_scan_spec indices s live d HI)|].
  { intros i. apply indices_bound. }
  intros e s1 (live1 & d1 & Hl & HI1 & He & _ & Hlt). pose proof HI as ([Hw _ _ _] & _).
  specialize (Hlt (not_full _ Hw Ef)). destruct e; [apply wp_ret; exists live1, d1; auto|].
  destruct Hlt as [Hlt|]; [|done]. eapply wp_mono; [apply (IH s1 live1 d1 HI1); lia|].
  intros _ s2 (live2 & d2 & ? & ? & ?). exists live2, d2. split; [by etrans|]. done.
Qed.

(** ** Theorems *)

(** C16: [reserve_malloc] on a reserve that is not empty hands out the page of
    its lowest occupied slot and empties this slot and no other; the page is
    none of those that stay in the reserve, so no page is handed out twice,
    and the tag updates leave the reserve alone. *)
Theorem reserve_malloc_ok tag s live d
    (HR : reserve_ok (get_reserve s) live) (HO : Own s live d) (Hav : (0 < avail (get_reserve s))%nat) :
  wp (reserve_malloc tag) (fun pv s' => exists i, i ∈ slots (reserved_pages (get_reserve s)) /\
    (forall j, j ∈ slots (reserved_pages (get_reserve s)) -> i <= j) /\
    reserved_addr (get_reserve s) !! i = Some pv /\ va pv ∈ live /\ pa pv = kva_to_kpa (va pv) /\
    reserved_addr (get_reserve s') = reserved_addr (get_reserve s) /\
    slots (reserved_pages (get_reserve s')) = slots (reserved_pages (get_reserve s)) ∖ {[i]} /\
    reserve_ok (get_reserve s') (live ∖ {[va pv]}) /\ Own s' live d) s.
Proof. by apply reserve_malloc_spec. Qed.

(** [reserve_malloc] panics when the reserve is empty. *)
Theorem reserve_malloc_empty tag s (Hno : slots (reserved_pages (get_reserve s)) = ∅) :
  reserve_malloc tag s = Err EPanic.
Proof.
  unfold reserve_malloc. assert (forall i, i ∈ indices -> bitfield_get (reserved_pages (get_reserve s)) i = false) as Hb.
  { intros i Hi%indices_bound. rewrite bitfield_get_bit by lia. destruct (Z.testbit _ i) eqn:E; [|done].
    assert (i ∈ slots (reserved_pages (get_reserve s))) as Hs by by apply elem_of_slots. rewrite Hno in Hs. by apply not_elem_of_empty in Hs. }
  induction indices as [|i l IH]; [done|]. cbn [take_scan]. erewrite bind_ok; [|done].
  rewrite Hb by set_solver. apply IH. intros j Hj. apply Hb. set_solver.
Qed.

(** C15: [reserve_malloc_fill] ends with a full reserve of 32 distinct pages,
    although each [raw_kmalloc] it calls may itself take pages out of the
    reserve, slots it has already filled included: when at most [d] pages
    will be taken in all and the reserve holds these and what one call
    needs, as many rounds as slots are empty, and [d] more, are enough. *)
Theorem reserve_malloc_fill_ok s live d fuel
    (HR : reserve_ok (get_reserve s) live) (HO : Own s live d)
    (Hav : (need + d <= avail (get_reserve s))%nat) (Hf : (missing (get_reserve s) + d < fuel)%nat) :
  wp (reserve_malloc_fill fuel) (fun _ s' => exists live' d', live ⊆ live' /\ Own s' live' d' /\
    reserve_ok (get_reserve s') live' /\ is_full (reserved_pages (get_reserve s')) = true /\
    avail (get_reserve s') = 32%nat) s.
Proof.
  eapply wp_mono; [by apply (fill_loop_spec fuel s live d)|].
  intros _ s' (live' & d' & Hl & (HR' & HO' & _) & Hfull). exists live', d'. split_and!; try done.
  unfold avail. rewrite (proj1 (full_slots _ (ro_word _ _ HR')) Hfull). apply size_all_slots.
Qed.

End Laws.

(** ** Initialisation *)

(** [Early s live n]: early_kalloc has at least [n] more pages, apart from
    [live], all of them at the fixed offset. *)
Class EarlyPages {S} `{ReserveEnv S} (Early : S -> gset Z -> nat -> Prop) : Prop := {
  ep_get r (s : S) : get_reserve (set_reserve r s) = r;
  ep_set r (s : S) live n : Early s live n -> Early (set_reserve r s) live n;
  ep_page (s : S) live n : Early s live (Datatypes.S n) ->
    wp early_kalloc_page (fun pv s' => pa pv <> 0 /\ ptrs_are_kmapped pv = true /\ pa pv = kva_to_kpa (va pv) /\
      va pv ∉ live /\ get_reserve s' = get_reserve s /\ Early s' ({[va pv]} ∪ live) n) s
}.

Section Init.
Context {S : Type} `{Env : ReserveEnv S} (Early : S -> gset Z -> nat -> Prop) `{EP : !EarlyPages Early}.
Implicit Types (s : S).

Lemma slots_app_fresh l i l2 : indices = l ++ i :: l2 -> 0 <= i < 32 /\ i ∉ l.
Proof.
  intros E. pose proof (NoDup_seqZ 0 RESERVE_MALLOC_SIZE) as Hnd. fold indices in Hnd. rewrite E in Hnd.
  apply NoDup_app in Hnd as (_ & Hd & _). split; [apply indices_bound; rewrite E; set_solver|].
  intros Hi. apply (Hd i Hi). set_solver.
Qed.

(** [reserve_malloc_init] takes 32 pages from the early allocator, passes
    its own assertions and leaves a full reserve whose slots hold these
    pages, all distinct. *)
Theorem reserve_malloc_init_ok s live n
    (Harr : forall i, 0 <= i < 32 -> is_Some (reserved_addr (get_reserve s) !! i)) (HE : Early s live (32 + n)) :
  wp reserve_malloc_init (fun _ s' => exists live', live ⊆ live' /\ Early s' live' n /\
    reserve_ok (get_reserve s') live' /\ is_full (reserved_pages (get_reserve s')) = true) s.
Proof.
  unfold reserve_malloc_init. apply wp_bind, put_pages_wp, wp_bind. eapply wp_mono.
  { apply (wp_mfor _ _ (fun l s' => exists live' k, live ⊆ live' /\ Early s' live' (k + n) /\ (k + length l = 32)%nat /\
      reserve_ok (get_reserve s') live' /\ slots (reserved_pages (get_reserve s')) = list_to_set l)).
    - exists live, 32%nat. rewrite (ep_get (EarlyPages := EP)). assert (slots 0 = ∅) as E0 by (vm_compute; reflexivity).
      split; [done|]. split; [by apply (ep_set (EarlyPages := EP))|]. split; [done|]. split; [|done].
      split; cbn [reserved_addr reserved_pages]; [done|done|..]; rewrite E0; set_solver.
    - intros l i l2 s1 El (live1 & k & Hl & HE1 & Hk & HR & Hs). destruct (slots_app_fresh _ _ _ El) as [Hi Hni].
      assert (i ∉ slots (reserved_pages (get_reserve s1))) as Hns by (by rewrite Hs, elem_of_list_to_set).
      apply wp_bind, wp_gets, wp_bind, wp_ASSERT.
      { apply negb_true_iff. rewrite bitfield_get_bit by lia. destruct (Z.testbit _ i) eqn:Eb; [|done].
        exfalso. apply Hns. by apply elem_of_slots. }
      destruct k as [|k]; [exfalso; apply (f_equal length) in El; rewrite length_app in El; change (length indices) with 32%nat in El; cbn in El; lia|].
      apply wp_bind. eapply wp_mono; [by apply (ep_page s1 live1 (k + n))|].
      intros pv s2 (Hp0 & Hkm & Hpa & Hv & E2 & HE2). apply wp_bind, wp_ASSERT.
      { rewrite Hkm, andb_true_r. apply negb_true_iff. by apply Z.eqb_neq. }
      apply wp_bind, put_addr_wp; [rewrite E2; by apply (ro_array _ _ HR)|].
      apply wp_bind, wp_gets, put_pages_wp. rewrite !(ep_get (EarlyPages := EP)), E2. cbn [reserved_addr reserved_pages].
      exists ({[va pv]} ∪ live1), k. split; [set_solver|]. split; [by do 2 apply (ep_set (EarlyPages := EP))|].
      split; [rewrite length_app; cbn; lia|]. pose proof (put_page_ok _ _ i (va pv) HR Hi Hns Hv) as HR'.
      destruct pv as [p v]. cbn [pa va] in *. subst p. split; [exact HR'|].
      rewrite set_slots, Hs by (done || apply HR). rewrite list_to_set_app_L. set_solver. }
  cbn beta. intros _ s' (live' & k & Hl & HE' & Hk & HR & Hs). apply wp_bind, wp_gets.
  assert (is_full (reserved_pages (get_reserve s')) = true) as Hfull by (apply full_slots; [apply HR|done]).
  apply wp_ASSERT; [done|]. exists live'. split; [done|]. split; [|done]. assert (length indices = 32%nat) as El by (vm_compute; reflexivity).
  by replace n with (k + n)%nat by lia.
Qed.

End Init.

(** ** The reserve as the page source of vmalloc *)

(** the reserve on its own; [raw_kmalloc] takes what [debt] says and then
    hands out pages from a counter *)
Record bump_env : Type := MkBumpEnv {
  be_reserve : page_reserve;
  be_next : Z;
  be_debt : nat
}.

Definition take_one (w : Z) : Z :=
  match filter (fun i => bitfield_get w i = true) indices with
  | i :: _ => bitfield_clear 32 w i
  | [] => w
  end.

Definition bump_raw : M bump_env Z := fun s =>
  let r := be_reserve s in
  Ok (be_next s, match be_debt s with
    | O => MkBumpEnv r (be_next s + PAGE_SIZE) 0
    | S d => MkBumpEnv (MkReserve (reserved_addr r) (take_one (reserved_pages r))) (be_next s + PAGE_SIZE) d
    end).

Definition bump_early : M bump_env pv_ptr := fun s =>
  Ok (pv_ptr_new (kva_to_kpa (be_next s)) (be_next s), MkBumpEnv (be_reserve s) (be_next s + PAGE_SIZE) (be_debt s)).

#[export] Instance bump_reserve_env : ReserveEnv bump_env := {
  get_reserve := be_reserve;
  set_reserve r s := MkBumpEnv r (be_next s) (be_debt s);
  early_kalloc_page := bump_early;
  raw_kmalloc_page := bump_raw;
  env_vmalloc_update_tag _ _ := ret 0;
  env_page_update_tag _ _ := ret 0;
  env_memzero64 _ _ := ret tt
}.

Definition bump_own (s : bump_env) live (d : nat) : Prop := be_debt s = d /\ forall x, x ∈ live -> x < be_next s.

#[export] Instance bump_reserve_laws : ReserveLaws bump_own.
Proof. split; [done|done|..]; intros; apply wp_ret; by split. Qed.

Lemma take_one_slots w : is_u32 w -> slots w <> ∅ ->
  is_u32 (take_one w) /\ slots (take_one w) ⊆ slots w /\ size (slots w) = S (size (slots (take_one w))).
Proof.
  intros Hw Hne. unfold take_one. destruct (filter _ indices) as [|i l] eqn:E.
  { exfalso. apply Hne. unfold slots. by rewrite E. }
  assert (i ∈ slots w) as Hi by (unfold slots; rewrite E, elem_of_list_to_set; set_solver).
  apply elem_of_slots in Hi as Hi'. destruct Hi' as [Hb _]. rewrite clear_slots by done.
  split; [by apply bitfield_clear_range|]. split; [apply subseteq_difference_l; done|].
  rewrite size_difference, size_singleton by (by apply singleton_subseteq_l).
  assert (0 < size (slots w))%nat; [|lia]. apply Nat.neq_0_lt_0. intros E0%size_empty_inv. set_solver.
Qed.

#[export] Instance bump_refill_laws : RefillLaws bump_own 1.
Proof.
  split. intros s live d [Hd Hl] HR Hav. unfold wp. cbn. split; [intros Hin; specialize (Hl _ Hin); lia|].
  assert (forall x, x ∈ ({[be_next s]} ∪ live : gset Z) -> x < be_next s + PAGE_SIZE) as Hx.
  { intros x [->%elem_of_singleton|H%Hl]%elem_of_union; unfold PAGE_SIZE; lia. }
  destruct (be_debt s) as [|d0]; cbn.
  - split; [by split; [|apply HR|]|]. exists O. split; [by split|lia].
  - destruct (take_one_slots (reserved_pages (be_reserve s))) as (H1 & H2 & H3); [apply HR| |].
    { intros E. unfold avail in Hav. cbn in Hav. rewrite E, size_empty in Hav. lia. }
    split; [by split|]. exists d0. split; [by split|]. unfold avail. cbn [reserved_pages]. lia.
Qed.

(** What vmalloc asks of its page source; a page that vmalloc gives back goes
    to the page allocator and not into the reserve. *)
Definition reserve_page (s : bump_env) : res (Z * bump_env) :=
  match reserve_malloc 0 s with Ok (pv, s') => Ok (va pv, s') | Err e => Err e end.
Definition leave_page (v : Z) (s : bump_env) : res bump_env := Ok s.

(** The interface [PageSource], which the theorems on vmalloc assume, holds
    of the reserve as long as pages are left in it. *)
#[export] Instance reserve_source : PageSource reserve_page leave_page
  (fun s live n => (n <= avail (be_reserve s))%nat /\ exists own, reserve_ok (be_reserve s) own /\ own ## live /\
     (forall x, x ∈ own -> page_ok x) /\ forall x, x ∈ own -> x < be_next s).
Proof.
  split.
  - intros s live n (Hn & own & HR & Hdj & Hp & Hlt).
    destruct (wp_returns _ _ _ (reserve_malloc_spec (Env := bump_reserve_env) bump_own 0 s own (be_debt s) HR (conj eq_refl Hlt) ltac:(cbn; lia)))
      as (pv & s' & E & i & Hi & _ & _ & Hv & _ & _ & Es & HR' & HO').
    exists (va pv), s'. unfold reserve_page. rewrite E. split; [done|]. split; [set_solver|]. split; [by apply Hp|].
    cbn in Es. split.
    + unfold avail in *. rewrite Es, size_difference, size_singleton by (by apply singleton_subseteq_l). lia.
    + exists (own ∖ {[va pv]}). split; [done|]. split; [set_solver|]. split; [intros x Hx; apply Hp; set_solver|].
      intros x Hx. apply HO'. set_solver.
  - intros s live n v (Hn & own & HR & Hdj & Hp & Hlt) _. exists s. split; [done|]. split; [done|]. exists own. split_and!; try done. set_solver.
  - intros s live n (Hn & Hown). split; [lia|done].
Qed.

(** ** Witnesses *)

Definition kpage (i : Z) : Z := kpa_to_kva (i * PAGE_SIZE).

(** A reserve with the slots of [w], in slot [i] the page [kpage i]. *)
Definition some_reserve (w : Z) : page_reserve :=
  MkReserve (array 32 (fun i => pv_ptr_new (kva_to_kpa (kpage i)) (kpage i))) w.
Definition some_env (w : Z) (d : nat) : bump_env := MkBumpEnv (some_reserve w) (kpage 64) d.

Definition first_pages : gset Z := list_to_set (kpage <$> indices).

Lemma some_reserve_ok w : is_u32 w -> reserve_ok (some_reserve w) first_pages.
Proof.
  intros Hw. assert (forall i, 0 <= i < 32 -> kpage i = i * PAGE_SIZE + KERNEL_BASE) as Hk.
  { intros i Hi. unfold kpage. apply kpa_to_kva_add. unfold u_range, PAGE_SIZE. lia. }
  assert (forall i pv, reserved_addr (some_reserve w) !! i = Some pv -> 0 <= i < 32 /\ pv = pv_ptr_new (kva_to_kpa (kpage i)) (kpage i)) as Ha.
  { intros i pv. cbn [some_reserve reserved_addr]. rewrite array_lookup. case_decide; [|done]. by intros [= <-]. }
  split; [done|..].
  - intros i Hi. cbn [some_reserve reserved_addr]. rewrite array_lookup, decide_True by done. eauto.
  - intros i pv _ [Hi ->]%Ha. split; [|done]. unfold first_pages. rewrite elem_of_list_to_set.
    change (kpage i ∈ kpage <$> indices). apply list_elem_of_fmap_2. by apply indices_bound.
  - intros i j pv pv' _ _ [Hi ->]%Ha [Hj ->]%Ha. cbn [pv_ptr_new va]. rewrite !Hk by done. unfold PAGE_SIZE. lia.
Qed.

Lemma some_env_own w d : bump_own (some_env w d) first_pages d.
Proof.
  split; [done|]. intros x Hx. apply elem_of_list_to_set, list_elem_of_fmap in Hx as (i & -> & Hi%indices_bound).
  unfold kpage, some_env. cbn [be_next]. unfold kpage. rewrite !kpa_to_kva_add by (unfold u_range, PAGE_SIZE; lia). unfold PAGE_SIZE. lia.
Qed.

Lemma reserve_malloc_ok_witness :
  exists pv s', reserve_malloc 5 (some_env 0xF0 0) = Ok (pv, s') /\ va pv ∈ first_pages.
Proof.
  destruct (wp_returns _ _ _ (reserve_malloc_ok (Env := bump_reserve_env) bump_own 5 (some_env 0xF0 0) first_pages 0
    (some_reserve_ok 0xF0 ltac:(unfold u_range; lia)) (some_env_own 0xF0 0) ltac:(vm_compute; lia)))
    as (pv & s' & E & i & _ & _ & _ & Hv & _).
  exists pv, s'. split; [exact E|exact Hv].
Defined.

Lemma reserve_malloc_fill_ok_witness :
  exists u s', reserve_malloc_fill 40 (some_env 0xF0 3) = Ok (u, s') /\ avail (be_reserve s') = 32%nat.
Proof.
  destruct (wp_returns _ _ _ (reserve_malloc_fill_ok (Env := bump_reserve_env) bump_own 1 (some_env 0xF0 3) first_pages 3 40
    (some_reserve_ok 0xF0 ltac:(unfold u_range; lia)) (some_env_own 0xF0 3) ltac:(vm_compute; lia) ltac:(vm_compute; lia)))
    as (u & s' & E & live' & d' & _ & _ & _ & _ & Hav).
  exists u, s'. split; [exact E|exact Hav].
Defined.

Definition bump_early_inv (s : bump_env) live (n : nat) : Prop :=
  (forall x, x ∈ live -> x < be_next s) /\
  exists p, be_next s = kpa_to_kva p /\ 0 < p /\ p + Z.of_nat n * PAGE_SIZE <= 2 ^ 46.

#[export] Instance bump_early_pages : EarlyPages bump_early_inv.
Proof.
  split; [done|done|]. intros s live n (Hl & p & Ep & Hp & Hb). unfold PAGE_SIZE in *.
  assert (u_range 47 p /\ u_range 47 (p + 4096)) as [R1 R2] by (unfold u_range; lia).
  destruct (kva_roundtrip p R1) as (H1 & _ & _ & _ & H5). unfold wp. cbn. rewrite Ep, H1.
  split; [lia|]. split; [done|]. split; [done|]. split; [intros Hin; specialize (Hl _ Hin); lia|]. split; [done|].
  rewrite kpa_to_kva_add in * by done. split; cbn.
  - intros x [->%elem_of_singleton|Hx%Hl]%elem_of_union; unfold PAGE_SIZE; lia.
  - exists (p + 4096). rewrite kpa_to_kva_add by done. unfold PAGE_SIZE. lia.
Qed.

Lemma reserve_malloc_init_ok_witness :
  exists u s', reserve_malloc_init (some_env 7 0) = Ok (u, s') /\ is_full (reserved_pages (be_reserve s')) = true.
Proof.
  assert (bump_early_inv (some_env 7 0) ∅ (32 + 10)) as HE.
  { split; [set_solver|]. exists (64 * PAGE_SIZE). split; [reflexivity|]. unfold PAGE_SIZE. lia. }
  destruct (wp_returns _ _ _ (reserve_malloc_init_ok (Env := bump_reserve_env) bump_early_inv (some_env 7 0) ∅ 10
    (ro_array _ _ (some_reserve_ok 7 ltac:(unfold u_range; lia))) HE)) as (u & s' & E & live' & _ & _ & _ & Hf).
  exists u, s'. split; [exact E|exact Hf].
Defined.
