(* ===== verification/RawKmalloc.v ===== *)
(** * RawKmalloc: whole pages of kernel memory

    src/kernel/mm/malloc/raw_kmalloc/raw_kmalloc.c, where the page allocator,
    vmalloc and the MMU meet: [raw_kmalloc] takes physical blocks, reserves a
    range of kernel addresses and maps one to the other, at the fixed offset
    (KMAP) or anywhere (DYNAMIC); [raw_kfree] undoes it.  The state is the
    three components and the page reserve side by side.  An allocation ends
    with [reserve_malloc_fill] of Reserve.v, which replaces the missing pages
    of the reserve by pages that [raw_kmalloc] allocates at the fixed offset;
    [kmem_env] ties that knot.  The pages that vmalloc and the MMU take for
    themselves come from page sources of their own, so the reserve here
    starts with any number of pages missing and is not drained meanwhile
    (ReserveCorrect.v proves the refill with pages drained). *)

From Stdlib Require Import ZArith Lia.
From stdpp Require Import base tactics numbers gmap list.
From S2P Require Import Prelude KMath PageAllocator VmContainers Vmalloc MmuDc Mmu Reserve.

Open Scope Z_scope.
Open Scope kmonad_scope.

(** ** Configurations *)

Record raw_kmalloc_cfg : Type := MkRawCfg {
  rk_assign_pa : bool;
  rk_fill_reserve : bool;
  rk_kmap : bool;
  rk_device_mem : bool;
  rk_permanent : bool;
  rk_init_zeroed : bool
}.

Definition KMAP_CFG : raw_kmalloc_cfg := MkRawCfg true true true false false false.
Definition DYNAMIC_CFG : raw_kmalloc_cfg := MkRawCfg true true false false false false.

Definition STD_MMU_KMEM_CFG : mmu_pg_cfg :=
  mmu_pg_cfg_new 0 MMU_AP_EL0_NONE_EL1_RW MMU_SH_INNER_SHAREABLE false true false true 0.
Definition STD_MMU_DEVICE_CFG : mmu_pg_cfg :=
  mmu_pg_cfg_new 1 MMU_AP_EL0_NONE_EL1_RW MMU_SH_NON_SHAREABLE false true true true 0.

Definition mmu_cfg_of (cfg : raw_kmalloc_cfg) : mmu_pg_cfg :=
  if rk_device_mem cfg then STD_MMU_DEVICE_CFG else STD_MMU_KMEM_CFG.

Definition vmalloc_cfg_from_raw_kmalloc_cfg (cfg : raw_kmalloc_cfg) (kmap_pa : Z) : vmalloc_cfg :=
  Vmalloc.MkCfg (rk_kmap cfg) (if rk_kmap cfg then kmap_pa else 0) (rk_assign_pa cfg)
    (rk_device_mem cfg) (rk_permanent cfg).

(** The out parameter [info] *)
Inductive raw_kmalloc_info : Type :=
  | RAW_KMALLOC_KMAP (cfg : mmu_pg_cfg) (pv : pv_ptr) (order : Z)
  | RAW_KMALLOC_DYNAMIC (cfg : mmu_pg_cfg) (vtoken : Z).

Section RawKmalloc.
(** [A]: the page source of vmalloc; [D]: that of the translation tables *)
Context {A D : Type}.
Context (reserve_malloc : A -> res (Z * A)) (container_kfree : Z -> A -> res A).
Context (MM_MMU_KERNEL_MAPPING : mmu_mapping D).

Record kmem : Type := MkKmem {
  km_pages : pa_state;
  km_vm : vm_state (A := A);
  km_mmu : mmu_state D;
  km_reserve : page_reserve;
  km_zeroed : list (Z * Z)    (* the ranges given to memzero64, last first *)
}.

Abbreviation KM := (M kmem).

Definition on_pages {X} (c : M pa_state X) : KM X := fun s =>
  match c (km_pages s) with
  | Ok (x, p) => Ok (x, MkKmem p (km_vm s) (km_mmu s) (km_reserve s) (km_zeroed s))
  | Err e => Err e
  end.

Definition on_vm {X} (c : M vm_state X) : KM X := fun s =>
  match c (km_vm s) with
  | Ok (x, v) => Ok (x, MkKmem (km_pages s) v (km_mmu s) (km_reserve s) (km_zeroed s))
  | Err e => Err e
  end.

Definition on_mmu {X} (c : M (mmu_state D) X) : KM X := fun s =>
  match c (km_mmu s) with
  | Ok (x, t) => Ok (x, MkKmem (km_pages s) (km_vm s) t (km_reserve s) (km_zeroed s))
  | Err e => Err e
  end.

Definition memzero64 (va bytes : Z) : KM unit :=
  modify (fun s => MkKmem (km_pages s) (km_vm s) (km_mmu s) (km_reserve s) ((va, bytes) :: km_zeroed s)).

Definition is_map_ok (r : mmu_map_result) : bool :=
  match r with MMU_MAP_OK => true | _ => false end.
Definition is_unmap_ok (r : mmu_unmap_result) : bool :=
  match r with MMU_UNMAP_OK => true | MMU_UNMAP_ERR => false end.

(** ** Allocation *)

Definition raw_kmalloc_kmap (pages tag : Z) (cfg : raw_kmalloc_cfg) : KM (Z * raw_kmalloc_info) :=
  ASSERT (is_pow2 pages) ;;
  let o := log2_floor_u64 pages in
  let* pa := on_pages (page_malloc o (mm_page_data_new tag (rk_device_mem cfg) (rk_permanent cfg))) in
  let* v := on_vm (vmalloc reserve_malloc container_kfree pages tag
                     (vmalloc_cfg_from_raw_kmalloc_cfg cfg pa)) in
  let va := fst v in
  let* r := on_mmu (mmu_map (Some MM_MMU_KERNEL_MAPPING) va pa (wrap64 (pages * PAGE_SIZE))
                      (mmu_cfg_of cfg)) in
  ASSERT (is_map_ok r) ;;
  ret (va, RAW_KMALLOC_KMAP (mmu_cfg_of cfg) (pv_ptr_new pa va) o).

(** [while (rem > 0)]: a block for each bit of [rem], from the top *)
Fixpoint dynamic_loop (fuel : nat) (tag : Z) (cfg : raw_kmalloc_cfg) (vtoken va rem : Z) : KM unit :=
  match fuel with
  | O => nofuel
  | S fuel =>
      if 0 <? rem then
        let o := log2_floor_u64 rem in
        let order_bytes := wrap64 (power_of2 o * PAGE_SIZE) in
        let* pa := on_pages (page_malloc o (mm_page_data_new tag (rk_device_mem cfg) (rk_permanent cfg))) in
        on_vm (vmalloc_push_pa reserve_malloc vtoken o pa va) ;;
        let* r := on_mmu (mmu_map (Some MM_MMU_KERNEL_MAPPING) va pa order_bytes (mmu_cfg_of cfg)) in
        ASSERT (is_map_ok r) ;;
        dynamic_loop fuel tag cfg vtoken (wrap64 (va + order_bytes)) (wrap64 (rem - power_of2 o))
      else ret tt
  end.

Definition raw_kmalloc_dynamic (pages tag : Z) (cfg : raw_kmalloc_cfg) : KM (Z * raw_kmalloc_info) :=
  ASSERT (rk_assign_pa cfg) ;;
  let* v := on_vm (vmalloc reserve_malloc container_kfree pages tag
                     (vmalloc_cfg_from_raw_kmalloc_cfg cfg 0)) in
  let (start, vtoken) := v : Z * Z in
  dynamic_loop 65 tag cfg vtoken start pages ;;
  ret (start, RAW_KMALLOC_DYNAMIC (mmu_cfg_of cfg) vtoken).

(** The body of [raw_kmalloc]; [cfg] is [None] for a null pointer. *)
Definition raw_kmalloc_with (reserve_malloc_fill : KM unit) (pages tag : Z) (cfg : option raw_kmalloc_cfg) :
    KM (Z * raw_kmalloc_info) :=
  let cfg := default DYNAMIC_CFG cfg in
  ASSERT (rk_assign_pa cfg) ;;
  let* r := (if rk_kmap cfg then raw_kmalloc_kmap pages tag cfg
             else raw_kmalloc_dynamic pages tag cfg) in
  (if rk_fill_reserve cfg then reserve_malloc_fill else ret tt) ;;
  (if rk_init_zeroed cfg then memzero64 (fst r) (wrap64 (pages * PAGE_SIZE)) else ret tt) ;;
  ret r.

(** *** The refill *)

(** The address of the string literal *)
Context (RESERVE_MALLOC_TAG : Z).

(** [*RAW_KMALLOC_KMAP_CFG] with [fill_reserve = false] *)
Definition RESERVE_CFG : raw_kmalloc_cfg :=
  MkRawCfg true false true (rk_device_mem KMAP_CFG) (rk_permanent KMAP_CFG) (rk_init_zeroed KMAP_CFG).

(** Without [fill_reserve] the refill is not called, whatever it is. *)
Definition refill_page : KM Z :=
  let* r := raw_kmalloc_with (ret tt) 1 RESERVE_MALLOC_TAG (Some RESERVE_CFG) in ret (fst r).

(** What reserve_malloc.c calls; the early allocator has ended, so that
    [early_kalloc] panics. *)
Definition kmem_env : ReserveEnv kmem := {|
  get_reserve := km_reserve;
  set_reserve r s := MkKmem (km_pages s) (km_vm s) (km_mmu s) r (km_zeroed s);
  early_kalloc_page := panic;
  raw_kmalloc_page := refill_page;
  env_vmalloc_update_tag v t := on_vm (vmalloc_update_tag v t);
  env_page_update_tag p t := on_pages (page_allocator_update_tag p t);
  env_memzero64 := memzero64
|}.

(** 32 empty slots are filled in one round; the second one finds it full. *)
Definition kmem_fill : KM unit := Reserve.reserve_malloc_fill (Env := kmem_env) 33.

Definition raw_kmalloc : Z -> Z -> option raw_kmalloc_cfg -> KM (Z * raw_kmalloc_info) := raw_kmalloc_with kmem_fill.

(** ** Release *)

Definition raw_kfree (ptr : Z) : KM unit :=
  let* vtoken := on_vm (vmalloc_get_token ptr) in
  let* vinfo := on_vm (vmalloc_token_vmalloc_get_mdt vtoken) in
  if vi_kmapped vinfo then
    let* f := on_vm (vmalloc_token_vfree reserve_malloc container_kfree vtoken) in
    let bytes := fst f in
    on_pages (page_free (kva_to_kpa ptr)) ;;
    if vi_pa_assigned vinfo then
      let* r := on_mmu (mmu_unmap (Some MM_MMU_KERNEL_MAPPING) ptr bytes) in
      ASSERT (is_unmap_ok r)
    else ret tt
  else
    let* n := on_vm (vmalloc_get_pa_count vtoken) in
    let* pages := on_vm (vmalloc_get_pa_info vtoken n) in
    ASSERT (fst pages) ;;
    on_pages (mfor (seqZ 0 n) (fun i =>
      let* p := deref (snd pages !! Z.to_nat i) in page_free (pi_pa p))) ;;
    let* f := on_vm (vmalloc_token_vfree reserve_malloc container_kfree vtoken) in
    let* r := on_mmu (mmu_unmap (Some MM_MMU_KERNEL_MAPPING) ptr (fst f)) in
    ASSERT (is_unmap_ok r).

End RawKmalloc.
Arguments kmem : clear implicits.
