(* ===== verification/RawKmallocSpec.v ===== *)
(** * RawKmallocSpec: the three allocators together

    The invariant of the composed state ([kmem_ok]): each component's own
    invariant, and that the alias of every free page is free in vmalloc, so
    that a page the page allocator hands out can always be reserved at the
    fixed offset.  The file proves what one allocation and one release of
    each kind do to all three components. *)

From Stdlib Require Import ZArith Lia.
From stdpp Require Import base tactics numbers gmap list.
From S2P Require Import Prelude KMath PageAllocator BuddyTiling PageAllocatorRep PageAllocatorSpec.
From S2P Require Import VmContainers VmContainersSpec Vmalloc VmLists VmallocSpec VmallocReserved VmallocBlocks VmallocInv VmallocOps VmallocBoot.
From S2P Require Import MmuDc Mmu MmuReach MmuSpec MmuUnmap RawKmalloc.

Open Scope Z_scope.
Open Scope kmonad_scope.

(** ** Ranges of kernel addresses *)

(** MM_MMU_KERNEL_MAPPING, as [mm_mmu_mapping_new] makes it *)
Record kernel_mapping {D} (m : mmu_mapping D) : Prop := {
  kernel_g : g_ m = MMU_GRANULARITY_4KB;
  kernel_bits : va_addr_bits_ m = 48;
  kernel_rng : rng_ m = MMU_HI
}.

(** The canonical form of the [u]-th address of the upper half of a 48-bit
    space *)
Definition upper (u : Z) : Z := u + (2 ^ 64 - 2 ^ 48).

Lemma upper_sext u : 2 ^ 47 <= u < 2 ^ 48 -> sext u 48 = upper u.
Proof. apply sext_upper. Qed.

Lemma kva_upper p : 0 <= p < 2 ^ 47 -> kpa_to_kva p = upper (p + 2 ^ 47).
Proof. intros Hp. rewrite kpa_to_kva_sext by done. apply upper_sext. lia. Qed.

Section Range.
Context {D : Type} (m : mmu_mapping D) (Hm : kernel_mapping m).

(** From [t] to [t'] the [size] bytes from [upper u] on have come to
    translate as [f] says; every other kernel address translates as before. *)
Record kmaps (t t' : mmu_state D) (u size : Z) (f : Z -> mmu_walk_result) : Prop := {
  kp_wf : wf m (tables t');
  kp_in x : upper u <= x < upper u + size -> outcome m (tables t') x (f x);
  kp_out x r : upper 0 <= x < 2 ^ 64 -> ~ (upper u <= x < upper u + size) ->
    outcome m (tables t) x r -> outcome m (tables t') x r
}.

Lemma kmaps_nil t u f : wf m (tables t) -> kmaps t t u 0 f.
Proof. intros W. split; [done|lia|done]. Qed.

Lemma kmaps_app t t1 t2 u c size f :
  0 <= c <= size -> upper 0 <= upper u -> upper u + size <= 2 ^ 64 ->
  kmaps t t1 u c f -> kmaps t1 t2 (u + c) (size - c) f -> kmaps t t2 u size f.
Proof.
  unfold upper. intros Hc Hu He [_ I1 O1] [W2 I2 O2]. unfold upper in *. split; [done| |].
  - intros x Hx. unfold upper in Hx. destruct (Z.lt_ge_cases x (u + (2 ^ 64 - 2 ^ 48) + c)).
    + apply O2; [lia|lia|]. apply I1. lia.
    + apply I2. lia.
  - intros x r Hx Hn Ho. unfold upper in *. apply O2; [done|lia|]. apply O1; [done|lia|done].
Qed.

Lemma kmaps_ext t t' u size f f' :
  (forall x, upper u <= x < upper u + size -> f x = f' x) -> kmaps t t' u size f -> kmaps t t' u size f'.
Proof. intros E [W I O]. split; [done| |done]. intros x Hx. rewrite <- E by done. by apply I. Qed.

(** Read off the walks. *)
Lemma kmaps_walks t t' u size f : wf m (tables t) -> kmaps t t' u size f ->
  (forall x, upper u <= x < upper u + size -> mmu_walk_page (Some m) x t' = Ok (f x, t')) /\
  (forall x, upper 0 <= x < 2 ^ 64 -> ~ (upper u <= x < upper u + size) ->
     exists r, mmu_walk_page (Some m) x t = Ok (r, t) /\ mmu_walk_page (Some m) x t' = Ok (r, t')).
Proof.
  intros W [W' I O]. split.
  - intros x Hx. apply walk_outcome; [done|by apply I].
  - intros x Hx Hn. destruct (outcome_total m (tables t) x W) as [r Hr]. exists r.
    split; [by apply walk_outcome|]. apply walk_outcome; [done|by apply O].
Qed.

Lemma kernel_granule : g_bytes (g_ m) = PAGE_SIZE.
Proof. by rewrite (kernel_g m Hm). Qed.

Lemma kernel_tbits : tbits (g_ m) = 48.
Proof. by rewrite (kernel_g m Hm). Qed.

(** Every kernel address is in the same translation window. *)
Lemma kernel_window u : 0 <= u < 2 ^ 48 -> upper u / 2 ^ tbits (g_ m) = 2 ^ 16 - 1.
Proof. intros Hu. rewrite kernel_tbits. symmetry. apply Z.div_unique_pos with u; unfold upper; lia. Qed.

Lemma kernel_in_range u size :
  2 ^ 47 <= u -> u + size <= 2 ^ 48 -> 0 < size -> is_in_range m (upper u) size = true.
Proof.
  intros Hu He Hs. unfold upper. set (va := u + (2 ^ 64 - 2 ^ 48)).
  assert (forall x, 2 ^ 47 <= x - (2 ^ 64 - 2 ^ 48) < 2 ^ 48 ->
    (Z.land (Z.shiftr x (48 - 1)) 1 =? 0 = false) /\
    Z.land x (not64 (wrap64 (Z.shiftl 1 48 - 1))) = not64 (wrap64 (Z.shiftl 1 48 - 1)) /\
    (Z.land x (wrap64 (Z.shiftl 1 (48 - 1))) =? 0 = false)) as Hx.
  { intros x Hx. rewrite (canon_upper x 48) by (unfold u_range; lia).
    replace (x / 2 ^ 48) with (2 ^ 16 - 1) by (apply Z.div_unique_pos with (x - (2 ^ 64 - 2 ^ 48)); lia).
    assert (Z.testbit x 47 = true) as Hb.
    { replace x with ((2 ^ 17 - 1) * 2 ^ 47 + (x - (2 ^ 17 - 1) * 2 ^ 47)) by lia.
      rewrite Z.testbit_true by lia.
      replace (_ / 2 ^ 47) with (2 ^ 17 - 1) by (apply Z.div_unique_pos with (x - (2 ^ 17 - 1) * 2 ^ 47); lia). done. }
    split_and!; [|done|].
    - apply Z.eqb_neq. intros E. apply (f_equal (fun z => Z.testbit z 0)) in E.
      rewrite Z.land_spec, Z.shiftr_spec in E by lia. cbn [Z.add] in E. change (0 + (48 - 1)) with 47 in E. rewrite Hb in E. done.
    - apply Z.eqb_neq. intros E. apply (f_equal (fun z => Z.testbit z 47)) in E.
      rewrite Z.land_spec, Hb in E. done. }
  unfold is_in_range. destruct (Z.eqb_spec size 0); [lia|]. rewrite (kernel_bits m Hm), (kernel_rng m Hm).
  rewrite (wrap_small 64 (va + size - 1)) by (unfold u_range, va; lia).
  destruct (Hx va) as (-> & -> & ->); [unfold va; lia|].
  destruct (Hx (va + size - 1)) as (-> & -> & ->); [unfold va; lia|].
  rewrite Z.eqb_refl. cbn [negb]. destruct (Z.ltb_spec (va + size - 1) va); [lia|]. done.
Qed.

(** A range of less than 2 MiB holds no range of a table. *)
Lemma small_no_tables T win lo hi : hi - lo < 2 ^ 21 -> no_tables_inside m T win lo hi.
Proof.
  intros Hs va n t Hn _ _. rewrite (kernel_g m Hm) in *. cbv zeta.
  assert (2 ^ 21 <= 2 ^ sh MMU_GRANULARITY_4KB (Z.of_nat n)) as Hc.
  { apply Z.pow_le_mono_r; [lia|]. change (Z.of_nat n < 3) in Hn.
    change (21 <= 12 + 9 * (3 - Z.of_nat n)). lia. }
  lia.
Qed.

Lemma mapped_kmaps t t' u size f :
  0 <= u -> u + size <= 2 ^ 48 -> 0 < size -> mapped m t t' (upper u) size f -> kmaps t t' u size f.
Proof.
  intros Hu He Hs [W I O]. assert (forall x, upper 0 <= x < 2 ^ 64 -> x / 2 ^ tbits (g_ m) = upper u / 2 ^ tbits (g_ m)) as Hw.
  { intros x Hx. replace x with (upper (x - upper 0)) by (unfold upper; lia). rewrite !kernel_window by (unfold upper in *; lia). done. }
  split; [done| |].
  - intros x Hx. apply I; [apply Hw; unfold upper in *; lia|done].
  - intros x r Hx. by apply O, Hw.
Qed.

Context (DInv : D -> gset Z -> nat -> Prop) `{TA : !TableAllocator m DInv}.

Lemma map_kernel_spec (s : mmu_state D) u p size cfg k :
  wf m (tables s) -> DInv (ast s) (dom (tables s)) k -> (3 * Z.to_nat (size / PAGE_SIZE) <= k)%nat ->
  cfg_ok cfg -> 2 ^ 47 <= u -> u + size <= 2 ^ 48 -> 0 < size < 2 ^ 21 ->
  (PAGE_SIZE | u) -> (PAGE_SIZE | p) -> (PAGE_SIZE | size) -> 0 <= p /\ p + size <= 2 ^ 48 ->
  wp (mmu_map (Some m) (upper u) p size cfg) (fun r s' => r = MMU_MAP_OK /\
    kmaps s s' u size (image (upper u) p cfg) /\
    exists k', (k <= 3 * Z.to_nat (size / PAGE_SIZE) + k')%nat /\ DInv (ast s') (dom (tables s')) k') s.
Proof.
  intros W HI Hk Hcfg Hu He Hs Hdu Hdp Hds Hp. rewrite <- kernel_granule in *.
  eapply wp_mono; [apply (mmu_map_spec m DInv s _ p size cfg k); try done|].
  - unfold u_range, upper. lia.
  - unfold u_range. lia.
  - rewrite (kernel_bits m Hm). lia.
  - by rewrite (kernel_bits m Hm), kernel_tbits.
  - by apply kernel_in_range; lia.
  - rewrite kernel_granule in *. split_and!; (apply Z.mod_divide; [done|]); try done.
    apply Z.divide_add_r; [done|]. by exists (2 ^ 52 - 2 ^ 36).
  - apply small_no_tables. lia.
  - intros r s' (-> & HM & _ & HI'). split; [done|]. split; [|done]. apply mapped_kmaps; try done; lia.
Qed.

Lemma unmap_kernel_spec (s : mmu_state D) u size k :
  wf m (tables s) -> DInv (ast s) (dom (tables s)) k -> (3 * Z.to_nat (size / PAGE_SIZE) <= k)%nat ->
  2 ^ 47 <= u -> u + size <= 2 ^ 48 -> 0 < size < 2 ^ 21 -> (PAGE_SIZE | u) -> (PAGE_SIZE | size) ->
  (forall x, upper u <= x < upper u + size -> is_mapped m (tables s) x) ->
  wp (mmu_unmap (Some m) (upper u) size) (fun r s' => r = MMU_UNMAP_OK /\
    kmaps s s' u size gone /\
    exists k', (k <= 3 * Z.to_nat (size / PAGE_SIZE) + k')%nat /\ DInv (ast s') (dom (tables s')) k') s.
Proof.
  intros W HI Hk Hu He Hs Hdu Hds Hmp. rewrite <- kernel_granule in *.
  eapply wp_mono; [apply (mmu_unmap_spec m DInv s _ size k); try done; try lia|].
  - unfold upper. lia.
  - rewrite kernel_granule in *. split; (apply Z.mod_divide; [done|]); [done|].
    apply Z.divide_add_r; [done|]. by exists (2 ^ 52 - 2 ^ 36).
  - replace (upper u + size - 1) with (upper (u + size - 1)) by (unfold upper; lia).
    by rewrite !kernel_window by lia.
  - apply small_no_tables. lia.
  - intros r s' (-> & HM & HI'). split; [done|]. split; [|done]. apply mapped_kmaps; try done; lia.
Qed.

End Range.

(** ** The composed state *)

Section Kmem.
Context {A D : Type} (reserve_malloc : A -> res (Z * A)) (container_kfree : Z -> A -> res A).
Context (Inv : A -> gset Z -> nat -> Prop) `{PS : !PageSource reserve_malloc container_kfree Inv}.
Context (m : mmu_mapping D) (Hm : kernel_mapping m).
Context (DInv : D -> gset Z -> nat -> Prop) `{TA : !TableAllocator m DInv}.
Implicit Types (s : kmem A D) (B : blocks) (T O : list (Z * area)).

Abbreviation rlist := (list (Z * (area * vmalloc_mdt))).
Abbreviation chains := (Z -> list (Z * vmalloc_pa_info)).

Lemma wp_on_pages {X} (c : M pa_state X) (Q : X -> kmem A D -> Prop) s :
  wp c (fun x p => Q x (MkKmem p (km_vm s) (km_mmu s) (km_reserve s) (km_zeroed s))) (km_pages s) -> wp (on_pages c) Q s.
Proof. unfold wp, on_pages. by destruct (c (km_pages s)) as [[x p]|]. Qed.

Lemma wp_on_vm {X} (c : M vm_state X) (Q : X -> kmem A D -> Prop) s :
  wp c (fun x v => Q x (MkKmem (km_pages s) v (km_mmu s) (km_reserve s) (km_zeroed s))) (km_vm s) -> wp (on_vm c) Q s.
Proof. unfold wp, on_vm. by destruct (c (km_vm s)) as [[x p]|]. Qed.

Lemma wp_on_mmu {X} (c : M (mmu_state D) X) (Q : X -> kmem A D -> Prop) s :
  wp c (fun x t => Q x (MkKmem (km_pages s) (km_vm s) t (km_reserve s) (km_zeroed s))) (km_mmu s) -> wp (on_mmu c) Q s.
Proof. unfold wp, on_mmu. by destruct (c (km_mmu s)) as [[x p]|]. Qed.

(** The kernel addresses at which the pages of a block appear, zero extended *)
Definition alias (i : Z) : Z := i * PAGE_SIZE + 2 ^ 47.

(** The alias of every free page is free. *)
Definition synced (B : blocks) (T : list (Z * area)) : Prop :=
  forall i, free_page B i -> forall x, in_range (alias i) PAGE_SIZE x -> covers T.*2 x.

(** [T], [U]: free and reserved areas of the KMAP list; [O], [V]: of the
    DYNAMIC list; [n], [k]: the pages vmalloc and the MMU can still take. *)
Record kmem_ok s B T O (U V : rlist) (ch : chains) (n k : nat) : Prop := {
  ko_pages : pa_inv (km_pages s) B;
  ko_vm : vm_inv Inv KMAP_LIST (km_vm s) T O U V ch n;
  ko_wf : wf m (tables (km_mmu s));
  ko_tables : DInv (ast (km_mmu s)) (dom (tables (km_mmu s))) k;
  ko_sync : synced B T
}.

Lemma block_alias i o x : in_range (alias i) (2 ^ o * PAGE_SIZE) x <->
  exists j, in_block i o j /\ in_range (alias j) PAGE_SIZE x.
Proof.
  unfold in_range, in_block, alias, PAGE_SIZE. split.
  - intros Hx. exists ((x - 2 ^ 47) / 4096). pose proof (Z.div_mod (x - 2 ^ 47) 4096 ltac:(done)).
    pose proof (Z.mod_pos_bound (x - 2 ^ 47) 4096 ltac:(done)). split; [|lia].
    split; [apply Z.div_le_lower_bound; lia|apply Z.div_lt_upper_bound; lia].
  - intros (j & Hj & Hx). nia.
Qed.

Lemma alias_same i j x : in_range (alias i) PAGE_SIZE x -> in_range (alias j) PAGE_SIZE x -> i = j.
Proof. unfold in_range, alias, PAGE_SIZE. lia. Qed.

Lemma synced_alloc B B' T T' i o :
  synced B T -> alloc_step i o B B' ->
  (forall x, covers T'.*2 x <-> covers T.*2 x /\ ~ in_range (alias i) (2 ^ o * PAGE_SIZE) x) -> synced B' T'.
Proof.
  intros HS HA HT j Hj x Hx. apply (a_free _ _ _ _ HA) in Hj as [Hj Hn]. apply HT. split; [by apply (HS j)|].
  intros (j' & Hj' & Hx')%block_alias. by rewrite (alias_same j j' x Hx Hx') in Hn.
Qed.

Lemma synced_free B B' T T' i o :
  synced B T -> free_step i o B B' ->
  (forall x, covers T'.*2 x <-> covers T.*2 x \/ in_range (alias i) (2 ^ o * PAGE_SIZE) x) -> synced B' T'.
Proof.
  intros HS HF HT j Hj x Hx. apply HT. apply (f_free _ _ _ _ HF) in Hj as [Hj|Hj]; [left; by apply (HS j)|].
  right. apply block_alias. by exists j.
Qed.

(** A free block and its alias lie inside of the KMAP window. *)
Lemma block_window s B T O U V ch n k i o :
  kmem_ok s B T O U V ch n k -> 0 <= o -> (forall x, in_block i o x -> free_page B x) -> 0 <= i ->
  alias i + 2 ^ o * PAGE_SIZE <= 2 ^ 48 /\ i * PAGE_SIZE + 2 ^ o * PAGE_SIZE <= 2 ^ 47.
Proof.
  intros [_ HI _ _ HS] Ho Hf Hi. assert (0 < 2 ^ o) by lia.
  destruct (kmap_range_bound Inv _ _ _ _ _ _ _ (alias i) (2 ^ o * PAGE_SIZE) HI) as [_ He].
  - unfold PAGE_SIZE. lia.
  - intros x (j & Hj & Hx)%block_alias. apply (HS j); [by apply Hf|done].
  - unfold alias in *. lia.
Qed.

Lemma mem_cfg_ok cfg : cfg_ok (mmu_cfg_of cfg).
Proof. unfold mmu_cfg_of. destruct (rk_device_mem cfg); by repeat split. Qed.

Lemma page_multiple n : (PAGE_SIZE | n * PAGE_SIZE).
Proof. by exists n. Qed.

Lemma log2_pages o : 0 <= o < 64 -> log2_floor_u64 (2 ^ o) = o.
Proof. intros Ho. rewrite log2_floor_u64_eq by lia. apply Z.log2_pow2. lia. Qed.

(** What an allocation at the fixed offset leaves behind: a block of the page
    allocator, its alias reserved in vmalloc, the translations between. *)
Record kmapped_at s s' tag cfg i o : Prop := {
  ka_idx : 0 <= i /\ i + 2 ^ o <= N (km_pages s) /\ (2 ^ o | i);
  ka_same : N (km_pages s') = N (km_pages s) /\ MAX_ORDER (km_pages s') = MAX_ORDER (km_pages s);
  ka_data : data_at (km_pages s') i = Some (mm_page_data_new tag (rk_device_mem cfg) (rk_permanent cfg));
  ka_others j : j <> i -> data_at (km_pages s') j = data_at (km_pages s) j;
  ka_mapped : kmaps m (km_mmu s) (km_mmu s') (alias i) (2 ^ o * PAGE_SIZE)
    (image (kpa_to_kva (i * PAGE_SIZE)) (i * PAGE_SIZE) (mmu_cfg_of cfg));
  ka_zeroed : km_zeroed s' = km_zeroed s;
  ka_reserve : km_reserve s' = km_reserve s
}.

Lemma kmap_alloc_spec s B T O U V ch n k o tag cfg :
  kmem_ok s B T O U V ch (S (S n)) k -> rk_kmap cfg = true -> rk_assign_pa cfg = true ->
  0 <= o <= 8 -> o <= MAX_ORDER (km_pages s) -> (3 * Z.to_nat (2 ^ o) <= k)%nat ->
  (exists i j, o <= j /\ B !! i = Some (j, true)) ->
  wp (raw_kmalloc_kmap reserve_malloc container_kfree m (2 ^ o) tag cfg) (fun r s' => exists i q B' T' U1 U2 k',
    let p := i * PAGE_SIZE in
    r = (kpa_to_kva p, RAW_KMALLOC_KMAP (mmu_cfg_of cfg) (pv_ptr_new p (kpa_to_kva p)) o) /\
    alloc_step i o B B' /\ U = U1 ++ U2 /\ (k <= 3 * Z.to_nat (2 ^ o) + k')%nat /\
    kmem_ok s' B' T' O (U1 ++ (q, ((alias i, 2 ^ o * PAGE_SIZE),
      area_mdt tag (vmalloc_cfg_from_raw_kmalloc_cfg cfg p))) :: U2) V (set_chain ch q []) n k' /\
    (forall x, covers T'.*2 x <-> covers T.*2 x /\ ~ in_range (alias i) (2 ^ o * PAGE_SIZE) x) /\
    kmapped_at s s' tag cfg i o) s.
Proof.
  intros HK Hkm Has Ho Hmo Hk Hav. pose proof HK as [HP HV HW HD HS].
  assert (0 < 2 ^ o <= 2 ^ 8) as Ho2 by (split; [lia|apply Z.pow_le_mono_r; lia]).
  assert (0 < 2 ^ o * PAGE_SIZE < 2 ^ 21) as Hb by (unfold PAGE_SIZE; lia).
  unfold raw_kmalloc_kmap. apply wp_bind, wp_ASSERT.
  { apply is_pow2_spec; [unfold u_range; lia|]. exists o. lia. }
  rewrite log2_pages by lia. apply wp_bind, wp_on_pages.
  eapply wp_mono; [apply (page_malloc_spec _ B); [done|lia|done]|].
  intros p pg (i & B' & -> & Hi0 & HiN & Hdiv & HP' & HA & Hd & Hdo & HN & HM). cbn [km_vm km_mmu km_zeroed].
  destruct (block_window _ _ _ _ _ _ _ _ _ i o HK) as [Hw1 Hw2]; [lia|by apply (a_was_free _ _ _ _ HA)|done|].
  assert (0 <= i * PAGE_SIZE < 2 ^ 47) as Hp by (unfold PAGE_SIZE in *; lia).
  apply wp_bind, wp_on_vm. cbn [km_vm]. eapply wp_mono.
  { apply (vmalloc_kmap_spec reserve_malloc container_kfree Inv _ T O U V ch n); [done|done|done| |lia|lia| | |];
      unfold vmalloc_cfg_from_raw_kmalloc_cfg; cbn [vc_kmap_pa]; rewrite ?Hkm; [|lia|apply page_multiple|].
    - apply is_pow2_spec; [unfold u_range; lia|]. exists o. lia.
    - intros x (j & Hj & Hx)%block_alias. apply (HS j); [|done]. by apply (a_was_free _ _ _ _ HA). }
  intros [va q] vm' (Eva & _ & T' & U1 & U2 & EU & Esp & HV' & HT'). cbn [fst snd] in *.
  assert (vc_kmap_pa (vmalloc_cfg_from_raw_kmalloc_cfg cfg (i * PAGE_SIZE)) = i * PAGE_SIZE) as Epa
    by (unfold vmalloc_cfg_from_raw_kmalloc_cfg; cbn [vc_kmap_pa]; by rewrite Hkm).
  rewrite Epa in *. fold (alias i) in *. cbv zeta. cbn [fst]. subst va.
  rewrite wrap_small by (unfold u_range; lia).
  apply wp_bind, wp_on_mmu. cbn [km_mmu km_pages km_vm km_zeroed].
  rewrite kva_upper by done. fold (alias i). eapply wp_mono.
  { apply (map_kernel_spec m Hm DInv _ (alias i) (i * PAGE_SIZE) (2 ^ o * PAGE_SIZE) (mmu_cfg_of cfg) k);
      try done; try apply mem_cfg_ok; try apply page_multiple; try (unfold alias; lia).
    - by rewrite Z.div_mul by done.
    - apply Z.divide_add_r; [apply page_multiple|by exists (2 ^ 35)]. }
  intros r t (-> & HMp & k' & Hk' & HD'). apply wp_bind, wp_ASSERT; [done|]. apply wp_ret.
  rewrite Z.div_mul in Hk' by done.
  exists i, q, B', T', U1, U2, k'. cbv zeta. rewrite kva_upper by done. fold (alias i).
  split; [done|]. split; [done|]. split; [done|]. split; [done|]. split; [|split; [done|]].
  - split; cbn [km_pages km_vm km_mmu]; try done; [apply HMp|]. by eapply synced_alloc.
  - split; cbn [km_pages km_mmu km_zeroed km_reserve]; try done. by rewrite kva_upper by done.
Qed.

(** ** Release of a block at the fixed offset *)

Lemma kva_of_alias i : 0 <= i -> i * PAGE_SIZE < 2 ^ 47 -> kva_to_kpa (upper (alias i)) = i * PAGE_SIZE.
Proof.
  intros Hi Hp. unfold alias. rewrite <- kva_upper by (unfold PAGE_SIZE in *; lia).
  apply kva_roundtrip. unfold PAGE_SIZE in *. lia.
Qed.

Lemma kmap_free_spec s B T O U1 q d U2 V ch n k i o pd :
  kmem_ok s B T O (U1 ++ (q, d) :: U2) V ch (S n) k ->
  d.1 = (alias i, 2 ^ o * PAGE_SIZE) -> vi_kmapped (mdt_info d.2) = true ->
  vi_pa_assigned (mdt_info d.2) = true -> vi_permanent (mdt_info d.2) = false ->
  0 <= i < 2 ^ MAX_ORDER (km_pages s) -> 0 <= o <= 8 -> (3 * Z.to_nat (2 ^ o) <= k)%nat ->
  allocated B i o -> data_at (km_pages s) i = Some pd -> permanent pd = false ->
  (forall x, upper (alias i) <= x < upper (alias i) + 2 ^ o * PAGE_SIZE ->
     is_mapped m (tables (km_mmu s)) x) ->
  wp (raw_kfree reserve_malloc container_kfree m (upper (alias i))) (fun _ s' => exists B' T' k',
    free_step i o B B' /\ (k <= 3 * Z.to_nat (2 ^ o) + k')%nat /\
    kmem_ok s' B' T' O (U1 ++ U2) V ch n k' /\
    (forall x, covers T'.*2 x <-> covers T.*2 x \/ in_range (alias i) (2 ^ o * PAGE_SIZE) x) /\
    frame (km_pages s) (km_pages s') /\ km_zeroed s' = km_zeroed s /\ km_reserve s' = km_reserve s /\
    kmaps m (km_mmu s) (km_mmu s') (alias i) (2 ^ o * PAGE_SIZE) gone) s.
Proof.
  intros [HP HV HW HD HS] Ed Hkm Has Hpm Hi Ho Hk Hal Hpd Hpp Hmp.
  assert (0 < 2 ^ o <= 2 ^ 8) as Ho2 by (split; [lia|apply Z.pow_le_mono_r; lia]).
  assert (0 < 2 ^ o * PAGE_SIZE < 2 ^ 21) as Hb by (unfold PAGE_SIZE; lia).
  pose proof (area_window reserve_malloc container_kfree Inv _ _ _ _ _ _ _ _ _ _ _ HV) as (_ & Hw & _ & He & _).
  rewrite Ed in Hw, He. cbn [fst snd] in Hw, He.
  assert (0 <= i * PAGE_SIZE < 2 ^ 47) as Hp by (unfold alias, PAGE_SIZE in *; lia).
  unfold raw_kfree. apply wp_bind, wp_on_vm. unfold vmalloc_get_token. apply wp_bind. unfold wp at 1.
  rewrite (find_rva_ok reserve_malloc container_kfree Inv _ _ _ _ _ _ _ _ _ _ _ _ HV) by (right; rewrite Ed; by rewrite upper_sext).
  apply wp_ret. cbn [fst km_pages km_vm km_mmu km_zeroed]. apply wp_bind, wp_on_vm. unfold wp at 1. cbn [km_vm].
  rewrite (vmalloc_mdt_ok Inv _ _ _ _ _ _ _ _ _ _ _ HV). cbn [km_pages km_mmu km_zeroed].
  rewrite Hkm, Has. apply wp_bind, wp_on_vm. cbn [km_vm km_pages km_mmu km_zeroed].
  eapply wp_mono; [by apply (vmalloc_token_vfree_spec reserve_malloc container_kfree Inv _ _ _ _ _ _ _ _ _ _ _ HV)|].
  intros r vm' (-> & _ & T' & HV' & HT'). cbn [fst snd]. rewrite Ed in *. cbn [fst snd] in *.
  apply wp_bind, wp_on_pages. cbn [km_vm km_pages km_mmu km_zeroed]. rewrite kva_of_alias by lia.
  eapply wp_mono; [eapply page_free_spec; try done; lia|]. intros _ pg (B' & HP' & HF & Fr).
  apply wp_bind, wp_on_mmu. cbn [km_vm km_pages km_mmu km_zeroed]. eapply wp_mono.
  { apply (unmap_kernel_spec m Hm DInv _ (alias i) (2 ^ o * PAGE_SIZE) k); try done; try apply page_multiple; try lia.
    - by rewrite Z.div_mul by done.
    - apply Z.divide_add_r; [apply page_multiple|by exists (2 ^ 35)]. }
  intros r t (-> & HMp & k' & Hk' & HD'). rewrite Z.div_mul in Hk' by done. apply wp_ASSERT; [done|].
  exists B', T', k'. split; [done|]. split; [done|]. split; [|split; [done|]; split; [done|]; split; [done|]; split; done].
  split; cbn [km_pages km_vm km_mmu]; try done; [apply HMp|]. by eapply synced_free.
Qed.

End Kmem.
