(* ===== verification/RawKmallocDynamic.v ===== *)
(** * RawKmallocDynamic: allocations out of several blocks

    [raw_kmalloc] anywhere in the DYNAMIC window cuts a request into a block
    for each bit of the number of pages, largest first, records the blocks
    with the reserved area and maps them one behind the other; [raw_kfree]
    reads them back.  The blocks taken are a list; [takes] and [gives] are
    the sequences of steps of the page allocator that go with it. *)

From Stdlib Require Import ZArith Lia.
From stdpp Require Import base tactics numbers gmap list.
From S2P Require Import Prelude KMath PageAllocator BuddyTiling PageAllocatorRep PageAllocatorSpec.
From S2P Require Import VmContainers VmContainersSpec Vmalloc VmLists VmallocSpec VmallocReserved VmallocBlocks VmallocInv VmallocOps VmallocBoot.
From S2P Require Import MmuDc Mmu MmuReach MmuSpec MmuUnmap RawKmalloc RawKmallocSpec.

Open Scope Z_scope.
Open Scope kmonad_scope.

Implicit Types (p : vmalloc_pa_info) (bl : list vmalloc_pa_info) (B : blocks).

(** ** Lists of blocks *)

(** the first page of a block *)
Definition pi_idx p : Z := pi_pa p / PAGE_SIZE.

Definition in_blocks bl (x : Z) : Prop := exists p, p ∈ bl /\ in_block (pi_idx p) (pi_order p) x.

Inductive takes : blocks -> list vmalloc_pa_info -> blocks -> Prop :=
  | takes_nil B : takes B [] B
  | takes_cons B p bl B1 B2 : pi_pa p = pi_idx p * PAGE_SIZE -> 0 <= pi_idx p -> 0 <= pi_order p ->
      alloc_step (pi_idx p) (pi_order p) B B1 -> takes B1 bl B2 -> takes B (p :: bl) B2.

Inductive gives : blocks -> list vmalloc_pa_info -> blocks -> Prop :=
  | gives_nil B : gives B [] B
  | gives_cons B p bl B1 B2 : free_step (pi_idx p) (pi_order p) B B1 -> gives B1 bl B2 -> gives B (p :: bl) B2.

Lemma in_blocks_cons p bl x : in_blocks (p :: bl) x <-> in_block (pi_idx p) (pi_order p) x \/ in_blocks bl x.
Proof.
  unfold in_blocks. split.
  - intros (p' & [->|Hp]%elem_of_cons & Hx); [by left|right; eauto].
  - intros [Hx|(p' & Hp & Hx)]; eexists; (split; [|done]); set_solver.
Qed.

Lemma in_blocks_dec bl x : in_blocks bl x \/ ~ in_blocks bl x.
Proof.
  induction bl as [|p bl IH]; [right; intros (p & Hp & _); set_solver|]. rewrite in_blocks_cons.
  assert (in_block (pi_idx p) (pi_order p) x \/ ~ in_block (pi_idx p) (pi_order p) x) by (unfold in_block; lia). tauto.
Qed.

Lemma takes_free B bl B' : takes B bl B' ->
  (forall x, in_blocks bl x -> free_page B x) /\
  (forall x, free_page B' x <-> free_page B x /\ ~ in_blocks bl x).
Proof.
  induction 1 as [B|B p bl B1 B2 _ _ _ HA _ [IH1 IH2]].
  - assert (forall x, ~ in_blocks [] x) as Hn by (intros x (p & Hp & _); set_solver).
    split; intros x; [by intros ?%Hn|]. specialize (Hn x). tauto.
  - assert (forall x, in_blocks (p :: bl) x -> free_page B x) as H1.
    { intros x [Hx|Hx]%in_blocks_cons; [by apply (a_was_free _ _ _ _ HA)|]. by apply IH1, (a_free _ _ _ _ HA) in Hx as [? _]. }
    split; [done|]. intros x. rewrite IH2, in_blocks_cons, (a_free _ _ _ _ HA). tauto.
Qed.

Lemma takes_alloc B bl B' j o : takes B bl B' ->
  allocated B' j o <-> allocated B j o \/ exists p, p ∈ bl /\ pi_idx p = j /\ pi_order p = o.
Proof.
  induction 1 as [B|B p bl B1 B2 _ _ _ HA _ IH].
  - split; [by left|]. intros [?|(p & Hp & _)]; [done|set_solver].
  - rewrite IH, (a_alloc _ _ _ _ HA). split.
    + intros [[[-> ->]|?]|(p' & Hp & E)]; [right; exists p; set_solver|by left|right; exists p'; set_solver].
    + intros [?|(p' & [->|Hp]%elem_of_cons & E1 & E2)]; [by left; right|left; left; by subst|right; eauto].
Qed.

Lemma gives_free B bl B' : gives B bl B' -> forall x, free_page B' x <-> free_page B x \/ in_blocks bl x.
Proof.
  induction 1 as [B|B p bl B1 B2 HF _ IH]; intros x.
  - split; [by left|]. intros [?|(p & Hp & _)]; [done|set_solver].
  - rewrite IH, in_blocks_cons, (f_free _ _ _ _ HF). tauto.
Qed.

Lemma gives_alloc B bl B' j o : gives B bl B' -> allocated B' j o <-> allocated B j o /\ forall p, p ∈ bl -> pi_idx p <> j.
Proof.
  induction 1 as [B|B p bl B1 B2 HF _ IH].
  - split; [intros ?; split; [done|set_solver]|by intros [? _]].
  - rewrite IH, (f_alloc _ _ _ _ HF). split.
    + intros [[H1 H2] H3]. split; [done|]. intros p' [->|Hp]%elem_of_cons; [congruence|by apply H3].
    + intros [H1 H2]. split; [split; [done|]|]; [intros ->; apply (H2 p); set_solver|]. intros p' Hp. apply H2. set_solver.
Qed.

Lemma takes_idx B bl B' : takes B bl B' ->
  forall p, p ∈ bl -> pi_pa p = pi_idx p * PAGE_SIZE /\ 0 <= pi_idx p /\ 0 <= pi_order p.
Proof. induction 1 as [|B p bl B1 B2 H1 H2 H3 _ _ IH]; intros p' Hp; [set_solver|]. apply elem_of_cons in Hp as [->|Hp]; auto. Qed.

Lemma takes_self B bl B' p : takes B bl B' -> p ∈ bl -> in_blocks bl (pi_idx p).
Proof. intros Ht Hp. exists p. split; [done|]. destruct (takes_idx _ _ _ Ht p Hp) as (_ & _ & ?). unfold in_block. lia. Qed.

Lemma takes_nodup B bl B' : takes B bl B' -> NoDup (pi_idx <$> bl).
Proof.
  induction 1 as [|B p bl B1 B2 _ _ Ho HA Ht IH]; [constructor|]. cbn. constructor; [|done].
  intros (p' & E & Hp)%list_elem_of_fmap. apply (takes_self _ _ _ _ Ht) in Hp. rewrite <- E in Hp.
  apply (proj1 (takes_free _ _ _ Ht)), (a_free _ _ _ _ HA) in Hp as [_ Hn]. apply Hn. unfold in_block. lia.
Qed.

(** Giving back what was taken restores the blocks. *)
Lemma takes_gives s s' B bl B1 B2 :
  pa_inv s B -> pa_inv s' B2 -> N s' = N s -> MAX_ORDER s' = MAX_ORDER s ->
  takes B bl B1 -> gives B1 bl B2 -> B = B2.
Proof.
  intros H1 H2 HN HM Ht Hg. destruct (takes_free _ _ _ Ht) as [F1 F2]. pose proof (gives_free _ _ _ Hg) as F3.
  eapply pa_inv_canonical; [done..| |].
  - intros x. rewrite F3, F2. specialize (F1 x). pose proof (in_blocks_dec bl x). tauto.
  - intros j o. rewrite (gives_alloc _ _ _ _ _ Hg), (takes_alloc _ _ _ _ _ Ht). split; [|naive_solver].
    intros Hj. split; [by left|]. intros p Hp E. destruct H1 as (_ & HT & _).
    destruct (t_block _ _ HT _ _ _ Hj) as (Ho & _).
    apply (allocated_not_free _ _ _ _ j HT Hj); [unfold in_block; lia|]. apply F1.
    rewrite <- E. by eapply takes_self.
Qed.

Lemma takes_synced B bl B' (T : list (Z * area)) : takes B bl B' -> synced B T -> synced B' T.
Proof. intros Ht HS i Hi. apply (proj2 (takes_free _ _ _ Ht)) in Hi as [Hi _]. by apply HS. Qed.

(** After an allocation out of a larger block one of the same size is left. *)
Lemma alloc_leaves n mo i o B B' :
  tiling n B -> tiling n B' -> coalesced mo B' -> 0 <= o <= mo -> (2 ^ o | i) -> alloc_step i o B B' ->
  (exists h k, o < k /\ B !! h = Some (k, true)) -> exists h k, o <= k /\ B' !! h = Some (k, true).
Proof.
  intros HT HT' HC Ho Hi HA (h & k & Hk & Hh). destruct (t_block _ _ HT _ _ _ Hh) as (_ & _ & _ & Hd).
  assert (2 ^ o < 2 ^ k) as Hlt by (apply Z.pow_lt_mono_r; lia).
  assert (2 ^ (o + 1) <= 2 ^ k) as Hle by (apply Z.pow_le_mono_r; lia). rewrite pow2_succ in Hle by lia.
  assert ((2 ^ o | h)) as Hdo by (apply (divide_pow2_le o k); [lia|done]).
  assert (exists g, (2 ^ o | g) /\ g <> i /\ h <= g /\ g + 2 ^ o <= h + 2 ^ k) as (g & Hg & Hne & B1 & B2).
  { destruct (Z.eq_dec h i) as [->|]; [|exists h; split_and!; done || lia].
    exists (i + 2 ^ o). split_and!; try lia. apply Z.divide_add_r; [done|apply Z.divide_refl]. }
  destruct (free_range_in_block n mo B' o g) as (h' & k' & Hk' & Hh' & _); [done..| |by exists h', k'].
  intros x Hx. apply (a_free _ _ _ _ HA). split.
  - exists h, k. split; [done|]. unfold in_block in *. lia.
  - intros Hx'. apply Hne. destruct (aligned_contains g o i o x) as [? ?]; [lia|done..|]. lia.
Qed.

(** ** The blocks of a request *)

(** [bl] holds a block for each bit of [rem], one behind the other from [u] *)
Fixpoint tiles bl (u rem : Z) : Prop :=
  match bl with
  | [] => rem = 0
  | p :: bl => 0 < rem /\ pi_order p = Z.log2 rem /\ pi_va p = upper u /\
      tiles bl (u + 2 ^ Z.log2 rem * PAGE_SIZE) (rem - 2 ^ Z.log2 rem)
  end.

(** where the addresses of these blocks lead *)
Fixpoint blocks_image bl (cfg : mmu_pg_cfg) (x : Z) : mmu_walk_result :=
  match bl with
  | [] => MMU_WALK_PAGE_UNMAPPED
  | p :: bl =>
      if (pi_va p <=? x) && (x <? pi_va p + 2 ^ pi_order p * PAGE_SIZE)
      then image (pi_va p) (pi_pa p) cfg x else blocks_image bl cfg x
  end.

Lemma log2_block rem : 0 < rem -> 0 < 2 ^ Z.log2 rem <= rem /\ 0 <= Z.log2 rem.
Proof. intros H. pose proof (Z.log2_spec rem H). pose proof (Z.log2_nonneg rem). lia. Qed.

Lemma tiles_range bl u rem : tiles bl u rem ->
  forall p, p ∈ bl -> upper u <= pi_va p /\ pi_va p + 2 ^ pi_order p * PAGE_SIZE <= upper u + rem * PAGE_SIZE.
Proof.
  revert u rem. induction bl as [|p0 bl IH]; intros u rem Ht p Hp; [set_solver|].
  destruct Ht as (H0 & Eo & Ev & Ht). destruct (log2_block rem H0).
  apply elem_of_cons in Hp as [->|Hp]; [rewrite Eo, Ev; unfold PAGE_SIZE; lia|].
  destruct (IH _ _ Ht p Hp). unfold upper, PAGE_SIZE in *. lia.
Qed.

Lemma tiles_length bl u rem : tiles bl u rem -> Z.of_nat (length bl) <= rem.
Proof.
  revert u rem. induction bl as [|p bl IH]; intros u rem Ht; cbn in Ht |- *; [lia|].
  destruct Ht as (H0 & _ & _ & Ht). destruct (log2_block rem H0). specialize (IH _ _ Ht). lia.
Qed.

Lemma tiles_mapped bl u rem cfg x : tiles bl u rem -> upper u <= x < upper u + rem * PAGE_SIZE ->
  exists pa, blocks_image bl cfg x = MMU_WALK_PAGE_MAPPED cfg pa.
Proof.
  revert u rem. induction bl as [|p bl IH]; intros u rem Ht Hx; [cbn in Ht; lia|].
  destruct Ht as (H0 & Eo & Ev & Ht). cbn [blocks_image]. rewrite Eo, Ev.
  destruct (Z.leb_spec (upper u) x); [|lia]. destruct (Z.ltb_spec x (upper u + 2 ^ Z.log2 rem * PAGE_SIZE)); cbn [andb].
  - eexists. reflexivity.
  - apply (IH _ _ Ht). unfold upper, PAGE_SIZE in *. lia.
Qed.

Lemma tiles_image bl u rem cfg p x : tiles bl u rem ->
  p ∈ bl -> pi_va p <= x < pi_va p + 2 ^ pi_order p * PAGE_SIZE ->
  blocks_image bl cfg x = MMU_WALK_PAGE_MAPPED cfg (pi_pa p + (x - pi_va p)).
Proof.
  revert u rem. induction bl as [|p0 bl IH]; intros u rem Ht Hp Hx; [set_solver|].
  destruct Ht as (H0 & Eo & Ev & Ht). cbn [blocks_image]. apply elem_of_cons in Hp as [->|Hp].
  { destruct (Z.leb_spec (pi_va p0) x); [|lia]. by destruct (Z.ltb_spec x (pi_va p0 + 2 ^ pi_order p0 * PAGE_SIZE)); [|lia]. }
  destruct (tiles_range _ _ _ Ht p Hp) as [I1 _].
  destruct (Z.ltb_spec x (pi_va p0 + 2 ^ pi_order p0 * PAGE_SIZE)) as [Hlt|].
  - rewrite Eo, Ev in Hlt. unfold upper in *. lia.
  - rewrite andb_false_r. by apply (IH _ _ Ht).
Qed.

(** ** The loop *)

Section Dynamic.
Context {A D : Type} (reserve_malloc : A -> res (Z * A)) (container_kfree : Z -> A -> res A).
Context (Inv : A -> gset Z -> nat -> Prop) `{PS : !PageSource reserve_malloc container_kfree Inv}.
Context (m : mmu_mapping D) (Hm : kernel_mapping m).
Context (DInv : D -> gset Z -> nat -> Prop) `{TA : !TableAllocator m DInv}.
Implicit Types (s : kmem A D) (T O : list (Z * area)).

Abbreviation rlist := (list (Z * (area * vmalloc_mdt))).
Abbreviation chains := (Z -> list (Z * vmalloc_pa_info)).
Abbreviation kmem_ok := (kmem_ok Inv m DInv).

(** What the loop does from [u] on to the state: the blocks [bl] are taken,
    carry the data [pd], and translate. *)
Record placed s s' B B' bl u rem pd cfg : Prop := {
  pl_tiles : tiles bl u rem;
  pl_takes : takes B bl B';
  pl_same : N (km_pages s') = N (km_pages s) /\ MAX_ORDER (km_pages s') = MAX_ORDER (km_pages s);
  pl_idx p : p ∈ bl -> pi_idx p + 2 ^ pi_order p <= N (km_pages s);
  pl_data p : p ∈ bl -> data_at (km_pages s') (pi_idx p) = Some pd;
  pl_others j : ~ in_blocks bl j -> data_at (km_pages s') j = data_at (km_pages s) j;
  pl_mapped : kmaps m (km_mmu s) (km_mmu s') u (rem * PAGE_SIZE) (blocks_image bl cfg);
  pl_zeroed : km_zeroed s' = km_zeroed s;
  pl_reserve : km_reserve s' = km_reserve s
}.

Lemma placed_nil s B u pd cfg : wf m (tables (km_mmu s)) -> placed s s B B [] u 0 pd cfg.
Proof. intros W. split; try done; try (intros p Hp; set_solver). { constructor. } by apply kmaps_nil. Qed.

Lemma placed_cons s s1 s2 B B1 B2 p bl u rem pd cfg :
  0 < rem -> 2 ^ 47 <= u -> u + rem * PAGE_SIZE <= 2 ^ 48 ->
  pi_order p = Z.log2 rem -> pi_va p = upper u -> pi_pa p = pi_idx p * PAGE_SIZE -> 0 <= pi_idx p ->
  pi_idx p + 2 ^ pi_order p <= N (km_pages s) -> alloc_step (pi_idx p) (pi_order p) B B1 ->
  data_at (km_pages s1) (pi_idx p) = Some pd ->
  (forall j, j <> pi_idx p -> data_at (km_pages s1) j = data_at (km_pages s) j) ->
  N (km_pages s1) = N (km_pages s) -> MAX_ORDER (km_pages s1) = MAX_ORDER (km_pages s) ->
  km_zeroed s1 = km_zeroed s -> km_reserve s1 = km_reserve s ->
  kmaps m (km_mmu s) (km_mmu s1) u (2 ^ pi_order p * PAGE_SIZE) (image (upper u) (pi_pa p) cfg) ->
  placed s1 s2 B1 B2 bl (u + 2 ^ Z.log2 rem * PAGE_SIZE) (rem - 2 ^ Z.log2 rem) pd cfg ->
  placed s s2 B B2 (p :: bl) u rem pd cfg.
Proof.
  intros H0 Hu He Eo Ev Ep Hi HN HA Hd Hdo EN EM Ez Er HM1 [Ht Htk [EN2 EM2] Hix Hd2 Hdo2 HM2 Ez2 Er2].
  destruct (log2_block rem H0) as [Hl Hl0].
  destruct (takes_free _ _ _ Htk) as [Hf1 _].
  assert (in_block (pi_idx p) (pi_order p) (pi_idx p)) as Hself by (unfold in_block; rewrite Eo; lia).
  assert (~ in_blocks bl (pi_idx p)) as Hnp by (intros Hp%Hf1; by apply (a_free _ _ _ _ HA) in Hp as [_ ?]).
  split.
  - done.
  - econstructor; try done. by rewrite Eo.
  - split; congruence.
  - intros p' [->|Hp]%elem_of_cons; [done|]. rewrite <- EN. by apply Hix.
  - intros p' [->|Hp]%elem_of_cons; [by rewrite Hdo2|by apply Hd2].
  - intros j Hj. rewrite in_blocks_cons in Hj. rewrite Hdo2 by tauto. apply Hdo. intros ->. tauto.
  - assert (0 < 2 ^ Z.log2 rem * PAGE_SIZE <= rem * PAGE_SIZE) as Hc by (unfold PAGE_SIZE; lia).
    apply (kmaps_app m _ (km_mmu s1) _ u (2 ^ Z.log2 rem * PAGE_SIZE)); [lia|unfold upper; lia|unfold upper; lia| |].
    + rewrite Eo in HM1. eapply kmaps_ext; [|exact HM1]. intros x Hx. cbn [blocks_image]. rewrite Eo, Ev.
      destruct (Z.leb_spec (upper u) x); [|lia].
      by destruct (Z.ltb_spec x (upper u + 2 ^ Z.log2 rem * PAGE_SIZE)); [|lia].
    + rewrite <- Z.mul_sub_distr_r. eapply kmaps_ext; [|exact HM2]. intros x Hx. cbn [blocks_image]. rewrite Eo, Ev.
      destruct (Z.ltb_spec x (upper u + 2 ^ Z.log2 rem * PAGE_SIZE)); [unfold upper in *; lia|]. by rewrite andb_false_r.
  - congruence.
  - congruence.
Qed.


Lemma insert_block_last p bl : (forall j, j ∈ bl -> pi_va j <= pi_va p) -> insert_block p bl = bl ++ [p].
Proof. intros H. rewrite <- (app_nil_r bl) at 1. by rewrite insert_block_split. Qed.

Lemma log2_rest rem : 0 < rem -> 0 < rem - 2 ^ Z.log2 rem -> Z.log2 (rem - 2 ^ Z.log2 rem) < Z.log2 rem.
Proof.
  intros H0 H1. pose proof (Z.log2_spec rem H0) as [_ H2]. rewrite Z.pow_succ_r in H2 by apply Z.log2_nonneg.
  apply Z.log2_lt_pow2; lia.
Qed.

Lemma kmem_mono s B T O (U V : rlist) (ch : chains) j n k : kmem_ok s B T O U V ch (j + n) k -> kmem_ok s B T O U V ch n k.
Proof.
  induction j as [|j IH]; [done|]. intros [H1 H2 H3 H4 H5]. apply IH. split; try done.
  by apply (vm_inv_mono reserve_malloc container_kfree).
Qed.

(** One round: a block is taken, recorded and mapped. *)
Definition dynamic_round (tag : Z) (cfg : raw_kmalloc_cfg) (q va o : Z) : M (kmem A D) unit :=
  let* pa := on_pages (page_malloc o (mm_page_data_new tag (rk_device_mem cfg) (rk_permanent cfg))) in
  on_vm (vmalloc_push_pa reserve_malloc q o pa va) ;;
  let* r := on_mmu (mmu_map (Some m) va pa (2 ^ o * PAGE_SIZE) (mmu_cfg_of cfg)) in
  ASSERT (is_map_ok r).

Lemma dynamic_round_spec s B T O U V1 q d V2 ch n k tag cfg u o :
  kmem_ok s B T O U (V1 ++ (q, d) :: V2) ch (S n) k -> 0 <= o <= 8 -> (3 * Z.to_nat (2 ^ o) <= k)%nat ->
  (exists i j, o <= j /\ B !! i = Some (j, true)) ->
  2 ^ 47 <= u -> u + 2 ^ o * PAGE_SIZE <= 2 ^ 48 -> (PAGE_SIZE | u) ->
  (forall p, p ∈ (ch q).*2 -> pi_va p <= upper u) ->
  wp (dynamic_round tag cfg q (upper u) o) (fun _ s' => exists i B' md C k',
    let p := MkPaInfo (i * PAGE_SIZE) (upper u) o in
    0 <= i /\ i + 2 ^ o <= N (km_pages s) /\ (2 ^ o | i) /\ alloc_step i o B B' /\
    data_at (km_pages s') i = Some (mm_page_data_new tag (rk_device_mem cfg) (rk_permanent cfg)) /\
    (forall j, j <> i -> data_at (km_pages s') j = data_at (km_pages s) j) /\
    N (km_pages s') = N (km_pages s) /\ MAX_ORDER (km_pages s') = MAX_ORDER (km_pages s) /\
    km_zeroed s' = km_zeroed s /\ km_reserve s' = km_reserve s /\
    kmaps m (km_mmu s) (km_mmu s') u (2 ^ o * PAGE_SIZE) (image (upper u) (i * PAGE_SIZE) (mmu_cfg_of cfg)) /\
    kmem_ok s' B' T O U (V1 ++ (q, (d.1, md)) :: V2) (set_chain ch q C) n k' /\
    (k <= 3 * Z.to_nat (2 ^ o) + k')%nat /\ mdt_info md = mdt_info d.2 /\ C.*2 = (ch q).*2 ++ [p]) s.
Proof.
  intros HK Ho Hk Hav Hu He Hdu Hch. pose proof HK as [HP HV HW HD HS].
  assert (0 < 2 ^ o <= 2 ^ 8) as Ho2 by (split; [lia|apply Z.pow_le_mono_r; lia]).
  assert (o <= MAX_ORDER (km_pages s)) as Hmo.
  { destruct Hav as (i & j & Hj & Hi). destruct HP as (Rp & _). destruct (rep_blk _ _ _ _ _ Rp Hi) as [? _]. lia. }
  unfold dynamic_round. apply wp_bind, wp_on_pages.
  eapply wp_mono; [apply (page_malloc_spec _ B); [done|lia|done]|].
  intros pa pg (i & B' & -> & Hi0 & HiN & Hdiv & HP' & HA & Hd & Hdo & HN & HM). cbn [km_vm km_mmu km_zeroed].
  destruct (block_window Inv m DInv _ _ _ _ _ _ _ _ _ i o HK) as [_ Hw]; [lia|by apply (a_was_free _ _ _ _ HA)|done|].
  apply (vm_inv_swap reserve_malloc container_kfree Inv) in HV. cbn [other] in HV.
  apply wp_bind, wp_on_vm. cbn [km_vm km_pages km_mmu km_zeroed].
  eapply wp_mono; [by apply (vmalloc_push_pa_spec reserve_malloc container_kfree Inv _ _ _ _ _ _ _ _ _ _ _ o (i * PAGE_SIZE) (upper u) HV)|].
  intros _ vm' (_ & md & C & HV' & Emd & EC). rewrite insert_block_last in EC by done.
  apply (vm_inv_swap reserve_malloc container_kfree Inv) in HV'. cbn [other] in HV'.
  apply wp_bind, wp_on_mmu. cbn [km_vm km_pages km_mmu km_zeroed]. eapply wp_mono.
  { apply (map_kernel_spec m Hm DInv _ u (i * PAGE_SIZE) (2 ^ o * PAGE_SIZE) (mmu_cfg_of cfg) k);
      try done; try apply mem_cfg_ok; try apply page_multiple; try (unfold PAGE_SIZE in *; lia).
    by rewrite Z.div_mul by done. }
  intros r t (-> & HMp & k' & Hk' & HD'). rewrite Z.div_mul in Hk' by done. apply wp_ASSERT; [done|].
  exists i, B', md, C, k'. cbv zeta. cbn [km_pages km_mmu km_zeroed km_reserve].
  split_and!; try done. split; cbn [km_pages km_vm km_mmu]; try done; [apply HMp|].
  intros j Hj. apply HS. by apply (a_free _ _ _ _ HA) in Hj as [? _].
Qed.

Lemma wp_same {S X} (c c' : M S X) Q (s : S) : c s = c' s -> wp c' Q s -> wp c Q s.
Proof. unfold wp. by intros ->. Qed.

Lemma dynamic_loop_round fuel tag cfg q va rem s :
  0 < rem < 512 -> is_u64 va ->
  dynamic_loop reserve_malloc m (S fuel) tag cfg q va rem s =
  (dynamic_round tag cfg q va (Z.log2 rem) ;;
   dynamic_loop reserve_malloc m fuel tag cfg q (wrap64 (va + 2 ^ Z.log2 rem * PAGE_SIZE)) (rem - 2 ^ Z.log2 rem)) s.
Proof.
  intros Hr Hva. destruct (log2_block rem ltac:(lia)) as [Hl Hl0]. cbn [dynamic_loop].
  destruct (Z.ltb_spec 0 rem); [|lia]. rewrite log2_floor_u64_eq by lia.
  assert (Z.log2 rem < 64) by (apply Z.log2_lt_pow2; lia). rewrite power_of2_eq by lia.
  rewrite (wrap_small 64 (2 ^ Z.log2 rem * PAGE_SIZE)), (wrap_small 64 (rem - _)) by (unfold u_range, PAGE_SIZE; lia).
  unfold dynamic_round, bind, ASSERT. destruct (on_pages _ s) as [[pa s1]|]; [|done].
  destruct (on_vm _ s1) as [[[] s2]|]; [|done]. destruct (on_mmu _ s2) as [[r s3]|]; [|done]. by destruct (is_map_ok r).
Qed.

Lemma dynamic_loop_spec tag cfg fuel : forall c s B T O U V1 q d V2 ch n k u rem,
  kmem_ok s B T O U (V1 ++ (q, d) :: V2) ch (c + n) k ->
  0 <= rem < 512 -> rem < 2 ^ Z.of_nat c -> (c < fuel)%nat -> (3 * Z.to_nat rem <= k)%nat ->
  (0 < rem -> exists i j, Z.log2 rem < j /\ B !! i = Some (j, true)) ->
  2 ^ 47 <= u -> u + rem * PAGE_SIZE <= 2 ^ 48 -> (PAGE_SIZE | u) ->
  (forall p, p ∈ (ch q).*2 -> pi_va p <= upper u) ->
  wp (dynamic_loop reserve_malloc m fuel tag cfg q (upper u) rem) (fun _ s' => exists bl B' ch' md k',
    placed s s' B B' bl u rem (mm_page_data_new tag (rk_device_mem cfg) (rk_permanent cfg)) (mmu_cfg_of cfg) /\
    kmem_ok s' B' T O U (V1 ++ (q, (d.1, md)) :: V2) ch' n k' /\ (k <= 3 * Z.to_nat rem + k')%nat /\
    mdt_info md = mdt_info d.2 /\ (ch' q).*2 = (ch q).*2 ++ bl /\ forall x, x <> q -> ch' x = ch x) s.
Proof.
  induction fuel as [|fuel IH]; intros c s B T O U V1 q d V2 ch n k u rem HK Hrem Hc Hf Hk Hav Hu He Hdu Hch; [lia|].
  destruct (Z.eq_dec rem 0) as [->|Hne].
  { cbn [dynamic_loop]. apply wp_ret. exists [], B, ch, d.2, k. apply kmem_mono in HK. pose proof HK as [_ _ W _ _].
    split; [by apply placed_nil|]. rewrite app_nil_r. destruct d. split_and!; done || lia. }
  assert (0 < rem) as H0 by lia. destruct (log2_block rem H0) as [Hl Hl0]. specialize (Hav H0).
  destruct c as [|c]; [change (2 ^ Z.of_nat 0) with 1 in Hc; lia|].
  assert (Z.log2 rem <= 8) as Hl8 by (assert (Z.log2 rem < 9) by (apply Z.log2_lt_pow2; lia); lia).
  eapply wp_same; [apply dynamic_loop_round; unfold u_range, upper, PAGE_SIZE in *; lia|].
  apply wp_bind. eapply wp_mono.
  { apply (dynamic_round_spec _ _ _ _ _ _ _ _ _ _ (c + n) k tag cfg u (Z.log2 rem) HK); try done; try lia.
    - destruct Hav as (i & j & Hj & Hi). exists i, j. split; [lia|done].
    - unfold PAGE_SIZE in *. lia. }
  intros _ s1 (i & B1 & md & C & k1 & Hi0 & HiN & Hdiv & HA & Hd & Hdo & HN & HM & Hz & Hrs & HMp & HK1 & Hk1 & Emd & EC).
  set (p := MkPaInfo (i * PAGE_SIZE) (upper u) (Z.log2 rem)) in *.
  assert (pi_idx p = i) as Ep by (unfold pi_idx, p; cbn; by rewrite Z.div_mul).
  assert (forall s2 B2 bl, placed s1 s2 B1 B2 bl (u + 2 ^ Z.log2 rem * PAGE_SIZE) (rem - 2 ^ Z.log2 rem)
      (mm_page_data_new tag (rk_device_mem cfg) (rk_permanent cfg)) (mmu_cfg_of cfg) ->
    placed s s2 B B2 (p :: bl) u rem (mm_page_data_new tag (rk_device_mem cfg) (rk_permanent cfg)) (mmu_cfg_of cfg)) as Hcons.
  { intros s2 B2 bl HP. eapply (placed_cons s s1 s2 B B1 B2 p bl); rewrite ?Ep; cbn [p pi_order pi_va pi_pa]; done. }
  assert (set_chain ch q C q = C) as Eq by apply set_chain_eq.
  assert (forall x, x <> q -> set_chain ch q C x = ch x) as Enq by (intros; by apply set_chain_ne).
  destruct (Z.eq_dec (rem - 2 ^ Z.log2 rem) 0) as [Er|Hne1].
  - rewrite Er in *. destruct fuel as [|fuel]; [lia|]. cbn [dynamic_loop]. apply wp_ret.
    exists [p], B1, (set_chain ch q C), md, k1. apply kmem_mono in HK1. pose proof HK1 as [_ _ W _ _].
    split; [apply Hcons; by apply placed_nil|]. rewrite Eq. split_and!; try done. lia.
  - assert (upper u + 2 ^ Z.log2 rem * PAGE_SIZE = upper (u + 2 ^ Z.log2 rem * PAGE_SIZE)) as Eup by (unfold upper; lia).
    rewrite wrap_small by (unfold u_range, upper, PAGE_SIZE in *; lia). rewrite Eup.
    eapply wp_mono.
    { apply (IH c s1 B1 T O U V1 q (d.1, md) V2 (set_chain ch q C) n k1); try done; try (unfold PAGE_SIZE in *; lia).
      - rewrite Nat2Z.inj_succ in Hc. apply Z.log2_lt_pow2 in Hc; [|done].
        pose proof (Z.log2_spec rem H0) as [_ Hlt]. rewrite Z.pow_succ_r in Hlt by lia.
        assert (2 ^ Z.log2 rem <= 2 ^ Z.of_nat c) by (apply Z.pow_le_mono_r; lia). lia.
      - intros Hpos. pose proof (log2_rest rem H0 Hpos). destruct HK as [(Rp & HT & _) _ _ _ _], HK1 as [(Rp1 & HT1 & HC1) _ _ _ _].
        rewrite HN in HT1. destruct (alloc_leaves (N (km_pages s)) (MAX_ORDER (km_pages s1)) i (Z.log2 rem) B B1) as (h & j & Hj & Hh); try done.
        + destruct Hav as (g & j & Hj & Hg). destruct (rep_blk _ _ _ _ _ Rp Hg) as [? _]. rewrite HM. lia.
        + exists h, j. split; [lia|done].
      - apply Z.divide_add_r; [done|apply page_multiple].
      - rewrite Eq, EC. intros p' [Hp'|Hp']%elem_of_app; [specialize (Hch p' Hp')|apply list_elem_of_singleton in Hp' as ->; cbn];
          unfold upper, PAGE_SIZE in *; lia. }
    intros _ s2 (bl & B2 & ch2 & md2 & k2 & HPl & HK2 & Hk2 & Emd2 & Ech & Ench). exists (p :: bl), B2, ch2, md2, k2.
    split; [by apply Hcons|]. split; [done|]. split; [lia|]. split; [by rewrite Emd2|].
    split; [by rewrite Ech, Eq, EC, <- app_assoc|]. intros x Hx. by rewrite Ench, Enq.
Qed.


(** ** Release *)

(** The blocks [bl] are held, with data that allows to release them. *)
Definition held (pg : pa_state) B bl : Prop :=
  forall p, p ∈ bl -> pi_pa p = pi_idx p * PAGE_SIZE /\ 0 <= pi_idx p < 2 ^ MAX_ORDER pg /\
    allocated B (pi_idx p) (pi_order p) /\ exists pd, data_at pg (pi_idx p) = Some pd /\ permanent pd = false.

Lemma free_blocks_spec bl : forall pg B pre,
  pa_inv pg B -> held pg B bl -> NoDup (pi_idx <$> bl) ->
  wp (mfor (seqZ (Z.of_nat (length pre)) (Z.of_nat (length bl))) (fun i =>
        let* p := deref ((pre ++ bl) !! Z.to_nat i) in page_free (pi_pa p)))
     (fun _ pg' => exists B', pa_inv pg' B' /\ gives B bl B' /\ frame pg pg') pg.
Proof.
  induction bl as [|p bl IH]; intros pg B pre HP Hh Hnd.
  - cbn [length seqZ]. apply wp_ret. exists B. split; [done|]. split; [constructor|done].
  - cbn [fmap list_fmap] in Hnd. apply NoDup_cons in Hnd as [Hnp Hnd].
    destruct (Hh p) as (Ep & Hi & Ha & pd & Hd & Hpm); [set_solver|].
    cbn [length]. rewrite seqZ_cons by lia. cbn [mfor]. apply wp_bind, wp_bind.
    eapply wp_deref; [rewrite Nat2Z.id; by apply list_lookup_middle|]. rewrite Ep.
    eapply wp_mono; [eapply page_free_spec; try done; lia|]. intros _ pg1 (B1 & HP1 & HF & Fr).
    replace (Z.succ (Z.of_nat (length pre))) with (Z.of_nat (length (pre ++ [p]))) by (rewrite length_app; cbn; lia).
    replace (Z.pred (Z.of_nat (S (length bl)))) with (Z.of_nat (length bl)) by lia.
    replace (pre ++ p :: bl) with ((pre ++ [p]) ++ bl) by (by rewrite <- app_assoc).
    eapply wp_mono; [apply (IH pg1 B1 (pre ++ [p])); [done| |done]|].
    + intros p' Hp'. destruct (Hh p') as (Ep' & Hi' & Ha' & pd' & Hd' & Hpm'); [set_solver|].
      rewrite (frame_mo _ _ Fr). split; [done|]. split; [done|]. split; [|exists pd'; by rewrite (frame_data _ _ _ Fr)].
      apply (f_alloc _ _ _ _ HF). split; [done|]. intros E. apply Hnp. rewrite <- E. by apply list_elem_of_fmap_2.
    + intros _ pg2 (B2 & HP2 & Hg & Fr2). exists B2. split; [done|]. split; [by econstructor|by transitivity pg1].
Qed.

Lemma dynamic_free_spec s B T O U V1 q d V2 ch n k u pgs bl :
  kmem_ok s B T O U (V1 ++ (q, d) :: V2) ch (S n) k ->
  d.1 = (u, pgs * PAGE_SIZE) -> vi_kmapped (mdt_info d.2) = false -> vi_permanent (mdt_info d.2) = false ->
  0 < pgs < 512 -> (3 * Z.to_nat pgs <= k)%nat -> (ch q).*2 = bl -> Z.of_nat (length bl) < 2 ^ 32 ->
  held (km_pages s) B bl -> NoDup (pi_idx <$> bl) ->
  (forall i, in_blocks bl i -> forall x, in_range (alias i) PAGE_SIZE x -> covers T.*2 x) ->
  (forall x, upper u <= x < upper u + pgs * PAGE_SIZE -> is_mapped m (tables (km_mmu s)) x) ->
  wp (raw_kfree reserve_malloc container_kfree m (upper u)) (fun _ s' => exists B' O' k',
    gives B bl B' /\ (k <= 3 * Z.to_nat pgs + k')%nat /\ kmem_ok s' B' T O' U (V1 ++ V2) ch n k' /\
    (forall x, covers O'.*2 x <-> covers O.*2 x \/ in_range u (pgs * PAGE_SIZE) x) /\
    frame (km_pages s) (km_pages s') /\ km_zeroed s' = km_zeroed s /\ km_reserve s' = km_reserve s /\
    kmaps m (km_mmu s) (km_mmu s') u (pgs * PAGE_SIZE) gone) s.
Proof.
  intros [HP HV HW HD HS] Ed Hkm Hpm Hpg Hk Ebl Hlen Hh Hnd Hal Hmp.
  assert (0 < pgs * PAGE_SIZE < 2 ^ 21) as Hb by (unfold PAGE_SIZE; lia).
  apply (vm_inv_swap reserve_malloc container_kfree Inv) in HV. cbn [other] in HV.
  pose proof (area_window reserve_malloc container_kfree Inv _ _ _ _ _ _ _ _ _ _ _ HV) as (_ & Hw & _ & He & _).
  assert (PAGE_SIZE | u) as Hdu.
  { destruct (wo_rpaged _ _ _ _ (vi_l _ _ _ _ _ _ _ _ _ HV) d.1) as [? _]; [apply (areas_elem _ q); set_solver|]. by rewrite Ed in *. }
  rewrite Ed in Hw, He. cbn [fst snd] in Hw, He.
  assert (length (ch q) = length bl) as El by (by rewrite <- Ebl, length_fmap).
  unfold raw_kfree. apply wp_bind, wp_on_vm. unfold vmalloc_get_token. apply wp_bind. unfold wp at 1.
  rewrite (find_rva_ok reserve_malloc container_kfree Inv _ _ _ _ _ _ _ _ _ _ _ _ HV) by (right; rewrite Ed; by rewrite upper_sext).
  apply wp_ret. cbn [fst km_pages km_vm km_mmu km_zeroed]. apply wp_bind, wp_on_vm. unfold wp at 1. cbn [km_vm].
  rewrite (vmalloc_mdt_ok Inv _ _ _ _ _ _ _ _ _ _ _ HV). cbn [km_pages km_mmu km_zeroed]. rewrite Hkm.
  apply wp_bind, wp_on_vm. unfold wp at 1. cbn [km_vm].
  rewrite (vmalloc_pa_count_ok reserve_malloc container_kfree Inv _ _ _ _ _ _ _ _ _ _ _ HV) by lia. cbn [km_pages km_mmu km_zeroed].
  apply wp_bind, wp_on_vm. unfold wp at 1. cbn [km_vm].
  rewrite (vmalloc_pa_info_ok reserve_malloc container_kfree Inv _ _ _ _ _ _ _ _ _ _ _ _ HV) by lia.
  rewrite Z.ltb_irrefl. cbn [km_pages km_mmu km_zeroed]. apply wp_bind, wp_ASSERT; [done|]. cbn [snd]. rewrite Ebl, El.
  apply wp_bind, wp_on_pages. cbn [km_vm km_pages km_mmu km_zeroed].
  eapply wp_mono; [by apply (free_blocks_spec bl (km_pages s) B [])|]. intros _ pg (B' & HP' & HG & Fr).
  apply wp_bind, wp_on_vm. cbn [km_vm km_pages km_mmu km_zeroed].
  eapply wp_mono; [by apply (vmalloc_token_vfree_spec reserve_malloc container_kfree Inv _ _ _ _ _ _ _ _ _ _ _ HV)|].
  intros r vm' (-> & _ & O' & HV' & HO'). cbn [fst snd]. rewrite Ed in *. cbn [fst snd] in *.
  apply (vm_inv_swap reserve_malloc container_kfree Inv) in HV'. cbn [other] in HV'.
  apply wp_bind, wp_on_mmu. cbn [km_vm km_pages km_mmu km_zeroed]. eapply wp_mono.
  { apply (unmap_kernel_spec m Hm DInv _ u (pgs * PAGE_SIZE) k); try done; try apply page_multiple; try lia.
    by rewrite Z.div_mul by done. }
  intros r t (-> & HMp & k' & Hk' & HD'). rewrite Z.div_mul in Hk' by done. apply wp_ASSERT; [done|].
  exists B', O', k'. split; [done|]. split; [done|]. split; [|split; [done|]; split; [done|]; split; [done|]; split; done].
  split; cbn [km_pages km_vm km_mmu]; try done; [apply HMp|].
  intros i [Hi|Hi]%(gives_free _ _ _ HG); [by apply HS|by apply Hal].
Qed.

End Dynamic.
