(* ===== verification/RawKmallocRefill.v ===== *)
(** * RawKmallocRefill: refilling the reserve behind raw_kmalloc

    [reserve_malloc_fill] run on the composed state: each empty slot of the
    reserve gets a page that [raw_kmalloc] takes at the fixed offset.  The
    pages taken are a list; [refilled] says what taking them does to the page
    allocator, to vmalloc and to the translations. *)

From Stdlib Require Import ZArith Lia.
From stdpp Require Import base tactics numbers gmap list.
From S2P Require Import Prelude KMath PageAllocator BuddyTiling PageAllocatorRep PageAllocatorSpec.
From S2P Require Import VmContainers VmContainersSpec Vmalloc VmLists VmallocSpec VmallocReserved VmallocBlocks VmallocInv VmallocOps VmallocBoot.
From S2P Require Import MmuDc Mmu MmuReach MmuSpec MmuUnmap Reserve ReserveCorrect RawKmalloc RawKmallocSpec RawKmallocDynamic.

Open Scope Z_scope.
Open Scope kmonad_scope.

Implicit Types (pg : list Z) (B : blocks) (r : page_reserve).

(** ** Single pages *)

(** The pages [pg], each a block of its own, are allocated. *)
Record pages_step pg B B' : Prop := {
  ps_nodup : NoDup pg;
  ps_was i : i ∈ pg -> free_page B i;
  ps_free x : free_page B' x <-> free_page B x /\ x ∉ pg;
  ps_alloc j o : allocated B' j o <-> (j ∈ pg /\ o = 0) \/ allocated B j o
}.

Lemma pages_step_nil B : pages_step [] B B.
Proof.
  split; [constructor|by intros i ?%elem_of_nil| |].
  - intros x. split; [intros ?; split; [done|apply not_elem_of_nil]|by intros [? _]].
  - intros j o. split; [by right|]. intros [[?%elem_of_nil _]|?]; done.
Qed.

Lemma in_block_page i x : in_block i 0 x <-> x = i.
Proof. unfold in_block. change (2 ^ 0) with 1. lia. Qed.

Lemma pages_step_one i B B' : alloc_step i 0 B B' -> pages_step [i] B B'.
Proof.
  intros [H1 H2 H3]. split.
  - apply NoDup_singleton.
  - intros j ->%list_elem_of_singleton. apply H1. by apply in_block_page.
  - intros x. rewrite H2, in_block_page, list_elem_of_singleton. done.
  - intros j o. rewrite H3, list_elem_of_singleton. done.
Qed.

Lemma pages_step_app pg1 pg2 B B1 B2 : pages_step pg1 B B1 -> pages_step pg2 B1 B2 -> pages_step (pg1 ++ pg2) B B2.
Proof.
  intros [N1 W1 F1 A1] [N2 W2 F2 A2]. split.
  - apply NoDup_app. split; [done|]. split; [|done]. intros x Hx Hx2. apply W2, F1 in Hx2 as [_ Hn]. done.
  - intros i [Hi|Hi]%elem_of_app; [by apply W1|]. by apply W2, F1 in Hi as [? _].
  - intros x. rewrite F2, F1, elem_of_app. tauto.
  - intros j o. rewrite A2, A1, elem_of_app. tauto.
Qed.

(** At least [c] pages are free. *)
Definition room B (c : nat) : Prop := exists F : gset Z, (forall x, x ∈ F -> free_page B x) /\ (c <= size F)%nat.

Lemma room_mono B c c' : (c' <= c)%nat -> room B c -> room B c'.
Proof. intros Hle (F & H1 & H2). exists F. split; [done|lia]. Qed.

Lemma room_alloc i o B B' c : 0 <= o -> alloc_step i o B B' -> room B (Z.to_nat (2 ^ o) + c) -> room B' c.
Proof.
  intros Ho HA (F & HF & Hc). exists (F ∖ list_to_set (seqZ i (2 ^ o))). split.
  - intros x [Hx Hn]%elem_of_difference. apply (a_free _ _ _ _ HA). split; [by apply HF|].
    intros Hb. apply Hn, elem_of_list_to_set, elem_of_seqZ. exact Hb.
  - assert (size (list_to_set (seqZ i (2 ^ o)) : gset Z) = Z.to_nat (2 ^ o)) as Es
      by (rewrite size_list_to_set by apply NoDup_seqZ; apply length_seqZ).
    pose proof (size_difference_alt F (list_to_set (seqZ i (2 ^ o)))).
    pose proof (subseteq_size (F ∩ list_to_set (seqZ i (2 ^ o))) (list_to_set (seqZ i (2 ^ o))) ltac:(set_solver)). lia.
Qed.

Lemma room_page B c : room B (S c) -> exists i j, 0 <= j /\ B !! i = Some (j, true).
Proof.
  intros (F & HF & Hc). destruct (set_choose_or_empty F) as [[x Hx]|E].
  - destruct (HF x Hx) as (i & j & Hi & Hb). exists i, j. split; [|done]. unfold in_block in Hb.
    destruct (Z.lt_ge_cases j 0) as [Hneg|]; [|done]. rewrite Z.pow_neg_r in Hb by done. lia.
  - assert (size F = 0%nat) as E0 by (apply size_empty_iff; exact E). lia.
Qed.

(** ** The slots *)

Definition empties (l : list Z) (w : Z) : list Z := filter (fun i => bitfield_get w i = false) l.
Definition empty_slots r : list Z := empties indices (reserved_pages r).

Definition page_va (i : Z) : Z := kpa_to_kva (i * PAGE_SIZE).
Definition page_pv (i : Z) : pv_ptr := pv_ptr_new (i * PAGE_SIZE) (page_va i).

Definition reserve_wf r : Prop :=
  is_u32 (reserved_pages r) /\ forall i, 0 <= i < 32 -> is_Some (reserved_addr r !! i).

(** The empty slots among [l] hold the pages [pg] in their order now, the
    others are as they were. *)
Record filled (l : list Z) r r' pg : Prop := {
  fd_wf : reserve_wf r';
  fd_slots : slots (reserved_pages r') = slots (reserved_pages r) ∪ list_to_set l;
  fd_new : (fun j => reserved_addr r' !! j) <$> empties l (reserved_pages r) = (fun i => Some (page_pv i)) <$> pg;
  fd_old j : j ∉ empties l (reserved_pages r) -> reserved_addr r' !! j = reserved_addr r !! j
}.

Lemma empties_in l w i : (forall j, j ∈ l -> 0 <= j < 32) -> i ∈ empties l w <-> i ∈ l /\ i ∉ slots w.
Proof.
  intros Hl. unfold empties. rewrite list_elem_of_filter, elem_of_slots. split.
  - intros [Hb Hi]. split; [done|]. pose proof (Hl i Hi). rewrite bitfield_get_bit in Hb by lia. rewrite Hb. by intros [_ ?].
  - intros [Hi Hn]. split; [|done]. pose proof (Hl i Hi). rewrite bitfield_get_bit by lia. destruct (Z.testbit w i); [|done]. by destruct Hn.
Qed.

Lemma full_empties l w : is_u32 w -> (forall j, j ∈ l -> 0 <= j < 32) -> is_full w = true ->
  empties l w = [] /\ slots w = slots w ∪ list_to_set l.
Proof.
  intros Hw Hl Hf. apply full_slots in Hf; [|done].
  assert (forall j, j ∈ l -> j ∈ slots w) as Hin by (intros j Hj; rewrite Hf; apply elem_of_list_to_set, indices_bound; by apply Hl).
  split.
  - destruct (empties l w) as [|i e] eqn:E; [done|]. assert (i ∈ empties l w) as Hi by (rewrite E; by left).
    apply empties_in in Hi as [Hi Hn]; [|done]. by destruct Hn; apply Hin.
  - apply set_eq. intros j. rewrite elem_of_union, elem_of_list_to_set. split; [by left|]. intros [?|?]; [done|by apply Hin].
Qed.

(** ** The composed state *)

Section Refill.
Context {A D : Type} (reserve_malloc : A -> res (Z * A)) (container_kfree : Z -> A -> res A).
Context (Inv : A -> gset Z -> nat -> Prop) `{PS : !PageSource reserve_malloc container_kfree Inv}.
Context (m : mmu_mapping D) (Hm : kernel_mapping m).
Context (DInv : D -> gset Z -> nat -> Prop) `{TA : !TableAllocator m DInv}.
Context (tag : Z).
Implicit Types (s : kmem A D) (T O : list (Z * area)).

Abbreviation rlist := (list (Z * (area * vmalloc_mdt))).
Abbreviation chains := (Z -> list (Z * vmalloc_pa_info)).
Abbreviation kmem_ok := (kmem_ok Inv m DInv).
Abbreviation Env := (kmem_env reserve_malloc container_kfree m tag).

(** The kernel addresses of a page *)
Definition on_page (i x : Z) : Prop := upper (alias i) <= x < upper (alias i) + PAGE_SIZE.
Definition in_pages pg (x : Z) : Prop := exists i, i ∈ pg /\ in_range (alias i) PAGE_SIZE x.

(** The reserved area of a page of the reserve *)
Definition page_entry (i : Z) : area * vmalloc_mdt :=
  ((alias i, PAGE_SIZE), area_mdt tag (vmalloc_cfg_from_raw_kmalloc_cfg RESERVE_CFG (i * PAGE_SIZE))).

(** Taking the pages [pg] at the fixed offset: they were free, their aliases
    are reserved and lead to them; nothing else changes. *)
Record refilled s s' B B' T T' (U U' V : rlist) (ch ch' : chains) pg : Prop := {
  rf_step : pages_step pg B B';
  rf_areas x : covers T'.*2 x <-> covers T.*2 x /\ ~ in_pages pg x;
  rf_nodes : exists new : rlist, U' ≡ₚ new ++ U /\ new.*2 = page_entry <$> pg;
  rf_chains q : q ∈ U.*1 ++ V.*1 -> ch' q = ch q;
  rf_same : N (km_pages s') = N (km_pages s) /\ MAX_ORDER (km_pages s') = MAX_ORDER (km_pages s);
  rf_bound i : i ∈ pg -> 0 <= i /\ alias i + PAGE_SIZE <= 2 ^ 48;
  rf_data i : i ∈ pg -> data_at (km_pages s') i = Some (mm_page_data_new tag false false);
  rf_others j : j ∉ pg -> data_at (km_pages s') j = data_at (km_pages s) j;
  rf_in i x : i ∈ pg -> on_page i x ->
    outcome m (tables (km_mmu s')) x (image (page_va i) (i * PAGE_SIZE) STD_MMU_KMEM_CFG x);
  rf_out x w : upper 0 <= x < 2 ^ 64 -> (forall i, i ∈ pg -> ~ on_page i x) ->
    outcome m (tables (km_mmu s)) x w -> outcome m (tables (km_mmu s')) x w
}.

Lemma on_page_same i j x : on_page i x -> on_page j x -> i = j.
Proof. unfold on_page, upper, alias, PAGE_SIZE. lia. Qed.

Lemma in_pages_app pg1 pg2 x : in_pages (pg1 ++ pg2) x <-> in_pages pg1 x \/ in_pages pg2 x.
Proof. unfold in_pages. setoid_rewrite elem_of_app. naive_solver. Qed.

Lemma refilled_nil s B T (U V : rlist) (ch : chains) : refilled s s B B T T U U V ch ch [].
Proof.
  split; try done; try (by intros i ?%elem_of_nil); try (by intros i x ?%elem_of_nil).
  - apply pages_step_nil.
  - intros x. split; [|by intros [? _]]. intros Hx. split; [done|]. by intros (i & ?%elem_of_nil & _).
  - by exists [].
Qed.

Lemma refilled_app s s1 s2 B B1 B2 T T1 T2 (U U1 U2 V : rlist) (ch ch1 ch2 : chains) pg1 pg2 :
  refilled s s1 B B1 T T1 U U1 V ch ch1 pg1 -> refilled s1 s2 B1 B2 T1 T2 U1 U2 V ch1 ch2 pg2 ->
  refilled s s2 B B2 T T2 U U2 V ch ch2 (pg1 ++ pg2).
Proof.
  intros [P1 A1 (w1 & E1 & F1) C1 [N1 M1] B1' D1 O1 I1 X1] [P2 A2 (w2 & E2 & F2) C2 [N2 M2] B2' D2 O2 I2 X2].
  pose proof (pages_step_app _ _ _ _ _ P1 P2) as P. pose proof (ps_nodup _ _ _ P) as (_ & Hd & _)%NoDup_app. split.
  - done.
  - intros x. rewrite A2, A1, in_pages_app. tauto.
  - exists (w1 ++ w2). split; [rewrite E2, E1, !app_assoc; f_equiv; apply Permutation_app_comm|]. by rewrite !fmap_app, F1, F2.
  - intros q Hq. rewrite C2; [by apply C1|]. rewrite E1, fmap_app, !elem_of_app. rewrite elem_of_app in Hq. tauto.
  - split; congruence.
  - intros i [Hi|Hi]%elem_of_app; auto.
  - intros i [Hi|Hi]%elem_of_app; [|by apply D2]. rewrite O2; [by apply D1|by apply Hd].
  - intros j Hj. rewrite elem_of_app in Hj. rewrite O2, O1 by tauto. done.
  - intros i x [Hi|Hi]%elem_of_app Hx; [|by apply I2]. apply X2.
    + destruct (B1' i Hi). unfold on_page, upper, alias, PAGE_SIZE in *. lia.
    + intros j Hj Hx2. apply (Hd i Hi). by rewrite (on_page_same i j x).
    + by apply I1.
  - intros x w Hx Hn Ho. apply X2; [done| |apply X1; [done| |done]]; intros i Hi; apply Hn; rewrite elem_of_app; tauto.
Qed.

(** The reserve and the log of zeroed pages do not matter. *)
Definition same_kmem s s' : Prop := km_pages s' = km_pages s /\ km_vm s' = km_vm s /\ km_mmu s' = km_mmu s.

Lemma kmem_ok_same s s' B T O (U V : rlist) (ch : chains) n k : same_kmem s s' -> kmem_ok s B T O U V ch n k -> kmem_ok s' B T O U V ch n k.
Proof. intros (E1 & E2 & E3) [H1 H2 H3 H4 H5]. split; rewrite ?E1, ?E2, ?E3; done. Qed.

Lemma refilled_same s s1 s2 B B' T T' (U U' V : rlist) (ch ch' : chains) pg :
  same_kmem s1 s2 -> refilled s s1 B B' T T' U U' V ch ch' pg -> refilled s s2 B B' T T' U U' V ch ch' pg.
Proof. intros (E1 & E2 & E3) [H1 H2 H3 H4 H5 H6 H7 H8 H9 H10]. split; rewrite ?E1, ?E3; done. Qed.

Lemma refilled_from s s0 s1 B B' T T' (U U' V : rlist) (ch ch' : chains) pg :
  same_kmem s s0 -> refilled s0 s1 B B' T T' U U' V ch ch' pg -> refilled s s1 B B' T T' U U' V ch ch' pg.
Proof.
  intros (E1 & E2 & E3) [H1 H2 H3 H4 H5 H6 H7 H8 H9 H10]. split; try done.
  - by rewrite <- E1.
  - intros j Hj. rewrite <- E1. by apply H8.
  - intros x w Hx Hn Ho. apply H10; [done|done|by rewrite E3].
Qed.

Lemma new_node s B T O (U1 : rlist) q d U2 (V : rlist) (ch : chains) n k :
  kmem_ok s B T O (U1 ++ (q, d) :: U2) V ch n k -> q ∉ (U1 ++ U2).*1 ++ V.*1.
Proof.
  intros HK. pose proof (ro_nd _ _ _ _ _ _ _ _ (vi_r _ _ _ _ _ _ _ _ _ (ko_vm _ _ _ _ _ _ _ _ _ _ _ _ HK))) as Hnd.
  assert ((U1 ++ (q, d) :: U2).*1 ++ V.*1 ≡ₚ q :: (U1 ++ U2).*1 ++ V.*1) as EP.
  { rewrite !fmap_app. cbn [fmap list_fmap fst]. rewrite <- !Permutation_middle. done. }
  change (NoDup ((U1 ++ (q, d) :: U2).*1 ++ V.*1)) in Hnd. rewrite EP in Hnd. by apply NoDup_cons in Hnd as [? _].
Qed.

(** One page *)
Lemma refill_page_spec s B T O (U V : rlist) (ch : chains) n k :
  kmem_ok s B T O U V ch (S (S n)) k -> (3 <= k)%nat -> room B 1 ->
  wp (refill_page reserve_malloc container_kfree m tag) (fun v s' => exists i B' T' U' ch' k',
    v = page_va i /\ 0 <= i * PAGE_SIZE < 2 ^ 47 /\ alloc_step i 0 B B' /\ kmem_ok s' B' T' O U' V ch' n k' /\ (k <= 3 + k')%nat /\
    refilled s s' B B' T T' U U' V ch ch' [i] /\ km_reserve s' = km_reserve s /\ km_zeroed s' = km_zeroed s) s.
Proof.
  intros HK Hk Hroom. pose proof HK as [(Rp & _) HV _ _ _]. destruct (rep_size _ _ Rp) as [Hmo _].
  unfold refill_page, raw_kmalloc_with. cbn [default RESERVE_CFG rk_assign_pa rk_kmap rk_fill_reserve rk_init_zeroed KMAP_CFG].
  apply wp_bind, wp_bind, wp_ASSERT; [done|]. apply wp_bind. change 1 with (2 ^ 0) at 1.
  eapply wp_mono.
  { apply (kmap_alloc_spec reserve_malloc container_kfree Inv m Hm DInv s B T O U V ch n k 0 tag RESERVE_CFG); try done; try lia.
    by apply (room_page _ 0). }
  intros r s' (i & q & B' & T' & U1 & U2 & k' & -> & HA & -> & Hk' & HK' & HT' & Ha).
  apply wp_bind, wp_ret, wp_bind, wp_ret, wp_ret, wp_ret. cbn [fst].
  change (2 ^ 0) with 1 in *. rewrite Z.mul_1_l in *. change (Z.to_nat 1) with 1%nat in Hk'.
  destruct Ha as [Hi Hs Hd Hdo HM Hz Hr]. change (2 ^ 0) with 1 in *. rewrite Z.mul_1_l in HM.
  destruct (block_window Inv m DInv _ _ _ _ _ _ _ _ _ i 0 HK) as [Hw1 Hw2]; [lia|by apply (a_was_free _ _ _ _ HA)|lia|].
  change (2 ^ 0) with 1 in Hw1, Hw2. rewrite Z.mul_1_l in Hw1, Hw2.
  assert (0 <= i * PAGE_SIZE < 2 ^ 47) as Hp by (unfold PAGE_SIZE in *; lia).
  exists i, B', T', (U1 ++ (q, page_entry i) :: U2), (set_chain ch q []), k'.
  split; [done|]. split; [done|]. split; [done|]. split; [exact HK'|]. split; [lia|]. split; [|done].
  split.
  - by apply pages_step_one.
  - intros x. rewrite HT'. assert (in_pages [i] x <-> in_range (alias i) PAGE_SIZE x) as ->; [|done].
    unfold in_pages. setoid_rewrite list_elem_of_singleton. naive_solver.
  - exists [(q, page_entry i)]. split; [by rewrite <- Permutation_middle|done].
  - intros q' Hq'. apply set_chain_ne. intros ->. by apply (new_node _ _ _ _ _ _ _ _ _ _ _ _ HK') in Hq'.
  - done.
  - intros j ->%list_elem_of_singleton. lia.
  - intros j ->%list_elem_of_singleton. exact Hd.
  - intros j Hj. apply Hdo. intros ->. apply Hj. by left.
  - intros j x ->%list_elem_of_singleton Hx. exact (kp_in _ _ _ _ _ _ HM x Hx).
  - intros x w Hx Hn Ho. apply (kp_out _ _ _ _ _ _ HM); [done| |done]. apply Hn. by left.
Qed.

(** The pages that the refill zeroes, last first *)
Definition zeroed_pages pg : list (Z * Z) := reverse ((fun i => (page_va i, PAGE_SIZE)) <$> pg).

(** Filling one empty slot, and what follows *)
Lemma fill_slot_kmem i s B T O (U V : rlist) (ch : chains) n k (next : M (kmem A D) bool) (Q : bool -> kmem A D -> Prop) :
  kmem_ok s B T O U V ch (S (S n)) k -> (3 <= k)%nat -> room B 1 -> reserve_wf (km_reserve s) -> 0 <= i < 32 ->
  (forall p s' B' T' (U' : rlist) (ch' : chains) k',
    0 <= p * PAGE_SIZE < 2 ^ 47 -> alloc_step p 0 B B' -> kmem_ok s' B' T' O U' V ch' n k' -> (k <= 3 + k')%nat ->
    refilled s s' B B' T T' U U' V ch ch' [p] ->
    km_reserve s' = MkReserve (<[i := page_pv p]> (reserved_addr (km_reserve s))) (bitfield_set_high 32 (reserved_pages (km_reserve s)) i) ->
    km_zeroed s' = (page_va p, PAGE_SIZE) :: km_zeroed s -> wp next Q s') ->
  wp (let* v := raw_kmalloc_page (ReserveEnv := Env) in
      put_addr (Env := Env) i (pv_ptr_new (kva_to_kpa v) v) ;;
      env_memzero64 (ReserveEnv := Env) v PAGE_SIZE ;;
      let* w := get_pages (Env := Env) in
      put_pages (Env := Env) (bitfield_set_high 32 w i) ;; next) Q s.
Proof.
  intros HK Hk Hroom [Hw Ha] Hi Hnext. apply wp_bind. eapply wp_mono; [by apply (refill_page_spec s B T O U V ch n k)|].
  intros v s1 (p & B' & T' & U' & ch' & k' & -> & Hp & HA & HK' & Hk' & HR & Er & Ez). apply wp_bind.
  apply put_addr_wp; [cbn [get_reserve kmem_env]; rewrite Er; by apply Ha|]. apply wp_bind. unfold env_memzero64. cbn [kmem_env]. unfold memzero64. apply wp_modify.
  apply wp_bind, wp_gets, wp_bind, put_pages_wp. cbn [get_reserve set_reserve kmem_env km_reserve km_pages km_vm km_mmu km_zeroed reserved_addr reserved_pages].
  assert (forall r z, same_kmem s1 (MkKmem (km_pages s1) (km_vm s1) (km_mmu s1) r z)) as Hsame by done.
  eapply (Hnext p); [done|done|eapply kmem_ok_same; [apply Hsame|exact HK']|exact Hk'|eapply refilled_same; [apply Hsame|exact HR]|..]; cbn [km_reserve km_zeroed].
  - rewrite Er. unfold page_pv, page_va. by rewrite (proj1 (kva_roundtrip (p * PAGE_SIZE) Hp)).
  - by rewrite Ez.
Qed.

Lemma empties_cons i l w : empties (i :: l) w = if bitfield_get w i then empties l w else i :: empties l w.
Proof. unfold empties. rewrite filter_cons. destruct (bitfield_get w i); [by rewrite decide_False|by rewrite decide_True]. Qed.

Lemma empties_ext l w w' : (forall j, j ∈ l -> bitfield_get w j = bitfield_get w' j) -> empties l w = empties l w'.
Proof. induction l as [|i l IH]; intros H; [done|]. rewrite !empties_cons, H, IH; [done|set_solver|set_solver]. Qed.

Lemma filled_cons i l r r1 r' p pg :
  reserve_wf r -> 0 <= i < 32 -> (forall j, j ∈ l -> 0 <= j < 32) -> i ∉ l -> i ∉ slots (reserved_pages r) ->
  r1 = MkReserve (<[i := page_pv p]> (reserved_addr r)) (bitfield_set_high 32 (reserved_pages r) i) ->
  filled l r1 r' pg -> filled (i :: l) r r' (p :: pg).
Proof.
  intros [Hw Ha] Hi Hl Hni Hns -> [W S N O]. cbn [reserved_addr reserved_pages] in *. rewrite set_slots in S by done.
  assert (bitfield_get (reserved_pages r) i = false) as Hb.
  { rewrite bitfield_get_bit by lia. destruct (Z.testbit _ i) eqn:E; [|done]. destruct Hns. by apply elem_of_slots. }
  assert (empties l (bitfield_set_high 32 (reserved_pages r) i) = empties l (reserved_pages r)) as Ee.
  { apply empties_ext. intros j Hj. pose proof (Hl j Hj). rewrite !bitfield_get_bit by lia.
    rewrite bitfield_set_bit by (done || lia). destruct (Z.eqb_spec j i) as [->|]; [done|]. apply orb_false_l. }
  rewrite Ee in N, O. split.
  - done.
  - rewrite S. set_solver.
  - rewrite empties_cons, Hb. cbn [fmap list_fmap]. f_equal; [|exact N]. rewrite O; [by rewrite lookup_insert_eq|].
    intros [Hbad _]%empties_in; done.
  - intros j. rewrite empties_cons, Hb, elem_of_cons. intros Hj. rewrite O by tauto. apply lookup_insert_ne. intros <-. tauto.
Qed.

(** What the refill has done when it took the pages [pg] for the slots [l]. *)
Record refill_done l s s' B B' T T' O (U U' V : rlist) (ch ch' : chains) pg n k' : Prop := {
  rd_ok : kmem_ok s' B' T' O U' V ch' n k';
  rd_refilled : refilled s s' B B' T T' U U' V ch ch' pg;
  rd_filled : filled l (km_reserve s) (km_reserve s') pg;
  rd_zeroed : km_zeroed s' = zeroed_pages pg ++ km_zeroed s
}.

Lemma filled_none l r : reserve_wf r -> (forall j, j ∈ l -> 0 <= j < 32) -> is_full (reserved_pages r) = true -> filled l r r [].
Proof.
  intros [Hw Ha] Hl Hf. destruct (full_empties l _ Hw Hl Hf) as [E1 E2]. split; [done|done|by rewrite E1|done].
Qed.

Lemma filled_skip i l r r' pg : i ∈ slots (reserved_pages r) -> bitfield_get (reserved_pages r) i = true ->
  filled l r r' pg -> filled (i :: l) r r' pg.
Proof.
  intros Hi Hb [W S N O]. split; rewrite ?empties_cons, ?Hb; try done. rewrite S. set_solver.
Qed.

Lemma fill_scan_kmem l : forall c s B T O (U V : rlist) (ch : chains) n k,
  kmem_ok s B T O U V ch (2 * c + n) k -> (3 * c <= k)%nat -> room B c -> reserve_wf (km_reserve s) ->
  NoDup l -> (forall j, j ∈ l -> 0 <= j < 32) -> (length (empties l (reserved_pages (km_reserve s))) <= c)%nat ->
  wp (fill_scan (Env := Env) l) (fun e s' => exists pg B' T' U' ch' k',
    refill_done l s s' B B' T T' O U U' V ch ch' pg n k' /\ (k <= 3 * length pg + k')%nat /\
    (e = true -> is_full (reserved_pages (km_reserve s')) = true)) s.
Proof.
  induction l as [|i l IH]; intros c s B T O U V ch n k HK Hk Hroom Hwf Hnd Hl Hc; cbn [fill_scan].
  { apply wp_ret. exists [], B, T, U, ch, k. split; [|split; [lia|done]].
    split; [by apply (kmem_mono reserve_malloc container_kfree Inv m DInv) in HK|apply refilled_nil| |done].
    split; [done|set_solver|done|done]. }
  apply NoDup_cons in Hnd as [Hni Hnd]. assert (0 <= i < 32) as Hi by (apply Hl; set_solver).
  assert (forall j, j ∈ l -> 0 <= j < 32) as Hl' by (intros j Hj; apply Hl; set_solver).
  apply wp_bind, wp_gets. change (get_reserve s) with (km_reserve s) in *.
  destruct (is_full (reserved_pages (km_reserve s))) eqn:Ef.
  { apply wp_ret. exists [], B, T, U, ch, k. split; [|split; [lia|done]].
    split; [by apply (kmem_mono reserve_malloc container_kfree Inv m DInv) in HK|apply refilled_nil|by apply filled_none|done]. }
  rewrite empties_cons in Hc. destruct (bitfield_get (reserved_pages (km_reserve s)) i) eqn:Eb.
  - eapply wp_mono; [by apply (IH c s B T O U V ch n k)|]. intros e s' (pg & B' & T' & U' & ch' & k' & [R1 R2 R3 R4] & Hk' & He).
    exists pg, B', T', U', ch', k'. split; [|done]. split; try done. apply filled_skip; [|done|done].
    apply elem_of_slots. split; [done|]. by rewrite bitfield_get_bit in Eb by lia.
  - assert (i ∉ slots (reserved_pages (km_reserve s))) as Hns.
    { rewrite elem_of_slots. rewrite bitfield_get_bit in Eb by lia. rewrite Eb. by intros [_ ?]. }
    cbn [length] in Hc. destruct c as [|c]; [lia|]. replace (2 * S c + n)%nat with (S (S (2 * c + n))) in HK by lia.
    apply (fill_slot_kmem i s B T O U V ch (2 * c + n) k); [done|lia|by apply (room_mono _ (S c)); [lia|]|done|done|].
    intros p s1 B1 T1 U1 ch1 k1 Hp HA HK1 Hk1 HR1 Er Ez. rewrite (empties_ext _ _ (reserved_pages (km_reserve s1))) in Hc.
    2:{ intros j Hj. pose proof (Hl' j Hj). rewrite Er. cbn [reserved_pages]. rewrite !bitfield_get_bit by lia. destruct Hwf as [Hw _].
        rewrite bitfield_set_bit by (done || lia). destruct (Z.eqb_spec j i) as [->|]; [done|]. done. }
    eapply wp_mono; [apply (IH c s1 B1 T1 O U1 V ch1 n k1); try done; try lia|].
    + apply (room_alloc p 0 B); [lia|done|]. by change (Z.to_nat (2 ^ 0) + c)%nat with (S c).
    + rewrite Er. destruct Hwf as [Hw Ha]. split; cbn [reserved_pages reserved_addr]; [by apply bitfield_set_range|].
      intros j Hj. destruct (decide (j = i)) as [->|]; [rewrite lookup_insert_eq; eauto|]. rewrite lookup_insert_ne by done. by apply Ha.
    + intros e s' (pg & B' & T' & U' & ch' & k' & [R1 R2 R3 R4] & Hk' & He). exists (p :: pg), B', T', U', ch', k'.
      split; [|split; [cbn [length]; lia|done]]. split; [done| | |].
      * by apply (refilled_app _ s1 _ _ B1 _ _ T1 _ _ U1 _ _ _ ch1 _ [p] pg).
      * eapply filled_cons; try done.
      * rewrite R4, Ez. unfold zeroed_pages. cbn [fmap list_fmap]. by rewrite reverse_cons, <- app_assoc.
Qed.

(** The whole refill *)
Lemma kmem_fill_spec c s B T O (U V : rlist) (ch : chains) n k :
  kmem_ok s B T O U V ch (2 * c + n) k -> (3 * c <= k)%nat -> room B c -> reserve_wf (km_reserve s) ->
  (length (empty_slots (km_reserve s)) <= c)%nat ->
  wp (kmem_fill reserve_malloc container_kfree m tag) (fun _ s' => exists pg B' T' U' ch' k',
    refill_done indices s s' B B' T T' O U U' V ch ch' pg n k' /\ (k <= 3 * length pg + k')%nat /\
    is_full (reserved_pages (km_reserve s')) = true) s.
Proof.
  intros HK Hk Hroom Hwf Hc. unfold kmem_fill, Reserve.reserve_malloc_fill. cbn [fill_loop].
  apply wp_bind, wp_gets. change (get_reserve s) with (km_reserve s). destruct (is_full (reserved_pages (km_reserve s))) eqn:Ef.
  { apply wp_ret. exists [], B, T, U, ch, k. split; [|split; [lia|done]].
    split; [by apply (kmem_mono reserve_malloc container_kfree Inv m DInv) in HK|apply refilled_nil| |done].
    apply filled_none; [done|intros j; apply indices_bound|done]. }
  apply wp_bind. eapply wp_mono; [apply (fill_scan_kmem indices c s B T O U V ch n k); try done; [apply NoDup_seqZ|intros j; apply indices_bound]|].
  intros e s' (pg & B' & T' & U' & ch' & k' & HD & Hk' & _). pose proof (rd_filled _ _ _ _ _ _ _ _ _ _ _ _ _ _ _ _ HD) as [[Hw' _] HS _ _].
  assert (is_full (reserved_pages (km_reserve s')) = true) as Hfull.
  { apply full_slots; [done|]. rewrite HS. fold all_slots. apply subseteq_union_1_L, slots_subset. }
  assert (exists pg B' T' U' ch' k', refill_done indices s s' B B' T T' O U U' V ch ch' pg n k' /\ (k <= 3 * length pg + k')%nat /\
    is_full (reserved_pages (km_reserve s')) = true) as Hfin by eauto 12.
  destruct e; [by apply wp_ret|]. apply wp_bind, wp_gets. change (get_reserve s') with (km_reserve s'). rewrite Hfull. by apply wp_ret.
Qed.

(** The refill that a configuration asks for *)
Definition to_fill (cfg : raw_kmalloc_cfg) r : list Z := if rk_fill_reserve cfg then empty_slots r else [].

Definition refill_of (cfg : raw_kmalloc_cfg) r r' pg : Prop :=
  if rk_fill_reserve cfg then filled indices r r' pg /\ is_full (reserved_pages r') = true else pg = [] /\ r' = r.

Lemma refill_of_length cfg r r' pg : refill_of cfg r r' pg -> length pg = length (to_fill cfg r).
Proof.
  unfold refill_of, to_fill. destruct (rk_fill_reserve cfg); [|by intros [-> _]]. intros [[_ _ Hn _] _].
  apply (f_equal length) in Hn. rewrite !length_fmap in Hn. done.
Qed.

Lemma refill_if_spec cfg s B T O (U V : rlist) (ch : chains) n k :
  let c := length (to_fill cfg (km_reserve s)) in
  kmem_ok s B T O U V ch (2 * c + n) k -> (3 * c <= k)%nat -> room B c -> reserve_wf (km_reserve s) ->
  wp (if rk_fill_reserve cfg then kmem_fill reserve_malloc container_kfree m tag else ret tt) (fun _ s' => exists pg B' T' U' ch' k',
    kmem_ok s' B' T' O U' V ch' n k' /\ refilled s s' B B' T T' U U' V ch ch' pg /\ refill_of cfg (km_reserve s) (km_reserve s') pg /\
    km_zeroed s' = zeroed_pages pg ++ km_zeroed s /\ (k <= 3 * c + k')%nat) s.
Proof.
  intros c HK Hk Hroom Hwf. pose proof (refill_of_length cfg (km_reserve s)) as Hlen. fold c in Hlen.
  unfold refill_of in *. unfold to_fill in c. destruct (rk_fill_reserve cfg).
  - eapply wp_mono; [apply (kmem_fill_spec c s B T O U V ch n k); done|].
    intros _ s' (pg & B' & T' & U' & ch' & k' & [R1 R2 R3 R4] & Hk' & Hf). exists pg, B', T', U', ch', k'.
    split_and!; try done. rewrite <- (Hlen (km_reserve s') pg) by done. lia.
  - apply wp_ret. exists [], B, T, U, ch, k. split_and!; try done; [apply refilled_nil].
Qed.
End Refill.
