(* ===== verification/RawKmallocCorrect.v ===== *)
(** * RawKmallocCorrect: theorems on raw_kmalloc and raw_kfree

    What an allocation gives (its pages, its addresses and the translations
    between them), that the refill of the reserve behind it takes single
    pages at the fixed offset and nothing else, and that a release undoes
    the allocation in all three components. *)

From Stdlib Require Import ZArith Lia.
From stdpp Require Import base tactics numbers gmap list.
From S2P Require Import Prelude KMath PageAllocator BuddyTiling PageAllocatorRep PageAllocatorSpec.
From S2P Require Import VmContainers VmContainersSpec Vmalloc VmLists VmallocSpec VmallocReserved VmallocBlocks VmallocInv VmallocOps VmallocBoot.
From S2P Require Import MmuDc Mmu MmuReach MmuSpec MmuUnmap Reserve RawKmalloc RawKmallocSpec RawKmallocDynamic RawKmallocRefill.
From S2P Require Import PageAllocatorBoot VmallocCorrect.

Open Scope Z_scope.
Open Scope kmonad_scope.

(** ** Blocks taken, a refill, the blocks given back *)

Lemma room_takes bl : forall u rem B B' c, tiles bl u rem -> takes B bl B' -> room B (Z.to_nat rem + c) -> room B' c.
Proof.
  induction bl as [|p bl IH]; intros u rem B B' c Ht Htk Hr; inversion Htk; subst.
  - cbn in Ht. subst rem. exact Hr.
  - destruct Ht as (H0 & Eo & _ & Ht). destruct (log2_block rem H0). eapply (IH _ _ _ _ c Ht); [done|].
    eapply room_alloc; [|done|]; [done|]. rewrite Eo. eapply room_mono; [|exact Hr]. lia.
Qed.

Lemma takes_one i o va B B' : 0 <= i -> 0 <= o -> alloc_step i o B B' -> takes B [MkPaInfo (i * PAGE_SIZE) va o] B'.
Proof.
  intros Hi Ho HA. assert (pi_idx (MkPaInfo (i * PAGE_SIZE) va o) = i) as E by (unfold pi_idx; cbn; by rewrite Z.div_mul).
  econstructor; rewrite ?E; [done|done|done|exact HA|constructor].
Qed.

Lemma gives_one i o va B B' : free_step i o B B' -> gives B [MkPaInfo (i * PAGE_SIZE) va o] B'.
Proof.
  intros HF. assert (pi_idx (MkPaInfo (i * PAGE_SIZE) va o) = i) as E by (unfold pi_idx; cbn; by rewrite Z.div_mul).
  econstructor; rewrite ?E; [exact HF|constructor].
Qed.

(** No page of the refill lies in the blocks. *)
Lemma refill_outside B bl B1 pg B2 x : takes B bl B1 -> pages_step pg B1 B2 -> x ∈ pg -> ~ in_blocks bl x.
Proof. intros Ht Hp Hx. by apply (ps_was _ _ _ Hp), (proj2 (takes_free _ _ _ Ht)) in Hx as [_ ?]. Qed.

(** What is left is the refill. *)
Lemma take_refill_give s B bl B1 pg B2 B3 :
  pa_inv s B -> takes B bl B1 -> pages_step pg B1 B2 -> gives B2 bl B3 -> pages_step pg B B3.
Proof.
  intros HP Ht Hp Hg. pose proof (takes_free _ _ _ Ht) as [F1 F2]. pose proof (fun x => refill_outside _ _ _ _ _ x Ht Hp) as Hout.
  destruct Hp as [P1 P2 P3 P4]. split; [done| | |].
  - intros i Hi. by apply P2, F2 in Hi as [? _].
  - intros x. rewrite (gives_free _ _ _ Hg), P3, F2. specialize (F1 x). specialize (Hout x). pose proof (in_blocks_dec bl x). tauto.
  - intros j o. rewrite (gives_alloc _ _ _ _ _ Hg), P4, (takes_alloc _ _ _ _ _ Ht). split; [naive_solver|]. intros Hj.
    split; [tauto|]. intros p Hpb <-. apply (takes_self _ _ _ _ Ht) in Hpb. destruct Hj as [[Hj _]|Hj]; [by apply (Hout _ Hj)|].
    destruct HP as (_ & HT & _). destruct (t_block _ _ HT _ _ _ Hj) as (Ho & _).
    apply (allocated_not_free _ _ _ _ (pi_idx p) HT Hj); [unfold in_block; lia|by apply F1].
Qed.

(** Without pages to refill the blocks are the same. *)
Lemma pages_step_none s s' B B' : pa_inv s B -> pa_inv s' B' -> N s' = N s -> MAX_ORDER s' = MAX_ORDER s -> pages_step [] B B' -> B' = B.
Proof.
  intros H1 H2 EN EM [_ _ F A]. symmetry. eapply pa_inv_canonical; [done..| |].
  - intros x. rewrite F. pose proof (not_elem_of_nil x). tauto.
  - intros j o. rewrite A. pose proof (not_elem_of_nil j). tauto.
Qed.

Section Claims.
Context {A D : Type} (reserve_malloc : A -> res (Z * A)) (container_kfree : Z -> A -> res A).
Context (Inv : A -> gset Z -> nat -> Prop) `{PS : !PageSource reserve_malloc container_kfree Inv}.
Context (m : mmu_mapping D) (Hm : kernel_mapping m).
Context (DInv : D -> gset Z -> nat -> Prop) `{TA : !TableAllocator m DInv}.
Context (rtag : Z).
Implicit Types (s : kmem A D) (T O : list (Z * area)) (B : blocks) (pg : list Z).

Abbreviation rlist := (list (Z * (area * vmalloc_mdt))).
Abbreviation chains := (Z -> list (Z * vmalloc_pa_info)).
Abbreviation kmem_ok := (kmem_ok Inv m DInv).
Abbreviation raw_kmalloc := (raw_kmalloc reserve_malloc container_kfree m rtag).
Abbreviation raw_kfree := (raw_kfree reserve_malloc container_kfree m).
Abbreviation refilled := (refilled m rtag).

(** the state after the zeroing that [cfg] asks for *)
Definition zeroed (cfg : raw_kmalloc_cfg) (va bytes : Z) s : kmem A D :=
  MkKmem (km_pages s) (km_vm s) (km_mmu s) (km_reserve s)
    (if rk_init_zeroed cfg then (va, bytes) :: km_zeroed s else km_zeroed s).

(** The addresses of an allocation and of the pages of a refill *)
Definition touched u size pg x : Prop := upper u <= x < upper u + size \/ exists i, i ∈ pg /\ on_page i x.

(** All other kernel addresses translate alike. *)
Definition walks_kept s s' u size pg : Prop :=
  forall x, upper 0 <= x < 2 ^ 64 -> ~ touched u size pg x ->
    exists r, mmu_walk_page (Some m) x (km_mmu s) = Ok (r, km_mmu s) /\
      mmu_walk_page (Some m) x (km_mmu s') = Ok (r, km_mmu s').

(** The pages of the refill can be used at their alias. *)
Definition pages_mapped s pg : Prop :=
  forall i x, i ∈ pg -> on_page i x ->
    mmu_walk_page (Some m) x (km_mmu s) = Ok (MMU_WALK_PAGE_MAPPED STD_MMU_KMEM_CFG (i * PAGE_SIZE + (x - page_va i)), km_mmu s).

Lemma raw_kmalloc_split pgs tag cfg (Q : Z * raw_kmalloc_info -> kmem A D -> Prop) s :
  let c := default DYNAMIC_CFG cfg in
  rk_assign_pa c = true -> 0 <= pgs * PAGE_SIZE < 2 ^ 64 ->
  wp (if rk_kmap c then raw_kmalloc_kmap reserve_malloc container_kfree m pgs tag c
      else raw_kmalloc_dynamic reserve_malloc container_kfree m pgs tag c)
     (fun r s1 => wp (if rk_fill_reserve c then kmem_fill reserve_malloc container_kfree m rtag else ret tt)
        (fun _ s2 => Q r (zeroed c r.1 (pgs * PAGE_SIZE) s2)) s1) s ->
  wp (raw_kmalloc pgs tag cfg) Q s.
Proof.
  intros c Has Hb Hw. unfold RawKmalloc.raw_kmalloc, raw_kmalloc_with. fold c. apply wp_bind, wp_ASSERT; [done|].
  apply wp_bind. eapply wp_mono; [exact Hw|]. intros r s1 H1. apply wp_bind. eapply wp_mono; [exact H1|].
  intros [] s2 HQ. rewrite wrap_small by done. apply wp_bind. unfold zeroed in HQ. destruct (rk_init_zeroed c).
  - unfold memzero64. by apply wp_modify, wp_ret.
  - destruct s2. by apply wp_ret, wp_ret.
Qed.

Lemma kmem_ok_zeroed s B T O (U V : rlist) (ch : chains) n k cfg va bytes :
  kmem_ok s B T O U V ch n k -> kmem_ok (zeroed cfg va bytes s) B T O U V ch n k.
Proof. by intros [H1 H2 H3 H4 H5]. Qed.

(** The translations after an allocation and a refill, and after the release *)
Section Walks.
Context {s0 s1 s2 : kmem A D} {u size : Z} {f : Z -> mmu_walk_result} {B1 B2 : blocks} {T1 T2 : list (Z * area)}
  {U1 U2 V : rlist} {ch1 ch2 : chains} {pg : list Z}.
Context (W0 : wf m (tables (km_mmu s0))) (W2 : wf m (tables (km_mmu s2))).
Context (HM : kmaps m (km_mmu s0) (km_mmu s1) u size f) (HR : refilled s1 s2 B1 B2 T1 T2 U1 U2 V ch1 ch2 pg).
Context (Hu : 0 <= u) (He : u + size <= 2 ^ 48).
Context (Hap : forall i x, i ∈ pg -> on_page i x -> ~ (upper u <= x < upper u + size)).

Lemma touched_in x : upper u <= x < upper u + size -> outcome m (tables (km_mmu s2)) x (f x).
Proof.
  intros Hx. apply (rf_out _ _ _ _ _ _ _ _ _ _ _ _ _ _ HR); [unfold upper in *; lia| |by apply (kp_in _ _ _ _ _ _ HM)].
  intros i Hi Hp. by apply (Hap i x).
Qed.

Lemma touched_out x r : upper 0 <= x < 2 ^ 64 -> ~ touched u size pg x ->
  outcome m (tables (km_mmu s0)) x r -> outcome m (tables (km_mmu s2)) x r.
Proof.
  unfold touched. intros Hx Hn Ho. apply (rf_out _ _ _ _ _ _ _ _ _ _ _ _ _ _ HR); [done|intros i Hi Hp; apply Hn; right; by exists i|].
  apply (kp_out _ _ _ _ _ _ HM); [done| |done]. intros Hb. apply Hn. by left.
Qed.

Lemma refill_walks : (forall x, upper u <= x < upper u + size -> mmu_walk_page (Some m) x (km_mmu s2) = Ok (f x, km_mmu s2)) /\
  pages_mapped s2 pg /\ walks_kept s0 s2 u size pg.
Proof.
  split; [|split].
  - intros x Hx. apply walk_outcome; [done|by apply touched_in].
  - intros i x Hi Hx. apply walk_outcome; [done|by apply (rf_in _ _ _ _ _ _ _ _ _ _ _ _ _ _ HR)].
  - intros x Hx Hn. destruct (outcome_total m (tables (km_mmu s0)) x W0) as [r Hr]. exists r.
    split; [by apply walk_outcome|]. apply walk_outcome; [done|by apply touched_out].
Qed.

Lemma release_walks s3 g : kmaps m (km_mmu s2) (km_mmu s3) u size g ->
  (forall x, upper u <= x < upper u + size -> mmu_walk_page (Some m) x (km_mmu s3) = Ok (g x, km_mmu s3)) /\
  pages_mapped s3 pg /\ walks_kept s0 s3 u size pg.
Proof.
  intros [W3 I3 O3]. split; [|split].
  - intros x Hx. apply walk_outcome; [done|by apply I3].
  - intros i x Hi Hx. apply walk_outcome; [done|]. apply O3; [|by apply (Hap i)|by apply (rf_in _ _ _ _ _ _ _ _ _ _ _ _ _ _ HR)].
    destruct (rf_bound _ _ _ _ _ _ _ _ _ _ _ _ _ _ HR i Hi). unfold on_page, upper, alias, PAGE_SIZE in *. lia.
  - intros x Hx Hn. destruct (outcome_total m (tables (km_mmu s0)) x W0) as [r Hr]. exists r.
    split; [by apply walk_outcome|]. apply walk_outcome; [done|]. apply O3; [done|intros ?; apply Hn; by left|by apply touched_out].
Qed.
End Walks.

Lemma on_page_alias i x : on_page i x <-> in_range (alias i) PAGE_SIZE (x - upper 0).
Proof. unfold on_page, in_range, upper. lia. Qed.

(** Without pages to refill the blocks and the free areas are the same. *)
Lemma nothing_refilled s s' B B' T T' O O' (U U' V V' : rlist) (ch ch' : chains) n n' k k' pg :
  kmem_ok s B T O U V ch n k -> kmem_ok s' B' T' O' U' V' ch' n' k' ->
  N (km_pages s') = N (km_pages s) -> MAX_ORDER (km_pages s') = MAX_ORDER (km_pages s) ->
  pages_step pg B B' -> (forall x, covers T'.*2 x <-> covers T.*2 x /\ ~ in_pages pg x) ->
  pg = [] -> B' = B /\ T'.*2 = T.*2.
Proof.
  intros HK HK' EN EM Hst HT ->. split.
  - eapply (pages_step_none (km_pages s) (km_pages s')); [apply HK|apply HK'|done..].
  - apply (spaced_canonical (-1)); [apply (vi_l _ _ _ _ _ _ _ _ _ (ko_vm _ _ _ _ _ _ _ _ _ _ _ _ HK'))|apply (vi_l _ _ _ _ _ _ _ _ _ (ko_vm _ _ _ _ _ _ _ _ _ _ _ _ HK))|].
    intros x. rewrite HT. assert (~ in_pages [] x) by (by intros (j & ?%elem_of_nil & _)). tauto.
Qed.

(** ** Blocks at the fixed offset *)

(** The refill takes no page of the block. *)
Lemma block_apart B B1 B' i o pg j x :
  alloc_step i o B B1 -> pages_step pg B1 B' -> j ∈ pg -> on_page j x ->
  ~ (upper (alias i) <= x < upper (alias i) + 2 ^ o * PAGE_SIZE).
Proof.
  intros HA HP Hj Hx Hb. apply on_page_alias in Hx.
  assert (in_range (alias i) (2 ^ o * PAGE_SIZE) (x - upper 0)) as (j' & Hj' & Hx')%block_alias by (unfold in_range, upper in *; lia).
  rewrite (alias_same _ _ _ Hx Hx') in Hj. by apply (ps_was _ _ _ HP), (a_free _ _ _ _ HA) in Hj as [_ ?].
Qed.

Lemma raw_kmalloc_kmap_spec s B T O (U V : rlist) (ch : chains) n k o tag cfg c :
  c = length (to_fill cfg (km_reserve s)) -> kmem_ok s B T O U V ch (S (S (2 * c + n))) k ->
  rk_kmap cfg = true -> rk_assign_pa cfg = true -> 0 <= o <= 8 -> o <= MAX_ORDER (km_pages s) ->
  (3 * (Z.to_nat (2 ^ o) + c) <= k)%nat -> (exists i j, o <= j /\ B !! i = Some (j, true)) ->
  room B (Z.to_nat (2 ^ o) + c) -> reserve_wf (km_reserve s) ->
  wp (raw_kmalloc (2 ^ o) tag (Some cfg)) (fun r s' => exists s1 s2 i q U1 U2 B1 T1 pg B' T' U' ch' k',
    let p := i * PAGE_SIZE in let va := kpa_to_kva p in let bytes := 2 ^ o * PAGE_SIZE in
    let U0 := U1 ++ (q, ((alias i, bytes), area_mdt tag (vmalloc_cfg_from_raw_kmalloc_cfg cfg p))) :: U2 in
    r = (va, RAW_KMALLOC_KMAP (mmu_cfg_of cfg) (pv_ptr_new p va) o) /\ s' = zeroed cfg va bytes s2 /\
    va = upper (alias i) /\ alias i + bytes <= 2 ^ 48 /\ alloc_step i o B B1 /\ U = U1 ++ U2 /\ q ∉ U.*1 ++ V.*1 /\
    kmapped_at m s s1 tag cfg i o /\ (forall x, covers T1.*2 x <-> covers T.*2 x /\ ~ in_range (alias i) bytes x) /\
    refilled s1 s2 B1 B' T1 T' U0 U' V (set_chain ch q []) ch' pg /\ kmem_ok s2 B' T' O U' V ch' n k' /\
    refill_of cfg (km_reserve s) (km_reserve s2) pg /\ km_zeroed s2 = zeroed_pages pg ++ km_zeroed s /\
    (k <= 3 * (Z.to_nat (2 ^ o) + c) + k')%nat) s.
Proof.
  intros Hc HK Hkmap Has Ho Hmo Hk Hav Hroom Hres. assert (2 ^ o <= 2 ^ 8) by (apply Z.pow_le_mono_r; lia).
  apply raw_kmalloc_split; [done|unfold PAGE_SIZE; lia|]. change (default DYNAMIC_CFG (Some cfg)) with cfg. rewrite Hkmap.
  eapply wp_mono; [apply (kmap_alloc_spec reserve_malloc container_kfree Inv m Hm DInv _ B T O U V ch (2 * c + n) k); try done; lia|].
  intros r s1 (i & q & B1 & T1 & U1 & U2 & k1 & -> & HA & -> & Hk1 & HK1 & HT1 & Ha). cbn [fst].
  pose proof (ka_reserve _ _ _ _ _ _ _ Ha) as Er. pose proof (ka_idx _ _ _ _ _ _ _ Ha) as (Hi0 & _).
  destruct (block_window Inv m DInv _ _ _ _ _ _ _ _ _ i o HK) as [Hw1 Hw2]; [lia|by apply (a_was_free _ _ _ _ HA)|done|].
  eapply wp_mono.
  { eapply (refill_if_spec reserve_malloc container_kfree Inv m Hm DInv rtag cfg s1 B1 T1 O _ V _ n k1); rewrite Er, <- ?Hc; [exact HK1|lia| |done].
    by eapply room_alloc; [|exact HA|]; [lia|]. }
  intros _ s2 (pg & B' & T' & U' & ch' & k' & HK2 & HR & Hof & Hz & Hk2). rewrite Er, <- Hc in *.
  exists s1, s2, i, q, U1, U2, B1, T1, pg, B', T', U', ch', k'. cbv zeta. rewrite (ka_zeroed _ _ _ _ _ _ _ Ha) in Hz.
  split_and!; try done; [|by apply (new_node Inv m DInv _ _ _ _ _ _ _ _ _ _ _ _ HK1)|lia].
  apply kva_upper. unfold PAGE_SIZE in *. lia.
Qed.

(** C13: [raw_kmalloc] of [2 ^ o] pages, [o <= 8], at the fixed offset, when the
    page allocator has a block of that size and, with [c] slots of the
    reserve to refill, [c] more pages, and vmalloc and the MMU can take the
    pages they need: the call returns the kernel alias of a block that was
    free and now is allocated; the alias, free in vmalloc before, is reserved
    for it and every address of it translates to the block with the
    configuration of kernel or device memory.  If the configuration asks for
    it the reserve is full afterwards: each slot that was empty holds one of
    the pages [pg], which were free, are blocks of one page now and are mapped
    at their aliases, reserved too.  All other kernel addresses translate as
    before; the pages of the refill are zeroed, and the block when asked for.
    All invariants hold again, also that the alias of every free page is
    free. *)
Theorem raw_kmalloc_kmap_ok s B T O (U V : rlist) (ch : chains) n k o tag cfg c
    (Hc : c = length (to_fill cfg (km_reserve s)))
    (HK : kmem_ok s B T O U V ch (S (S (2 * c + n))) k) (Hkmap : rk_kmap cfg = true) (Has : rk_assign_pa cfg = true)
    (Ho : 0 <= o <= 8) (Hmo : o <= MAX_ORDER (km_pages s))
    (Hk : (3 * (Z.to_nat (2 ^ o) + c) <= k)%nat) (Hav : exists i j, o <= j /\ B !! i = Some (j, true))
    (Hroom : room B (Z.to_nat (2 ^ o) + c)) (Hres : reserve_wf (km_reserve s)) :
  wp (raw_kmalloc (2 ^ o) tag (Some cfg)) (fun r s' => exists i pg q new B1 B' T' U' ch' k',
    let p := i * PAGE_SIZE in let va := kpa_to_kva p in let bytes := 2 ^ o * PAGE_SIZE in
    r = (va, RAW_KMALLOC_KMAP (mmu_cfg_of cfg) (pv_ptr_new p va) o) /\
    alloc_step i o B B1 /\ pages_step pg B1 B' /\ refill_of cfg (km_reserve s) (km_reserve s') pg /\
    kmem_ok s' B' T' O U' V ch' n k' /\
    U' ≡ₚ new ++ (q, ((alias i, bytes), area_mdt tag (vmalloc_cfg_from_raw_kmalloc_cfg cfg p))) :: U /\
    new.*2 = page_entry rtag <$> pg /\ ch' q = [] /\ (forall x, x ∈ U.*1 ++ V.*1 -> ch' x = ch x) /\
    (forall x, covers T'.*2 x <-> covers T.*2 x /\ ~ in_range (alias i) bytes x /\ ~ in_pages pg x) /\
    (forall x, va <= x < va + bytes -> mmu_walk_page (Some m) x (km_mmu s') =
       Ok (MMU_WALK_PAGE_MAPPED (mmu_cfg_of cfg) (p + (x - va)), km_mmu s')) /\
    pages_mapped s' pg /\ walks_kept s s' (alias i) bytes pg /\
    km_zeroed s' = (if rk_init_zeroed cfg then [(va, bytes)] else []) ++ zeroed_pages pg ++ km_zeroed s) s.
Proof.
  eapply wp_mono; [by apply (raw_kmalloc_kmap_spec s B T O U V ch n k o tag cfg c)|].
  intros r s' (s1 & s2 & i & q & U1 & U2 & B1 & T1 & pg & B' & T' & U' & ch' & k' & -> & -> & Eva & He & HA & -> & Hq & Ha & HT1 & HR & HK2 & Hof & Hz & _).
  pose proof (ka_idx _ _ _ _ _ _ _ Ha) as (Hi0 & _). pose proof HR as [Hp HT2 (new & EU & En) Hch _ _ _ _ _ _].
  destruct (refill_walks (ko_wf _ _ _ _ _ _ _ _ _ _ _ _ HK) (ko_wf _ _ _ _ _ _ _ _ _ _ _ _ HK2) (ka_mapped _ _ _ _ _ _ _ Ha) HR) as (W1 & W2 & W3);
    [unfold alias, PAGE_SIZE; lia|done|intros j x; by eapply block_apart|].
  exists i, pg, q, new, B1, B', T', U', ch', k'. cbv zeta. split_and!; try done.
  - by apply kmem_ok_zeroed.
  - by rewrite EU, <- Permutation_middle.
  - rewrite Hch; [apply set_chain_eq|]. rewrite fmap_app, !elem_of_app. set_solver.
  - intros x Hx. rewrite Hch; [apply set_chain_ne; by intros ->|]. rewrite fmap_app, !elem_of_app in *. cbn [fmap list_fmap]. rewrite elem_of_cons. tauto.
  - intros x. rewrite HT2, HT1. tauto.
  - intros x Hx. rewrite Eva in Hx. exact (W1 x Hx).
  - cbn. rewrite Hz. by destruct (rk_init_zeroed cfg).
Qed.

(** C14: for a block that is not permanent, of at most 256 pages: when
    [raw_kmalloc] at the fixed offset gives a block below the largest power
    of two of pages, [raw_kfree] of what it returned undoes the allocation
    in all three components.  What is left is the refill of the reserve: the
    blocks of the page allocator and the free areas of vmalloc are as before
    less the pages [pg] of the refill, which are mapped at their aliases, and
    exactly as before when no slot was empty; the addresses of the block
    translate to nothing any more and all other kernel addresses translate as
    before the allocation. *)
Theorem raw_kmalloc_kfree_kmap_roundtrip s B T O (U V : rlist) (ch : chains) n k o tag cfg c
    (Hc : c = length (to_fill cfg (km_reserve s)))
    (HK : kmem_ok s B T O U V ch (S (S (2 * c + S n))) k) (Hkmap : rk_kmap cfg = true) (Has : rk_assign_pa cfg = true)
    (Hperm : rk_permanent cfg = false) (Ho : 0 <= o <= 8) (Hmo : o <= MAX_ORDER (km_pages s))
    (Hk : (3 * (2 * Z.to_nat (2 ^ o) + c) <= k)%nat) (Hav : exists i j, o <= j /\ B !! i = Some (j, true))
    (Hroom : room B (Z.to_nat (2 ^ o) + c)) (Hres : reserve_wf (km_reserve s)) :
  wp (raw_kmalloc (2 ^ o) tag (Some cfg)) (fun r s1 => exists i B1,
    r.1 = kpa_to_kva (i * PAGE_SIZE) /\ alloc_step i o B B1 /\
    (i < 2 ^ MAX_ORDER (km_pages s) ->
     wp (raw_kfree r.1) (fun _ s' => exists pg new B' T' U' ch' k',
       refill_of cfg (km_reserve s) (km_reserve s') pg /\ pages_step pg B B' /\
       kmem_ok s' B' T' O U' V ch' n k' /\ U' ≡ₚ new ++ U /\ new.*2 = page_entry rtag <$> pg /\
       (forall x, x ∈ U.*1 ++ V.*1 -> ch' x = ch x) /\
       (forall x, covers T'.*2 x <-> covers T.*2 x /\ ~ in_pages pg x) /\
       (pg = [] -> B' = B /\ T'.*2 = T.*2) /\
       (forall x, upper (alias i) <= x < upper (alias i) + 2 ^ o * PAGE_SIZE ->
          mmu_walk_page (Some m) x (km_mmu s') = Ok (MMU_WALK_PAGE_UNMAPPED, km_mmu s')) /\
       pages_mapped s' pg /\ walks_kept s s' (alias i) (2 ^ o * PAGE_SIZE) pg) s1)) s.
Proof.
  eapply wp_mono; [apply (raw_kmalloc_kmap_spec s B T O U V ch (S n) k o tag cfg c); done || lia|].
  intros r s' (s1 & s2 & i & q & U1 & U2 & B1 & T1 & pg & B2 & T2 & U' & ch' & k2 & -> & -> & Eva & He & HA & -> & Hq & Ha & HT1 & HR & HK2 & Hof & _ & Hk2).
  exists i, B1. cbn [fst]. split; [done|]. split; [done|]. intros Hlow. set (s3 := zeroed _ _ _ _). rewrite Eva.
  assert (kmem_ok s3 B2 T2 O U' V ch' (S n) k2) as HK3 by by apply kmem_ok_zeroed.
  pose proof HR as [Hp HT2 (new & EU & En) Hch [HN2 HM2] _ _ Hdo _ _]. destruct Ha as [(Hi0 & _) [HN1 HM1] Hd _ HMp _ _].
  pose proof (fun j x => block_apart B B1 B2 i o pg j x HA Hp) as Hap.
  set (d := (_, area_mdt _ _)) in *. assert ((q, d) ∈ U') as (X & Y & ->)%list_elem_of_split by (rewrite EU; set_solver).
  assert (in_block i o i) as Hii by (unfold in_block; lia).
  assert (i ∉ pg) as Hipg by (intros [_ Hn]%(ps_was _ _ _ Hp)%(a_free _ _ _ _ HA); done).
  assert (X ++ Y ≡ₚ new ++ U1 ++ U2) as EXY.
  { apply (Permutation_cons_inv (a := (q, d))). rewrite (Permutation_middle X Y), EU, (Permutation_middle new), (Permutation_middle U1 U2). done. }
  eapply wp_mono.
  { eapply (kmap_free_spec reserve_malloc container_kfree Inv m Hm DInv _ _ _ _ _ _ _ _ _ _ _ _ i o _ HK3);
      cbn [d fst snd area_mdt mdt_info vi_kmapped vi_pa_assigned vi_permanent vmalloc_cfg_from_raw_kmalloc_cfg
           vc_use_kmap vc_assign_pa vc_permanent]; try done; try lia.
    - change (km_pages s3) with (km_pages s2). rewrite HM2, HM1. lia.
    - apply (ps_alloc _ _ _ Hp). right. apply (a_alloc _ _ _ _ HA). by left.
    - change (km_pages s3) with (km_pages s2). by rewrite Hdo.
    - done.
    - intros x Hx. eexists _, _. apply (touched_in HMp HR); [unfold alias, PAGE_SIZE; lia|done|done|done]. }
  intros _ s4 (B' & T' & k' & HF & Hk' & HK4 & HT' & Fr & _ & Er & HMg). change (km_reserve s3) with (km_reserve s2) in Er.
  assert (pages_step pg B B') as Hst.
  { eapply (take_refill_give (km_pages s) B _ B1 pg B2 B'); [apply HK|by eapply (takes_one i o 0); [|lia|]|done|by apply gives_one]. }
  destruct (release_walks (ko_wf _ _ _ _ _ _ _ _ _ _ _ _ HK) HMp HR Hap s4 gone HMg) as (W1 & W2 & W3).
  assert (forall x, covers T'.*2 x <-> covers T.*2 x /\ ~ in_pages pg x) as HTT.
  { intros x. rewrite HT', HT2, HT1. assert (in_range (alias i) (2 ^ o * PAGE_SIZE) x -> covers T.*2 x /\ ~ in_pages pg x) as Hb.
    { intros Hx. split.
      - apply block_alias in Hx as (j & Hj & Hx). apply (ko_sync _ _ _ _ _ _ _ _ _ _ _ _ HK j); [by apply (a_was_free _ _ _ _ HA)|done].
      - intros (j & Hj & Hjx). apply (Hap j (x + upper 0) Hj); [|unfold in_range, upper in *; lia].
        apply on_page_alias. by replace (x + upper 0 - upper 0) with x by lia. }
    assert (in_range (alias i) (2 ^ o * PAGE_SIZE) x \/ ~ in_range (alias i) (2 ^ o * PAGE_SIZE) x) by (unfold in_range; lia). tauto. }
  exists pg, new, B', T', (X ++ Y), ch', k'. rewrite Er. split_and!; try done.
  - intros x Hx. rewrite Hch; [apply set_chain_ne; by intros ->|]. rewrite fmap_app, !elem_of_app in *. cbn [fmap list_fmap]. rewrite elem_of_cons. tauto.
  - eapply (nothing_refilled s s4); try done; rewrite ?(frame_N _ _ Fr), ?(frame_mo _ _ Fr); change (km_pages s3) with (km_pages s2); congruence.
Qed.

(** ** Allocations out of several blocks *)

Lemma dynamic_alloc_spec s B T O (U V : rlist) (ch : chains) n k pgs tag cfg :
  kmem_ok s B T O U V ch (S (S (9 + n))) k -> rk_kmap cfg = false -> rk_assign_pa cfg = true ->
  0 < pgs < 512 -> (3 * Z.to_nat pgs <= k)%nat -> fits_free O (pgs * PAGE_SIZE) ->
  (exists i j, pgs < 2 ^ j /\ B !! i = Some (j, true)) ->
  wp (raw_kmalloc_dynamic reserve_malloc container_kfree m pgs tag cfg) (fun r s' => exists u bl B' O' V1 V2 q ch' md k',
    r = (upper u, RAW_KMALLOC_DYNAMIC (mmu_cfg_of cfg) q) /\ V = V1 ++ V2 /\
    2 ^ 47 <= u /\ u + pgs * PAGE_SIZE <= 2 ^ 48 /\
    (forall x, in_range u (pgs * PAGE_SIZE) x -> covers O.*2 x) /\
    placed m s s' B B' bl u pgs (mm_page_data_new tag (rk_device_mem cfg) (rk_permanent cfg)) (mmu_cfg_of cfg) /\
    (k <= 3 * Z.to_nat pgs + k')%nat /\
    kmem_ok s' B' T O' U (V1 ++ (q, ((u, pgs * PAGE_SIZE), md)) :: V2) ch' n k' /\
    mdt_info md = mdt_info (area_mdt tag (vmalloc_cfg_from_raw_kmalloc_cfg cfg 0)) /\ (ch' q).*2 = bl /\
    (forall x, x <> q -> ch' x = ch x) /\
    (forall x, covers O'.*2 x <-> covers O.*2 x /\ ~ in_range u (pgs * PAGE_SIZE) x)) s.
Proof.
  intros HK Hkm Has Hpg Hk Hfit Hav. pose proof HK as [HP HV HW HD HS].
  assert (0 < pgs * PAGE_SIZE < 2 ^ 21) as Hb by (unfold PAGE_SIZE; lia).
  apply (vm_inv_swap reserve_malloc container_kfree Inv) in HV. cbn [other] in HV.
  unfold raw_kmalloc_dynamic. apply wp_bind, wp_ASSERT; [done|]. apply wp_bind, wp_on_vm.
  eapply wp_mono.
  { apply (vmalloc_dynamic_spec reserve_malloc container_kfree Inv _ _ _ _ _ _ (9 + n) pgs tag
      (vmalloc_cfg_from_raw_kmalloc_cfg cfg 0) HV); try done; lia. }
  intros [va q] vm' (u & a & Ha & Hau & Hle & Eva & Hsub & O' & V1 & V2 & -> & Esp & HV' & HO'). cbn [fst snd] in *.
  pose proof (area_window reserve_malloc container_kfree Inv _ _ _ _ _ _ _ _ _ _ _ HV') as (_ & Hw & _ & He & _).
  cbn [fst snd] in Hw, He. subst va. rewrite upper_sext by done.
  assert (PAGE_SIZE | u) as Hdu by (rewrite <- Hau; by apply (wo_fpaged _ _ _ _ (vi_l _ _ _ _ _ _ _ _ _ HV))).
  apply (vm_inv_swap reserve_malloc container_kfree Inv) in HV'. cbn [other] in HV'.
  set (s1 := MkKmem _ _ _ _ _). assert (kmem_ok s1 B T O' U (V1 ++ (q, (u, pgs * PAGE_SIZE, _)) :: V2) _ (9 + n) k) as HK1 by by split.
  apply wp_bind. eapply wp_mono.
  { eapply (dynamic_loop_spec reserve_malloc container_kfree Inv m Hm DInv tag cfg 65 9 s1); try exact HK1; try done; try lia.
    - intros _. destruct Hav as (i & j & Hj & Hi). exists i, j. split; [|done].
      destruct (t_block _ _ (proj1 (proj2 HP)) _ _ _ Hi) as (Hj0 & _). apply Z.log2_lt_pow2; lia.
    - rewrite set_chain_eq. set_solver. }
  intros _ s2 (bl & B' & ch' & md & k' & HPl & HK2 & Hk2 & Emd & Ech & Ench). rewrite set_chain_eq in Ech.
  apply wp_ret. exists u, bl, B', O', V1, V2, q, ch', md, k'. cbn [fst snd] in *.
  split_and!; try done; try lia; [by destruct HPl; split|]. intros x Hx. rewrite Ench by done. by apply set_chain_ne.
Qed.


(** The DYNAMIC window holds no alias of a free page. *)
Lemma area_apart s B B' T O (U V1 V2 : rlist) q u size md (ch : chains) n k pg j x :
  kmem_ok s B T O U (V1 ++ (q, ((u, size), md)) :: V2) ch n k -> pages_step pg B B' -> j ∈ pg -> on_page j x ->
  ~ (upper u <= x < upper u + size).
Proof.
  intros [_ HV _ _ HS] HP Hj Hx Hb. apply on_page_alias in Hx. apply (HS j (ps_was _ _ _ HP j Hj)) in Hx.
  pose proof (proj2 (wo_cover _ _ _ _ (vi_l _ _ _ _ _ _ _ _ _ HV) (x - upper 0)) (or_introl Hx)) as [_ H1].
  assert (covers (areas (V1 ++ (q, ((u, size), md)) :: V2)) (x - upper 0)) as Hr.
  { exists (u, size). split; [apply (areas_elem _ q ((u, size), md)); set_solver|]. unfold in_area, upper in *. cbn [fst snd]. lia. }
  pose proof (proj2 (wo_cover _ _ _ _ (vi_o _ _ _ _ _ _ _ _ _ HV) (x - upper 0)) (or_intror Hr)) as [H2 _].
  cbn [other win_lo win_hi] in H1, H2. lia.
Qed.

Lemma new_area s B T O (U V1 : rlist) q d (V2 : rlist) (ch : chains) n k :
  kmem_ok s B T O U (V1 ++ (q, d) :: V2) ch n k -> q ∉ U.*1 ++ (V1 ++ V2).*1.
Proof.
  intros HK. pose proof (ro_nd _ _ _ _ _ _ _ _ (vi_r _ _ _ _ _ _ _ _ _ (ko_vm _ _ _ _ _ _ _ _ _ _ _ _ HK))) as Hnd.
  assert (U.*1 ++ (V1 ++ (q, d) :: V2).*1 ≡ₚ q :: U.*1 ++ (V1 ++ V2).*1) as EP.
  { rewrite !fmap_app. cbn [fmap list_fmap fst]. rewrite <- !Permutation_middle. done. }
  change (NoDup (U.*1 ++ (V1 ++ (q, d) :: V2).*1)) in Hnd. rewrite EP in Hnd. by apply NoDup_cons in Hnd as [? _].
Qed.

Lemma raw_kmalloc_dynamic_spec s B T O (U V : rlist) (ch : chains) n k pgs tag cfg0 cfg c :
  cfg = default DYNAMIC_CFG cfg0 -> c = length (to_fill cfg (km_reserve s)) ->
  kmem_ok s B T O U V ch (S (S (9 + (2 * c + n)))) k -> rk_kmap cfg = false -> rk_assign_pa cfg = true ->
  0 < pgs < 512 -> (3 * (Z.to_nat pgs + c) <= k)%nat -> fits_free O (pgs * PAGE_SIZE) ->
  (exists i j, pgs < 2 ^ j /\ B !! i = Some (j, true)) -> room B (Z.to_nat pgs + c) -> reserve_wf (km_reserve s) ->
  wp (raw_kmalloc pgs tag cfg0) (fun r s' => exists s1 s2 u bl q V1 V2 B1 O' md ch1 pg B' T' U' ch' k',
    r = (upper u, RAW_KMALLOC_DYNAMIC (mmu_cfg_of cfg) q) /\ s' = zeroed cfg (upper u) (pgs * PAGE_SIZE) s2 /\
    V = V1 ++ V2 /\ 2 ^ 47 <= u /\ u + pgs * PAGE_SIZE <= 2 ^ 48 /\ (forall x, in_range u (pgs * PAGE_SIZE) x -> covers O.*2 x) /\
    (forall j x, j ∈ pg -> on_page j x -> ~ (upper u <= x < upper u + pgs * PAGE_SIZE)) /\
    placed m s s1 B B1 bl u pgs (mm_page_data_new tag (rk_device_mem cfg) (rk_permanent cfg)) (mmu_cfg_of cfg) /\
    mdt_info md = mdt_info (area_mdt tag (vmalloc_cfg_from_raw_kmalloc_cfg cfg 0)) /\
    (forall x, covers O'.*2 x <-> covers O.*2 x /\ ~ in_range u (pgs * PAGE_SIZE) x) /\
    (ch' q).*2 = bl /\ (forall x, x ∈ U.*1 ++ V.*1 -> ch' x = ch x) /\
    refilled s1 s2 B1 B' T T' U U' (V1 ++ (q, ((u, pgs * PAGE_SIZE), md)) :: V2) ch1 ch' pg /\
    kmem_ok s2 B' T' O' U' (V1 ++ (q, ((u, pgs * PAGE_SIZE), md)) :: V2) ch' n k' /\
    refill_of cfg (km_reserve s) (km_reserve s2) pg /\ km_zeroed s2 = zeroed_pages pg ++ km_zeroed s /\
    (k <= 3 * (Z.to_nat pgs + c) + k')%nat) s.
Proof.
  intros Ecfg Hc HK Hkmap Has Hpg Hk Hfit Hav Hroom Hres.
  apply raw_kmalloc_split; rewrite <- ?Ecfg; [done|unfold PAGE_SIZE; lia|]. rewrite Hkmap.
  eapply wp_mono; [apply (dynamic_alloc_spec s B T O U V ch (2 * c + n) k); try done; lia|].
  intros r s1 (u & bl & B1 & O' & V1 & V2 & q & ch1 & md & k1 & -> & -> & Hu & He & Hsub & HPl & Hk1 & HK1 & Emd & Ech & Ench & HO'). cbn [fst].
  pose proof (pl_reserve _ _ _ _ _ _ _ _ _ _ HPl) as Er.
  eapply wp_mono.
  { eapply (refill_if_spec reserve_malloc container_kfree Inv m Hm DInv rtag cfg s1 B1 T O' U _ ch1 n k1); rewrite Er, <- ?Hc; [exact HK1|lia| |done].
    eapply room_takes; [apply HPl|apply HPl|done]. }
  intros _ s2 (pg & B' & T' & U' & ch' & k' & HK2 & HR & Hof & Hz & Hk2). rewrite Er, <- Hc in *.
  pose proof (new_area _ _ _ _ _ _ _ _ _ _ _ _ HK1) as Hq. pose proof (rf_chains _ _ _ _ _ _ _ _ _ _ _ _ _ _ HR) as Hch.
  exists s1, s2, u, bl, q, V1, V2, B1, O', md, ch1, pg, B', T', U', ch', k'. rewrite (pl_zeroed _ _ _ _ _ _ _ _ _ _ HPl) in Hz.
  split_and!; try done; [| | |lia].
  - intros j x Hj Hx. exact (area_apart _ _ _ _ _ _ _ _ _ _ _ _ _ _ _ _ j x HK1 (rf_step _ _ _ _ _ _ _ _ _ _ _ _ _ _ HR) Hj Hx).
  - rewrite Hch; [done|]. rewrite fmap_app, !elem_of_app. cbn [fmap list_fmap fst]. rewrite elem_of_cons. tauto.
  - intros x Hx. rewrite Hch; [apply Ench; by intros ->|]. rewrite !fmap_app, !elem_of_app in *. cbn [fmap list_fmap]. rewrite elem_of_cons. tauto.
Qed.

(** C11: [raw_kmalloc] of fewer than 512 pages anywhere in the DYNAMIC window,
    when vmalloc has a free area, the page allocator a free block larger than
    the request and, with [c] slots of the reserve to refill, [c] more pages,
    and vmalloc and the MMU can take the pages they need: the request is cut
    into the blocks of its binary digits, largest first, each of which was
    free and now is allocated; they are recorded with the reserved area in
    the order of their addresses, and every address of each block's part of
    the area translates to that block.  If the configuration asks for it the
    reserve is full afterwards: each slot that was empty holds one of the
    pages [pg], which were free and now are mapped at their aliases, reserved
    for them.  All other kernel addresses translate as before. *)
Theorem raw_kmalloc_dynamic_ok s B T O (U V : rlist) (ch : chains) n k pgs tag cfg0 cfg c
    (Hcfg : cfg = default DYNAMIC_CFG cfg0) (Hc : c = length (to_fill cfg (km_reserve s)))
    (HK : kmem_ok s B T O U V ch (S (S (9 + (2 * c + n)))) k) (Hkmap : rk_kmap cfg = false)
    (Has : rk_assign_pa cfg = true) (Hpg : 0 < pgs < 512) (Hk : (3 * (Z.to_nat pgs + c) <= k)%nat)
    (Hfit : fits_free O (pgs * PAGE_SIZE)) (Hav : exists i j, pgs < 2 ^ j /\ B !! i = Some (j, true))
    (Hroom : room B (Z.to_nat pgs + c)) (Hres : reserve_wf (km_reserve s)) :
  wp (raw_kmalloc pgs tag cfg0) (fun r s' => exists u bl pg q new B1 B' T' O' U' V1 V2 ch' md k',
    let bytes := pgs * PAGE_SIZE in
    r = (upper u, RAW_KMALLOC_DYNAMIC (mmu_cfg_of cfg) q) /\ V = V1 ++ V2 /\
    tiles bl u pgs /\ takes B bl B1 /\ pages_step pg B1 B' /\ refill_of cfg (km_reserve s) (km_reserve s') pg /\
    kmem_ok s' B' T' O' U' (V1 ++ (q, ((u, bytes), md)) :: V2) ch' n k' /\ (ch' q).*2 = bl /\
    mdt_info md = mdt_info (area_mdt tag (vmalloc_cfg_from_raw_kmalloc_cfg cfg 0)) /\
    U' ≡ₚ new ++ U /\ new.*2 = page_entry rtag <$> pg /\ (forall x, x ∈ U.*1 ++ V.*1 -> ch' x = ch x) /\
    (forall x, covers O'.*2 x <-> covers O.*2 x /\ ~ in_range u bytes x) /\
    (forall x, covers T'.*2 x <-> covers T.*2 x /\ ~ in_pages pg x) /\
    (forall p x, p ∈ bl -> pi_va p <= x < pi_va p + 2 ^ pi_order p * PAGE_SIZE ->
       mmu_walk_page (Some m) x (km_mmu s') =
         Ok (MMU_WALK_PAGE_MAPPED (mmu_cfg_of cfg) (pi_pa p + (x - pi_va p)), km_mmu s')) /\
    pages_mapped s' pg /\ walks_kept s s' u bytes pg /\
    km_zeroed s' = (if rk_init_zeroed cfg then [(upper u, bytes)] else []) ++ zeroed_pages pg ++ km_zeroed s) s.
Proof.
  eapply wp_mono; [by apply (raw_kmalloc_dynamic_spec s B T O U V ch n k pgs tag cfg0 cfg c)|].
  intros r s' (s1 & s2 & u & bl & q & V1 & V2 & B1 & O' & md & ch1 & pg & B' & T' & U' & ch' & k' & -> & -> & -> & Hu & He & _ & Hap & HPl & Emd & HO' & Ech & Ench & HR & HK2 & Hof & Hz & _).
  pose proof HR as [Hp HT2 (new & EU & En) _ _ _ _ _ _ _].
  destruct (refill_walks (ko_wf _ _ _ _ _ _ _ _ _ _ _ _ HK) (ko_wf _ _ _ _ _ _ _ _ _ _ _ _ HK2) (pl_mapped _ _ _ _ _ _ _ _ _ _ HPl) HR) as (W1 & W2 & W3);
    [lia|done|done|].
  exists u, bl, pg, q, new, B1, B', T', O', U', V1, V2, ch', md, k'. cbv zeta. split_and!; try done; try apply HPl.
  - by apply kmem_ok_zeroed.
  - intros p x Hpb Hx. pose proof (tiles_range _ _ _ (pl_tiles _ _ _ _ _ _ _ _ _ _ HPl) p Hpb).
    etrans; [apply W1; lia|]. by rewrite (tiles_image _ _ _ _ p x (pl_tiles _ _ _ _ _ _ _ _ _ _ HPl)).
  - cbn. rewrite Hz. by destruct (rk_init_zeroed cfg).
Qed.

(** C12: for fewer than 512 pages that are not permanent: when [raw_kmalloc] in
    the DYNAMIC window takes blocks below the largest power of two of pages,
    [raw_kfree] of what it returned undoes the allocation: it finds all the
    blocks in the area's record and releases each of them.  What is left is
    the refill of the reserve: the blocks of the page allocator and the free
    areas of both windows are as before less the pages [pg] of the refill,
    which are mapped at their aliases, and exactly as before when no slot was
    empty; no address of the area translates any more and all other kernel
    addresses translate as before the allocation. *)
Theorem raw_kmalloc_kfree_dynamic_roundtrip s B T O (U V : rlist) (ch : chains) n k pgs tag cfg0 cfg c
    (Hcfg : cfg = default DYNAMIC_CFG cfg0) (Hc : c = length (to_fill cfg (km_reserve s)))
    (HK : kmem_ok s B T O U V ch (S (S (9 + (2 * c + S n)))) k) (Hkmap : rk_kmap cfg = false)
    (Has : rk_assign_pa cfg = true) (Hperm : rk_permanent cfg = false) (Hpg : 0 < pgs < 512)
    (Hk : (3 * (2 * Z.to_nat pgs + c) <= k)%nat)
    (Hfit : fits_free O (pgs * PAGE_SIZE)) (Hav : exists i j, pgs < 2 ^ j /\ B !! i = Some (j, true))
    (Hroom : room B (Z.to_nat pgs + c)) (Hres : reserve_wf (km_reserve s)) :
  wp (raw_kmalloc pgs tag cfg0) (fun r s1 => exists u bl B1,
    r.1 = upper u /\ tiles bl u pgs /\ takes B bl B1 /\
    ((forall p, p ∈ bl -> pi_pa p < 2 ^ MAX_ORDER (km_pages s) * PAGE_SIZE) ->
     wp (raw_kfree r.1) (fun _ s' => exists pg new B' T' O' U' ch' k',
       refill_of cfg (km_reserve s) (km_reserve s') pg /\ pages_step pg B B' /\
       kmem_ok s' B' T' O' U' V ch' n k' /\ U' ≡ₚ new ++ U /\ new.*2 = page_entry rtag <$> pg /\
       (forall x, x ∈ U.*1 ++ V.*1 -> ch' x = ch x) /\ O'.*2 = O.*2 /\
       (forall x, covers T'.*2 x <-> covers T.*2 x /\ ~ in_pages pg x) /\
       (pg = [] -> B' = B /\ T'.*2 = T.*2) /\
       (forall x, upper u <= x < upper u + pgs * PAGE_SIZE ->
          mmu_walk_page (Some m) x (km_mmu s') = Ok (MMU_WALK_PAGE_UNMAPPED, km_mmu s')) /\
       pages_mapped s' pg /\ walks_kept s s' u (pgs * PAGE_SIZE) pg) s1)) s.
Proof.
  eapply wp_mono; [apply (raw_kmalloc_dynamic_spec s B T O U V ch (S n) k pgs tag cfg0 cfg c); done || lia|].
  intros r s' (s1 & s2 & u & bl & q & V1 & V2 & B1 & O1 & md & ch1 & pg & B2 & T2 & U' & ch' & k2 & -> & -> & -> & Hu & He & Hsub & Hap & HPl & Emd & HO1 & Ech & Ench & HR & HK2 & Hof & _ & Hk2).
  pose proof HPl as [Ht Htk [HN1 HM1] _ Hd _ HMp _ _]. pose proof HR as [Hp HT2 (new & EU & En) _ [HN2 HM2] _ _ Hdo _ _].
  exists u, bl, B1. cbn [fst]. split; [done|]. split; [done|]. split; [done|]. intros Hlow. set (s3 := zeroed _ _ _ _).
  assert (kmem_ok s3 B2 T2 O1 U' _ ch' (S n) k2) as HK3 by by apply kmem_ok_zeroed.
  pose proof (fun x => refill_outside _ _ _ _ _ x Htk Hp) as Hout. destruct (takes_free _ _ _ Htk) as [Hwas _].
  eapply wp_mono.
  { eapply (dynamic_free_spec reserve_malloc container_kfree Inv m Hm DInv _ _ _ _ _ _ _ _ _ _ _ _ u pgs bl HK3);
      cbn [fst snd]; rewrite ?Emd; try done; try lia.
    - pose proof (tiles_length _ _ _ Ht) as HL. lia.
    - intros p Hpb. destruct (takes_idx _ _ _ Htk p Hpb) as (Ep & Hp0 & _). split; [done|].
      specialize (Hlow p Hpb). split; [change (km_pages s3) with (km_pages s2); rewrite HM2, HM1; unfold PAGE_SIZE in *; lia|].
      split; [apply (ps_alloc _ _ _ Hp); right; apply (takes_alloc _ _ _ _ _ Htk); right; by exists p|].
      eexists. split; [change (km_pages s3) with (km_pages s2); rewrite Hdo; [by apply Hd|]|done].
      intros Hbad. by apply (Hout _ Hbad), (takes_self _ _ _ _ Htk).
    - by eapply takes_nodup.
    - intros i Hi x Hx. apply HT2. split; [by apply (ko_sync _ _ _ _ _ _ _ _ _ _ _ _ HK i); [apply Hwas|]|].
      intros (j & Hj & Hjx). rewrite (alias_same _ _ _ Hx Hjx) in Hi. by apply (Hout j).
    - intros x Hx. destruct (tiles_mapped _ _ _ (mmu_cfg_of cfg) x Ht Hx) as [pa Epa]. eexists _, pa. rewrite <- Epa.
      apply (touched_in HMp HR); [lia|done|done|done]. }
  intros _ s4 (B' & O' & k' & HG & Hk' & HK4 & HO' & Fr & _ & Er & HMg). change (km_reserve s3) with (km_reserve s2) in Er.
  pose proof (take_refill_give (km_pages s) B bl B1 pg B2 B' (ko_pages _ _ _ _ _ _ _ _ _ _ _ _ HK) Htk Hp HG) as Hst.
  destruct (release_walks (ko_wf _ _ _ _ _ _ _ _ _ _ _ _ HK) HMp HR Hap s4 gone HMg) as (W1 & W2 & W3).
  exists pg, new, B', T2, O', U', ch', k'. rewrite Er. split_and!; try done.
  - apply (spaced_canonical (-1)); [apply (vi_o _ _ _ _ _ _ _ _ _ (ko_vm _ _ _ _ _ _ _ _ _ _ _ _ HK4))|apply (vi_o _ _ _ _ _ _ _ _ _ (ko_vm _ _ _ _ _ _ _ _ _ _ _ _ HK))|].
    intros x. rewrite HO', HO1. specialize (Hsub x).
    assert (in_range u (pgs * PAGE_SIZE) x \/ ~ in_range u (pgs * PAGE_SIZE) x) by (unfold in_range; lia). tauto.
  - eapply (nothing_refilled s s4); try done; rewrite ?(frame_N _ _ Fr), ?(frame_mo _ _ Fr); change (km_pages s3) with (km_pages s2); congruence.
Qed.

End Claims.

(** ** An instance: eight free pages, vmalloc as booted, an empty tree, and a
    reserve whose first slot is empty *)

Definition kernel_map : mmu_mapping Z :=
  MkMapping MMU_HI MMU_GRANULARITY_4KB 48 0 0x1000 bump_alloc bump_free.

#[export] Instance kernel_tables : TableAllocator kernel_map MmuUnmap.bump_inv.
Proof. split. intros a live k H. exact (ta_alloc (m := test_mapping 0x1000) a live k H). Qed.

Lemma kernel_map_ok : kernel_mapping kernel_map.
Proof. by split. Qed.

Definition boot_reserve : page_reserve := MkReserve (array 32 (fun i => page_pv (16 + i))) (2 ^ 32 - 2).

Definition boot_kmem : kmem Z Z := MkKmem boot8 boot_state (MkMmu (tables test_state) 0x2000 None) boot_reserve [].

Lemma boot_kmem_ok : exists p d, kmem_ok VmallocCorrect.bump_inv kernel_map MmuUnmap.bump_inv boot_kmem {[ 0 := (3, true) ]}
  [(p, (2 ^ 47, space))] [(d, (2 ^ 47 + space, 2 ^ 47 - space))] [] [] (fun _ => []) 98 1000.
Proof.
  destruct boot_inv as (p & d & HV). exists p, d. split.
  - apply boot8_inv.
  - exact HV.
  - apply (root_only kernel_map (array 512 (fun _ => 0))); [|apply lookup_singleton_eq].
    intros i Hi. rewrite array_lookup. by rewrite decide_True.
  - by apply test_bump.
  - intros i (j & o & [<- [= <-]]%lookup_singleton_Some & Hi) x Hx. eexists. split; [by apply list_elem_of_singleton|].
    unfold in_block, in_range, alias, in_area, space, PAGE_SIZE in *. cbn [fst snd]. lia.
Qed.

Lemma boot_room : room {[ 0 := (3, true) ]} 8.
Proof.
  exists (list_to_set (seqZ 0 8)). split; [|vm_compute; lia]. intros x Hx%elem_of_list_to_set%elem_of_seqZ.
  exists 0, 3. split; [apply lookup_singleton_eq|]. unfold in_block. lia.
Qed.

Lemma boot_reserve_wf : reserve_wf (km_reserve boot_kmem).
Proof. split; [unfold u_range; cbn; lia|]. intros i Hi. cbn. rewrite array_lookup, decide_True by done. by eexists. Qed.

Lemma boot_free_page i : free_page ({[ 0 := (3, true) ]} : blocks) i -> i < 2 ^ MAX_ORDER (km_pages boot_kmem).
Proof. intros (j & o & [<- [= <-]]%lookup_singleton_Some & Hi). unfold in_block in Hi. change (MAX_ORDER _) with 3. lia. Qed.

Abbreviation boot_alloc := (raw_kmalloc bump_reserve bump_kfree kernel_map 9).
Abbreviation boot_free := (raw_kfree bump_reserve bump_kfree kernel_map).

(** Two pages, and one for the reserve *)
Lemma raw_kmalloc_kmap_ok_witness :
  exists r s', boot_alloc 2 7 (Some KMAP_CFG) boot_kmem = Ok (r, s') /\ exists i (pg : list Z),
    r.1 = kpa_to_kva (i * PAGE_SIZE) /\ length pg = 1%nat /\ is_full (reserved_pages (km_reserve s')) = true.
Proof.
  destruct boot_kmem_ok as (p & d & HK).
  destruct (wp_returns _ _ _ (raw_kmalloc_kmap_ok bump_reserve bump_kfree VmallocCorrect.bump_inv kernel_map kernel_map_ok
    MmuUnmap.bump_inv 9 boot_kmem _ _ _ _ _ _ 94 1000 1 7 KMAP_CFG 1 ltac:(vm_compute; reflexivity) HK eq_refl eq_refl ltac:(lia)
    ltac:(vm_compute; discriminate) ltac:(vm_compute; lia) ltac:(exists 0, 3; split; [lia|reflexivity])
    (room_mono _ 8 3 ltac:(lia) boot_room) boot_reserve_wf))
    as (r & s' & E & i & pg & q & new & B1 & B' & T' & U' & ch' & k' & Er & _ & _ & Hof & _).
  exists r, s'. split; [exact E|]. exists i, pg. split; [by rewrite Er|]. split; [|apply Hof].
  rewrite (refill_of_length _ _ _ _ Hof). vm_compute. reflexivity.
Defined.

Lemma raw_kmalloc_kfree_kmap_roundtrip_witness :
  exists r s1 s2, boot_alloc 4 7 (Some KMAP_CFG) boot_kmem = Ok (r, s1) /\ boot_free r.1 s1 = Ok (tt, s2).
Proof.
  destruct boot_kmem_ok as (p & d & HK).
  destruct (wp_returns _ _ _ (raw_kmalloc_kfree_kmap_roundtrip bump_reserve bump_kfree VmallocCorrect.bump_inv kernel_map
    kernel_map_ok MmuUnmap.bump_inv 9 boot_kmem _ _ _ _ _ _ 93 1000 2 7 KMAP_CFG 1 ltac:(vm_compute; reflexivity) HK eq_refl eq_refl eq_refl
    ltac:(lia) ltac:(vm_compute; discriminate) ltac:(vm_compute; lia) ltac:(exists 0, 3; split; [lia|reflexivity])
    (room_mono _ 8 5 ltac:(lia) boot_room) boot_reserve_wf)) as (r & s1 & E & i & B1 & _ & HA & Hfree).
  destruct (wp_returns _ _ _ (Hfree (boot_free_page i (a_was_free _ _ _ _ HA i ltac:(unfold in_block; lia))))) as ([] & s2 & E2 & _).
  exists r, s1, s2. split; [exact E|exact E2].
Defined.

Lemma raw_kmalloc_dynamic_ok_witness :
  exists r s', boot_alloc 5 7 None boot_kmem = Ok (r, s') /\ exists u (pg : list Z),
    r.1 = upper u /\ length pg = 1%nat /\ is_full (reserved_pages (km_reserve s')) = true.
Proof.
  destruct boot_kmem_ok as (p & d & HK).
  destruct (wp_returns _ _ _ (raw_kmalloc_dynamic_ok bump_reserve bump_kfree VmallocCorrect.bump_inv kernel_map
    kernel_map_ok MmuUnmap.bump_inv 9 boot_kmem _ _ _ _ _ _ 85 1000 5 7 None DYNAMIC_CFG 1 eq_refl ltac:(vm_compute; reflexivity) HK eq_refl eq_refl
    ltac:(lia) ltac:(vm_compute; lia) (boot_fits d 5 ltac:(unfold PAGE_SIZE; lia))
    ltac:(exists 0, 3; split; [lia|reflexivity]) (room_mono _ 8 6 ltac:(lia) boot_room) boot_reserve_wf))
    as (r & s' & E & u & bl & pg & q & new & B1 & B' & T' & O' & U' & V1 & V2 & ch' & md & k' & Er & _ & _ & _ & _ & Hof & _).
  exists r, s'. split; [exact E|]. exists u, pg. split; [by rewrite Er|]. split; [|apply Hof].
  rewrite (refill_of_length _ _ _ _ Hof). vm_compute. reflexivity.
Defined.

Lemma raw_kmalloc_kfree_dynamic_roundtrip_witness :
  exists r s1 s2, boot_alloc 5 7 None boot_kmem = Ok (r, s1) /\ boot_free r.1 s1 = Ok (tt, s2).
Proof.
  destruct boot_kmem_ok as (p & d & HK).
  destruct (wp_returns _ _ _ (raw_kmalloc_kfree_dynamic_roundtrip bump_reserve bump_kfree VmallocCorrect.bump_inv kernel_map
    kernel_map_ok MmuUnmap.bump_inv 9 boot_kmem _ _ _ _ _ _ 84 1000 5 7 None DYNAMIC_CFG 1 eq_refl ltac:(vm_compute; reflexivity) HK eq_refl eq_refl
    eq_refl ltac:(lia) ltac:(vm_compute; lia) (boot_fits d 5 ltac:(unfold PAGE_SIZE; lia))
    ltac:(exists 0, 3; split; [lia|reflexivity]) (room_mono _ 8 6 ltac:(lia) boot_room) boot_reserve_wf))
    as (r & s1 & E & u & bl & B1 & _ & _ & Ht & Hfree).
  destruct (wp_returns _ _ _ (Hfree ltac:(intros b Hb; destruct (takes_idx _ _ _ Ht b Hb) as (Eb & _);
    pose proof (boot_free_page _ (proj1 (takes_free _ _ _ Ht) _ (takes_self _ _ _ _ Ht Hb))); unfold PAGE_SIZE in *; lia))) as ([] & s2 & E2 & _).
  exists r, s1, s2. split; [exact E|exact E2].
Defined.

(** The blocks of five pages, four and one, are mapped one behind the other;
    the page behind them goes into the reserve. *)
Example dynamic_five_pages :
  match boot_alloc 5 7 None boot_kmem with
  | Ok ((va, _), s) =>
      Some (va, result (mmu_walk_page (Some kernel_map) (va + 4 * PAGE_SIZE)) (km_mmu s), reserved_addr (km_reserve s) !! 0,
        free_lists (km_pages s) !! 1)
  | Err _ => None
  end = Some (sext (2 ^ 47 + space) 48, Ok (MMU_WALK_PAGE_MAPPED STD_MMU_KMEM_CFG (4 * PAGE_SIZE)), Some (page_pv 5), Some 6).
Proof. vm_compute. reflexivity. Qed.
