(* ===== verification/Locks.v ===== *)
(** * Locks: the spinning locks of several CPUs

    include/lib/lock.h.  Each atomic access of the C functions is one step of
    a machine, and the steps of the CPUs interleave in any order
    (sequentially consistent; the orders the code asks for are at least
    acquire and release).  The machine is executable: [exec] runs one event.

    [spinlock_t] is a flag.  [cpulock_t] may be taken again by the CPU that
    holds it, which its counter counts; an interrupt handler runs on the CPU
    it interrupts, so a CPU has a stack of activations, and [irqsave] and
    [irqrestore] decide where interrupts arrive. *)

From Stdlib Require Import ZArith Lia.
From stdpp Require Import base tactics numbers gmap list.
From S2P Require Import Prelude.

Open Scope Z_scope.

(** ** Spinlock *)

Module Spin.

(** Where a CPU is in [spinlock_acquire], [spinlock_trylock] and
    [spinlock_release] *)
Inductive pc : Type :=
  | Idle
  | Wait      (* the loop around ldaxr and wfe *)
  | Cas       (* atomic_compare_exchange_strong of spinlock_acquire *)
  | Try       (* atomic_compare_exchange_strong of spinlock_trylock *)
  | Held      (* between acquire and release *)
  | Store.    (* atomic_store of spinlock_release *)

Record state : Type := MkSpin { sflag : Z; spcs : gmap Z pc }.

Inductive event : Type := CallAcquire | CallTrylock | CallRelease | Go.

Definition SPINLOCK_INIT : Z := 0.

(** One step of CPU [c]: the new flag and the new place in the code *)
Definition spin_step (e : event) (f : Z) (p : pc) : option (Z * pc) :=
  match e, p with
  | CallAcquire, Idle => Some (f, Wait)
  | CallTrylock, Idle => Some (f, Try)
  | CallRelease, Held => Some (f, Store)
  | Go, Wait => Some (f, if f =? 0 then Cas else Wait)
  | Go, Cas => Some (if f =? 0 then (1, Held) else (f, Wait))
  | Go, Try => Some (if f =? 0 then (1, Held) else (f, Idle))
  | Go, Store => Some (0, Idle)
  | _, _ => None
  end.

Definition spinlock_is_locked (f : Z) : bool := negb (f =? 0).

Definition exec (c : Z) (e : event) (s : state) : option state :=
  p ← spcs s !! c;
  '(f, p) ← spin_step e (sflag s) p;
  Some (MkSpin f (<[c := p]> (spcs s))).

Inductive reachable (s0 : state) : state -> Prop :=
  | reach_init : reachable s0 s0
  | reach_step s c e s' : reachable s0 s -> exec c e s = Some s' -> reachable s0 s'.

(** The steps of a schedule *)
Fixpoint run (es : list (Z * event)) (s : state) : option state :=
  match es with
  | [] => Some s
  | (c, e) :: es => s ← exec c e s; run es s
  end.

Definition init (cs : gset Z) : state := MkSpin SPINLOCK_INIT (gset_to_gmap Idle cs).

End Spin.

(** ** Cpulock *)

Record cpulock : Type := MkCpulock { flag : Z; count : Z }.

Definition CPULOCK_INIT : cpulock := MkCpulock (-1) 0.

(** Where an activation is in the lock code *)
Inductive cpc : Type :=
  | Out
  | ATest     (* cpulock_acquire: is the flag this CPU? *)
  | ASpin     (* the loop around ldaxr and wfe *)
  | ACas      (* atomic_compare_exchange_weak *)
  | AInc      (* atomic_fetch_add of the counter *)
  | RSub      (* cpulock_release: atomic_fetch_sub of the counter *)
  | RTest     (* is the counter 0? *)
  | RStore    (* the flag becomes -1 *)
  | TTest     (* cpulock_trylock: is the flag this CPU? *)
  | TNest     (* lock->count++ *)
  | TCas      (* atomic_compare_exchange_strong *)
  | TSet.     (* lock->count = 1 *)

#[export] Instance cpc_eq_dec : EqDecision cpc.
Proof. solve_decision. Defined.

(** [a_depth]: the acquisitions the activation has not released *)
Record activation : Type := MkAct { a_pc : cpc; a_depth : Z; a_masked : bool }.

(** A CPU has the running activation and those it has interrupted. *)
Record machine : Type := MkMachine { lk : cpulock; cpus : gmap Z (activation * list activation) }.

Inductive levent : Type :=
  | LAcquire | LTrylock | LRelease    (* calls *)
  | LGo (fails : bool)                (* the next access; a weak exchange may fail *)
  | LIrqsave | LIrqrestore
  | LIrq | LEret.                     (* an interrupt arrives; its handler returns *)

Definition goto (p : cpc) (a : activation) : activation := MkAct p (a_depth a) (a_masked a).
Definition acquired (a : activation) : activation := MkAct Out (a_depth a + 1) (a_masked a).

(** The next access of CPU [c] *)
Definition lock_go (c : Z) (fails : bool) (l : cpulock) (a : activation) : option (cpulock * activation) :=
  match a_pc a with
  | Out => None
  | ATest => Some (l, goto (if flag l =? c then AInc else ASpin) a)
  | ASpin => Some (l, goto (if flag l =? -1 then ACas else ASpin) a)
  | ACas => Some (if negb fails && (flag l =? -1) then (MkCpulock c (count l), goto AInc a) else (l, goto ASpin a))
  | AInc => Some (MkCpulock (flag l) (wrap32 (count l + 1)), acquired a)
  | RSub => Some (MkCpulock (flag l) (wrap32 (count l - 1)), goto RTest a)
  | RTest => Some (l, goto (if count l =? 0 then RStore else Out) a)
  | RStore => Some (MkCpulock (-1) (count l), goto Out a)
  | TTest => Some (l, goto (if flag l =? c then TNest else TCas) a)
  | TNest => Some (MkCpulock (flag l) (wrap32 (count l + 1)), acquired a)
  | TCas => Some (if flag l =? -1 then (MkCpulock c (count l), goto TSet a) else (l, goto Out a))
  | TSet => Some (MkCpulock (flag l) 1, acquired a)
  end.

(** The events of CPU [c].  With [saved] the callers mask interrupts around
    the outermost acquisition, as [cpulock_acquire_irqsave] and the idiom
    [irqlocked() cpulocked(&lock)] do; without it they call
    [cpulock_acquire] and [cpulocked] on their own.  No activation nests
    2^32 deep.  An interrupt is taken with interrupts masked; an [irqrestore]
    of masked flags changes nothing and is no event. *)
Definition lock_event (saved : bool) (c : Z) (e : levent) (l : cpulock) (s : activation * list activation) :
    option (cpulock * (activation * list activation)) :=
  let (a, rest) := s in
  match e with
  | LAcquire => if bool_decide (a_pc a = Out) && (a_depth a <? 2 ^ 32 - 1) && (negb saved || a_masked a)
                then Some (l, (goto ATest a, rest)) else None
  | LTrylock => if bool_decide (a_pc a = Out) && (a_depth a <? 2 ^ 32 - 1) && (negb saved || a_masked a)
                then Some (l, (goto TTest a, rest)) else None
  | LRelease => if bool_decide (a_pc a = Out) && (0 <? a_depth a)
                then Some (l, (MkAct RSub (a_depth a - 1) (a_masked a), rest)) else None
  | LGo fails => '(l, a) ← lock_go c fails l a; Some (l, (a, rest))
  | LIrqsave => if bool_decide (a_pc a = Out) then Some (l, (MkAct Out (a_depth a) true, rest)) else None
  | LIrqrestore => if bool_decide (a_pc a = Out) && (negb saved || (a_depth a =? 0))
                   then Some (l, (MkAct Out (a_depth a) false, rest)) else None
  | LIrq => if a_masked a then None else Some (l, (MkAct Out 0 true, a :: rest))
  | LEret => match rest with
             | b :: rest => if bool_decide (a_pc a = Out) && (a_depth a =? 0) then Some (l, (b, rest)) else None
             | [] => None
             end
  end.

Definition exec (saved : bool) (c : Z) (e : levent) (s : machine) : option machine :=
  st ← cpus s !! c;
  '(l, st) ← lock_event saved c e (lk s) st;
  Some (MkMachine l (<[c := st]> (cpus s))).

Fixpoint run (saved : bool) (es : list (Z * levent)) (s : machine) : option machine :=
  match es with
  | [] => Some s
  | (c, e) :: es => s ← exec saved c e s; run saved es s
  end.

Definition boot_machine (cs : gset Z) : machine :=
  MkMachine CPULOCK_INIT (gset_to_gmap (MkAct Out 0 false, []) cs).

(** CPU [c] is inside of the lock: the activation that runs or one it has
    interrupted has an acquisition to release. *)
Definition inside (s : machine) (c : Z) : Prop :=
  exists a rest, cpus s !! c = Some (a, rest) /\ exists b, b ∈ a :: rest /\ 0 < a_depth b.

Definition cpulock_is_locked (l : cpulock) : bool := negb (flag l =? -1).
Definition cpulock_is_owner (c : Z) (l : cpulock) : bool := flag l =? c.
