(* ===== verification/LocksCorrect.v ===== *)
(** * LocksCorrect: mutual exclusion, and where it is lost

    The invariants of the two locks, kept by every step of every CPU, and
    what follows from them; the interleaving in which a [cpulock_t] that is
    used without masking interrupts lets two CPUs in. *)

From Stdlib Require Import ZArith Lia.
From stdpp Require Import base tactics numbers gmap list.
From S2P Require Import Prelude Locks.

Open Scope Z_scope.

(** ** Spinlock *)

Section Spinlock.
Import Locks.Spin.

Definition has_lock (p : pc) : bool := match p with Held | Store => true | _ => false end.

(** The flag is 1 exactly while one CPU has the lock. *)
Record spin_inv (s : state) : Prop := {
  si_flag : sflag s = 0 \/ sflag s = 1;
  si_free c p : sflag s = 0 -> spcs s !! c = Some p -> has_lock p = false;
  si_one c d p q : spcs s !! c = Some p -> spcs s !! d = Some q -> has_lock p = true -> has_lock q = true -> c = d;
  si_taken : sflag s = 1 -> exists c p, spcs s !! c = Some p /\ has_lock p = true
}.

Lemma spin_step_inv s c e s' : spin_inv s -> Spin.exec c e s = Some s' -> spin_inv s'.
Proof.
  intros [Hf H0 H1 Ht] He. unfold Spin.exec in He. destruct (spcs s !! c) as [p|] eqn:Ec; [|done].
  cbn in He. destruct (spin_step e (sflag s) p) as [[f q]|] eqn:Es; [|done]. injection He as <-.
  (* what one CPU does to flag and ownership *)
  assert ((f = sflag s /\ has_lock q = has_lock p) \/ (sflag s = 0 /\ f = 1 /\ has_lock q = true) \/
          (has_lock p = true /\ f = 0 /\ has_lock q = false)) as Hcase.
  { destruct e, p; cbn in Es; try done; simplify_eq;
      destruct (Z.eqb_spec (sflag s) 0); simplify_eq; tauto. }
  assert (forall d r, <[c := q]> (spcs s) !! d = Some r -> (d = c /\ r = q) \/ (d <> c /\ spcs s !! d = Some r)) as Hl.
  { intros d r. rewrite lookup_insert_Some. intros [[-> ->]|[? ?]]; [by left|right; split; [congruence|done]]. }
  destruct Hcase as [[-> Eq]|[(E0 & -> & Eq)|(Ep & -> & Eq)]]; split; cbn [sflag spcs]; try tauto; try done.
  - intros d r E [[-> ->]|[_ Hd]]%Hl; [rewrite Eq|]; by eapply H0.
  - intros d d' r r' [[-> ->]|[_ Hd]]%Hl [[-> ->]|[_ Hd']]%Hl; rewrite ?Eq; eauto.
  - intros E. destruct (Ht E) as (d & r & Hd & Hr). destruct (decide (d = c)) as [->|].
    + exists c, q. rewrite lookup_insert_eq. split; [done|]. rewrite Eq. congruence.
    + exists d, r. by rewrite lookup_insert_ne.
  - intros d d' r r' [[-> ->]|[_ Hd]]%Hl [[-> ->]|[_ Hd']]%Hl Hr Hr'; try done.
    + by rewrite (H0 _ _ E0 Hd') in Hr'.
    + by rewrite (H0 _ _ E0 Hd) in Hr.
    + by rewrite (H0 _ _ E0 Hd) in Hr.
  - intros _. exists c, q. by rewrite lookup_insert_eq.
  - intros d r _ [[-> ->]|[Hne Hd]]%Hl; [done|]. destruct (has_lock r) eqn:Er; [|done]. destruct Hne. by eapply H1.
  - intros d d' r r' [[-> ->]|[Hne Hd]]%Hl [[-> ->]|[Hne' Hd']]%Hl Hr Hr'; try congruence. by eapply H1.
Qed.

Lemma reach_run es s0 s s' : reachable s0 s -> Spin.run es s = Some s' -> reachable s0 s'.
Proof.
  revert s. induction es as [|[c e] es IH]; intros s Hr Hs; cbn in Hs; [by simplify_eq|].
  destruct (Spin.exec c e s) as [s1|] eqn:E; [|done]. cbn in Hs. eapply IH; [|done]. by eapply reach_step.
Qed.

(** Whatever the CPUs do and however their steps interleave, at most one
    of them is between [spinlock_acquire] (or a successful
    [spinlock_trylock]) and the end of [spinlock_release], and the flag is 1
    exactly then. *)
Theorem spinlock_exclusive (cs : gset Z) (s : state) (H : reachable (init cs) s) :
  (forall c d p q, spcs s !! c = Some p -> spcs s !! d = Some q -> has_lock p = true -> has_lock q = true -> c = d) /\
  (spinlock_is_locked (sflag s) = true <-> exists c p, spcs s !! c = Some p /\ has_lock p = true).
Proof.
  assert (spin_inv s) as [Hf H0 H1 Ht].
  { induction H as [|s c e s' _ IH He]; [|by eapply spin_step_inv].
    assert (forall c p, spcs (init cs) !! c = Some p -> p = Idle) as Hi by (intros c p [_ ?]%lookup_gset_to_gmap_Some; done).
    split; cbn [init sflag]; [by left| | |done].
    - by intros c p _ ->%Hi.
    - by intros c d p q ->%Hi. }
  split; [done|]. unfold spinlock_is_locked. split.
  - destruct Hf as [-> |Hf]; [done|]. auto.
  - intros (c & p & Hc & Hp). destruct Hf as [Hf| ->]; [|done]. by rewrite (H0 _ _ Hf Hc) in Hp.
Qed.

(** Two CPUs, one of which holds the lock while the other waits *)
Definition one_waits : state := MkSpin 1 (<[0 := Held]> (<[1 := Wait]> (gset_to_gmap Idle {[0; 1]}))).

Lemma spinlock_exclusive_witness :
  reachable (init {[0; 1]}) one_waits /\ (spinlock_is_locked (sflag one_waits) = true <-> exists c p, spcs one_waits !! c = Some p /\ has_lock p = true).
Proof.
  assert (reachable (init {[0; 1]}) one_waits) as H.
  { apply (reach_run [(0, CallAcquire); (1, CallAcquire); (0, Go); (0, Go)] _ (init {[0; 1]})); [apply reach_init|].
    vm_compute. reflexivity. }
  split; [exact H|]. exact (proj2 (spinlock_exclusive {[0; 1]} one_waits H)).
Defined.

End Spinlock.

(** ** Cpulock *)

Implicit Types (l : cpulock) (a : activation) (s : machine).

(** What the place of the running activation of CPU [c] says about the lock *)
Definition act_ok l (c : Z) a : Prop :=
  0 <= a_depth a < 2 ^ 32 /\
  match a_pc a with
  | Out => 0 < a_depth a -> flag l = c /\ count l = a_depth a
  | ATest | TTest => a_depth a < 2 ^ 32 - 1 /\ (0 < a_depth a -> flag l = c /\ count l = a_depth a)
  | ASpin | ACas | TCas => a_depth a = 0
  | AInc | TNest => a_depth a < 2 ^ 32 - 1 /\ flag l = c /\ count l = a_depth a
  | TSet => flag l = c /\ a_depth a = 0
  | RSub => a_depth a < 2 ^ 32 - 1 /\ flag l = c /\ count l = a_depth a + 1
  | RTest => flag l = c /\ count l = a_depth a
  | RStore => flag l = c /\ count l = 0 /\ a_depth a = 0
  end.

(** The places at which the lock belongs to the activation *)
Definition owns a : Prop :=
  0 < a_depth a \/ match a_pc a with AInc | TNest | TSet | RSub | RTest | RStore => True | _ => False end.

Definition idle a : Prop := a_pc a = Out /\ a_depth a = 0.

(** Interrupts are masked wherever the lock is involved, so whatever was
    interrupted is idle. *)
Record cpu_ok l (c : Z) (st : activation * list activation) : Prop := {
  co_act : act_ok l c st.1;
  co_mask : a_masked st.1 = true \/ idle st.1;
  co_rest : Forall idle st.2
}.

Record lock_inv s : Prop := {
  li_cpu c st : cpus s !! c = Some st -> 0 <= c /\ cpu_ok (lk s) c st;
  li_free : flag (lk s) = -1 -> count (lk s) = 0;
  li_owner : flag (lk s) <> -1 -> exists st, cpus s !! flag (lk s) = Some st /\ owns st.1
}.

Lemma owns_flag l c a : act_ok l c a -> owns a -> flag l = c.
Proof. intros [Hd H] [Ho|Ho]; destruct (a_pc a); cbn in *; lia. Qed.

(** Another CPU's place says nothing about a lock it does not own. *)
Lemma act_ok_other l l' d a : act_ok l d a -> flag l <> d -> act_ok l' d a.
Proof. intros [Hd H] Hf. split; [done|]. destruct (a_pc a); cbn in *; lia. Qed.

Lemma act_ok_idle l c a : idle a -> act_ok l c a.
Proof. intros [E1 E2]. unfold act_ok. rewrite E1, E2. split; [lia|]. lia. Qed.

Lemma idle_not_owns a : idle a -> ~ owns a.
Proof. intros [E1 E2] [H|H]; [lia|]. by rewrite E1 in H. Qed.

(** How one step of CPU [c] may change the lock *)
Inductive lock_change (c : Z) l a l' a' : Prop :=
  | lc_same : l' = l -> (owns a -> owns a') -> lock_change c l a l' a'
  | lc_take : flag l = -1 -> flag l' = c -> count l' = 0 -> owns a' -> lock_change c l a l' a'
  | lc_mine : flag l = c -> flag l' = c -> owns a' -> lock_change c l a l' a'
  | lc_free : flag l = c -> flag l' = -1 -> count l' = 0 -> lock_change c l a l' a'.

(** The invariant after such a step *)
Lemma lock_change_inv s c a rest l' a' rest' :
  lock_inv s -> cpus s !! c = Some (a, rest) -> lock_change c (lk s) a l' a' -> cpu_ok l' c (a', rest') ->
  lock_inv (MkMachine l' (<[c := (a', rest')]> (cpus s))).
Proof.
  intros [HC HF HO] Ec Hch Hok. destruct (HC _ _ Ec) as [Hc0 Hca].
  assert (forall d st, d <> c -> cpus s !! d = Some st -> flag (lk s) <> d \/ l' = lk s -> cpu_ok l' d st) as Hoth.
  { intros d st _ Hd [Hf| ->]; [|by apply HC]. destruct (HC _ _ Hd) as [_ [H1 H2 H3]]. split; try done. by eapply act_ok_other. }
  split; cbn [lk cpus].
  - intros d st. rewrite lookup_insert_Some. intros [[<- <-]|[Hne Hd]]; [done|]. split; [by apply (HC d st)|].
    apply Hoth; [done|done|]. destruct Hch as [->|Hf _ _ _|Hf _ _|Hf _ _]; [by right|left..].
    + destruct (HC _ _ Hd). lia.
    + congruence.
    + congruence.
  - destruct Hch as [-> _|_ Hf _ _|_ Hf _|_ Hf Hcnt]; [done|lia|lia|done].
  - assert (forall b, flag l' = c -> owns b -> exists st, <[c := (b, rest')]> (cpus s) !! flag l' = Some st /\ owns st.1) as Hc'.
    { intros b -> Hb. exists (b, rest'). by rewrite lookup_insert_eq. }
    intros Hn. destruct Hch as [-> Hkeep|_ Hf _ Ho|_ Hf Ho|_ Hf _]; [|by apply Hc'|by apply Hc'|done].
    destruct (HO Hn) as (st & Hst & Ho). destruct (decide (flag (lk s) = c)) as [E|Hne].
    + apply Hc'; [done|]. rewrite E, Ec in Hst. injection Hst as <-. by apply Hkeep.
    + exists st. by rewrite lookup_insert_ne.
Qed.

Lemma wrap32_small n : 0 <= n < 2 ^ 32 -> wrap32 n = n.
Proof. apply Z.mod_small. Qed.

(** A step's change of the lock and the invariant of the CPU that took it *)
Ltac lock_step :=
  split;
  [ first [ by apply lc_same; [done|]; unfold owns; cbn; lia
          | by apply lc_mine; unfold owns; cbn; lia
          | by apply lc_take; unfold owns; cbn; lia
          | by apply lc_free; unfold owns; cbn; lia ]
  | split; cbn; [unfold act_ok; cbn; lia|by left|done] ].

(** The next access of a CPU with interrupts masked keeps the invariant. *)
Lemma lock_go_ok c b l a l' a' rest :
  0 <= c -> cpu_ok l c (a, rest) -> (flag l = -1 -> count l = 0) -> (flag l = c -> owns a) ->
  lock_go c b l a = Some (l', a') -> lock_change c l a l' a' /\ cpu_ok l' c (a', rest).
Proof.
  intros Hc [[Hd Ha] Hm Hr] Hfree Hmine Hgo. destruct a as [p d m], l as [f n].
  assert (p <> Out -> m = true) as Hm' by (destruct Hm as [|[? ?]]; [done|]; by cbn in * ).
  unfold owns in Hmine. destruct p; cbn in Hgo; try done; specialize (Hm' ltac:(done)) as ->; clear Hm; cbn in *;
    rewrite ?wrap32_small in Hgo by lia; repeat case_match; simplify_eq;
    rewrite ?andb_true_iff, ?andb_false_iff, ?Z.eqb_eq, ?Z.eqb_neq in *; lock_step.
Qed.

(** So does every event of a CPU whose callers mask interrupts. *)
Lemma lock_event_ok c e l a rest l' a' rest' :
  0 <= c -> cpu_ok l c (a, rest) -> (flag l = -1 -> count l = 0) -> (flag l = c -> owns a) ->
  lock_event true c e l (a, rest) = Some (l', (a', rest')) -> lock_change c l a l' a' /\ cpu_ok l' c (a', rest').
Proof.
  intros Hc Hok Hfree Hmine He.
  assert (idle a -> forall b, lock_change c l a l b) as Hidle by (intros Hi b; apply lc_same; [done|]; by intros ?%idle_not_owns).
  assert (0 < a_depth a -> a_masked a = true) as Hm' by (destruct (co_mask _ _ _ Hok) as [|[_ ?]]; cbn in *; [done|lia]).
  destruct e as [| | |fails| | | |]; [..|destruct rest as [|b rest]; [done|] ]; cbn in He.
  4: { destruct (lock_go c fails l a) as [[l1 a1]|] eqn:Eg; [|done]. cbn in *. simplify_eq. by eapply lock_go_ok. }
  all: case_match eqn:Ec; try done; rewrite ?andb_true_iff, ?bool_decide_eq_true, ?Z.ltb_lt, ?Z.eqb_eq in Ec.
  (* an interrupt finds the CPU idle *)
  6: { destruct Hok as [Ha [Hm|Hi] Hr]; cbn in *; [congruence|]. simplify_eq.
       split; [by apply Hidle|]. split; cbn; [by apply act_ok_idle|by left|by constructor]. }
  all: destruct a as [p d m], Hok as [[Hd Ha] Hm Hr]; cbn in *; destruct_and?; unfold owns in Hmine; simplify_eq/=.
  1,2,4: lock_step.
  - rewrite Hm' in * by lia. lock_step.
  - split; [by apply Hidle|]. split; cbn; [by apply act_ok_idle|by right|done].
  - split; [by apply Hidle|]. apply Forall_cons in Hr as [Hb Hr]. split; cbn; [by apply act_ok_idle|by right|done].
Qed.

Lemma lock_exec_ok c e s s' : lock_inv s -> Locks.exec true c e s = Some s' -> lock_inv s'.
Proof.
  intros Hi He. pose proof Hi as [HC HF HO]. unfold Locks.exec in He. destruct (cpus s !! c) as [[a rest]|] eqn:Ec; [|done].
  cbn [mbind option_bind] in He. destruct (lock_event true c e (lk s) (a, rest)) as [[l' [a' rest']]|] eqn:Ee; [|done].
  simplify_eq/=.
  destruct (HC _ _ Ec) as [Hc Hok].
  assert (flag (lk s) = c -> owns a) as Hmine.
  { intros E. destruct HO as (st & Hst & Ho); [lia|]. rewrite E, Ec in Hst. by simplify_eq. }
  destruct (lock_event_ok _ _ _ _ _ _ _ _ Hc Hok HF Hmine Ee). by eapply lock_change_inv.
Qed.

Lemma lock_run_ok es s s' : lock_inv s -> run true es s = Some s' -> lock_inv s'.
Proof.
  revert s. induction es as [|[c e] es IH]; intros s Hi Hr; cbn in Hr; [by simplify_eq|].
  destruct (Locks.exec true c e s) as [s1|] eqn:E; [|done]. cbn in Hr. eapply IH; [|done]. by eapply lock_exec_ok.
Qed.

Lemma boot_machine_ok cs : (forall c, c ∈ cs -> 0 <= c) -> lock_inv (boot_machine cs).
Proof.
  intros Hcs. split; cbn; [|done|done]. intros c st [Hc <-]%lookup_gset_to_gmap_Some. split; [by apply Hcs|].
  split; cbn; [by apply act_ok_idle|by right|done].
Qed.

(** An activation that has acquired is the one its CPU runs. *)
Lemma inside_running s c : lock_inv s -> inside s c ->
  exists a rest, cpus s !! c = Some (a, rest) /\ 0 < a_depth a /\ a_masked a = true /\ act_ok (lk s) c a.
Proof.
  intros [HC _ _] (a & rest & Ec & b & Hb & Hd). destruct (HC _ _ Ec) as [_ [Ha Hm Hr]]. cbn in *. exists a, rest.
  apply elem_of_cons in Hb as [->|Hb]; [|rewrite Forall_forall in Hr; destruct (Hr b Hb); lia].
  repeat split; try done; try apply Ha. destruct Hm as [|[_ ?]]; [done|lia].
Qed.

(** C17: when the callers of a [cpulock_t] mask interrupts around its
    outermost acquisition, in whatever order the CPUs take, nest, try and
    release the lock and interrupts arrive: at most one CPU is inside; it is
    the one the flag names and nobody is inside while the lock looks free; it runs with interrupts masked, and between its
    calls the counter is the number of acquisitions it has not released;
    when every CPU is done the lock is as [CPULOCK_INIT] made it. *)
Theorem cpulock_exclusive (cs : gset Z) (es : list (Z * levent)) (s : machine)
    (Hcs : forall c, c ∈ cs -> 0 <= c) (Hrun : run true es (boot_machine cs) = Some s) :
  (forall c d, inside s c -> inside s d -> c = d) /\
  (forall c, inside s c ->
     cpulock_is_owner c (lk s) = true /\
     exists a rest, cpus s !! c = Some (a, rest) /\ a_masked a = true /\ (a_pc a = Out -> count (lk s) = a_depth a)) /\
  (cpulock_is_locked (lk s) = false -> forall c, ~ inside s c) /\
  ((forall c a rest, cpus s !! c = Some (a, rest) -> a_pc a = Out /\ a_depth a = 0) -> lk s = CPULOCK_INIT).
Proof.
  assert (lock_inv s) as Hi by (eapply lock_run_ok; [by apply boot_machine_ok|done]).
  assert (forall c, inside s c -> flag (lk s) = c) as Hflag.
  { intros c (a & rest & _ & Hd & _ & Ha)%inside_running; [|done]. eapply owns_flag; [done|by left]. }
  repeat split.
  - intros c d <-%Hflag <-%Hflag. done.
  - unfold cpulock_is_owner. by rewrite (Hflag c), Z.eqb_refl.
  - destruct (inside_running s c) as (a & rest & Ec & Hd & Hm & [_ Ha]); [done..|]. exists a, rest. split; [done|].
    split; [done|]. intros E. rewrite E in Ha. by apply Ha.
  - intros Hl c Hin. pose proof (Hflag c Hin). destruct Hin as (a & rest & Ec & _), Hi as [HC _ _]. destruct (HC _ _ Ec).
    unfold cpulock_is_locked in Hl. destruct (Z.eqb_spec (flag (lk s)) (-1)); [lia|done].
  - intros Hall. destruct Hi as [_ HF HO]. destruct (decide (flag (lk s) = -1)) as [E|Hn].
    + destruct (lk s); cbn in *. by rewrite E, HF.
    + destruct (HO Hn) as ([a rest] & Hst & Ho). exfalso. by eapply idle_not_owns, Ho; apply (Hall _ _ _ Hst).
Qed.

(** Two CPUs; CPU 0 nests, is asked for again by CPU 1, which spins until it
    is released and then enters *)
Definition masked_trace : list (Z * levent) :=
  [(0, LIrqsave); (0, LAcquire); (0, LGo false); (0, LGo false); (0, LGo false); (0, LGo false);
   (0, LAcquire); (0, LGo false); (0, LGo false);
   (1, LIrqsave); (1, LAcquire); (1, LGo false); (1, LGo false);
   (0, LRelease); (0, LGo false); (0, LGo false);
   (0, LRelease); (0, LGo false); (0, LGo false); (0, LGo false); (0, LIrqrestore);
   (1, LGo false); (1, LGo true); (1, LGo false); (1, LGo false); (1, LGo false)].

Lemma cpulock_exclusive_witness :
  exists s, run true masked_trace (boot_machine {[0; 1]}) = Some s /\ inside s 1 /\ ~ inside s 0 /\ count (lk s) = 1.
Proof.
  destruct (run true masked_trace (boot_machine {[0; 1]})) as [s|] eqn:E; [|by vm_compute in E].
  assert (inside s 1) as H1.
  { vm_compute in E. injection E as <-. eexists _, _. split; [reflexivity|]. eexists. split; [by left|]. done. }
  exists s. split; [done|]. destruct (cpulock_exclusive {[0; 1]} masked_trace s) as (Hone & _ & _ & _).
  - intros c. rewrite elem_of_union, !elem_of_singleton. lia.
  - exact E.
  - split; [done|]. split; [|by vm_compute in E; injection E as <-]. intros H0. by specialize (Hone _ _ H0 H1).
Defined.

(** CPU 0 wins the exchange and is interrupted before it counts; the handler
    takes and releases the same lock, which frees it; CPU 1 enters; CPU 0
    goes on. *)
Definition plain_trace : list (Z * levent) :=
  [(0, LAcquire); (0, LGo false); (0, LGo false); (0, LGo false); (0, LIrq);
   (0, LAcquire); (0, LGo false); (0, LGo false); (0, LRelease); (0, LGo false); (0, LGo false); (0, LGo false); (0, LEret);
   (1, LAcquire); (1, LGo false); (1, LGo false); (1, LGo false); (1, LGo false); (0, LGo false)].

(** C40: [cpulock_acquire] and [cpulocked] with interrupts enabled do not
    exclude: [cpulock_acquire] takes the flag and counts in two accesses, and
    a handler that takes and releases the lock between them makes the
    counter 0 again and frees it, so that two CPUs are inside at once. *)
Theorem cpulock_plain_broken :
  exists es s, run false es (boot_machine {[0; 1]}) = Some s /\ inside s 0 /\ inside s 1.
Proof.
  exists plain_trace. destruct (run false plain_trace (boot_machine {[0; 1]})) as [s|] eqn:E; [|by vm_compute in E].
  exists s. vm_compute in E. injection E as <-.
  split; [done|]. split; (eexists _, _; split; [reflexivity|]; eexists; split; [by left|]; done).
Qed.
