(* ===== verification/Fmt.v ===== *)
(** * Fmt: strings and the formatting of numbers

    src/lib/string/string.c and src/lib/string/fmt.c.  A character is its
    code, a C string an object (list of characters) that contains its
    terminator, a pointer into it an index.  Buffers are the state of the
    computation; an access outside of an object is [EFault].  [STDINT_UNION]
    is the 64-bit word its members overlay. *)

From Stdlib Require Import ZArith Lia.
From stdpp Require Import base tactics numbers list.
From S2P Require Import Prelude.

Open Scope Z_scope.

(** ** Objects *)

Section Objects.
Context {S : Type}.

Definition at_ (s : list Z) (i : Z) : option Z := if i <? 0 then None else s !! Z.to_nat i.

(** [s[i]] of a constant object *)
Definition char_at (s : list Z) (i : Z) : M S Z := deref (at_ s i).

End Objects.

(** [buf[i] = c] and [buf[i]] *)
Definition buf_put (i c : Z) : M (list Z) unit :=
  fun b => match at_ b i with
           | Some _ => Ok (tt, <[Z.to_nat i := c]> b)
           | None => Err EFault
           end.
Definition buf_get (i : Z) : M (list Z) Z :=
  fun b => match at_ b i with
           | Some c => Ok (c, b)
           | None => Err EFault
           end.

(** ** src/lib/string/string.c *)

Fixpoint strcopy_loop (fuel : nat) (src : list Z) (max_size i : Z) : M (list Z) unit :=
  match fuel with
  | O => nofuel
  | S fuel =>
      if i <? wrap64 (max_size - 1) then
        let* c := char_at src i in
        buf_put i c ;;
        if c =? 0 then ret tt else strcopy_loop fuel src max_size (i + 1)
      else buf_put (wrap64 (max_size - 1)) 0
  end.

Definition strcopy (src : list Z) (max_size : Z) : M (list Z) unit :=
  let* n := gets (@length Z) in
  strcopy_loop (S n) src max_size 0.

(** Returns the position at which the loop stops, or that it found a
    difference *)
Fixpoint streq_loop (fuel : nat) (a b : list Z) (i : Z) : M unit (option Z) :=
  match fuel with
  | O => nofuel
  | S fuel =>
      let* x := char_at a i in
      let* y := if x =? 0 then ret 0 else char_at b i in
      if negb (x =? 0) && negb (y =? 0) then
        if negb (x =? y) then ret None else streq_loop fuel a b (i + 1)
      else ret (Some i)
  end.

(** [same]: the two pointers are equal. *)
Definition streq (same : bool) (a b : option (list Z)) : M unit bool :=
  if same then ret true
  else match a, b with
       | Some a, Some b =>
           let* r := streq_loop (S (length a)) a b 0 in
           match r with
           | None => ret false
           | Some i =>
               let* x := char_at a i in
               if x =? 0 then let* y := char_at b i in ret (y =? 0) else ret false
           end
       | None, None => ret true
       | _, _ => ret false
       end.

Fixpoint strlen_loop (fuel : nat) (str : list Z) (s : Z) : M unit Z :=
  match fuel with
  | O => nofuel
  | S fuel =>
      let* c := char_at str s in
      if c =? 0 then ret s else strlen_loop fuel str (s + 1)
  end.

Definition strlen (str : list Z) : M unit Z := strlen_loop (S (length str)) str 0.

(** ** src/lib/string/fmt.c *)

Definition uint8_t_to_ascii_char (n : Z) : M unit Z := ASSERT (n <? 9) ;; ret (n + 48).

(** [STDINT_TYPES] *)
Definition STDINT_INT8 : Z := 0.
Definition STDINT_UINT8 : Z := 1.
Definition STDINT_INT16 : Z := 2.
Definition STDINT_UINT16 : Z := 3.
Definition STDINT_INT32 : Z := 4.
Definition STDINT_UINT32 : Z := 5.
Definition STDINT_INT64 : Z := 6.
Definition STDINT_UINT64 : Z := 7.

(** [STDINT_BASE_REPR] *)
Definition STDINT_BASE_REPR_DEC : Z := 10.
Definition STDINT_BASE_REPR_HEX : Z := 16.
Definition STDINT_BASE_REPR_BIN : Z := 2.
Definition STDINT_BASE_REPR_OCT : Z := 8.

(** '0' to '9' and 'A' to 'F' *)
Definition STDINT_BASE_REPR_CHARS_ : list Z :=
  [48; 49; 50; 51; 52; 53; 54; 55; 56; 57; 65; 66; 67; 68; 69; 70].

(** The signed reading of the low [w] bits *)
Definition as_signed (w n : Z) : Z := if wrap w n <? 2 ^ (w - 1) then wrap w n else wrap w n - 2 ^ w.

(** The first switch: the length of the prefix *)
Definition repr_len_of (repr : Z) : M (list Z) Z :=
  if repr =? STDINT_BASE_REPR_DEC then ret 0
  else if repr =? STDINT_BASE_REPR_HEX then ret 2
  else if repr =? STDINT_BASE_REPR_BIN then ret 2
  else if repr =? STDINT_BASE_REPR_OCT then ret 1
  else panic.

(** The second switch: [is_signed], [signed_value], [unsigned_value] *)
Definition read_union (n n_type : Z) : M (list Z) (bool * Z * Z) :=
  if n_type =? STDINT_INT8 then ret (true, as_signed 8 n, 0)
  else if n_type =? STDINT_UINT8 then ret (false, 0, wrap 8 n)
  else if n_type =? STDINT_INT16 then ret (true, as_signed 16 n, 0)
  else if n_type =? STDINT_UINT16 then ret (false, 0, wrap 16 n)
  else if n_type =? STDINT_INT32 then ret (true, as_signed 32 n, 0)
  else if n_type =? STDINT_UINT32 then ret (false, 0, wrap 32 n)
  else if n_type =? STDINT_INT64 then ret (true, as_signed 64 n, 0)
  else if n_type =? STDINT_UINT64 then ret (false, 0, wrap 64 n)
  else panic.

(** [negative] and [value] *)
Definition magnitude (is_signed : bool) (signed_value unsigned_value : Z) : bool * Z :=
  if is_signed then
    if signed_value <? 0 then (true, wrap64 (- signed_value)) else (false, wrap64 signed_value)
  else (false, unsigned_value).

(** The switch of the zero, then its digit and terminator *)
Definition put_zero (repr : Z) : M (list Z) unit :=
  let* i :=
    if repr =? STDINT_BASE_REPR_HEX then buf_put 0 48 ;; buf_put 1 120 ;; ret 2
    else if repr =? STDINT_BASE_REPR_BIN then buf_put 0 48 ;; buf_put 1 98 ;; ret 2
    else if repr =? STDINT_BASE_REPR_OCT then buf_put 0 48 ;; ret 1
    else ret 0 in
  buf_put i 48 ;;
  buf_put (i + 1) 0.

(** The loop over the digits, least significant first; returns [i] *)
Fixpoint digit_loop (fuel : nat) (repr repr_len buf_len : Z) (negative : bool) (value i : Z) : M (list Z) Z :=
  match fuel with
  | O => nofuel
  | S fuel =>
      if 0 <? value then
        let digit := wrap8 (value mod repr) in
        if buf_len <=? i + 1 + Z.b2z negative + repr_len then panic
        else
          let* c := char_at STDINT_BASE_REPR_CHARS_ digit in
          buf_put i c ;;
          digit_loop fuel repr repr_len buf_len negative (value / repr) (i + 1)
      else ret i
  end.

(** The switch of the reversed prefix; returns [i] *)
Definition put_prefix (repr i : Z) : M (list Z) Z :=
  if repr =? STDINT_BASE_REPR_HEX then buf_put i 120 ;; buf_put (i + 1) 48 ;; ret (i + 2)
  else if repr =? STDINT_BASE_REPR_BIN then buf_put i 98 ;; buf_put (i + 1) 48 ;; ret (i + 2)
  else if repr =? STDINT_BASE_REPR_OCT then buf_put i 48 ;; ret (i + 1)
  else ret i.

Fixpoint reverse_loop (fuel : nat) (start end_ : Z) : M (list Z) unit :=
  match fuel with
  | O => nofuel
  | S fuel =>
      if start <? end_ then
        let* tmp := buf_get start in
        let* e := buf_get end_ in
        buf_put start e ;;
        buf_put end_ tmp ;;
        reverse_loop fuel (start + 1) (end_ - 1)
      else ret tt
  end.

(** 64 digits are enough in every base from 2 on. *)
Definition stdint_to_ascii (n n_type buf_len repr : Z) : M (list Z) unit :=
  let* repr_len := repr_len_of repr in
  let* (is_signed, signed_value, unsigned_value) := read_union n n_type in
  let '(negative, value) := magnitude is_signed signed_value unsigned_value in
  if (value =? 0) && negb negative then
    if buf_len <? 2 + repr_len then panic else put_zero repr
  else
    let* i := digit_loop 65 repr repr_len buf_len negative value 0 in
    let* i := put_prefix repr i in
    let* i := if negative then buf_put i 45 ;; ret (i + 1) else ret i in
    buf_put i 0 ;;
    reverse_loop (S (Z.to_nat i)) 0 (i - 1).

(** *** Printing

    [putc] is the callback with the state its argument points to; a variable
    argument is a word of 32 or 64 bits or a string. *)
Inductive va_arg : Type :=
  | VaInt (z : Z)
  | VaWord (z : Z)
  | VaStr (s : option (list Z)).

Section Print.
Context {A : Type} (putc : Z -> A -> A).

(** The state: what [args] points to, and the local buffer of 1024 *)
Definition emit (c : Z) : M (A * list Z) unit := modify (fun s => (putc c s.1, s.2)).

Definition in_buf {B} (m : M (list Z) B) : M (A * list Z) B :=
  fun s => match m s.2 with
           | Ok (x, b) => Ok (x, (s.1, b))
           | Err e => Err e
           end.

Fixpoint puts_loop (fuel : nat) (s : list Z) (i : Z) : M (A * list Z) unit :=
  match fuel with
  | O => nofuel
  | S fuel =>
      let* c := char_at s i in
      if c =? 0 then ret tt else emit c ;; puts_loop fuel s (i + 1)
  end.

Definition puts_ (s : list Z) : M (A * list Z) unit := puts_loop (S (length s)) s 0.

Definition put_number (n n_type repr : Z) : M (A * list Z) unit :=
  in_buf (stdint_to_ascii n n_type 1024 repr) ;;
  let* b := gets snd in
  puts_ b.

(** [va_arg] of each type *)
Definition va_int (ap : list va_arg) : M (A * list Z) (Z * list va_arg) :=
  match ap with VaInt z :: ap => ret (wrap32 z, ap) | _ => fault end.
Definition va_word (ap : list va_arg) : M (A * list Z) (Z * list va_arg) :=
  match ap with VaWord z :: ap => ret (wrap64 z, ap) | _ => fault end.
Definition va_str (ap : list va_arg) : M (A * list Z) (option (list Z) * list va_arg) :=
  match ap with VaStr s :: ap => ret (s, ap) | _ => fault end.

(** "(null)" *)
Definition null_str : list Z := [40; 110; 117; 108; 108; 41; 0].

(** The switch on the conversion: the arguments that are left *)
Definition convert (c : Z) (ap : list va_arg) : M (A * list Z) (list va_arg) :=
  if c =? 37 then emit 37 ;; ret ap
  else if c =? 99 then let* (z, ap) := va_int ap in emit (wrap8 z) ;; ret ap
  else if c =? 115 then
    let* (s, ap) := va_str ap in
    puts_ (default null_str s) ;; ret ap
  else if c =? 100 then let* (z, ap) := va_int ap in put_number z STDINT_INT32 STDINT_BASE_REPR_DEC ;; ret ap
  else if c =? 117 then let* (z, ap) := va_int ap in put_number z STDINT_UINT32 STDINT_BASE_REPR_DEC ;; ret ap
  else if c =? 120 then let* (z, ap) := va_int ap in put_number z STDINT_UINT32 STDINT_BASE_REPR_HEX ;; ret ap
  else if c =? 112 then let* (z, ap) := va_word ap in put_number z STDINT_UINT64 STDINT_BASE_REPR_HEX ;; ret ap
  else if c =? 98 then let* (z, ap) := va_word ap in put_number z STDINT_UINT64 STDINT_BASE_REPR_BIN ;; ret ap
  else if c =? 108 then let* (z, ap) := va_word ap in put_number z STDINT_UINT64 STDINT_BASE_REPR_DEC ;; ret ap
  else emit 37 ;; emit c ;; ret ap.

Fixpoint print_loop (fuel : nat) (fmt : list Z) (f : Z) (ap : list va_arg) : M (A * list Z) unit :=
  match fuel with
  | O => nofuel
  | S fuel =>
      let* c := char_at fmt f in
      if c =? 0 then ret tt
      else if negb (c =? 37) then emit c ;; print_loop fuel fmt (f + 1) ap
      else
        let* c := char_at fmt (f + 1) in
        let* ap := convert c ap in
        print_loop fuel fmt (f + 2) ap
  end.

(** [buf] is the local array, whose contents are not initialised. *)
Definition str_fmt_print (fmt : list Z) (ap : list va_arg) (buf : list Z) (a : A) : res A :=
  match print_loop (S (length fmt)) fmt 0 ap (a, buf) with
  | Ok (_, (a, _)) => Ok a
  | Err e => Err e
  end.

End Print.
