(* ===== verification/FmtCorrect.v ===== *)
(** * FmtCorrect: numbers are printed as numerals

    [itoa] is the numeral of an integer: sign, prefix of the base, digits.
    [stdint_to_ascii] writes exactly it with its terminator, or panics when
    it does not fit; [str_fmt_print] renders its format with it. *)

From Stdlib Require Import ZArith Lia.
From stdpp Require Import base tactics numbers list.
From S2P Require Import Prelude Fmt.

Open Scope Z_scope.

(** ** Reference *)

(** The digits of [v], least significant first, at most [n] of them *)
Fixpoint digits_le (n : nat) (base v : Z) : list Z :=
  match n with
  | O => []
  | S n => if v =? 0 then [] else v mod base :: digits_le n base (v / base)
  end.

Definition digits (base v : Z) : list Z := if v =? 0 then [0] else reverse (digits_le 64 base v).

(** What digits stand for, most significant first *)
Definition digits_value (base : Z) (ds : list Z) : Z := foldl (fun acc d => acc * base + d) 0 ds.

Definition digit_char (d : Z) : Z := if d <? 10 then 48 + d else 55 + d.

Definition prefix (base : Z) : list Z :=
  if base =? 16 then [48; 120] else if base =? 2 then [48; 98] else if base =? 8 then [48] else [].

Definition sign (v : Z) : list Z := if v <? 0 then [45] else [].

Definition itoa (base v : Z) : list Z := sign v ++ prefix base ++ map digit_char (digits base (Z.abs v)).

(** The integer that a word is read as *)
Definition int_of (n n_type : Z) : Z :=
  let w := 2 ^ (3 + n_type / 2) in
  if n_type mod 2 =? 0 then as_signed w n else wrap w n.

Definition is_base (base : Z) : Prop := base = 2 \/ base = 8 \/ base = 10 \/ base = 16.

Lemma digits_le_value n base v : 1 < base -> 0 <= v < base ^ Z.of_nat n ->
  foldr (fun d acc => acc * base + d) 0 (digits_le n base v) = v /\ Forall (fun d => 0 <= d < base) (digits_le n base v).
Proof.
  intros Hb. revert v. induction n as [|n IH]; intros v Hv; cbn [digits_le]; [cbn in *; split; [lia|done]|].
  destruct (Z.eqb_spec v 0) as [->|]; [done|]. pose proof (Z.mod_pos_bound v base).
  destruct (IH (v / base)) as [IHv IHd].
  { split; [apply Z.div_pos; lia|]. apply Z.div_lt_upper_bound; [lia|]. rewrite Nat2Z.inj_succ, Z.pow_succ_r in Hv by lia. lia. }
  cbn [foldr]. rewrite IHv. split; [|constructor; [lia|done] ]. pose proof (Z.div_mod v base). lia.
Qed.

(** No leading zero *)
Lemma digits_le_last n base v : 1 < base -> 0 < v < base ^ Z.of_nat n -> exists ds d, digits_le n base v = ds ++ [d] /\ 0 < d.
Proof.
  intros Hb. revert v. induction n as [|n IH]; intros v Hv; cbn [digits_le]; [cbn in *; lia|].
  rewrite (proj2 (Z.eqb_neq v 0)) by lia. pose proof (Z.mod_pos_bound v base). pose proof (Z.div_mod v base).
  destruct (Z.eq_dec (v / base) 0) as [E|E].
  - exists [], (v mod base). rewrite E. split; [by destruct n|lia].
  - destruct (IH (v / base)) as (ds & d & -> & Hd).
    { split; [pose proof (Z.div_pos v base); lia|]. apply Z.div_lt_upper_bound; [lia|]. rewrite Nat2Z.inj_succ, Z.pow_succ_r in Hv by lia. lia. }
    by exists (v mod base :: ds), d.
Qed.

Lemma pow_base base : is_base base -> 2 ^ 64 <= base ^ Z.of_nat 64.
Proof. intros Hb. apply Z.pow_le_mono_l. unfold is_base in Hb. lia. Qed.

Lemma foldl_reverse {A B} (f : A -> B -> A) a l : foldl f a (reverse l) = foldr (fun x acc => f acc x) a l.
Proof. induction l as [|x l IH]; [done|]. rewrite reverse_cons, foldl_app, IH. done. Qed.

(** The digits are digits, stand for the number and have no leading zero. *)
Lemma digits_ok base v : is_base base -> 0 <= v < 2 ^ 64 ->
  digits_value base (digits base v) = v /\ Forall (fun d => 0 <= d < base) (digits base v) /\
  (hd 0 (digits base v) = 0 -> digits base v = [0]).
Proof.
  intros Hb Hv. assert (1 < base) by (unfold is_base in Hb; lia). pose proof (pow_base _ Hb).
  unfold digits, digits_value. destruct (Z.eqb_spec v 0) as [->|Hn].
  { split; [done|]. split; [repeat constructor; lia|done]. }
  destruct (digits_le_value 64 base v) as [E F]; [lia..|]. split; [|split].
  - rewrite foldl_reverse. exact E.
  - by apply Forall_reverse.
  - destruct (digits_le_last 64 base v) as (ds & d & -> & Hd); [lia..|]. rewrite reverse_snoc. cbn. lia.
Qed.

(** ** Writing into a buffer whose first characters are done *)

Lemma at_app pre x post i : i = Z.of_nat (length pre) -> at_ (pre ++ x :: post) i = Some x.
Proof.
  intros ->. unfold at_. rewrite (proj2 (Z.ltb_ge _ 0)) by lia. rewrite Nat2Z.id. apply list_lookup_middle. done.
Qed.

Lemma buf_put_app pre x post i c : i = Z.of_nat (length pre) ->
  buf_put i c (pre ++ x :: post) = Ok (tt, (pre ++ [c]) ++ post).
Proof.
  intros ->. unfold buf_put. rewrite (at_app pre x post) by done. rewrite Nat2Z.id, insert_app_r_alt, Nat.sub_diag by lia.
  cbn. by rewrite <-app_assoc.
Qed.

(** Writing the characters [cs] behind [pre] *)
Definition written (pre cs rest : list Z) : list Z := pre ++ cs ++ drop (length cs) rest.

Lemma buf_put_written pre cs rest i c : i = Z.of_nat (length pre + length cs) -> (length cs < length rest)%nat ->
  buf_put i c (written pre cs rest) = Ok (tt, written pre (cs ++ [c]) rest).
Proof.
  intros -> Hl. unfold written. destruct (drop (length cs) rest) as [|x post] eqn:E.
  { apply (f_equal length) in E. rewrite length_drop in E. cbn in E. lia. }
  rewrite (app_assoc pre), (buf_put_app _ x) by (rewrite length_app; lia). do 2 f_equal. rewrite <-!app_assoc. do 3 f_equal.
  rewrite length_app. rewrite <-drop_drop, E. done.
Qed.

Lemma chars_ok d : 0 <= d < 16 -> at_ STDINT_BASE_REPR_CHARS_ d = Some (digit_char d).
Proof.
  intros Hd. assert (d = 0 \/ d = 1 \/ d = 2 \/ d = 3 \/ d = 4 \/ d = 5 \/ d = 6 \/ d = 7 \/ d = 8 \/ d = 9 \/
    d = 10 \/ d = 11 \/ d = 12 \/ d = 13 \/ d = 14 \/ d = 15) as H by lia.
  by destruct_or! H; subst.
Qed.

(** ** The loops *)

Section Digits.
Context (base repr_len buf_len : Z) (negative : bool).
Hypothesis (Hb : is_base base).

Lemma digit_step v : 0 < v -> 0 <= v mod base < 16 /\ wrap8 (v mod base) = v mod base.
Proof.
  intros Hv. unfold is_base in Hb. pose proof (Z.mod_pos_bound v base). split; [lia|]. apply wrap_small. unfold u_range. lia.
Qed.

(** One round that has room *)
Lemma digit_loop_round n v rest cs :
  0 < v -> Z.of_nat (length cs) + 1 + Z.b2z negative + repr_len < buf_len -> 0 <= repr_len -> buf_len <= Z.of_nat (length rest) ->
  digit_loop (S n) base repr_len buf_len negative v (Z.of_nat (length cs)) (written [] cs rest) =
  digit_loop n base repr_len buf_len negative (v / base) (Z.of_nat (length (cs ++ [digit_char (v mod base)])))
    (written [] (cs ++ [digit_char (v mod base)]) rest).
Proof.
  intros Hv Hfit Hr Hlen. destruct (digit_step v Hv) as [Hd Ew]. assert (0 <= Z.b2z negative) by (destruct negative; cbn; lia).
  cbn [digit_loop]. rewrite (proj2 (Z.ltb_lt 0 v) Hv), (proj2 (Z.leb_gt _ _) Hfit), Ew.
  unfold char_at. rewrite chars_ok by done. cbn [deref]. erewrite bind_ok by reflexivity. cbn beta.
  erewrite bind_ok by (apply buf_put_written; cbn; lia). rewrite length_app. do 2 f_equal. cbn. lia.
Qed.

Lemma digits_le_pos n v : 0 < v -> digits_le (S n) base v = v mod base :: digits_le n base (v / base).
Proof. intros Hv. cbn. by rewrite (proj2 (Z.eqb_neq v 0)) by lia. Qed.

Lemma quotient_bound n v : 0 <= v < base ^ Z.of_nat (S n) -> 0 <= v / base < base ^ Z.of_nat n.
Proof.
  intros Hv. unfold is_base in Hb. split; [apply Z.div_pos; lia|]. apply Z.div_lt_upper_bound; [lia|].
  rewrite Nat2Z.inj_succ, Z.pow_succ_r in Hv by lia. lia.
Qed.

Lemma digit_loop_ok n v rest cs :
  0 <= v < base ^ Z.of_nat n -> 0 <= repr_len -> buf_len <= Z.of_nat (length rest) ->
  (0 < v -> Z.of_nat (length cs + length (digits_le n base v)) + Z.b2z negative + repr_len < buf_len) ->
  digit_loop (S n) base repr_len buf_len negative v (Z.of_nat (length cs)) (written [] cs rest) =
  Ok (Z.of_nat (length cs + length (digits_le n base v)), written [] (cs ++ map digit_char (digits_le n base v)) rest).
Proof.
  intros Hv Hr Hlen. revert v cs Hv. induction n as [|n IH]; intros v cs Hv Hfit.
  { cbn in Hv. assert (v = 0) as -> by lia. cbn. by rewrite app_nil_r, Nat.add_0_r. }
  destruct (Z.eq_dec v 0) as [->|Hn]; [cbn; by rewrite app_nil_r, Nat.add_0_r|].
  rewrite digits_le_pos in * by lia. cbn [length map] in *. specialize (Hfit ltac:(lia)).
  rewrite digit_loop_round by lia. rewrite IH; [|by apply quotient_bound|rewrite length_app; cbn; lia].
  rewrite length_app, <-app_assoc. do 3 f_equal. cbn. lia.
Qed.

(** Without room for all digits the loop panics. *)
Lemma digit_loop_panics n v rest cs :
  0 < v < base ^ Z.of_nat n -> 0 <= repr_len -> buf_len <= Z.of_nat (length rest) ->
  buf_len <= Z.of_nat (length cs + length (digits_le n base v)) + Z.b2z negative + repr_len ->
  digit_loop (S n) base repr_len buf_len negative v (Z.of_nat (length cs)) (written [] cs rest) = Err EPanic.
Proof.
  intros Hv Hr Hlen. revert v cs Hv. induction n as [|n IH]; intros v cs Hv Hfit; [cbn in Hv; lia|].
  rewrite digits_le_pos in * by lia. cbn [length] in Hfit.
  destruct (Z.lt_ge_cases (Z.of_nat (length cs) + 1 + Z.b2z negative + repr_len) buf_len) as [Hok|Hno].
  - rewrite digit_loop_round by lia. destruct (quotient_bound n v) as [Hq0 Hq1]; [lia|].
    destruct (Z.eq_dec (v / base) 0) as [E|E].
    + rewrite E in Hfit. replace (digits_le n base 0) with (@nil Z) in Hfit by (by destruct n). cbn in Hfit. lia.
    + apply IH; [lia|]. rewrite length_app. cbn. lia.
  - cbn [digit_loop]. rewrite (proj2 (Z.ltb_lt 0 v)), (proj2 (Z.leb_le _ _) Hno) by lia. done.
Qed.

End Digits.

Lemma buf_get_app pre x post i : i = Z.of_nat (length pre) -> buf_get i (pre ++ x :: post) = Ok (x, pre ++ x :: post).
Proof. intros Hi. unfold buf_get. by rewrite at_app. Qed.

(** The loop that exchanges the two ends reverses what is between them. *)
Lemma reverse_loop_ok fuel pre mid post :
  (length mid < fuel)%nat ->
  reverse_loop fuel (Z.of_nat (length pre)) (Z.of_nat (length pre + length mid) - 1) (pre ++ mid ++ post) =
  Ok (tt, pre ++ reverse mid ++ post).
Proof.
  revert pre mid post. induction fuel as [|fuel IH]; intros pre mid post Hf; [lia|]. cbn [reverse_loop].
  destruct mid as [|x mid]; [|destruct mid as [|y mid _] using rev_ind].
  1,2: by rewrite (proj2 (Z.ltb_ge _ _)) by (cbn; lia).
  cbn [length] in *. rewrite length_app in *. cbn [length] in *.
  rewrite (proj2 (Z.ltb_lt _ _)) by lia. cbn [app]. rewrite <-(app_assoc mid). cbn [app].
  assert (Z.of_nat (length pre + S (length mid + 1)) - 1 = Z.of_nat (length (pre ++ x :: mid))) as Ee by (rewrite length_app; cbn; lia).
  erewrite bind_ok by (by apply buf_get_app). rewrite Ee.
  change (pre ++ x :: mid ++ y :: post) with (pre ++ (x :: mid) ++ y :: post). rewrite (app_assoc pre).
  erewrite bind_ok by (by apply buf_get_app). rewrite <-(app_assoc pre). cbn [app].
  erewrite bind_ok by (by apply buf_put_app). rewrite app_assoc.
  erewrite bind_ok by (apply buf_put_app; rewrite !length_app; cbn; lia).
  replace (Z.of_nat (length pre) + 1) with (Z.of_nat (length (pre ++ [y]))) by (rewrite length_app; cbn; lia).
  replace (Z.of_nat (length (pre ++ x :: mid)) - 1) with (Z.of_nat (length (pre ++ [y]) + length mid) - 1) by (rewrite !length_app; cbn; lia).
  rewrite <-!app_assoc. rewrite (app_assoc pre). rewrite IH by lia. do 2 f_equal.
  change (x :: mid ++ [y]) with ((x :: mid) ++ [y]). rewrite reverse_snoc, reverse_cons, <-!app_assoc.
  cbn. by rewrite <-!app_assoc.
Qed.

(** The switches *)
Definition repr_len (base : Z) : Z := Z.of_nat (length (prefix base)).

Lemma repr_len_of_ok base b : is_base base -> repr_len_of base b = Ok (repr_len base, b).
Proof. unfold is_base. intros H. by destruct_or! H; subst. Qed.

Lemma put_prefix_ok base cs rest : is_base base -> (length cs + length (prefix base) <= length rest)%nat ->
  put_prefix base (Z.of_nat (length cs)) (written [] cs rest) =
  Ok (Z.of_nat (length (cs ++ reverse (prefix base))), written [] (cs ++ reverse (prefix base)) rest).
Proof.
  unfold is_base. intros H Hl. rewrite length_app.
  destruct_or! H; subst; cbn in Hl; unfold put_prefix; cbn [Z.eqb Pos.eqb STDINT_BASE_REPR_HEX STDINT_BASE_REPR_BIN STDINT_BASE_REPR_OCT].
  all: repeat (erewrite bind_ok by (apply buf_put_written; rewrite ?length_app; cbn; lia)).
  all: unfold ret; rewrite <-?app_assoc, ?app_nil_r; cbn; do 2 f_equal; try done; lia.
Qed.

Lemma read_union_ok n n_type b : 0 <= n_type < 8 ->
  exists is_signed sv uv, read_union n n_type b = Ok ((is_signed, sv, uv), b) /\
    magnitude is_signed sv uv = (int_of n n_type <? 0, Z.abs (int_of n n_type)) /\ Z.abs (int_of n n_type) < 2 ^ 64.
Proof.
  assert (forall w, 0 < w <= 64 -> magnitude true (as_signed w n) 0 = (as_signed w n <? 0, Z.abs (as_signed w n)) /\
    Z.abs (as_signed w n) < 2 ^ 64) as Hs.
  { intros w Hw. assert (0 <= wrap w n < 2 ^ w) by (apply wrap_range; lia). assert (2 ^ w <= 2 ^ 64) by (apply Z.pow_le_mono_r; lia).
    assert (2 ^ w = 2 * 2 ^ (w - 1)) by (rewrite <-Z.pow_succ_r by lia; f_equal; lia).
    assert (Z.abs (as_signed w n) < 2 ^ 64) by (unfold as_signed; case_match eqn:E; rewrite ?Z.ltb_lt, ?Z.ltb_ge in E; lia).
    split; [|done]. unfold magnitude. destruct (Z.ltb_spec (as_signed w n) 0); f_equal; rewrite wrap_small; unfold u_range; lia. }
  assert (forall w, 0 < w <= 64 -> magnitude false 0 (wrap w n) = (wrap w n <? 0, Z.abs (wrap w n)) /\ Z.abs (wrap w n) < 2 ^ 64) as Hu.
  { intros w Hw. assert (0 <= wrap w n < 2 ^ w) by (apply wrap_range; lia). assert (2 ^ w <= 2 ^ 64) by (apply Z.pow_le_mono_r; lia).
    split; [|lia]. unfold magnitude. rewrite (proj2 (Z.ltb_ge _ _)), Z.abs_eq by lia. done. }
  intros Ht. assert (n_type = 0 \/ n_type = 1 \/ n_type = 2 \/ n_type = 3 \/ n_type = 4 \/ n_type = 5 \/ n_type = 6 \/ n_type = 7) as H by lia.
  destruct_or! H; subst; eexists _, _, _; (split; [reflexivity|]); first [apply Hs; lia|apply Hu; lia].
Qed.

(** The zero *)
Lemma put_zero_ok base rest : is_base base -> (2 + length (prefix base) <= length rest)%nat ->
  put_zero base rest = Ok (tt, written [] (itoa base 0 ++ [0]) rest).
Proof.
  unfold is_base. intros H Hl.
  destruct_or! H; subst; destruct rest as [|a [|b [|c [|d rest]]]]; cbn in Hl; try lia; reflexivity.
Qed.

Lemma itoa_length base v : v <> 0 -> length (itoa base v) =
  (length (sign v) + length (prefix base) + length (digits_le 64 base (Z.abs v)))%nat.
Proof.
  intros Hv. unfold itoa, digits. rewrite (proj2 (Z.eqb_neq _ 0)) by lia. rewrite !length_app, length_map, length_reverse. lia.
Qed.

(** What is in the buffer before it is reversed *)
Lemma itoa_reverse base v : v <> 0 ->
  reverse ((map digit_char (digits_le 64 base (Z.abs v)) ++ reverse (prefix base)) ++ sign v) = itoa base v.
Proof.
  intros Hv. unfold itoa, digits. rewrite (proj2 (Z.eqb_neq _ 0)) by lia.
  rewrite !reverse_app, reverse_involutive. f_equal; [unfold sign; by case_match|]. f_equal.
  unfold reverse. rewrite !rev_append_rev, !app_nil_r. symmetry. apply map_rev.
Qed.

Lemma put_sign_ok v cs buf : (length cs + length (sign v) <= length buf)%nat ->
  (if v <? 0 then buf_put (Z.of_nat (length cs)) 45 ;; ret (Z.of_nat (length cs) + 1) else ret (Z.of_nat (length cs)))
    (written [] cs buf) = Ok (Z.of_nat (length (cs ++ sign v)), written [] (cs ++ sign v) buf).
Proof.
  intros Hl. rewrite length_app. unfold sign in *. destruct (v <? 0); cbn in Hl.
  - erewrite bind_ok by (apply buf_put_written; cbn; lia). unfold ret. cbn. do 2 f_equal. lia.
  - unfold ret. cbn. rewrite app_nil_r, Nat.add_0_r. done.
Qed.

Lemma zero_ok base buf_len buf : is_base base -> buf_len <= Z.of_nat (length buf) ->
  (if buf_len <? 2 + repr_len base then panic else put_zero base) buf =
  if Z.of_nat (length (itoa base 0)) + 1 <=? buf_len then Ok (tt, itoa base 0 ++ [0] ++ drop (S (length (itoa base 0))) buf)
  else Err EPanic.
Proof.
  intros Hb Hlen. unfold repr_len. assert (length (itoa base 0) = (1 + length (prefix base))%nat) as El.
  { unfold itoa. rewrite !length_app, length_map. change (length (prefix base) + 1 = 1 + length (prefix base))%nat. lia. }
  rewrite El. destruct (Z.ltb_spec buf_len (2 + Z.of_nat (length (prefix base)))).
  - rewrite (proj2 (Z.leb_gt _ _)) by lia. done.
  - rewrite (proj2 (Z.leb_le _ _)) by lia. rewrite put_zero_ok by (done || lia). unfold written. rewrite <-El. cbn [app].
    rewrite length_app, <-app_assoc. cbn. by rewrite Nat.add_1_r.
Qed.

(** All of [stdint_to_ascii]: the numeral and its terminator, if they fit *)
Lemma stdint_to_ascii_spec n n_type base buf_len buf :
  0 <= n_type < 8 -> is_base base -> buf_len <= Z.of_nat (length buf) ->
  let s := itoa base (int_of n n_type) in
  stdint_to_ascii n n_type buf_len base buf =
  if Z.of_nat (length s) + 1 <=? buf_len then Ok (tt, s ++ [0] ++ drop (S (length s)) buf) else Err EPanic.
Proof.
  intros Ht Hb Hlen s. subst s. destruct (read_union_ok n n_type buf Ht) as (sg & sv & uv & Er & Em & Habs).
  unfold stdint_to_ascii. erewrite bind_ok by (by apply repr_len_of_ok). erewrite bind_ok by exact Er. cbn beta iota. rewrite Em.
  generalize dependent (int_of n n_type). intros v _ Habs. clear Er.
  destruct (Z.eq_dec v 0) as [->|Hv].
  { change (Z.abs 0 =? 0) with true. change (0 <? 0) with false. cbn [andb negb]. by apply zero_ok. }
  rewrite (proj2 (Z.eqb_neq (Z.abs v) 0)) by lia. cbn [andb].
  assert (Z.b2z (v <? 0) = Z.of_nat (length (sign v))) as Eb by (unfold sign; by destruct (v <? 0)).
  assert (0 < Z.abs v < base ^ Z.of_nat 64) as Hr by (pose proof (pow_base _ Hb); lia).
  assert (0 <= repr_len base) as Hp by (unfold repr_len; lia).
  rewrite itoa_length by done. change buf with (written [] [] buf) at 1.
  destruct (Z.leb_spec (Z.of_nat (length (sign v) + length (prefix base) + length (digits_le 64 base (Z.abs v))) + 1) buf_len).
  - erewrite bind_ok by (apply (digit_loop_ok base _ _ _ Hb 64 (Z.abs v) buf []); [lia|done|done|]; intros _;
      rewrite Eb; unfold repr_len; cbn [length]; lia).
    set (ds := map digit_char (digits_le 64 base (Z.abs v))). cbn [app length Nat.add].
    replace (length (digits_le 64 base (Z.abs v))) with (length ds) in * by apply length_map.
    erewrite bind_ok by (apply put_prefix_ok; [done|lia]).
    erewrite bind_ok by (apply put_sign_ok; rewrite length_app, length_reverse; lia).
    set (out := (ds ++ reverse (prefix base)) ++ sign v).
    assert (length out = length (sign v) + length (prefix base) + length ds)%nat as El.
    { unfold out. rewrite !length_app, length_reverse. lia. }
    erewrite bind_ok by (apply buf_put_written; cbn [length]; lia).
    rewrite Nat2Z.id. unfold written. cbn [app]. rewrite <-app_assoc.
    pose proof (reverse_loop_ok (S (length out)) [] out ([0] ++ drop (length (out ++ [0])) buf)) as Hrev. cbn [app length Nat.add] in Hrev.
    change (Z.of_nat 0) with 0 in Hrev. cbn [app]. rewrite Hrev by lia. unfold out, ds. rewrite itoa_reverse by done. fold ds out.
    rewrite length_app, El. cbn [length]. rewrite Nat.add_1_r. done.
  - erewrite bind_err; [done|]. apply (digit_loop_panics base _ _ _ Hb 64 (Z.abs v) buf []); [done..|].
    rewrite Eb. unfold repr_len. cbn [length]. lia.
Qed.

(** ** C strings *)

(** The characters before the terminator *)
Fixpoint cstr (o : list Z) : option (list Z) :=
  match o with
  | [] => None
  | c :: o => if c =? 0 then Some [] else s ← cstr o; Some (c :: s)
  end.

Lemma cstr_Some o s : cstr o = Some s <-> exists post, o = s ++ 0 :: post /\ Forall (fun c => c <> 0) s.
Proof.
  revert s. induction o as [|c o IH]; intros s; cbn.
  { split; [done|]. by intros (post & E%(f_equal length) & _); rewrite length_app in E; cbn in E; lia. }
  destruct (Z.eqb_spec c 0) as [->|Hc].
  - split; [intros [= <-]; by exists o|]. intros (post & E & F). destruct s as [|d s]; [done|]. injection E as <- _.
    by apply Forall_cons in F as [? _].
  - destruct (cstr o) as [s'|] eqn:Eo; cbn.
    + destruct (proj1 (IH s') eq_refl) as (post & -> & F). split.
      * intros [= <-]. exists post. split; [done|]. by constructor.
      * intros (post' & E & F'). destruct s as [|d s]; [by injection E as -> _|]. injection E as <- E.
        apply Forall_cons in F' as [_ F']. f_equal. f_equal.
        assert (Some s' = Some s) as [=]; [|done]. apply IH. by exists post'.
    + split; [done|]. intros (post & E & F). destruct s as [|d s]; [by injection E as ->|]. injection E as <- ->.
      apply Forall_cons in F as [_ F]. assert (None = Some s) as [=]. apply IH. by exists post.
Qed.

Lemma char_at_app {S} pre c post i (s : S) : i = Z.of_nat (length pre) -> char_at (pre ++ c :: post) i s = Ok (c, s).
Proof. intros Hi. unfold char_at. by rewrite at_app. Qed.

Lemma cons_snoc {A} (pre : list A) c l : pre ++ c :: l = (pre ++ [c]) ++ l.
Proof. by rewrite <-app_assoc. Qed.

Lemma length_snoc {A} (pre : list A) c : Z.of_nat (length pre) + 1 = Z.of_nat (length (pre ++ [c])).
Proof. rewrite length_app. cbn. lia. Qed.

Lemma strlen_loop_ok fuel pre s post :
  Forall (fun c => c <> 0) s -> (length s < fuel)%nat ->
  strlen_loop fuel (pre ++ s ++ 0 :: post) (Z.of_nat (length pre)) tt = Ok (Z.of_nat (length pre + length s), tt).
Proof.
  intros F. revert fuel pre. induction F as [|c s Hc F IH]; intros [|fuel] pre Hf; cbn in Hf; try lia; cbn [strlen_loop app].
  - erewrite bind_ok by (by apply char_at_app). by rewrite Nat.add_0_r.
  - erewrite bind_ok by (by apply char_at_app). rewrite (proj2 (Z.eqb_neq c 0) Hc), cons_snoc, (length_snoc pre c), IH by lia.
    rewrite length_app. do 3 f_equal. cbn. lia.
Qed.

(** [strlen] counts the characters before the terminator. *)
Lemma strlen_ok o s : cstr o = Some s -> strlen o tt = Ok (Z.of_nat (length s), tt).
Proof.
  intros (post & -> & F)%cstr_Some. unfold strlen. apply (strlen_loop_ok _ [] s post F). rewrite length_app. cbn. lia.
Qed.

Lemma streq_loop_ok fuel pre pre' s t post post' :
  length pre = length pre' -> Forall (fun c => c <> 0) s -> Forall (fun c => c <> 0) t -> (length s < fuel)%nat ->
  exists r, streq_loop fuel (pre ++ s ++ 0 :: post) (pre' ++ t ++ 0 :: post') (Z.of_nat (length pre)) tt = Ok (r, tt) /\
    match r with
    | None => s <> t
    | Some i => exists u s' t', i = Z.of_nat (length pre + length u) /\ s = u ++ s' /\ t = u ++ t' /\ (s' = [] \/ t' = [])
    end.
Proof.
  intros Hl F. revert fuel pre pre' t Hl. induction F as [|c s Hc F IH]; intros [|fuel] pre pre' t Hl G Hf; cbn in Hf; try lia; cbn [streq_loop app].
  - erewrite bind_ok by (by apply char_at_app). cbn. eexists. split; [reflexivity|]. exists [], [], t. cbn. rewrite Nat.add_0_r. auto.
  - erewrite bind_ok by (by apply char_at_app). rewrite (proj2 (Z.eqb_neq c 0) Hc). destruct t as [|d t]; cbn [app].
    { erewrite bind_ok by (apply char_at_app; by rewrite Hl). cbn. eexists. split; [reflexivity|].
      exists [], (c :: s), []. cbn. rewrite Nat.add_0_r. auto. }
    apply Forall_cons in G as [Hd G]. erewrite bind_ok by (apply char_at_app; by rewrite Hl).
    rewrite (proj2 (Z.eqb_neq d 0) Hd). cbn [negb andb]. destruct (Z.eqb_spec c d) as [<-|Hcd]; cbn [negb].
    + rewrite (cons_snoc pre), (cons_snoc pre'), (length_snoc pre c).
      destruct (IH fuel (pre ++ [c]) (pre' ++ [c]) t) as (r & E & Hr); [by rewrite !length_app, Hl|done|lia|].
      exists r. split; [exact E|]. destruct r as [i|]; [|congruence].
      destruct Hr as (u & s' & t' & -> & -> & -> & Hr). exists (c :: u), s', t'. rewrite length_app. cbn. repeat split; [lia|done].
    + eexists. split; [reflexivity|]. congruence.
Qed.

(** [streq] compares the strings. *)
Lemma streq_ok oa ob a b : cstr oa = Some a -> cstr ob = Some b -> streq false (Some oa) (Some ob) tt = Ok (bool_decide (a = b), tt).
Proof.
  intros (pa & -> & Fa)%cstr_Some (pb & -> & Fb)%cstr_Some. unfold streq.
  destruct (streq_loop_ok (S (length (a ++ 0 :: pa))) [] [] a b pa pb) as (r & E & Hr); [done..|rewrite length_app; cbn; lia|].
  cbn [app length] in E. change (Z.of_nat 0) with 0 in E. rewrite (bind_ok _ _ _ _ _ E).
  destruct r as [i|]; [|by rewrite bool_decide_eq_false_2].
  destruct Hr as (u & s' & t' & -> & -> & -> & Hr). cbn [length Nat.add]. rewrite <-!app_assoc.
  apply Forall_app in Fa as [_ Fa], Fb as [_ Fb]. destruct s' as [|c s']; cbn [app].
  - erewrite bind_ok by (by apply char_at_app). cbn [Z.eqb]. destruct t' as [|d t']; cbn [app].
    + erewrite bind_ok by (by apply char_at_app). by rewrite bool_decide_eq_true_2.
    + erewrite bind_ok by (by apply char_at_app). apply Forall_cons in Fb as [Hd _].
      rewrite (proj2 (Z.eqb_neq d 0) Hd), bool_decide_eq_false_2; [done|]. by intros E'%(app_inv_head u).
  - destruct Hr as [?| ->]; [done|]. erewrite bind_ok by (by apply char_at_app). apply Forall_cons in Fa as [Hc _].
    rewrite (proj2 (Z.eqb_neq c 0) Hc), bool_decide_eq_false_2; [done|]. by intros E'%(app_inv_head u).
Qed.

Lemma strcopy_loop_ok fuel cs s post max_size dst :
  Forall (fun c => c <> 0) s -> 0 < max_size < 2 ^ 64 -> max_size <= Z.of_nat (length dst) -> Z.of_nat (length cs) < max_size ->
  (length dst < length cs + fuel)%nat ->
  let t := cs ++ take (Z.to_nat (max_size - 1) - length cs) s in
  strcopy_loop fuel (cs ++ s ++ 0 :: post) max_size (Z.of_nat (length cs)) (written [] cs dst) = Ok (tt, written [] (t ++ [0]) dst).
Proof.
  intros F Hm Hd. revert fuel cs. induction F as [|c s Hc F IH]; intros [|fuel] cs Hcs Hf; try lia; cbn [strcopy_loop];
    rewrite wrap_small by (unfold u_range; lia); (destruct (Z.ltb_spec (Z.of_nat (length cs)) (max_size - 1)) as [Hlt|Hge];
    [|replace (Z.to_nat (max_size - 1) - length cs)%nat with 0%nat by lia; cbn [take]; rewrite app_nil_r;
      apply buf_put_written; cbn; lia]); cbn [app]; (erewrite bind_ok by (by apply char_at_app)).
  - erewrite bind_ok by (apply buf_put_written; cbn; lia). rewrite take_nil, app_nil_r. done.
  - erewrite bind_ok by (apply buf_put_written; cbn; lia). rewrite (proj2 (Z.eqb_neq c 0) Hc), cons_snoc, (length_snoc cs c).
    rewrite IH by (rewrite length_app; cbn; lia). rewrite length_app. cbn [length].
    replace (Z.to_nat (max_size - 1) - length cs)%nat with (S (Z.to_nat (max_size - 1) - (length cs + 1))) by lia.
    cbn [take]. by rewrite <-!app_assoc.
Qed.

(** [strcopy] copies at most [max_size - 1] characters and terminates them. *)
Lemma strcopy_ok src s max_size dst :
  cstr src = Some s -> 0 < max_size < 2 ^ 64 -> max_size <= Z.of_nat (length dst) ->
  let t := take (Z.to_nat (max_size - 1)) s in
  strcopy src max_size dst = Ok (tt, t ++ [0] ++ drop (S (length t)) dst).
Proof.
  intros (post & -> & F)%cstr_Some Hm Hd t. unfold strcopy.
  pose proof (strcopy_loop_ok (S (length dst)) [] s post max_size dst F Hm Hd) as H. cbn [app length] in H.
  rewrite Nat.sub_0_r in H. change (written [] [] dst) with dst in H. erewrite bind_ok by reflexivity.
  change (Z.of_nat 0) with 0 in H. rewrite H by lia. fold t. unfold written. cbn [app].
  rewrite length_app, <-app_assoc. cbn. by rewrite Nat.add_1_r.
Qed.

(** ** Printing *)

(** The text of one conversion and the arguments it leaves *)
Definition render_conversion (k : Z) (ap : list va_arg) : option (list Z * list va_arg) :=
  if k =? 37 then Some ([37], ap)
  else if k =? 99 then match ap with VaInt z :: ap => Some ([wrap8 (wrap32 z)], ap) | _ => None end
  else if k =? 115 then match ap with VaStr o :: ap => s ← cstr (default null_str o); Some (s, ap) | _ => None end
  else if k =? 100 then match ap with VaInt z :: ap => Some (itoa 10 (as_signed 32 z), ap) | _ => None end
  else if k =? 117 then match ap with VaInt z :: ap => Some (itoa 10 (wrap32 z), ap) | _ => None end
  else if k =? 120 then match ap with VaInt z :: ap => Some (itoa 16 (wrap32 z), ap) | _ => None end
  else if k =? 112 then match ap with VaWord z :: ap => Some (itoa 16 (wrap64 z), ap) | _ => None end
  else if k =? 98 then match ap with VaWord z :: ap => Some (itoa 2 (wrap64 z), ap) | _ => None end
  else if k =? 108 then match ap with VaWord z :: ap => Some (itoa 10 (wrap64 z), ap) | _ => None end
  else Some ([37; k], ap).

(** The text of a format; none when an argument is missing or of another
    kind, and when the format ends in a lone percent sign *)
Fixpoint render (f : list Z) (ap : list va_arg) : option (list Z) :=
  match f with
  | [] => Some []
  | c :: f =>
      if c =? 37 then
        match f with
        | [] => None
        | k :: f => '(s, ap) ← render_conversion k ap; t ← render f ap; Some (s ++ t)
        end
      else t ← render f ap; Some (c :: t)
  end.

Lemma digits_le_length n base v : (length (digits_le n base v) <= n)%nat.
Proof. revert v. induction n as [|n IH]; intros v; cbn; [lia|]. case_match; cbn; [lia|]. specialize (IH (v / base)). lia. Qed.

Lemma itoa_short base v : (length (itoa base v) <= 67)%nat.
Proof.
  unfold itoa, digits, sign, prefix. pose proof (digits_le_length 64 base (Z.abs v)).
  rewrite !length_app, length_map. repeat case_match; rewrite ?length_reverse; cbn [length]; lia.
Qed.

(** A numeral contains no terminator. *)
Lemma itoa_no_zero base v : is_base base -> Z.abs v < 2 ^ 64 -> Forall (fun c => c <> 0) (itoa base v).
Proof.
  intros Hb Hv. unfold itoa. apply Forall_app. split; [unfold sign; case_match; repeat constructor; lia|].
  apply Forall_app. split; [unfold prefix; repeat case_match; repeat constructor; lia|].
  destruct (digits_ok base (Z.abs v) Hb) as (_ & F & _); [lia|]. apply Forall_map. eapply Forall_impl; [exact F|].
  intros d Hd. unfold digit_char, compose. cbn beta in *. destruct (d <? 10); lia.
Qed.

(** What the six numeric conversions read *)
Lemma wrap_wrap w z : 0 <= w -> wrap w (wrap w z) = wrap w z.
Proof. intros Hw. apply wrap_small, wrap_range. done. Qed.

Lemma conversion_value z :
  int_of (wrap32 z) STDINT_INT32 = as_signed 32 z /\ int_of (wrap32 z) STDINT_UINT32 = wrap32 z /\
  int_of (wrap64 z) STDINT_UINT64 = wrap64 z.
Proof.
  unfold int_of. cbn -[wrap as_signed]. unfold as_signed. by rewrite !wrap_wrap by lia.
Qed.

Section Print.
Context {A : Type} (putc : Z -> A -> A).

(** [putc] of each character *)
Definition put_all (s : list Z) (a : A) : A := foldl (fun a c => putc c a) a s.

Lemma put_all_app s t a : put_all (s ++ t) a = put_all t (put_all s a).
Proof. apply foldl_app. Qed.

Lemma puts_loop_ok fuel pre s post a b :
  Forall (fun c => c <> 0) s -> (length s < fuel)%nat ->
  puts_loop putc fuel (pre ++ s ++ 0 :: post) (Z.of_nat (length pre)) (a, b) = Ok (tt, (put_all s a, b)).
Proof.
  intros F. revert fuel pre a. induction F as [|c s Hc F IH]; intros [|fuel] pre a Hf; cbn in Hf; try lia; cbn [puts_loop app].
  - by erewrite bind_ok by (by apply char_at_app).
  - erewrite bind_ok by (by apply char_at_app). rewrite (proj2 (Z.eqb_neq c 0) Hc). erewrite bind_ok by reflexivity.
    rewrite cons_snoc, (length_snoc pre c). cbn [fst snd]. by rewrite IH by lia.
Qed.

Lemma puts_ok o s a b : cstr o = Some s -> puts_ putc o (a, b) = Ok (tt, (put_all s a, b)).
Proof.
  intros (post & -> & F)%cstr_Some. unfold puts_. apply (puts_loop_ok _ [] s post a b F). rewrite length_app. cbn. lia.
Qed.

Lemma put_number_ok n n_type base a b :
  0 <= n_type < 8 -> is_base base -> length b = 1024%nat ->
  exists b', put_number putc n n_type base (a, b) = Ok (tt, (put_all (itoa base (int_of n n_type)) a, b')) /\ length b' = 1024%nat.
Proof.
  intros Ht Hb Hl. set (s := itoa base (int_of n n_type)). pose proof (itoa_short base (int_of n n_type)) as Hs. fold s in Hs.
  exists (s ++ [0] ++ drop (S (length s)) b). split.
  - unfold put_number. erewrite bind_ok; [|unfold in_buf; cbn [snd]; rewrite stdint_to_ascii_spec by (done || lia); fold s;
      rewrite (proj2 (Z.leb_le _ _)) by lia; reflexivity].
    cbn [fst]. erewrite bind_ok by reflexivity. cbn [snd]. apply puts_ok. apply cstr_Some. eexists. split; [reflexivity|].
    apply itoa_no_zero; [done|]. by destruct (read_union_ok n n_type b Ht) as (? & ? & ? & _ & _ & ?).
  - rewrite !length_app, length_drop. cbn. lia.
Qed.

(** A conversion prints its text. *)
Lemma convert_ok k ap s ap' a b :
  render_conversion k ap = Some (s, ap') -> length b = 1024%nat ->
  exists b', convert putc k ap (a, b) = Ok (ap', (put_all s a, b')) /\ length b' = 1024%nat.
Proof.
  intros Hr Hl. unfold render_conversion in Hr. unfold convert.
  assert (forall n n_type base v ap0 ap0', 0 <= n_type < 8 -> is_base base -> int_of n n_type = v ->
    Some (itoa base v, ap0) = Some (s, ap') -> ap0 = ap0' ->
    exists b', (put_number putc n n_type base ;; ret ap0') (a, b) = Ok (ap', (put_all s a, b')) /\ length b' = 1024%nat) as Hn.
  { intros n n_type base v ap0 ap0' Ht Hb <- [= <- <-] ->. destruct (put_number_ok n n_type base a b Ht Hb Hl) as (b' & E & Hb').
    exists b'. split; [|done]. by rewrite (bind_ok _ _ _ _ _ E). }
  destruct (k =? 37); [simplify_eq; by exists b|].
  destruct (k =? 99); [destruct ap as [|[z|z|o] ap]; simplify_eq; by exists b|].
  destruct (k =? 115).
  { destruct ap as [|[z|z|o] ap]; try done. destruct (cstr (default null_str o)) as [s'|] eqn:Es; simplify_eq/=.
    exists b. split; [|done]. erewrite bind_ok by reflexivity. cbn beta iota. by erewrite bind_ok by (by apply puts_ok). }
  do 6 (case_match; [destruct ap as [|[z|z|o] ap]; try done; erewrite bind_ok by reflexivity; cbn beta iota;
    (eapply Hn; [..|exact Hr|done]; [vm_compute; done|unfold is_base; tauto|apply conversion_value])|]).
  simplify_eq. by exists b.
Qed.

(** The loop over the format prints its text. *)
Lemma print_loop_ok fuel pre f post ap out a b :
  Forall (fun c => c <> 0) f -> render f ap = Some out -> (length f < fuel)%nat -> length b = 1024%nat ->
  exists b', print_loop putc fuel (pre ++ f ++ 0 :: post) (Z.of_nat (length pre)) ap (a, b) = Ok (tt, (put_all out a, b')).
Proof.
  revert pre f ap out a b. induction fuel as [|fuel IH]; intros pre f ap out a b F Hr Hf Hl; [lia|].
  destruct f as [|c f]; cbn [print_loop render app] in *.
  { erewrite bind_ok by (by apply char_at_app). simplify_eq. by exists b. }
  apply Forall_cons in F as [Hc F]. erewrite bind_ok by (by apply char_at_app). rewrite (proj2 (Z.eqb_neq c 0) Hc).
  destruct (Z.eqb_spec c 37) as [->|Hp]; cbn [negb].
  - destruct f as [|k f]; [done|]. destruct (render_conversion k ap) as [[s ap']|] eqn:Ek; [|done]. cbn in Hr.
    destruct (render f ap') as [t|] eqn:Et; [|done]. cbn in Hr. simplify_eq. cbn [app length] in *.
    rewrite cons_snoc, (length_snoc pre 37). erewrite bind_ok by (by apply char_at_app).
    destruct (convert_ok k ap s ap' a b Ek Hl) as (b' & E & Hb'). rewrite (bind_ok _ _ _ _ _ E).
    rewrite cons_snoc. replace (Z.of_nat (length pre) + 2) with (Z.of_nat (length ((pre ++ [37]) ++ [k]))) by (rewrite !length_app; cbn; lia).
    apply Forall_cons in F as [_ F]. rewrite put_all_app. apply IH; [done..|lia|done].
  - destruct (render f ap) as [t|] eqn:Et; [|done]. cbn in Hr. simplify_eq. erewrite bind_ok by reflexivity.
    rewrite cons_snoc, (length_snoc pre c). cbn [length fst snd] in *. apply (IH _ f ap t (putc c a)); [done..|lia|done].
Qed.

End Print.

(** ** Theorems *)

(** C38: [stdint_to_ascii] writes the numeral of the integer it is given (of
    any width, signed or not, the smallest ones included, in any of the four
    bases) with its terminator and leaves the rest of the buffer as it is,
    and it panics exactly when the numeral and the terminator do not fit; the
    digits of the numeral stand for the absolute value and have no leading
    zero. *)
Theorem stdint_to_ascii_ok n n_type base buf_len buf
    (Ht : 0 <= n_type < 8) (Hb : is_base base) (Hlen : buf_len <= Z.of_nat (length buf)) :
  let v := int_of n n_type in
  let s := itoa base v in
  stdint_to_ascii n n_type buf_len base buf =
    (if Z.of_nat (length s) + 1 <=? buf_len then Ok (tt, s ++ [0] ++ drop (S (length s)) buf) else Err EPanic) /\
  digits_value base (digits base (Z.abs v)) = Z.abs v /\
  Forall (fun d => 0 <= d < base) (digits base (Z.abs v)) /\
  (hd 0 (digits base (Z.abs v)) = 0 -> digits base (Z.abs v) = [0]).
Proof.
  intros v s. split; [by apply stdint_to_ascii_spec|]. apply digits_ok; [done|].
  destruct (read_union_ok n n_type buf Ht) as (? & ? & ? & _ & _ & ?). subst v. lia.
Qed.

(** The smallest 64-bit integer fills a buffer of [INT64_TO_ASCII_BUF] = 21. *)
Lemma stdint_to_ascii_ok_witness :
  stdint_to_ascii (2 ^ 63) STDINT_INT64 21 STDINT_BASE_REPR_DEC (replicate 22 170) =
    Ok (tt, [45; 57; 50; 50; 51; 51; 55; 50; 48; 51; 54; 56; 53; 52; 55; 55; 53; 56; 48; 56; 0; 170]) /\
  stdint_to_ascii (2 ^ 63) STDINT_INT64 20 STDINT_BASE_REPR_DEC (replicate 22 170) = Err EPanic.
Proof.
  split.
  - rewrite (proj1 (stdint_to_ascii_ok (2 ^ 63) STDINT_INT64 STDINT_BASE_REPR_DEC 21 (replicate 22 170)
      ltac:(vm_compute; done) ltac:(unfold is_base; vm_compute; tauto) ltac:(vm_compute; done))). vm_compute. reflexivity.
  - rewrite (proj1 (stdint_to_ascii_ok (2 ^ 63) STDINT_INT64 STDINT_BASE_REPR_DEC 20 (replicate 22 170)
      ltac:(vm_compute; done) ltac:(unfold is_base; vm_compute; tauto) ltac:(vm_compute; done))). vm_compute. reflexivity.
Defined.

(** C39: [str_fmt_print] ends and gives [putc] exactly the characters of the
    rendered format, in order, for every format and arguments that fit each
    other: plain characters, percent signs, characters, strings, null
    strings and numerals; its buffer is large enough for each of them. *)
Theorem str_fmt_print_ok {A} (putc : Z -> A -> A) fmt f ap out buf a
    (Hf : cstr fmt = Some f) (Hr : render f ap = Some out) (Hbuf : length buf = 1024%nat) :
  str_fmt_print putc fmt ap buf a = Ok (put_all putc out a).
Proof.
  apply cstr_Some in Hf as (post & -> & F). unfold str_fmt_print.
  destruct (print_loop_ok putc (S (length (f ++ 0 :: post))) [] f post ap out a buf F Hr) as (b' & E); [rewrite length_app; cbn; lia|done|].
  cbn [app length] in E. change (Z.of_nat 0) with 0 in E. by rewrite E.
Qed.

(** "a=%x %s%%" with 0xBEEF and a null string *)
Lemma str_fmt_print_ok_witness :
  str_fmt_print (fun c l => l ++ [c]) [97; 61; 37; 120; 32; 37; 115; 37; 37; 0] [VaInt 48879; VaStr None] (replicate 1024 170) [] =
  Ok [97; 61; 48; 120; 66; 69; 69; 70; 32; 40; 110; 117; 108; 108; 41; 37].
Proof.
  rewrite (str_fmt_print_ok _ _ [97; 61; 37; 120; 32; 37; 115; 37; 37] _
    [97; 61; 48; 120; 66; 69; 69; 70; 32; 40; 110; 117; 108; 108; 41; 37]) by (vm_compute; reflexivity).
  vm_compute. reflexivity.
Defined.

(** A format that ends in a percent sign: the terminator is taken for the
    conversion, and the loop reads on behind it. *)
Theorem str_fmt_print_lone_percent {A} (putc : Z -> A -> A) ap buf a : str_fmt_print putc [37; 0] ap buf a = Err EFault.
Proof. reflexivity. Qed.

(** [uint8_t_to_ascii_char] panics for 9. *)
Theorem uint8_t_to_ascii_char_nine : uint8_t_to_ascii_char 8 tt = Ok (56, tt) /\ uint8_t_to_ascii_char 9 tt = Err EPanic.
Proof. done. Qed.
